(* ===== verification/_CoqProject ===== *)
-Q . S2P
Prelude.v
Types.v
SortedMap.v
OrderBook.v
BookSpec.v
BookFacts.v
BookEvents.v
BookInv.v
BookRefine.v
BookCommands.v
BookProps.v
Bytes.v
Float.v
Arithmetic.v
Layout.v
Exchange.v
ExchangeProps.v
Risk.v
EventLog.v
Protocol.v
SpscRing.v
Pipeline.v
Oms.v
OmsProps.v
OmsRecovery.v
Router.v
Position.v
Text.v
Fix.v
FixProps.v
FixSession.v
FixSessionProps.v
FixStream.v
FixResend.v
MarketData.v
MarketDataProps.v
Consolidated.v
ReplayControl.v
RouteFeed.v
Schedule.v
ExecutionEngine.v
LiveAlgo.v
LiveAlgoProps.v
AlgoScheduler.v
AlgoSchedulerProps.v
ExecutionRisk.v
Rounding.v
Decimal.v
MarketReplay.v
Backtest.v
BacktestProps.v
FixGateway.v
Recording.v
RecordingProps.v
RecordingTypes.v
RecordingReplay.v
ReplayServer.v
ReplayServerProps.v
Tca.v
DropCopy.v
DropCopyProps.v
Reconciliation.v
ReconciliationProps.v
VenueHealth.v
LatencyStats.v
MidpointHistory.v
QueueModel.v
Feeds.v
Kraken.v
KrakenProps.v
Binance.v
BinanceProps.v
LiveMarket.v
LiveMarketProps.v
ApiServer.v
ApiServerProps.v
ApiOrders.v
LiveQuotes.v
Dashboard.v
DashboardProps.v
