(* ===== verification/Prelude.v ===== *)
(** * MiniMatch: a verification library for the C++ trading system

    MiniMatch is an exchange and an execution platform in C++.  An exchange keeps
    one order book per instrument and is fed by a pipeline thread through a
    lock-free ring; its inputs go to an event log, its state to snapshot files,
    its clients speak a binary protocol and are limited by a risk engine.  On the
    other side of the market an order management system works parent orders with
    child orders: schedules cut an order into slices, a router spreads a slice
    over the levels of several venues, whose books come from level-2 market data
    that the feeds of three venues bring, and positions follow the fills.  A FIX
    codec, session and server connect clients, recorders and a replay controller
    keep and steer recorded sessions.  The API server joins the exchange, the
    order management system, the positions and their limits, the drop copy and a
    volatility breaker; the dashboard is an exchange whose past can be shown.

    ** The files

    Shared:
    - [Prelude]: machine integers, the exception and state monads, tactics, lists.
    - [Bytes], [Float], [Arithmetic]: bytes; doubles as [spec_float]; the class of
      arithmetics with its instances for doubles and rationals.
    - [Rounding], [Decimal]: canonical doubles, what rounding does, the bytes of a
      double; [std::stod], [std::stoull] and [std::to_string].
    - [Text]: character strings, searches in them and printed integers.
    - [SortedMap]: [std::map] as a sorted list, over a class of strict orders.

    The order book (include/minimatch/types.hpp, order_book.hpp,
    src/order_book.cpp):
    - [Types], [OrderBook]: the data and every member function on the node array,
      free list, id index and level maps.
    - [BookSpec]: the price-time book, two queues of orders, which is what the
      book promises; [BookFacts], [BookEvents]: facts about it.
    - [BookInv], [BookRefine], [BookCommands]: the representation invariant and
      the refinement of every operation; [BookProps]: the properties.

    The exchange and what surrounds it:
    - [Layout]: the requests as they lie in memory; [Exchange], [ExchangeProps]:
      exchange.hpp, exchange.cpp with halts, price bands and snapshot files.
    - [Risk] (risk.cpp), [EventLog] (event_log.cpp), [Protocol] (protocol.cpp).
    - [SpscRing] (spsc_ring.hpp), [Pipeline] (pipeline.cpp): the steps of the two
      threads interleave in any way; loads may see any store that the memory
      order of the code allows.

    Execution:
    - [Oms], [OmsProps], [OmsRecovery]: oms.cpp and the persistence callback of
      apps/api.cpp.
    - [Router] (router.cpp), [RouteFeed] (router_market_data.cpp), [LiveQuotes]
      (live_router_quotes.cpp), [Schedule] (execution_algo.cpp, execution.cpp),
      [ExecutionEngine] (execution_engine.cpp with [std::mt19937_64],
      execution_replay.cpp), [LiveAlgo],
      [LiveAlgoProps] (live_algo_executor.cpp), [AlgoScheduler],
      [AlgoSchedulerProps] (algo_scheduler.cpp), [ExecutionRisk]
      (execution_risk.cpp), [Backtest], [BacktestProps] (backtest_engine.cpp),
      [Position] (position_manager.cpp, portfolio_risk.cpp), [Tca] (tca.cpp,
      execution_analytics.cpp), [QueueModel] (queue_model.cpp).
    - [DropCopy], [DropCopyProps] (drop_copy.cpp over a class of SQL tables),
      [Reconciliation], [ReconciliationProps] (reconciliation.cpp).

    Market data:
    - [MarketData], [MarketDataProps], [Consolidated]: market_data.cpp.
    - [Feeds]: what the feeds share, with a class of property trees for
      boost::property_tree; [Kraken], [KrakenProps] (kraken_l2.cpp, kraken_feed.cpp);
      [Binance], [BinanceProps] (binance_l2.cpp, binance_feed.cpp); [LiveMarket],
      [LiveMarketProps]: coinbase_l2.cpp and the state of
      apps/live_market_data_ws.cpp.
    - [VenueHealth], [LatencyStats], [MidpointHistory]: the files of these names.
    - [MarketReplay]: market_replay.cpp; [ReplayControl]: replay_control.cpp.
    - [Recording], [RecordingProps], [RecordingTypes]: the files, recorder and
      reader of market_recorder.cpp; [RecordingReplay]: its replay and checksum;
      [ReplayServer], [ReplayServerProps]: the loop of apps/market_replay_ws.cpp on
      these and [ReplayControl].

    FIX:
    - [Fix], [FixProps] (fix.cpp), [FixSession], [FixSessionProps]
      (fix_session.cpp), [FixStream], [FixResend] (the stream and resend handling
      of apps/fix_server.cpp with the two ends of a session), [FixGateway]
      (fix_gateway.cpp).

    Applications, composed of the above:
    - [ApiServer]: the state, callbacks, sampler and changing requests of
      apps/api.cpp; [ApiServerProps]: requests about the market; [ApiOrders]: fills,
      halts, restarts and the breaker.
    - [Dashboard], [DashboardProps]: the state, scenarios, arena and timeline of
      apps/web.cpp.

    ** What the theorems show

    - The book implements price-time priority: for any commands it has the
      results, the handler calls, the resting orders and the hash of the
      price-time book (refinement), and from that quantity is conserved, trades
      are fair and in priority order, fill-or-kill, post-only and immediate orders
      keep their promises, cancel and replace touch what they should, and a
      restored book continues like the original.
    - The exchange keeps instruments apart, gates submission by its controls and
      restores what its snapshot files hold; a truncated event log gives back the
      records before the cut; messages decode to what was encoded; accepted
      orders are within the risk limits.
    - The ring is a queue, the pipeline executes what was submitted in order, for
      every interleaving of the threads.
    - The order management system balances after any commands, commands change
      nothing when they throw and never reopen a final order, and the store
      restores the state.
    - A route plan takes each level at most once, within limits and in cost order;
      over market data it takes only levels of synchronized books; the quotes read
      from files are the levels published there; schedules add up; a live
      execution and the order management system agree to the last bit, and no
      order is left open; every job of the scheduler ends and leaves no order
      open; a backtest fills each slice at the first quote at or after its time
      and reports just that; profit is cash plus value; the costs of an execution
      add up; the queue model is a queue.
    - The drop copy answers from its cache as from the whole history;
      reconciliation finds nothing wrong where nothing is.
    - Level-2 books stay sorted and uncrossed; a reader that lost updates ends
      with the book that lost none; the consolidated prices are the best; the
      books of Kraken and Binance arrive in the market as the exchange publishes
      them; health, latencies and midpoints are functions of what was observed.
    - FIX messages parse to what was encoded, a changed byte is detected, messages
      are cut out of the stream as they were sent, numbers are consecutive, and a
      gap is recovered (by the server as long as no administrative message lies in
      it, because its CompIDs were moved from); a message to the gateway does all or nothing.
    - Recordings read back, also behind a crash; whatever a file holds, the reader
      returns what is there: the file is the bytes of the records it returns, up to
      the words of a NaN, and a rest; a replay is the recorded session again, also
      for what the live gateway recorded; the replay server shows the market after
      a prefix of the records, whatever the client commands; its thread never
      misses a wake-up.
    - The API server answers as the exchange and the risk checks alone would, up
      to the first trade, where it stops for ever; the positions are those of the
      fills whose command returned, and a breach of the portfolio limits by them
      halts every order until a resume; a restart restores orders and
      positions; the breaker trips exactly on the configured movement.
    - The dashboard's timeline shows any earlier moment as it was.

    Examples prove what modelling found to be wrong, each next to the theorem it
    limits: fill-or-kill with self-trade prevention and level totals that wrap in
    [BookProps], replacement past the controls in [ExchangeProps], the notional
    overflow in [Risk], the reopened log in [EventLog], overfilled parents in
    [OmsProps], the moved-from strings in [FixResend], endless rejects in
    [FixSessionProps], a restart that keeps a seek in [ReplayControl], executions
    that fail after a rejected child or by rounding in [LiveAlgoProps],
    cancellations that are not saved in [AlgoSchedulerProps], backtests that an
    empty quote ends in [BacktestProps], orders that a cancellation hides in
    [FixGateway], recordings that are appended to after a crash in
    [RecordingProps], events that a restart hides in [DropCopyProps], differences
    that are none in [ReconciliationProps], stale venues that look healthy in
    [VenueHealth] and [LiveMarketProps], late observations in [MidpointHistory],
    connections that end without need in [KrakenProps] and [BinanceProps], the
    server that its first trade stops in [ApiServerProps], fills that a failed save
    hides from positions and limits in [ApiOrders], and the crossed book that a
    restore may bring in [BookProps].

    ** Conventions

    - Integers are [Z] in the range of their type; every operation that can leave
      it goes through [u32], [u64], [i32] or [i64].  Signed overflow, which C++
      leaves undefined, wraps; where a theorem needs it, a hypothesis excludes it.
    - A double is a [spec_float] of binary64.  Theorems about sums are stated in
      exact rational arithmetic on the same definitions where rounding would
      make them false ([Position], [Schedule], [Tca]), and in doubles elsewhere.
    - An exception is a value; a member function that throws leaves a state too.
      Memory allocation never fails.
    - Handlers and callbacks are ordered lists of their calls.  A hash map is
      visited in an arbitrary order, which is an argument.  [std::sort] is merge
      sort; where equal elements could be told apart, theorems do not use it.
      [std::stable_sort] is insertion sort, which is proved stable.
    - A mutex makes its section one step; atomics are explicit loads and stores.
      A thread that locks a mutex it holds waits for ever ([Hung] in [ApiServer]),
      which is what a pthread mutex does.
    - Clock readings, quotes, files, received bytes and the numbers that a
      distribution draws are arguments or any sequences.  boost, zlib and SQLite
      are parameters: classes with the laws their documentation gives, and for the
      order store what it answers to each row ([StoreAnswers] in [ApiServer]).
    - A job of [AlgoScheduler] runs alone on the order management system: the
      code has no lock there, and what a race does is not modelled.

    ** Fuel

    Walks over the chains of the book have the number of nodes as fuel, the
    matching loops one more; [BookRefine] and [BookCommands] prove that it is
    enough in every state that the commands reach, so no result of [BookProps] is
    [out_of_fuel].  [split_loop] of [Fix] has the length of its string,
    [extract_loop] of [FixStream] one more than the buffer: each round takes a
    character at least ([FixProps.split_loop_fuel], [FixStream.read_stream_ok]).
    The same holds of [scan_levels] in [LiveQuotes], [pieces] in [Dashboard] and
    [tokens] in [ApiServer], which have the length of their text.  Twenty digits
    print every 64-bit number.  The loops over a recording have its length as
    fuel, since each record has sixteen bytes at least
    ([RecordingTypes.returned_records_are_held]).  Other recursion is structural.

    ** Not modelled

    - The SQLite stores (algo, execution, fix, midpoint, oms and settings store):
      they are statements for a library that is not in the repository.
      [OmsRecovery] and [DropCopy] state what a store must give back.  A step that
      fails in the middle of a scan, which the code takes for its end, and texts
      with a NUL, which SQLite cuts, are not represented.
    - Sockets, threads that serve them, HTTP headers, WebSocket frames and the
      JSON of the answers: apps/server.cpp, client.cpp, drop_copy_ws.cpp,
      market_data_ws.cpp and the rest of api.cpp, web.cpp and
      live_market_data_ws.cpp.
    - quant.cpp: exp, log and erfc, whose rounding the standard leaves open.
    - The command-line tools under apps/ and GoogleTest under build-ci/. *)

From stdpp Require Export base gmap sets list strings sorting.
From Stdlib Require Export ZArith Lia.

#[global] Open Scope Z_scope.

(** ** Machine integers

    A C++ unsigned integer is a [Z] in range; the operations that can leave
    the range are written with the reduction that the language performs. *)

Definition u8 (z : Z) : Z := z mod 2 ^ 8.
Definition u32 (z : Z) : Z := z mod 2 ^ 32.
Definition u64 (z : Z) : Z := z mod 2 ^ 64.

Definition in_u32 (z : Z) : Prop := 0 <= z < 2 ^ 32.
Definition in_u64 (z : Z) : Prop := 0 <= z < 2 ^ 64.

Create HintDb mm.

Lemma u32_small z : in_u32 z -> u32 z = z.
Proof. intros H. apply Z.mod_small, H. Qed.

Lemma u64_small z : in_u64 z -> u64 z = z.
Proof. intros H. apply Z.mod_small, H. Qed.

Lemma u32_range z : in_u32 (u32 z).
Proof. apply Z.mod_pos_bound. reflexivity. Qed.

Lemma u64_range z : in_u64 (u64 z).
Proof. apply Z.mod_pos_bound. reflexivity. Qed.

Lemma u32_add_l x y : u32 (u32 x + y) = u32 (x + y).
Proof. unfold u32. apply Zplus_mod_idemp_l. Qed.

Lemma u64_add_l x y : u64 (u64 x + y) = u64 (x + y).
Proof. unfold u64. apply Zplus_mod_idemp_l. Qed.

Lemma u32_sub_l x y : u32 (u32 x - y) = u32 (x - y).
Proof. unfold u32. apply Zminus_mod_idemp_l. Qed.

#[export] Hint Resolve u32_range u64_range : mm.

(** ** Exceptions and stateful code

    A throwing C++ function returns [Throw] with the exception it raises; a
    member function that changes its object is a computation [ST S A], which
    leaves the object in a state also when it throws.  [undefined] marks the
    places where C++ gives the program no meaning, [out_of_fuel] no exception of
    the code at all. *)

Inductive exn : Type :=
| runtime_error (what : string)
| invalid_argument (what : string)
| logic_error (what : string)
| out_of_range (what : string)
| undefined (what : string)
| out_of_fuel.

(** [exception::what] *)
Definition what (e : exn) : string :=
  match e with
  | runtime_error m | invalid_argument m | logic_error m | out_of_range m | undefined m => m
  | out_of_fuel => ""
  end.

Inductive result (A : Type) : Type :=
| Ok (a : A)
| Throw (e : exn).
Arguments Ok {A} a.
Arguments Throw {A} e.

#[export] Instance Ok_inj A : Inj (=) (=) (@Ok A).
Proof. by intros x y [= ->]. Qed.

Definition ST (S A : Type) : Type := S -> result A * S.

#[export] Instance st_ret S : MRet (ST S) := fun A a s => (Ok a, s).
#[export] Instance st_bind S : MBind (ST S) := fun A B k m s =>
  match m s with
  | (Ok a, s') => k a s'
  | (Throw e, s') => (Throw e, s')
  end.

Definition throw {S A} (e : exn) : ST S A := fun s => (Throw e, s).
Definition get {S} : ST S S := fun s => (Ok s, s).
Definition modify {S} (f : S -> S) : ST S unit := fun s => (Ok tt, f s).

(** Code that may throw and does not touch the state. *)
Definition lift {S A} (x : result A) : ST S A := fun s => (x, s).

#[export] Instance result_ret : MRet result := fun A a => Ok a.
#[export] Instance result_bind : MBind result := fun A B k m =>
  match m with
  | Ok a => k a
  | Throw e => Throw e
  end.

(** A check that throws, in code that does not touch a state. *)
Definition guard_or (b : bool) (e : exn) : result unit :=
  if b then Ok tt else Throw e.

(** ** Tactics of the development *)

(** Split every conjunction of the context and every existential. *)
Ltac deconj :=
  repeat match goal with
  | H : _ /\ _ |- _ => destruct H
  | H : exists _, _ |- _ => destruct H
  end.

(** Turn the boolean tests of the code into propositions. *)
Ltac breflect :=
  repeat match goal with
  | H : (_ && _)%bool = true |- _ => apply andb_true_iff in H; destruct H
  | H : (_ || _)%bool = false |- _ => apply orb_false_iff in H; destruct H
  | H : negb _ = true |- _ => apply negb_true_iff in H
  | H : negb _ = false |- _ => apply negb_false_iff in H
  | H : (_ <? _) = true |- _ => apply Z.ltb_lt in H
  | H : (_ <? _) = false |- _ => apply Z.ltb_ge in H
  | H : (_ <=? _) = true |- _ => apply Z.leb_le in H
  | H : (_ <=? _) = false |- _ => apply Z.leb_gt in H
  | H : (_ =? _) = true |- _ => apply Z.eqb_eq in H
  | H : (_ =? _) = false |- _ => apply Z.eqb_neq in H
  | H : bool_decide _ = true |- _ => apply bool_decide_eq_true_1 in H
  | H : bool_decide _ = false |- _ => apply bool_decide_eq_false_1 in H
  end.

(** Case analysis on the first test of the goal. *)
Ltac case_if :=
  match goal with
  | |- context [if ?b then _ else _] => let E := fresh "E" in destruct b eqn:E
  end.

(** Case analysis on the first test of a hypothesis. *)
Ltac case_if_in H :=
  match type of H with
  | context [if ?b then _ else _] => let E := fresh "E" in destruct b eqn:E
  end.

(** ** Lists *)

Definition sumZ (l : list Z) : Z := foldr Z.add 0 l.

Lemma sumZ_app l k : sumZ (l ++ k) = sumZ l + sumZ k.
Proof. unfold sumZ. induction l as [|x l IH]; simpl; lia. Qed.

Lemma sumZ_cons x l : sumZ (x :: l) = x + sumZ l.
Proof. reflexivity. Qed.

Lemma sumZ_nonneg l : Forall (fun z => 0 <= z) l -> 0 <= sumZ l.
Proof. induction 1; simpl; lia. Qed.

(** The vector operations of the standard library that the code uses on the
    end of a vector. *)
Definition push_back {A} (v : list A) (x : A) : list A := v ++ [x].

Definition pop_back {A} (v : list A) : option (A * list A) :=
  match reverse v with
  | [] => None
  | x :: r => Some (x, reverse r)
  end.

Lemma pop_back_snoc {A} (v : list A) x : pop_back (v ++ [x]) = Some (x, v).
Proof. unfold pop_back. rewrite reverse_snoc, reverse_involutive. reflexivity. Qed.

Lemma pop_back_nil {A} (v : list A) : pop_back v = None <-> v = [].
Proof.
  split; [|intros ->; reflexivity].
  destruct v as [|y v _] using rev_ind; [done|]. by rewrite pop_back_snoc.
Qed.

Lemma pop_back_inv {A} (v : list A) x w : pop_back v = Some (x, w) -> v = w ++ [x].
Proof.
  destruct v as [|y v _] using rev_ind; [done|].
  rewrite pop_back_snoc. congruence.
Qed.

Lemma Forall_mono {A} (P Q : A -> Prop) (l : list A) :
  (forall x, x ∈ l -> P x -> Q x) -> Forall P l -> Forall Q l.
Proof. rewrite !Forall_forall. eauto. Qed.

Lemma filter_all {A} (P : A -> Prop) `{!forall x, Decision (P x)} l : Forall P l -> filter P l = l.
Proof. induction 1 as [|x l Hx _ IH]; [done|]. by rewrite filter_cons_True, IH. Qed.

Lemma filter_none {A} (P : A -> Prop) `{!forall x, Decision (P x)} l :
  Forall (fun x => ~ P x) l -> filter P l = [].
Proof. induction 1 as [|x l Hx _ IH]; [done|]. by rewrite filter_cons_False, IH. Qed.

Lemma elem_of_concat {A} (x : A) (ll : list (list A)) :
  x ∈ concat ll <-> exists l, x ∈ l /\ l ∈ ll.
Proof.
  rewrite list_elem_of_In, in_concat.
  setoid_rewrite list_elem_of_In. firstorder.
Qed.

Lemma fmap_sublist {A B} (f : A -> B) (l k : list A) :
  l `sublist_of` k -> (f <$> l) `sublist_of` (f <$> k).
Proof. induction 1; cbn; by constructor. Qed.

Lemma StronglySorted_sublist {A} (R : A -> A -> Prop) (l k : list A) :
  l `sublist_of` k -> StronglySorted R k -> StronglySorted R l.
Proof.
  induction 1 as [|x l k H IH|x l k H IH]; intros S; [constructor| |].
  - inversion S; subst. constructor; [auto|].
    rewrite Forall_forall in *. intros y Hy. apply H3. by eapply elem_of_sublist.
  - inversion S; subst. auto.
Qed.

Lemma StronglySorted_at {A} (R : A -> A -> Prop) (l : list A) i j x y : StronglySorted R l ->
  (i < j)%nat -> l !! i = Some x -> l !! j = Some y -> R x y.
Proof.
  intros HS. revert i j. induction HS as [|z l _ IH HF]; intros [|i] [|j] Hij Hx Hy; try done; try lia.
  - cbn in *. injection Hx as ->. rewrite Forall_forall in HF. apply HF. by eapply list_elem_of_lookup_2.
  - cbn in *. eapply IH; [|done|done]. lia.
Qed.

(** ** Stable sorting

    [std::stable_sort] by an integer key. *)
Section stable_sort.
Context {A : Type} (key : A -> Z).

Fixpoint insert_by (x : A) (l : list A) : list A :=
  match l with
  | [] => [x]
  | y :: l => if key x <=? key y then x :: y :: l else y :: insert_by x l
  end.

Definition stable_sort (l : list A) : list A := foldr insert_by [] l.

Lemma insert_by_perm x l : insert_by x l ≡ₚ x :: l.
Proof.
  induction l as [|y l IH]; cbn; [done|]. destruct (key x <=? key y); [done|].
  rewrite IH. apply Permutation_swap.
Qed.

Lemma stable_sort_perm l : stable_sort l ≡ₚ l.
Proof. induction l as [|x l IH]; [done|]. cbn. by rewrite insert_by_perm, IH. Qed.

Lemma insert_by_sorted x l : StronglySorted (fun y z => key y <= key z) l ->
  StronglySorted (fun y z => key y <= key z) (insert_by x l).
Proof.
  induction 1 as [|y l HS IH HF]; cbn; [by repeat constructor|].
  destruct (Z.leb_spec (key x) (key y)).
  - constructor; [by constructor|]. constructor; [done|]. eapply Forall_mono, HF. cbn. lia.
  - constructor; [done|]. rewrite insert_by_perm. constructor; [lia|done].
Qed.

Lemma stable_sort_sorted l : StronglySorted (fun y z => key y <= key z) (stable_sort l).
Proof. induction l as [|x l IH]; [constructor|]. by apply insert_by_sorted. Qed.

Lemma insert_by_stable x l k :
  filter (fun y => key y = k) (insert_by x l) = filter (fun y => key y = k) (x :: l).
Proof.
  induction l as [|y l IH]; [done|]. cbn [insert_by]. destruct (Z.leb_spec (key x) (key y)); [done|].
  rewrite (filter_cons _ y), IH, !filter_cons. repeat case_decide; done || lia.
Qed.

Lemma stable_sort_stable l k :
  filter (fun y => key y = k) (stable_sort l) = filter (fun y => key y = k) l.
Proof.
  induction l as [|x l IH]; [done|]. cbn [stable_sort foldr]. fold (stable_sort l).
  by rewrite insert_by_stable, !filter_cons, IH.
Qed.

End stable_sort.
