(* ===== verification/Types.v ===== *)
(** * Types of the matching engine ([include/minimatch/types.hpp])

    Identifiers, prices and quantities are integers of the widths the header
    gives them: [OrderId], [Sequence] 64 bits unsigned, [Price] 64 bits signed,
    [Quantity], [ClientId], [SymbolId] 32 bits unsigned. *)

From S2P Require Import Prelude.

Notation OrderId := Z (only parsing).
Notation Sequence := Z (only parsing).
Notation Price := Z (only parsing).
Notation Quantity := Z (only parsing).
Notation ClientId := Z (only parsing).
Notation SymbolId := Z (only parsing).

Definition MARKET_PRICE : Price := 0.
Definition DEFAULT_SYMBOL : SymbolId := 1.

Inductive Side := Buy | Sell.

Inductive SelfTradePreventionPolicy :=
| StpNone | CancelNewest | CancelOldest | CancelBoth.

Inductive OrderType := Limit | Market | IOC | FOK | PostOnly.

Inductive RejectReason :=
| RejectNone | DuplicateOrderId | UnknownOrder | InvalidQuantity | InvalidPrice
| CapacityExceeded | WouldTrade | InsufficientLiquidity | ClientMismatch
| InvalidReplacement | TradingHalted | PriceBandViolation.

Record OrderRequest := {
  req_order_id : OrderId;
  req_client_id : ClientId;
  req_side : Side;
  req_type : OrderType;
  req_price : Price;
  req_quantity : Quantity;
  req_symbol : SymbolId
}.

Record CancelRequest := {
  can_order_id : OrderId;
  can_client_id : ClientId;
  can_symbol : SymbolId
}.

Record ReplaceRequest := {
  rep_order_id : OrderId;
  rep_client_id : ClientId;
  rep_new_price : Price;
  rep_new_quantity : Quantity;
  rep_symbol : SymbolId
}.

Record Trade := {
  tr_sequence : Sequence;
  tr_maker_order_id : OrderId;
  tr_taker_order_id : OrderId;
  tr_price : Price;
  tr_quantity : Quantity;
  tr_taker_side : Side;
  tr_symbol : SymbolId
}.

(** [ExecutionReport::Status] *)
Inductive Status :=
| Accepted | PartiallyFilled | Filled | Cancelled | Replaced | Rejected | Expired.

Record ExecutionReport := {
  er_sequence : Sequence;
  er_order_id : OrderId;
  er_status : Status;
  er_remaining : Quantity;
  er_reject_reason : RejectReason;
  er_symbol : SymbolId
}.

Record DepthLevel := {
  dl_price : Price;
  dl_quantity : Quantity;
  dl_order_count : Z
}.

(** The calls a book makes to its two handlers, in order. *)
Inductive Event :=
| ETrade (t : Trade)
| EReport (r : ExecutionReport).

#[export] Instance Side_eq_dec : EqDecision Side.
Proof. solve_decision. Defined.
#[export] Instance Policy_eq_dec : EqDecision SelfTradePreventionPolicy.
Proof. solve_decision. Defined.
#[export] Instance OrderType_eq_dec : EqDecision OrderType.
Proof. solve_decision. Defined.
#[export] Instance RejectReason_eq_dec : EqDecision RejectReason.
Proof. solve_decision. Defined.
#[export] Instance Status_eq_dec : EqDecision Status.
Proof. solve_decision. Defined.

Definition opposite (s : Side) : Side :=
  match s with Buy => Sell | Sell => Buy end.

(** The enumerators' underlying values. *)
Definition side_code (s : Side) : Z := match s with Buy => 0 | Sell => 1 end.
Definition type_code (t : OrderType) : Z :=
  match t with Limit => 0 | Market => 1 | IOC => 2 | FOK => 3 | PostOnly => 4 end.

Definition reason_code (r : RejectReason) : Z :=
  match r with
  | RejectNone => 0 | DuplicateOrderId => 1 | UnknownOrder => 2 | InvalidQuantity => 3 | InvalidPrice => 4
  | CapacityExceeded => 5 | WouldTrade => 6 | InsufficientLiquidity => 7 | ClientMismatch => 8 | InvalidReplacement => 9
  | TradingHalted => 10 | PriceBandViolation => 11
  end.

(** [to_string(Side)] *)
Definition to_string (x : Side) : string :=
  match x with Buy => "BUY" | Sell => "SELL" end.

(** The iteration order of the two sides of a book: [std::greater] for bids,
    [std::less] for asks. *)
Definition before (s : Side) (p q : Price) : bool :=
  match s with Buy => q <? p | Sell => p <? q end.
