(* ===== verification/SortedMap.v ===== *)
(** * Ordered maps

    [std::map<K, V, Compare>] as the list of its entries in iteration order.
    The comparator is a parameter; [StrictOrderOn P lt] says that it is a
    strict total order on the keys that satisfy [P], which is what the
    standard asks of the keys that are actually inserted.  The order book uses
    it with integer prices in both directions, the level-2 books with the
    doubles that pass the price validation. *)

From S2P Require Import Prelude.

Class StrictOrderOn {K : Type} (P : K -> Prop) (lt : K -> K -> bool) : Prop := {
  so_irrefl : forall k, P k -> lt k k = false;
  so_trans : forall i j k, P i -> P j -> P k ->
    lt i j = true -> lt j k = true -> lt i k = true;
  so_total : forall i j, P i -> P j -> lt i j = false -> lt j i = false -> i = j
}.

Section Ops.
Context {K V : Type} (lt : K -> K -> bool).

Definition smap := list (K * V).

(** [find] / [contains]: two keys are the same when neither precedes the
    other. *)
Fixpoint sm_lookup (k : K) (m : smap) : option V :=
  match m with
  | [] => None
  | (k', v) :: m' =>
      if lt k k' then None
      else if lt k' k then sm_lookup k m'
      else Some v
  end.

(** [m\[k\] = v] *)
Fixpoint sm_insert (k : K) (v : V) (m : smap) : smap :=
  match m with
  | [] => [(k, v)]
  | (k', v') :: m' =>
      if lt k k' then (k, v) :: m
      else if lt k' k then (k', v') :: sm_insert k v m'
      else (k', v) :: m'
  end.

(** [erase(k)] *)
Fixpoint sm_delete (k : K) (m : smap) : smap :=
  match m with
  | [] => []
  | (k', v') :: m' =>
      if lt k k' then m
      else if lt k' k then (k', v') :: sm_delete k m'
      else m'
  end.
End Ops.
Arguments smap K V : clear implicits.

(** Key order of the entries. *)
Definition sm_sorted {K V} (lt : K -> K -> bool) (m : smap K V) : Prop :=
  StronglySorted (fun i j => lt i j = true) m.*1.

Definition sm_keys {K V} (P : K -> Prop) (m : smap K V) : Prop := Forall P m.*1.

(** Two maps with the same keys and related values. *)
Definition sm_rel {K V W} (R : K -> V -> W -> Prop) (m : smap K V) (m' : smap K W) : Prop :=
  Forall2 (fun e e' => e.1 = e'.1 /\ R e.1 e.2 e'.2) m m'.

Section Laws.
Context {K : Type} {P : K -> Prop} {lt : K -> K -> bool} `{!StrictOrderOn P lt}.

Lemma lt_asym i j : P i -> P j -> lt i j = true -> lt j i = false.
Proof.
  intros Hi Hj H. destruct (lt j i) eqn:E; [|done].
  pose proof (so_trans i j i Hi Hj Hi H E) as T.
  by rewrite (so_irrefl i Hi) in T.
Qed.

Lemma sm_keys_insert {V} k (v : V) m :
  P k -> sm_keys P m -> sm_keys P (sm_insert lt k v m).
Proof using StrictOrderOn0.
  intros Hk. unfold sm_keys. induction m as [|[k' v'] m IH]; simpl; intros H.
  - by constructor.
  - inversion H; subst. repeat case_if; simpl; constructor; auto.
Qed.

Lemma sm_insert_keys_elem {V} k (v : V) m k' :
  k' ∈ (sm_insert lt k v m).*1 -> k' = k \/ k' ∈ m.*1.
Proof.
  induction m as [|[k1 v1] m IH]; simpl.
  - rewrite list_elem_of_singleton. auto.
  - repeat case_if; simpl; rewrite !elem_of_cons; intuition auto.
Qed.

Lemma sm_insert_elem {V} k (v : V) m e :
  P k -> sm_keys P m -> e ∈ sm_insert lt k v m -> e = (k, v) \/ e ∈ m.
Proof.
  unfold sm_keys. intros Hk. induction m as [|[k1 v1] m IH]; simpl; intros HP.
  - rewrite list_elem_of_singleton. auto.
  - inversion HP; subst. destruct (lt k k1) eqn:E1; [|destruct (lt k1 k) eqn:E2];
      rewrite !elem_of_cons; [intuition auto|intuition auto|].
    rewrite (so_total k k1) by done. intuition auto.
Qed.

Lemma sm_sorted_insert {V} k (v : V) m :
  P k -> sm_keys P m -> sm_sorted lt m -> sm_sorted lt (sm_insert lt k v m).
Proof.
  unfold sm_keys, sm_sorted. intros Hk.
  induction m as [|[k' v'] m IH]; simpl; intros HP HS.
  - repeat constructor.
  - inversion HP; inversion HS; subst. repeat case_if; simpl.
    + constructor; [done|]. constructor; [done|].
      eapply Forall_mono; [|done]. intros x Hx Hlt.
      rewrite Forall_forall in H2. eapply so_trans; [..|done|done]; auto.
    + constructor; [by apply IH|]. apply Forall_forall. intros x Hx.
      apply sm_insert_keys_elem in Hx as [->|Hx]; [done|].
      rewrite Forall_forall in H6. by apply H6.
    + constructor; done.
Qed.

Lemma sm_delete_sublist {V} k (m : smap K V) : sm_delete lt k m `sublist_of` m.
Proof.
  induction m as [|[k' v'] m IH]; simpl; [constructor|].
  repeat case_if; [reflexivity|by constructor|]. by apply sublist_cons.
Qed.

Lemma sm_delete_elem {V} k (m : smap K V) e : e ∈ sm_delete lt k m -> e ∈ m.
Proof. intros H. eapply elem_of_sublist; [done|apply sm_delete_sublist]. Qed.

Lemma sm_keys_delete {V} k (m : smap K V) : sm_keys P m -> sm_keys P (sm_delete lt k m).
Proof.
  unfold sm_keys. rewrite !Forall_fmap, !Forall_forall. intros H e He.
  apply H. by eapply sm_delete_elem.
Qed.

Lemma sm_sorted_delete {V} k (m : smap K V) :
  sm_sorted lt m -> sm_sorted lt (sm_delete lt k m).
Proof.
  intros H. eapply StronglySorted_sublist; [|exact H].
  induction m as [|[k' v'] m IH]; simpl; [constructor|].
  unfold sm_sorted in H. simpl in H. inversion H; subst.
  repeat case_if; [reflexivity|by constructor; apply IH|]. simpl. by apply sublist_cons.
Qed.

(** A key that precedes every key of the map is not in it. *)
Lemma sm_lookup_below {V} k (m : smap K V) :
  Forall (fun j => lt k j = true) m.*1 -> sm_lookup lt k m = None.
Proof. destruct m as [|[k' v'] m]; simpl; [done|]. intros H. inversion H; subst. by rewrite H2. Qed.

Lemma sm_lookup_elem {V} k (v : V) m :
  P k -> sm_keys P m -> sm_lookup lt k m = Some v -> (k, v) ∈ m.
Proof.
  unfold sm_keys. intros Hk. induction m as [|[k' v'] m IH]; simpl; [done|].
  intros HP H. inversion HP; subst. case_if_in H; [done|]. case_if_in H.
  - apply list_elem_of_further. auto.
  - injection H as ->. rewrite (so_total k k'); [constructor|done..].
Qed.

Lemma sm_elem_lookup {V} k (v : V) m :
  P k -> sm_keys P m -> sm_sorted lt m -> (k, v) ∈ m -> sm_lookup lt k m = Some v.
Proof.
  unfold sm_keys, sm_sorted. intros Hk.
  induction m as [|[k' v'] m IH]; simpl; [by rewrite elem_of_nil|].
  intros HP HS He. inversion HP; inversion HS; subst.
  apply elem_of_cons in He as [[= <- <-]|He].
  - by rewrite (so_irrefl k Hk).
  - assert (lt k' k = true) as Hlt.
    { rewrite Forall_forall in H6. apply H6. by apply (list_elem_of_fmap_2 fst _ (k, v)). }
    rewrite (lt_asym k' k) by done. rewrite Hlt. auto.
Qed.

Lemma sm_lookup_insert_eq {V} k (v : V) m :
  P k -> sm_keys P m -> sm_lookup lt k (sm_insert lt k v m) = Some v.
Proof.
  unfold sm_keys. intros Hk. induction m as [|[k' v'] m IH]; simpl; intros HP.
  - by rewrite (so_irrefl k Hk).
  - inversion HP; subst. destruct (lt k k') eqn:E1; simpl.
    + by rewrite (so_irrefl k Hk).
    + destruct (lt k' k) eqn:E2; simpl; rewrite E1, E2; auto.
Qed.

Lemma sm_insert_insert {V} k (v w : V) m :
  P k -> sm_insert lt k w (sm_insert lt k v m) = sm_insert lt k w m.
Proof.
  intros Hk. induction m as [|[k' v'] m IH]; simpl.
  - by rewrite (so_irrefl k Hk).
  - destruct (lt k k') eqn:E1; simpl; [by rewrite (so_irrefl k Hk)|].
    destruct (lt k' k) eqn:E2; simpl; by rewrite E1, E2, ?IH.
Qed.

Lemma sm_lookup_insert_ne {V} k (v : V) j m :
  P k -> P j -> sm_keys P m -> sm_sorted lt m -> k <> j ->
  sm_lookup lt j (sm_insert lt k v m) = sm_lookup lt j m.
Proof.
  unfold sm_keys, sm_sorted. intros Hk Hj.
  induction m as [|[k' v'] m IH]; simpl; intros HP HS Hne.
  - destruct (lt j k) eqn:E1, (lt k j) eqn:E2; try done.
    destruct Hne. by apply so_total.
  - inversion HP; inversion HS; subst. destruct (lt k k') eqn:E1; simpl.
    + destruct (lt j k) eqn:E3.
      * by rewrite (so_trans j k k' Hj Hk H1 E3 E1).
      * destruct (lt k j) eqn:E4; [done|]. destruct Hne. by apply so_total.
    + destruct (lt k' k) eqn:E2; simpl; [by rewrite IH|].
      pose proof (so_total k k' Hk H1 E1 E2); subst k'.
      destruct (lt j k) eqn:E3; [done|]. destruct (lt k j) eqn:E4; [done|].
      destruct Hne. by apply so_total.
Qed.

Lemma sm_lookup_delete_eq {V} k (m : smap K V) :
  P k -> sm_keys P m -> sm_sorted lt m -> sm_lookup lt k (sm_delete lt k m) = None.
Proof.
  unfold sm_keys, sm_sorted. intros Hk.
  induction m as [|[k' v'] m IH]; simpl; intros HP HS; [done|].
  inversion HP; inversion HS; subst. destruct (lt k k') eqn:E1; simpl; [by rewrite E1|].
  destruct (lt k' k) eqn:E2; simpl; [rewrite E1, E2; auto|].
  apply sm_lookup_below. by rewrite (so_total k k').
Qed.

Lemma sm_lookup_delete_ne {V} k j (m : smap K V) :
  P k -> P j -> sm_keys P m -> sm_sorted lt m -> k <> j ->
  sm_lookup lt j (sm_delete lt k m) = sm_lookup lt j m.
Proof.
  unfold sm_keys, sm_sorted. intros Hk Hj.
  induction m as [|[k' v'] m IH]; simpl; intros HP HS Hne; [done|].
  inversion HP; inversion HS; subst. destruct (lt k k') eqn:E1; simpl; [done|].
  destruct (lt k' k) eqn:E2; simpl; [by rewrite IH|].
  pose proof (so_total k k' Hk H1 E1 E2); subst k'.
  destruct (lt j k) eqn:E3; [apply sm_lookup_below|].
  - eapply Forall_mono; [|done]. intros x Hx Hlt. rewrite Forall_forall in H2.
    eapply so_trans; [..|done|done]; auto.
  - destruct (lt k j) eqn:E4; [done|]. destruct Hne. by apply so_total.
Qed.

Lemma sm_lookup_split {V} k (v : V) m :
  sm_lookup lt k m = Some v -> P k -> sm_keys P m ->
  exists m1 m2, m = m1 ++ (k, v) :: m2.
Proof.
  intros H Hk HP. by apply list_elem_of_split, sm_lookup_elem.
Qed.

(** The three operations at a key that is in the map. *)
Lemma sm_at {V} k (v : V) m1 m2 :
  P k -> sm_keys P (m1 ++ (k, v) :: m2) -> sm_sorted lt (m1 ++ (k, v) :: m2) ->
  sm_lookup lt k (m1 ++ (k, v) :: m2) = Some v /\
  (forall w, sm_insert lt k w (m1 ++ (k, v) :: m2) = m1 ++ (k, w) :: m2) /\
  sm_delete lt k (m1 ++ (k, v) :: m2) = m1 ++ m2.
Proof.
  unfold sm_keys, sm_sorted. intros Hk. induction m1 as [|[j u] m1 IH]; simpl.
  - intros _ _. rewrite (so_irrefl k Hk). done.
  - intros HP HS. inversion HP; inversion HS; subst.
    assert (lt j k = true) as Hjk.
    { rewrite Forall_forall in H6. apply H6. rewrite fmap_app, elem_of_app. right. left. }
    rewrite (lt_asym j k) by done. rewrite Hjk.
    destruct IH as (I1 & I2 & I3); [done..|]. split_and!; [done| |by rewrite I3].
    intros w. by rewrite I2.
Qed.
End Laws.

Section Rel.
Context {K : Type} {lt : K -> K -> bool} {V W : Type} (R : K -> V -> W -> Prop).

Lemma sm_rel_keys m m' : sm_rel R m m' -> m.*1 = m'.*1.
Proof. induction 1 as [|e e' m m' [H _] _ IH]; [done|]. by rewrite !fmap_cons, H, IH. Qed.

Lemma sm_rel_insert k v w m m' :
  R k v w -> (forall k', lt k k' = false -> lt k' k = false -> k = k') ->
  sm_rel R m m' -> sm_rel R (sm_insert lt k v m) (sm_insert lt k w m').
Proof.
  intros HR Ht H. induction H as [|[k1 v1] [k2 w1] m m' [Hk HR1] H IH]; simpl in *.
  - by constructor.
  - subst k2. repeat case_if; simpl.
    + by repeat constructor.
    + by constructor.
    + rewrite <- (Ht k1) by done. by constructor.
Qed.

Lemma sm_rel_delete k m m' :
  sm_rel R m m' -> sm_rel R (sm_delete lt k m) (sm_delete lt k m').
Proof.
  induction 1 as [|[k1 v1] [k2 w1] m m' [Hk HR1] H IH]; simpl in *; [constructor|].
  subst k2. repeat case_if; simpl; [by constructor|by constructor|done].
Qed.

Lemma sm_rel_lookup k m m' :
  (forall k', lt k k' = false -> lt k' k = false -> k = k') -> sm_rel R m m' ->
  match sm_lookup lt k m, sm_lookup lt k m' with
  | Some v, Some w => R k v w
  | None, None => True
  | _, _ => False
  end.
Proof.
  intros Ht. induction 1 as [|[k1 v1] [k2 w1] m m' [Hk HR1] H IH]; simpl in *; [done|].
  subst k2. destruct (lt k k1) eqn:?; [done|]. destruct (lt k1 k) eqn:?; [done|].
  by rewrite (Ht k1).
Qed.

(** Both maps unchanged, a relation that follows from the old one on the
    entries there are. *)
Lemma sm_rel_mono (R' : K -> V -> W -> Prop) m m' :
  (forall k v w, (k, v) ∈ m -> (k, w) ∈ m' -> R k v w -> R' k v w) ->
  sm_rel R m m' -> sm_rel R' m m'.
Proof.
  intros HR H. induction H as [|[k v] [k' w] m m' [Hk H1] H IH]; simpl in *; [constructor|].
  subst k'. constructor.
  - split; [done|]. apply HR; [constructor..|done].
  - apply IH. intros. apply HR; [by constructor..|done].
Qed.
End Rel.
