(* ===== verification/OrderBook.v ===== *)
(** * The order book as the code has it ([order_book.hpp], [order_book.cpp])

    A preallocated array of nodes, the free list, the id index, two ordered
    maps of price levels whose orders are chained through the indices stored in
    the nodes, and the counters.  Every member function of [OrderBook] is a
    definition here.  The calls to the two handlers are recorded in order in
    the outbox, next to the sequence counter that numbers them.

    Loops over the chains and the matching loops take a fuel argument and throw
    [out_of_fuel] when it ends; [BookRefine.v] proves that they never do. *)

From S2P Require Import Prelude.
From S2P Require Import Types.
From S2P Require Import SortedMap.

(** [npos], the null index. *)
Definition npos : Z := 2 ^ 32 - 1.

Record Node := {
  nd_id : OrderId;
  nd_client_id : ClientId;
  nd_price : Price;
  nd_remaining : Quantity;
  nd_prev : Z;
  nd_next : Z;
  nd_side : Side;
  nd_active : bool
}.

(** [Node{}] *)
Definition Node0 : Node := {|
  nd_id := 0; nd_client_id := 0; nd_price := 0; nd_remaining := 0;
  nd_prev := npos; nd_next := npos; nd_side := Buy; nd_active := false |}.

Record Level := {
  lv_head : Z;
  lv_tail : Z;
  lv_total : Quantity;
  lv_order_count : Z
}.

Definition Level0 : Level :=
  {| lv_head := npos; lv_tail := npos; lv_total := 0; lv_order_count := 0 |}.

Record Outbox := {
  sequence_ : Sequence;
  emitted_ : list Event
}.

Record Book := {
  symbol_ : SymbolId;
  nodes_ : list Node;
  free_list_ : list Z;
  by_id_ : gmap Z Z;
  bids_ : smap Price Level;
  asks_ : smap Price Level;
  active_count_ : Z;
  outbox_ : Outbox;
  stp_policy_ : SelfTradePreventionPolicy
}.

Definition set_node_store (b : Book) ns fl ids : Book := {|
  symbol_ := symbol_ b; nodes_ := ns; free_list_ := fl; by_id_ := ids;
  bids_ := bids_ b; asks_ := asks_ b; active_count_ := active_count_ b;
  outbox_ := outbox_ b; stp_policy_ := stp_policy_ b |}.

Definition set_nodes (b : Book) ns : Book :=
  set_node_store b ns (free_list_ b) (by_id_ b).

Definition levels (b : Book) (s : Side) : smap Price Level :=
  match s with Buy => bids_ b | Sell => asks_ b end.

Definition set_levels (b : Book) (s : Side) (m : smap Price Level) : Book := {|
  symbol_ := symbol_ b; nodes_ := nodes_ b; free_list_ := free_list_ b; by_id_ := by_id_ b;
  bids_ := match s with Buy => m | Sell => bids_ b end;
  asks_ := match s with Buy => asks_ b | Sell => m end;
  active_count_ := active_count_ b; outbox_ := outbox_ b; stp_policy_ := stp_policy_ b |}.

Definition set_active_count (b : Book) n : Book := {|
  symbol_ := symbol_ b; nodes_ := nodes_ b; free_list_ := free_list_ b; by_id_ := by_id_ b;
  bids_ := bids_ b; asks_ := asks_ b; active_count_ := n;
  outbox_ := outbox_ b; stp_policy_ := stp_policy_ b |}.

Definition set_outbox (b : Book) o : Book := {|
  symbol_ := symbol_ b; nodes_ := nodes_ b; free_list_ := free_list_ b; by_id_ := by_id_ b;
  bids_ := bids_ b; asks_ := asks_ b; active_count_ := active_count_ b;
  outbox_ := o; stp_policy_ := stp_policy_ b |}.

Definition set_stp_policy (policy : SelfTradePreventionPolicy) (b : Book) : Book := {|
  symbol_ := symbol_ b; nodes_ := nodes_ b; free_list_ := free_list_ b; by_id_ := by_id_ b;
  bids_ := bids_ b; asks_ := asks_ b; active_count_ := active_count_ b;
  outbox_ := outbox_ b; stp_policy_ := policy |}.

(** ** Nodes *)

Definition node_at (ns : list Node) (idx : Z) : Node :=
  default Node0 (ns !! Z.to_nat idx).

Definition set_node (ns : list Node) (idx : Z) (n : Node) : list Node :=
  <[Z.to_nat idx := n]> ns.

Definition set_prev (ns : list Node) (idx p : Z) : list Node :=
  let n := node_at ns idx in
  set_node ns idx {| nd_id := nd_id n; nd_client_id := nd_client_id n;
    nd_price := nd_price n; nd_remaining := nd_remaining n; nd_prev := p;
    nd_next := nd_next n; nd_side := nd_side n; nd_active := nd_active n |}.

Definition set_next (ns : list Node) (idx x : Z) : list Node :=
  let n := node_at ns idx in
  set_node ns idx {| nd_id := nd_id n; nd_client_id := nd_client_id n;
    nd_price := nd_price n; nd_remaining := nd_remaining n; nd_prev := nd_prev n;
    nd_next := x; nd_side := nd_side n; nd_active := nd_active n |}.

Definition set_remaining (ns : list Node) (idx q : Z) : list Node :=
  let n := node_at ns idx in
  set_node ns idx {| nd_id := nd_id n; nd_client_id := nd_client_id n;
    nd_price := nd_price n; nd_remaining := q; nd_prev := nd_prev n;
    nd_next := nd_next n; nd_side := nd_side n; nd_active := nd_active n |}.

(** The constructor's and [reset]'s free list: the indices from the last one
    down, so that the first allocation takes index 0. *)
Definition all_free (capacity : nat) : list Z :=
  (fun i => u32 (Z.of_nat i)) <$> reverse (seq 0 capacity).

(** [OrderBook(capacity, symbol)] *)
Definition OrderBook (capacity : nat) (symbol : SymbolId) : Book := {|
  symbol_ := symbol; nodes_ := replicate capacity Node0;
  free_list_ := all_free capacity; by_id_ := ∅; bids_ := []; asks_ := [];
  active_count_ := 0; outbox_ := {| sequence_ := 0; emitted_ := [] |};
  stp_policy_ := StpNone |}.

Definition reset (b : Book) : Book := {|
  symbol_ := symbol_ b; nodes_ := replicate (length (nodes_ b)) Node0;
  free_list_ := all_free (length (nodes_ b)); by_id_ := ∅; bids_ := []; asks_ := [];
  active_count_ := 0;
  outbox_ := {| sequence_ := 0; emitted_ := emitted_ (outbox_ b) |};
  stp_policy_ := stp_policy_ b |}.

(** ** Handler calls *)

Definition push_report (sym : SymbolId) (id : OrderId) (st : Status) (rem : Quantity)
    (reason : RejectReason) (o : Outbox) : Outbox :=
  let seq := u64 (sequence_ o + 1) in
  {| sequence_ := seq;
     emitted_ := emitted_ o ++ [EReport {| er_sequence := seq; er_order_id := id;
       er_status := st; er_remaining := rem; er_reject_reason := reason;
       er_symbol := sym |}] |}.

Definition push_trade (sym : SymbolId) (maker_id : OrderId) (taker : OrderRequest)
    (px : Price) (qty : Quantity) (o : Outbox) : Outbox :=
  let seq := u64 (sequence_ o + 1) in
  {| sequence_ := seq;
     emitted_ := emitted_ o ++ [ETrade {| tr_sequence := seq; tr_maker_order_id := maker_id;
       tr_taker_order_id := req_order_id taker; tr_price := px; tr_quantity := qty;
       tr_taker_side := req_side taker; tr_symbol := sym |}] |}.

Definition emit_report (id : OrderId) (st : Status) (rem : Quantity) (reason : RejectReason)
    (b : Book) : Book :=
  set_outbox b (push_report (symbol_ b) id st rem reason (outbox_ b)).

Definition emit_trade (maker : Node) (taker : OrderRequest) (px : Price) (qty : Quantity)
    (b : Book) : Book :=
  set_outbox b (push_trade (symbol_ b) (nd_id maker) taker px qty (outbox_ b)).

(** ** Validation and queries *)

Definition validate_reason (r : OrderRequest) (b : Book) : RejectReason :=
  if negb (req_symbol r =? symbol_ b) then InvalidPrice
  else if req_quantity r =? 0 then InvalidQuantity
  else if bool_decide (req_type r ≠ Market) && (req_price r <=? 0) then InvalidPrice
  else if bool_decide (req_type r = Market) && negb (req_price r =? MARKET_PRICE)
    then InvalidPrice
  else if bool_decide (is_Some (by_id_ b !! req_order_id r)) then DuplicateOrderId
  else if bool_decide (free_list_ b = []) then CapacityExceeded
  else RejectNone.

Definition validate (r : OrderRequest) : ST Book bool := fun b =>
  let reason := validate_reason r b in
  if bool_decide (reason ≠ RejectNone)
  then (Ok false, emit_report (req_order_id r) Rejected (req_quantity r) reason b)
  else (Ok true, b).

Definition allocate_node : ST Book Z := fun b =>
  match pop_back (free_list_ b) with
  | None => (Throw (runtime_error "order capacity exceeded"), b)
  | Some (idx, fl) => (Ok idx, set_node_store b (nodes_ b) fl (by_id_ b))
  end.

Definition release_node (idx : Z) (b : Book) : Book :=
  set_node_store b (set_node (nodes_ b) idx Node0) (push_back (free_list_ b) idx) (by_id_ b).

Definition crosses (t : OrderRequest) (p : Price) : bool :=
  match req_type t with
  | Market => true
  | _ => match req_side t with Buy => p <=? req_price t | Sell => req_price t <=? p end
  end.

(** The loop of [available_to_match] over the levels of the other side. *)
Fixpoint scan_available (r : OrderRequest) (lvs : list (Price * Quantity)) (available : Z)
    : Quantity :=
  match lvs with
  | [] => u32 available
  | (price, total) :: lvs' =>
      if negb (crosses r price) then u32 available
      else
        let available := u64 (available + total) in
        if req_quantity r <=? available then req_quantity r
        else scan_available r lvs' available
  end.

Definition available_to_match (r : OrderRequest) (b : Book) : Quantity :=
  scan_available r ((fun e : Price * Level => (e.1, lv_total e.2)) <$>
    levels b (opposite (req_side r))) 0.

Definition best (b : Book) (s : Side) : Price :=
  match levels b s with [] => 0 | (p, _) :: _ => p end.
Definition best_bid (b : Book) : Price := best b Buy.
Definition best_ask (b : Book) : Price := best b Sell.

Definition quantity_at (s : Side) (price : Price) (b : Book) : Quantity :=
  match sm_lookup (before s) price (levels b s) with
  | None => 0
  | Some lv => lv_total lv
  end.

Fixpoint collect_depth (source : smap Price Level) (size n : Z) : list DepthLevel :=
  match source with
  | [] => []
  | (price, lv) :: source' =>
      if size =? n then []
      else {| dl_price := price; dl_quantity := lv_total lv;
              dl_order_count := lv_order_count lv |} :: collect_depth source' (size + 1) n
  end.

Definition depth (s : Side) (n : Z) (b : Book) : list DepthLevel :=
  collect_depth (levels b s) 0 n.

(** [while (idx != npos)]: the nodes of a chain. *)
Fixpoint walk (fuel : nat) (ns : list Node) (idx : Z) : result (list Node) :=
  if idx =? npos then Ok []
  else match fuel with
  | O => Throw out_of_fuel
  | S fuel =>
      let n := node_at ns idx in
      l ← walk fuel ns (nd_next n); Ok (n :: l)
  end.

Fixpoint collect_levels (ns : list Node) (lvs : smap Price Level)
    : result (list (Price * list Node)) :=
  match lvs with
  | [] => Ok []
  | (price, lv) :: lvs' =>
      l ← walk (length ns) ns (lv_head lv);
      rest ← collect_levels ns lvs'; Ok ((price, l) :: rest)
  end.

Definition resting_request (sym : SymbolId) (s : Side) (price : Price) (n : Node)
    : OrderRequest := {|
  req_order_id := nd_id n; req_client_id := nd_client_id n; req_side := s;
  req_type := Limit; req_price := price; req_quantity := nd_remaining n;
  req_symbol := sym |}.

Definition resting_side (b : Book) (s : Side) : result (list OrderRequest) :=
  lvs ← collect_levels (nodes_ b) (levels b s);
  Ok (concat ((fun e : Price * list Node =>
    resting_request (symbol_ b) s e.1 <$> e.2) <$> lvs)).

Definition resting_orders (b : Book) : result (list OrderRequest) :=
  bids ← resting_side b Buy;
  asks ← resting_side b Sell;
  Ok (bids ++ asks).

Definition mix (hash value : Z) : Z := u64 (Z.lxor hash (u64 value) * 1099511628211).

Definition hash_node (hash : Z) (n : Node) : Z :=
  mix (mix (mix hash (nd_id n)) (nd_client_id n)) (nd_remaining n).

Definition hash_side (b : Book) (s : Side) (hash : Z) : result Z :=
  lvs ← collect_levels (nodes_ b) (levels b s);
  Ok (foldl (fun h e => foldl hash_node (mix h e.1) e.2) (mix hash (side_code s)) lvs).

Definition state_hash (b : Book) : result Z :=
  h ← hash_side b Buy (mix 1469598103934665603 (symbol_ b));
  h ← hash_side b Sell h;
  Ok (mix h (active_count_ b)).

(** ** Insertion and removal *)

(** The body of the lambda [append] of [rest] on one side. *)
Definition append_level (s : Side) (price : Price) (remaining : Quantity) (idx : Z)
    (b : Book) : Book :=
  let lv := default Level0 (sm_lookup (before s) price (levels b s)) in
  let ns := set_prev (nodes_ b) idx (lv_tail lv) in
  let ns' := if negb (lv_tail lv =? npos) then set_next ns (lv_tail lv) idx else ns in
  let lv' := {|
    lv_head := if negb (lv_tail lv =? npos) then lv_head lv else idx;
    lv_tail := idx; lv_total := u32 (lv_total lv + remaining);
    lv_order_count := u32 (lv_order_count lv + 1) |} in
  set_levels (set_nodes b ns') s (sm_insert (before s) price lv' (levels b s)).

Definition rest (r : OrderRequest) (remaining : Quantity) : ST Book unit :=
  idx ← allocate_node;
  modify (fun b =>
    let b := set_nodes b (set_node (nodes_ b) idx {|
      nd_id := req_order_id r; nd_client_id := req_client_id r; nd_price := req_price r;
      nd_remaining := remaining; nd_prev := npos; nd_next := npos;
      nd_side := req_side r; nd_active := true |}) in
    let b := append_level (req_side r) (req_price r) remaining idx b in
    let b := set_node_store b (nodes_ b) (free_list_ b) (<[req_order_id r := idx]> (by_id_ b)) in
    set_active_count b (u64 (active_count_ b + 1))).

(** The body of the lambda [remove] of [unlink] on the side of the node. *)
Definition unlink (idx : Z) (b : Book) : Book :=
  let node := node_at (nodes_ b) idx in
  let s := nd_side node in
  match sm_lookup (before s) (nd_price node) (levels b s) with
  | None => b
  | Some lv =>
      let ns := if negb (nd_prev node =? npos)
        then set_next (nodes_ b) (nd_prev node) (nd_next node) else nodes_ b in
      let head := if negb (nd_prev node =? npos) then lv_head lv else nd_next node in
      let ns' := if negb (nd_next node =? npos)
        then set_prev ns (nd_next node) (nd_prev node) else ns in
      let tail := if negb (nd_next node =? npos) then lv_tail lv else nd_prev node in
      let lv' := {| lv_head := head; lv_tail := tail;
        lv_total := u32 (lv_total lv - nd_remaining node);
        lv_order_count := u32 (lv_order_count lv - 1) |} in
      let m := if head =? npos
        then sm_delete (before s) (nd_price node) (levels b s)
        else sm_insert (before s) (nd_price node) lv' (levels b s) in
      set_levels (set_nodes b ns') s m
  end.

Definition remove_without_report (idx : Z) (b : Book) : Book :=
  let id := nd_id (node_at (nodes_ b) idx) in
  let b := unlink idx b in
  let b := set_node_store b (nodes_ b) (free_list_ b) (delete id (by_id_ b)) in
  let b := release_node idx b in
  set_active_count b (u64 (active_count_ b - 1)).

(** ** Matching *)

Inductive MatchOutcome := Completed | TakerCancelled.

(** How the inner loop of [match_against] ends. *)
Inductive LevelOutcome := LevelEnd | RestartOuter | ReturnCancelled.

(** The level a reference [level_it->second] points to. *)
Definition level_at (b : Book) (s : Side) (px : Price) : Level :=
  default Level0 (sm_lookup (before s) px (levels b s)).

Definition set_level (b : Book) (s : Side) (px : Price) (lv : Level) : Book :=
  set_levels b s (sm_insert (before s) px lv (levels b s)).

(** [maker.remaining -= fill; level.total -= fill;] and the two handler calls. *)
Definition reduce_maker (s : Side) (px : Price) (taker : OrderRequest) (fill : Quantity)
    (maker_idx : Z) (b : Book) : Book :=
  let q := u32 (nd_remaining (node_at (nodes_ b) maker_idx) - fill) in
  let b := set_nodes b (set_remaining (nodes_ b) maker_idx q) in
  let lv := level_at b s px in
  let b := set_level b s px {| lv_head := lv_head lv; lv_tail := lv_tail lv;
             lv_total := u32 (lv_total lv - fill); lv_order_count := lv_order_count lv |} in
  let maker := node_at (nodes_ b) maker_idx in
  let b := emit_trade maker taker (nd_price maker) fill b in
  emit_report (nd_id maker) (if nd_remaining maker =? 0 then Filled else PartiallyFilled)
    (nd_remaining maker) RejectNone b.

(** [if (maker.remaining == 0)]: the filled maker leaves the head of its level. *)
Definition drop_maker (s : Side) (px : Price) (maker_idx : Z) (b : Book) : Book :=
  let maker := node_at (nodes_ b) maker_idx in
  let head := nd_next maker in
  let lv := level_at b s px in
  let b := set_nodes b (if negb (head =? npos) then set_prev (nodes_ b) head npos
                        else nodes_ b) in
  let b := set_level b s px {| lv_head := head;
             lv_tail := if negb (head =? npos) then lv_tail lv else npos;
             lv_total := lv_total lv; lv_order_count := u32 (lv_order_count lv - 1) |} in
  let b := set_node_store b (nodes_ b) (free_list_ b) (delete (nd_id maker) (by_id_ b)) in
  let b := release_node maker_idx b in
  set_active_count b (u64 (active_count_ b - 1)).

(** The end of the inner loop's body: fill the maker at the head of the level. *)
Definition fill_maker (s : Side) (px : Price) (taker : OrderRequest) (remaining : Quantity)
    (b : Book) : Quantity * Book :=
  let maker_idx := lv_head (level_at b s px) in
  let fill := Z.min remaining (nd_remaining (node_at (nodes_ b) maker_idx)) in
  let b := reduce_maker s px taker fill maker_idx b in
  (u32 (remaining - fill),
   if nd_remaining (node_at (nodes_ b) maker_idx) =? 0
   then drop_maker s px maker_idx b else b).

(** The inner loop: [while (remaining > 0 && level.head != npos)]. *)
Fixpoint match_level (fuel : nat) (s : Side) (px : Price) (taker : OrderRequest)
    (remaining : Quantity) : ST Book (LevelOutcome * Quantity) := fun b =>
  match fuel with
  | O => (Throw out_of_fuel, b)
  | S fuel =>
      let level := level_at b s px in
      if (0 <? remaining) && negb (lv_head level =? npos) then
        let maker_idx := lv_head level in
        let maker := node_at (nodes_ b) maker_idx in
        let self := bool_decide (stp_policy_ b ≠ StpNone) &&
                    (nd_client_id maker =? req_client_id taker) in
        if self && bool_decide (stp_policy_ b = CancelNewest) then
          (Ok (ReturnCancelled, remaining),
           emit_report (req_order_id taker) Cancelled remaining RejectNone b)
        else if self && (bool_decide (stp_policy_ b = CancelOldest) ||
                         bool_decide (stp_policy_ b = CancelBoth)) then
          let b1 := remove_without_report maker_idx b in
          let b2 := emit_report (nd_id maker) Cancelled (nd_remaining maker) RejectNone b1 in
          if bool_decide (stp_policy_ b2 = CancelBoth) then
            (Ok (ReturnCancelled, remaining),
             emit_report (req_order_id taker) Cancelled remaining RejectNone b2)
          else (Ok (RestartOuter, remaining), b2)
        else
          let (remaining', b') := fill_maker s px taker remaining b in
          match_level fuel s px taker remaining' b'
      else (Ok (LevelEnd, remaining), b)
  end.

(** The outer loop: [while (remaining > 0 && !levels.empty())]. *)
Fixpoint match_against (fuel : nat) (s : Side) (taker : OrderRequest) (remaining : Quantity)
    : ST Book (MatchOutcome * Quantity) := fun b =>
  match fuel with
  | O => (Throw out_of_fuel, b)
  | S fuel =>
      if negb (0 <? remaining) then (Ok (Completed, remaining), b)
      else match levels b s with
      | [] => (Ok (Completed, remaining), b)
      | (px, _) :: _ =>
          if negb (crosses taker px) then (Ok (Completed, remaining), b)
          else match match_level (S (length (nodes_ b))) s px taker remaining b with
          | (Throw e, b') => (Throw e, b')
          | (Ok (ReturnCancelled, remaining'), b') => (Ok (TakerCancelled, remaining'), b')
          | (Ok (RestartOuter, remaining'), b') => match_against fuel s taker remaining' b'
          | (Ok (LevelEnd, remaining'), b') =>
              let b'' := if lv_head (level_at b' s px) =? npos
                then set_levels b' s (sm_delete (before s) px (levels b' s)) else b' in
              match_against fuel s taker remaining' b''
          end
      end
  end.

(** ** The three commands *)

Definition would_trade (r : OrderRequest) (b : Book) : bool :=
  match req_side r with
  | Buy => negb (bool_decide (asks_ b = [])) && (best_ask b <=? req_price r)
  | Sell => negb (bool_decide (bids_ b = [])) && (req_price r <=? best_bid b)
  end.

(** What follows the matching of an accepted order. *)
Definition finish_submit (r : OrderRequest) (remaining : Quantity) : ST Book bool :=
  (if remaining =? 0 then modify (emit_report (req_order_id r) Filled 0 RejectNone)
   else if remaining <? req_quantity r
   then modify (emit_report (req_order_id r) PartiallyFilled remaining RejectNone)
   else mret tt);;
  (if 0 <? remaining then
     if bool_decide (req_type r = Limit) || bool_decide (req_type r = PostOnly)
     then rest r remaining
     else modify (emit_report (req_order_id r) Expired remaining RejectNone)
   else mret tt);;
  mret true.

Definition submit (r : OrderRequest) : ST Book bool :=
  ok ← validate r;
  b ← get;
  if negb ok then mret false
  else if bool_decide (req_type r = PostOnly) && would_trade r b then
    modify (emit_report (req_order_id r) Rejected (req_quantity r) WouldTrade);; mret false
  else if bool_decide (req_type r = FOK) && (available_to_match r b <? req_quantity r) then
    modify (emit_report (req_order_id r) Rejected (req_quantity r) InsufficientLiquidity);;
    mret false
  else
    modify (emit_report (req_order_id r) Accepted (req_quantity r) RejectNone);;
    m ← match_against (S (length (nodes_ b))) (opposite (req_side r)) r (req_quantity r);
    match m with
    | (TakerCancelled, _) => mret true
    | (Completed, remaining) => finish_submit r remaining
    end.

Definition cancel (r : CancelRequest) : ST Book bool := fun b =>
  match by_id_ b !! can_order_id r with
  | None => (Ok false, emit_report (can_order_id r) Rejected 0 UnknownOrder b)
  | Some idx =>
      let node := node_at (nodes_ b) idx in
      if negb (nd_client_id node =? can_client_id r) then
        (Ok false, emit_report (can_order_id r) Rejected (nd_remaining node) ClientMismatch b)
      else
        (Ok true, emit_report (can_order_id r) Cancelled (nd_remaining node) RejectNone
                    (remove_without_report idx b))
  end.

(** The in-place branch of [replace]: same price, no more quantity. *)
Definition reduce_in_place (idx : Z) (new_quantity : Quantity) (b : Book) : Book :=
  let node := node_at (nodes_ b) idx in
  let s := nd_side node in
  let delta := u32 (nd_remaining node - new_quantity) in
  let b := set_nodes b (set_remaining (nodes_ b) idx new_quantity) in
  match sm_lookup (before s) (nd_price node) (levels b s) with
  | None => b
  | Some lv => set_level b s (nd_price node) {| lv_head := lv_head lv; lv_tail := lv_tail lv;
      lv_total := u32 (lv_total lv - delta); lv_order_count := lv_order_count lv |}
  end.

Definition replace (r : ReplaceRequest) : ST Book bool := fun b =>
  match by_id_ b !! rep_order_id r with
  | None => (Ok false, emit_report (rep_order_id r) Rejected 0 UnknownOrder b)
  | Some idx =>
      let node := node_at (nodes_ b) idx in
      if negb (nd_client_id node =? rep_client_id r) then
        (Ok false, emit_report (rep_order_id r) Rejected (nd_remaining node) ClientMismatch b)
      else if (rep_new_price r <=? 0) || (rep_new_quantity r =? 0) then
        (Ok false, emit_report (rep_order_id r) Rejected (nd_remaining node)
                     InvalidReplacement b)
      else if (rep_new_price r =? nd_price node) && (rep_new_quantity r <=? nd_remaining node)
      then
        (Ok true, emit_report (rep_order_id r) Replaced (rep_new_quantity r) RejectNone
                    (reduce_in_place idx (rep_new_quantity r) b))
      else
        let b := remove_without_report idx b in
        let b := emit_report (rep_order_id r) Replaced (rep_new_quantity r) RejectNone b in
        submit {| req_order_id := rep_order_id r; req_client_id := rep_client_id r;
                  req_side := nd_side node; req_type := Limit; req_price := rep_new_price r;
                  req_quantity := rep_new_quantity r; req_symbol := symbol_ b |} b
  end.

(** ** Restoring a snapshot *)

Fixpoint restore_loop (orders : list OrderRequest) : ST Book unit :=
  match orders with
  | [] => mret tt
  | order :: orders' =>
      b ← get;
      if negb (req_symbol order =? symbol_ b) || (req_quantity order =? 0) ||
         (req_price order <=? 0) || bool_decide (is_Some (by_id_ b !! req_order_id order))
      then throw (runtime_error "invalid snapshot order")
      else rest order (req_quantity order);; restore_loop orders'
  end.

Definition set_sequence (seq : Sequence) (b : Book) : Book :=
  set_outbox b {| sequence_ := seq; emitted_ := emitted_ (outbox_ b) |}.

Definition restore_resting_orders (orders : list OrderRequest) (seq : Sequence)
    : ST Book unit :=
  modify reset;; restore_loop orders;; modify (set_sequence seq).
