(* ===== verification/BookSpec.v ===== *)
(** * The price-time book: what an order book promises

    The abstract state of a book is one queue of resting orders per side, in
    priority order: better price first and, at one price, earlier arrival
    first.  [spec_submit], [spec_cancel] and [spec_replace] are the three
    commands on that state; [BookRefine.v] proves that the linked and indexed
    representation of [OrderBook.v] implements them. *)

From S2P Require Import Prelude.
From S2P Require Import Types.
From S2P Require Import SortedMap.
From S2P Require Import OrderBook.

(** A resting order. *)
Record Order := {
  o_id : OrderId;
  o_client : ClientId;
  o_price : Price;
  o_qty : Quantity
}.

Record SBook := {
  sb_symbol : SymbolId;
  sb_capacity : nat;
  sb_policy : SelfTradePreventionPolicy;
  sb_bids : list Order;
  sb_asks : list Order;
  sb_outbox : Outbox
}.

Definition sb_side (a : SBook) (s : Side) : list Order :=
  match s with Buy => sb_bids a | Sell => sb_asks a end.

Definition sb_orders (a : SBook) : list Order := sb_bids a ++ sb_asks a.

Definition sb_set_side (a : SBook) (s : Side) (q : list Order) : SBook := {|
  sb_symbol := sb_symbol a; sb_capacity := sb_capacity a; sb_policy := sb_policy a;
  sb_bids := match s with Buy => q | Sell => sb_bids a end;
  sb_asks := match s with Buy => sb_asks a | Sell => q end;
  sb_outbox := sb_outbox a |}.

Definition sb_set_outbox (a : SBook) (o : Outbox) : SBook := {|
  sb_symbol := sb_symbol a; sb_capacity := sb_capacity a; sb_policy := sb_policy a;
  sb_bids := sb_bids a; sb_asks := sb_asks a; sb_outbox := o |}.

Definition sb_report (id : OrderId) (st : Status) (rem : Quantity) (reason : RejectReason)
    (a : SBook) : SBook :=
  sb_set_outbox a (push_report (sb_symbol a) id st rem reason (sb_outbox a)).

(** ** Queues *)

Definition set_qty (o : Order) (q : Quantity) : Order :=
  {| o_id := o_id o; o_client := o_client o; o_price := o_price o; o_qty := q |}.

(** A new order goes behind every order that has at least its priority. *)
Fixpoint enqueue (s : Side) (o : Order) (q : list Order) : list Order :=
  match q with
  | [] => [o]
  | x :: q' => if before s (o_price o) (o_price x) then o :: q else x :: enqueue s o q'
  end.

Definition remove_order (id : OrderId) (q : list Order) : list Order :=
  filter (fun o => o_id o ≠ id) q.

Definition resize_order (id : OrderId) (n : Quantity) (q : list Order) : list Order :=
  (fun o => if o_id o =? id then set_qty o n else o) <$> q.

Fixpoint find_order (id : OrderId) (q : list Order) : option Order :=
  match q with
  | [] => None
  | o :: q' => if o_id o =? id then Some o else find_order id q'
  end.

(** The orders of a queue by price level. *)
Fixpoint by_level (q : list Order) : list (Price * list Order) :=
  match q with
  | [] => []
  | o :: q' =>
      match by_level q' with
      | (p, os) :: g => if p =? o_price o then (p, o :: os) :: g
                        else (o_price o, [o]) :: (p, os) :: g
      | [] => [(o_price o, [o])]
      end
  end.

Definition level_total (os : list Order) : Quantity := u32 (sumZ (o_qty <$> os)).

(** ** Commands *)

Definition spec_reason (r : OrderRequest) (a : SBook) : RejectReason :=
  if negb (req_symbol r =? sb_symbol a) then InvalidPrice
  else if req_quantity r =? 0 then InvalidQuantity
  else if bool_decide (req_type r ≠ Market) && (req_price r <=? 0) then InvalidPrice
  else if bool_decide (req_type r = Market) && negb (req_price r =? MARKET_PRICE)
    then InvalidPrice
  else if bool_decide (req_order_id r ∈ o_id <$> sb_orders a) then DuplicateOrderId
  else if bool_decide (length (sb_orders a) = sb_capacity a) then CapacityExceeded
  else RejectNone.

Section Match.
Context (sym : SymbolId) (policy : SelfTradePreventionPolicy) (taker : OrderRequest).

(** Match a taker against the queue of the other side, from its front. *)
Fixpoint spec_match (remaining : Quantity) (q : list Order) (o : Outbox)
    : MatchOutcome * Quantity * list Order * Outbox :=
  match q with
  | [] => (Completed, remaining, [], o)
  | m :: q' =>
      if negb (0 <? remaining) || negb (crosses taker (o_price m)) then
        (Completed, remaining, q, o)
      else if bool_decide (policy ≠ StpNone) && (o_client m =? req_client_id taker) then
        match policy with
        | CancelNewest =>
            (TakerCancelled, remaining, q,
             push_report sym (req_order_id taker) Cancelled remaining RejectNone o)
        | CancelBoth =>
            (TakerCancelled, remaining, q',
             push_report sym (req_order_id taker) Cancelled remaining RejectNone
               (push_report sym (o_id m) Cancelled (o_qty m) RejectNone o))
        | _ =>
            spec_match remaining q' (push_report sym (o_id m) Cancelled (o_qty m) RejectNone o)
        end
      else
        let fill := Z.min remaining (o_qty m) in
        let left := o_qty m - fill in
        let o' := push_report sym (o_id m) (if left =? 0 then Filled else PartiallyFilled)
                    left RejectNone (push_trade sym (o_id m) taker (o_price m) fill o) in
        if left =? 0 then spec_match (remaining - fill) q' o'
        else (Completed, remaining - fill, set_qty m left :: q', o')
  end.
End Match.

Definition spec_available (r : OrderRequest) (q : list Order) : Quantity :=
  scan_available r ((fun e : Price * list Order => (e.1, level_total e.2)) <$> by_level q) 0.

Definition spec_would_trade (r : OrderRequest) (a : SBook) : bool :=
  match sb_side a (opposite (req_side r)) with
  | [] => false
  | m :: _ => match req_side r with
              | Buy => o_price m <=? req_price r
              | Sell => req_price r <=? o_price m
              end
  end.

Definition order_of_request (r : OrderRequest) (q : Quantity) : Order :=
  {| o_id := req_order_id r; o_client := req_client_id r; o_price := req_price r; o_qty := q |}.

Definition rests (t : OrderType) : bool :=
  match t with Limit | PostOnly => true | _ => false end.

Definition spec_finish (r : OrderRequest) (remaining : Quantity) (a : SBook) : SBook :=
  let a1 := if remaining =? 0 then sb_report (req_order_id r) Filled 0 RejectNone a
            else if remaining <? req_quantity r
            then sb_report (req_order_id r) PartiallyFilled remaining RejectNone a else a in
  if 0 <? remaining then
    if rests (req_type r)
    then sb_set_side a1 (req_side r)
           (enqueue (req_side r) (order_of_request r remaining) (sb_side a1 (req_side r)))
    else sb_report (req_order_id r) Expired remaining RejectNone a1
  else a1.

(** The matching phase of an accepted order and what follows it. *)
Definition spec_execute (r : OrderRequest) (a : SBook) : SBook :=
  let s := opposite (req_side r) in
  match spec_match (sb_symbol a) (sb_policy a) r (req_quantity r) (sb_side a s) (sb_outbox a) with
  | (TakerCancelled, _, q, o) => sb_set_outbox (sb_set_side a s q) o
  | (Completed, remaining, q, o) => spec_finish r remaining (sb_set_outbox (sb_set_side a s q) o)
  end.

Definition spec_submit (r : OrderRequest) (a : SBook) : bool * SBook :=
  let reject reason := (false, sb_report (req_order_id r) Rejected (req_quantity r) reason a) in
  if bool_decide (spec_reason r a ≠ RejectNone) then reject (spec_reason r a)
  else if bool_decide (req_type r = PostOnly) && spec_would_trade r a then reject WouldTrade
  else if bool_decide (req_type r = FOK) &&
          (spec_available r (sb_side a (opposite (req_side r))) <? req_quantity r)
  then reject InsufficientLiquidity
  else (true, spec_execute r
                (sb_report (req_order_id r) Accepted (req_quantity r) RejectNone a)).

(** The side and the order an identifier names. *)
Definition spec_find (id : OrderId) (a : SBook) : option (Side * Order) :=
  match find_order id (sb_bids a), find_order id (sb_asks a) with
  | Some o, _ => Some (Buy, o)
  | None, Some o => Some (Sell, o)
  | None, None => None
  end.

Definition spec_remove (s : Side) (id : OrderId) (a : SBook) : SBook :=
  sb_set_side a s (remove_order id (sb_side a s)).

Definition spec_cancel (r : CancelRequest) (a : SBook) : bool * SBook :=
  match spec_find (can_order_id r) a with
  | None => (false, sb_report (can_order_id r) Rejected 0 UnknownOrder a)
  | Some (s, o) =>
      if negb (o_client o =? can_client_id r)
      then (false, sb_report (can_order_id r) Rejected (o_qty o) ClientMismatch a)
      else (true, sb_report (can_order_id r) Cancelled (o_qty o) RejectNone
                    (spec_remove s (can_order_id r) a))
  end.

Definition replacement (r : ReplaceRequest) (s : Side) (sym : SymbolId) : OrderRequest := {|
  req_order_id := rep_order_id r; req_client_id := rep_client_id r; req_side := s;
  req_type := Limit; req_price := rep_new_price r; req_quantity := rep_new_quantity r;
  req_symbol := sym |}.

Definition spec_replace (r : ReplaceRequest) (a : SBook) : bool * SBook :=
  let id := rep_order_id r in
  match spec_find id a with
  | None => (false, sb_report id Rejected 0 UnknownOrder a)
  | Some (s, o) =>
      if negb (o_client o =? rep_client_id r)
      then (false, sb_report id Rejected (o_qty o) ClientMismatch a)
      else if (rep_new_price r <=? 0) || (rep_new_quantity r =? 0)
      then (false, sb_report id Rejected (o_qty o) InvalidReplacement a)
      else if (rep_new_price r =? o_price o) && (rep_new_quantity r <=? o_qty o)
      then (true, sb_report id Replaced (rep_new_quantity r) RejectNone
              (sb_set_side a s (resize_order id (rep_new_quantity r) (sb_side a s))))
      else spec_submit (replacement r s (sb_symbol a))
             (sb_report id Replaced (rep_new_quantity r) RejectNone (spec_remove s id a))
  end.

Definition spec_restore_order (a : SBook) (r : OrderRequest) : SBook :=
  sb_set_side a (req_side r)
    (enqueue (req_side r) (order_of_request r (req_quantity r)) (sb_side a (req_side r))).

Definition spec_clear (a : SBook) : SBook := {|
  sb_symbol := sb_symbol a; sb_capacity := sb_capacity a; sb_policy := sb_policy a;
  sb_bids := []; sb_asks := [];
  sb_outbox := {| sequence_ := 0; emitted_ := emitted_ (sb_outbox a) |} |}.

(** The loop of a restore: it stops at the first order that the book refuses. *)
Fixpoint spec_restore_loop (orders : list OrderRequest) (a : SBook) : result unit * SBook :=
  match orders with
  | [] => (Ok tt, a)
  | r :: orders' =>
      if negb (req_symbol r =? sb_symbol a) || (req_quantity r =? 0) ||
         (req_price r <=? 0) || bool_decide (req_order_id r ∈ o_id <$> sb_orders a)
      then (Throw (runtime_error "invalid snapshot order"), a)
      else if bool_decide (length (sb_orders a) = sb_capacity a)
      then (Throw (runtime_error "order capacity exceeded"), a)
      else spec_restore_loop orders' (spec_restore_order a r)
  end.

Definition spec_set_sequence (seq : Sequence) (a : SBook) : SBook :=
  sb_set_outbox a {| sequence_ := seq; emitted_ := emitted_ (sb_outbox a) |}.

Definition spec_restore (orders : list OrderRequest) (seq : Sequence) (a : SBook)
    : result unit * SBook :=
  match spec_restore_loop orders (spec_clear a) with
  | (Ok _, a') => (Ok tt, spec_set_sequence seq a')
  | (Throw e, a') => (Throw e, a')
  end.

(** The queues as the requests a snapshot holds. *)
Definition request_of (sym : SymbolId) (s : Side) (o : Order) : OrderRequest := {|
  req_order_id := o_id o; req_client_id := o_client o; req_side := s; req_type := Limit;
  req_price := o_price o; req_quantity := o_qty o; req_symbol := sym |}.

Definition spec_resting (a : SBook) : list OrderRequest :=
  (request_of (sb_symbol a) Buy <$> sb_bids a) ++ (request_of (sb_symbol a) Sell <$> sb_asks a).

Definition hash_order (hash : Z) (o : Order) : Z :=
  mix (mix (mix hash (o_id o)) (o_client o)) (o_qty o).

Definition spec_hash_side (s : Side) (q : list Order) (hash : Z) : Z :=
  foldl (fun h e => foldl hash_order (mix h e.1) e.2) (mix hash (side_code s)) (by_level q).

Definition spec_hash (a : SBook) : Z :=
  mix (spec_hash_side Sell (sb_asks a)
        (spec_hash_side Buy (sb_bids a) (mix 1469598103934665603 (sb_symbol a))))
    (Z.of_nat (length (sb_orders a))).

(** The book a constructor makes. *)
Definition spec_new (capacity : nat) (symbol : SymbolId) : SBook := {|
  sb_symbol := symbol; sb_capacity := capacity; sb_policy := StpNone;
  sb_bids := []; sb_asks := []; sb_outbox := {| sequence_ := 0; emitted_ := [] |} |}.
