(* ===== verification/BookFacts.v ===== *)
(** * Facts about the price-time book

    Properties of [BookSpec.v] on its own: the matching phase as a step
    relation, what it leaves of a queue, what it trades, and the order of the
    queues. *)

From S2P Require Import Prelude.
From S2P Require Import Types.
From S2P Require Import SortedMap.
From S2P Require Import OrderBook.
From S2P Require Import BookSpec.

(** ** The matching phase as a relation *)

Section Run.
Context (sym : SymbolId) (policy : SelfTradePreventionPolicy) (taker : OrderRequest).

Definition self_order (m : Order) : Prop :=
  policy ≠ StpNone /\ o_client m = req_client_id taker.

Definition cancel_report (m : Order) (o : Outbox) : Outbox :=
  push_report sym (o_id m) Cancelled (o_qty m) RejectNone o.

Definition cancel_taker (rem : Quantity) (o : Outbox) : Outbox :=
  push_report sym (req_order_id taker) Cancelled rem RejectNone o.

(** The trade and the maker's report of a fill of [fill] that leaves [left]. *)
Definition fill_events (m : Order) (fill left : Quantity) (o : Outbox) : Outbox :=
  push_report sym (o_id m) (if left =? 0 then Filled else PartiallyFilled) left RejectNone
    (push_trade sym (o_id m) taker (o_price m) fill o).

Inductive match_run : Quantity -> list Order -> Outbox ->
    MatchOutcome -> Quantity -> list Order -> Outbox -> Prop :=
| run_filled q o : match_run 0 q o Completed 0 q o
| run_empty rem o : 0 < rem -> match_run rem [] o Completed rem [] o
| run_no_cross rem m q o :
    0 < rem -> crosses taker (o_price m) = false ->
    match_run rem (m :: q) o Completed rem (m :: q) o
| run_newest rem m q o :
    0 < rem -> crosses taker (o_price m) = true -> self_order m -> policy = CancelNewest ->
    match_run rem (m :: q) o TakerCancelled rem (m :: q) (cancel_taker rem o)
| run_both rem m q o :
    0 < rem -> crosses taker (o_price m) = true -> self_order m -> policy = CancelBoth ->
    match_run rem (m :: q) o TakerCancelled rem q (cancel_taker rem (cancel_report m o))
| run_oldest rem m q o out rem' q' o' :
    0 < rem -> crosses taker (o_price m) = true -> self_order m -> policy = CancelOldest ->
    match_run rem q (cancel_report m o) out rem' q' o' ->
    match_run rem (m :: q) o out rem' q' o'
| run_fill rem m q o out rem' q' o' :
    0 < rem -> crosses taker (o_price m) = true -> ~ self_order m -> o_qty m <= rem ->
    match_run (rem - o_qty m) q (fill_events m (o_qty m) 0 o) out rem' q' o' ->
    match_run rem (m :: q) o out rem' q' o'
| run_partial rem m q o :
    0 < rem -> crosses taker (o_price m) = true -> ~ self_order m -> rem < o_qty m ->
    match_run rem (m :: q) o Completed 0 (set_qty m (o_qty m - rem) :: q)
      (fill_events m rem (o_qty m - rem) o).

Lemma spec_match_run rem q o out rem' q' o' :
  0 <= rem ->
  spec_match sym policy taker rem q o = (out, rem', q', o') ->
  match_run rem q o out rem' q' o'.
Proof.
  revert rem o. induction q as [|m q IH]; intros rem o Hrem; simpl.
  { intros [= <- <- <- <-]. destruct (decide (rem = 0)) as [->|]; constructor; lia. }
  destruct (0 <? rem) eqn:Hr; breflect; cbn [negb orb]; cycle 1.
  { assert (rem = 0) as -> by lia. intros [= <- <- <- <-]. constructor. }
  destruct (crosses taker (o_price m)) eqn:Hx; cbn [negb]; cycle 1.
  { intros [= <- <- <- <-]. by constructor. }
  destruct (bool_decide _ && _) eqn:Hs; breflect.
  - assert (self_order m) as HS by done.
    destruct policy eqn:HP; [done|intros [= <- <- <- <-]; by constructor|..].
    + intros E. eapply run_oldest; eauto.
    + intros [= <- <- <- <-]. by apply run_both.
  - assert (~ self_order m) as HS.
    { intros [H1 H2]. apply andb_false_iff in Hs as [Hs|Hs]; breflect; tauto. }
    destruct (decide (o_qty m <= rem)) as [Hq|Hq].
    + rewrite Z.min_r, Z.sub_diag by lia. simpl. intros E. eapply run_fill; eauto.
      apply IH; [lia|done].
    + rewrite Z.min_l, Z.sub_diag by lia. rewrite (proj2 (Z.eqb_neq (o_qty m - rem) 0)) by lia.
      intros [= <- <- <- <-]. unfold fill_events.
      pose proof (run_partial rem m q o) as HP. unfold fill_events in HP.
      rewrite (proj2 (Z.eqb_neq (o_qty m - rem) 0)) in HP by lia. apply HP; auto; lia.
Qed.
End Run.

(** What identifies a resting order: all but its quantity. *)
Definition okey (o : Order) : OrderId * ClientId * Price := (o_id o, o_client o, o_price o).

(** Matching takes orders from the front of the queue and resizes at most the
    new first one. *)
Lemma run_suffix sym policy taker rem q o out rem' q' o' :
  match_run sym policy taker rem q o out rem' q' o' ->
  exists k, okey <$> q = k ++ (okey <$> q').
Proof.
  induction 1 as [| | | |rem m q o|rem m q o out rem' q' o' _ _ _ _ _ [k IH]
                 |rem m q o out rem' q' o' _ _ _ _ _ [k IH]|];
    try (by exists []).
  - by exists [okey m].
  - exists (okey m :: k). by rewrite fmap_cons, IH.
  - exists (okey m :: k). by rewrite fmap_cons, IH.
Qed.

Lemma run_ids sym policy taker rem q o out rem' q' o' :
  match_run sym policy taker rem q o out rem' q' o' ->
  exists k, o_id <$> q = k ++ (o_id <$> q').
Proof.
  intros H. apply run_suffix in H as [k H].
  assert (forall l, o_id <$> l = (fun e : OrderId * ClientId * Price => e.1.1) <$> (okey <$> l))
    as HK by (intros l; by rewrite <- list_fmap_compose).
  exists ((fun e => e.1.1) <$> k). by rewrite !HK, H, fmap_app.
Qed.

Lemma run_length sym policy taker rem q o out rem' q' o' :
  match_run sym policy taker rem q o out rem' q' o' -> (length q' <= length q)%nat.
Proof.
  intros H. apply run_suffix in H as [k H]. apply (f_equal length) in H.
  rewrite length_app, !length_fmap in H. lia.
Qed.

(** ** Looking up an order *)

Lemma find_order_some id q o : find_order id q = Some o -> o ∈ q /\ o_id o = id.
Proof.
  induction q as [|x q IH]; [done|]. simpl. destruct (Z.eqb_spec (o_id x) id) as [E|E].
  - intros [= ->]. split; [constructor|done].
  - intros H. destruct (IH H). split; [by constructor|done].
Qed.

Lemma find_order_none id q : find_order id q = None <-> id ∉ o_id <$> q.
Proof.
  induction q as [|x q IH]; simpl; [split; [intros _; apply not_elem_of_nil|done]|].
  rewrite not_elem_of_cons. destruct (Z.eqb_spec (o_id x) id) as [E|E]; [split; [done|intros [H _]; congruence]|].
  rewrite IH. split; [|tauto]. intros H. split; [congruence|done].
Qed.

Lemma find_order_elem q o :
  NoDup (o_id <$> q) -> o ∈ q -> find_order (o_id o) q = Some o.
Proof.
  induction q as [|x q IH]; intros ND Hin; [by apply elem_of_nil in Hin|]. simpl.
  rewrite fmap_cons in ND. apply NoDup_cons in ND as [Hx ND].
  apply elem_of_cons in Hin as [->|Hin]; [by rewrite Z.eqb_refl|].
  destruct (Z.eqb_spec (o_id x) (o_id o)) as [E|E]; [|by apply IH].
  exfalso. apply Hx. rewrite E. by apply list_elem_of_fmap_2.
Qed.

Lemma spec_find_some id a s o :
  spec_find id a = Some (s, o) -> o ∈ sb_side a s /\ o_id o = id.
Proof.
  unfold spec_find. intros H. repeat case_match; simplify_eq/=; by apply find_order_some.
Qed.

Lemma spec_find_none id a : spec_find id a = None <-> id ∉ o_id <$> sb_orders a.
Proof.
  unfold spec_find, sb_orders. rewrite fmap_app, not_elem_of_app, <- !find_order_none.
  repeat case_match; naive_solver.
Qed.

Lemma spec_find_elem a s o :
  NoDup (o_id <$> sb_orders a) -> o ∈ sb_side a s -> spec_find (o_id o) a = Some (s, o).
Proof.
  unfold spec_find, sb_orders. rewrite fmap_app. intros (N1 & N2 & N3)%NoDup_app Ho.
  destruct s; simpl in Ho; [by rewrite (find_order_elem _ o)|].
  rewrite (proj2 (find_order_none _ _)), (find_order_elem _ o); [done..|].
  intros H. apply (N2 _ H). by apply list_elem_of_fmap_2.
Qed.

(** ** What a command emitted *)

(** The quantity traded by a list of handler calls, and the quantity that
    their reports cancel or expire. *)
Definition traded_in (e : Event) : Z :=
  match e with ETrade t => tr_quantity t | EReport _ => 0 end.

Definition withdrawn_in (e : Event) : Z :=
  match e with
  | EReport r => match er_status r with Cancelled | Expired => er_remaining r | _ => 0 end
  | ETrade _ => 0
  end.

Definition traded (evs : list Event) : Z := sumZ (traded_in <$> evs).

Definition withdrawn (evs : list Event) : Z := sumZ (withdrawn_in <$> evs).

Definition trades_of (evs : list Event) : list Trade :=
  omap (fun e => match e with ETrade t => Some t | EReport _ => None end) evs.

Lemma traded_app e1 e2 : traded (e1 ++ e2) = traded e1 + traded e2.
Proof. unfold traded. by rewrite fmap_app, sumZ_app. Qed.

Lemma withdrawn_app e1 e2 : withdrawn (e1 ++ e2) = withdrawn e1 + withdrawn e2.
Proof. unfold withdrawn. by rewrite fmap_app, sumZ_app. Qed.

Lemma traded_cons e evs : traded (e :: evs) = traded_in e + traded evs.
Proof. reflexivity. Qed.

Lemma withdrawn_cons e evs : withdrawn (e :: evs) = withdrawn_in e + withdrawn evs.
Proof. reflexivity. Qed.

Lemma trades_of_app e1 e2 : trades_of (e1 ++ e2) = trades_of e1 ++ trades_of e2.
Proof. apply omap_app. Qed.

Definition total (q : list Order) : Z := sumZ (o_qty <$> q).

Lemma total_cons m q : total (m :: q) = o_qty m + total q.
Proof. reflexivity. Qed.

Lemma total_one m : total [m] = o_qty m.
Proof. unfold total. simpl. lia. Qed.

Lemma total_app q1 q2 : total (q1 ++ q2) = total q1 + total q2.
Proof. unfold total. by rewrite fmap_app, sumZ_app. Qed.

Lemma total_enqueue s o q : total (enqueue s o q) = o_qty o + total q.
Proof.
  induction q as [|x q IH]; [done|]. simpl. case_if; [done|].
  rewrite !total_cons, IH. lia.
Qed.

(** A trade of the taker: with a resting order it crosses, at that order's
    price. *)
Definition fair_trade (taker : OrderRequest) (q : list Order) (t : Trade) : Prop :=
  0 < tr_quantity t <= req_quantity taker /\ tr_taker_order_id t = req_order_id taker /\
  crosses taker (tr_price t) = true /\
  exists m, m ∈ q /\ o_id m = tr_maker_order_id t /\ o_price m = tr_price t /\
            tr_quantity t <= o_qty m.

Lemma fair_trade_mono taker q q' t :
  (forall m, m ∈ q -> m ∈ q') -> fair_trade taker q t -> fair_trade taker q' t.
Proof.
  intros H (H1 & H2 & H3 & m & H4 & H5). split_and!; try done; try lia. exists m. auto.
Qed.

Section RunFacts.
Context (sym : SymbolId) (policy : SelfTradePreventionPolicy) (taker : OrderRequest).
Notation run := (match_run sym policy taker).

Lemma run_bounds rem q o out rem' q' o' :
  Forall (fun m => 0 < o_qty m) q -> 0 <= rem -> run rem q o out rem' q' o' ->
  0 <= rem' <= rem /\ Forall (fun m => 0 < o_qty m) q'.
Proof.
  intros HF Hr H. induction H; try (split; [lia|done]);
    apply Forall_cons in HF as [Hm HF].
  - split; [lia|done].
  - by apply IHmatch_run.
  - destruct IHmatch_run as [? ?]; [done|lia|]. split; [lia|done].
  - split; [lia|]. constructor; [simpl; lia|done].
Qed.

(** Nothing is created or lost by matching: what the two sides had is what
    they still have, what traded (twice) and what was withdrawn. *)
Lemma run_account rem q o out rem' q' o' :
  run rem q o out rem' q' o' ->
  exists evs, emitted_ o' = emitted_ o ++ evs /\
    total q + rem = total q' + match out with Completed => rem' | TakerCancelled => 0 end
                    + 2 * traded evs + withdrawn evs.
Proof.
  induction 1 as [q o|rem o Hr|rem m q o Hr Hx|rem m q o Hr Hx Hs HP|rem m q o Hr Hx Hs HP
    |rem m q o out rem' q' o' Hr Hx Hs HP H IH|rem m q o out rem' q' o' Hr Hx Hs HP H IH
    |rem m q o Hr Hx Hs HP].
  1-3: exists []; rewrite app_nil_r; split; [done|unfold traded, withdrawn; simpl; lia].
  - eexists [_]. split; [reflexivity|]. unfold traded, withdrawn. simpl. lia.
  - eexists [_; _]. split; [simpl; by rewrite <- app_assoc|].
    rewrite total_cons. unfold traded, withdrawn. simpl. lia.
  - destruct IH as (evs & E & HA). eexists (_ :: evs). split.
    + rewrite E. simpl. by rewrite <- app_assoc.
    + rewrite total_cons, ?traded_cons, ?withdrawn_cons, ?traded_cons, ?withdrawn_cons. simpl. lia.
  - destruct IH as (evs & E & HA). eexists (_ :: _ :: evs). split.
    + rewrite E. simpl. by rewrite <- !app_assoc.
    + rewrite total_cons, ?traded_cons, ?withdrawn_cons, ?traded_cons, ?withdrawn_cons. simpl. lia.
  - eexists [_; _]. split; [simpl; by rewrite <- app_assoc|].
    rewrite !total_cons. unfold traded, withdrawn. simpl.
    destruct (o_qty m - rem =? 0); simpl; lia.
Qed.

Lemma run_fair rem q o out rem' q' o' evs :
  Forall (fun m => 0 < o_qty m) q -> rem <= req_quantity taker ->
  run rem q o out rem' q' o' -> emitted_ o' = emitted_ o ++ evs ->
  Forall (fair_trade taker q) (trades_of evs).
Proof.
  intros HF Hq H. revert evs HF Hq.
  induction H as [q o|rem o Hr|rem m q o Hr Hx|rem m q o Hr Hx Hs HP|rem m q o Hr Hx Hs HP
    |rem m q o out rem' q' o' Hr Hx Hs HP H IH|rem m q o out rem' q' o' Hr Hx Hs HP H IH
    |rem m q o Hr Hx Hs HP]; intros evs HF Hq E.
  1-3: (rewrite <- (app_nil_r (emitted_ o)) in E at 1; apply app_inv_head in E as <-; constructor).
  - simpl in E. apply app_inv_head in E as <-. constructor.
  - simpl in E. rewrite <- app_assoc in E. apply app_inv_head in E as <-. constructor.
  - apply Forall_cons in HF as [Hm HF].
    destruct (run_account _ _ _ _ _ _ _ H) as (evs' & E' & _).
    rewrite E' in E. simpl in E. rewrite <- app_assoc in E. apply app_inv_head in E as <-.
    simpl. eapply Forall_mono; [|by apply IH]. intros t _. apply fair_trade_mono.
    intros x Hx'. by constructor.
  - apply Forall_cons in HF as [Hm HF].
    destruct (run_account _ _ _ _ _ _ _ H) as (evs' & E' & _).
    rewrite E' in E. simpl in E. rewrite <- !app_assoc in E. apply app_inv_head in E as <-.
    simpl. constructor.
    + split_and!; simpl; try done; try lia. exists m. split_and!; [constructor|done|done|lia].
    + eapply Forall_mono; [|apply IH; [done|lia|done]]. intros t _. apply fair_trade_mono.
      intros x Hx'. by constructor.
  - apply Forall_cons in HF as [Hm HF]. simpl in E. rewrite <- app_assoc in E.
    apply app_inv_head in E as <-. simpl. constructor; [|constructor].
    split_and!; simpl; try done; try lia. exists m. split_and!; [constructor|done|done|lia].
Qed.

(** When the taker has quantity left, nothing it crosses is left. *)
Lemma run_front rem q o rem' q' o' :
  run rem q o Completed rem' q' o' -> 0 < rem' ->
  match q' with [] => True | m :: _ => crosses taker (o_price m) = false end.
Proof.
  intros H. remember Completed as out eqn:EO. induction H; intros Hr'; try done; try (exfalso; lia); by apply IHmatch_run.
Qed.
End RunFacts.

(** ** Order of the queues *)

Definition prices_sorted (s : Side) (ps : list Price) : Prop :=
  StronglySorted (fun p q => before s q p = false) ps.

(** The invariant of the abstract book that its commands keep: queues in
    priority order, positive prices, and best bid below best ask, the last one
    if [U] holds: a snapshot may restore a crossed book. *)
Record sb_ok_if (U : Prop) (a : SBook) : Prop := {
  ok_sorted : forall s, prices_sorted s (o_price <$> sb_side a s);
  ok_prices : forall s, Forall (fun p => 0 < p) (o_price <$> sb_side a s);
  ok_uncrossed_if : U -> forall p q, p ∈ o_price <$> sb_bids a -> q ∈ o_price <$> sb_asks a -> p < q
}.
Arguments ok_sorted {U}.
Arguments ok_prices {U}.
Arguments ok_uncrossed_if {U}.

Abbreviation sb_ok := (sb_ok_if True).

Lemma ok_uncrossed a : sb_ok a -> forall p q, p ∈ o_price <$> sb_bids a -> q ∈ o_price <$> sb_asks a -> p < q.
Proof. intros H. by apply (ok_uncrossed_if a H). Qed.

Lemma before_spec s p q : before s p q = true <-> match s with Buy => q < p | Sell => p < q end.
Proof. destruct s; apply Z.ltb_lt. Qed.

Lemma not_before_spec s p q :
  before s p q = false <-> match s with Buy => p <= q | Sell => q <= p end.
Proof. destruct s; apply Z.ltb_ge. Qed.

Lemma ssorted_app_r {A} (R : A -> A -> Prop) k l :
  StronglySorted R (k ++ l) -> StronglySorted R l.
Proof. induction k as [|x k IH]; [done|]. simpl. intros H. inversion H. auto. Qed.

Lemma enqueue_perm s o q : enqueue s o q ≡ₚ o :: q.
Proof.
  induction q as [|x q IH]; [done|]. simpl. case_if; [done|]. rewrite IH. constructor.
Qed.

Lemma enqueue_sorted s o q :
  prices_sorted s (o_price <$> q) -> prices_sorted s (o_price <$> enqueue s o q).
Proof.
  unfold prices_sorted. induction q as [|x q IH]; intros H; simpl; [repeat constructor|].
  inversion H as [|? ? H1 H2]; subst. case_if.
  - rewrite fmap_cons. constructor; [done|]. constructor.
    + rewrite not_before_spec. apply before_spec in E. destruct s; lia.
    + eapply Forall_mono; [|exact H2]. intros p _. rewrite !not_before_spec.
      apply before_spec in E. destruct s; lia.
  - rewrite fmap_cons. constructor; [by apply IH|].
    apply Forall_forall. intros p Hp. apply list_elem_of_fmap in Hp as (y & -> & Hy).
    rewrite enqueue_perm in Hy. apply elem_of_cons in Hy as [->|Hy]; [done|].
    rewrite Forall_forall in H2. apply H2. by apply list_elem_of_fmap_2.
Qed.

Lemma ok_side_prices {U} a s : sb_ok_if U a -> forall p, p ∈ o_price <$> sb_side a s -> 0 < p.
Proof. intros H p Hp. pose proof (ok_prices a H s) as HP. rewrite Forall_forall in HP. auto. Qed.

(** Taking orders away, and changing quantities, keeps the invariant. *)
Lemma ok_sublist {U} a a' :
  (forall s, o_price <$> sb_side a' s `sublist_of` o_price <$> sb_side a s) ->
  sb_ok_if U a -> sb_ok_if U a'.
Proof.
  intros HS [H1 H2 H3]. split.
  - intros s. eapply StronglySorted_sublist; [apply HS|apply H1].
  - intros s. rewrite Forall_forall. intros p Hp. specialize (H2 s). rewrite Forall_forall in H2.
    apply H2. by eapply elem_of_sublist; [|apply HS].
  - intros HU p q Hp Hq. apply (H3 HU).
    + by eapply elem_of_sublist; [|apply (HS Buy)].
    + by eapply elem_of_sublist; [|apply (HS Sell)].
Qed.

(** Entering an order that does not cross the other side keeps it too. *)
Lemma ok_enqueue {U} a s o :
  sb_ok_if U a -> 0 < o_price o ->
  (U -> forall p, p ∈ o_price <$> sb_side a (opposite s) ->
     match s with Buy => o_price o < p | Sell => p < o_price o end) ->
  sb_ok_if U (sb_set_side a s (enqueue s o (sb_side a s))).
Proof.
  intros [H1 H2 H3] Hp Hx. split.
  - intros s'. destruct s, s'; simpl; try apply enqueue_sorted; (apply (H1 Buy) || apply (H1 Sell)).
  - intros s'. assert (forall q, Forall (fun p => 0 < p) (o_price <$> q) ->
      Forall (fun p => 0 < p) (o_price <$> enqueue s o q)) as HE.
    { intros q Hq. rewrite (enqueue_perm s o q), fmap_cons. by constructor. }
    destruct s, s'; simpl; try apply HE; (apply (H2 Buy) || apply (H2 Sell)).
  - intros HU p q Hp' Hq. specialize (H3 HU). specialize (Hx HU). destruct s; simpl in *.
    + rewrite enqueue_perm, fmap_cons in Hp'. apply elem_of_cons in Hp' as [->|Hp'].
      * apply Hx in Hq. lia.
      * by apply H3.
    + rewrite enqueue_perm, fmap_cons in Hq. apply elem_of_cons in Hq as [->|Hq].
      * apply Hx in Hp'. lia.
      * by apply H3.
Qed.

Lemma key_price_sublist q q' :
  okey <$> q' `sublist_of` okey <$> q -> o_price <$> q' `sublist_of` o_price <$> q.
Proof.
  intros H. assert (forall l, o_price <$> l = (fun e : OrderId * ClientId * Price => e.2) <$> (okey <$> l))
    as HK by (intros l; by rewrite <- list_fmap_compose).
  rewrite !HK. by apply fmap_sublist.
Qed.

Lemma sublist_suffix {A} (k l : list A) : l `sublist_of` k ++ l.
Proof. by apply sublist_inserts_l. Qed.

(** The matching phase. *)
Lemma ok_matched {U} sym policy taker rem a s out rem' q' o' :
  match_run sym policy taker rem (sb_side a s) (sb_outbox a) out rem' q' o' ->
  sb_ok_if U a -> sb_ok_if U (sb_set_outbox (sb_set_side a s q') o').
Proof.
  intros HR. apply run_suffix in HR as [k Hk]. apply ok_sublist. intros s'.
  destruct (decide (s' = s)) as [->|Hs].
  - destruct s; simpl in *; apply key_price_sublist; rewrite Hk; apply sublist_suffix.
  - by destruct s, s'.
Qed.

(** A queue whose first order is out of the taker's limit has none within it. *)
Lemma no_cross_all (taker : OrderRequest) (s : Side) (q : list Order) :
  s = opposite (req_side taker) -> prices_sorted s (o_price <$> q) ->
  match q with [] => True | m :: _ => crosses taker (o_price m) = false end ->
  forall p, p ∈ o_price <$> q -> crosses taker p = false.
Proof.
  intros -> HS Hq p Hp. destruct q as [|m q]; [by apply elem_of_nil in Hp|].
  inversion HS as [|? ? _ HF]; subst. rewrite fmap_cons in Hp.
  apply elem_of_cons in Hp as [->|Hp]; [done|]. rewrite Forall_forall in HF.
  specialize (HF p Hp). apply not_before_spec in HF. unfold crosses in *.
  destruct (req_type taker); [|done|..];
    (destruct (req_side taker); simpl in *; breflect; apply Z.leb_gt; lia).
Qed.

Lemma sb_report_ok {U} id st rem reason a : sb_ok_if U a -> sb_ok_if U (sb_report id st rem reason a).
Proof. by apply ok_sublist. Qed.

Lemma finish_ok {U} r rem a :
  sb_ok_if U a -> (rests (req_type r) = true -> 0 < req_price r) ->
  (0 < rem -> forall p, p ∈ o_price <$> sb_side a (opposite (req_side r)) -> crosses r p = false) ->
  sb_ok_if U (spec_finish r rem a).
Proof.
  intros HO Hp Hx. unfold spec_finish. set (a1 := if rem =? 0 then _ else _).
  assert (sb_ok_if U a1 /\ forall s, sb_side a1 s = sb_side a s) as [H1 HE].
  { unfold a1. repeat case_if; (split; [try by apply sb_report_ok|done]). done. }
  case_if; breflect; [|done]. case_if; [|by apply sb_report_ok].
  apply ok_enqueue; [done|simpl; auto|]. simpl. intros _ p Hin. rewrite HE in Hin.
  apply Hx in Hin; [|done]. unfold crosses in Hin.
  destruct (req_type r); try done; destruct (req_side r); breflect; lia.
Qed.

Lemma execute_ok {U} r a :
  sb_ok_if U a -> (rests (req_type r) = true -> 0 < req_price r) -> 0 <= req_quantity r ->
  sb_ok_if U (spec_execute r a).
Proof.
  intros HO Hp Hq. unfold spec_execute.
  destruct (spec_match _ _ _ _ _ _) as [[[out rem'] q'] o'] eqn:ES.
  apply spec_match_run in ES; [|done]. pose proof (ok_matched _ _ _ _ _ _ _ _ _ _ ES HO) as H1.
  destruct out; [|done]. apply finish_ok; [done|done|].
  intros Hr. apply (no_cross_all r (opposite (req_side r)) _ eq_refl); [apply (ok_sorted _ H1)|].
  apply run_front in ES; [|done]. by destruct (req_side r).
Qed.

Lemma spec_reason_none r a :
  spec_reason r a = RejectNone ->
  req_symbol r = sb_symbol a /\ req_quantity r <> 0 /\ (req_type r <> Market -> 0 < req_price r) /\
  (req_type r = Market -> req_price r = MARKET_PRICE) /\
  req_order_id r ∉ o_id <$> sb_orders a /\ length (sb_orders a) <> sb_capacity a.
Proof.
  unfold spec_reason. intros H. repeat case_if_in H; breflect; try done.
  split_and!; try done.
  - intros HM. apply andb_false_iff in E1 as [E1|E1]; breflect; [by destruct E1|done].
  - intros HM. apply andb_false_iff in E2 as [E2|E2]; breflect; done.
Qed.

Lemma submit_sb_ok {U} r a : sb_ok_if U a -> 0 <= req_quantity r -> sb_ok_if U (spec_submit r a).2.
Proof.
  intros HO Hq. unfold spec_submit. repeat case_if; simpl; try by apply sb_report_ok.
  breflect. apply execute_ok; [by apply sb_report_ok| |done].
  assert (spec_reason r a = RejectNone) as HV by (destruct (spec_reason r a); try done; by destruct E).
  apply spec_reason_none in HV as (_ & _ & HP & _). intros Ht. apply HP. by intros Hm; rewrite Hm in Ht.
Qed.

Lemma remove_sb_ok {U} s id a : sb_ok_if U a -> sb_ok_if U (spec_remove s id a).
Proof.
  apply ok_sublist. intros s'. unfold spec_remove, remove_order.
  destruct s, s'; simpl; try done; apply fmap_sublist, sublist_filter.
Qed.

Lemma cancel_sb_ok {U} r a : sb_ok_if U a -> sb_ok_if U (spec_cancel r a).2.
Proof.
  intros HO. unfold spec_cancel. repeat case_match; simpl; apply sb_report_ok; try done.
  by apply remove_sb_ok.
Qed.

Lemma resize_keys id n q : okey <$> resize_order id n q = okey <$> q.
Proof.
  unfold resize_order. rewrite <- list_fmap_compose. apply list_fmap_ext. intros k o _. simpl.
  by case_if.
Qed.

Lemma replace_sb_ok {U} r a : sb_ok_if U a -> 0 <= rep_new_quantity r -> sb_ok_if U (spec_replace r a).2.
Proof.
  intros HO Hq. unfold spec_replace.
  destruct (spec_find (rep_order_id r) a) as [[s o]|]; [|by apply sb_report_ok].
  repeat case_if; simpl; try by apply sb_report_ok.
  - apply sb_report_ok. revert HO. apply ok_sublist. intros s'.
    destruct s, s'; simpl; try done; apply key_price_sublist; by rewrite resize_keys.
  - apply submit_sb_ok; [|done]. apply sb_report_ok. by apply remove_sb_ok.
Qed.

(** ** How much a taker can fill *)

(** The quantity in the part of a queue that the taker crosses. *)
Fixpoint crossing (taker : OrderRequest) (q : list Order) : Z :=
  match q with
  | [] => 0
  | m :: q' => if crosses taker (o_price m) then o_qty m + crossing taker q' else 0
  end.

Lemma crossing_nonneg taker q : Forall (fun m => 0 < o_qty m) q -> 0 <= crossing taker q.
Proof. induction 1; simpl; [done|]. case_if; lia. Qed.

(** Without self-trade prevention the matching phase fills what there is. *)
Lemma run_none_fills sym taker rem q o out rem' q' o' :
  Forall (fun m => 0 < o_qty m) q -> 0 <= rem ->
  match_run sym StpNone taker rem q o out rem' q' o' ->
  out = Completed /\ rem' = Z.max 0 (rem - crossing taker q).
Proof.
  intros HF Hr H. induction H; try (destruct H1; done).
  - split; [done|]. pose proof (crossing_nonneg taker q HF). lia.
  - split; [done|]. simpl. lia.
  - split; [done|]. simpl. rewrite H0. lia.
  - apply Forall_cons in HF as [Hm HF]. destruct IHmatch_run as [-> ->]; [done|lia|].
    split; [done|]. simpl. rewrite H0. lia.
  - apply Forall_cons in HF as [Hm HF]. split; [done|]. simpl. rewrite H0.
    pose proof (crossing_nonneg taker q HF). lia.
Qed.

(** The quantity of the crossed levels. *)
Fixpoint crossing_levels (taker : OrderRequest) (lvs : list (Price * Z)) : Z :=
  match lvs with
  | [] => 0
  | (p, n) :: lvs' => if crosses taker p then n + crossing_levels taker lvs' else 0
  end.

Lemma crossing_by_level taker q :
  crossing_levels taker ((fun e : Price * list Order => (e.1, total e.2)) <$> by_level q) =
  crossing taker q.
Proof.
  induction q as [|m q IH]; [done|]. simpl. rewrite <- IH.
  destruct (by_level q) as [|[p os] g]; simpl.
  - case_if; [rewrite total_one; lia|done].
  - destruct (Z.eqb_spec p (o_price m)) as [->|Hp]; simpl.
    + case_if; [rewrite total_cons; lia|done].
    + destruct (crosses taker (o_price m)); [rewrite total_one; lia|done].
Qed.

Lemma crossing_levels_nonneg taker lvs :
  Forall (fun e : Price * Z => 0 <= e.2) lvs -> 0 <= crossing_levels taker lvs.
Proof. induction 1 as [|[p n] lvs H _ IH]; simpl in *; [done|]. case_if; lia. Qed.

(** The scan of [available_to_match], when its sums do not wrap. *)
Lemma scan_crossing r lvs acc :
  Forall (fun e : Price * Z => 0 <= e.2 < 2 ^ 32) lvs ->
  0 <= acc < req_quantity r -> req_quantity r < 2 ^ 32 ->
  scan_available r lvs acc = Z.min (req_quantity r) (acc + crossing_levels r lvs).
Proof.
  intros HF. revert acc. induction HF as [|[p n] lvs Hn HF IH]; intros acc Ha Hq; simpl.
  - rewrite u32_small by (unfold in_u32; lia). lia.
  - assert (0 <= crossing_levels r lvs) as HN.
    { apply crossing_levels_nonneg. eapply Forall_mono; [|exact HF]. intros e _ He. simpl in *. lia. }
    simpl in Hn. destruct (crosses r p); simpl.
    + rewrite u64_small by (unfold in_u64; lia). case_if; breflect; [lia|].
      rewrite IH by lia. lia.
    + rewrite u32_small by (unfold in_u32; lia). lia.
Qed.

(** No level's total reaches 2{^32}. *)
Definition totals_fit (q : list Order) : Prop :=
  Forall (fun e : Price * list Order => total e.2 < 2 ^ 32) (by_level q).

Lemma by_level_orders q p os : (p, os) ∈ by_level q -> forall o, o ∈ os -> o ∈ q /\ o_price o = p.
Proof.
  revert p os. induction q as [|m q IH]; intros p os H o Ho; simpl in H.
  { by apply elem_of_nil in H. }
  destruct (by_level q) as [|[p' os'] g].
  - apply list_elem_of_singleton in H as [= -> ->]. apply list_elem_of_singleton in Ho as ->.
    split; [constructor|done].
  - destruct (Z.eqb_spec p' (o_price m)) as [E|E].
    + apply elem_of_cons in H as [[= -> ->]|H].
      * apply elem_of_cons in Ho as [->|Ho]; [split; [constructor|done]|].
        destruct (IH p' os') with (o := o) as [H1 H2]; [constructor|done|].
        split; [by constructor|done].
      * destruct (IH p os) with (o := o) as [H1 H2]; [by constructor|done|].
        split; [by constructor|done].
    + apply elem_of_cons in H as [[= -> ->]|H].
      * apply list_elem_of_singleton in Ho as ->. split; [constructor|done].
      * destruct (IH p os) with (o := o) as [H1 H2]; [done|done|]. split; [by constructor|done].
Qed.

Lemma total_nonneg q : Forall (fun m => 0 < o_qty m) q -> 0 <= total q.
Proof. induction 1; [done|]. rewrite total_cons. lia. Qed.

(** The availability test of a fill-or-kill order is exact when no level's
    total wraps around. *)
Lemma available_exact r q :
  Forall (fun m => 0 < o_qty m) q -> totals_fit q -> 0 < req_quantity r < 2 ^ 32 ->
  spec_available r q = Z.min (req_quantity r) (crossing r q).
Proof.
  intros HF HT Hq. unfold spec_available.
  assert ((fun e : Price * list Order => (e.1, level_total e.2)) <$> by_level q =
          (fun e : Price * list Order => (e.1, total e.2)) <$> by_level q /\
    Forall (fun e : Price * list Order => 0 <= total e.2 < 2 ^ 32) (by_level q)) as [-> HL].
  { assert (Forall (fun e : Price * list Order => 0 <= total e.2 < 2 ^ 32) (by_level q)) as HL.
    { eapply Forall_mono; [|exact HT]. intros [p os] Hin Hlt. simpl in *. split; [|done].
      apply total_nonneg, Forall_forall. intros o Ho. rewrite Forall_forall in HF.
      apply HF. by eapply by_level_orders. }
    split; [|done]. apply list_fmap_ext. intros k e He. f_equal.
    apply u32_small. rewrite Forall_forall in HL. apply HL. by eapply list_elem_of_lookup_2. }
  rewrite scan_crossing; [|by apply Forall_fmap|lia|lia].
  by rewrite crossing_by_level.
Qed.

(** A post-only order that would not trade meets no order it crosses. *)
Lemma post_only_front r a :
  req_type r = PostOnly -> spec_would_trade r a = false ->
  match sb_side a (opposite (req_side r)) with
  | [] => True | m :: _ => crosses r (o_price m) = false end.
Proof.
  unfold spec_would_trade, crosses. intros ->. by destruct (sb_side a _), (req_side r).
Qed.

Lemma filter_price_total p q :
  Forall (fun m => 0 < o_qty m) q -> 0 <= total (filter (fun m => o_price m = p) q).
Proof.
  intros H. apply total_nonneg, Forall_forall. intros m Hm.
  apply list_elem_of_filter in Hm as [_ Hm]. rewrite Forall_forall in H. auto.
Qed.

(** A block of a queue has at most the quantity the queue has at its price. *)
Lemma block_total q p os :
  Forall (fun m => 0 < o_qty m) q -> (p, os) ∈ by_level q ->
  total os <= total (filter (fun m => o_price m = p) q).
Proof.
  revert p os. induction q as [|m q IH]; intros p os HF H; simpl in H; [by apply elem_of_nil in H|].
  apply Forall_cons in HF as [Hm HF]. pose proof (filter_price_total p q HF) as HN.
  assert (forall os', (p, os') ∈ by_level q ->
    total os' <= total (filter (fun x => o_price x = p) (m :: q))) as Hold.
  { intros os' Ho. specialize (IH p os' HF Ho). rewrite filter_cons.
    case_decide; rewrite ?total_cons; lia. }
  assert (p = o_price m -> os = [m] -> total os <= total (filter (fun x => o_price x = p) (m :: q))) as Hone.
  { intros -> ->. rewrite filter_cons_True, total_one, total_cons by done. lia. }
  destruct (by_level q) as [|[p' os'] g].
  - apply list_elem_of_singleton in H as [= -> ->]. by apply Hone.
  - destruct (Z.eqb_spec p' (o_price m)) as [E|E].
    + apply elem_of_cons in H as [[= -> ->]|H]; [|apply Hold; by constructor].
      rewrite filter_cons_True, !total_cons by done. specialize (IH p' os' HF). simpl in IH.
      enough (total os' <= total (filter (fun x => o_price x = p') q)) by lia.
      apply IH. constructor.
    + apply elem_of_cons in H as [[= -> ->]|H]; [by apply Hone|by apply Hold].
Qed.

(** Where a new order enters a queue: behind everything at least as good, and
    before everything worse. *)
Lemma enqueue_split s o q :
  prices_sorted s (o_price <$> q) ->
  exists q1 q2, q = q1 ++ q2 /\ enqueue s o q = q1 ++ o :: q2 /\
    Forall (fun x => before s (o_price o) (o_price x) = false) q1 /\
    Forall (fun x => before s (o_price o) (o_price x) = true) q2.
Proof.
  induction q as [|x q IH]; intros HS; [exists [], []; by repeat constructor|].
  inversion HS as [|? ? HS' HF]; subst. simpl. destruct (before s (o_price o) (o_price x)) eqn:E.
  - exists [], (x :: q). split_and!; [done|done|constructor|]. constructor; [done|].
    apply Forall_forall. intros y Hy. rewrite Forall_forall in HF.
    specialize (HF (o_price y) (list_elem_of_fmap_2 o_price q y Hy)).
    rewrite before_spec in E |- *. rewrite not_before_spec in HF. destruct s; lia.
  - destruct (IH HS') as (q1 & q2 & -> & -> & F1 & F2). exists (x :: q1), q2.
    split_and!; [done|done|by constructor|done].
Qed.
