(* ===== verification/BookEvents.v ===== *)
(** * What the commands of the price-time book emit

    Each command appends handler calls to the outbox, numbered consecutively;
    the quantities that its calls trade and withdraw account for the change of
    the queues. *)

From S2P Require Import Prelude.
From S2P Require Import Types.
From S2P Require Import SortedMap.
From S2P Require Import OrderBook.
From S2P Require Import BookSpec.
From S2P Require Import BookFacts.

(** ** Numbering *)

Definition event_sequence (e : Event) : Sequence :=
  match e with ETrade t => tr_sequence t | EReport r => er_sequence r end.

(** The calls [evs] were made after the outbox [o], with the next numbers. *)
Definition extends (o : Outbox) (evs : list Event) (o' : Outbox) : Prop :=
  emitted_ o' = emitted_ o ++ evs /\
  (forall i e, evs !! i = Some e -> event_sequence e = u64 (sequence_ o + Z.of_nat i + 1)) /\
  (evs <> [] -> sequence_ o' = u64 (sequence_ o + Z.of_nat (length evs))) /\
  (evs = [] -> sequence_ o' = sequence_ o).

Lemma extends_nil o : extends o [] o.
Proof. split_and!; [by rewrite app_nil_r|done|done|done]. Qed.

Lemma extends_one o o' e :
  emitted_ o' = emitted_ o ++ [e] -> event_sequence e = u64 (sequence_ o + 1) ->
  sequence_ o' = u64 (sequence_ o + 1) -> extends o [e] o'.
Proof.
  intros H1 H2 H3. split_and!; [done| |done|done].
  intros [|i] e' H; [|done]. injection H as <-. rewrite H2. f_equal. lia.
Qed.

Lemma extends_trans o e1 o1 e2 o2 :
  extends o e1 o1 -> extends o1 e2 o2 -> extends o (e1 ++ e2) o2.
Proof.
  intros (A1 & A2 & A3 & A4) (B1 & B2 & B3 & B4). split_and!.
  - by rewrite B1, A1, <- app_assoc.
  - intros i e He. apply lookup_app_Some in He as [He|[Hi He]]; [by apply A2|].
    rewrite (B2 _ _ He). destruct e1 as [|x e1].
    + rewrite A4 by done. f_equal. simpl. lia.
    + rewrite A3 by done. rewrite <- Z.add_assoc, u64_add_l. f_equal. lia.
  - intros Hne. rewrite length_app. destruct e2 as [|y e2].
    + rewrite B4, A3 by (done || by rewrite app_nil_r in Hne). f_equal. simpl. lia.
    + rewrite B3 by done. destruct e1 as [|x e1].
      * rewrite A4 by done. done.
      * rewrite A3, u64_add_l by done. f_equal. lia.
  - intros E. apply app_nil in E as [-> ->]. by rewrite B4, A4.
Qed.

Definition report_event (sym : SymbolId) (o : Outbox) id st rem reason : Event :=
  EReport {| er_sequence := u64 (sequence_ o + 1); er_order_id := id; er_status := st;
             er_remaining := rem; er_reject_reason := reason; er_symbol := sym |}.

Lemma extends_report sym id st rem reason o :
  extends o [report_event sym o id st rem reason] (push_report sym id st rem reason o).
Proof. by apply extends_one. Qed.

Lemma extends_fill sym taker m fill left o :
  exists evs, extends o evs (fill_events sym taker m fill left o).
Proof.
  eexists. eapply extends_trans; [|apply extends_report]. by apply extends_one.
Qed.

Lemma run_extends sym policy taker rem q o out rem' q' o' :
  match_run sym policy taker rem q o out rem' q' o' -> exists evs, extends o evs o'.
Proof.
  induction 1; try (eexists; apply extends_nil); try (eexists; apply extends_report).
  - eexists. eapply extends_trans; apply extends_report.
  - destruct IHmatch_run as [evs IH]. eexists. eapply extends_trans; [apply extends_report|exact IH].
  - destruct IHmatch_run as [evs IH]. destruct (extends_fill sym taker m (o_qty m) 0 o) as [e1 H4].
    eexists. by eapply extends_trans.
  - apply extends_fill.
Qed.

(** ** The account of a command *)

Lemma traded_nil : traded [] = 0.
Proof. reflexivity. Qed.

Lemma withdrawn_nil : withdrawn [] = 0.
Proof. reflexivity. Qed.

Lemma orders_report id st rem reason a : sb_orders (sb_report id st rem reason a) = sb_orders a.
Proof. reflexivity. Qed.

Lemma orders_outbox a o : sb_orders (sb_set_outbox a o) = sb_orders a.
Proof. reflexivity. Qed.

(** [evs] takes the book from [a] to [a'] when [incoming] quantity came in. *)
Definition accounts (a : SBook) (incoming : Z) (evs : list Event) (a' : SBook) : Prop :=
  extends (sb_outbox a) evs (sb_outbox a') /\
  total (sb_orders a) + incoming = total (sb_orders a') + 2 * traded evs + withdrawn evs.

Lemma accounts_trans a n e1 a1 e2 a2 :
  accounts a n e1 a1 -> accounts a1 0 e2 a2 -> accounts a n (e1 ++ e2) a2.
Proof.
  intros [X1 H1] [X2 H2]. split; [by eapply extends_trans|].
  rewrite traded_app, withdrawn_app. lia.
Qed.

Lemma accounts_report a id st rem reason :
  st <> Cancelled -> st <> Expired ->
  accounts a 0 [report_event (sb_symbol a) (sb_outbox a) id st rem reason]
    (sb_report id st rem reason a).
Proof.
  intros H1 H2. split; [apply extends_report|].
  rewrite traded_cons, withdrawn_cons, traded_nil, withdrawn_nil, orders_report.
  destruct st; try done; simpl; lia.
Qed.

Lemma total_set_side a s q o :
  total (sb_orders (sb_set_outbox (sb_set_side a s q) o)) + total (sb_side a s) =
  total (sb_orders a) + total q.
Proof. unfold sb_orders. destruct s; simpl; rewrite !total_app; lia. Qed.

(** The orders that entered are accounted for by what rests, what traded and
    what was withdrawn, on the two sides of every trade. *)
Lemma finish_accounts r rem a : 0 <= rem ->
  exists evs, trades_of evs = [] /\ accounts a rem evs (spec_finish r rem a).
Proof.
  intros Hr. unfold spec_finish. set (a1 := if rem =? 0 then _ else _).
  assert (exists e1, trades_of e1 = [] /\ accounts a 0 e1 a1) as (e1 & T1 & X1 & A1).
  { unfold a1. case_if; [|case_if];
      [eexists; split; [|apply accounts_report]; done..|].
    exists []. split; [done|]. split; [apply extends_nil|]. rewrite traded_nil, withdrawn_nil. lia. }
  destruct (0 <? rem) eqn:Hr'; breflect; cycle 1.
  { exists e1. split; [done|]. split; [done|]. lia. }
  destruct (rests (req_type r)).
  - exists e1. split; [done|]. split; [by destruct (req_side r)|].
    pose proof (total_set_side a1 (req_side r)
      (enqueue (req_side r) (order_of_request r rem) (sb_side a1 (req_side r))) (sb_outbox a1)) as HT.
    rewrite total_enqueue, orders_outbox in HT. cbn [order_of_request o_qty] in HT. lia.
  - exists (e1 ++ [report_event (sb_symbol a1) (sb_outbox a1) (req_order_id r) Expired rem RejectNone]).
    split; [by rewrite trades_of_app, T1|].
    split; [eapply extends_trans; [exact X1|apply extends_report]|].
    rewrite traded_app, withdrawn_app, traded_cons, withdrawn_cons, traded_nil, withdrawn_nil,
      orders_report. simpl. lia.
Qed.

Lemma execute_accounts r a :
  Forall (fun m => 0 < o_qty m) (sb_side a (opposite (req_side r))) -> 0 <= req_quantity r ->
  exists evs, accounts a (req_quantity r) evs (spec_execute r a) /\
    Forall (fair_trade r (sb_side a (opposite (req_side r)))) (trades_of evs).
Proof.
  intros HF Hq. unfold spec_execute. set (s := opposite (req_side r)) in *.
  destruct (spec_match _ _ _ _ _ _) as [[[out rem'] q'] o'] eqn:ES.
  apply spec_match_run in ES; [|done].
  destruct (run_extends _ _ _ _ _ _ _ _ _ _ ES) as [e1 X1].
  destruct (run_account _ _ _ _ _ _ _ _ _ _ ES) as (e1' & E1 & A1).
  assert (e1' = e1) as -> by (destruct X1 as [X1 _]; rewrite X1 in E1; by apply app_inv_head in E1).
  pose proof (run_fair _ _ _ _ _ _ _ _ _ _ _ HF (Z.le_refl _) ES E1) as HT.
  destruct (run_bounds _ _ _ _ _ _ _ _ _ _ HF Hq ES) as [Hr _].
  pose proof (total_set_side a s q' o') as HS.
  destruct out; cbv iota in A1.
  - destruct (finish_accounts r rem' (sb_set_outbox (sb_set_side a s q') o')) as (e2 & T2 & X2 & A2); [lia|].
    exists (e1 ++ e2). split; [|by rewrite trades_of_app, T2, app_nil_r].
    split; [by eapply extends_trans|]. rewrite traded_app, withdrawn_app. lia.
  - exists e1. split; [|done]. split; [done|]. lia.
Qed.

(** Trades of [submit]: with the resting orders of the other side. *)
Lemma submit_accounts r a :
  Forall (fun m => 0 < o_qty m) (sb_orders a) -> 0 <= req_quantity r ->
  exists evs,
    accounts a (if (spec_submit r a).1 then req_quantity r else 0) evs (spec_submit r a).2 /\
    Forall (fair_trade r (sb_side a (opposite (req_side r)))) (trades_of evs).
Proof.
  intros HF Hq. unfold spec_submit.
  destruct (bool_decide _); [eexists; split; [apply accounts_report; done|constructor]|].
  destruct (_ && _); [eexists; split; [apply accounts_report; done|constructor]|].
  destruct (_ && _); [eexists; split; [apply accounts_report; done|constructor]|].
  cbn [fst snd].
  set (a1 := sb_report _ _ _ _ a).
  destruct (execute_accounts r a1) as (evs & [X A] & T); [|done|].
  { unfold sb_orders in HF. apply Forall_app in HF as [H1 H2]. by destruct (req_side r). }
  eexists. split; [split; [eapply extends_trans; [apply extends_report|exact X]|]|exact T].
  rewrite traded_app, withdrawn_app. exact A.
Qed.

(** ** Order types *)

(** Without self-trade prevention nothing is withdrawn while matching. *)
Lemma run_none_traded sym taker rem q o out rem' q' o' evs :
  match_run sym StpNone taker rem q o out rem' q' o' -> emitted_ o' = emitted_ o ++ evs ->
  traded evs = rem - rem' /\ withdrawn evs = 0.
Proof.
  intros H. revert evs.
  induction H as [q o|rem o Hr|rem m q o Hr Hx|rem m q o Hr Hx Hs HP|rem m q o Hr Hx Hs HP
    |rem m q o out rem' q' o' Hr Hx Hs HP H IH|rem m q o out rem' q' o' Hr Hx Hs HP H IH
    |rem m q o Hr Hx Hs HP]; intros evs E; try (by destruct Hs).
  1-3: (rewrite <- (app_nil_r (emitted_ o)) in E at 1; apply app_inv_head in E as <-;
    rewrite traded_nil, withdrawn_nil; lia).
  - destruct (run_account _ _ _ _ _ _ _ _ _ _ H) as (evs' & E' & _).
    specialize (IH evs' E') as [I1 I2].
    rewrite E' in E. simpl in E. rewrite <- !app_assoc in E. apply app_inv_head in E as <-.
    simpl. rewrite !traded_cons, !withdrawn_cons. simpl. lia.
  - simpl in E. rewrite <- app_assoc in E. apply app_inv_head in E as <-. simpl.
    rewrite !traded_cons, !withdrawn_cons, traded_nil, withdrawn_nil. simpl.
    destruct (o_qty m - rem =? 0); simpl; lia.
Qed.

(** A fill-or-kill order that the availability test lets through is filled. *)
Lemma execute_fills r a :
  let q := sb_side a (opposite (req_side r)) in
  Forall (fun m => 0 < o_qty m) q -> sb_policy a = StpNone -> 0 < req_quantity r <= crossing r q ->
  exists evs, extends (sb_outbox a) evs (sb_outbox (spec_execute r a)) /\
    traded evs = req_quantity r /\ withdrawn evs = 0.
Proof.
  intros q HF HP Hq. assert (0 <= req_quantity r) as Hq0 by lia. unfold spec_execute. fold q. rewrite HP.
  destruct (spec_match _ _ _ _ _ _) as [[[out rem'] q'] o'] eqn:ES.
  apply spec_match_run in ES; [|lia].
  destruct (run_none_fills _ _ _ _ _ _ _ _ _ HF Hq0 ES) as [-> Hr].
  assert (rem' = 0) as -> by lia.
  destruct (run_extends _ _ _ _ _ _ _ _ _ _ ES) as [e1 X1].
  destruct (run_none_traded _ _ _ _ _ _ _ _ _ e1 ES (proj1 X1)) as [T W].
  unfold spec_finish. simpl. eexists. split; [eapply extends_trans; [exact X1|apply extends_report]|].
  rewrite traded_app, withdrawn_app, traded_cons, withdrawn_cons, traded_nil, withdrawn_nil.
  simpl. lia.
Qed.

Lemma extends_inj o e1 e2 o' : extends o e1 o' -> extends o e2 o' -> e1 = e2.
Proof. intros (H1 & _) (H2 & _). rewrite H1 in H2. by apply app_inv_head in H2. Qed.

(** The ways [submit] ends. *)
Lemma submit_cases r a :
  (exists reason, spec_submit r a = (false, sb_report (req_order_id r) Rejected (req_quantity r) reason a)) \/
  (spec_reason r a = RejectNone /\
   (req_type r = PostOnly -> spec_would_trade r a = false) /\
   (req_type r = FOK -> req_quantity r <= spec_available r (sb_side a (opposite (req_side r)))) /\
   spec_submit r a =
     (true, spec_execute r (sb_report (req_order_id r) Accepted (req_quantity r) RejectNone a))).
Proof.
  unfold spec_submit. destruct (bool_decide (spec_reason r a ≠ RejectNone)) eqn:E1; [by left; eexists|].
  destruct (bool_decide (req_type r = PostOnly) && _) eqn:E2; [by left; eexists|].
  destruct (bool_decide (req_type r = FOK) && _) eqn:E3; [by left; eexists|]. right.
  apply bool_decide_eq_false_1 in E1. split_and!; [by destruct (spec_reason r a); try (by exfalso; apply E1)| | |done].
  - intros H. rewrite bool_decide_eq_true_2 in E2 by done. by destruct (spec_would_trade r a).
  - intros H. rewrite bool_decide_eq_true_2 in E3 by done. simpl in E3. breflect. lia.
Qed.

(** A fill-or-kill order without self-trade prevention: all or nothing. *)
Lemma fok_spec r a :
  let q := sb_side a (opposite (req_side r)) in
  req_type r = FOK -> sb_policy a = StpNone -> in_u32 (req_quantity r) -> totals_fit q ->
  Forall (fun m => 0 < o_qty m) (sb_orders a) ->
  (exists reason, spec_submit r a = (false, sb_report (req_order_id r) Rejected (req_quantity r) reason a)) \/
  (exists evs a', spec_submit r a = (true, a') /\ extends (sb_outbox a) evs (sb_outbox a') /\
     traded evs = req_quantity r /\ total (sb_orders a') = total (sb_orders a) - req_quantity r).
Proof.
  intros q HT HP Hq HL HF.
  destruct (submit_cases r a) as [H|(HV & _ & HA & ES)]; [by left|right].
  assert (Forall (fun m => 0 < o_qty m) q) as HFq.
  { unfold sb_orders in HF. apply Forall_app in HF as [H1 H2]. unfold q. by destruct (req_side r). }
  apply spec_reason_none in HV as (_ & Hz & _). destruct Hq as [Hq0 Hq].
  specialize (HA HT). fold q in HA. rewrite (available_exact r _ HFq HL) in HA by lia.
  set (a1 := sb_report _ _ _ _ a) in *.
  destruct (execute_fills r a1) as (evs & X & T & W); [done|done|split; [lia|]|].
  { change (sb_side a1 (opposite (req_side r))) with q. lia. }
  destruct (execute_accounts r a1) as (evs' & [X' A] & _); [done|done|].
  rewrite (extends_inj _ _ _ _ X' X) in A.
  eexists _, _. split; [exact ES|].
  split; [eapply extends_trans; [apply extends_report|exact X]|].
  rewrite traded_app. change (sb_orders a1) with (sb_orders a) in A.
  split; [exact T|]. lia.
Qed.

(** A post-only order never trades: it is refused or it rests whole. *)
Lemma post_only_spec r a :
  req_type r = PostOnly -> 0 <= req_quantity r ->
  (exists reason, spec_submit r a = (false, sb_report (req_order_id r) Rejected (req_quantity r) reason a)) \/
  spec_submit r a =
    (true, sb_set_side (sb_report (req_order_id r) Accepted (req_quantity r) RejectNone a) (req_side r)
       (enqueue (req_side r) (order_of_request r (req_quantity r)) (sb_side a (req_side r)))).
Proof.
  intros HT Hq. destruct (submit_cases r a) as [H|(HV & HW & _ & ->)]; [by left|right].
  apply spec_reason_none in HV as (_ & Hz & _). f_equal.
  set (a1 := sb_report _ _ _ _ a). unfold spec_execute.
  pose proof (post_only_front r a HT (HW HT)) as HX.
  assert (spec_match (sb_symbol a1) (sb_policy a1) r (req_quantity r) (sb_side a1 (opposite (req_side r)))
    (sb_outbox a1) = (Completed, req_quantity r, sb_side a1 (opposite (req_side r)), sb_outbox a1)) as ->.
  { change (sb_side a1 (opposite (req_side r))) with (sb_side a (opposite (req_side r))).
    destruct (sb_side a (opposite (req_side r))) as [|m q]; [done|]. simpl.
    by rewrite HX, orb_true_r. }
  unfold spec_finish. rewrite HT, Z.ltb_irrefl, (proj2 (Z.eqb_neq _ _) Hz).
  rewrite (proj2 (Z.ltb_lt 0 _)) by lia. simpl. by destruct (req_side r).
Qed.

(** Orders that may not rest leave at most what rested before. *)
Lemma immediate_spec r a s :
  rests (req_type r) = false -> 0 <= req_quantity r ->
  okey <$> sb_side (spec_submit r a).2 s `sublist_of` okey <$> sb_side a s.
Proof.
  intros HT Hq. destruct (submit_cases r a) as [[? ->]|(_ & _ & _ & ->)]; [done|]. simpl.
  set (a1 := sb_report _ _ _ _ a). unfold spec_execute.
  destruct (spec_match _ _ _ _ _ _) as [[[out rem'] q'] o'] eqn:ES.
  apply spec_match_run in ES; [|done]. apply run_suffix in ES as [k Hk].
  assert (okey <$> sb_side (sb_set_outbox (sb_set_side a1 (opposite (req_side r)) q') o') s
    `sublist_of` okey <$> sb_side a s) as HS.
  { destruct (req_side r), s; simpl in *; try done; rewrite Hk; apply sublist_suffix. }
  destruct out; [|done]. unfold spec_finish. rewrite HT. repeat case_if; done.
Qed.

(** ** Cancel and replace *)

Lemma remove_absent id q : id ∉ o_id <$> q -> remove_order id q = q.
Proof.
  unfold remove_order. induction q as [|o q IH]; [done|]. rewrite fmap_cons, not_elem_of_cons.
  intros [H1 H2]. rewrite filter_cons_True by congruence. by rewrite IH.
Qed.

Lemma remove_present id q : NoDup (o_id <$> q) -> id ∈ o_id <$> q ->
  length q = S (length (remove_order id q)).
Proof.
  unfold remove_order. induction q as [|o q IH]; [by intros _ H; apply elem_of_nil in H|].
  rewrite fmap_cons, NoDup_cons, elem_of_cons. intros [H1 H2] H3. rewrite filter_cons.
  destruct (decide (o_id o ≠ id)) as [Hne|He].
  - simpl. rewrite IH; [done|done|]. destruct H3; [congruence|done].
  - apply dec_stable in He. subst id. by rewrite <- (remove_absent (o_id o) q) at 1.
Qed.

Lemma removed_id_absent id q : id ∉ o_id <$> remove_order id q.
Proof.
  intros (o & -> & Ho)%list_elem_of_fmap. by apply list_elem_of_filter in Ho as [Ho _].
Qed.

(** Removing the order an identifier names, from both queues at once. *)
Lemma spec_remove_both s id o a :
  NoDup (o_id <$> sb_orders a) -> spec_find id a = Some (s, o) ->
  (forall s', sb_side (spec_remove s id a) s' = remove_order id (sb_side a s')) /\
  length (sb_orders a) = S (length (sb_orders (spec_remove s id a))) /\
  id ∉ o_id <$> sb_orders (spec_remove s id a).
Proof.
  intros ND HF. apply spec_find_some in HF as [Ho Hid].
  unfold sb_orders in ND. rewrite fmap_app in ND. apply NoDup_app in ND as (N1 & N2 & N3).
  assert (forall s', s' <> s -> id ∉ o_id <$> sb_side a s') as HN.
  { intros s' Hs' Hin. assert (id ∈ o_id <$> sb_side a s) as Hin2.
    { rewrite <- Hid. by apply list_elem_of_fmap_2. }
    destruct s, s'; simpl in *; try done; by eapply N2. }
  assert (id ∈ o_id <$> sb_side a s) as Hs by (rewrite <- Hid; by apply list_elem_of_fmap_2).
  assert (forall s', sb_side (spec_remove s id a) s' = remove_order id (sb_side a s')) as HR.
  { intros s'. unfold spec_remove. destruct (decide (s' = s)) as [->|Hne]; [by destruct s|].
    rewrite (remove_absent id (sb_side a s')) by auto. by destruct s, s'. }
  split_and!; [done| |].
  - unfold sb_orders. rewrite !length_app. 
    pose proof (HR Buy : sb_bids _ = _) as HB. pose proof (HR Sell : sb_asks _ = _) as HS.
    rewrite HB, HS. specialize (HN (opposite s)).
    destruct s; simpl in *.
    + rewrite (remove_present id (sb_bids a)), (remove_absent id (sb_asks a)) by auto. lia.
    + rewrite (remove_present id (sb_asks a)), (remove_absent id (sb_bids a)) by auto. lia.
  - unfold sb_orders. pose proof (HR Buy : sb_bids _ = _) as HB.
    pose proof (HR Sell : sb_asks _ = _) as HS. rewrite HB, HS, fmap_app, elem_of_app. intros [H|H]; by apply removed_id_absent in H.
Qed.

(** A replacement that is checked is entered. *)
Lemma spec_replace_enters r s o a :
  NoDup (o_id <$> sb_orders a) -> (length (sb_orders a) <= sb_capacity a)%nat ->
  spec_find (rep_order_id r) a = Some (s, o) -> o_client o = rep_client_id r ->
  0 < rep_new_price r -> rep_new_quantity r <> 0 ->
  (spec_replace r a).1 = true.
Proof.
  intros ND HL HF Hc Hp Hq. unfold spec_replace. rewrite HF, (proj2 (Z.eqb_eq _ _) Hc).
  rewrite (proj2 (Z.leb_gt _ _) Hp), (proj2 (Z.eqb_neq _ _) Hq). simpl. case_if; [done|].
  destruct (spec_remove_both s (rep_order_id r) o a ND HF) as (_ & HN & Hid).
  set (a1 := sb_report _ _ _ _ _).
  destruct (submit_cases (replacement r s (sb_symbol a)) a1) as [[reason ES]|(_ & _ & _ & ->)]; [|done].
  exfalso. assert (spec_reason (replacement r s (sb_symbol a)) a1 = RejectNone) as HV.
  { unfold spec_reason. simpl.
    rewrite Z.eqb_refl, (proj2 (Z.leb_gt _ _) Hp), (proj2 (Z.eqb_neq _ _) Hq). simpl.
    rewrite bool_decide_eq_false_2 by done.
    rewrite bool_decide_eq_false_2; [done|]. unfold a1. rewrite orders_report.
    intros E'. simpl in E'. change (sb_capacity (spec_remove s (rep_order_id r) a)) with (sb_capacity a) in E'.
    lia. }
  unfold spec_submit in ES. rewrite HV in ES. by rewrite bool_decide_eq_false_2 in ES by auto.
Qed.

Lemma spec_finish_extends r rem a : exists evs, extends (sb_outbox a) evs (sb_outbox (spec_finish r rem a)).
Proof.
  unfold spec_finish. set (a1 := if rem =? 0 then _ else _).
  assert (exists e1, extends (sb_outbox a) e1 (sb_outbox a1)) as [e1 X1].
  { unfold a1. repeat case_if; try (eexists; apply extends_report). eexists. apply extends_nil. }
  case_if; [|by exists e1]. case_if; [exists e1; exact X1|].
  eexists. eapply extends_trans; [exact X1|apply extends_report].
Qed.

Lemma spec_submit_extends r a : 0 <= req_quantity r ->
  exists evs, extends (sb_outbox a) evs (sb_outbox (spec_submit r a).2).
Proof.
  intros Hq. destruct (submit_cases r a) as [[reason ->]|(_ & _ & _ & ->)].
  { eexists. apply extends_report. }
  simpl. set (a1 := sb_report _ _ _ _ a). unfold spec_execute.
  destruct (spec_match _ _ _ _ _ _) as [[[out rem'] q'] o'] eqn:ES.
  apply spec_match_run in ES; [|done]. apply run_extends in ES as [e1 X1].
  destruct out; [|eexists; eapply extends_trans; [apply extends_report|exact X1]].
  destruct (spec_finish_extends r rem' (sb_set_outbox (sb_set_side a1 (opposite (req_side r)) q') o'))
    as [e2 X2].
  eexists. eapply extends_trans; [apply extends_report|]. eapply extends_trans; [exact X1|exact X2].
Qed.

Lemma spec_replace_extends r a : 0 <= rep_new_quantity r ->
  exists evs, extends (sb_outbox a) evs (sb_outbox (spec_replace r a).2).
Proof.
  intros Hq. unfold spec_replace.
  destruct (spec_find (rep_order_id r) a) as [[s o]|]; [|eexists; apply extends_report].
  repeat (case_if; [eexists; apply extends_report|]).
  destruct (spec_submit_extends (replacement r s (sb_symbol a))
    (sb_report (rep_order_id r) Replaced (rep_new_quantity r) RejectNone
       (spec_remove s (rep_order_id r) a)) Hq) as [e2 X2].
  eexists. eapply extends_trans; [|exact X2]. apply extends_report.
Qed.

Lemma spec_cancel_extends r a : exists evs, extends (sb_outbox a) evs (sb_outbox (spec_cancel r a).2).
Proof.
  unfold spec_cancel. destruct (spec_find (can_order_id r) a) as [[s o]|];
    [case_if|]; eexists; apply extends_report.
Qed.

(** ** Restoring the queues one by one *)

Lemma enqueue_last s o q :
  Forall (fun x => before s (o_price o) (o_price x) = false) q -> enqueue s o q = q ++ [o].
Proof. induction 1 as [|x q H _ IH]; [done|]. simpl. by rewrite H, IH. Qed.

Lemma sorted_last s o q1 q2 :
  prices_sorted s (o_price <$> q1 ++ o :: q2) ->
  Forall (fun x => before s (o_price o) (o_price x) = false) q1.
Proof.
  induction q1 as [|x q1 IH]; intros H; [constructor|]. inversion H as [|? ? H1 H2]; subst.
  constructor; [|by apply IH]. rewrite fmap_app, Forall_app in H2.
  destruct H2 as [_ H2]. by apply Forall_cons in H2 as [H2 _].
Qed.

Lemma spec_restore_side s q : forall a rest,
  prices_sorted s (o_price <$> sb_side a s ++ q) -> NoDup (o_id <$> q ++ sb_orders a) ->
  (length q + length (sb_orders a) <= sb_capacity a)%nat ->
  Forall (fun o => 0 < o_qty o /\ 0 < o_price o) q ->
  spec_restore_loop ((request_of (sb_symbol a) s <$> q) ++ rest) a =
  spec_restore_loop rest (sb_set_side a s (sb_side a s ++ q)).
Proof.
  induction q as [|o q IH]; intros a rest HS ND HL HF.
  { rewrite app_nil_r. simpl. f_equal. by destruct a, s. }
  apply Forall_cons in HF as [[Hq Hp] HF]. rewrite fmap_cons, <- app_comm_cons.
  cbn [spec_restore_loop request_of req_symbol req_quantity req_price req_order_id].
  rewrite Z.eqb_refl, (proj2 (Z.eqb_neq (o_qty o) 0)), (proj2 (Z.leb_gt (o_price o) 0)) by lia. cbn [negb orb].
  rewrite fmap_app, fmap_cons, <- app_comm_cons, <- fmap_app in ND. apply NoDup_cons in ND as [Hid ND].
  rewrite bool_decide_eq_false_2 by (intros H; apply Hid; rewrite fmap_app, elem_of_app; by right).
  simpl in HL. rewrite bool_decide_eq_false_2 by lia.
  set (a1 := spec_restore_order a _).
  assert (a1 = sb_set_side a s (sb_side a s ++ [o])) as E1.
  { unfold a1, spec_restore_order. simpl. f_equal.
    assert (order_of_request (request_of (sb_symbol a) s o) (o_qty o) = o) as -> by (by destruct o).
    apply enqueue_last. by eapply sorted_last. }
  assert (sb_side a1 s = sb_side a s ++ [o]) as ES by (rewrite E1; by destruct s).
  assert (sb_orders a1 ≡ₚ o :: sb_orders a) as EP.
  { rewrite E1. unfold sb_orders. destruct s; simpl; solve_Permutation. }
  assert (sb_symbol a = sb_symbol a1) as -> by (by rewrite E1).
  rewrite (IH a1 rest).
  - f_equal. rewrite ES, E1. destruct s; simpl; by rewrite <- app_assoc.
  - by rewrite ES, <- app_assoc.
  - rewrite EP. rewrite fmap_app, fmap_cons.
    rewrite <- Permutation_middle. apply NoDup_cons. by rewrite <- fmap_app.
  - rewrite EP, E1. simpl. lia.
  - done.
Qed.

(** The loop restores the queues that a snapshot was taken from. *)
Lemma spec_restore_resting a a0 :
  sb_ok a -> NoDup (o_id <$> sb_orders a) -> Forall (fun o => 0 < o_qty o) (sb_orders a) ->
  (length (sb_orders a) <= sb_capacity a0)%nat -> sb_symbol a0 = sb_symbol a ->
  spec_restore_loop (spec_resting a) (spec_clear a0) =
  (Ok tt, sb_set_side (sb_set_side (spec_clear a0) Buy (sb_bids a)) Sell (sb_asks a)).
Proof.
  intros HO ND HF HL HS.
  assert (forall s, Forall (fun o => 0 < o_qty o /\ 0 < o_price o) (sb_side a s)) as HQ.
  { intros s. apply Forall_forall. intros o Ho. split.
    - rewrite Forall_forall in HF. apply HF. unfold sb_orders. rewrite elem_of_app. destruct s; auto.
    - apply (ok_side_prices a s HO). by apply (list_elem_of_fmap_2 o_price). }
  unfold sb_orders in *. rewrite length_app in HL. unfold spec_resting.
  change (sb_symbol a) with (sb_symbol a) in HS. rewrite <- HS.
  change (sb_symbol a0) with (sb_symbol (spec_clear a0)) at 1.
  rewrite (spec_restore_side Buy (sb_bids a)); simpl.
  - rewrite <- (app_nil_r (request_of (sb_symbol a0) Sell <$> sb_asks a)).
    set (a1 := sb_set_side (spec_clear a0) Buy (sb_bids a)).
    change (sb_symbol a0) with (sb_symbol a1).
    rewrite (spec_restore_side Sell (sb_asks a)); [done|..].
    + apply (ok_sorted a HO Sell).
    + unfold sb_orders, a1. simpl. rewrite app_nil_r.
      by rewrite fmap_app, (comm (++)), <- fmap_app.
    + unfold sb_orders, a1. simpl. rewrite app_nil_r. lia.
    + apply (HQ Sell).
  - apply (ok_sorted a HO Buy).
  - rewrite app_nil_r. rewrite fmap_app in ND. by apply NoDup_app in ND as (ND & _).
  - lia.
  - apply (HQ Buy).
Qed.

(** ** Priority of the trades *)

Lemma run_none_priority sym taker rem q o out rem' q' o' evs :
  match_run sym StpNone taker rem q o out rem' q' o' -> emitted_ o' = emitted_ o ++ evs ->
  forall i t, trades_of evs !! i = Some t -> exists m, q !! i = Some m /\
    tr_maker_order_id t = o_id m /\ tr_price t = o_price m /\
    (tr_quantity t = o_qty m \/ S i = length (trades_of evs)).
Proof.
  intros H. revert evs.
  induction H as [q o|rem o Hr|rem m q o Hr Hx|rem m q o Hr Hx Hs HP|rem m q o Hr Hx Hs HP
    |rem m q o out rem' q' o' Hr Hx Hs HP H IH|rem m q o out rem' q' o' Hr Hx Hs HP H IH
    |rem m q o Hr Hx Hs HP]; intros evs E i t Ht; try (by destruct Hs).
  1-3: (rewrite <- (app_nil_r (emitted_ o)) in E at 1; apply app_inv_head in E as <-; done).
  - destruct (run_account _ _ _ _ _ _ _ _ _ _ H) as (evs' & E' & _).
    rewrite E' in E. simpl in E. rewrite <- !app_assoc in E. apply app_inv_head in E as <-.
    simpl in *. destruct i as [|i]; simpl in Ht.
    + injection Ht as <-. exists m. by split_and!; [..|left].
    + destruct (IH evs' E' i t Ht) as (m' & H1 & H2 & H3 & H4). exists m'. split_and!; try done.
      destruct H4 as [H4|H4]; [by left|right; by rewrite H4].
  - simpl in E. rewrite <- app_assoc in E. apply app_inv_head in E as <-. simpl in *.
    destruct i as [|i]; simpl in Ht; [|done]. injection Ht as <-. exists m. by split_and!; [..|right].
Qed.

(** The trades of a [submit] without self-trade prevention follow the queue. *)
Lemma submit_priority r a evs :
  sb_policy a = StpNone -> 0 <= req_quantity r ->
  Forall (fun m => 0 < o_qty m) (sb_side a (opposite (req_side r))) ->
  extends (sb_outbox a) evs (sb_outbox (spec_submit r a).2) ->
  forall i t, trades_of evs !! i = Some t ->
  exists m, sb_side a (opposite (req_side r)) !! i = Some m /\
    tr_maker_order_id t = o_id m /\ tr_price t = o_price m /\
    (tr_quantity t = o_qty m \/ S i = length (trades_of evs)).
Proof.
  intros HP Hq HF X i t Ht. destruct (submit_cases r a) as [[reason E]|(_ & _ & _ & E)];
    rewrite E in X; cbn [snd] in X.
  { by rewrite (extends_inj _ _ _ _ X (extends_report _ _ _ _ _ _)) in Ht. }
  set (a1 := sb_report _ _ _ _ a) in *. unfold spec_execute in X.
  destruct (spec_match _ _ _ _ _ _) as [[[out rem'] q'] o'] eqn:ES.
  apply spec_match_run in ES; [|done]. change (sb_policy a1) with (sb_policy a) in ES. rewrite HP in ES.
  destruct (run_none_fills _ _ _ _ _ _ _ _ _ HF Hq ES) as [-> Hr].
  destruct (run_extends _ _ _ _ _ _ _ _ _ _ ES) as [e1 X1].
  destruct (finish_accounts r rem' (sb_set_outbox (sb_set_side a1 (opposite (req_side r)) q') o'))
    as (e2 & T2 & X2 & _); [lia|].
  pose proof (extends_trans _ _ _ _ _ (extends_report _ _ _ _ _ (sb_outbox a))
    (extends_trans _ _ _ _ _ X1 X2)) as X3.
  rewrite (extends_inj _ _ _ _ X X3) in Ht |- *.
  rewrite !trades_of_app, T2, app_nil_r in Ht |- *.
  exact (run_none_priority _ _ _ _ _ _ _ _ _ e1 ES (proj1 X1) i t Ht).
Qed.
