(* ===== verification/BookInv.v ===== *)
(** * The representation invariant of the order book

    [Rep b g]: the array, the free list, the id index, the two level maps and
    the counter of [b] represent the chains [g] of node indices, per side and
    price level.  The lemmas of this file say how the invariant and the queues
    of orders it stands for ([queue]) change when a node is detached from its
    level, resized in place or appended. *)

From S2P Require Import Prelude.
From S2P Require Import Types.
From S2P Require Import SortedMap.
From S2P Require Import OrderBook.
From S2P Require Import BookSpec.

(** ** Prices are a strict total order in both directions *)

#[export] Instance before_order s : StrictOrderOn (fun _ => True) (before s).
Proof.
  split; destruct s; simpl; intros; rewrite ?Z.ltb_lt, ?Z.ltb_ge in *; lia.
Qed.

Lemma before_total s p q : before s p q = false -> before s q p = false -> p = q.
Proof. by apply so_total. Qed.

(** ** Array accesses *)

Definition core (n : Node) :=
  (nd_id n, nd_client_id n, nd_price n, nd_remaining n, nd_side n, nd_active n).

Lemma node_at_set ns i n j :
  0 <= i < Z.of_nat (length ns) -> 0 <= j ->
  node_at (set_node ns i n) j = if decide (i = j) then n else node_at ns j.
Proof.
  intros Hi Hj. unfold node_at, set_node. case_decide as D.
  - subst j. rewrite list_lookup_insert_eq by lia. done.
  - rewrite list_lookup_insert_ne by lia. done.
Qed.

Lemma length_set_node ns i n : length (set_node ns i n) = length ns.
Proof. apply length_insert. Qed.

Lemma length_set_prev ns i p : length (set_prev ns i p) = length ns.
Proof. apply length_insert. Qed.

Lemma length_set_next ns i x : length (set_next ns i x) = length ns.
Proof. apply length_insert. Qed.

Lemma length_set_remaining ns i q : length (set_remaining ns i q) = length ns.
Proof. apply length_insert. Qed.

Create Rewrite HintDb nodes.
#[export] Hint Rewrite length_set_node length_set_prev length_set_next
  length_set_remaining : nodes.

(** What a write to one node leaves of the others. *)
Section Writes.
Context (ns : list Node) (i : Z) (Hi : 0 <= i < Z.of_nat (length ns)).

Lemma set_prev_at p j : 0 <= j ->
  core (node_at (set_prev ns i p) j) = core (node_at ns j) /\
  nd_next (node_at (set_prev ns i p) j) = nd_next (node_at ns j) /\
  nd_prev (node_at (set_prev ns i p) j) = if decide (i = j) then p else nd_prev (node_at ns j).
Proof. intros Hj. unfold set_prev. rewrite node_at_set by done. by case_decide; subst. Qed.

Lemma set_next_at x j : 0 <= j ->
  core (node_at (set_next ns i x) j) = core (node_at ns j) /\
  nd_prev (node_at (set_next ns i x) j) = nd_prev (node_at ns j) /\
  nd_next (node_at (set_next ns i x) j) = if decide (i = j) then x else nd_next (node_at ns j).
Proof. intros Hj. unfold set_next. rewrite node_at_set by done. by case_decide; subst. Qed.

Lemma set_remaining_at q j : 0 <= j ->
  nd_prev (node_at (set_remaining ns i q) j) = nd_prev (node_at ns j) /\
  nd_next (node_at (set_remaining ns i q) j) = nd_next (node_at ns j) /\
  (i <> j -> core (node_at (set_remaining ns i q) j) = core (node_at ns j)).
Proof. intros Hj. unfold set_remaining. rewrite node_at_set by done. by case_decide; subst. Qed.
End Writes.

(** ** Chains *)

(** The nodes [l] are linked in order; the first one's [prev] is [p] and the
    last one's [next] is [n]. *)
Fixpoint dseg (ns : list Node) (p : Z) (l : list Z) (n : Z) : Prop :=
  match l with
  | [] => True
  | i :: l' =>
      nd_prev (node_at ns i) = p /\ nd_next (node_at ns i) = default n (head l') /\
      dseg ns i l' n
  end.

Definition same_links (ns ns' : list Node) (i : Z) : Prop :=
  nd_prev (node_at ns' i) = nd_prev (node_at ns i) /\
  nd_next (node_at ns' i) = nd_next (node_at ns i).

Lemma dseg_frame ns ns' p l n :
  Forall (same_links ns ns') l -> dseg ns p l n -> dseg ns' p l n.
Proof.
  revert p; induction l as [|i l IH]; intros p HF H; [done|].
  apply Forall_cons in HF as [[Hp Hn] HF]. destruct H as (H1 & H2 & H3).
  simpl. rewrite Hp, Hn. auto.
Qed.

(** Taking one node out of a chain. *)
Lemma dseg_unlink ns ns' p l1 i l2 n :
  NoDup (l1 ++ i :: l2) -> dseg ns p (l1 ++ i :: l2) n ->
  (forall j, j ∈ l1 ++ l2 ->
     nd_next (node_at ns' j) =
       (if decide (last l1 = Some j) then default n (head l2) else nd_next (node_at ns j)) /\
     nd_prev (node_at ns' j) =
       (if decide (head l2 = Some j) then default p (last l1) else nd_prev (node_at ns j))) ->
  dseg ns' p (l1 ++ l2) n.
Proof.
  revert p; induction l1 as [|x l1 IH]; intros p ND H HL; simpl in *.
  - destruct H as (Hp & Hn & H). destruct l2 as [|k l2]; [done|]. simpl in *.
    apply NoDup_cons in ND as [_ ND]. apply NoDup_cons in ND as [Hk ND].
    destruct H as (H1 & H2 & H3).
    destruct (HL k) as [E1 E2]; [constructor|].
    rewrite decide_True in E2 by done. rewrite E1, E2. repeat split; [done|].
    eapply dseg_frame; [|done]. apply Forall_forall. intros j Hj.
    destruct (HL j) as [E3 E4]; [by constructor|].
    rewrite decide_False in E4 by (intros [= ->]; done). done.
  - destruct H as (Hp & Hn & H). apply NoDup_cons in ND as [Hx ND].
    destruct (HL x) as [E1 E2]; [constructor|]. split_and!.
    + rewrite E2, decide_False; [done|]. intros Hh. apply Hx.
      apply elem_of_app. right. apply list_elem_of_further. by apply head_Some_elem_of.
    + rewrite E1. destruct l1 as [|y l1]; simpl; [by rewrite decide_True|].
      rewrite decide_False; [done|]. intros Hl. apply Hx, elem_of_app. left.
      by apply last_Some_elem_of.
    + apply IH; [done|done|]. intros j Hj. destruct (HL j) as [E3 E4]; [by constructor|].
      rewrite E3, E4. split.
      * destruct l1 as [|y l1]; [|done]. destruct (decide (last [x] = Some j)) as [D|D];
          [|done]. injection D as <-. destruct Hx. by constructor.
      * rewrite last_cons. case_decide; [|done]. by destruct (last l1).
Qed.

(** Appending a node to a chain. *)
Lemma dseg_snoc ns ns' p l k n :
  NoDup (l ++ [k]) -> dseg ns p l n ->
  (forall j, j ∈ l ->
     nd_prev (node_at ns' j) = nd_prev (node_at ns j) /\
     nd_next (node_at ns' j) =
       if decide (last l = Some j) then k else nd_next (node_at ns j)) ->
  nd_prev (node_at ns' k) = default p (last l) ->
  nd_next (node_at ns' k) = n ->
  dseg ns' p (l ++ [k]) n.
Proof.
  revert p; induction l as [|x l IH]; intros p ND H HL Hp Hn; simpl in *; [done|].
  destruct H as (H1 & H2 & H3). apply NoDup_cons in ND as [Hx ND].
  destruct (HL x) as [E1 E2]; [constructor|]. split_and!.
  - by rewrite E1.
  - rewrite E2. destruct l as [|y l]; simpl; [by rewrite decide_True|].
    rewrite decide_False; [done|]. intros Hl. apply Hx, elem_of_app. left.
    by apply last_Some_elem_of.
  - apply IH; [done|done| |by rewrite last_cons in Hp; destruct (last l)|done].
    intros j Hj. destruct (HL j) as [E3 E4]; [by constructor|]. rewrite E3, E4.
    split; [done|]. destruct l as [|y l]; [by apply elem_of_nil in Hj|done].
Qed.

(** ** The invariant *)

Definition idxs (m : smap Price (list Z)) : list Z := concat m.*2.

Definition ghost := Side -> smap Price (list Z).

Definition all_idx (g : ghost) : list Z := idxs (g Buy) ++ idxs (g Sell).

(** The order a node holds, and the queue that a side's chains stand for. *)
Definition order_at (ns : list Node) (i : Z) : Order :=
  let n := node_at ns i in
  {| o_id := nd_id n; o_client := nd_client_id n; o_price := nd_price n;
     o_qty := nd_remaining n |}.

Definition queue (ns : list Node) (m : smap Price (list Z)) : list Order :=
  order_at ns <$> idxs m.

Definition level_ok (ns : list Node) (px : Price) (lv : Level) (l : list Z) : Prop :=
  dseg ns npos l npos /\
  lv_head lv = default npos (head l) /\ lv_tail lv = default npos (last l) /\
  lv_total lv = u32 (sumZ ((fun i => nd_remaining (node_at ns i)) <$> l)) /\
  lv_order_count lv = u32 (Z.of_nat (length l)).

(** A node that rests on a side at a price. *)
Definition resident (ns : list Node) (s : Side) (px : Price) (i : Z) : Prop :=
  let n := node_at ns i in
  nd_active n = true /\ nd_side n = s /\ nd_price n = px /\ 0 < nd_remaining n < 2 ^ 32.

Definition side_ok (ns : list Node) (s : Side) (lvs : smap Price Level)
    (m : smap Price (list Z)) : Prop :=
  sm_rel (level_ok ns) lvs m /\ sm_sorted (before s) m /\
  (forall px l i, (px, l) ∈ m -> i ∈ l -> resident ns s px i).

(** The chains and the free list partition the array. *)
Definition store_ok (ns : list Node) (used free : list Z) : Prop :=
  NoDup (used ++ free) /\
  (forall i, i ∈ used ++ free -> 0 <= i < Z.of_nat (length ns)) /\
  length (used ++ free) = length ns /\ Z.of_nat (length ns) <= npos.

Definition index_ok (ns : list Node) (ids : gmap Z Z) (used : list Z) : Prop :=
  forall id i, ids !! id = Some i <-> i ∈ used /\ nd_id (node_at ns i) = id.

Record Rep (b : Book) (g : ghost) : Prop := {
  rep_side : forall s, side_ok (nodes_ b) s (levels b s) (g s);
  rep_store : store_ok (nodes_ b) (all_idx g) (free_list_ b);
  rep_index : index_ok (nodes_ b) (by_id_ b) (all_idx g);
  rep_count : active_count_ b = Z.of_nat (length (all_idx g))
}.

(** Between two commands no level is empty. *)
Definition no_empty_level (g : ghost) : Prop := forall s px, (px, []) ∉ g s.

(** ** Lists of chains *)

Lemma idxs_app m1 m2 : idxs (m1 ++ m2) = idxs m1 ++ idxs m2.
Proof. unfold idxs. by rewrite fmap_app, concat_app. Qed.

Lemma idxs_cons px l m : idxs ((px, l) :: m) = l ++ idxs m.
Proof. reflexivity. Qed.

Lemma elem_of_idxs i m : i ∈ idxs m <-> exists px l, (px, l) ∈ m /\ i ∈ l.
Proof.
  unfold idxs. rewrite elem_of_concat. split.
  - intros (l & Hi & Hl). apply list_elem_of_fmap in Hl as ([px l'] & -> & Hl). eauto.
  - intros (px & l & Hl & Hi). exists l. split; [done|]. by apply (list_elem_of_fmap_2 snd _ (px, l)).
Qed.

Lemma queue_app ns m1 m2 : queue ns (m1 ++ m2) = queue ns m1 ++ queue ns m2.
Proof. unfold queue. by rewrite idxs_app, fmap_app. Qed.

Lemma queue_cons ns px l m : queue ns ((px, l) :: m) = (order_at ns <$> l) ++ queue ns m.
Proof. unfold queue. by rewrite idxs_cons, fmap_app. Qed.

Lemma order_at_core ns ns' i :
  core (node_at ns' i) = core (node_at ns i) -> order_at ns' i = order_at ns i.
Proof. unfold core, order_at. intros H. by simplify_eq; f_equal. Qed.

Lemma order_at_ext ns ns' (l : list Z) :
  (forall i, i ∈ l -> core (node_at ns' i) = core (node_at ns i)) ->
  order_at ns' <$> l = order_at ns <$> l.
Proof.
  intros H. apply list_fmap_ext. intros k i Hk. apply order_at_core, H.
  by eapply list_elem_of_lookup_2.
Qed.

Lemma queue_ext ns ns' m :
  (forall i, i ∈ idxs m -> core (node_at ns' i) = core (node_at ns i)) ->
  queue ns' m = queue ns m.
Proof. apply order_at_ext. Qed.

(** The index of a chained node is in the array, and is not [npos]. *)
Lemma store_range ns used free i :
  store_ok ns used free -> i ∈ used -> 0 <= i < Z.of_nat (length ns) /\ (i =? npos) = false.
Proof.
  intros (_ & HR & _ & HC) Hi. assert (0 <= i < Z.of_nat (length ns)) as R.
  { apply HR, elem_of_app. auto. }
  split; [done|]. apply Z.eqb_neq. lia.
Qed.

Lemma all_idx_side g s i : i ∈ idxs (g s) -> i ∈ all_idx g.
Proof. unfold all_idx. rewrite elem_of_app. destruct s; auto. Qed.

Lemma in_level g s m1 px l m2 j : g s = m1 ++ (px, l) :: m2 -> j ∈ l -> j ∈ all_idx g.
Proof.
  intros Hg Hj. apply (all_idx_side g s), elem_of_idxs. exists px, l.
  split; [|done]. rewrite Hg. apply elem_of_app. right. constructor.
Qed.

(** ** A side under writes to the array *)

Definition untouched (ns ns' : list Node) (i : Z) : Prop :=
  same_links ns ns' i /\ core (node_at ns' i) = core (node_at ns i).

Lemma remaining_core ns ns' i :
  core (node_at ns' i) = core (node_at ns i) ->
  nd_remaining (node_at ns' i) = nd_remaining (node_at ns i).
Proof. unfold core. congruence. Qed.

Lemma remaining_ext ns ns' (l : list Z) :
  (forall i, i ∈ l -> core (node_at ns' i) = core (node_at ns i)) ->
  (fun i => nd_remaining (node_at ns' i)) <$> l = (fun i => nd_remaining (node_at ns i)) <$> l.
Proof.
  intros H. apply list_fmap_ext. intros k i Hk. apply remaining_core, H.
  by eapply list_elem_of_lookup_2.
Qed.

Lemma resident_core ns ns' s px i :
  core (node_at ns' i) = core (node_at ns i) -> resident ns s px i -> resident ns' s px i.
Proof. unfold core, resident. intros H. simplify_eq. intuition congruence. Qed.

Lemma level_ok_frame ns ns' px lv l :
  Forall (untouched ns ns') l -> level_ok ns px lv l -> level_ok ns' px lv l.
Proof.
  intros HF (H1 & H2 & H3 & H4 & H5). split_and!; [|done|done| |done].
  - eapply dseg_frame; [|done]. eapply Forall_mono; [|exact HF]. by intros ? _ [].
  - rewrite H4, (remaining_ext ns ns'); [done|].
    rewrite Forall_forall in HF. intros i Hi. by apply HF.
Qed.

Lemma side_ok_frame ns ns' s lvs m :
  Forall (untouched ns ns') (idxs m) -> side_ok ns s lvs m -> side_ok ns' s lvs m.
Proof.
  rewrite Forall_forall. intros HF (H1 & H2 & H3). split_and!; [|done|].
  - eapply sm_rel_mono; [|done]. intros px lv l _ Hl. apply level_ok_frame.
    apply Forall_forall. intros i Hi. apply HF, elem_of_idxs. eauto.
  - intros px l i Hl Hi. eapply resident_core; [|eauto]. apply HF, elem_of_idxs. eauto.
Qed.

(** ** Writing one level of a side *)

Lemma keys_any {V} (m : smap Price V) : sm_keys (fun _ => True) m.
Proof. apply Forall_true. done. Qed.

(** The level the map has for a chain, and what the map becomes when the level
    is overwritten or erased. *)
Lemma side_level ns s lvs m1 px l m2 :
  side_ok ns s lvs (m1 ++ (px, l) :: m2) ->
  exists n1 lv n2, lvs = n1 ++ (px, lv) :: n2 /\
    sm_rel (level_ok ns) n1 m1 /\ level_ok ns px lv l /\ sm_rel (level_ok ns) n2 m2 /\
    sm_lookup (before s) px lvs = Some lv /\
    (forall lv', sm_insert (before s) px lv' lvs = n1 ++ (px, lv') :: n2) /\
    sm_delete (before s) px lvs = n1 ++ n2.
Proof.
  intros (HR & HS & _).
  assert (sm_sorted (before s) lvs) as HS'.
  { unfold sm_sorted in *. by rewrite (sm_rel_keys _ _ _ HR). }
  apply Forall2_app_inv_r in HR as (n1 & k & H1 & H2 & ->).
  apply Forall2_cons_inv_r in H2 as ([px' lv] & n2 & [Hk HL] & H2 & ->).
  simpl in Hk, HL. subst px'. exists n1, lv, n2.
  destruct (sm_at (P := fun _ => True) (lt := before s) px lv n1 n2) as (I1 & I2 & I3);
    [done|apply keys_any|done|]. by split_and!.
Qed.

Lemma sorted_rekey s px (l l' : list Z) (m1 m2 : smap Price (list Z)) :
  sm_sorted (before s) (m1 ++ (px, l) :: m2) -> sm_sorted (before s) (m1 ++ (px, l') :: m2).
Proof. unfold sm_sorted. by rewrite !fmap_app, !fmap_cons. Qed.

Lemma sorted_drop s px (l : list Z) (m1 m2 : smap Price (list Z)) :
  sm_sorted (before s) (m1 ++ (px, l) :: m2) -> sm_sorted (before s) (m1 ++ m2).
Proof.
  unfold sm_sorted. rewrite !fmap_app, !fmap_cons. intros H.
  eapply StronglySorted_sublist; [|exact H].
  apply sublist_app; [done|by apply sublist_cons].
Qed.

Section OneLevel.
Context (ns ns' : list Node) (s : Side) (lvs : smap Price Level)
        (m1 : smap Price (list Z)) (px : Price) (l : list Z) (m2 : smap Price (list Z)).
Context (Hside : side_ok ns s lvs (m1 ++ (px, l) :: m2))
        (Hframe : Forall (untouched ns ns') (idxs m1 ++ idxs m2)).

Lemma frame_rel n m :
  (forall e, e ∈ m -> e ∈ m1 ++ m2) -> sm_rel (level_ok ns) n m -> sm_rel (level_ok ns') n m.
Proof.
  intros Hm. apply sm_rel_mono. intros k v w _ Hw. apply level_ok_frame.
  eapply Forall_mono; [by intros x _ Hx; apply Hx|].
  apply Forall_forall. intros i Hi. rewrite Forall_forall in Hframe. apply Hframe.
  rewrite <- idxs_app. apply elem_of_idxs. eauto.
Qed.

Lemma frame_resident k j i :
  (k, j) ∈ m1 ++ m2 -> i ∈ j -> resident ns' s k i.
Proof.
  intros Hk Hi. pose proof Hside as (_ & _ & H3).
  eapply resident_core; [|eapply (H3 k j)];
    [|rewrite elem_of_app, elem_of_cons in *; tauto|done].
  rewrite Forall_forall in Hframe. apply (Hframe i).
  rewrite <- idxs_app. apply elem_of_idxs. eauto.
Qed.

Lemma side_put lv' l' :
  level_ok ns' px lv' l' -> (forall i, i ∈ l' -> resident ns' s px i) ->
  side_ok ns' s (sm_insert (before s) px lv' lvs) (m1 ++ (px, l') :: m2).
Proof.
  intros HL HN. destruct (side_level _ _ _ _ _ _ _ Hside)
    as (n1 & lv & n2 & _ & R1 & _ & R2 & _ & -> & _).
  split_and!.
  - apply Forall2_app; [|apply Forall2_cons; split]; [|done|].
    + eapply frame_rel; [|done]. set_solver.
    + eapply frame_rel; [|done]. set_solver.
  - pose proof Hside as (_ & HS & _). by eapply sorted_rekey.
  - intros k j i Hk Hi. rewrite elem_of_app, elem_of_cons in Hk.
    destruct Hk as [Hk|[[= -> ->]|Hk]]; [|by apply HN|];
      eapply frame_resident; try done; set_solver.
Qed.

Lemma side_drop : side_ok ns' s (sm_delete (before s) px lvs) (m1 ++ m2).
Proof.
  destruct (side_level _ _ _ _ _ _ _ Hside)
    as (n1 & lv & n2 & _ & R1 & _ & R2 & _ & _ & ->).
  split_and!.
  - apply Forall2_app; eapply frame_rel; try done; set_solver.
  - pose proof Hside as (_ & HS & _). by eapply sorted_drop.
  - intros k j i Hk Hi. by eapply frame_resident.
Qed.
End OneLevel.

(** ** Detaching a node *)

Lemma dseg_mid ns p l1 i l2 n :
  dseg ns p (l1 ++ i :: l2) n ->
  nd_prev (node_at ns i) = default p (last l1) /\
  nd_next (node_at ns i) = default n (head l2).
Proof.
  revert p; induction l1 as [|x l1 IH]; intros p H; simpl in *; [tauto|].
  destruct H as (_ & _ & H). apply IH in H as [-> ->]. split; [|done].
  rewrite last_cons. by destruct (last l1).
Qed.

(** The level after its node [n] is taken out. *)
Definition detach_lv (lv : Level) (n : Node) : Level := {|
  lv_head := if negb (nd_prev n =? npos) then lv_head lv else nd_next n;
  lv_tail := if negb (nd_next n =? npos) then lv_tail lv else nd_prev n;
  lv_total := u32 (lv_total lv - nd_remaining n);
  lv_order_count := u32 (lv_order_count lv - 1) |}.

(** A node that stays, when the neighbours of [i] are linked to each other. *)
Definition unlinked (ns ns' : list Node) (l1 : list Z) (l2 : list Z) (j : Z) : Prop :=
  nd_next (node_at ns' j) =
    (if decide (last l1 = Some j) then default npos (head l2) else nd_next (node_at ns j)) /\
  nd_prev (node_at ns' j) =
    (if decide (head l2 = Some j) then default npos (last l1) else nd_prev (node_at ns j)) /\
  core (node_at ns' j) = core (node_at ns j).

Lemma unlinked_untouched ns ns' l1 l2 j :
  j ∉ l1 -> j ∉ l2 -> unlinked ns ns' l1 l2 j -> untouched ns ns' j.
Proof.
  intros H1 H2 (E1 & E2 & E3).
  rewrite decide_False in E1 by (intros H; by apply H1, last_Some_elem_of).
  rewrite decide_False in E2 by (intros H; by apply H2, head_Some_elem_of).
  by repeat split.
Qed.

Lemma level_detach ns ns' px lv l1 i l2 :
  NoDup (l1 ++ i :: l2) -> npos ∉ l1 ++ l2 ->
  level_ok ns px lv (l1 ++ i :: l2) ->
  (forall j, j ∈ l1 ++ l2 -> unlinked ns ns' l1 l2 j) ->
  level_ok ns' px (detach_lv lv (node_at ns i)) (l1 ++ l2).
Proof.
  intros ND HN (H1 & H2 & H3 & H4 & H5) HU.
  destruct (dseg_mid _ _ _ _ _ _ H1) as [Hp Hn].
  unfold detach_lv. rewrite Hp, Hn. split_and!; cbn [lv_head lv_tail lv_total lv_order_count].
  - eapply dseg_unlink; [done..|]. intros j Hj. destruct (HU j Hj) as (E1 & E2 & _). done.
  - destruct l1 as [|x l1]; [done|].
    destruct (last (x :: l1)) as [y|] eqn:E; [|by apply last_None in E].
    simpl. case_if; [by rewrite H2|]. breflect. subst y. destruct HN.
    apply elem_of_app. left. by apply last_Some_elem_of.
  - destruct l2 as [|x l2]; simpl; [by rewrite app_nil_r|].
    case_if; [|breflect; set_solver].
    rewrite H3, !last_app, !last_cons. by destruct (last l2).
  - rewrite H4, u32_sub_l. f_equal. rewrite !fmap_app, fmap_cons, !sumZ_app, sumZ_cons.
    rewrite (remaining_ext ns ns' l1), (remaining_ext ns ns' l2); [lia|..];
      intros j Hj; apply HU, elem_of_app; auto.
  - rewrite H5, u32_sub_l, !length_app. simpl. f_equal. lia.
Qed.

(** ** Whole books *)

Definition upd (g : ghost) (s : Side) (m : smap Price (list Z)) : ghost :=
  fun s' => if decide (s' = s) then m else g s'.

Lemma upd_eq g s m : upd g s m s = m.
Proof. unfold upd. by rewrite decide_True. Qed.

Lemma upd_ne g s m s' : s' <> s -> upd g s m s' = g s'.
Proof. intros H. unfold upd. by rewrite decide_False. Qed.

Lemma levels_set_eq b s m : levels (set_levels b s m) s = m.
Proof. by destruct s. Qed.

Lemma levels_set_ne b s m s' : s' <> s -> levels (set_levels b s m) s' = levels b s'.
Proof. by destruct s, s'. Qed.

#[export] Hint Rewrite upd_eq levels_set_eq : nodes.

(** The indices in use, with those of one side first. *)
Lemma all_idx_perm g s : all_idx g ≡ₚ idxs (g s) ++ idxs (g (opposite s)).
Proof. unfold all_idx. destruct s; simpl; [done|]. by rewrite (comm (++)). Qed.

Lemma all_idx_upd g s m : all_idx (upd g s m) ≡ₚ idxs m ++ idxs (g (opposite s)).
Proof. rewrite (all_idx_perm _ s), upd_eq, upd_ne by (by destruct s). done. Qed.

Lemma store_perm ns u u' f f' :
  u ++ f ≡ₚ u' ++ f' -> store_ok ns u f -> store_ok ns u' f'.
Proof.
  intros HP (H1 & H2 & H3 & H4). split_and!.
  - by rewrite <- HP.
  - intros i. rewrite <- HP. apply H2.
  - by rewrite <- HP.
  - done.
Qed.

Lemma store_length ns ns' u f : length ns' = length ns -> store_ok ns u f -> store_ok ns' u f.
Proof. unfold store_ok. by intros ->. Qed.

Lemma index_ok_perm ns ids u u' : u ≡ₚ u' -> index_ok ns ids u -> index_ok ns ids u'.
Proof. intros HP H id i. by rewrite (H id i), HP. Qed.

Lemma index_detach ns ns' ids i u :
  NoDup (i :: u) -> index_ok ns ids (i :: u) ->
  (forall j, j ∈ u -> core (node_at ns' j) = core (node_at ns j)) ->
  index_ok ns' (delete (nd_id (node_at ns i)) ids) u.
Proof.
  intros ND HI HC id j. apply NoDup_cons in ND as [Hi ND].
  assert (forall j, j ∈ u -> nd_id (node_at ns' j) = nd_id (node_at ns j)) as Hid.
  { intros k Hk. apply HC in Hk. unfold core in Hk. congruence. }
  rewrite lookup_delete_Some, (HI id j), elem_of_cons. split.
  - intros (Hne & [->|Hj] & E); [by destruct Hne|]. by rewrite Hid.
  - intros (Hj & E). rewrite Hid in E by done. split_and!; [|by right|done].
    intros E'. rewrite <- E' in E.
    assert (ids !! nd_id (node_at ns i) = Some i) as L1 by (apply HI; split; [constructor|done]).
    assert (ids !! nd_id (node_at ns i) = Some j) as L2 by (apply HI; split; [by constructor|done]).
    congruence.
Qed.

Lemma Forall_untouched ns ns' l1 i l2 (k : list Z) :
  (forall j, j ∈ k -> 0 <= j /\ j <> i /\ j ∉ l1 /\ j ∉ l2) ->
  (forall j, 0 <= j -> j <> i -> unlinked ns ns' l1 l2 j) ->
  Forall (untouched ns ns') k.
Proof.
  intros Hk HU. apply Forall_forall. intros j Hj. apply Hk in Hj as (R & N & H1 & H2).
  by eapply unlinked_untouched, HU.
Qed.

(** The side that a detached node leaves, and how many nodes are in use. *)
Section Detach.
Context (b : Book) (g : ghost) (s : Side) (m1 m2 : smap Price (list Z)).
Context (px : Price) (l1 l2 : list Z) (i : Z).
Context (HR : Rep b g) (Hg : g s = m1 ++ (px, l1 ++ i :: l2) :: m2).

(** The indices in use apart from [i], by what happens to them. *)
Let kept := l1 ++ l2.
Let rest_of_side := idxs m1 ++ idxs m2.
Let other_side := idxs (g (opposite s)).
Let others := kept ++ rest_of_side ++ other_side.

Lemma detach_used : all_idx g ≡ₚ i :: others.
Proof.
  rewrite (all_idx_perm g s), Hg, idxs_app, idxs_cons.
  unfold others, kept, rest_of_side, other_side. solve_Permutation.
Qed.

Lemma detach_nodup : NoDup (i :: others).
Proof.
  destruct (rep_store _ _ HR) as (H1 & _). apply NoDup_app in H1 as (H1 & _).
  by rewrite detach_used in H1.
Qed.

Lemma detach_range j : j ∈ i :: others -> 0 <= j < npos.
Proof.
  intros Hj. destruct (rep_store _ _ HR) as (_ & H2 & _ & H4).
  assert (0 <= j < Z.of_nat (length (nodes_ b))); [|lia].
  apply H2, elem_of_app. left. by rewrite detach_used.
Qed.

Context (b' : Book).
Context (Hlinks : forall j, 0 <= j -> j <> i -> unlinked (nodes_ b) (nodes_ b') l1 l2 j).

Lemma detach_frame (k : list Z) :
  k ⊆ rest_of_side ++ other_side -> Forall (untouched (nodes_ b) (nodes_ b')) k.
Proof.
  intros Hk. apply Forall_forall. intros j Hj. apply Hk in Hj.
  pose proof detach_nodup as ND. apply NoDup_cons in ND as [Hi ND].
  assert (j ∈ others) as Ho by (apply elem_of_app; auto).
  apply NoDup_app in ND as (_ & ND & _).
  assert (j ∉ kept) as Hn by (intros Hl; by apply (ND j)).
  unfold kept in Hn. rewrite not_elem_of_app in Hn. destruct Hn.
  eapply (unlinked_untouched _ _ l1 l2); [done..|]. apply Hlinks; [|by intros ->].
  apply detach_range. by constructor.
Qed.

Lemma detach_kept j : j ∈ kept -> unlinked (nodes_ b) (nodes_ b') l1 l2 j.
Proof.
  intros Hj. assert (j ∈ others) as Ho by (apply elem_of_app; auto).
  pose proof detach_nodup as ND. apply NoDup_cons in ND as [Hi ND].
  apply Hlinks; [|by intros ->]. apply detach_range. by constructor.
Qed.

Lemma detach_core j :
  j ∈ others -> core (node_at (nodes_ b') j) = core (node_at (nodes_ b) j).
Proof.
  intros Ho. pose proof detach_nodup as ND. apply NoDup_cons in ND as [Hi ND].
  apply Hlinks; [|by intros ->]. apply detach_range. by constructor.
Qed.

(** The side the node leaves: its level shrinks, or goes if it was alone. *)
Lemma detach_side :
  exists lv, sm_lookup (before s) px (levels b s) = Some lv /\
  level_ok (nodes_ b) px lv (l1 ++ i :: l2) /\
  side_ok (nodes_ b') s
    (sm_insert (before s) px (detach_lv lv (node_at (nodes_ b) i)) (levels b s))
    (m1 ++ (px, l1 ++ l2) :: m2) /\
  side_ok (nodes_ b') s (sm_delete (before s) px (levels b s)) (m1 ++ m2).
Proof.
  pose proof (rep_side _ _ HR s) as HS. rewrite Hg in HS.
  destruct (side_level _ _ _ _ _ _ _ HS) as (n1 & lv & n2 & _ & _ & HL & _ & Hlk & _).
  assert (Forall (untouched (nodes_ b) (nodes_ b')) (idxs m1 ++ idxs m2)) as HF
    by (apply detach_frame; intros j Hj; by apply elem_of_app; left).
  pose proof detach_nodup as ND. apply NoDup_cons in ND as [Hi ND].
  apply NoDup_app in ND as (ND & _).
  exists lv. split_and!; [done|done| |by eapply side_drop].
  eapply side_put; [done|done| |].
  - eapply level_detach; [| |done|exact detach_kept].
    + rewrite <- Permutation_middle. apply NoDup_cons. split; [|done].
      intros Hn. apply Hi, elem_of_app. by left.
    + intros Hn. assert (npos ∈ i :: others) as Hr by (apply list_elem_of_further, elem_of_app; by left).
      apply detach_range in Hr. lia.
  - intros j Hj. destruct HS as (_ & _ & HN).
    eapply resident_core; [by apply detach_kept|]. eapply (HN px (l1 ++ i :: l2)).
    + rewrite elem_of_app. right. constructor.
    + rewrite <- Permutation_middle. by constructor.
Qed.

(** The whole book after the node's index is given back. *)
Lemma rep_detach m' :
  length (nodes_ b') = length (nodes_ b) ->
  free_list_ b' = push_back (free_list_ b) i ->
  by_id_ b' = delete (nd_id (node_at (nodes_ b) i)) (by_id_ b) ->
  active_count_ b' = u64 (active_count_ b - 1) ->
  levels b' (opposite s) = levels b (opposite s) ->
  idxs m' = idxs m1 ++ kept ++ idxs m2 ->
  side_ok (nodes_ b') s (levels b' s) m' -> Rep b' (upd g s m').
Proof.
  intros Hlen Hfree Hids Hcount Hother Hm' HS.
  assert (all_idx (upd g s m') ≡ₚ others) as Hu.
  { rewrite all_idx_upd, Hm'. unfold others, kept, rest_of_side, other_side. solve_Permutation. }
  split.
  - intros s'. destruct (decide (s' = s)) as [->|Hs]; [by rewrite upd_eq|].
    rewrite upd_ne by done. assert (s' = opposite s) as -> by (by destruct s, s').
    rewrite Hother. eapply side_ok_frame; [|apply (rep_side _ _ HR)].
    apply detach_frame. intros j Hj. apply elem_of_app. by right.
  - eapply store_length; [done|]. eapply store_perm; [|apply (rep_store _ _ HR)].
    rewrite Hu, detach_used, Hfree. unfold push_back. solve_Permutation.
  - rewrite Hids. eapply index_ok_perm; [by symmetry|].
    apply index_detach; [apply detach_nodup| |exact detach_core].
    eapply index_ok_perm; [apply detach_used|apply (rep_index _ _ HR)].
  - rewrite Hcount, (rep_count _ _ HR), Hu, detach_used.
    destruct (rep_store _ _ HR) as (_ & _ & HL & HC).
    rewrite length_app, detach_used in HL. simpl in *. rewrite u64_small; [lia|].
    unfold in_u64, npos in *. lia.
Qed.
End Detach.

(** ** Resizing a node in place *)

Lemma order_at_resized ns i q :
  0 <= i < Z.of_nat (length ns) ->
  order_at (set_remaining ns i q) i = set_qty (order_at ns i) q.
Proof. intros Hi. unfold order_at, set_remaining. rewrite node_at_set by lia. by rewrite decide_True. Qed.

Section Resize.
Context (b : Book) (g : ghost) (s : Side) (m1 m2 : smap Price (list Z)).
Context (px : Price) (l1 l2 : list Z) (i : Z) (d : Z).
Context (HR : Rep b g) (Hg : g s = m1 ++ (px, l1 ++ i :: l2) :: m2).

Let n := node_at (nodes_ b) i.
Let ns' := set_remaining (nodes_ b) i (nd_remaining n - d).

Definition shrink_lv (lv : Level) (d : Z) : Level := {|
  lv_head := lv_head lv; lv_tail := lv_tail lv;
  lv_total := u32 (lv_total lv - d); lv_order_count := lv_order_count lv |}.

Lemma resize_range j : j ∈ all_idx g -> 0 <= j < Z.of_nat (length (nodes_ b)).
Proof. intros Hj. by eapply store_range; [apply (rep_store _ _ HR)|]. Qed.

Lemma resize_in : i ∈ all_idx g.
Proof.
  eapply in_level; [exact Hg|]. apply elem_of_app. right. constructor.
Qed.

Lemma resize_links j : j ∈ all_idx g ->
  same_links (nodes_ b) ns' j /\
  (i <> j -> core (node_at ns' j) = core (node_at (nodes_ b) j)).
Proof.
  intros Hj. destruct (set_remaining_at (nodes_ b) i (resize_range i resize_in)
    (nd_remaining n - d) j) as (H1 & H2 & H3); [by apply resize_range in Hj; lia|].
  by repeat split.
Qed.

Lemma resize_level lv :
  level_ok (nodes_ b) px lv (l1 ++ i :: l2) ->
  level_ok ns' px (shrink_lv lv d) (l1 ++ i :: l2).
Proof.
  intros (H1 & H2 & H3 & H4 & H5).
  pose proof (detach_nodup _ _ _ _ _ _ _ _ _ HR Hg) as ND.
  assert (forall j, j ∈ l1 ++ i :: l2 -> j ∈ all_idx g) as Hin.
  { intros j. by eapply in_level. }
  split_and!; [|done|done| |done].
  - eapply dseg_frame; [|done]. apply Forall_forall. intros j Hj. by apply resize_links, Hin.
  - unfold shrink_lv. cbn [lv_total]. rewrite H4, u32_sub_l. f_equal.
    rewrite !fmap_app, !fmap_cons, !sumZ_app, !sumZ_cons.
    apply NoDup_cons in ND as [Hi _]. rewrite !elem_of_app in Hi.
    rewrite (remaining_ext (nodes_ b) ns' l1), (remaining_ext (nodes_ b) ns' l2).
    + unfold ns', set_remaining at 1. rewrite node_at_set by (pose proof (resize_range i resize_in); lia).
      rewrite decide_True by done. simpl. unfold n. lia.
    + intros j Hj. apply resize_links; [apply Hin; set_solver|]. intros ->. tauto.
    + intros j Hj. apply resize_links; [apply Hin; set_solver|]. intros ->. tauto.
Qed.

Lemma resize_at : node_at ns' i =
  {| nd_id := nd_id n; nd_client_id := nd_client_id n; nd_price := nd_price n;
     nd_remaining := nd_remaining n - d; nd_prev := nd_prev n; nd_next := nd_next n;
     nd_side := nd_side n; nd_active := nd_active n |}.
Proof.
  unfold ns', set_remaining. pose proof (resize_range i resize_in).
  rewrite node_at_set by lia. by rewrite decide_True.
Qed.

Lemma resize_frame (k : list Z) :
  k ⊆ (idxs m1 ++ idxs m2) ++ idxs (g (opposite s)) -> Forall (untouched (nodes_ b) ns') k.
Proof.
  intros Hk. apply Forall_forall. intros j Hj. apply Hk in Hj.
  pose proof (detach_nodup _ _ _ _ _ _ _ _ _ HR Hg) as ND. apply NoDup_cons in ND as [Hi _].
  destruct (resize_links j) as [E1 E2].
  { rewrite (detach_used g s m1 m2 px l1 l2 i Hg). apply list_elem_of_further, elem_of_app. by right. }
  split; [done|]. apply E2. intros ->. apply Hi, elem_of_app. by right.
Qed.

Lemma resize_resident j :
  0 < nd_remaining n - d < 2 ^ 32 -> j ∈ l1 ++ i :: l2 -> resident ns' s px j.
Proof.
  intros Hd Hj. destruct (rep_side _ _ HR s) as (_ & _ & HN).
  assert (resident (nodes_ b) s px j) as (N1 & N2 & N3 & N4).
  { apply (HN px (l1 ++ i :: l2)); [|done]. rewrite Hg. apply elem_of_app. right. constructor. }
  destruct (decide (i = j)) as [<-|Hne].
  - unfold resident. rewrite resize_at. exact (conj N1 (conj N2 (conj N3 Hd))).
  - eapply resident_core; [apply resize_links; [by eapply in_level|done]|].
    exact (conj N1 (conj N2 (conj N3 N4))).
Qed.

Lemma resize_id j : j ∈ all_idx g -> nd_id (node_at ns' j) = nd_id (node_at (nodes_ b) j).
Proof.
  intros Hj. destruct (decide (i = j)) as [<-|Hne]; [by rewrite resize_at|].
  apply resize_links in Hj as [_ Hc]. apply Hc in Hne. unfold core in Hne. congruence.
Qed.

Lemma rep_resize b' lv :
  0 < nd_remaining n - d < 2 ^ 32 ->
  sm_lookup (before s) px (levels b s) = Some lv ->
  nodes_ b' = ns' -> free_list_ b' = free_list_ b -> by_id_ b' = by_id_ b ->
  active_count_ b' = active_count_ b -> levels b' (opposite s) = levels b (opposite s) ->
  levels b' s = sm_insert (before s) px (shrink_lv lv d) (levels b s) ->
  Rep b' g.
Proof.
  intros Hd Hlk Hns Hfree Hids Hcount Hother Hlv.
  pose proof (rep_side _ _ HR s) as HS. rewrite Hg in HS.
  destruct (side_level _ _ _ _ _ _ _ HS) as (n1 & lv0 & n2 & _ & _ & HL & _ & Hlk' & _).
  rewrite Hlk in Hlk'. injection Hlk' as <-.
  split; rewrite ?Hns, ?Hfree, ?Hids, ?Hcount; [| | |apply (rep_count _ _ HR)].
  - intros s'. destruct (decide (s' = s)) as [->|Hs].
    + rewrite Hlv, Hg. eapply side_put; [exact HS| | |].
      * apply resize_frame. intros j Hj. apply elem_of_app. by left.
      * by apply resize_level.
      * intros j Hj. by apply resize_resident.
    + assert (s' = opposite s) as -> by (by destruct s, s').
      rewrite Hother. eapply side_ok_frame; [|apply (rep_side _ _ HR)].
      apply resize_frame. intros j Hj. apply elem_of_app. by right.
  - eapply store_length; [apply length_set_remaining|apply (rep_store _ _ HR)].
  - intros id j. rewrite (rep_index _ _ HR id j).
    split; intros [Hj Ej]; split; try done; rewrite <- Ej; [|symmetry]; by apply resize_id.
Qed.
End Resize.

(** ** Appending a node to a level *)

(** The array after [rest] wrote the node and linked it behind [tail]. *)
Definition appended_nodes (ns : list Node) (i : Z) (new : Node) (tail : Z) : list Node :=
  let ns1 := set_prev (set_node ns i new) i tail in
  if negb (tail =? npos) then set_next ns1 tail i else ns1.

Definition append_lv (lv : Level) (i : Z) (q : Quantity) : Level := {|
  lv_head := if negb (lv_tail lv =? npos) then lv_head lv else i;
  lv_tail := i; lv_total := u32 (lv_total lv + q);
  lv_order_count := u32 (lv_order_count lv + 1) |}.

Lemma length_appended ns i new tail : length (appended_nodes ns i new tail) = length ns.
Proof. unfold appended_nodes. case_if; by autorewrite with nodes. Qed.

Section AppendNodes.
Context (ns : list Node) (i : Z) (new : Node) (l : list Z).
Context (Hi : 0 <= i < Z.of_nat (length ns)) (Hil : i ∉ l).
Context (Hl : forall j, j ∈ l -> 0 <= j < Z.of_nat (length ns) /\ j <> npos).
Let tail := default npos (last l).
Let ns' := appended_nodes ns i new tail.

Lemma tail_cases : (tail = npos /\ l = []) \/
  (last l = Some tail /\ (tail =? npos) = false /\ 0 <= tail < Z.of_nat (length ns) /\ i <> tail).
Proof.
  unfold tail. destruct (last l) as [t|] eqn:E; [right|left].
  - apply last_Some_elem_of in E as Ht. destruct (Hl t Ht). simpl. split_and!; [done| |lia|lia|].
    + by apply Z.eqb_neq.
    + by intros ->.
  - by apply last_None in E.
Qed.

Lemma appended_old j : 0 <= j -> j <> i ->
  core (node_at ns' j) = core (node_at ns j) /\
  nd_prev (node_at ns' j) = nd_prev (node_at ns j) /\
  nd_next (node_at ns' j) =
    if decide (last l = Some j) then i else nd_next (node_at ns j).
Proof.
  intros Hj Hne. unfold ns', appended_nodes.
  set (ns1 := set_prev (set_node ns i new) i tail).
  assert (length ns1 = length ns) as Hlen by (unfold ns1; by autorewrite with nodes).
  assert (core (node_at ns1 j) = core (node_at ns j) /\ same_links ns ns1 j) as (C & P & N).
  { destruct (set_prev_at (set_node ns i new) i) with (p := tail) (j := j) as (A1 & A2 & A3);
      [by rewrite length_set_node|done|]. fold ns1 in A1, A2, A3.
    unfold same_links. rewrite A1, A2, A3, decide_False by done.
    by rewrite !node_at_set, !decide_False by done. }
  destruct tail_cases as [[-> ->]|(HL & Hn & Ht & _)].
  - by split_and!.
  - rewrite Hn. destruct (set_next_at ns1 tail) with (x := i) (j := j) as (A1 & A2 & A3);
      [by rewrite Hlen|done|]. simpl. rewrite A1, A2, A3, HL, C, P, N. split_and!; [done..|].
    do 2 case_decide; congruence.
Qed.

Lemma appended_new :
  core (node_at ns' i) = core new /\ nd_prev (node_at ns' i) = tail /\
  nd_next (node_at ns' i) = nd_next new.
Proof.
  unfold ns', appended_nodes.
  set (ns1 := set_prev (set_node ns i new) i tail).
  assert (length ns1 = length ns) as Hlen by (unfold ns1; by autorewrite with nodes).
  assert (core (node_at ns1 i) = core new /\ nd_prev (node_at ns1 i) = tail /\
          nd_next (node_at ns1 i) = nd_next new) as (C & P & N).
  { destruct (set_prev_at (set_node ns i new) i) with (p := tail) (j := i) as (A1 & A2 & A3);
      [by rewrite length_set_node|lia|]. fold ns1 in A1, A2, A3.
    rewrite A1, A2, A3, decide_True by done.
    by rewrite !node_at_set, !decide_True by (done || lia). }
  destruct tail_cases as [[-> ->]|(HL & Hn & Ht & Hit)]; [by split_and!|].
  rewrite Hn. destruct (set_next_at ns1 tail) with (x := i) (j := i) as (A1 & A2 & A3);
    [by rewrite Hlen|lia|]. simpl. rewrite A1, A2, A3, decide_False by done. by split_and!.
Qed.

(** The level that gains the node. *)
Lemma level_append px lv :
  NoDup l -> nd_next new = npos -> level_ok ns px lv l ->
  level_ok ns' px (append_lv lv i (nd_remaining new)) (l ++ [i]).
Proof.
  intros ND Hnew (H1 & H2 & H3 & H4 & H5).
  assert (forall j, j ∈ l -> 0 <= j /\ j <> i) as Hj.
  { intros j Hj. destruct (Hl j Hj). split; [lia|by intros ->]. }
  destruct appended_new as (C & P & N). unfold append_lv.
  assert (nd_remaining (node_at ns' i) = nd_remaining new) as Hrem by (unfold core in C; congruence).
  split_and!; cbn [lv_head lv_tail lv_total lv_order_count].
  - eapply dseg_snoc; [|done| |done|congruence].
    + apply NoDup_app. split_and!; [done| |apply NoDup_singleton].
      intros x Hx Hx'. apply list_elem_of_singleton in Hx'. by subst.
    + intros j Hin. destruct (Hj j Hin). by apply appended_old.
  - rewrite H3, H2. fold tail. destruct tail_cases as [[-> ->]|(HL & -> & _)]; [done|].
    destruct l as [|x l']; [done|]. done.
  - by rewrite last_snoc.
  - rewrite H4, u32_add_l. f_equal.
    rewrite fmap_app, sumZ_app. f_equal; [|simpl; rewrite Hrem; lia].
    f_equal. symmetry. apply remaining_ext. intros j Hin. destruct (Hj j Hin). by apply appended_old.
  - rewrite H5, u32_add_l, length_app. simpl. f_equal. lia.
Qed.
End AppendNodes.

(** A side gains a level that its map did not have. *)
Lemma side_new ns ns' s lvs m px lv l :
  side_ok ns s lvs m -> Forall (untouched ns ns') (idxs m) ->
  level_ok ns' px lv l -> (forall i, i ∈ l -> resident ns' s px i) ->
  side_ok ns' s (sm_insert (before s) px lv lvs) (sm_insert (before s) px l m).
Proof.
  intros HS HF HL HN. eapply side_ok_frame in HS as (H1 & H2 & H3); [|exact HF]. split_and!.
  - apply sm_rel_insert; [done| |done]. intros k. apply before_total.
  - eapply sm_sorted_insert; [done|apply keys_any|done].
  - intros k j i Hk Hi.
    eapply sm_insert_elem in Hk as [[= -> ->]|Hm];
      [by apply HN|by eapply H3|done|apply keys_any].
Qed.

(** The chain of a price, empty when the side has no such level. *)
Definition chain_at (s : Side) (px : Price) (m : smap Price (list Z)) : list Z :=
  default [] (sm_lookup (before s) px m).

Lemma side_lookup ns s lvs m px :
  side_ok ns s lvs m ->
  level_ok ns px (default Level0 (sm_lookup (before s) px lvs)) (chain_at s px m) /\
  ((exists m1 m2, m = m1 ++ (px, chain_at s px m) :: m2 /\
      forall w, sm_insert (before s) px w m = m1 ++ (px, w) :: m2) \/
   chain_at s px m = []).
Proof.
  intros (H1 & H2 & _). unfold chain_at.
  pose proof (sm_rel_lookup (lt := before s) _ px _ _ (fun k => before_total s px k) H1) as HL.
  destruct (sm_lookup (before s) px m) as [w|] eqn:E, (sm_lookup (before s) px lvs) as [v|];
    try done; simpl; [|split; [done|by right]].
  split; [done|]. left.
  destruct (sm_lookup_split (P := fun _ => True) px w m E) as (m1 & m2 & Hm);
    [done|apply keys_any|]. exists m1, m2. split; [done|].
  subst m. by destruct (sm_at (P := fun _ => True) (lt := before s) px w m1 m2) as (_ & I & _);
    [done|apply keys_any|done|].
Qed.

Section Append.
Context (b : Book) (g : ghost) (s : Side) (px : Price) (i : Z) (fl : list Z) (new : Node).
Context (HR : Rep b g) (Hfree : free_list_ b = fl ++ [i]).
Context (Hid : by_id_ b !! nd_id new = None).
Context (Hres : nd_active new = true /\ nd_side new = s /\ nd_price new = px /\
                0 < nd_remaining new < 2 ^ 32) (Hnext : nd_next new = npos).

Let l := chain_at s px (g s).
Let lv := default Level0 (sm_lookup (before s) px (levels b s)).
Let m' := sm_insert (before s) px (l ++ [i]) (g s).
Let ns' := appended_nodes (nodes_ b) i new (lv_tail lv).

Lemma append_range : 0 <= i < Z.of_nat (length (nodes_ b)) /\ i ∉ all_idx g /\
  (forall j, j ∈ all_idx g -> 0 <= j < Z.of_nat (length (nodes_ b)) /\ j <> npos).
Proof.
  pose proof (rep_store _ _ HR) as (H1 & H2 & _ & H4). rewrite Hfree in *. split_and!.
  - apply H2. rewrite !elem_of_app. right. right. constructor.
  - apply H2. rewrite !elem_of_app. right. right. constructor.
  - intros Hi. apply NoDup_app in H1 as (_ & H1 & _). apply (H1 i Hi), elem_of_app.
    right. constructor.
  - intros j Hj. assert (0 <= j < Z.of_nat (length (nodes_ b))); [apply H2|lia].
    apply elem_of_app. by left.
Qed.

Lemma append_level_ok : level_ok (nodes_ b) px lv l.
Proof. apply side_lookup, (rep_side _ _ HR s). Qed.

Lemma append_cases :
  (exists m1 m2, g s = m1 ++ (px, l) :: m2 /\
     forall w, sm_insert (before s) px w (g s) = m1 ++ (px, w) :: m2) \/ l = [].
Proof. apply (side_lookup _ _ _ _ px (rep_side _ _ HR s)). Qed.

Lemma append_in j : j ∈ l -> j ∈ idxs (g s).
Proof.
  destruct append_cases as [(m1 & m2 & -> & _)| ->]; [|by rewrite elem_of_nil].
  rewrite idxs_app, idxs_cons, !elem_of_app. tauto.
Qed.

Lemma append_in_all j : j ∈ l -> j ∈ all_idx g.
Proof. intros Hj. by eapply all_idx_side, append_in. Qed.

Lemma append_tail : lv_tail lv = default npos (last l).
Proof. by destruct append_level_ok as (_ & _ & H & _). Qed.

Lemma append_il : i ∉ l.
Proof. intros Hi. destruct append_range as (_ & H & _). by apply H, append_in_all. Qed.

Lemma append_old j : j ∈ all_idx g ->
  core (node_at ns' j) = core (node_at (nodes_ b) j) /\
  (j ∉ l -> untouched (nodes_ b) ns' j).
Proof.
  intros Hj. destruct append_range as (Hi & Hig & HJ). destruct (HJ j Hj) as [Hr _].
  assert (j <> i) as Hne by (by intros ->). unfold ns'. rewrite append_tail.
  destruct (appended_old (nodes_ b) i new l) with (j := j) as (C & P & N);
    [done|apply append_il|intros; by apply HJ, append_in_all|lia|done|].
  split; [done|]. intros Hl. rewrite decide_False in N by (intros E; by apply Hl, last_Some_elem_of).
  by repeat split.
Qed.

Lemma append_resident : resident ns' s px i.
Proof.
  destruct append_range as (Hi & Hig & HJ). unfold ns'. rewrite append_tail.
  destruct (appended_new (nodes_ b) i new l) as (C & _);
    [done|apply append_il|intros; by apply HJ, append_in_all|].
  unfold core in C. injection C as C1 C2 C3 C4 C5 C6.
  unfold resident. rewrite C3, C4, C5, C6. exact Hres.
Qed.

Lemma append_level_new : level_ok ns' px (append_lv lv i (nd_remaining new)) (l ++ [i]).
Proof.
  pose proof append_range as (Hi & Hig & HJ). pose proof (rep_store _ _ HR) as (ND & _).
  unfold ns'. rewrite append_tail.
  apply level_append; [done|apply append_il| | |done|apply append_level_ok].
  - intros j Hj. by apply HJ, append_in_all.
  - apply NoDup_app in ND as (ND & _). rewrite (all_idx_perm g s) in ND.
    apply NoDup_app in ND as (ND & _).
    destruct append_cases as [(m1 & m2 & Hg & _)| ->]; [|constructor].
    rewrite Hg, idxs_app, idxs_cons, !NoDup_app in ND. tauto.
Qed.

Lemma append_residents j : j ∈ l ++ [i] -> resident ns' s px j.
Proof.
  intros Hj. apply elem_of_app in Hj as [Hj|Hj];
    [|apply list_elem_of_singleton in Hj as ->; apply append_resident].
  eapply resident_core; [exact (proj1 (append_old j (append_in_all j Hj)))|].
  destruct append_cases as [(m1 & m2 & Hg & _)|E]; [|rewrite E in Hj; by apply elem_of_nil in Hj].
  destruct (rep_side _ _ HR s) as (_ & _ & H3). apply (H3 px l); [|done].
  rewrite Hg. apply elem_of_app. right. constructor.
Qed.

Lemma append_frame (k : list Z) :
  (forall j, j ∈ k -> j ∈ all_idx g /\ j ∉ l) -> Forall (untouched (nodes_ b) ns') k.
Proof.
  intros Hk. apply Forall_forall. intros j Hj. apply Hk in Hj as [Hj Hjl].
  by apply append_old.
Qed.

Lemma append_side :
  side_ok ns' s (sm_insert (before s) px (append_lv lv i (nd_remaining new)) (levels b s)) m'.
Proof.
  pose proof (rep_side _ _ HR s) as HS.
  destruct append_cases as [(m1 & m2 & Hg & Hins)|E].
  - unfold m'. rewrite Hins. rewrite Hg in HS.
    eapply side_put; [exact HS| |apply append_level_new|apply append_residents].
    pose proof (rep_store _ _ HR) as (ND & _). apply NoDup_app in ND as (ND & _).
    rewrite (all_idx_perm g s), Hg, idxs_app, idxs_cons, !NoDup_app in ND.
    destruct ND as ((_ & N1 & _ & N2 & _) & _).
    apply append_frame. intros j Hj. apply elem_of_app in Hj as [Hj|Hj]; split;
      try (apply (all_idx_side g s); rewrite Hg, idxs_app, idxs_cons, !elem_of_app; tauto).
    + intros Hl. by apply (N1 j Hj), elem_of_app; left.
    + intros Hl. by apply (N2 j Hl).
  - apply (side_new (nodes_ b)); [done| |apply append_level_new|apply append_residents].
    apply append_frame. intros j Hj. split; [by eapply all_idx_side|].
    rewrite E. apply not_elem_of_nil.
Qed.

Lemma append_idxs : idxs m' ≡ₚ i :: idxs (g s).
Proof.
  destruct append_cases as [(m1 & m2 & Hg & Hins)|E].
  - unfold m'. rewrite Hins, Hg, !idxs_app, !idxs_cons. solve_Permutation.
  - unfold m'. rewrite E. clear -E. unfold l, chain_at in E. revert E.
    generalize (g s). intros m. simpl.
    induction m as [|[k w] m IH]; simpl; [done|]. case_if; [done|]. case_if; intros Hm.
    + rewrite !idxs_cons, IH by done. solve_Permutation.
    + simpl in Hm. subst w. done.
Qed.

Lemma append_index :
  index_ok ns' (<[nd_id new := i]> (by_id_ b)) (i :: all_idx g).
Proof.
  pose proof append_range as (Hi & Hig & HJ). intros id j.
  assert (nd_id (node_at ns' i) = nd_id new) as Hni.
  { unfold ns'. rewrite append_tail.
    destruct (appended_new (nodes_ b) i new l) as (C & _);
      [done|apply append_il|intros; by apply HJ, append_in_all|]. unfold core in C. congruence. }
  assert (forall k, k ∈ all_idx g -> nd_id (node_at ns' k) = nd_id (node_at (nodes_ b) k)) as Hold.
  { intros k Hk. apply append_old in Hk as [Hk _]. unfold core in Hk. congruence. }
  rewrite elem_of_cons, lookup_insert. case_decide as D.
  - subst id. split; [intros [= <-]; split; [by left|done]|].
    intros ([->|Hj] & E); [done|]. rewrite Hold in E by done.
    assert (by_id_ b !! nd_id new = Some j) as L by (by apply (rep_index _ _ HR)).
    by rewrite Hid in L.
  - rewrite (rep_index _ _ HR id j). split.
    + intros [Hj E]. split; [by right|]. by rewrite Hold.
    + intros ([->|Hj] & E); [by rewrite Hni in E|]. by rewrite Hold in E.
Qed.

Lemma append_other (k : list Z) :
  k = idxs (g (opposite s)) -> Forall (untouched (nodes_ b) ns') k.
Proof.
  intros ->. apply append_frame. intros j Hj. split; [by eapply all_idx_side|].
  intros Hl. apply append_in in Hl. pose proof (rep_store _ _ HR) as (ND & _).
  apply NoDup_app in ND as (ND & _). rewrite (all_idx_perm g s) in ND.
  apply NoDup_app in ND as (_ & ND & _). by apply (ND j).
Qed.

Lemma rep_append b' :
  nodes_ b' = ns' -> free_list_ b' = fl -> by_id_ b' = <[nd_id new := i]> (by_id_ b) ->
  active_count_ b' = u64 (active_count_ b + 1) ->
  levels b' (opposite s) = levels b (opposite s) ->
  levels b' s = sm_insert (before s) px (append_lv lv i (nd_remaining new)) (levels b s) ->
  Rep b' (upd g s m').
Proof.
  intros Hns Hfl Hids Hcount Hother Hlv. pose proof (rep_store _ _ HR) as HS.
  assert (all_idx (upd g s m') ≡ₚ i :: all_idx g) as Hu.
  { by rewrite all_idx_upd, append_idxs, (all_idx_perm g s). }
  split; rewrite ?Hns, ?Hfl.
  - intros s'. destruct (decide (s' = s)) as [->|Hs].
    + rewrite upd_eq, Hlv. apply append_side.
    + rewrite upd_ne by done. assert (s' = opposite s) as -> by (by destruct s, s').
      rewrite Hother. eapply side_ok_frame; [by apply append_other|apply (rep_side _ _ HR)].
  - eapply store_length; [apply length_appended|]. eapply store_perm; [|exact HS].
    rewrite Hu, Hfree. solve_Permutation.
  - rewrite Hids. eapply index_ok_perm; [symmetry; exact Hu|]. apply append_index.
  - rewrite Hcount, (rep_count _ _ HR), Hu.
    destruct HS as (_ & _ & HL & HC). rewrite Hfree, !length_app in HL. simpl in *.
    rewrite u64_small; [lia|]. unfold in_u64, npos in *. lia.
Qed.
End Append.
