(* ===== verification/BookRefine.v ===== *)
(** * The order book implements the price-time book

    Every command of [OrderBook.v] on a well-formed book ends without
    exception and without exhausting its fuel, leaves a well-formed book, and
    has the result, the handler calls and the queues that [BookSpec.v]
    prescribes. *)

From S2P Require Import Prelude.
From S2P Require Import Types.
From S2P Require Import SortedMap.
From S2P Require Import OrderBook.
From S2P Require Import BookSpec.
From S2P Require Import BookInv.

(** The abstract state a represented book stands for. *)
Definition absb (b : Book) (g : ghost) : SBook := {|
  sb_symbol := symbol_ b; sb_capacity := length (nodes_ b); sb_policy := stp_policy_ b;
  sb_bids := queue (nodes_ b) (g Buy); sb_asks := queue (nodes_ b) (g Sell);
  sb_outbox := outbox_ b |}.

Definition refines (b : Book) (a : SBook) : Prop :=
  exists g, Rep b g /\ no_empty_level g /\ a = absb b g.

Lemma sb_side_absb b g s : sb_side (absb b g) s = queue (nodes_ b) (g s).
Proof. by destruct s. Qed.

(** Fields that the invariant does not look at. *)
Lemma rep_same b b' g :
  nodes_ b' = nodes_ b -> free_list_ b' = free_list_ b -> by_id_ b' = by_id_ b ->
  active_count_ b' = active_count_ b -> (forall s, levels b' s = levels b s) ->
  Rep b g -> Rep b' g.
Proof.
  intros H1 H2 H3 H4 H5 [R1 R2 R3 R4].
  split; rewrite ?H1, ?H2, ?H3, ?H4; try done. intros s. by rewrite H5.
Qed.

Lemma rep_emit b g id st rem reason : Rep b g -> Rep (emit_report id st rem reason b) g.
Proof. by apply rep_same. Qed.

Lemma absb_emit b g id st rem reason :
  absb (emit_report id st rem reason b) g = sb_report id st rem reason (absb b g).
Proof. done. Qed.

Lemma refines_emit b a id st rem reason :
  refines b a -> refines (emit_report id st rem reason b) (sb_report id st rem reason a).
Proof. intros (g & HR & HE & ->). exists g. split_and!; [by apply rep_emit|done|done]. Qed.

(** One side's chains replaced. *)
Lemma absb_upd b b' g s m :
  symbol_ b' = symbol_ b -> length (nodes_ b') = length (nodes_ b) ->
  stp_policy_ b' = stp_policy_ b -> outbox_ b' = outbox_ b ->
  queue (nodes_ b') (g (opposite s)) = queue (nodes_ b) (g (opposite s)) ->
  absb b' (upd g s m) = sb_set_side (absb b g) s (queue (nodes_ b') m).
Proof.
  intros H1 H2 H3 H4 H5. unfold absb, sb_set_side.
  rewrite H1, H2, H3, H4. destruct s; simpl in *; rewrite upd_eq, upd_ne, H5 by done; done.
Qed.

Lemma no_empty_upd g s m :
  no_empty_level g -> (forall px, (px, []) ∉ m) -> no_empty_level (upd g s m).
Proof.
  intros H1 H2 s' px. unfold upd. case_decide; [apply H2|apply H1].
Qed.

(** ** Identifiers *)

Section Ids.
Context (b : Book) (g : ghost) (HR : Rep b g).

Lemma ids_inj i j :
  i ∈ all_idx g -> j ∈ all_idx g ->
  nd_id (node_at (nodes_ b) i) = nd_id (node_at (nodes_ b) j) -> i = j.
Proof.
  intros Hi Hj E.
  assert (by_id_ b !! nd_id (node_at (nodes_ b) i) = Some i) by (by apply (rep_index _ _ HR)).
  assert (by_id_ b !! nd_id (node_at (nodes_ b) j) = Some j) by (by apply (rep_index _ _ HR)).
  congruence.
Qed.

Lemma elem_orders o : o ∈ sb_orders (absb b g) <->
  exists i, i ∈ all_idx g /\ o = order_at (nodes_ b) i.
Proof.
  unfold sb_orders, queue, absb. simpl. unfold queue.
  rewrite <- fmap_app, list_elem_of_fmap. fold (all_idx g). naive_solver.
Qed.

Lemma ids_in_index id :
  id ∈ o_id <$> sb_orders (absb b g) <-> is_Some (by_id_ b !! id).
Proof.
  rewrite list_elem_of_fmap. split.
  - intros (o & -> & Ho). apply elem_orders in Ho as (i & Hi & ->).
    exists i. by apply (rep_index _ _ HR).
  - intros [i Hi]. apply (rep_index _ _ HR) in Hi as [Hi E].
    exists (order_at (nodes_ b) i). split; [done|]. apply elem_orders. eauto.
Qed.

Lemma orders_length : length (sb_orders (absb b g)) = length (all_idx g).
Proof. unfold sb_orders, queue, absb, all_idx. simpl. unfold queue. by rewrite !length_app, !length_fmap. Qed.

(** Where a used index is. *)
Lemma locate i : i ∈ all_idx g ->
  exists m1 l1 l2 m2, let n := node_at (nodes_ b) i in
    g (nd_side n) = m1 ++ (nd_price n, l1 ++ i :: l2) :: m2 /\
    resident (nodes_ b) (nd_side n) (nd_price n) i.
Proof.
  intros Hi.
  assert (exists s px l, (px, l) ∈ g s /\ i ∈ l) as (s & px & l & Hl & Hin).
  { unfold all_idx in Hi. rewrite elem_of_app, !elem_of_idxs in Hi. naive_solver. }
  destruct (rep_side _ _ HR s) as (_ & _ & HN). specialize (HN px l i Hl Hin).
  pose proof HN as (_ & Hs & Hp & _).
  apply list_elem_of_split in Hl as (m1 & m2 & Hg).
  apply list_elem_of_split in Hin as (l1 & l2 & ->).
  exists m1, l1, l2, m2. simpl. rewrite Hs, Hp. done.
Qed.

Lemma remove_other id (l : list Z) :
  (forall j, j ∈ l -> nd_id (node_at (nodes_ b) j) <> id) ->
  remove_order id (order_at (nodes_ b) <$> l) = order_at (nodes_ b) <$> l.
Proof.
  induction l as [|j l IH]; intros H; [done|]. rewrite fmap_cons. unfold remove_order.
  rewrite filter_cons_True by (apply H; constructor). f_equal. apply IH.
  intros k Hk. apply H. by constructor.
Qed.

(** Taking an order out of its queue. *)
Lemma queue_remove s m1 px l1 i l2 m2 :
  g s = m1 ++ (px, l1 ++ i :: l2) :: m2 ->
  remove_order (nd_id (node_at (nodes_ b) i)) (queue (nodes_ b) (g s)) =
  order_at (nodes_ b) <$> idxs m1 ++ (l1 ++ l2) ++ idxs m2.
Proof.
  intros Hg. pose proof (detach_nodup _ _ _ _ _ _ _ _ _ HR Hg) as ND.
  assert (forall l : list Z, l ⊆ (l1 ++ l2) ++ (idxs m1 ++ idxs m2) ++ idxs (g (opposite s)) ->
    remove_order (nd_id (node_at (nodes_ b) i)) (order_at (nodes_ b) <$> l) =
    order_at (nodes_ b) <$> l) as HF.
  { intros l Hl. apply remove_other. intros j Hj E. apply Hl in Hj.
    apply NoDup_cons in ND as [Hi _]. apply Hi. rewrite (ids_inj i j); [done|..|done];
      rewrite (detach_used g s m1 m2 px l1 l2 i Hg); by constructor. }
  unfold queue. rewrite Hg, idxs_app, idxs_cons, !fmap_app, fmap_cons.
  unfold remove_order in *. rewrite !filter_app, filter_cons_False by (intros []; done).
  rewrite !HF, <- !app_assoc; [done|..]; intros j Hj; rewrite !elem_of_app; tauto.
Qed.
End Ids.

(** ** Removing an order *)

Section UnlinkNodes.
Context (ns : list Node) (l1 l2 : list Z) (i : Z).
Context (p x : Z) (Hp : p = default npos (last l1)) (Hx : x = default npos (head l2)).
Context (Hi : 0 <= i < Z.of_nat (length ns)).
Context (Hr : forall j, j ∈ l1 ++ l2 -> 0 <= j < Z.of_nat (length ns) /\ j <> npos).

Lemma prev_cases : (p = npos /\ l1 = []) \/
  (last l1 = Some p /\ (p =? npos) = false /\ 0 <= p < Z.of_nat (length ns)).
Proof.
  rewrite Hp. destruct (last l1) as [t|] eqn:E; [right|left].
  - apply last_Some_elem_of in E as Ht.
    destruct (Hr t) as [H1 H2]; [apply elem_of_app; by left|].
    split_and!; [done| |simpl; lia..]. by apply Z.eqb_neq.
  - by apply last_None in E.
Qed.

Lemma next_cases : (x = npos /\ l2 = []) \/
  (head l2 = Some x /\ (x =? npos) = false /\ 0 <= x < Z.of_nat (length ns)).
Proof.
  rewrite Hx. destruct l2 as [|t l2']; [by left|right].
  destruct (Hr t) as [H1 H2]; [apply elem_of_app; right; constructor|].
  split_and!; [done| |simpl; lia..]. by apply Z.eqb_neq.
Qed.

(** The two writes of [unlink] and the clearing of the node. *)
Lemma unlink_nodes j :
  let ns1 := if negb (p =? npos) then set_next ns p x else ns in
  let ns2 := if negb (x =? npos) then set_prev ns1 x p else ns1 in
  0 <= j -> j <> i -> unlinked ns (set_node ns2 i Node0) l1 l2 j.
Proof.
  intros ns1 ns2 Hj Hne.
  assert (length ns1 = length ns) as L1 by (unfold ns1; case_if; by autorewrite with nodes).
  assert (length ns2 = length ns) as L2 by (unfold ns2; case_if; by autorewrite with nodes).
  assert (core (node_at ns1 j) = core (node_at ns j) /\
    nd_prev (node_at ns1 j) = nd_prev (node_at ns j) /\
    nd_next (node_at ns1 j) =
      if decide (last l1 = Some j) then x else nd_next (node_at ns j)) as (C1 & P1 & N1).
  { unfold ns1. destruct prev_cases as [[-> ->]|(HL & -> & Hpr)]; [by split_and!|]. simpl.
    destruct (set_next_at ns p) with (x := x) (j := j) as (A1 & A2 & A3); [done..|].
    rewrite A1, A2, A3, HL. split_and!; [done..|]. repeat case_decide; congruence. }
  assert (core (node_at ns2 j) = core (node_at ns1 j) /\
    nd_next (node_at ns2 j) = nd_next (node_at ns1 j) /\
    nd_prev (node_at ns2 j) =
      if decide (head l2 = Some j) then p else nd_prev (node_at ns1 j)) as (C2 & N2 & P2).
  { unfold ns2. destruct next_cases as [[-> ->]|(HL & -> & Hxr)]; [by split_and!|]. simpl.
    destruct (set_prev_at ns1 x) with (p := p) (j := j) as (A1 & A2 & A3); [by rewrite L1|done|].
    rewrite A1, A2, A3, HL. split_and!; [done..|]. repeat case_decide; congruence. }
  unfold unlinked. rewrite <- Hp, <- Hx, node_at_set, decide_False by (rewrite ?L2; done).
  rewrite N2, N1, P2, P1, C2, C1. by split_and!.
Qed.
End UnlinkNodes.

(** [remove_without_report] with the level found: the array, the map and the
    unchanged rest. *)
Definition unlinked_nodes (ns : list Node) (n : Node) : list Node :=
  let ns1 := if negb (nd_prev n =? npos) then set_next ns (nd_prev n) (nd_next n) else ns in
  if negb (nd_next n =? npos) then set_prev ns1 (nd_next n) (nd_prev n) else ns1.

Lemma remove_eq b idx lv :
  let n := node_at (nodes_ b) idx in
  let s := nd_side n in
  sm_lookup (before s) (nd_price n) (levels b s) = Some lv ->
  remove_without_report idx b =
  let m := if lv_head (detach_lv lv n) =? npos
           then sm_delete (before s) (nd_price n) (levels b s)
           else sm_insert (before s) (nd_price n) (detach_lv lv n) (levels b s) in
  {| symbol_ := symbol_ b; nodes_ := set_node (unlinked_nodes (nodes_ b) n) idx Node0;
     free_list_ := push_back (free_list_ b) idx; by_id_ := delete (nd_id n) (by_id_ b);
     bids_ := match s with Buy => m | Sell => bids_ b end;
     asks_ := match s with Buy => asks_ b | Sell => m end;
     active_count_ := u64 (active_count_ b - 1); outbox_ := outbox_ b;
     stp_policy_ := stp_policy_ b |}.
Proof. intros n s H. unfold remove_without_report, unlink. fold n. fold s. rewrite H. done. Qed.

Lemma length_unlinked_nodes ns n : length (unlinked_nodes ns n) = length ns.
Proof. unfold unlinked_nodes. repeat case_if; by autorewrite with nodes. Qed.

Lemma no_empty_put (m1 m2 : smap Price (list Z)) px l l' :
  (forall k, (k, []) ∉ m1 ++ (px, l) :: m2) -> l' <> [] ->
  forall k, (k, []) ∉ m1 ++ (px, l') :: m2.
Proof.
  intros H Hl k Hk. apply (H k). rewrite !elem_of_app, !elem_of_cons in *.
  destruct Hk as [Hk|[[= _ E]|Hk]]; [tauto|by destruct Hl|tauto].
Qed.

Lemma no_empty_drop (m1 m2 : smap Price (list Z)) px l :
  (forall k, (k, []) ∉ m1 ++ (px, l) :: m2) -> forall k, (k, []) ∉ m1 ++ m2.
Proof. intros H k Hk. apply (H k). rewrite !elem_of_app, !elem_of_cons in *. tauto. Qed.

Section Remove.
Context (b : Book) (g : ghost) (idx : Z).
Context (HR : Rep b g) (Hin : idx ∈ all_idx g).
Let n := node_at (nodes_ b) idx.
Let b' := remove_without_report idx b.

Lemma used_range j : j ∈ all_idx g -> 0 <= j < Z.of_nat (length (nodes_ b)) /\ j <> npos.
Proof.
  intros Hj. destruct (store_range _ _ _ _ (rep_store _ _ HR) Hj) as [H1 H2].
  split; [done|]. by apply Z.eqb_neq.
Qed.

(** The level of the node, and how the rest of the book is linked after the
    removal. *)
Lemma remove_level m1 l1 l2 m2 :
  g (nd_side n) = m1 ++ (nd_price n, l1 ++ idx :: l2) :: m2 ->
  exists lv, sm_lookup (before (nd_side n)) (nd_price n) (levels b (nd_side n)) = Some lv /\
    (lv_head (detach_lv lv n) =? npos) = bool_decide (l1 ++ l2 = []) /\
    forall j, 0 <= j -> j <> idx -> unlinked (nodes_ b)
      (set_node (unlinked_nodes (nodes_ b) n) idx Node0) l1 l2 j.
Proof.
  intros Hg. pose proof (rep_side _ _ HR (nd_side n)) as HSd. rewrite Hg in HSd.
  assert (forall j, j ∈ l1 ++ l2 -> 0 <= j < Z.of_nat (length (nodes_ b)) /\ j <> npos) as Hk.
  { intros j Hj. apply used_range. eapply in_level; [exact Hg|].
    rewrite !elem_of_app, elem_of_cons in *. tauto. }
  destruct (side_level _ _ _ _ _ _ _ HSd) as (n1 & lv & n2 & _ & _ & HL & _ & Hlk & _).
  pose proof HL as (HD & Hhd & _). apply dseg_mid in HD as [Hp Hx]. fold n in Hp, Hx.
  assert (forall j, 0 <= j -> j <> idx -> unlinked (nodes_ b)
      (set_node (unlinked_nodes (nodes_ b) n) idx Node0) l1 l2 j) as HU.
  { intros j Hj Hne. unfold unlinked_nodes. rewrite Hp, Hx.
    apply unlink_nodes; [done|done|by apply used_range|done|done|done]. }
  exists lv. split_and!; [done| |exact HU].
  pose proof (detach_nodup _ _ _ _ _ _ _ _ _ HR Hg) as ND.
  assert (level_ok (set_node (unlinked_nodes (nodes_ b) n) idx Node0) (nd_price n)
    (detach_lv lv n) (l1 ++ l2)) as (_ & -> & _).
  { apply NoDup_cons in ND as [Hi ND]. apply NoDup_app in ND as (ND & _).
    apply level_detach; [| |done|].
    - rewrite <- Permutation_middle. apply NoDup_cons. split; [|done].
      intros H. apply Hi, elem_of_app. by left.
    - intros H. by apply Hk in H as [].
    - intros j Hj. apply HU; [by apply Hk in Hj as [Hj _]; lia|].
      intros ->. apply Hi, elem_of_app. by left. }
  destruct (l1 ++ l2) as [|y l] eqn:E; [done|]. rewrite bool_decide_eq_false_2 by done.
  simpl. apply Z.eqb_neq, Hk. constructor.
Qed.

(** The removal of one order is the removal from its queue. *)
Lemma remove_refines : no_empty_level g ->
  exists g', Rep b' g' /\ no_empty_level g' /\
    absb b' g' = spec_remove (nd_side n) (nd_id n) (absb b g) /\
    S (length (all_idx g')) = length (all_idx g).
Proof.
  intros HE. destruct (locate b g HR idx Hin) as (m1 & l1 & l2 & m2 & Hg & Hres).
  fold n in Hg, Hres. destruct (remove_level _ _ _ _ Hg) as (lv & Hlk & Hhd & HU).
  pose proof (remove_eq b idx lv Hlk) as Eb. cbv zeta in Eb. fold n b' in Eb.
  rewrite Hhd in Eb.
  set (s := nd_side n) in *. set (px := nd_price n) in *.
  set (m' := if bool_decide (l1 ++ l2 = []) then m1 ++ m2 else m1 ++ (px, l1 ++ l2) :: m2).
  assert (nodes_ b' = set_node (unlinked_nodes (nodes_ b) n) idx Node0) as Ens by (by rewrite Eb).
  assert (length (nodes_ b') = length (nodes_ b)) as Hlen
    by (by rewrite Ens, length_set_node, length_unlinked_nodes).
  rewrite <- Ens in HU.
  assert (idxs m' = idxs m1 ++ (l1 ++ l2) ++ idxs m2) as Hm'.
  { unfold m'. case_bool_decide as D; [by rewrite D, idxs_app|by rewrite idxs_app, idxs_cons]. }
  assert (Rep b' (upd g s m')) as HR'.
  { eapply (rep_detach b g s m1 m2 px l1 l2 idx HR Hg b' HU); [done|by rewrite Eb..| |done|].
    - rewrite Eb. by destruct s.
    - destruct (detach_side b g s m1 m2 px l1 l2 idx HR Hg b' HU) as (lv' & Hlk' & _ & S1 & S2).
      rewrite Hlk in Hlk'. injection Hlk' as <-.
      assert (levels b' s = if bool_decide (l1 ++ l2 = [])
        then sm_delete (before s) px (levels b s)
        else sm_insert (before s) px (detach_lv lv n) (levels b s)) as ->
        by (rewrite Eb; by destruct s).
      unfold m'. by case_bool_decide. }
  exists (upd g s m'). split_and!; [done| | |].
  - apply no_empty_upd; [done|]. pose proof (HE s) as Hs. rewrite Hg in Hs.
    unfold m'. case_bool_decide; [by eapply no_empty_drop|by eapply no_empty_put].
  - unfold spec_remove. rewrite sb_side_absb. change (nd_id n) with (nd_id (node_at (nodes_ b) idx)).
    rewrite (queue_remove b g HR s _ _ _ _ _ _ Hg).
    pose proof (detach_core b g s m1 m2 px l1 l2 idx HR Hg b' HU) as HC.
    rewrite (absb_upd b b' g s m'); [|by rewrite Eb|done|by rewrite Eb..|].
    + unfold queue at 1. rewrite Hm'. f_equal. apply order_at_ext. intros j Hj. apply HC.
      rewrite !elem_of_app in *. tauto.
    + apply queue_ext. intros j Hj. apply HC. rewrite !elem_of_app. tauto.
  - rewrite all_idx_upd, Hm', (detach_used g s m1 m2 px l1 l2 idx Hg). simpl.
    rewrite !length_app. lia.
Qed.
End Remove.

(** ** Filling the maker at the head of a level *)

Lemma level_at_set b s px lv :
  level_at (set_level b s px lv) s px = lv.
Proof.
  unfold level_at, set_level. rewrite levels_set_eq.
  by rewrite (sm_lookup_insert_eq (P := fun _ => True)) by (done || apply keys_any).
Qed.

Lemma set_level_twice b s px lv lv' :
  levels (set_level (set_level b s px lv) s px lv') s =
  sm_insert (before s) px lv' (levels b s).
Proof.
  unfold set_level. rewrite !levels_set_eq.
  by rewrite (sm_insert_insert (P := fun _ => True)).
Qed.

Section Fill.
Context (b : Book) (s : Side) (px : Price) (taker : OrderRequest) (remaining : Quantity).
Context (lv : Level) (Hlk : sm_lookup (before s) px (levels b s) = Some lv).
Let i := lv_head lv.
Let n := node_at (nodes_ b) i.
Let fill := Z.min remaining (nd_remaining n).
Context (Hi : 0 <= i < Z.of_nat (length (nodes_ b))).
Context (Hrem : 0 < remaining < 2 ^ 32) (Hn : 0 < nd_remaining n < 2 ^ 32).
Let left := nd_remaining n - fill.

(** The two handler calls of a fill. *)
Definition fill_outbox (sym : SymbolId) (o : Outbox) : Outbox :=
  push_report sym (nd_id n) (if left =? 0 then Filled else PartiallyFilled) left RejectNone
    (push_trade sym (nd_id n) taker (nd_price n) fill o).

Lemma fill_level_at : level_at b s px = lv.
Proof. unfold level_at. by rewrite Hlk. Qed.

Lemma fill_node :
  node_at (set_remaining (nodes_ b) i (u32 (nd_remaining n - fill))) i =
  {| nd_id := nd_id n; nd_client_id := nd_client_id n; nd_price := nd_price n;
     nd_remaining := left; nd_prev := nd_prev n; nd_next := nd_next n;
     nd_side := nd_side n; nd_active := nd_active n |}.
Proof.
  unfold set_remaining. rewrite node_at_set, decide_True by (done || lia).
  fold n. unfold left. rewrite u32_small; [done|]. unfold in_u32. lia.
Qed.

Let r := reduce_maker s px taker fill i b.

Lemma reduce_eq :
  nodes_ r = set_remaining (nodes_ b) i left /\ free_list_ r = free_list_ b /\
  by_id_ r = by_id_ b /\ active_count_ r = active_count_ b /\
  levels r (opposite s) = levels b (opposite s) /\
  levels r s = sm_insert (before s) px (shrink_lv lv fill) (levels b s) /\
  symbol_ r = symbol_ b /\ stp_policy_ r = stp_policy_ b /\
  outbox_ r = fill_outbox (symbol_ b) (outbox_ b).
Proof.
  assert (u32 (nd_remaining n - fill) = left) as Hl
    by (unfold left; apply u32_small; unfold in_u32; lia).
  unfold r, reduce_maker. fold n. pose proof fill_node as HN. rewrite !Hl in *.
  set (b1 := set_nodes b (set_remaining (nodes_ b) i left)).
  assert (level_at b1 s px = lv) as -> by (rewrite <- fill_level_at; by destruct s).
  fold (shrink_lv lv fill). set (b2 := set_level b1 s px (shrink_lv lv fill)).
  assert (nodes_ b2 = set_remaining (nodes_ b) i left) as -> by (by destruct s).
  rewrite HN. unfold emit_report, emit_trade. simpl. fold left.
  split_and!; by destruct s.
Qed.

Context (g : ghost) (l : list Z) (m2 : smap Price (list Z)).
Context (HR : Rep b g) (Hg : g s = (px, i :: l) :: m2).

Lemma fill_level_ok : level_ok (nodes_ b) px lv (i :: l).
Proof.
  pose proof (rep_side _ _ HR s) as HS. rewrite Hg in HS.
  destruct (side_level _ _ _ [] _ _ _ HS) as (n1 & lv0 & n2 & _ & _ & HL & _ & Hlk' & _).
  rewrite Hlk in Hlk'. by injection Hlk' as <-.
Qed.

(** A partial fill resizes the maker where it is. *)
Lemma fill_partial : 0 < left ->
  Rep r g /\
  absb r g = sb_set_outbox (sb_set_side (absb b g) s
    (set_qty (order_at (nodes_ b) i) left :: (order_at (nodes_ b) <$> l) ++ queue (nodes_ b) m2))
    (fill_outbox (symbol_ b) (outbox_ b)).
Proof.
  intros Hleft. destruct reduce_eq as (E1 & E2 & E3 & E4 & E5 & E6 & E7 & E8 & E9).
  assert (Rep r g) as HR'.
  { eapply (rep_resize b g s [] m2 px [] l i fill HR Hg); try done.
    fold n. unfold left in Hleft. lia. }
  split; [done|].
  pose proof (detach_nodup b g s [] m2 px [] l i HR Hg) as ND.
  pose proof (detach_used g s [] m2 px [] l i Hg) as HU.
  apply NoDup_cons in ND as [Hni _].
  assert (forall j, j ∈ l ++ (idxs m2 ++ idxs (g (opposite s))) ->
    core (node_at (nodes_ r) j) = core (node_at (nodes_ b) j)) as HC.
  { intros j Hj. rewrite E1. apply (resize_links b g s [] m2 px [] l i fill HR Hg).
    - rewrite HU. simpl. rewrite elem_of_cons. right. exact Hj.
    - intros Eij. apply Hni. by rewrite Eij. }
  unfold absb, sb_set_side, sb_set_outbox. rewrite E7, E8, E9.
  assert (length (nodes_ r) = length (nodes_ b)) as -> by (by rewrite E1, length_set_remaining).
  assert (queue (nodes_ r) (g (opposite s)) = queue (nodes_ b) (g (opposite s))) as Q1.
  { apply queue_ext. intros j Hj. apply HC. rewrite !elem_of_app. tauto. }
  assert (queue (nodes_ r) (g s) = set_qty (order_at (nodes_ b) i) left ::
    (order_at (nodes_ b) <$> l) ++ queue (nodes_ b) m2) as Q2.
  { rewrite Hg, queue_cons, fmap_cons, <- app_comm_cons. f_equal; [|f_equal].
    - rewrite E1. by rewrite order_at_resized.
    - apply order_at_ext. intros j Hj. apply HC. rewrite elem_of_app. tauto.
    - apply queue_ext. intros j Hj. apply HC. rewrite !elem_of_app. tauto. }
  destruct s; simpl in *; by rewrite Q1, Q2.
Qed.

Let b' := drop_maker s px i r.

Lemma drop_eq : left = 0 ->
  nodes_ b' = set_node (if negb (nd_next n =? npos)
    then set_prev (set_remaining (nodes_ b) i left) (nd_next n) npos
    else set_remaining (nodes_ b) i left) i Node0 /\
  free_list_ b' = push_back (free_list_ b) i /\ by_id_ b' = delete (nd_id n) (by_id_ b) /\
  active_count_ b' = u64 (active_count_ b - 1) /\
  levels b' (opposite s) = levels b (opposite s) /\
  levels b' s = sm_insert (before s) px (detach_lv lv n) (levels b s) /\
  symbol_ b' = symbol_ b /\ stp_policy_ b' = stp_policy_ b /\
  outbox_ b' = fill_outbox (symbol_ b) (outbox_ b).
Proof.
  intros Hleft. destruct reduce_eq as (E1 & E2 & E3 & E4 & E5 & E6 & E7 & E8 & E9).
  assert (u32 (nd_remaining n - fill) = left) as Hl
    by (unfold left; apply u32_small; unfold in_u32; lia).
  pose proof fill_node as HN. rewrite Hl in HN.
  destruct fill_level_ok as (HD & _ & _). apply (dseg_mid _ _ []) in HD as [Hp _].
  fold n in Hp. simpl in Hp.
  assert (level_at r s px = shrink_lv lv fill) as Hlv.
  { unfold level_at. rewrite E6.
    by rewrite (sm_lookup_insert_eq (P := fun _ => True)) by (done || apply keys_any). }
  unfold b', drop_maker. rewrite E1, HN. simpl. rewrite Hlv. simpl.
  split_and!; try (destruct s; simpl in *; congruence).
  transitivity (sm_insert (before s) px (detach_lv lv n) (levels r s)).
  - unfold detach_lv. rewrite Hp. simpl.
    replace (nd_remaining n) with fill by (unfold left in Hleft; lia). by destruct s.
  - rewrite E6. by apply (sm_insert_insert (P := fun _ => True)).
Qed.

(** A full fill detaches the head of the level and leaves the level in the map,
    possibly empty. *)
Lemma fill_full : left = 0 ->
  Rep b' (upd g s ((px, l) :: m2)) /\
  absb b' (upd g s ((px, l) :: m2)) = sb_set_outbox (sb_set_side (absb b g) s
    ((order_at (nodes_ b) <$> l) ++ queue (nodes_ b) m2))
    (fill_outbox (symbol_ b) (outbox_ b)).
Proof.
  intros Hleft. destruct (drop_eq Hleft) as (E1 & E2 & E3 & E4 & E5 & E6 & E7 & E8 & E9).
  destruct fill_level_ok as (HD & _ & _). apply (dseg_mid _ _ []) in HD as [_ Hx].
  fold n in Hx. simpl in Hx.
  assert (length (nodes_ b') = length (nodes_ b)) as Hlen.
  { rewrite E1. case_if; by autorewrite with nodes. }
  assert (forall j, 0 <= j -> j <> i -> unlinked (nodes_ b) (nodes_ b') [] l j) as HU.
  { intros j Hj Hne.
    destruct (set_remaining_at (nodes_ b) i Hi left j Hj) as (A1 & A2 & A3).
    destruct (unlink_nodes (set_remaining (nodes_ b) i left) [] l i npos (nd_next n)) with (j := j)
      as (U1 & U2 & U3); [done|done|by rewrite length_set_remaining| |done|done|].
    - intros k Hk. rewrite length_set_remaining. apply (used_range b g HR).
      eapply (in_level g s [] px (i :: l)); [done|]. by constructor.
    - rewrite E1. unfold unlinked. simpl in *. rewrite U1, U2, U3, A1, A2.
      split_and!; [done..|]. by apply A3. }
  pose proof (detach_core b g s [] m2 px [] l i HR Hg b' HU) as HC.
  assert (Rep b' (upd g s ((px, l) :: m2))) as HR'.
  { eapply (rep_detach b g s [] m2 px [] l i HR Hg b' HU); try done.
    destruct (detach_side b g s [] m2 px [] l i HR Hg b' HU) as (lv' & Hlk' & _ & S1 & _).
    rewrite Hlk in Hlk'. injection Hlk' as <-. rewrite E6. exact S1. }
  split; [done|].
  unfold absb, sb_set_side, sb_set_outbox. rewrite E7, E8, E9, Hlen.
  assert (queue (nodes_ b') (g (opposite s)) = queue (nodes_ b) (g (opposite s))) as Q1.
  { apply queue_ext. intros j Hj. apply HC. rewrite !elem_of_app. tauto. }
  assert (queue (nodes_ b') ((px, l) :: m2) =
    (order_at (nodes_ b) <$> l) ++ queue (nodes_ b) m2) as Q2.
  { rewrite queue_cons. f_equal; [apply order_at_ext|apply queue_ext];
      intros j Hj; apply HC; rewrite !elem_of_app; tauto. }
  destruct s; simpl in *; rewrite upd_eq, upd_ne, Q1, Q2 by done; done.
Qed.
End Fill.

(** ** The matching loops *)

(** [b'] differs from [b] only in the queue of one side and in the outbox. *)
Definition frame (s : Side) (b : Book) (g : ghost) (b' : Book) (g' : ghost) : Prop :=
  Rep b' g' /\
  absb b' g' = sb_set_outbox (sb_set_side (absb b g) s (queue (nodes_ b') (g' s))) (outbox_ b').

Lemma frame_trans s b g b1 g1 b2 g2 :
  frame s b g b1 g1 -> frame s b1 g1 b2 g2 -> frame s b g b2 g2.
Proof.
  intros [_ E1] [R2 E2]. split; [done|]. rewrite E2, E1.
  unfold sb_set_outbox, sb_set_side. by destruct s.
Qed.

Lemma frame_refl s b g : Rep b g -> frame s b g b g.
Proof.
  intros HR. split; [done|]. rewrite <- sb_side_absb. by destruct s.
Qed.

Lemma frame_emit s b g b' g' id st rem reason :
  frame s b g b' g' -> frame s b g (emit_report id st rem reason b') g'.
Proof.
  intros [R E]. split; [by apply rep_emit|]. rewrite absb_emit, E. unfold sb_report.
  assert (symbol_ b' = symbol_ b) as ES by (change (sb_symbol (absb b' g') = symbol_ b); by rewrite E).
  unfold emit_report, set_outbox. simpl. by rewrite ES.
Qed.

Lemma frame_fields s b g b' g' : frame s b g b' g' ->
  symbol_ b' = symbol_ b /\ stp_policy_ b' = stp_policy_ b /\
  length (nodes_ b') = length (nodes_ b).
Proof. intros [_ E]. unfold absb in E. injection E as E1 E2 E3. by split_and!. Qed.

Lemma rep_level b g s px l m2 :
  Rep b g -> g s = (px, l) :: m2 ->
  exists lv, sm_lookup (before s) px (levels b s) = Some lv /\ level_at b s px = lv /\
    level_ok (nodes_ b) px lv l /\ (exists n2, levels b s = (px, lv) :: n2).
Proof.
  intros HR Hg. pose proof (rep_side _ _ HR s) as HS. rewrite Hg in HS.
  destruct (side_level _ _ _ [] _ _ _ HS) as (n1 & lv & n2 & Hl & R1 & HL & _ & Hlk & _).
  inversion R1; subst n1. exists lv. split_and!; [done|by unfold level_at; rewrite Hlk|done|].
  by exists n2.
Qed.

Lemma rep_head b g s px l m2 i :
  Rep b g -> g s = (px, l) :: m2 -> head l = Some i ->
  lv_head (level_at b s px) = i /\ (i =? npos) = false /\
  0 <= i < Z.of_nat (length (nodes_ b)) /\ resident (nodes_ b) s px i /\ i ∈ all_idx g.
Proof.
  intros HR Hg Hh. destruct (rep_level _ _ _ _ _ _ HR Hg) as (lv & _ & -> & (_ & Hd & _) & _).
  assert (i ∈ l) as Hi by (destruct l; simplify_eq/=; constructor).
  assert (i ∈ all_idx g) as Ha by (by eapply (in_level g s [])).
  destruct (store_range _ _ _ _ (rep_store _ _ HR) Ha) as [H1 H2].
  rewrite Hd, Hh. split_and!; try done; try lia.
  destruct (rep_side _ _ HR s) as (_ & _ & HN). apply (HN px l); [rewrite Hg; constructor|done].
Qed.

Lemma rep_no_head b g s px m2 :
  Rep b g -> g s = (px, []) :: m2 -> lv_head (level_at b s px) = npos.
Proof. intros HR Hg. by destruct (rep_level _ _ _ _ _ _ HR Hg) as (lv & _ & -> & (_ & Hd & _) & _). Qed.

Lemma spec_match_self sym policy taker rem m q' o :
  0 < rem -> crosses taker (o_price m) = true ->
  bool_decide (policy ≠ StpNone) && (o_client m =? req_client_id taker) = true ->
  spec_match sym policy taker rem (m :: q') o =
  match policy with
  | CancelNewest => (TakerCancelled, rem, m :: q',
      push_report sym (req_order_id taker) Cancelled rem RejectNone o)
  | CancelBoth => (TakerCancelled, rem, q',
      push_report sym (req_order_id taker) Cancelled rem RejectNone
        (push_report sym (o_id m) Cancelled (o_qty m) RejectNone o))
  | _ => spec_match sym policy taker rem q'
      (push_report sym (o_id m) Cancelled (o_qty m) RejectNone o)
  end.
Proof. intros H1 H2 H3. simpl. by rewrite (proj2 (Z.ltb_lt 0 rem) H1), H2, H3. Qed.

Section Matching.
Context (s : Side) (taker : OrderRequest).

Definition spec_on (b : Book) (g : ghost) (rem : Quantity) :=
  spec_match (symbol_ b) (stp_policy_ b) taker rem (queue (nodes_ b) (g s)) (outbox_ b).

(** The self-trade test of the loop. *)
Definition self_match (b : Book) (i : Z) : bool :=
  bool_decide (stp_policy_ b ≠ StpNone) &&
  (nd_client_id (node_at (nodes_ b) i) =? req_client_id taker).

(** The body of the inner loop that fills the maker. *)
Lemma fill_step b g px i l m2 rem :
  Rep b g -> g s = (px, i :: l) :: m2 -> 0 < rem < 2 ^ 32 -> crosses taker px = true ->
  self_match b i = false ->
  exists rem' b' g' l', fill_maker s px taker rem b = (rem', b') /\
    frame s b g b' g' /\ g' s = (px, l') :: m2 /\ g' (opposite s) = g (opposite s) /\
    (l' = l \/ l' = i :: l /\ rem' = 0) /\ 0 <= rem' <= rem /\
    spec_on b g rem = spec_on b' g' rem'.
Proof.
  intros HR Hg Hrem Hx Hself. unfold fill_maker.
  destruct (rep_level _ _ _ _ _ _ HR Hg) as (lv & Hlk & Hlv & HL & _).
  destruct (rep_head _ _ _ _ _ _ i HR Hg eq_refl) as (Hh & _ & Hi & Hn & _).
  rewrite Hlv in *. subst i. pose proof Hn as (_ & _ & Hpx & Hn').
  set (n := node_at (nodes_ b) (lv_head lv)) in *.
  set (left := nd_remaining n - Z.min rem (nd_remaining n)).
  pose proof (reduce_eq b s px taker rem lv Hlk Hi Hrem Hn') as (E1 & _).
  fold n left in E1. rewrite E1. fold left. rewrite (u32_small (rem - _)) by (unfold in_u32; lia).
  assert (nd_remaining (node_at (set_remaining (nodes_ b) (lv_head lv) left) (lv_head lv)) = left)
    as -> by (unfold set_remaining; rewrite node_at_set, decide_True by (done || lia); done).
  assert (forall o q', spec_match (symbol_ b) (stp_policy_ b) taker rem
    (order_at (nodes_ b) (lv_head lv) :: q') o =
    let o' := fill_outbox b taker rem lv (symbol_ b) o in
    if left =? 0
    then spec_match (symbol_ b) (stp_policy_ b) taker (rem - Z.min rem (nd_remaining n)) q' o'
    else (Completed, rem - Z.min rem (nd_remaining n),
          set_qty (order_at (nodes_ b) (lv_head lv)) left :: q', o')) as HS.
  { intros o q'. simpl. fold n. rewrite Hpx, Hx, (proj2 (Z.ltb_lt 0 rem)) by lia. simpl.
    unfold self_match in Hself. fold n in Hself. rewrite Hself. unfold fill_outbox.
    fold n left. by rewrite Hpx. }
  unfold spec_on. rewrite Hg, queue_cons, fmap_cons, <- app_comm_cons, HS.
  destruct (Z.eqb_spec left 0) as [El|El].
  - destruct (fill_full b s px taker rem lv Hlk Hi Hrem Hn' g l m2 HR Hg El) as [R' A'].
    destruct (drop_eq b s px taker rem lv Hlk Hi Hrem Hn' g l m2 HR Hg El)
      as (_ & _ & _ & _ & _ & _ & F1 & F2 & F3).
    fold n in R', A', F1, F2, F3.
    set (b' := drop_maker _ _ _ _) in *. eexists _, b', (upd g s ((px, l) :: m2)), l.
    assert (queue (nodes_ b') (upd g s ((px, l) :: m2) s) =
      (order_at (nodes_ b) <$> l) ++ queue (nodes_ b) m2) as EQ.
    { rewrite <- sb_side_absb, A'. by destruct s. }
    split; [reflexivity|]. split; [split; [done|]|split_and!].
    + by rewrite A', EQ, F3.
    + apply upd_eq.
    + by apply upd_ne; destruct s.
    + by left.
    + lia.
    + lia.
    + cbv zeta. rewrite F1, F2, F3, EQ. done.
  - destruct (fill_partial b s px taker rem lv Hlk Hi Hrem Hn' g l m2 HR Hg) as [R' A'];
      [fold n left; lia|].
    pose proof (reduce_eq b s px taker rem lv Hlk Hi Hrem Hn')
      as (_ & _ & _ & _ & _ & _ & F1 & F2 & F3).
    fold n left in R', A', F1, F2, F3.
    set (b' := reduce_maker _ _ _ _ _ _) in *. eexists _, b', g, (lv_head lv :: l).
    assert (queue (nodes_ b') (g s) = set_qty (order_at (nodes_ b) (lv_head lv)) left ::
      (order_at (nodes_ b) <$> l) ++ queue (nodes_ b) m2) as EQ.
    { rewrite <- sb_side_absb, A'. by destruct s. }
    assert (rem - Z.min rem (nd_remaining n) = 0) as Hrem0 by lia.
    split; [reflexivity|]. split; [split; [done|]|split_and!].
    + by rewrite A', EQ, F3.
    + done.
    + done.
    + by right.
    + lia.
    + lia.
    + cbv zeta. rewrite F1, F2, F3, EQ, Hrem0. done.
Qed.

(** The removal of a resting order of the taker's own client. *)
Lemma remove_head b g px i l m2 :
  Rep b g -> no_empty_level g -> g s = (px, i :: l) :: m2 ->
  let b' := remove_without_report i b in
  exists g', frame s b g b' g' /\ no_empty_level g' /\ outbox_ b' = outbox_ b /\
    queue (nodes_ b') (g' s) = (order_at (nodes_ b) <$> l) ++ queue (nodes_ b) m2 /\
    S (length (all_idx g')) = length (all_idx g).
Proof.
  intros HR HE Hg b'.
  destruct (rep_head _ _ _ _ _ _ i HR Hg eq_refl) as (_ & _ & _ & (_ & Hs & _) & Hin).
  destruct (remove_refines b g i HR Hin HE) as (g' & R' & E' & A & L).
  fold b' in R', A. unfold spec_remove in A. rewrite Hs in A.
  assert (queue (nodes_ b') (g' s) =
    remove_order (nd_id (node_at (nodes_ b) i)) (sb_side (absb b g) s)) as E1.
  { rewrite <- sb_side_absb, A. by destruct s. }
  assert (outbox_ b' = outbox_ b) as EO.
  { change (sb_outbox (absb b' g') = sb_outbox (absb b g)). by rewrite A. }
  exists g'. split_and!; try done.
  - split; [done|]. rewrite A, EO, E1. by destruct s.
  - rewrite E1, sb_side_absb, (queue_remove b g HR s [] px [] i l m2 Hg). simpl. unfold queue.
    by rewrite fmap_app.
Qed.

(** What the inner loop returns, against the specification's run. *)
Definition level_result px m2 b g rem out rem' b' g' : Prop :=
  frame s b g b' g' /\ 0 <= rem' <= rem /\
  match out with
  | LevelEnd => exists l', g' s = (px, l') :: m2 /\ no_empty_level (upd g' s m2) /\
      (rem' = 0 \/ l' = []) /\ g' (opposite s) = g (opposite s) /\
      spec_on b g rem = spec_on b' g' rem'
  | RestartOuter => no_empty_level g' /\ (length (all_idx g') < length (all_idx g))%nat /\
      spec_on b g rem = spec_on b' g' rem'
  | ReturnCancelled => no_empty_level g' /\
      spec_on b g rem = (TakerCancelled, rem', queue (nodes_ b') (g' s), outbox_ b')
  end.

Lemma level_result_trans px m2 b g rem b1 g1 rem1 out rem' b' g' :
  frame s b g b1 g1 -> rem1 <= rem -> g1 (opposite s) = g (opposite s) ->
  (length (all_idx g1) <= length (all_idx g))%nat ->
  spec_on b g rem = spec_on b1 g1 rem1 ->
  level_result px m2 b1 g1 rem1 out rem' b' g' -> level_result px m2 b g rem out rem' b' g'.
Proof.
  intros F1 Hr Ho HL HS (F2 & Hr' & H). split; [by eapply frame_trans|]. split; [lia|].
  rewrite HS. destruct out; deconj; [|split_and!; try done; lia|done].
  eexists. split_and!; try done. congruence.
Qed.

Lemma no_empty_cons g px i l m2 :
  g s = (px, i :: l) :: m2 -> no_empty_level (upd g s m2) -> no_empty_level g.
Proof.
  intros Hg HE s' k Hk. apply (HE s' k). unfold upd. case_decide as D; [|done]. subst s'.
  rewrite Hg in Hk. apply elem_of_cons in Hk as [[=]|Hk]. done.
Qed.

(** A self-trade ends the inner loop. *)
Lemma self_step fuel b g px i l m2 rem :
  Rep b g -> no_empty_level g -> g s = (px, i :: l) :: m2 -> 0 < rem < 2 ^ 32 ->
  crosses taker px = true -> self_match b i = true ->
  exists out rem' b' g', match_level (S fuel) s px taker rem b = (Ok (out, rem'), b') /\
    level_result px m2 b g rem out rem' b' g'.
Proof.
  intros HR HE Hg Hrem Hx Hself.
  destruct (rep_head _ _ _ _ _ _ i HR Hg eq_refl) as (Hh & Hi & _ & Hn & _).
  destruct Hn as (_ & _ & Hpx & _).
  destruct (remove_head b g px i l m2 HR HE Hg) as (g' & F' & E' & EO & EQ & EL).
  pose proof (frame_fields _ _ _ _ _ F') as (F1 & F2 & _).
  assert (spec_on b g rem = spec_match (symbol_ b) (stp_policy_ b) taker rem
    (order_at (nodes_ b) i :: (order_at (nodes_ b) <$> l) ++ queue (nodes_ b) m2) (outbox_ b))
    as HS by (unfold spec_on; by rewrite Hg, queue_cons, fmap_cons, <- app_comm_cons).
  rewrite spec_match_self in HS by (try (by rewrite <- Hpx in Hx); try lia; exact Hself).
  unfold self_match in Hself. unfold level_result. simpl.
  rewrite Hh, Hi, Hself, (proj2 (Z.ltb_lt 0 rem)) by lia. simpl.
  destruct (stp_policy_ b) eqn:EP; simpl in *; [done|..].
  - do 4 eexists. split; [reflexivity|]. split_and!; [by apply frame_emit, frame_refl|lia|lia|done|].
    by rewrite HS, Hg, queue_cons, fmap_cons.
  - rewrite F2. simpl. do 4 eexists. split; [reflexivity|].
    split_and!; [by apply frame_emit|lia|lia|done|lia|].
    rewrite HS. unfold spec_on. simpl. by rewrite F1, F2, EO, EQ.
  - rewrite F2. simpl. do 4 eexists. split; [reflexivity|].
    split_and!; [by do 2 apply frame_emit|lia|lia|done|].
    rewrite HS. simpl. by rewrite F1, EO, EQ.
Qed.

Lemma match_level_end fuel b g px l m2 rem :
  Rep b g -> g s = (px, l) :: m2 -> no_empty_level (upd g s m2) -> 0 <= rem ->
  rem = 0 \/ l = [] ->
  exists out rem' b' g', match_level (S fuel) s px taker rem b = (Ok (out, rem'), b') /\
    level_result px m2 b g rem out rem' b' g'.
Proof.
  intros HR Hg HE Hrem Hend. exists LevelEnd, rem, b, g. split.
  - simpl. destruct Hend as [->|El]; [done|]. subst l.
    rewrite (rep_no_head _ _ _ _ _ HR Hg). by rewrite andb_false_r.
  - split_and!; [by apply frame_refl|lia|lia|]. exists l. by split_and!.
Qed.

Lemma all_idx_same g g' :
  g' (opposite s) = g (opposite s) -> (length (idxs (g' s)) <= length (idxs (g s)))%nat ->
  (length (all_idx g') <= length (all_idx g))%nat.
Proof. intros H1 H2. rewrite !(all_idx_perm _ s), H1, !length_app. lia. Qed.

Lemma no_empty_other g g' m2 :
  g' (opposite s) = g (opposite s) -> no_empty_level (upd g s m2) ->
  no_empty_level (upd g' s m2).
Proof.
  intros Ho HE s' k Hk. apply (HE s' k). unfold upd in *. case_decide; [done|].
  assert (s' = opposite s) as -> by (by destruct s, s'). by rewrite <- Ho.
Qed.

(** The inner loop follows the specification until the level is used up, the
    taker is filled, or a self-trade is prevented. *)
Lemma match_level_ok fuel b g px l m2 rem :
  Rep b g -> g s = (px, l) :: m2 -> no_empty_level (upd g s m2) ->
  (length l < fuel)%nat -> 0 <= rem < 2 ^ 32 -> crosses taker px = true ->
  exists out rem' b' g', match_level fuel s px taker rem b = (Ok (out, rem'), b') /\
    level_result px m2 b g rem out rem' b' g'.
Proof.
  revert b g l rem. induction fuel as [|fuel IH]; intros b g l rem HR Hg HE Hf Hrem Hx; [lia|].
  destruct (decide (rem = 0)) as [Hz|Hz]; [eapply match_level_end; eauto with lia|].
  destruct l as [|i l]; [eapply match_level_end; eauto with lia|].
  pose proof (no_empty_cons _ _ _ _ _ Hg HE) as HE'.
  destruct (self_match b i) eqn:Hself; [eapply self_step; eauto with lia|].
  destruct (fill_step b g px i l m2 rem HR Hg) as
    (rem1 & b1 & g1 & l1 & Ef & F1 & Hg1 & Ho1 & Hl1 & Hr1 & HS1); [lia|done..|].
  destruct (rep_head _ _ _ _ _ _ i HR Hg eq_refl) as (Hh & Hi & _).
  assert (match_level (S fuel) s px taker rem b = match_level fuel s px taker rem1 b1) as ->.
  { cbn [match_level]. cbv zeta. rewrite Hh, Hi, (proj2 (Z.ltb_lt 0 rem)) by lia.
    unfold self_match in Hself. rewrite Hself, Ef. done. }
  assert (no_empty_level (upd g1 s m2)) as HE1 by (by eapply no_empty_other).
  assert (length (all_idx g1) <= length (all_idx g))%nat as HL.
  { apply all_idx_same; [done|]. rewrite Hg, Hg1, !idxs_cons, !length_app. simpl.
    destruct Hl1 as [-> | [-> _]]; simpl; lia. }
  assert (exists out rem' b' g', match_level fuel s px taker rem1 b1 = (Ok (out, rem'), b') /\
    level_result px m2 b1 g1 rem1 out rem' b' g') as (out & rem' & b' & g' & E & H).
  { destruct Hl1 as [-> | [-> ->]]; [apply (IH b1 g1 l rem1); try done; [apply F1|simpl in *; lia..]|].
    destruct fuel; [simpl in *; lia|].
    apply (match_level_end fuel b1 g1 px (i :: l)); [apply F1|done|done|lia|by left]. }
  exists out, rem', b', g'. split; [done|].
  apply (level_result_trans px m2 b g rem b1 g1 rem1); try done; lia.
Qed.

(** A level that the inner loop emptied is erased. *)
Lemma erase_level b g px m2 :
  Rep b g -> g s = (px, []) :: m2 -> no_empty_level (upd g s m2) ->
  let b' := set_levels b s (sm_delete (before s) px (levels b s)) in
  frame s b g b' (upd g s m2) /\ (forall rem, spec_on b g rem = spec_on b' (upd g s m2) rem) /\
  all_idx (upd g s m2) ≡ₚ all_idx g.
Proof.
  intros HR Hg HE b'. assert (queue (nodes_ b') m2 = queue (nodes_ b) (g s)) as EQ
    by (rewrite Hg, queue_cons; by destruct s).
  assert (all_idx (upd g s m2) ≡ₚ all_idx g) as EP
    by (by rewrite all_idx_upd, (all_idx_perm g s), Hg, idxs_cons).
  split_and!; [split| |done].
  - pose proof (rep_side _ _ HR s) as HS. rewrite Hg in HS.
    pose proof (rep_store _ _ HR) as H2. pose proof (rep_index _ _ HR) as H3.
    pose proof (rep_count _ _ HR) as H4.
    assert (nodes_ b' = nodes_ b) as E1 by (by destruct s). split; rewrite ?E1.
    + intros s'. destruct (decide (s' = s)) as [->|Hs].
      * rewrite upd_eq. unfold b'. rewrite levels_set_eq.
        apply (side_drop (nodes_ b) (nodes_ b) s (levels b s) [] px [] m2); [done|].
        apply Forall_forall. by intros.
      * rewrite upd_ne by done. unfold b'. rewrite levels_set_ne by done. apply (rep_side _ _ HR).
    + by eapply (store_perm _ (all_idx g) _ (free_list_ b)); [rewrite EP|].
    + by eapply index_ok_perm.
    + rewrite EP. by destruct s.
  - rewrite upd_eq, EQ, (absb_upd b b' g s m2) by (done || by destruct s).
    rewrite EQ. by destruct s.
  - intros rem. unfold spec_on. rewrite upd_eq, EQ. by destruct s.
Qed.

(** What the outer loop does with the level after the inner loop. *)
Lemma close_level b g px l m2 :
  Rep b g -> g s = (px, l) :: m2 -> no_empty_level (upd g s m2) ->
  let b' := if lv_head (level_at b s px) =? npos
    then set_levels b s (sm_delete (before s) px (levels b s)) else b in
  exists g', frame s b g b' g' /\ no_empty_level g' /\
    (forall rem, spec_on b g rem = spec_on b' g' rem) /\ all_idx g' ≡ₚ all_idx g.
Proof.
  intros HR Hg HE b'. destruct l as [|i l].
  - unfold b'. rewrite (rep_no_head _ _ _ _ _ HR Hg). simpl.
    destruct (erase_level b g px m2 HR Hg HE) as (H1 & H2 & H3). by exists (upd g s m2).
  - unfold b'. destruct (rep_head _ _ _ _ _ _ i HR Hg eq_refl) as (-> & -> & _).
    exists g. split_and!; [by apply frame_refl|by eapply no_empty_cons|done|done].
Qed.

Definition outer_result b g rem m rem' b' g' : Prop :=
  frame s b g b' g' /\ no_empty_level g' /\ 0 <= rem' <= rem /\
  spec_on b g rem = (m, rem', queue (nodes_ b') (g' s), outbox_ b').

Lemma outer_result_trans b g rem b1 g1 rem1 m rem' b' g' :
  frame s b g b1 g1 -> rem1 <= rem -> spec_on b g rem = spec_on b1 g1 rem1 ->
  outer_result b1 g1 rem1 m rem' b' g' -> outer_result b g rem m rem' b' g'.
Proof.
  intros F1 Hr HS (F2 & HE & Hr' & H). split; [by eapply frame_trans|].
  split; [done|]. split; [lia|congruence].
Qed.

Lemma outer_stop b g rem :
  Rep b g -> no_empty_level g -> 0 <= rem ->
  rem = 0 \/ g s = [] \/ (exists px l m2, g s = (px, l) :: m2 /\ crosses taker px = false) ->
  outer_result b g rem Completed rem b g.
Proof.
  intros HR HE Hr Hstop. split_and!; [by apply frame_refl|done|lia|lia|].
  unfold spec_on. destruct (queue (nodes_ b) (g s)) as [|o q] eqn:EQ; [done|]. simpl.
  destruct Hstop as [->|[Hg|(px & l & m2 & Hg & Hx)]]; [done|by rewrite Hg in EQ|].
  destruct l as [|i l]; [exfalso; apply (HE s px); rewrite Hg; constructor|].
  destruct (rep_head _ _ _ _ _ _ i HR Hg eq_refl) as (_ & _ & _ & (_ & _ & Hpx & _) & _).
  rewrite Hg, queue_cons in EQ. injection EQ as <- _. simpl.
  by rewrite Hpx, Hx, orb_true_r.
Qed.

Lemma head_level_used (g : ghost) px (l : list Z) m2 :
  no_empty_level g -> g s = (px, l) :: m2 ->
  (0 < length l)%nat /\ length (all_idx g) = (length l + length (idxs m2 ++ idxs (g (opposite s))))%nat.
Proof.
  intros HE Hg. rewrite (all_idx_perm g s), Hg, idxs_cons, !length_app. split; [|lia].
  destruct l; simpl; [|lia]. exfalso. apply (HE s px). rewrite Hg. constructor.
Qed.

Definition outer_ok (fuel : nat) : Prop := forall b g rem,
  Rep b g -> no_empty_level g -> 0 <= rem < 2 ^ 32 -> (length (all_idx g) < fuel)%nat ->
  exists m rem' b' g', match_against fuel s taker rem b = (Ok (m, rem'), b') /\
    outer_result b g rem m rem' b' g'.

(** A round of the outer loop whose inner loop ended with its level. *)
Lemma outer_level_end fuel b g px l m2 rem rem1 b1 g1 :
  outer_ok fuel -> Rep b g -> no_empty_level g -> 0 <= rem < 2 ^ 32 ->
  (length (all_idx g) < S fuel)%nat -> g s = (px, l) :: m2 ->
  level_result px m2 b g rem LevelEnd rem1 b1 g1 ->
  let b2 := if lv_head (level_at b1 s px) =? npos
    then set_levels b1 s (sm_delete (before s) px (levels b1 s)) else b1 in
  exists m rem' b' g', match_against fuel s taker rem1 b2 = (Ok (m, rem'), b') /\
    outer_result b g rem m rem' b' g'.
Proof.
  intros IH HR HE Hrem Hf Hg (F1 & Hr1 & l' & Hg1 & HE1 & Hend & Ho & HS) b2.
  destruct (close_level b1 g1 px l' m2) as (g2 & F2 & HE2' & HS2 & HP); [apply F1|done|done|].
  fold b2 in F2, HS2. destruct (head_level_used g px l m2 HE Hg) as [Hl HU].
  assert (frame s b g b2 g2) as F by (by eapply frame_trans).
  assert (spec_on b g rem = spec_on b2 g2 rem1) as HSS by (by rewrite HS, HS2).
  assert (exists m rem' b' g', match_against fuel s taker rem1 b2 = (Ok (m, rem'), b') /\
    outer_result b2 g2 rem1 m rem' b' g') as (m & rem' & b' & g' & E & H).
  { destruct (decide (rem1 = 0)) as [->|Hz].
    - destruct fuel as [|fuel]; [lia|]. do 4 eexists. split; [done|].
      apply outer_stop; auto with lia. apply F.
    - destruct Hend as [?| ->]; [lia|]. apply IH; [apply F|done|lia|].
      rewrite HP, (all_idx_perm g1 s), Hg1, idxs_cons, Ho, app_nil_l.
      lia. }
  do 4 eexists. split; [done|]. by apply (outer_result_trans b g rem b2 g2 rem1); [|lia|..].
Qed.

(** The outer loop runs the specification; its fuel is the number of resting
    orders and one more, since each round takes at least one order out of the
    queue or is the last. *)
Lemma match_against_ok fuel : outer_ok fuel.
Proof.
  induction fuel as [|fuel IH]; intros b g rem HR HE Hrem Hf; [lia|].
  cbn [match_against]. destruct (0 <? rem) eqn:Hr; breflect; cbn [negb]; cycle 1.
  { do 4 eexists. split; [done|]. apply outer_stop; auto with lia. }
  destruct (g s) as [|[px l] m2] eqn:Hg.
  { assert (levels b s = []) as ->.
    { pose proof (rep_side _ _ HR s) as (H & _). rewrite Hg in H. by inversion H. }
    do 4 eexists. split; [done|]. apply outer_stop; auto with lia. }
  destruct (rep_level _ _ _ _ _ _ HR Hg) as (lv & _ & _ & _ & n2 & ->).
  destruct (crosses taker px) eqn:Hx; cbn [negb]; cycle 1.
  { do 4 eexists. split; [done|]. apply outer_stop; eauto 10 with lia. }
  assert (length l < S (length (nodes_ b)))%nat as Hl.
  { destruct (head_level_used g px l m2 HE Hg) as [_ HU].
    destruct (rep_store _ _ HR) as (_ & _ & H & _). rewrite length_app in H. lia. }
  assert (no_empty_level (upd g s m2)) as HE2.
  { apply no_empty_upd; [done|]. intros k Hk. apply (HE s k). rewrite Hg. by constructor. }
  destruct (match_level_ok (S (length (nodes_ b))) b g px l m2 rem HR Hg HE2 Hl Hrem Hx)
    as (out & rem1 & b1 & g1 & -> & H).
  destruct out; [by eapply outer_level_end| |].
  - destruct H as (F1 & Hr1 & HE1 & HL & HS).
    destruct (IH b1 g1 rem1) as (m & rem' & b' & g' & -> & H'); [apply F1|done|lia|lia|].
    do 4 eexists. split; [done|]. by apply (outer_result_trans b g rem b1 g1 rem1); [|lia|..].
  - destruct H as (F1 & Hr1 & HE1 & HS). do 4 eexists. split; [done|].
    exact (conj F1 (conj HE1 (conj Hr1 HS))).
Qed.
End Matching.
