(* ===== verification/BookCommands.v ===== *)
(** * Commands of the order book implement the price-time book

    The functional refinement of every member function: [rest] is [enqueue],
    validation and the queries read the queues, and [submit], [cancel],
    [replace], [reset] and [restore_resting_orders] end without exception with
    the result, the handler calls and the queues of [BookSpec.v]. *)

From S2P Require Import Prelude.
From S2P Require Import Types.
From S2P Require Import SortedMap.
From S2P Require Import OrderBook.
From S2P Require Import BookSpec.
From S2P Require Import BookFacts.
From S2P Require Import BookInv.
From S2P Require Import BookRefine.

(** ** Queues by level *)

Section Blocks.
Context (f : Z -> Order) (s : Side).

Definition priced (m : smap Price (list Z)) : Prop :=
  forall k l i, (k, l) ∈ m -> i ∈ l -> o_price (f i) = k.

Lemma priced_cons k l m :
  priced ((k, l) :: m) -> (forall i, i ∈ l -> o_price (f i) = k) /\ priced m.
Proof.
  intros H. split; [intros i; apply H; constructor|].
  intros k' l' i Hk. apply H. by constructor.
Qed.

Lemma enqueue_skip o q1 q2 :
  (forall x, x ∈ q1 -> before s (o_price o) (o_price x) = false) ->
  enqueue s o (q1 ++ q2) = q1 ++ enqueue s o q2.
Proof.
  induction q1 as [|x q1 IH]; intros H; [done|]. simpl.
  rewrite H by constructor. f_equal. apply IH. intros y Hy. apply H. by constructor.
Qed.

(** The order at the front of a list of chains without an empty one. *)
Lemma blocks_front (m : smap Price (list Z)) q o :
  f <$> idxs m = o :: q -> priced m -> (forall k, (k, []) ∉ m) ->
  exists l m', m = (o_price o, l) :: m'.
Proof.
  destruct m as [|[k [|j l]] m]; intros E HP HE; [done| |].
  - exfalso. apply (HE k). constructor.
  - rewrite idxs_cons in E. injection E as <- _. exists (j :: l), m.
    apply priced_cons in HP as [HP _]. by rewrite HP by constructor.
Qed.

Lemma enqueue_front o q :
  (forall x q', q = x :: q' -> before s (o_price o) (o_price x) = true) ->
  enqueue s o q = o :: q.
Proof. destruct q as [|x q]; intros H; [done|]. simpl. by erewrite H. Qed.

Lemma enqueue_blocks m px i :
  sm_sorted (before s) m -> priced m -> (forall k, (k, []) ∉ m) -> o_price (f i) = px ->
  f <$> idxs (sm_insert (before s) px (chain_at s px m ++ [i]) m) =
  enqueue s (f i) (f <$> idxs m).
Proof.
  intros HS HP HE Hpx. unfold chain_at.
  induction m as [|[k l] m IH]; [done|].
  pose proof (priced_cons _ _ _ HP) as [Hl HP'].
  assert (forall k', (k', []) ∉ m) as HE' by (intros k' Hk; apply (HE k'); by constructor).
  inversion HS as [|? ? HS' HF]; subst. simpl.
  destruct (before s (o_price (f i)) k) eqn:E1; [|destruct (before s k (o_price (f i))) eqn:E2].
  - symmetry. apply enqueue_front. intros x q E.
    apply blocks_front in E as (? & ? & [= -> -> ->]);
      [exact E1|exact HP|exact HE].
  - rewrite !idxs_cons, !fmap_app, IH by (exact HS' || done).
    rewrite enqueue_skip; [done|].
    intros x Hx. apply list_elem_of_fmap in Hx as (j & -> & Hj). by rewrite (Hl j Hj).
  - pose proof (before_total s _ _ E1 E2) as Ek. rewrite !idxs_cons, !fmap_app, enqueue_skip.
    + rewrite <- app_assoc. f_equal. symmetry. apply enqueue_front. intros x q E.
      apply blocks_front in E as (l' & m' & ->); [|done..].
      rewrite Ek. by apply Forall_cons in HF as [HF _].
    + intros x Hx. apply list_elem_of_fmap in Hx as (j & -> & Hj). rewrite (Hl j Hj).
      done.
Qed.

Lemma by_level_block k os q :
  os <> [] -> (forall o, o ∈ os -> o_price o = k) ->
  (forall p l g, by_level q = (p, l) :: g -> p <> k) ->
  by_level (os ++ q) = (k, os) :: by_level q.
Proof.
  intros Hne Hk Hq. induction os as [|o os IH]; [done|].
  assert (o_price o = k) as Ho by (apply Hk; constructor).
  destruct os as [|o' os]; simpl.
  - rewrite Ho. destruct (by_level q) as [|[p l] g] eqn:E; [done|].
    rewrite (proj2 (Z.eqb_neq p k)); [done|]. by eapply Hq.
  - simpl in IH. rewrite IH; [by rewrite Ho, Z.eqb_refl|done|].
    intros x Hx. apply Hk. by constructor.
Qed.

Lemma by_level_blocks m :
  sm_sorted (before s) m -> priced m -> (forall k, (k, []) ∉ m) ->
  by_level (f <$> idxs m) = (fun e : Price * list Z => (e.1, f <$> e.2)) <$> m.
Proof.
  induction m as [|[k l] m IH]; intros HS HP HE; [done|].
  apply priced_cons in HP as [Hl HP].
  assert (forall k', (k', []) ∉ m) as HE' by (intros k' Hk; apply (HE k'); by constructor).
  inversion HS as [|? ? HS' HF]; subst. rewrite idxs_cons, fmap_app, fmap_cons.
  rewrite (by_level_block k), IH; try done.
  - destruct l; [|done]. exfalso. apply (HE k). constructor.
  - intros o Ho. apply list_elem_of_fmap in Ho as (j & -> & Hj). by apply Hl.
  - rewrite IH by done. intros p l' g E ->. destruct m as [|[k' l''] m]; [done|].
    injection E as -> _ _. apply Forall_cons in HF as [HF _]. simpl in HF.
    by rewrite (so_irrefl (P := fun _ => True)) in HF.
Qed.
End Blocks.

Lemma rep_priced b g s : Rep b g -> priced (order_at (nodes_ b)) (g s).
Proof.
  intros HR k l i Hk Hi. destruct (rep_side _ _ HR s) as (_ & _ & HN).
  by destruct (HN k l i Hk Hi) as (_ & _ & Hpx & _).
Qed.

Lemma rep_sorted b g s : Rep b g -> sm_sorted (before s) (g s).
Proof. intros HR. by destruct (rep_side _ _ HR s) as (_ & H & _). Qed.

(** ** Queries *)

Section Queries.
Context (b : Book) (g : ghost) (HR : Rep b g) (HE : no_empty_level g).

(** The levels are the queue's levels with their summed quantities and their
    counts. *)
Lemma levels_view s :
  (fun e : Price * Level => (e.1, lv_total e.2, lv_order_count e.2)) <$> levels b s =
  (fun e : Price * list Order => (e.1, level_total e.2, u32 (Z.of_nat (length e.2)))) <$>
    by_level (sb_side (absb b g) s).
Proof.
  rewrite sb_side_absb. unfold queue.
  rewrite (by_level_blocks _ s) by first [by eapply rep_sorted|by apply rep_priced|by apply HE].
  destruct (rep_side _ _ HR s) as (H & _). rewrite <- list_fmap_compose.
  induction H as [|[k lv] [k' l] ls m [Hk (_ & _ & _ & HT & HC)] _ IH]; [done|].
  simpl in Hk, HT, HC. subst k'. rewrite !fmap_cons, IH. f_equal. simpl. rewrite HT, HC.
  unfold level_total. by rewrite <- list_fmap_compose, length_fmap.
Qed.

Lemma levels_by_level s :
  (fun e : Price * Level => (e.1, lv_total e.2)) <$> levels b s =
  (fun e : Price * list Order => (e.1, level_total e.2)) <$> by_level (sb_side (absb b g) s).
Proof.
  pose proof (f_equal (fmap (fun e : Price * Z * Z => e.1)) (levels_view s)) as H.
  by rewrite <- !list_fmap_compose in H.
Qed.

Lemma available_spec r :
  available_to_match r b = spec_available r (sb_side (absb b g) (opposite (req_side r))).
Proof. unfold available_to_match, spec_available. by rewrite levels_by_level. Qed.

Lemma levels_nil s : levels b s = [] <-> sb_side (absb b g) s = [].
Proof.
  pose proof (levels_by_level s) as H. split; intros E; rewrite E in H.
  - symmetry in H. apply fmap_nil_inv in H. destruct (sb_side (absb b g) s) as [|o q]; [done|].
    simpl in H. by repeat case_match.
  - by apply fmap_nil_inv in H.
Qed.

Lemma best_spec s : best b s = match sb_side (absb b g) s with [] => 0 | o :: _ => o_price o end.
Proof.
  pose proof (levels_by_level s) as H. unfold best.
  destruct (sb_side (absb b g) s) as [|o q].
  - destruct (levels b s) as [|[p lv] ls]; done.
  - destruct (levels b s) as [|[p lv] ls]; simpl in H; repeat case_match; simplify_eq/=; try done.
    all: breflect; congruence.
Qed.

Lemma would_trade_spec r : would_trade r b = spec_would_trade r (absb b g).
Proof.
  unfold would_trade, spec_would_trade, best_ask, best_bid. rewrite !best_spec.
  destruct (req_side r); simpl.
  - pose proof (levels_nil Sell) as HN. simpl in HN.
    destruct (queue (nodes_ b) (g Sell)) as [|o q].
    + by rewrite bool_decide_eq_true_2 by (by apply HN).
    + rewrite bool_decide_eq_false_2 by (intros ?%HN; done). done.
  - pose proof (levels_nil Buy) as HN. simpl in HN.
    destruct (queue (nodes_ b) (g Buy)) as [|o q].
    + by rewrite bool_decide_eq_true_2 by (by apply HN).
    + rewrite bool_decide_eq_false_2 by (intros ?%HN; done). done.
Qed.

Lemma free_list_empty :
  free_list_ b = [] <-> length (sb_orders (absb b g)) = sb_capacity (absb b g).
Proof.
  rewrite orders_length. simpl. destruct (rep_store _ _ HR) as (_ & _ & H & _).
  rewrite length_app in H. split; intros E.
  - rewrite E in H. simpl in H. lia.
  - apply length_zero_iff_nil. lia.
Qed.

Lemma validate_spec r : validate_reason r b = spec_reason r (absb b g).
Proof.
  unfold validate_reason, spec_reason. simpl.
  by rewrite (bool_decide_ext _ _ (ids_in_index b g HR (req_order_id r))),
    (bool_decide_ext _ _ free_list_empty).
Qed.
End Queries.

(** ** Resting an order *)

Definition new_node (r : OrderRequest) (rem : Quantity) : Node := {|
  nd_id := req_order_id r; nd_client_id := req_client_id r; nd_price := req_price r;
  nd_remaining := rem; nd_prev := npos; nd_next := npos; nd_side := req_side r;
  nd_active := true |}.

(** [rest] with its allocation done, field by field. *)
Lemma rest_eq b r rem fl i :
  free_list_ b = fl ++ [i] ->
  let s := req_side r in
  let lv := default Level0 (sm_lookup (before s) (req_price r) (levels b s)) in
  exists b', rest r rem b = (Ok tt, b') /\
    nodes_ b' = appended_nodes (nodes_ b) i (new_node r rem) (lv_tail lv) /\
    free_list_ b' = fl /\ by_id_ b' = <[req_order_id r := i]> (by_id_ b) /\
    active_count_ b' = u64 (active_count_ b + 1) /\
    levels b' (opposite s) = levels b (opposite s) /\
    levels b' s = sm_insert (before s) (req_price r) (append_lv lv i rem) (levels b s) /\
    symbol_ b' = symbol_ b /\ stp_policy_ b' = stp_policy_ b /\ outbox_ b' = outbox_ b.
Proof.
  intros Hf s lv. unfold rest, allocate_node, mbind, st_bind, modify.
  rewrite Hf, pop_back_snoc. eexists. split; [done|].
  unfold append_level, s, lv, new_node. destruct (req_side r); split_and!; reflexivity.
Qed.

Lemma rest_ok b g r rem :
  Rep b g -> no_empty_level g -> free_list_ b <> [] -> by_id_ b !! req_order_id r = None ->
  0 < rem < 2 ^ 32 ->
  exists b', rest r rem b = (Ok tt, b') /\ refines b'
    (sb_set_side (absb b g) (req_side r)
      (enqueue (req_side r) (order_of_request r rem) (sb_side (absb b g) (req_side r)))).
Proof.
  intros HR HE Hfl Hid Hrem.
  destruct (free_list_ b) as [|i fl _] eqn:Hf using rev_ind; [done|].
  destruct (rest_eq b r rem fl i Hf) as (b' & Eb & E1 & E2 & E3 & E4 & E5 & E6 & E7 & E8 & E9).
  exists b'. split; [done|]. set (s := req_side r) in *. set (new := new_node r rem) in *.
  pose proof (append_range b g i fl HR Hf) as (Hi & Hig & HJ).
  set (l := chain_at s (req_price r) (g s)). set (m' := sm_insert (before s) (req_price r) (l ++ [i]) (g s)).
  assert (Rep b' (upd g s m')) as HR'.
  { by apply (rep_append b g s (req_price r) i fl new HR Hf Hid). }
  assert (nd_active new = true /\ nd_side new = s /\ nd_price new = req_price r /\
    0 < nd_remaining new < 2 ^ 32) as Hnew by done.
  exists (upd g s m'). split; [done|]. split.
  { apply no_empty_upd; [done|]. intros k Hk.
    eapply sm_insert_elem in Hk as [[= _ E]|Hk]; [|by apply (HE s k)|done|apply keys_any].
    by destruct l. }
  assert (length (nodes_ b') = length (nodes_ b)) as HL by (by rewrite E1, length_appended).
  assert (forall j, j ∈ all_idx g -> core (node_at (nodes_ b') j) = core (node_at (nodes_ b) j)) as HC.
  { intros j Hj. rewrite E1. exact (proj1 (append_old b g s (req_price r) i fl new HR Hf Hnew j Hj)). }
  assert (order_at (nodes_ b') i = order_of_request r rem) as HO.
  { rewrite E1, (append_tail b g s (req_price r) HR). fold l.
    destruct (appended_new (nodes_ b) i new l) as (C & _); [done| | |
      unfold core in C; injection C as C1 C2 C3 C4 C5 C6; unfold order_at;
      by rewrite ?C1, ?C2, ?C3, ?C4, ?C5, ?C6].
    - intros Hl. by apply Hig, (append_in_all b g s (req_price r) i new HR Hnew).
    - intros j Hj. by apply HJ, (append_in_all b g s (req_price r) i new HR Hnew). }
  rewrite sb_side_absb, (absb_upd b b' g s m'); [| done..|].
  - f_equal. unfold queue. rewrite <- HO.
    rewrite <- (order_at_ext (nodes_ b) (nodes_ b') (idxs (g s)))
      by (intros j Hj; apply HC; by eapply all_idx_side).
    symmetry. apply enqueue_blocks; [by eapply rep_sorted| |apply HE|by rewrite HO].
    intros k l' j Hk Hj. rewrite (order_at_core (nodes_ b)).
    + by eapply (rep_priced b g s HR).
    + apply HC, (all_idx_side g s), elem_of_idxs. eauto.
  - apply queue_ext. intros j Hj. apply HC. by eapply all_idx_side.
Qed.

(** ** The phases of [submit] on the abstract state *)

Lemma refines_queries b a r : refines b a ->
  validate_reason r b = spec_reason r a /\ would_trade r b = spec_would_trade r a /\
  available_to_match r b = spec_available r (sb_side a (opposite (req_side r))) /\
  symbol_ b = sb_symbol a /\ length (nodes_ b) = sb_capacity a /\
  (length (sb_orders a) <= sb_capacity a)%nat /\ NoDup (o_id <$> sb_orders a).
Proof.
  intros (g & HR & HE & ->). split_and!; try done.
  - by apply validate_spec.
  - by apply would_trade_spec.
  - by apply available_spec.
  - rewrite orders_length. simpl. destruct (rep_store _ _ HR) as (_ & _ & H & _).
    rewrite length_app in H. lia.
  - unfold sb_orders, absb. simpl. unfold queue. rewrite <- fmap_app, <- list_fmap_compose.
    fold (all_idx g). apply NoDup_fmap_2_strong; [|by destruct (rep_store _ _ HR) as ([H _]%NoDup_app & _)].
    intros i j Hi Hj E. by eapply (ids_inj b g HR).
Qed.

Lemma rest_refines b a r rem :
  refines b a -> 0 < rem < 2 ^ 32 -> req_order_id r ∉ o_id <$> sb_orders a ->
  length (sb_orders a) <> sb_capacity a ->
  exists b', rest r rem b = (Ok tt, b') /\ refines b'
    (sb_set_side a (req_side r)
      (enqueue (req_side r) (order_of_request r rem) (sb_side a (req_side r)))).
Proof.
  intros (g & HR & HE & ->) Hrem Hid Hcap. apply rest_ok; try done.
  - intros H. by apply Hcap, free_list_empty.
  - apply eq_None_not_Some. intros H. by apply Hid, ids_in_index.
Qed.

Lemma match_refines b a s taker rem :
  refines b a -> 0 <= rem < 2 ^ 32 ->
  exists out rem' b', match_against (S (length (nodes_ b))) s taker rem b = (Ok (out, rem'), b') /\
    0 <= rem' <= rem /\ exists q' o',
    spec_match (sb_symbol a) (sb_policy a) taker rem (sb_side a s) (sb_outbox a)
      = (out, rem', q', o') /\
    refines b' (sb_set_outbox (sb_set_side a s q') o').
Proof.
  intros (g & HR & HE & ->) Hrem.
  destruct (match_against_ok s taker (S (length (nodes_ b))) b g rem HR HE Hrem)
    as (out & rem' & b' & g' & E & [HR' HA] & HE' & Hr & HS).
  { destruct (rep_store _ _ HR) as (_ & _ & H & _). rewrite length_app in H. lia. }
  exists out, rem', b'. split_and!; [done|lia|lia|]. exists (queue (nodes_ b') (g' s)), (outbox_ b').
  split; [rewrite sb_side_absb; exact HS|]. exists g'. by split; [|split].
Qed.

(** Room for the taker is still there after the matching phase. *)
Lemma match_room a s q' o' (id : OrderId) :
  (exists k, o_id <$> sb_side a s = k ++ (o_id <$> q')) -> (length q' <= length (sb_side a s))%nat ->
  let a' := sb_set_outbox (sb_set_side a s q') o' in
  (id ∉ o_id <$> sb_orders a -> id ∉ o_id <$> sb_orders a') /\
  (length (sb_orders a') <= length (sb_orders a))%nat.
Proof.
  intros [k Hk] HL a'. unfold a', sb_orders. split.
  - rewrite !fmap_app. destruct s; simpl in *; rewrite Hk, !elem_of_app; tauto.
  - rewrite !length_app. destruct s; simpl in *; lia.
Qed.

Lemma finish_refines b a r rem :
  refines b a -> 0 <= rem < 2 ^ 32 -> req_order_id r ∉ o_id <$> sb_orders a ->
  length (sb_orders a) <> sb_capacity a ->
  exists b', finish_submit r rem b = (Ok true, b') /\ refines b' (spec_finish r rem a).
Proof.
  intros HA Hrem Hid Hcap. unfold finish_submit, spec_finish.
  set (a1 := if rem =? 0 then sb_report _ _ _ _ _ else _).
  assert (exists b1, (if rem =? 0 then modify (emit_report (req_order_id r) Filled 0 RejectNone)
    else if rem <? req_quantity r
    then modify (emit_report (req_order_id r) PartiallyFilled rem RejectNone)
    else mret tt) b = (Ok tt, b1) /\ refines b1 a1) as (b1 & E1 & HA1).
  { unfold a1. repeat case_if; eexists; (split; [reflexivity|]); try apply refines_emit; done. }
  assert (sb_orders a1 = sb_orders a /\ sb_capacity a1 = sb_capacity a) as [EO EC]
    by (unfold a1; repeat case_if; done).
  unfold mbind, st_bind. rewrite E1. destruct (0 <? rem) eqn:Hr; breflect; [|by exists b1].
  destruct (req_type r) eqn:ET; simpl;
    try (eexists; split; [reflexivity|]; by apply refines_emit).
  all: destruct (rest_refines b1 a1 r rem) as (b2 & -> & HB2); [done|lia|by rewrite EO|by rewrite EO, EC|];
    by exists b2.
Qed.

(** [submit] implements the specification. *)
Lemma submit_ok b a r :
  refines b a -> in_u32 (req_quantity r) ->
  exists b', submit r b = (Ok (spec_submit r a).1, b') /\ refines b' (spec_submit r a).2.
Proof.
  intros HA Hq. pose proof (refines_queries b a r HA) as (Q1 & Q2 & Q3 & _ & Q5 & Q6 & _).
  unfold submit, spec_submit, validate, mbind, st_bind, get. rewrite Q1.
  case_bool_decide as HV; cbn [negb fst snd].
  { eexists. split; [done|]. by apply refines_emit. }
  rewrite Q2. case_if; [eexists; split; [done|]; by apply refines_emit|].
  rewrite Q3. case_if; [eexists; split; [done|]; by apply refines_emit|].
  unfold modify. cbn [fst snd]. set (b1 := emit_report _ _ _ _ b). set (a1 := sb_report _ _ _ _ a).
  assert (refines b1 a1) as HA1 by (by apply refines_emit).
  assert (req_order_id r ∉ o_id <$> sb_orders a /\ length (sb_orders a) <> sb_capacity a) as [Hid Hcap].
  { unfold spec_reason in HV. repeat case_if_in HV; breflect; done. }
  change (length (nodes_ b)) with (length (nodes_ b1)).
  destruct (match_refines b1 a1 (opposite (req_side r)) r (req_quantity r) HA1 Hq)
    as (out & rem' & b' & -> & Hr & q' & o' & HS & HA').
  unfold spec_execute. rewrite HS. destruct out; [|by exists b'].
  apply spec_match_run in HS; [|apply Hq].
  destruct (match_room a1 (opposite (req_side r)) q' o' (req_order_id r)) as [R1 R2];
    [by eapply run_ids|by eapply run_length|].
  destruct Hq. apply finish_refines; [done|lia|by apply R1|].
  intros EL. simpl in EL. change (sb_orders a1) with (sb_orders a) in R2. lia.
Qed.

(** ** [cancel] *)

Lemma find_spec b g id : Rep b g ->
  match by_id_ b !! id with
  | None => spec_find id (absb b g) = None
  | Some i => i ∈ all_idx g /\ nd_id (node_at (nodes_ b) i) = id /\
      spec_find id (absb b g) = Some (nd_side (node_at (nodes_ b) i), order_at (nodes_ b) i)
  end.
Proof.
  intros HR. destruct (by_id_ b !! id) as [i|] eqn:E.
  - apply (rep_index _ _ HR) in E as [Hi Hid]. split_and!; [done..|].
    destruct (locate b g HR i Hi) as (m1 & l1 & l2 & m2 & Hg & Hres). rewrite <- Hid.
    apply (spec_find_elem _ _ (order_at (nodes_ b) i)).
    + unfold sb_orders, absb. simpl. unfold queue. rewrite <- fmap_app, <- list_fmap_compose.
      apply NoDup_fmap_2_strong; [|by destruct (rep_store _ _ HR) as ([H _]%NoDup_app & _)].
      intros j k Hj Hk. by apply (ids_inj b g HR).
    + rewrite sb_side_absb. apply list_elem_of_fmap_2. rewrite Hg, idxs_app, idxs_cons, !elem_of_app.
      right. left. right. constructor.
  - apply spec_find_none. intros H. apply ids_in_index in H as [i Hi]; [congruence|done].
Qed.

Lemma remove_refines' b g i :
  Rep b g -> no_empty_level g -> i ∈ all_idx g ->
  refines (remove_without_report i b)
    (spec_remove (nd_side (node_at (nodes_ b) i)) (nd_id (node_at (nodes_ b) i)) (absb b g)).
Proof.
  intros HR HE Hi. destruct (remove_refines b g i HR Hi HE) as (g' & H1 & H2 & H3 & _).
  by exists g'.
Qed.

(** [cancel] implements the specification. *)
Lemma cancel_ok b a r :
  refines b a ->
  exists b', cancel r b = (Ok (spec_cancel r a).1, b') /\ refines b' (spec_cancel r a).2.
Proof.
  intros (g & HR & HE & ->). unfold cancel, spec_cancel.
  pose proof (find_spec b g (can_order_id r) HR) as HF.
  assert (refines b (absb b g)) as HA by (by exists g).
  destruct (by_id_ b !! can_order_id r) as [i|]; [destruct HF as (Hi & Hid & ->)|rewrite HF].
  - simpl. case_if; simpl; eexists; (split; [done|]); apply refines_emit; [done|].
    rewrite <- Hid. by apply remove_refines'.
  - simpl. eexists. split; [done|]. by apply refines_emit.
Qed.

(** ** [replace] *)

(** The orders of a side after one of its nodes was resized. *)
Lemma resized_order b g i q j :
  Rep b g -> i ∈ all_idx g -> j ∈ all_idx g ->
  0 <= i < Z.of_nat (length (nodes_ b)) ->
  (i <> j -> core (node_at (set_remaining (nodes_ b) i q) j) = core (node_at (nodes_ b) j)) ->
  order_at (set_remaining (nodes_ b) i q) j =
  if o_id (order_at (nodes_ b) j) =? nd_id (node_at (nodes_ b) i)
  then set_qty (order_at (nodes_ b) j) q else order_at (nodes_ b) j.
Proof.
  intros HR Hi Hj Hr HC. destruct (decide (i = j)) as [<-|Hne].
  - simpl. by rewrite Z.eqb_refl, order_at_resized.
  - rewrite (proj2 (Z.eqb_neq _ _)); [by apply order_at_core, HC|].
    intros E. apply Hne. symmetry. by apply (ids_inj b g HR).
Qed.

Lemma idxs_side b g s j : Rep b g -> j ∈ idxs (g s) -> nd_side (node_at (nodes_ b) j) = s.
Proof.
  intros HR Hj. apply elem_of_idxs in Hj as (px & l & Hl & Hj).
  destruct (rep_side _ _ HR s) as (_ & _ & HN). by destruct (HN px l j Hl Hj) as (_ & H & _).
Qed.

Lemma reduce_in_place_refines b g i q :
  Rep b g -> no_empty_level g -> i ∈ all_idx g ->
  let n := node_at (nodes_ b) i in
  0 < q <= nd_remaining n ->
  refines (reduce_in_place i q b)
    (sb_set_side (absb b g) (nd_side n)
      (resize_order (nd_id n) q (sb_side (absb b g) (nd_side n)))).
Proof.
  intros HR HE Hi n Hq. set (b' := reduce_in_place i q b).
  destruct (locate b g HR i Hi) as (m1 & l1 & l2 & m2 & Hg & (_ & _ & _ & Hn)). fold n in Hg, Hn.
  set (s := nd_side n) in *. set (px := nd_price n) in *. set (d := nd_remaining n - q).
  pose proof (rep_side _ _ HR s) as HS. rewrite Hg in HS.
  destruct (side_level _ _ _ _ _ _ _ HS) as (_ & lv & _ & _ & _ & _ & _ & Hlk & _).
  assert (nodes_ b' = set_remaining (nodes_ b) i (nd_remaining n - d) /\
    free_list_ b' = free_list_ b /\ by_id_ b' = by_id_ b /\ active_count_ b' = active_count_ b /\
    levels b' (opposite s) = levels b (opposite s) /\
    levels b' s = sm_insert (before s) px (shrink_lv lv d) (levels b s) /\
    symbol_ b' = symbol_ b /\ stp_policy_ b' = stp_policy_ b /\ outbox_ b' = outbox_ b)
    as (E1 & E2 & E3 & E4 & E5 & E6 & E7 & E8 & E9).
  { unfold b', reduce_in_place. fold n. fold s px. rewrite (u32_small (_ - _)) by (unfold in_u32; lia).
    assert (sm_lookup (before s) px (levels (set_nodes b (set_remaining (nodes_ b) i q)) s) = Some lv)
      as -> by (rewrite <- Hlk; by destruct s).
    replace (nd_remaining n - d) with q by (unfold d; lia).
    unfold shrink_lv, d. destruct s; split_and!; reflexivity. }
  assert (Rep b' g) as HR'.
  { eapply (rep_resize b g s m1 m2 px l1 l2 i d HR Hg b' lv); try done. fold n. unfold d. lia. }
  exists g. split_and!; [done|done|].
  assert (length (nodes_ b') = length (nodes_ b)) as HL by (by rewrite E1, length_set_remaining).
  assert (forall j, j ∈ all_idx g -> i <> j -> core (node_at (nodes_ b') j) = core (node_at (nodes_ b) j)) as HC.
  { intros j Hj Hne. rewrite E1. apply (resize_links b g s m1 m2 px l1 l2 i d HR Hg j Hj). done. }
  rewrite sb_side_absb. unfold absb, sb_set_side. rewrite E7, E8, E9, HL.
  assert (queue (nodes_ b') (g (opposite s)) = queue (nodes_ b) (g (opposite s))) as Q1.
  { apply queue_ext. intros j Hj. apply HC; [by eapply all_idx_side|]. intros ->.
    apply (idxs_side b g) in Hj; [|done]. fold n s in Hj. by destruct s. }
  assert (queue (nodes_ b') (g s) = resize_order (nd_id n) q (queue (nodes_ b) (g s))) as Q2.
  { unfold queue, resize_order. rewrite <- list_fmap_compose. apply list_fmap_ext.
    intros k j Hj. apply list_elem_of_lookup_2, all_idx_side in Hj. rewrite E1 in *.
    unfold d in *. replace (nd_remaining n - (nd_remaining n - q)) with q in * by lia.
    apply (resized_order b g); auto. by apply (used_range b g HR). }
  destruct s; simpl in *; by rewrite Q1, Q2.
Qed.

(** [replace] implements the specification. *)
Lemma replace_ok b a r :
  refines b a -> in_u32 (rep_new_quantity r) ->
  exists b', replace r b = (Ok (spec_replace r a).1, b') /\ refines b' (spec_replace r a).2.
Proof.
  intros (g & HR & HE & ->) Hq. unfold replace, spec_replace.
  pose proof (find_spec b g (rep_order_id r) HR) as HF.
  assert (refines b (absb b g)) as HA by (by exists g).
  destruct (by_id_ b !! rep_order_id r) as [i|]; [destruct HF as (Hi & Hid & ->)|rewrite HF];
    [|eexists; split; [done|]; by apply refines_emit].
  cbn [o_client o_price o_qty order_at]. set (n := node_at (nodes_ b) i) in *.
  case_if; [eexists; split; [done|]; by apply refines_emit|].
  destruct ((rep_new_price r <=? 0) || (rep_new_quantity r =? 0)) eqn:EV;
    [eexists; split; [done|]; by apply refines_emit|].
  destruct (_ && _) eqn:EP; breflect.
  - eexists. split; [done|]. apply refines_emit. rewrite <- Hid.
    apply reduce_in_place_refines; [done..|]. destruct Hq. fold n. lia.
  - set (b1 := emit_report _ _ _ _ _). set (a1 := sb_report _ _ _ _ _).
    assert (refines b1 a1) as HA1.
    { apply refines_emit. rewrite <- Hid. by apply remove_refines'. }
    assert (symbol_ b1 = sb_symbol (absb b g)) as ->
      by (by destruct (refines_queries b1 a1 (replacement r Buy 0) HA1) as (_ & _ & _ & -> & _)).
    by apply submit_ok.
Qed.

(** ** Construction, [reset] and restoring *)

Lemma empty_rep b :
  nodes_ b = replicate (length (nodes_ b)) Node0 -> free_list_ b = all_free (length (nodes_ b)) ->
  by_id_ b = ∅ -> bids_ b = [] -> asks_ b = [] -> active_count_ b = 0 ->
  Z.of_nat (length (nodes_ b)) <= npos -> Rep b (fun _ => []).
Proof.
  intros H1 H2 H3 H4 H5 H6 H7. split.
  - intros s. destruct s; simpl; rewrite ?H4, ?H5; (split; [constructor|split; [constructor|]]);
      intros ? ? ? H; by apply elem_of_nil in H.
  - assert (free_list_ b = Z.of_nat <$> reverse (seq 0 (length (nodes_ b)))) as HF.
    { rewrite H2. unfold all_free. apply list_fmap_ext. intros k x Hx.
      apply list_elem_of_lookup_2, elem_of_reverse, elem_of_seq in Hx.
      apply u32_small. unfold in_u32, npos in *. lia. }
    unfold all_idx, idxs. simpl. rewrite HF. split_and!.
    + apply NoDup_fmap_2; [intros x y E; lia|]. rewrite reverse_Permutation. apply NoDup_seq.
    + intros i Hi. apply list_elem_of_fmap in Hi as (k & -> & Hk).
      apply elem_of_reverse, elem_of_seq in Hk. lia.
    + by rewrite app_nil_l, length_fmap, length_reverse, length_seq.
    + done.
  - intros id i. rewrite H3, lookup_empty. split; [done|]. intros [H _]. by apply elem_of_nil in H.
  - by rewrite H6.
Qed.

Lemma new_refines capacity symbol :
  Z.of_nat capacity <= npos -> refines (OrderBook capacity symbol) (spec_new capacity symbol).
Proof.
  intros H. exists (fun _ => []). split_and!.
  - apply empty_rep; simpl; rewrite ?length_replicate; done.
  - intros s px Hk. by apply elem_of_nil in Hk.
  - unfold absb, spec_new. simpl. by rewrite length_replicate.
Qed.

Lemma reset_refines b a : refines b a -> refines (reset b) (spec_clear a).
Proof.
  intros (g & HR & HE & ->). exists (fun _ => []). split_and!.
  - apply empty_rep; simpl; rewrite ?length_replicate; try done.
    by destruct (rep_store _ _ HR) as (_ & _ & _ & H).
  - intros s px Hk. by apply elem_of_nil in Hk.
  - unfold absb, spec_clear. simpl. by rewrite length_replicate.
Qed.

Lemma restore_loop_ok orders : forall b a,
  refines b a -> Forall (fun r => in_u32 (req_quantity r)) orders ->
  exists b', restore_loop orders b = ((spec_restore_loop orders a).1, b') /\
    refines b' (spec_restore_loop orders a).2.
Proof.
  induction orders as [|r orders IH]; intros b a HA HQ; [by exists b|].
  apply Forall_cons in HQ as [[Hq0 Hq] HQ]. simpl. unfold mbind, st_bind, get.
  assert (symbol_ b = sb_symbol a /\
    (is_Some (by_id_ b !! req_order_id r) <-> req_order_id r ∈ o_id <$> sb_orders a) /\
    (free_list_ b = [] <-> length (sb_orders a) = sb_capacity a)) as (-> & HI & HF).
  { destruct HA as (g & HR & HE & ->). split; [done|].
    rewrite ids_in_index by done. by rewrite free_list_empty. }
  rewrite (bool_decide_ext _ _ HI). case_if; [by exists b|]. breflect.
  case_bool_decide as HC.
  - apply HF in HC. unfold rest, allocate_node, mbind, st_bind. rewrite HC. simpl. by exists b.
  - destruct (rest_refines b a r (req_quantity r)) as (b1 & -> & HA1); [done|lia|done|done|].
    by apply IH.
Qed.

(** [restore_resting_orders] implements the specification. *)
Lemma restore_ok b a orders seq :
  refines b a -> Forall (fun r => in_u32 (req_quantity r)) orders ->
  exists b', restore_resting_orders orders seq b = ((spec_restore orders seq a).1, b') /\
    refines b' (spec_restore orders seq a).2.
Proof.
  intros HA HQ. unfold restore_resting_orders, spec_restore, mbind, st_bind, modify.
  destruct (restore_loop_ok orders (reset b) (spec_clear a)) as (b' & -> & HB);
    [by apply reset_refines|done|].
  destruct (spec_restore_loop orders (spec_clear a)) as [[[]|e] a']; simpl in *;
    eexists; (split; [done|]); [|done].
  destruct HB as (g & HR & HE & ->). exists g. split_and!; [by apply (rep_same b')|done|done].
Qed.

(** ** Walks over the chains *)

Lemma walk_dseg ns p l fuel i :
  dseg ns p l npos -> i = default npos (head l) -> (forall j, j ∈ l -> (j =? npos) = false) ->
  (length l <= fuel)%nat -> walk fuel ns i = Ok (node_at ns <$> l).
Proof.
  revert p fuel i. induction l as [|x l IH]; intros p fuel i HD -> Hne Hf; simpl in *.
  { by destruct fuel. }
  destruct fuel as [|fuel]; [lia|]. destruct HD as (_ & Hn & HD). simpl.
  rewrite (Hne x) by constructor.
  rewrite (IH x); [done|done|done|intros j Hj; apply Hne; by constructor|lia].
Qed.

Section Walks.
Context (b : Book) (g : ghost) (HR : Rep b g) (HE : no_empty_level g).

Lemma collect_levels_ok s :
  collect_levels (nodes_ b) (levels b s) =
  Ok ((fun e : Price * list Z => (e.1, node_at (nodes_ b) <$> e.2)) <$> g s).
Proof.
  destruct (rep_side _ _ HR s) as (H & _).
  assert (forall k l, (k, l) ∈ g s -> (length l <= length (nodes_ b))%nat /\
    forall j, j ∈ l -> (j =? npos) = false) as HL.
  { intros k l Hk. split.
    - apply list_elem_of_split in Hk as (m1 & m2 & Hg).
      destruct (rep_store _ _ HR) as (_ & _ & HS & _). rewrite length_app in HS.
      rewrite (all_idx_perm g s), Hg, idxs_app, idxs_cons, !length_app in HS. lia.
    - intros j Hj. apply (store_range _ _ _ _ (rep_store _ _ HR)).
      apply (all_idx_side g s), elem_of_idxs. eauto. }
  induction H as [|[k lv] [k' l] ls m [Hk (HD & Hh & _)] _ IH]; [done|].
  simpl in Hk. subst k'. destruct (HL k l) as [HL1 HL2]; [constructor|].
  simpl in *. rewrite (walk_dseg _ npos l) by done. cbn [mbind result_bind].
  rewrite IH; [done|]. intros k1 l1 Hk1. apply (HL k1). by constructor.
Qed.

Lemma resting_side_ok s :
  resting_side b s = Ok (request_of (symbol_ b) s <$> sb_side (absb b g) s).
Proof.
  unfold resting_side. rewrite collect_levels_ok. cbn [mbind result_bind]. f_equal.
  rewrite sb_side_absb. pose proof (rep_priced b g s HR) as HP. unfold queue.
  induction (g s) as [|[k l] m IH]; [done|]. apply priced_cons in HP as [Hk HP].
  rewrite idxs_cons, !fmap_app, !fmap_cons. simpl. rewrite <- IH by done. f_equal.
  rewrite <- !list_fmap_compose. apply list_fmap_ext. intros n j Hj.
  apply list_elem_of_lookup_2, Hk in Hj. unfold request_of, resting_request. simpl in *.
  by rewrite Hj.
Qed.

Lemma resting_ok : resting_orders b = Ok (spec_resting (absb b g)).
Proof.
  unfold resting_orders. rewrite (resting_side_ok Buy). cbn [mbind result_bind].
  by rewrite (resting_side_ok Sell).
Qed.

Lemma hash_side_ok s h :
  hash_side b s h = Ok (spec_hash_side s (sb_side (absb b g) s) h).
Proof.
  unfold hash_side. rewrite collect_levels_ok. cbn [mbind result_bind].
  unfold spec_hash_side. rewrite sb_side_absb. unfold queue.
  rewrite (by_level_blocks _ s) by first [by eapply rep_sorted|by apply rep_priced|by apply HE].
  f_equal. generalize (mix h (side_code s)). induction (g s) as [|[k l] m IH]; intros h0; [done|].
  simpl. rewrite IH. f_equal. generalize (mix h0 k). induction l as [|i l IHl]; intros h1; [done|].
  simpl. by rewrite IHl.
Qed.

Lemma state_hash_ok : state_hash b = Ok (spec_hash (absb b g)).
Proof.
  unfold state_hash. rewrite (hash_side_ok Buy). cbn [mbind result_bind].
  rewrite (hash_side_ok Sell). cbn [mbind result_bind]. unfold spec_hash.
  by rewrite orders_length, (rep_count _ _ HR).
Qed.
End Walks.
