(* ===== verification/BookProps.v ===== *)
(** * Correctness of the order book

    The book as a state machine whose steps are its commands, and the
    properties of the code on every state it can reach. *)

From S2P Require Import Prelude.
From S2P Require Import Types.
From S2P Require Import SortedMap.
From S2P Require Import OrderBook.
From S2P Require Import BookSpec.
From S2P Require Import BookFacts.
From S2P Require Import BookEvents.
From S2P Require Import BookInv.
From S2P Require Import BookRefine.
From S2P Require Import BookCommands.

(** ** The machine *)

Inductive Command :=
| CSubmit (r : OrderRequest)
| CCancel (r : CancelRequest)
| CReplace (r : ReplaceRequest)
| CReset
| CSetPolicy (policy : SelfTradePreventionPolicy)
| CRestore (orders : list OrderRequest) (seq : Sequence).

(** The quantities of a command are 32-bit integers. *)
Definition cmd_ok (c : Command) : Prop :=
  match c with
  | CSubmit r => in_u32 (req_quantity r)
  | CReplace r => in_u32 (rep_new_quantity r)
  | CRestore orders _ => Forall (fun r => in_u32 (req_quantity r)) orders
  | _ => True
  end.

Definition exec (c : Command) : ST Book bool :=
  match c with
  | CSubmit r => submit r
  | CCancel r => cancel r
  | CReplace r => replace r
  | CReset => modify reset;; mret true
  | CSetPolicy p => modify (set_stp_policy p);; mret true
  | CRestore orders seq => restore_resting_orders orders seq;; mret true
  end.

Definition spec_set_policy (p : SelfTradePreventionPolicy) (a : SBook) : SBook := {|
  sb_symbol := sb_symbol a; sb_capacity := sb_capacity a; sb_policy := p;
  sb_bids := sb_bids a; sb_asks := sb_asks a; sb_outbox := sb_outbox a |}.

Definition spec_exec (c : Command) (a : SBook) : result bool * SBook :=
  match c with
  | CSubmit r => (Ok (spec_submit r a).1, (spec_submit r a).2)
  | CCancel r => (Ok (spec_cancel r a).1, (spec_cancel r a).2)
  | CReplace r => (Ok (spec_replace r a).1, (spec_replace r a).2)
  | CReset => (Ok true, spec_clear a)
  | CSetPolicy p => (Ok true, spec_set_policy p a)
  | CRestore orders seq =>
      match spec_restore orders seq a with
      | (Ok _, a') => (Ok true, a')
      | (Throw e, a') => (Throw e, a')
      end
  end.

(** A run of commands and its results. *)
Fixpoint run_commands {S} (step : Command -> ST S bool) (cs : list Command) (s : S)
    : list (result bool) * S :=
  match cs with
  | [] => ([], s)
  | c :: cs' =>
      let (r, s1) := step c s in
      let (rs, s2) := run_commands step cs' s1 in (r :: rs, s2)
  end.

Lemma exec_ok c b a :
  refines b a -> cmd_ok c ->
  (exec c b).1 = (spec_exec c a).1 /\ refines (exec c b).2 (spec_exec c a).2.
Proof.
  intros HA HC. destruct c; simpl.
  - by destruct (submit_ok b a r HA HC) as (b' & -> & H).
  - by destruct (cancel_ok b a r HA) as (b' & -> & H).
  - by destruct (replace_ok b a r HA HC) as (b' & -> & H).
  - split; [done|]. by apply reset_refines.
  - split; [done|]. destruct HA as (g & HR & HE & ->). exists g. split_and!; [|done|done].
    by apply (rep_same b).
  - unfold mbind, st_bind. destruct (restore_ok b a orders seq HA HC) as (b' & -> & H).
    by destruct (spec_restore orders seq a) as [[[]|e] a'].
Qed.

Lemma refines_views b a : refines b a ->
  resting_orders b = Ok (spec_resting a) /\ state_hash b = Ok (spec_hash a) /\
  outbox_ b = sb_outbox a.
Proof.
  intros (g & HR & HE & ->). split_and!; [by apply resting_ok|by apply state_hash_ok|done].
Qed.

Lemma run_ok cs : forall b a,
  refines b a -> Forall cmd_ok cs ->
  (run_commands exec cs b).1 = (run_commands spec_exec cs a).1 /\
  refines (run_commands exec cs b).2 (run_commands spec_exec cs a).2.
Proof.
  induction cs as [|c cs IH]; intros b a HA HC; [done|].
  apply Forall_cons in HC as [Hc HC]. simpl.
  pose proof (exec_ok c b a HA Hc) as [E1 E2].
  destruct (exec c b) as [r b1], (spec_exec c a) as [r' a1]. simpl in *. subst r'.
  destruct (IH b1 a1 E2 HC) as [F1 F2].
  destruct (run_commands exec cs b1) as [rs b2], (run_commands spec_exec cs a1) as [rs' a2].
  simpl in *. by subst.
Qed.

(** The fields that the commands leave alone. *)
Definition same_book (a a' : SBook) : Prop :=
  sb_symbol a' = sb_symbol a /\ sb_capacity a' = sb_capacity a /\ sb_policy a' = sb_policy a.

Lemma finish_same r rem a : same_book a (spec_finish r rem a).
Proof. unfold spec_finish. by repeat case_if. Qed.

Lemma submit_same r a : same_book a (spec_submit r a).2.
Proof.
  destruct (submit_cases r a) as [[reason ->]|(_ & _ & _ & ->)]; [done|]. simpl. unfold spec_execute.
  destruct (spec_match _ _ _ _ _ _) as [[[[] rem'] q'] o']; [|done].
  exact (finish_same r rem' (sb_set_outbox (sb_set_side (sb_report (req_order_id r) Accepted
    (req_quantity r) RejectNone a) (opposite (req_side r)) q') o')).
Qed.

Lemma cancel_same r a : same_book a (spec_cancel r a).2.
Proof. unfold spec_cancel. by repeat case_match. Qed.

Lemma replace_same r a : same_book a (spec_replace r a).2.
Proof.
  unfold spec_replace. destruct (spec_find (rep_order_id r) a) as [[s o]|]; [|done].
  repeat (case_if; [done|]).
  exact (submit_same (replacement r s (sb_symbol a)) (sb_report (rep_order_id r) Replaced
    (rep_new_quantity r) RejectNone (spec_remove s (rep_order_id r) a))).
Qed.

Lemma spec_restore_loop_same orders : forall a,
  sb_symbol (spec_restore_loop orders a).2 = sb_symbol a /\ sb_capacity (spec_restore_loop orders a).2 = sb_capacity a.
Proof.
  induction orders as [|r orders IH]; intros a; [done|]. cbn [spec_restore_loop]. case_if; [done|]. case_if; [done|].
  destruct (IH (spec_restore_order a r)) as [-> ->]. unfold spec_restore_order. by destruct (req_side r).
Qed.

Lemma spec_run_same cs : forall a,
  sb_symbol (run_commands spec_exec cs a).2 = sb_symbol a /\ sb_capacity (run_commands spec_exec cs a).2 = sb_capacity a.
Proof.
  induction cs as [|c cs IH]; intros a; [done|]. simpl.
  assert (sb_symbol (spec_exec c a).2 = sb_symbol a /\ sb_capacity (spec_exec c a).2 = sb_capacity a) as [ES EC].
  { destruct c; simpl; try done; try (edestruct submit_same as (? & ? & _); done);
      try (edestruct cancel_same as (? & ? & _); done); try (edestruct replace_same as (? & ? & _); done).
    unfold spec_restore. pose proof (spec_restore_loop_same orders (spec_clear a)) as HS.
    by destruct (spec_restore_loop _ _) as [[[]|e] a']. }
  destruct (spec_exec c a) as [r a1]. cbn [snd] in ES, EC. specialize (IH a1). rewrite ES, EC in IH.
  by destruct (run_commands spec_exec cs a1).
Qed.

(** The states a book reaches.  A restored snapshot is not checked for a
    crossed book, so restoring is not a step of this relation. *)
Inductive reach (capacity : nat) (symbol : SymbolId) : Book -> Prop :=
| reach_new : Z.of_nat capacity <= npos -> reach capacity symbol (OrderBook capacity symbol)
| reach_step b c : reach capacity symbol b -> cmd_ok c ->
    match c with CRestore _ _ => False | _ => True end ->
    reach capacity symbol (exec c b).2.

(** The bids of a list of orders are below its asks. *)
Definition uncrossed (orders : list OrderRequest) : Prop :=
  forall x y, x ∈ orders -> y ∈ orders -> req_side x = Buy -> req_side y = Sell -> req_price x < req_price y.

(** What the loop of a restore adds to a book keeps the order of the queues, and
    does not cross it unless its orders do. *)
Lemma spec_restore_loop_ok U orders : forall a, sb_ok_if U a ->
  (U -> uncrossed orders /\
        (forall o y, o ∈ sb_bids a -> y ∈ orders -> req_side y = Sell -> o_price o < req_price y) /\
        (forall x o, x ∈ orders -> o ∈ sb_asks a -> req_side x = Buy -> req_price x < o_price o)) ->
  sb_ok_if U (spec_restore_loop orders a).2.
Proof.
  induction orders as [|r orders IH]; intros a HO HX; [done|]. cbn [spec_restore_loop].
  case_if; [done|]. case_if; [done|]. breflect. apply IH.
  - apply ok_enqueue; [done|cbn; lia|]. intros HU p (o & -> & Ho)%list_elem_of_fmap.
    destruct (HX HU) as (_ & X1 & X2). destruct (req_side r) eqn:Es; cbn in *.
    + apply X2; [by left|done..].
    + apply X1; [done|by left|done].
  - intros HU. destruct (HX HU) as (X0 & X1 & X2). split; [|split].
    + intros x y Hx Hy. apply X0; by right.
    + intros o y Ho Hy Hs. unfold spec_restore_order in Ho. destruct (req_side r) eqn:Es; cbn in Ho;
        [|apply X1; [done|by right|done] ].
      rewrite enqueue_perm in Ho. apply elem_of_cons in Ho as [->|Ho]; [|apply X1; [done|by right|done] ].
      cbn. apply X0; [by left|by right|done..].
    + intros x o Hx Ho Hs. unfold spec_restore_order in Ho. destruct (req_side r) eqn:Es; cbn in Ho;
        [apply X2; [by right|done..]|].
      rewrite enqueue_perm in Ho. apply elem_of_cons in Ho as [->|Ho]; [|apply X2; [by right|done..] ].
      cbn. apply X0; [by right|by left|done..].
Qed.

Lemma spec_clear_ok U a : sb_ok_if U (spec_clear a).
Proof.
  split; [intros []; constructor|intros []; constructor|]. intros _ p q Hp. by apply elem_of_nil in Hp.
Qed.

Lemma spec_exec_ok_if U c a : sb_ok_if U a -> cmd_ok c ->
  match c with CRestore orders _ => U -> uncrossed orders | _ => True end -> sb_ok_if U (spec_exec c a).2.
Proof.
  intros HO HC HR. destruct c; simpl in *; try done.
  - destruct HC. by apply submit_sb_ok.
  - by apply cancel_sb_ok.
  - destruct HC. by apply replace_sb_ok.
  - apply spec_clear_ok.
  - revert HO. by apply ok_sublist.
  - assert (sb_ok_if U (spec_restore_loop orders (spec_clear a)).2) as HL.
    { apply spec_restore_loop_ok; [apply spec_clear_ok|]. intros HU. split; [by apply HR|].
      split; [intros o y Ho|intros x o _ Ho]; by apply elem_of_nil in Ho. }
    unfold spec_restore. destruct (spec_restore_loop _ _) as [[[]|e] a']; [|done]. revert HL. by apply ok_sublist.
Qed.

Lemma spec_exec_ok c a : sb_ok a -> cmd_ok c ->
  match c with CRestore _ _ => False | _ => True end -> sb_ok (spec_exec c a).2.
Proof. intros HO HC HR. apply spec_exec_ok_if; [done..|]. by destruct c. Qed.

Lemma spec_run_ok U cs : forall a, sb_ok_if U a -> Forall cmd_ok cs ->
  Forall (fun c => match c with CRestore orders _ => U -> uncrossed orders | _ => True end) cs ->
  sb_ok_if U (run_commands spec_exec cs a).2.
Proof.
  induction cs as [|c cs IH]; intros a HO HC HR; [done|].
  apply Forall_cons in HC as [Hc HC]. apply Forall_cons in HR as [Hr HR]. simpl.
  pose proof (spec_exec_ok_if U c a HO Hc Hr) as H1. destruct (spec_exec c a) as [r a1].
  specialize (IH a1 H1 HC HR). by destruct (run_commands spec_exec cs a1).
Qed.

Lemma reach_refines capacity symbol b : reach capacity symbol b ->
  exists a, refines b a /\ sb_ok a.
Proof.
  induction 1 as [H|b c _ (a & HA & HO) HC HR].
  - exists (spec_new capacity symbol). split; [by apply new_refines|].
    apply (spec_clear_ok True (spec_new capacity symbol)).
  - exists (spec_exec c a).2. split; [by apply exec_ok|by apply spec_exec_ok].
Qed.

Lemma refines_facts b a : refines b a ->
  Forall (fun m => 0 < o_qty m < 2 ^ 32) (sb_orders a) /\ NoDup (o_id <$> sb_orders a) /\
  (length (sb_orders a) <= length (nodes_ b))%nat /\
  active_count_ b = Z.of_nat (length (sb_orders a)) /\ stp_policy_ b = sb_policy a /\
  symbol_ b = sb_symbol a.
Proof.
  intros HA. pose proof (refines_queries b a (replacement {| rep_order_id := 0; rep_client_id := 0;
    rep_new_price := 0; rep_new_quantity := 0; rep_symbol := 0 |} Buy 0) HA)
    as (_ & _ & _ & _ & HL & HC & ND).
  destruct HA as (g & HR & HE & ->). split_and!; try done.
  - apply Forall_forall. intros o Ho. apply elem_orders in Ho as (i & Hi & ->).
    by destruct (locate b g HR i Hi) as (? & ? & ? & ? & _ & (_ & _ & _ & H)).
  - by rewrite orders_length, (rep_count _ _ HR).
Qed.

(** ** Views of a resting book *)

Definition resting_total (rs : list OrderRequest) : Z := sumZ (req_quantity <$> rs).

Definition of_side (s : Side) (rs : list OrderRequest) : list OrderRequest :=
  filter (fun r => req_side r = s) rs.

Lemma resting_total_spec a : resting_total (spec_resting a) = total (sb_orders a).
Proof.
  unfold resting_total, spec_resting, total, sb_orders.
  by rewrite !fmap_app, <- !list_fmap_compose.
Qed.

Lemma resting_ids a : req_order_id <$> spec_resting a = o_id <$> sb_orders a.
Proof. unfold spec_resting, sb_orders. by rewrite !fmap_app, <- !list_fmap_compose. Qed.

Lemma resting_length a : length (spec_resting a) = length (sb_orders a).
Proof. unfold spec_resting, sb_orders. by rewrite !length_app, !length_fmap. Qed.

Lemma elem_resting a r : r ∈ spec_resting a <->
  exists s o, o ∈ sb_side a s /\ r = request_of (sb_symbol a) s o.
Proof.
  unfold spec_resting. rewrite elem_of_app, !list_elem_of_fmap. split.
  - intros [(o & -> & Ho)|(o & -> & Ho)]; [by exists Buy, o|by exists Sell, o].
  - intros ([] & o & Ho & ->); [left|right]; by exists o.
Qed.

Lemma side_elem a s o : o ∈ sb_side a s -> o ∈ sb_orders a.
Proof. unfold sb_orders. rewrite elem_of_app. destruct s; auto. Qed.

Lemma of_side_spec a s :
  of_side s (spec_resting a) = request_of (sb_symbol a) s <$> sb_side a s.
Proof.
  assert (forall s1 q, of_side s (request_of (sb_symbol a) s1 <$> q) =
    if decide (s1 = s) then request_of (sb_symbol a) s1 <$> q else []) as HF.
  { intros s1 q. unfold of_side. induction q as [|o q IH]; [by case_decide|].
    rewrite fmap_cons, filter_cons. simpl. rewrite IH. by case_decide. }
  unfold spec_resting, of_side in *. rewrite filter_app, !HF. destruct s; simpl; [by rewrite app_nil_r|done].
Qed.

(** What a command on a reachable book shows, through the abstract book. *)
Definition shows (b : Book) (a : SBook) (rs : list OrderRequest) (out : result bool * Book)
    (spec : bool * SBook) : Prop :=
  rs = spec_resting a /\ out.1 = Ok spec.1 /\ resting_orders out.2 = Ok (spec_resting spec.2) /\
  outbox_ out.2 = sb_outbox spec.2 /\ outbox_ b = sb_outbox a /\
  Forall (fun m => 0 < o_qty m) (sb_orders a).

Lemma shows_view b a rs out spec :
  refines b a -> resting_orders b = Ok rs ->
  (exists b', out = (Ok spec.1, b') /\ refines b' spec.2) -> shows b a rs out spec.
Proof.
  intros HA HV (b' & -> & HB).
  destruct (refines_views b a HA) as (V1 & _ & V2). rewrite HV in V1. injection V1 as ->.
  destruct (refines_views b' _ HB) as (V3 & _ & V4).
  split_and!; try done. eapply Forall_mono; [|apply (refines_facts b a HA)].
  intros m _ Hm. simpl in *. lia.
Qed.

Lemma submit_view capacity symbol b r rs :
  reach capacity symbol b -> in_u32 (req_quantity r) -> resting_orders b = Ok rs ->
  exists a, refines b a /\ sb_ok a /\ shows b a rs (submit r b) (spec_submit r a).
Proof.
  intros HR Hq HV. apply reach_refines in HR as (a & HA & HO). exists a. split_and!; [done..|].
  apply shows_view; [done..|]. by apply submit_ok.
Qed.

Lemma cancel_view capacity symbol b r rs :
  reach capacity symbol b -> resting_orders b = Ok rs ->
  exists a, refines b a /\ sb_ok a /\ shows b a rs (cancel r b) (spec_cancel r a).
Proof.
  intros HR HV. apply reach_refines in HR as (a & HA & HO). exists a. split_and!; [done..|].
  apply shows_view; [done..|]. by apply cancel_ok.
Qed.

Lemma replace_view capacity symbol b r rs :
  reach capacity symbol b -> in_u32 (rep_new_quantity r) -> resting_orders b = Ok rs ->
  exists a, refines b a /\ sb_ok a /\ shows b a rs (replace r b) (spec_replace r a).
Proof.
  intros HR Hq HV. apply reach_refines in HR as (a & HA & HO). exists a. split_and!; [done..|].
  apply shows_view; [done..|]. by apply replace_ok.
Qed.

(** ** Main properties *)

(** C1: from construction on, and for every sequence of commands (restores
    included), the linked and indexed book returns what the price-time book
    returns, never throws anything else and never runs out of fuel, makes the
    same handler calls with the same numbers, and shows the same resting orders
    and state hash. *)
Theorem book_refines_price_time capacity symbol cs :
  Z.of_nat capacity <= npos -> Forall cmd_ok cs ->
  let (rs, b) := run_commands exec cs (OrderBook capacity symbol) in
  let (rs', a) := run_commands spec_exec cs (spec_new capacity symbol) in
  rs = rs' /\ outbox_ b = sb_outbox a /\ resting_orders b = Ok (spec_resting a) /\
  state_hash b = Ok (spec_hash a).
Proof.
  intros Hc HC.
  pose proof (run_ok cs _ _ (new_refines capacity symbol Hc) HC) as [E HA].
  destruct (run_commands exec cs _) as [rs b], (run_commands spec_exec cs _) as [rs' a].
  simpl in *. by destruct (refines_views b a HA) as (H1 & H2 & H3).
Qed.

(** The restores of some commands bring no crossed orders. *)
Definition restores_uncrossed (cs : list Command) : Prop :=
  Forall (fun c => match c with CRestore orders _ => uncrossed orders | _ => True end) cs.

(** C2: whatever commands a new book gets, restores of any orders included and even
    when they throw half way: the resting orders are unsent copies of limit orders
    with distinct identifiers and positive 32-bit quantities, at most [capacity] of
    them and counted by [active_count_], and each side is in priority order of price.
    Every bid is below every ask, as long as no restore brought orders that cross:
    [restore_resting_orders] does not check it. *)
Theorem reachable_book_well_formed capacity symbol cs :
  Z.of_nat capacity <= npos -> Forall cmd_ok cs ->
  let b := (run_commands exec cs (OrderBook capacity symbol)).2 in
  exists rs, resting_orders b = Ok rs /\
    NoDup (req_order_id <$> rs) /\ active_count_ b = Z.of_nat (length rs) /\
    (length rs <= capacity)%nat /\
    Forall (fun r => 0 < req_price r /\ 0 < req_quantity r < 2 ^ 32 /\ req_type r = Limit /\ req_symbol r = symbol) rs /\
    (forall s, StronglySorted (fun p q => before s q p = false) (req_price <$> of_side s rs)) /\
    (restores_uncrossed cs ->
     forall x y, x ∈ of_side Buy rs -> y ∈ of_side Sell rs -> req_price x < req_price y).
Proof.
  intros Hc HC b. destruct (run_ok cs _ _ (new_refines capacity symbol Hc) HC) as [_ HA].
  assert (sb_ok_if (restores_uncrossed cs) (run_commands spec_exec cs (spec_new capacity symbol)).2) as HO.
  { apply spec_run_ok; [apply (spec_clear_ok _ (spec_new capacity symbol))|done|]. apply Forall_forall.
    intros c Hin. destruct c; try done. intros HU. unfold restores_uncrossed in HU. rewrite Forall_forall in HU.
    exact (HU _ Hin). }
  destruct (spec_run_same cs (spec_new capacity symbol)) as [ES EC]. fold b in HA.
  set (a := (run_commands spec_exec cs (spec_new capacity symbol)).2) in *.
  exists (spec_resting a). destruct (refines_views b a HA) as (HV & _).
  destruct (refines_facts b a HA) as (HF & ND & HL & HN & _).
  assert (length (nodes_ b) = capacity) as HCap by (destruct HA as (g & _ & _ & EA); rewrite EA in EC; exact EC).
  split_and!.
  - done.
  - by rewrite resting_ids.
  - by rewrite resting_length.
  - by rewrite resting_length, <- HCap.
  - apply Forall_forall. intros r (s & o & Ho & ->)%elem_resting. split; [|split; [|by split]].
    + apply (ok_side_prices a s HO). by apply (list_elem_of_fmap_2 o_price).
    + rewrite Forall_forall in HF. eapply HF, side_elem, Ho.
  - intros s. rewrite of_side_spec, <- list_fmap_compose. apply (ok_sorted a HO s).
  - intros HU x y. rewrite !of_side_spec, !list_elem_of_fmap.
    intros (o & -> & Ho) (p & -> & Hp). apply (ok_uncrossed_if a HO HU); by apply (list_elem_of_fmap_2 o_price).
Qed.

(** C3: [submit] neither creates nor loses quantity: what rested plus what an
    accepted order brings is what rests afterwards, what the handler calls
    trade (once for each side) and what they cancel or expire. *)
Theorem submit_conserves_quantity capacity symbol b r rs :
  reach capacity symbol b -> in_u32 (req_quantity r) -> resting_orders b = Ok rs ->
  exists ok b' rs' evs, submit r b = (Ok ok, b') /\ resting_orders b' = Ok rs' /\
    emitted_ (outbox_ b') = emitted_ (outbox_ b) ++ evs /\
    resting_total rs + (if ok then req_quantity r else 0) =
    resting_total rs' + 2 * traded evs + withdrawn evs.
Proof.
  intros HR Hq HV.
  destruct (submit_view _ _ _ _ _ HR Hq HV) as (a & _ & _ & -> & E & V1 & V2 & V3 & HF).
  destruct (submit_accounts r a HF (proj1 Hq)) as (evs & [(X & _) A] & _).
  destruct (submit r b) as [res b']. simpl in *. subst res.
  do 4 eexists. split; [done|]. split; [exact V1|]. split; [rewrite V2, V3; exact X|].
  by rewrite !resting_total_spec.
Qed.

(** Every trade of a [submit] is with an order that rested on the other
    side, at that order's price, within the taker's limit, and for no more than
    the quantity of either. *)
Theorem submit_trades_fairly capacity symbol b r rs :
  reach capacity symbol b -> in_u32 (req_quantity r) -> resting_orders b = Ok rs ->
  exists ok b' evs, submit r b = (Ok ok, b') /\
    emitted_ (outbox_ b') = emitted_ (outbox_ b) ++ evs /\
    Forall (fun t => tr_taker_order_id t = req_order_id r /\ crosses r (tr_price t) = true /\
      0 < tr_quantity t <= req_quantity r /\
      exists m, m ∈ rs /\ req_side m = opposite (req_side r) /\
        req_order_id m = tr_maker_order_id t /\ req_price m = tr_price t /\
        tr_quantity t <= req_quantity m) (trades_of evs).
Proof.
  intros HR Hq HV.
  destruct (submit_view _ _ _ _ _ HR Hq HV) as (a & _ & _ & -> & E & V1 & V2 & V3 & HF).
  destruct (submit_accounts r a HF (proj1 Hq)) as (evs & [(X & _) _] & T).
  destruct (submit r b) as [res b']. simpl in *. subst res.
  do 3 eexists. split; [done|]. split; [rewrite V2, V3; exact X|].
  eapply Forall_mono; [|exact T]. intros t _ (H1 & H2 & H3 & m & Hm & H4 & H5 & H6).
  split_and!; try done; try lia. exists (request_of (sb_symbol a) (opposite (req_side r)) m).
  split_and!; try done. apply elem_resting. eauto.
Qed.

(** The quantity that rests at a price. *)
Definition level_quantity (s : Side) (p : Price) (rs : list OrderRequest) : Z :=
  resting_total (filter (fun m => req_price m = p) (of_side s rs)).

Lemma level_quantity_spec a s p :
  level_quantity s p (spec_resting a) = total (filter (fun m => o_price m = p) (sb_side a s)).
Proof.
  unfold level_quantity, resting_total, total. rewrite of_side_spec.
  generalize (sb_side a s). intros q. induction q as [|o q IH]; [done|].
  rewrite fmap_cons, !filter_cons. simpl. case_decide; [by rewrite !fmap_cons, !sumZ_cons, IH|done].
Qed.

(** A fill-or-kill order, when no self-trade prevention is on and no level's
    quantity reaches 2{^32}, is filled whole or leaves the book as it was. *)
Theorem fok_all_or_nothing capacity symbol b r rs :
  reach capacity symbol b -> in_u32 (req_quantity r) -> resting_orders b = Ok rs ->
  req_type r = FOK -> stp_policy_ b = StpNone ->
  (forall p, level_quantity (opposite (req_side r)) p rs < 2 ^ 32) ->
  exists ok b' rs' evs, submit r b = (Ok ok, b') /\ resting_orders b' = Ok rs' /\
    emitted_ (outbox_ b') = emitted_ (outbox_ b) ++ evs /\
    if ok then traded evs = req_quantity r /\ resting_total rs' = resting_total rs - req_quantity r
    else trades_of evs = [] /\ rs' = rs.
Proof.
  intros HR Hq HV HT HP HL.
  destruct (submit_view _ _ _ _ _ HR Hq HV) as (a & HA & _ & -> & E & V1 & V2 & V3 & HF).
  destruct (refines_facts b a HA) as (_ & _ & _ & _ & HP' & _). rewrite HP in HP'. symmetry in HP'.
  destruct (fok_spec r a HT HP' Hq) as [[reason ES]|(evs & a' & ES & X & T & TT)]; [|done|..].
  { apply Forall_forall. intros [p os] Hin. simpl. eapply Z.le_lt_trans; [|apply (HL p)].
    rewrite level_quantity_spec. apply block_total; [|done].
    unfold sb_orders in HF. apply Forall_app in HF as [H1 H2]. by destruct (req_side r). }
  - rewrite ES in *. destruct (submit r b) as [res b']. simpl in *. subst res.
    do 4 eexists. split; [done|]. split; [exact V1|]. split; [rewrite V2, V3; apply extends_report|].
    by split.
  - rewrite ES in *. destruct (submit r b) as [res b']. simpl in *. subst res.
    do 4 eexists. split; [done|]. split; [exact V1|]. split; [rewrite V2, V3; apply X|].
    by rewrite !resting_total_spec.
Qed.

(** An order in its place: behind every order of its side that is at least as
    good, before every order of its side that is worse. *)
Definition in_priority (x : OrderRequest) (r1 r2 : list OrderRequest) : Prop :=
  let worse m := before (req_side x) (req_price x) (req_price m) in
  Forall (fun m => req_side m = req_side x -> worse m = false) r1 /\
  Forall (fun m => req_side m = req_side x -> worse m = true) r2.

Lemma enqueue_in_priority a s o : sb_ok a ->
  exists r1 r2, spec_resting a = r1 ++ r2 /\
    spec_resting (sb_set_side a s (enqueue s o (sb_side a s))) =
      r1 ++ request_of (sb_symbol a) s o :: r2 /\
    in_priority (request_of (sb_symbol a) s o) r1 r2.
Proof.
  intros HO. destruct (enqueue_split s o _ (ok_sorted a HO s)) as (q1 & q2 & E1 & E2 & F1 & F2).
  set (f := request_of (sb_symbol a) s).
  assert (forall (P : Price -> Prop) q, Forall (fun x => P (o_price x)) q ->
    Forall (fun m => req_side m = s -> P (req_price m)) (f <$> q)) as HS.
  { intros P q H. apply Forall_fmap. eapply Forall_impl; [exact H|]. by intros x Hx _. }
  assert (forall (P : Price -> Prop) q, Forall (fun m => req_side m = s -> P (req_price m))
    (request_of (sb_symbol a) (opposite s) <$> q)) as HN.
  { intros P q. apply Forall_fmap, Forall_true. intros x. by destruct s. }
  pose proof (HS (fun p => before s (o_price o) p = false) _ F1).
  pose proof (HS (fun p => before s (o_price o) p = true) _ F2).
  unfold in_priority, spec_resting. destruct s; simpl in *; rewrite E2, E1, !fmap_app, fmap_cons.
  - exists (f <$> q1), ((f <$> q2) ++ (request_of (sb_symbol a) Sell <$> sb_asks a)).
    split_and!; [by rewrite app_assoc|by rewrite <- app_assoc|done|].
    apply Forall_app. split; [done|]. apply (HN (fun p => before Buy (o_price o) p = true)).
  - exists ((request_of (sb_symbol a) Buy <$> sb_bids a) ++ (f <$> q1)), (f <$> q2).
    split_and!; [by rewrite app_assoc|by rewrite <- app_assoc| |done].
    apply Forall_app. split; [|done]. apply (HN (fun p => before Sell (o_price o) p = false)).
Qed.

(** A post-only order never trades; it is refused with one report, or it
    rests with its whole quantity in its price-time place. *)
Theorem post_only_never_trades capacity symbol b r rs :
  reach capacity symbol b -> in_u32 (req_quantity r) -> resting_orders b = Ok rs ->
  req_type r = PostOnly ->
  exists ok b' rs' e, submit r b = (Ok ok, b') /\ resting_orders b' = Ok rs' /\
    emitted_ (outbox_ b') = emitted_ (outbox_ b) ++ [EReport e] /\
    er_order_id e = req_order_id r /\ er_status e = (if ok then Accepted else Rejected) /\
    if ok then exists r1 r2 x, rs = r1 ++ r2 /\ rs' = r1 ++ x :: r2 /\ in_priority x r1 r2 /\
      req_order_id x = req_order_id r /\ req_client_id x = req_client_id r /\
      req_quantity x = req_quantity r /\ req_price x = req_price r /\ req_side x = req_side r
    else rs' = rs.
Proof.
  intros HR Hq HV HT.
  destruct (submit_view _ _ _ _ _ HR Hq HV) as (a & _ & HO & -> & E & V1 & V2 & V3 & _).
  destruct (post_only_spec r a HT (proj1 Hq)) as [[reason ES]|ES]; rewrite ES in *;
    destruct (submit r b) as [res b']; simpl in *; subst res; do 4 eexists;
    (split; [done|]; split; [exact V1|]; split; [rewrite V2, V3; apply extends_report|]).
  - by split_and!.
  - destruct (enqueue_in_priority a (req_side r) (order_of_request r (req_quantity r)) HO)
      as (r1 & r2 & E1 & E2 & HP).
    split_and!; [done|done|]. exists r1, r2. eexists. split_and!; [exact E1|exact E2|exact HP|done..].
Qed.

(** What a request keeps when it is only reduced. *)
Definition rq_key (r : OrderRequest) : OrderId * ClientId * Side * Price :=
  (req_order_id r, req_client_id r, req_side r, req_price r).

Lemma resting_keys a a' :
  (forall s, okey <$> sb_side a' s `sublist_of` okey <$> sb_side a s) ->
  rq_key <$> spec_resting a' `sublist_of` rq_key <$> spec_resting a.
Proof.
  intros H. unfold spec_resting. rewrite !fmap_app.
  assert (forall sym s q, rq_key <$> (request_of sym s <$> q) =
    (fun e : OrderId * ClientId * Price => (e.1.1, e.1.2, s, e.2)) <$> (okey <$> q)) as HK
    by (intros; by rewrite <- !list_fmap_compose).
  rewrite !HK. apply sublist_app; apply fmap_sublist; [apply (H Buy)|apply (H Sell)].
Qed.

(** Market, immediate-or-cancel and fill-or-kill orders never rest: what
    rests after them rested before, in the same order. *)
Theorem immediate_orders_never_rest capacity symbol b r rs :
  reach capacity symbol b -> in_u32 (req_quantity r) -> resting_orders b = Ok rs ->
  req_type r = Market \/ req_type r = IOC \/ req_type r = FOK ->
  exists ok b' rs', submit r b = (Ok ok, b') /\ resting_orders b' = Ok rs' /\
    rq_key <$> rs' `sublist_of` rq_key <$> rs.
Proof.
  intros HR Hq HV HT.
  destruct (submit_view _ _ _ _ _ HR Hq HV) as (a & _ & _ & -> & E & V1 & _).
  destruct (submit r b) as [res b']. simpl in *. subst res.
  do 3 eexists. split; [done|]. split; [exact V1|]. apply resting_keys. intros s.
  apply immediate_spec; [|apply Hq]. by destruct HT as [-> |[-> | ->]].
Qed.

Lemma resting_filter a id :
  filter (fun m => req_order_id m ≠ id) (spec_resting a) =
  (request_of (sb_symbol a) Buy <$> remove_order id (sb_bids a)) ++
  (request_of (sb_symbol a) Sell <$> remove_order id (sb_asks a)).
Proof.
  assert (forall sym s q, filter (fun m => req_order_id m ≠ id) (request_of sym s <$> q) =
    request_of sym s <$> remove_order id q) as HF.
  { intros sym s q. unfold remove_order. induction q as [|o q IH]; [done|].
    rewrite fmap_cons, !filter_cons. simpl. case_decide; [by rewrite fmap_cons, IH|done]. }
  unfold spec_resting. by rewrite filter_app, !HF.
Qed.

Lemma find_resting a id : NoDup (o_id <$> sb_orders a) ->
  forall m, m ∈ spec_resting a -> req_order_id m = id ->
  exists s o, spec_find id a = Some (s, o) /\ m = request_of (sb_symbol a) s o.
Proof.
  intros ND m (s & o & Ho & ->)%elem_resting Hid. exists s, o. split; [|done].
  rewrite <- Hid. by apply spec_find_elem.
Qed.

(** [cancel] succeeds exactly for a resting order of the client; it then
    takes that order and nothing else out of the book, and otherwise changes no
    order; either way it makes one report and trades nothing. *)
Theorem cancel_removes_exactly capacity symbol b r rs :
  reach capacity symbol b -> resting_orders b = Ok rs ->
  exists ok b' rs' e, cancel r b = (Ok ok, b') /\ resting_orders b' = Ok rs' /\
    emitted_ (outbox_ b') = emitted_ (outbox_ b) ++ [EReport e] /\
    er_status e = (if ok then Cancelled else Rejected) /\
    (ok = true <-> exists m, m ∈ rs /\ req_order_id m = can_order_id r /\
                             req_client_id m = can_client_id r) /\
    rs' = (if ok then filter (fun m => req_order_id m ≠ can_order_id r) rs else rs) /\
    length rs = (length rs' + if ok then 1 else 0)%nat.
Proof.
  intros HR HV.
  destruct (cancel_view _ _ _ r _ HR HV) as (a & HA & _ & -> & E & V1 & V2 & V3 & _).
  destruct (refines_facts b a HA) as (_ & ND & _).
  pose proof (find_resting a (can_order_id r) ND) as HFR.
  unfold spec_cancel in *. destruct (spec_find (can_order_id r) a) as [[s o]|] eqn:EF.
  - pose proof (spec_find_some _ _ _ _ EF) as [Ho Hid].
    destruct (spec_remove_both s _ o a ND EF) as (HS & HL & _).
    destruct (o_client o =? can_client_id r) eqn:EC; simpl in *; breflect;
      destruct (cancel r b) as [res b']; simpl in *; subst res; do 4 eexists;
      (split; [done|]; split; [exact V1|]; split; [rewrite V2, V3; apply extends_report|]); simpl.
    + split_and!; [done|split; [intros _|done]|..].
      * exists (request_of (sb_symbol a) s o). split_and!; [apply elem_resting; eauto|done|done].
      * rewrite resting_filter, <- (HS Buy : sb_bids _ = remove_order _ (sb_bids a)),
          <- (HS Sell : sb_asks _ = remove_order _ (sb_asks a)). done.
      * rewrite !resting_length. rewrite HL. change (sb_orders (sb_report _ _ _ _ ?x)) with (sb_orders x). lia.
    + split_and!; [done|split; [done|]|done|by rewrite Nat.add_0_r].
      intros (m & Hm & Hi & Hc). destruct (HFR m Hm Hi) as (s' & o' & [= <- <-] & ->). done.
  - simpl in *. destruct (cancel r b) as [res b']; simpl in *; subst res; do 4 eexists;
      (split; [done|]; split; [exact V1|]; split; [rewrite V2, V3; apply extends_report|]); simpl.
    split_and!; [done|split; [done|]|done|by rewrite Nat.add_0_r].
    intros (m & Hm & Hi & Hc). by destruct (HFR m Hm Hi) as (s' & o' & ? & _).
Qed.

(** A resting request with another quantity. *)
Definition with_quantity (q : Quantity) (m : OrderRequest) : OrderRequest := {|
  req_order_id := req_order_id m; req_client_id := req_client_id m; req_side := req_side m;
  req_type := req_type m; req_price := req_price m; req_quantity := q;
  req_symbol := req_symbol m |}.

Lemma resize_absent id n q : id ∉ o_id <$> q -> resize_order id n q = q.
Proof.
  unfold resize_order. induction q as [|o q IH]; [done|]. rewrite fmap_cons, not_elem_of_cons.
  intros [H1 H2]. rewrite fmap_cons, IH by done. by rewrite (proj2 (Z.eqb_neq _ _)).
Qed.

Lemma resting_resize a s o id n :
  NoDup (o_id <$> sb_orders a) -> spec_find id a = Some (s, o) ->
  spec_resting (sb_set_side a s (resize_order id n (sb_side a s))) =
  (fun m => if req_order_id m =? id then with_quantity n m else m) <$> spec_resting a.
Proof.
  intros ND HF. apply spec_find_some in HF as [Ho Hid].
  unfold sb_orders in ND. rewrite fmap_app in ND. apply NoDup_app in ND as (_ & N2 & _).
  assert (id ∈ o_id <$> sb_side a s) as Hs by (rewrite <- Hid; by apply list_elem_of_fmap_2).
  assert (forall sym s q, (fun m => if req_order_id m =? id then with_quantity n m else m) <$>
    (request_of sym s <$> q) = request_of sym s <$> resize_order id n q) as HK.
  { intros sym s' q. unfold resize_order. rewrite <- !list_fmap_compose. apply list_fmap_ext.
    intros k x _. simpl. by case_if. }
  unfold spec_resting. rewrite fmap_app, !HK. destruct s; simpl in *; f_equal.
  - by rewrite (resize_absent id n (sb_asks a)) by (by apply N2).
  - rewrite (resize_absent id n (sb_bids a)); [done|]. intros H. by apply (N2 id).
Qed.

(** Reducing an order at its price keeps its place: only its quantity
    changes, and nothing trades. *)
Theorem replace_in_place_keeps_priority capacity symbol b r rs m :
  reach capacity symbol b -> resting_orders b = Ok rs -> m ∈ rs ->
  req_order_id m = rep_order_id r -> req_client_id m = rep_client_id r ->
  rep_new_price r = req_price m -> 0 < rep_new_quantity r <= req_quantity m ->
  exists b' e, replace r b = (Ok true, b') /\
    resting_orders b' = Ok ((fun x => if req_order_id x =? rep_order_id r
                                      then with_quantity (rep_new_quantity r) x else x) <$> rs) /\
    emitted_ (outbox_ b') = emitted_ (outbox_ b) ++ [EReport e] /\
    er_status e = Replaced /\ er_remaining e = rep_new_quantity r.
Proof.
  intros HR HV Hm Hid Hc Hp Hq.
  assert (in_u32 (rep_new_quantity r)) as Hu.
  { apply reach_refines in HR as (a & HA & HO).
    destruct (refines_views b a HA) as (V & _). rewrite HV in V. injection V as ->.
    apply elem_resting in Hm as (s & o & Ho & ->).
    destruct (refines_facts b a HA) as (HF & _). rewrite Forall_forall in HF.
    specialize (HF o (side_elem a s o Ho)). simpl in *. unfold in_u32. lia. }
  destruct (replace_view _ _ _ r _ HR Hu HV) as (a & HA & HO & -> & E & V1 & V2 & V3 & _).
  destruct (refines_facts b a HA) as (_ & ND & _).
  destruct (find_resting a (rep_order_id r) ND m Hm Hid) as (s & o & EF & ->). simpl in *.
  pose proof (spec_find_some _ _ _ _ EF) as [Ho _].
  pose proof (ok_side_prices a s HO (o_price o) (list_elem_of_fmap_2 o_price _ _ Ho)) as Hpos.
  assert (spec_replace r a = (true, sb_report (rep_order_id r) Replaced (rep_new_quantity r) RejectNone
    (sb_set_side a s (resize_order (rep_order_id r) (rep_new_quantity r) (sb_side a s))))) as ES.
  { unfold spec_replace. rewrite EF, (proj2 (Z.eqb_eq _ _) Hc). simpl.
    rewrite Hp, (proj2 (Z.leb_gt _ _) Hpos), (proj2 (Z.eqb_neq _ _)), Z.eqb_refl,
      (proj2 (Z.leb_le _ _)) by lia. done. }
  rewrite ES in *. destruct (replace r b) as [res b']. simpl in *. subst res.
  do 2 eexists. split; [done|]. split; [|split; [rewrite V2, V3; apply extends_report|done]].
  rewrite V1, <- (resting_resize a s o) by done. by destruct s.
Qed.

(** A client's replacement of its own resting order by a positive price and
    quantity is never refused, so the order is not lost between its removal and
    its new entry. *)
Theorem replace_never_loses_order capacity symbol b r rs m :
  reach capacity symbol b -> resting_orders b = Ok rs -> m ∈ rs ->
  req_order_id m = rep_order_id r -> req_client_id m = rep_client_id r ->
  0 < rep_new_price r -> 0 < rep_new_quantity r < 2 ^ 32 ->
  exists b', replace r b = (Ok true, b').
Proof.
  intros HR HV Hm Hid Hc Hp Hq.
  destruct (replace_view _ _ _ r _ HR ltac:(unfold in_u32; lia) HV) as (a & HA & _ & -> & E & _).
  destruct (refines_facts b a HA) as (_ & ND & _).
  destruct (refines_queries b a (replacement r Buy 0) HA) as (_ & _ & _ & _ & _ & HL & _).
  destruct (find_resting a (rep_order_id r) ND m Hm Hid) as (s & o & EF & ->). simpl in *.
  rewrite (spec_replace_enters r s o a) in E by (done || lia).
  destruct (replace r b) as [res b']. simpl in E. subst res. by exists b'.
Qed.

(** The handler calls of a command carry consecutive sequence numbers, the
    first one after the book's counter. *)
Theorem sequence_numbers_consecutive capacity symbol b c :
  reach capacity symbol b -> cmd_ok c ->
  match c with CSubmit _ | CCancel _ | CReplace _ => True | _ => False end ->
  exists evs, emitted_ (outbox_ (exec c b).2) = emitted_ (outbox_ b) ++ evs /\
    (forall i e, evs !! i = Some e ->
       event_sequence e = u64 (sequence_ (outbox_ b) + Z.of_nat i + 1)) /\
    u64 (sequence_ (outbox_ (exec c b).2)) = u64 (sequence_ (outbox_ b) + Z.of_nat (length evs)).
Proof.
  intros HR HC HK. apply reach_refines in HR as (a & HA & _).
  destruct (exec_ok c b a HA HC) as [_ HA'].
  destruct (refines_views _ _ HA) as (_ & _ & ->). destruct (refines_views _ _ HA') as (_ & _ & ->).
  assert (exists evs, extends (sb_outbox a) evs (sb_outbox (spec_exec c a).2)) as (evs & X1 & X2 & X3 & X4).
  { destruct c; try done; simpl.
    - apply spec_submit_extends, HC.
    - apply spec_cancel_extends.
    - apply spec_replace_extends, HC. }
  exists evs. split_and!; [done|done|]. destruct evs as [|e evs].
  - rewrite X4 by done. f_equal. simpl. lia.
  - rewrite X3 by done. unfold u64. by rewrite Z.mod_mod.
Qed.

(** Restoring what a well-formed book shows into another book of the instrument. *)
Lemma restore_back b a b0 a0 rs seq h :
  refines b a -> sb_ok a -> refines b0 a0 -> resting_orders b = Ok rs -> state_hash b = Ok h ->
  (length rs <= length (nodes_ b0))%nat -> symbol_ b0 = symbol_ b ->
  exists b' a', restore_resting_orders rs seq b0 = (Ok tt, b') /\ refines b' a' /\ sb_ok a' /\
    resting_orders b' = Ok rs /\ state_hash b' = Ok h /\ sequence_ (outbox_ b') = seq /\
    emitted_ (outbox_ b') = emitted_ (outbox_ b0) /\ stp_policy_ b' = stp_policy_ b0 /\
    symbol_ b' = symbol_ b0 /\ length (nodes_ b') = length (nodes_ b0).
Proof.
  intros HA HO HA0 HV HH HL HS.
  destruct (refines_views b a HA) as (V1 & V2 & _). rewrite HV in V1. injection V1 as ->.
  rewrite HH in V2. injection V2 as ->. rewrite resting_length in HL.
  destruct (refines_facts b a HA) as (HF & ND & _ & _ & _ & ES).
  destruct (refines_facts b0 a0 HA0) as (_ & _ & _ & _ & EP0 & ES0).
  assert (length (nodes_ b0) = sb_capacity a0) as HCap by (by destruct HA0 as (g0 & _ & _ & ->)).
  destruct (refines_views b0 a0 HA0) as (_ & _ & VO).
  assert (Forall (fun r => in_u32 (req_quantity r)) (spec_resting a)) as HQ.
  { apply Forall_forall. intros r (s & o & Ho & ->)%elem_resting. rewrite Forall_forall in HF.
    specialize (HF o (side_elem a s o Ho)). simpl in *. unfold in_u32. lia. }
  destruct (restore_ok b0 a0 (spec_resting a) seq HA0 HQ) as (b' & E & HB).
  assert (Forall (fun o => 0 < o_qty o) (sb_orders a)) as HF'.
  { eapply Forall_mono; [|exact HF]. intros o _ Ho. simpl in *. lia. }
  pose proof (spec_restore_resting a a0 HO ND HF' ltac:(lia) ltac:(congruence)) as EL.
  unfold spec_restore in *. rewrite EL in *. simpl in *.
  destruct (refines_views b' _ HB) as (W1 & W2 & W3).
  destruct (refines_facts b' _ HB) as (_ & _ & _ & _ & EP' & ES').
  exists b'. eexists. split; [done|]. split; [exact HB|]. split; [revert HO; by apply ok_sublist; intros []|].
  rewrite W1, W2, W3, VO, EP', ES'. unfold spec_resting, spec_hash, sb_orders. simpl.
  rewrite EP0, ES0, <- ES, <- HS, ES0. split_and!; try done.
  rewrite HCap. by destruct HB as (g' & _ & _ & [= _ -> _ _ _ _]).
Qed.

(** C4: a snapshot round trip: restoring the resting orders of a book into any
    reachable book of the same instrument that can hold them gives those orders
    back, in order, with the snapshot's sequence number and state hash, and
    without a handler call. *)
Theorem restore_snapshot_roundtrip capacity symbol b rs capacity' b0 seq h :
  reach capacity symbol b -> resting_orders b = Ok rs -> state_hash b = Ok h ->
  reach capacity' symbol b0 -> (length rs <= length (nodes_ b0))%nat -> symbol_ b0 = symbol_ b ->
  exists b', restore_resting_orders rs seq b0 = (Ok tt, b') /\ resting_orders b' = Ok rs /\
    state_hash b' = Ok h /\ sequence_ (outbox_ b') = seq /\
    emitted_ (outbox_ b') = emitted_ (outbox_ b0).
Proof.
  intros HR HV HH HR0 HL HS. apply reach_refines in HR as (a & HA & HO).
  apply reach_refines in HR0 as (a0 & HA0 & _).
  destruct (restore_back b a b0 a0 rs seq h) as (b' & a' & H1 & _ & _ & H2 & H3 & H4 & H5 & _);
    [done..|]. by exists b'.
Qed.

(** price-time priority: without self-trade prevention the trades of a
    [submit] are with the resting orders of the other side in their order, each
    at its maker's price, and each but the last takes its maker whole. *)
Theorem trades_follow_priority capacity symbol b r rs :
  reach capacity symbol b -> in_u32 (req_quantity r) -> resting_orders b = Ok rs ->
  stp_policy_ b = StpNone ->
  exists ok b' evs, submit r b = (Ok ok, b') /\
    emitted_ (outbox_ b') = emitted_ (outbox_ b) ++ evs /\
    forall i t, trades_of evs !! i = Some t ->
    exists m, of_side (opposite (req_side r)) rs !! i = Some m /\
      tr_maker_order_id t = req_order_id m /\ tr_price t = req_price m /\
      (tr_quantity t = req_quantity m \/ S i = length (trades_of evs)).
Proof.
  intros HR Hq HV HP.
  destruct (submit_view _ _ _ _ _ HR Hq HV) as (a & HA & _ & -> & E & V1 & V2 & V3 & HF).
  destruct (refines_facts b a HA) as (_ & _ & _ & _ & HP' & _). rewrite HP in HP'.
  destruct (spec_submit_extends r a (proj1 Hq)) as [evs X].
  assert (Forall (fun m => 0 < o_qty m) (sb_side a (opposite (req_side r)))) as HF'.
  { unfold sb_orders in HF. apply Forall_app in HF as [H1 H2]. by destruct (req_side r). }
  pose proof (submit_priority r a evs (eq_sym HP') (proj1 Hq) HF' X) as HT.
  destruct (submit r b) as [res b']. simpl in *. subst res.
  do 3 eexists. split; [done|]. split; [rewrite V2, V3; apply X|].
  intros i t Ht. destruct (HT i t Ht) as (m & Hm & H1 & H2 & H3).
  exists (request_of (sb_symbol a) (opposite (req_side r)) m).
  rewrite of_side_spec, list_lookup_fmap, Hm. by split_and!.
Qed.

(** The price levels of the resting orders of a side. *)
Definition book_levels (s : Side) (rs : list OrderRequest) : list (Price * list Order) :=
  by_level ((fun r => order_of_request r (req_quantity r)) <$> of_side s rs).

Lemma book_levels_spec a s : book_levels s (spec_resting a) = by_level (sb_side a s).
Proof.
  unfold book_levels. rewrite of_side_spec, <- list_fmap_compose. f_equal.
  transitivity (id <$> sb_side a s); [|by rewrite list_fmap_id].
  apply list_fmap_ext. intros i o _. by destruct o.
Qed.

Lemma collect_depth_take source : forall size n, size <= n ->
  collect_depth source size n =
  take (Z.to_nat (n - size)) ((fun e : Price * Level => {| dl_price := e.1;
    dl_quantity := lv_total e.2; dl_order_count := lv_order_count e.2 |}) <$> source).
Proof.
  induction source as [|[p lv] source IH]; intros size n Hn; simpl; [by rewrite take_nil|].
  destruct (Z.eqb_spec size n) as [->|Hne]; [by rewrite Z.sub_diag|].
  rewrite IH by lia. replace (Z.to_nat (n - size)) with (S (Z.to_nat (n - (size + 1)))) by lia. done.
Qed.

(** [depth] shows the first [n] price levels of the resting orders of a
    side, each with its number of orders and the sum of their quantities, both
    reduced to 32 bits. *)
Theorem depth_shows_levels capacity symbol b rs s n :
  reach capacity symbol b -> resting_orders b = Ok rs -> 0 <= n ->
  depth s n b = take (Z.to_nat n) ((fun e : Price * list Order => {| dl_price := e.1;
    dl_quantity := u32 (sumZ (o_qty <$> e.2));
    dl_order_count := u32 (Z.of_nat (length e.2)) |}) <$> book_levels s rs).
Proof.
  intros HR HV Hn. apply reach_refines in HR as (a & (g & HG & HE & ->) & _).
  rewrite (resting_ok b g HG) in HV. injection HV as <-.
  rewrite book_levels_spec. unfold depth. rewrite collect_depth_take by done. rewrite Z.sub_0_r.
  f_equal. pose proof (levels_view b g HG HE s) as H.
  apply (f_equal (fmap (fun e : Price * Z * Z => {| dl_price := e.1.1; dl_quantity := e.1.2;
    dl_order_count := e.2 |}))) in H. by rewrite <- !list_fmap_compose in H.
Qed.

(** ** What the refinement shows of fill-or-kill orders *)

Definition order (id client : Z) (s : Side) (t : OrderType) (p q : Z) : OrderRequest := {|
  req_order_id := id; req_client_id := client; req_side := s; req_type := t;
  req_price := p; req_quantity := q; req_symbol := 1 |}.

Definition book_after (cs : list Command) : Book :=
  (run_commands exec cs (OrderBook 8 1)).2.

(** The availability test counts the taker's own resting orders, so with
    [CancelOldest] an accepted fill-or-kill order can be filled in part and
    expire. *)
Example fok_with_self_trade_prevention_fills_in_part :
  exists evs,
    let b := book_after [CSetPolicy CancelOldest; CSubmit (order 1 7 Sell Limit 100 5);
                         CSubmit (order 2 8 Sell Limit 101 5)] in
    (submit (order 3 7 Buy FOK 101 10) b).1 = Ok true /\
    emitted_ (outbox_ (submit (order 3 7 Buy FOK 101 10) b).2) = emitted_ (outbox_ b) ++ evs /\
    traded evs = 5 /\ withdrawn evs = 10.
Proof. eexists. vm_compute. by split_and!. Qed.

(** A level's total wraps at 2{^32}, so that a book with 2{^32} units
    offered at one price refuses a fill-or-kill order for one of them. *)
Example level_total_wraps :
  let b := book_after [CSubmit (order 1 7 Sell Limit 100 (2 ^ 31));
                       CSubmit (order 2 8 Sell Limit 100 (2 ^ 31))] in
  quantity_at Sell 100 b = 0 /\ (submit (order 3 9 Buy FOK 100 1) b).1 = Ok false /\
  (submit (order 3 9 Buy IOC 100 1) b).1 = Ok true.
Proof. vm_compute. by split_and!. Qed.

(** ** Witnesses *)

Definition demo_commands : list Command :=
  [CSubmit (order 1 7 Sell Limit 100 5); CSubmit (order 2 8 Sell Limit 101 5);
   CSubmit (order 3 9 Buy Limit 99 4)].

Definition demo_book : Book :=
  (exec (CSubmit (order 3 9 Buy Limit 99 4))
    (exec (CSubmit (order 2 8 Sell Limit 101 5))
      (exec (CSubmit (order 1 7 Sell Limit 100 5)) (OrderBook 8 1)).2).2).2.

Definition demo_resting : list OrderRequest :=
  [order 3 9 Buy Limit 99 4; order 1 7 Sell Limit 100 5; order 2 8 Sell Limit 101 5].

Lemma demo_reach : reach 8 1 demo_book.
Proof.
  unfold demo_book. repeat (apply reach_step; [|by split|done]). by apply reach_new.
Qed.

Lemma demo_view : resting_orders demo_book = Ok demo_resting.
Proof. vm_compute. reflexivity. Qed.

Lemma book_refines_price_time_witness :
  let (rs, b) := run_commands exec demo_commands (OrderBook 8 1) in
  let (rs', a) := run_commands spec_exec demo_commands (spec_new 8 1) in
  rs = rs' /\ outbox_ b = sb_outbox a /\ resting_orders b = Ok (spec_resting a) /\
  state_hash b = Ok (spec_hash a).
Proof.
  apply (book_refines_price_time 8 1 demo_commands); [done|repeat constructor; done].
Defined.

(** Orders, a restore of a snapshot, and a taker. *)
Definition restored_commands : list Command :=
  demo_commands ++ [CRestore demo_resting 9; CSubmit (order 4 9 Buy Limit 101 8)].

Lemma restored_uncrossed : restores_uncrossed restored_commands.
Proof.
  repeat (apply Forall_cons; split; [done|]). apply Forall_cons. split; [|by repeat constructor].
  unfold demo_resting. intros x y Hx Hy. rewrite !elem_of_cons in Hx, Hy.
  destruct Hx as [->|[->|[->|[]%elem_of_nil]]], Hy as [->|[->|[->|[]%elem_of_nil]]]; intros; (done || cbn; lia).
Qed.

Lemma reachable_book_well_formed_witness :
  let b := (run_commands exec restored_commands (OrderBook 8 1)).2 in
  exists rs, resting_orders b = Ok rs /\ length rs = 2%nat /\ NoDup (req_order_id <$> rs) /\
    (forall x y, x ∈ of_side Buy rs -> y ∈ of_side Sell rs -> req_price x < req_price y).
Proof.
  destruct (reachable_book_well_formed 8 1 restored_commands) as (rs & H1 & H2 & _ & _ & _ & _ & H3);
    [done|by repeat constructor|]. exists rs. split; [exact H1|]. split; [|split; [exact H2|exact (H3 restored_uncrossed)] ].
  assert (length <$> (match resting_orders (run_commands exec restored_commands (OrderBook 8 1)).2 with Ok l => Some l | _ => None end)
    = Some 2%nat) as E by (vm_compute; reflexivity).
  rewrite H1 in E. by injection E.
Defined.

(** A restore does not look for a crossed book. *)
Example restore_may_cross :
  let b := (run_commands exec [CRestore [order 1 7 Buy Limit 101 5; order 2 8 Sell Limit 100 5] 3] (OrderBook 8 1)).2 in
  resting_orders b = Ok [order 1 7 Buy Limit 101 5; order 2 8 Sell Limit 100 5].
Proof. vm_compute. reflexivity. Qed.

Lemma submit_conserves_quantity_witness :
  exists ok b' rs' evs, submit (order 4 9 Buy Limit 101 8) demo_book = (Ok ok, b') /\
    resting_orders b' = Ok rs' /\ emitted_ (outbox_ b') = emitted_ (outbox_ demo_book) ++ evs /\
    resting_total demo_resting + (if ok then 8 else 0) =
    resting_total rs' + 2 * traded evs + withdrawn evs.
Proof.
  apply (submit_conserves_quantity 8 1 demo_book (order 4 9 Buy Limit 101 8) demo_resting demo_reach);
    [by split|exact demo_view].
Defined.

Lemma submit_trades_fairly_witness :
  exists ok b' evs, submit (order 4 9 Buy Limit 101 8) demo_book = (Ok ok, b') /\
    emitted_ (outbox_ b') = emitted_ (outbox_ demo_book) ++ evs /\
    Forall (fun t => tr_taker_order_id t = 4 /\
      crosses (order 4 9 Buy Limit 101 8) (tr_price t) = true /\
      0 < tr_quantity t <= 8 /\
      exists m, m ∈ demo_resting /\ req_side m = Sell /\
        req_order_id m = tr_maker_order_id t /\ req_price m = tr_price t /\
        tr_quantity t <= req_quantity m) (trades_of evs).
Proof.
  apply (submit_trades_fairly 8 1 demo_book (order 4 9 Buy Limit 101 8) demo_resting demo_reach);
    [by split|exact demo_view].
Defined.

Lemma fok_all_or_nothing_witness :
  exists ok b' rs' evs, submit (order 4 9 Buy FOK 101 8) demo_book = (Ok ok, b') /\
    resting_orders b' = Ok rs' /\ emitted_ (outbox_ b') = emitted_ (outbox_ demo_book) ++ evs /\
    if ok then traded evs = 8 /\ resting_total rs' = resting_total demo_resting - 8
    else trades_of evs = [] /\ rs' = demo_resting.
Proof.
  apply (fok_all_or_nothing 8 1 demo_book (order 4 9 Buy FOK 101 8) demo_resting demo_reach);
    [by split|exact demo_view|done|done|].
  intros p. unfold level_quantity, resting_total, of_side, demo_resting. simpl.
  repeat (rewrite filter_cons; case_decide); simpl; lia.
Defined.

Lemma post_only_never_trades_witness :
  exists ok b' rs' e, submit (order 4 9 Sell PostOnly 100 8) demo_book = (Ok ok, b') /\
    resting_orders b' = Ok rs' /\
    emitted_ (outbox_ b') = emitted_ (outbox_ demo_book) ++ [EReport e] /\
    er_order_id e = 4 /\ er_status e = (if ok then Accepted else Rejected) /\
    if ok then exists r1 r2 x, demo_resting = r1 ++ r2 /\ rs' = r1 ++ x :: r2 /\ in_priority x r1 r2 /\
      req_order_id x = 4 /\ req_client_id x = 9 /\
      req_quantity x = 8 /\ req_price x = 100 /\ req_side x = Sell
    else rs' = demo_resting.
Proof.
  apply (post_only_never_trades 8 1 demo_book (order 4 9 Sell PostOnly 100 8) demo_resting demo_reach);
    [by split|exact demo_view|done].
Defined.

Lemma immediate_orders_never_rest_witness :
  exists ok b' rs', submit (order 4 9 Buy IOC 100 8) demo_book = (Ok ok, b') /\
    resting_orders b' = Ok rs' /\ rq_key <$> rs' `sublist_of` rq_key <$> demo_resting.
Proof.
  apply (immediate_orders_never_rest 8 1 demo_book (order 4 9 Buy IOC 100 8) demo_resting demo_reach);
    [by split|exact demo_view|by right; left].
Defined.

Definition demo_cancel : CancelRequest :=
  {| can_order_id := 2; can_client_id := 8; can_symbol := 1 |}.

Lemma cancel_removes_exactly_witness :
  exists ok b' rs' e, cancel demo_cancel demo_book = (Ok ok, b') /\ resting_orders b' = Ok rs' /\
    emitted_ (outbox_ b') = emitted_ (outbox_ demo_book) ++ [EReport e] /\
    er_status e = (if ok then Cancelled else Rejected) /\
    (ok = true <-> exists m, m ∈ demo_resting /\ req_order_id m = 2 /\ req_client_id m = 8) /\
    rs' = (if ok then filter (fun m => req_order_id m ≠ 2) demo_resting else demo_resting) /\
    length demo_resting = (length rs' + if ok then 1 else 0)%nat.
Proof.
  apply (cancel_removes_exactly 8 1 demo_book demo_cancel demo_resting demo_reach demo_view).
Defined.

Definition demo_replace (p q : Z) : ReplaceRequest :=
  {| rep_order_id := 2; rep_client_id := 8; rep_new_price := p; rep_new_quantity := q;
     rep_symbol := 1 |}.

Lemma replace_in_place_keeps_priority_witness :
  exists b' e, replace (demo_replace 101 3) demo_book = (Ok true, b') /\
    resting_orders b' = Ok ((fun x => if req_order_id x =? 2 then with_quantity 3 x else x) <$>
                            demo_resting) /\
    emitted_ (outbox_ b') = emitted_ (outbox_ demo_book) ++ [EReport e] /\
    er_status e = Replaced /\ er_remaining e = 3.
Proof.
  apply (replace_in_place_keeps_priority 8 1 demo_book (demo_replace 101 3) demo_resting
    (order 2 8 Sell Limit 101 5) demo_reach demo_view); [|done..].
  do 2 apply list_elem_of_further. constructor.
Defined.

Lemma replace_never_loses_order_witness :
  exists b', replace (demo_replace 98 20) demo_book = (Ok true, b').
Proof.
  apply (replace_never_loses_order 8 1 demo_book (demo_replace 98 20) demo_resting
    (order 2 8 Sell Limit 101 5) demo_reach demo_view); [|done..].
  do 2 apply list_elem_of_further. constructor.
Defined.

Lemma sequence_numbers_consecutive_witness :
  let c := CSubmit (order 4 9 Buy Limit 101 8) in
  exists evs, emitted_ (outbox_ (exec c demo_book).2) = emitted_ (outbox_ demo_book) ++ evs /\
    (forall i e, evs !! i = Some e ->
       event_sequence e = u64 (sequence_ (outbox_ demo_book) + Z.of_nat i + 1)) /\
    u64 (sequence_ (outbox_ (exec c demo_book).2)) =
    u64 (sequence_ (outbox_ demo_book) + Z.of_nat (length evs)).
Proof.
  apply (sequence_numbers_consecutive 8 1 demo_book (CSubmit (order 4 9 Buy Limit 101 8)) demo_reach);
    [by split|done].
Defined.

Definition demo_hash : Z := match state_hash demo_book with Ok h => h | Throw _ => 0 end.

Lemma restore_snapshot_roundtrip_witness :
  exists b', restore_resting_orders demo_resting 9 (OrderBook 4 1) = (Ok tt, b') /\
    resting_orders b' = Ok demo_resting /\ state_hash b' = Ok demo_hash /\
    sequence_ (outbox_ b') = 9 /\ emitted_ (outbox_ b') = emitted_ (outbox_ (OrderBook 4 1)).
Proof.
  apply (restore_snapshot_roundtrip 8 1 demo_book demo_resting 4 (OrderBook 4 1) 9 demo_hash demo_reach
    demo_view); [vm_compute; reflexivity|by apply reach_new|simpl; lia|done].
Defined.

Lemma trades_follow_priority_witness :
  exists ok b' evs, submit (order 4 9 Buy Limit 101 8) demo_book = (Ok ok, b') /\
    emitted_ (outbox_ b') = emitted_ (outbox_ demo_book) ++ evs /\
    forall i t, trades_of evs !! i = Some t ->
    exists m, of_side Sell demo_resting !! i = Some m /\
      tr_maker_order_id t = req_order_id m /\ tr_price t = req_price m /\
      (tr_quantity t = req_quantity m \/ S i = length (trades_of evs)).
Proof.
  apply (trades_follow_priority 8 1 demo_book (order 4 9 Buy Limit 101 8) demo_resting demo_reach);
    [by split|exact demo_view|done].
Defined.

Lemma depth_shows_levels_witness :
  depth Sell 1 demo_book = take 1 ((fun e : Price * list Order => {| dl_price := e.1;
    dl_quantity := u32 (sumZ (o_qty <$> e.2));
    dl_order_count := u32 (Z.of_nat (length e.2)) |}) <$> book_levels Sell demo_resting).
Proof.
  apply (depth_shows_levels 8 1 demo_book demo_resting Sell 1 demo_reach demo_view). lia.
Defined.
