(* ===== verification/Bytes.v ===== *)
(** * Byte strings

    What the binary formats share: a byte is a [Z] in range, an unsigned
    integer of [n] bytes is stored with its low byte first (the target is
    little-endian), a signed one in two's complement.  A stream read takes a
    number of bytes or fails. *)

From S2P Require Import Prelude.

(** [n] bytes of an unsigned integer. *)
Fixpoint le (n : nat) (z : Z) : list Z :=
  match n with
  | O => []
  | S n => z mod 256 :: le n (z / 256)
  end.

Fixpoint of_le (bs : list Z) : Z :=
  match bs with
  | [] => 0
  | b :: bs => b + 256 * of_le bs
  end.

(** A signed 64-bit integer. *)
Definition i64_bytes (z : Z) : list Z := le 8 (u64 z).

(** The value in the signed range that an unsigned word stands for. *)
Definition to_i64 (z : Z) : Z := if z <? 2 ^ 63 then z else z - 2 ^ 64.

Definition of_i64_bytes (bs : list Z) : Z := to_i64 (of_le bs).

Definition in_i64 (z : Z) : Prop := - 2 ^ 63 <= z < 2 ^ 63.

Definition is_byte (b : Z) : Prop := 0 <= b < 256.

Lemma length_le n z : length (le n z) = n.
Proof. revert z. induction n as [|n IH]; intros z; simpl; [done|]. by rewrite IH. Qed.

Lemma of_le_le n z : 0 <= z < 256 ^ Z.of_nat n -> of_le (le n z) = z.
Proof.
  revert z. induction n as [|n IH]; intros z Hz; [simpl in *; lia|].
  rewrite Nat2Z.inj_succ, Z.pow_succ_r in Hz by lia. simpl. rewrite IH.
  - pose proof (Z.div_mod z 256). lia.
  - split; [apply Z.div_pos; lia|]. apply Z.div_lt_upper_bound; lia.
Qed.

Lemma le_bytes n z : Forall is_byte (le n z).
Proof.
  revert z. induction n as [|n IH]; intros z; simpl; constructor; [|apply IH].
  apply Z.mod_pos_bound. done.
Qed.

Lemma to_i64_u64 z : in_i64 z -> to_i64 (u64 z) = z.
Proof.
  unfold in_i64, to_i64, u64. intros Hz.
  destruct (decide (0 <= z)).
  - rewrite Z.mod_small by lia. by rewrite (proj2 (Z.ltb_lt z _)) by lia.
  - assert (z mod 2 ^ 64 = z + 2 ^ 64) as ->.
    { rewrite <- (Z.mod_small (z + 2 ^ 64) (2 ^ 64)) by lia.
      by rewrite <- Zplus_mod_idemp_r, Z.mod_same, Z.add_0_r by done. }
    rewrite (proj2 (Z.ltb_ge _ _)) by lia. lia.
Qed.

Lemma u64_range256 z : 0 <= u64 z < 256 ^ Z.of_nat 8.
Proof. apply u64_range. Qed.

Lemma of_i64_bytes_le z : in_i64 z -> of_i64_bytes (i64_bytes z) = z.
Proof.
  intros Hz. unfold of_i64_bytes, i64_bytes. rewrite of_le_le by apply u64_range256.
  by apply to_i64_u64.
Qed.

(** Reading [n] bytes from a stream: [None] when the stream ends first. *)
Definition read_bytes (n : nat) (s : list Z) : option (list Z * list Z) :=
  if bool_decide (n <= length s)%nat then Some (take n s, drop n s) else None.

Lemma read_bytes_app n a s : length a = n -> read_bytes n (a ++ s) = Some (a, s).
Proof.
  intros <-. unfold read_bytes. rewrite bool_decide_eq_true_2 by (rewrite length_app; lia).
  by rewrite take_app_length, drop_app_length.
Qed.

(** Fields of a packed record: the bytes of one, and those after it. *)
Definition field (n : nat) (bs : list Z) : list Z := take n bs.

Lemma field_app n a bs : length a = n -> field n (a ++ bs) = a.
Proof. intros <-. apply take_app_length. Qed.

Lemma skip_app (n : nat) (a bs : list Z) : length a = n -> drop n (a ++ bs) = bs.
Proof. intros <-. apply drop_app_length. Qed.

(** FNV-1a, the checksum of the logs and of the state hashes. *)
Definition fnv_offset : Z := 1469598103934665603.
Definition fnv_prime : Z := 1099511628211.

Definition fnv_step (hash b : Z) : Z := u64 (Z.lxor hash b * fnv_prime).
