(* ===== verification/Float.v ===== *)
(** * Double precision numbers

    A C++ [double] is a [spec_float] of precision 53 and maximal exponent 1024:
    the operations are those of the IEEE standard with rounding to nearest,
    ties to even, executable by the kernel and without an axiom. *)

From Stdlib Require Export SpecFloat.
From S2P Require Import Prelude.

Notation double := spec_float (only parsing).

Definition dadd : double -> double -> double := SFadd 53 1024.
Definition dsub : double -> double -> double := SFsub 53 1024.
Definition dmul : double -> double -> double := SFmul 53 1024.
Definition ddiv : double -> double -> double := SFdiv 53 1024.

(** [static_cast<double>] of an integer. *)
Definition dbl (z : Z) : double := binary_normalize 53 1024 z 0 false.

Definition dlt (x y : double) : bool := SFltb x y.
Definition dle (x y : double) : bool := SFleb x y.
Definition deq (x y : double) : bool := SFeqb x y.
Definition dgt (x y : double) : bool := SFltb y x.
Definition dge (x y : double) : bool := SFleb y x.

(** [std::isfinite] *)
Definition isfinite (x : double) : bool :=
  match x with S754_zero _ | S754_finite _ _ _ => true | _ => false end.

(** Not a number at all. *)
Definition isnan (x : double) : bool := match x with S754_nan => true | _ => false end.

Definition dzero : double := S754_zero false.

(** [std::max(a, b)], [std::min(a, b)] and [std::abs]. *)
Definition dmax (a b : double) : double := if dlt a b then b else a.
Definition dmin (a b : double) : double := if dlt b a then b else a.
Definition dabs (x : double) : double := SFabs x.
Definition dneg (x : double) : double := SFopp x.

(** [std::ceil] of a finite number, as an integer. *)
Definition dceil (x : double) : Z :=
  match x with
  | S754_finite s m e => - ((- cond_Zopp s (Z.pos m)) * 2 ^ Z.max e 0 / 2 ^ Z.max (- e) 0)
  | _ => 0
  end.

(** Conversion to an integer, toward zero. *)
Definition dtrunc (x : double) : Z :=
  match x with
  | S754_finite s m e => cond_Zopp s (Z.pos m * 2 ^ Z.max e 0 / 2 ^ Z.max (- e) 0)
  | _ => 0
  end.

(** [static_cast<std::uint64_t>]; outside the range of the type the conversion
    has no meaning. *)
Definition to_u64 (x : double) : result Z :=
  if isfinite x && (0 <=? dtrunc x) && (dtrunc x <? 2 ^ 64) then Ok (dtrunc x)
  else Throw (undefined "conversion to std::uint64_t").

Example dceil_values :
  dceil (ddiv (dbl 7) (dbl 2)) = 4 /\ dceil (ddiv (dbl (-7)) (dbl 2)) = -3 /\
  dceil (dbl 12) = 12 /\ dceil (ddiv (dbl 1) (dbl 1000)) = 1 /\
  dtrunc (ddiv (dbl 7) (dbl 2)) = 3 /\ dtrunc (ddiv (dbl (-7)) (dbl 2)) = -3.
Proof. by vm_compute. Qed.

(** [1e-12], the tolerance of the quantity arithmetic. *)
Definition tiny : double := S754_finite false 4951760157141521 (-92).

Example tiny_value : tiny = ddiv (dbl 1) (dbl (10 ^ 12)).
Proof. by vm_compute. Qed.

(** A positive finite number. *)
Definition dpositive (x : double) : bool := isfinite x && negb (dle x dzero).

#[export] Instance double_eq_dec : EqDecision double.
Proof. solve_decision. Defined.

(** Comparisons: exchanging the arguments reverses the result; no comparison
    holds with a NaN. *)
Lemma SFcompare_swap x y :
  SFcompare y x = match SFcompare x y with Some c => Some (CompOpp c) | None => None end.
Proof.
  destruct x as [[]|[]| |[] m e], y as [[]|[]| |[] m' e']; simpl; try done;
    rewrite (Z.compare_antisym e e'); destruct (e ?= e'); simpl; try done;
    change (Pos.compare_cont Eq m' m) with (Pos.compare m' m);
    change (Pos.compare_cont Eq m m') with (Pos.compare m m');
    rewrite (Pos.compare_antisym m m'); by destruct (Pos.compare m m').
Qed.

Lemma dlt_dle x y : dlt x y = true -> dle x y = true.
Proof. unfold dlt, dle, SFltb, SFleb. by destruct (SFcompare x y) as [[]|]. Qed.

Lemma dlt_not_dle x y : dlt x y = true -> dle y x = false.
Proof.
  unfold dlt, dle, SFltb, SFleb. rewrite (SFcompare_swap x y).
  by destruct (SFcompare x y) as [[]|].
Qed.

Lemma dle_not_dlt x y : dle x y = true -> dlt y x = false.
Proof.
  unfold dlt, dle, SFltb, SFleb. rewrite (SFcompare_swap x y).
  by destruct (SFcompare x y) as [[]|].
Qed.

Lemma SFcompare_refl x : x <> S754_nan -> SFcompare x x = Some Eq.
Proof.
  destruct x as [[]|[]| |[] m e]; simpl; try done; intros _;
    rewrite Z.compare_refl; change (Pos.compare_cont Eq m m) with (Pos.compare m m);
    by rewrite Pos.compare_refl.
Qed.

Lemma dlt_irrefl x : dlt x x = false.
Proof.
  unfold dlt, SFltb. destruct (decide (x = S754_nan)) as [->|H]; [done|].
  by rewrite SFcompare_refl.
Qed.

Lemma dpositive_inv x : dpositive x = true -> exists m e, x = S754_finite false m e.
Proof. destruct x as [[]| | |[] m e]; try done. by eauto. Qed.

(** Adding and subtracting zero. *)
Lemma dsub_zero_r x : dpositive x = true -> dsub x dzero = x.
Proof. by intros (m & e & ->)%dpositive_inv. Qed.

Lemma dmax_zero_l x : dpositive x = true -> dmax dzero x = x.
Proof. by intros (m & e & ->)%dpositive_inv. Qed.

Lemma dadd_zero_r x : x <> S754_zero true -> dadd x dzero = x.
Proof. destruct x as [[]| | |]; done. Qed.

(** Not negative and not a NaN: the numbers that sums of quantities reach. *)
Definition dnonneg (x : double) : Prop :=
  match x with
  | S754_zero false | S754_infinity false | S754_finite false _ _ => True
  | _ => False
  end.

Lemma dpositive_nonneg x : dpositive x = true -> dnonneg x.
Proof. by intros (m & e & ->)%dpositive_inv. Qed.

(** Rounding keeps the sign: shifting a mantissa to the right and rounding it do
    not make it negative. *)
Lemma shr_1_nonneg r : 0 <= shr_m r -> 0 <= shr_m (shr_1 r).
Proof. destruct r as [[|[]|[]] ? ?]; simpl; lia. Qed.

Lemma iter_pos_nonneg p r : 0 <= shr_m r -> 0 <= shr_m (SpecFloat.iter_pos shr_1 p r).
Proof. revert r. induction p; intros r H; simpl; auto using shr_1_nonneg. Qed.

Lemma shr_fexp_nonneg m e l : 0 <= m -> 0 <= shr_m (shr_fexp 53 1024 m e l).1.
Proof.
  intros H. unfold shr_fexp, shr. assert (0 <= shr_m (shr_record_of_loc m l)) by (by destruct l as [|[]]).
  destruct (_ - e); simpl; [done| |done]. by apply iter_pos_nonneg.
Qed.

(** Rounding gives no NaN and keeps the sign. *)
Lemma binary_round_aux_shape s m e : 0 <= m ->
  let r := binary_round_aux 53 1024 s m e loc_Exact in
  r = S754_zero s \/ r = S754_infinity s \/ exists m' e', r = S754_finite s m' e'.
Proof.
  intros Hm r. unfold r, binary_round_aux. clear r.
  pose proof (shr_fexp_nonneg m e loc_Exact Hm) as H1.
  destruct (shr_fexp 53 1024 _ e loc_Exact) as [r1 e1]. cbn [fst] in H1.
  set (m2 := round_nearest_even _ _).
  assert (0 <= m2) as H2.
  { unfold m2, round_nearest_even. destruct (loc_of_shr_record r1) as [|[]]; try lia. case_if; lia. }
  pose proof (shr_fexp_nonneg m2 e1 loc_Exact H2) as H3.
  destruct (shr_fexp 53 1024 m2 e1 loc_Exact) as [r3 e3]. cbn [fst] in H3.
  destruct (shr_m r3); [by left| |lia]. case_if; eauto.
Qed.

Lemma binary_round_shape s m e :
  binary_round 53 1024 s m e = S754_zero s \/ binary_round 53 1024 s m e = S754_infinity s \/
  exists m' e', binary_round 53 1024 s m e = S754_finite s m' e'.
Proof.
  unfold binary_round. destruct (shl_align m e _) as [mz ez]. by apply binary_round_aux_shape.
Qed.

Lemma dmul_number x y : isfinite x = true -> isfinite y = true -> isnan (dmul x y) = false.
Proof.
  destruct x as [[]|[]| |sx m e], y as [[]|[]| |sy m' e']; try done; intros _ _.
  unfold dmul, SFmul.
  by destruct (binary_round_aux_shape (xorb sx sy) (Z.pos (m * m')) (e + e')) as [-> |[-> |(? & ? & ->)]].
Qed.

Lemma dmul_comm x y : dmul x y = dmul y x.
Proof.
  destruct x as [[]|[]| |sx m e], y as [[]|[]| |sy m' e']; try done; try (by destruct sx); try (by destruct sy).
  unfold dmul, SFmul. by rewrite xorb_comm, Pos.mul_comm, Z.add_comm.
Qed.

Lemma dadd_zero_l x : dpositive x = true -> dadd dzero x = x.
Proof. by intros (m & e & ->)%dpositive_inv. Qed.

Lemma dsub_diag x : isfinite x = true -> dsub x x = dzero.
Proof.
  destruct x as [[]| | |s m e]; try done. intros _. unfold dsub, SFsub.
  by rewrite Z.sub_diag.
Qed.

Lemma binary_round_nonneg m e : dnonneg (binary_round 53 1024 false m e).
Proof. by destruct (binary_round_shape false m e) as [-> |[-> |(? & ? & ->)]]. Qed.

Lemma binary_round_number s m e : isnan (binary_round 53 1024 s m e) = false.
Proof. by destruct (binary_round_shape s m e) as [-> |[-> |(? & ? & ->)]]. Qed.

Lemma dadd_nonneg x y : dnonneg x -> dnonneg y -> dnonneg (dadd x y).
Proof.
  destruct x as [[]|[]| |[] m e], y as [[]|[]| |[] m' e']; try done; intros _ _.
  unfold dadd, SFadd. cbn [cond_Zopp Z.add binary_normalize]. apply binary_round_nonneg.
Qed.

Lemma dadd_zero_nonneg x : dnonneg x -> dadd x dzero = x.
Proof. intros H. apply dadd_zero_r. by intros ->. Qed.

(** Numbers are totally ordered. *)
Lemma isfinite_number x : isfinite x = true -> isnan x = false.
Proof. by destruct x. Qed.

Lemma SFcompare_number x y : isnan x = false -> isnan y = false -> is_Some (SFcompare x y).
Proof. by destruct x as [[]|[]| |[] m e], y as [[]|[]| |[] m' e']; eauto. Qed.

Lemma dlt_false_dle x y : isnan x = false -> isnan y = false -> dlt x y = false -> dle y x = true.
Proof.
  intros Hx Hy. unfold dlt, dle, SFltb, SFleb. rewrite (SFcompare_swap x y).
  destruct (SFcompare_number x y Hx Hy) as [c ->]. by destruct c.
Qed.

Lemma dle_refl x : isnan x = false -> dle x x = true.
Proof. intros H. unfold dle, SFleb. rewrite SFcompare_refl; [done|]. by intros ->. Qed.

Lemma dmin_le x y : isnan x = false -> isnan y = false ->
  dle (dmin x y) x = true /\ dle (dmin x y) y = true.
Proof.
  intros Hx Hy. unfold dmin. destruct (dlt y x) eqn:E.
  - split; [by apply dlt_dle|by apply dle_refl].
  - split; [by apply dle_refl|]. by apply dlt_false_dle.
Qed.

Lemma dsub_number x y : isnan x = false -> isfinite y = true -> isnan (dsub x y) = false.
Proof.
  destruct x as [[]|[]| |sx m e], y as [[]|[]| |sy m' e']; try done; intros _ _;
    try (by destruct sy); try (by destruct sx).
  all: unfold dsub, SFsub; try done; [].
  set (z := (_ - _)%Z). unfold binary_normalize. destruct z; [done|apply binary_round_number..].
Qed.

Lemma deq_sym x y : deq x y = deq y x.
Proof. unfold deq, SFeqb. rewrite (SFcompare_swap x y). by destruct (SFcompare x y) as [[]|]. Qed.

Lemma dlt_asym x y : dlt x y = true -> dlt y x = false.
Proof.
  intros H%dlt_not_dle. destruct (dlt y x) eqn:E; [|done]. apply dlt_dle in E. congruence.
Qed.
