(* ===== verification/Arithmetic.v ===== *)
(** * Arithmetics

    Code that computes with doubles is written over an arithmetic: its instance
    for doubles is the program, the instance for exact rationals is the
    reference in which sums can be compared; what the program adds to it is the
    rounding of each operation. *)

From Stdlib Require Export QArith Qabs Qround Lqa.
From S2P Require Import Prelude.
From S2P Require Import Float.

#[global] Open Scope Z_scope.

Class Arithmetic (N : Type) := {
  nzero : N;
  nadd : N -> N -> N;
  nsub : N -> N -> N;
  nmul : N -> N -> N;
  ndiv : N -> N -> N;
  nopp : N -> N;
  nabs : N -> N;
  nlt : N -> N -> bool;
  nle : N -> N -> bool;
  (** [std::isfinite] *)
  nfinite : N -> bool;
  (** the conversion of an integer *)
  nof : Z -> N;
  (** [std::ceil], as an integer; of no use for numbers that are not finite *)
  nceil : N -> Z;
  ntiny : N
}.

#[export] Instance double_arithmetic : Arithmetic double := {|
  nzero := dzero; nadd := dadd; nsub := dsub; nmul := dmul; ndiv := ddiv; nopp := dneg;
  nabs := dabs; nlt := dlt; nle := dle; nfinite := isfinite; nof := dbl; nceil := dceil;
  ntiny := tiny |}.

Definition Q_lt (x y : Q) : bool := negb (Qle_bool y x).

#[export] Instance Q_arithmetic : Arithmetic Q := {|
  nzero := 0%Q; nadd := Qplus; nsub := Qminus; nmul := Qmult; ndiv := Qdiv;
  nopp := Qopp; nabs := Qabs; nlt := Q_lt; nle := Qle_bool; nfinite := fun _ => true;
  nof := inject_Z; nceil := Qceiling; ntiny := (1 # 1000000000000)%Q |}.

(** [std::min(a, b)] and [std::max(a, b)]. *)
Definition nmin {N} `{Arithmetic N} (a b : N) : N := if nlt b a then b else a.
Definition nmax {N} `{Arithmetic N} (a b : N) : N := if nlt a b then b else a.

(** ** Rationals *)

Lemma Q_lt_true x y : Q_lt x y = true <-> (x < y)%Q.
Proof.
  unfold Q_lt. rewrite negb_true_iff. split.
  - intros H. apply Qnot_le_lt. intros HL. apply Qle_bool_iff in HL. congruence.
  - intros H. destruct (Qle_bool y x) eqn:E; [|done]. apply Qle_bool_iff in E. lra.
Qed.

Lemma Q_lt_false x y : Q_lt x y = false <-> (y <= x)%Q.
Proof. unfold Q_lt. by rewrite negb_false_iff, Qle_bool_iff. Qed.

Ltac qcase :=
  match goal with
  | |- context [if Q_lt ?x ?y then _ else _] =>
      let E := fresh "E" in destruct (Q_lt x y) eqn:E; [apply Q_lt_true in E|apply Q_lt_false in E]
  end.

(** ** Sums *)

Definition sumQ (l : list Q) : Q := foldr Qplus 0%Q l.

Lemma sumQ_cons x l : sumQ (x :: l) = (x + sumQ l)%Q.
Proof. done. Qed.

Lemma sumQ_snoc l x : (sumQ (l ++ [x]) == sumQ l + x)%Q.
Proof. unfold sumQ. induction l as [|y l IH]; cbn; [ring|]. rewrite IH. ring. Qed.

