(* ===== verification/Layout.v ===== *)
(** * Object representations of the three requests

    The snapshot file and the event log store requests as the bytes they have
    in memory: the members of [types.hpp] at their offsets, little-endian, with
    the padding that alignment requires.  The padding bytes have no specified
    value, so they are an argument of the writing direction. *)

From S2P Require Import Prelude.
From S2P Require Import Types.
From S2P Require Import Bytes.

(** A byte of enumeration type; every use of a side tests it against [Buy]. *)
Definition side_of_code (z : Z) : Side := if z =? 0 then Buy else Sell.

Definition type_of_code (z : Z) : OrderType :=
  if z =? 0 then Limit else if z =? 1 then Market else if z =? 2 then IOC
  else if z =? 3 then FOK else PostOnly.

(** [sizeof(OrderRequest)], [sizeof(CancelRequest)], [sizeof(ReplaceRequest)] *)
Definition order_size : nat := 32.
Definition cancel_size : nat := 16.
Definition replace_size : nat := 32.

Definition order_bytes (pad : list Z) (r : OrderRequest) : list Z :=
  le 8 (req_order_id r) ++ le 4 (req_client_id r) ++ [side_code (req_side r)] ++
  [type_code (req_type r)] ++ pad ++ i64_bytes (req_price r) ++ le 4 (req_quantity r) ++
  le 4 (req_symbol r).

Definition order_of_bytes (bs : list Z) : OrderRequest := {|
  req_order_id := of_le (field 8 bs);
  req_client_id := of_le (field 4 (drop 8 bs));
  req_side := side_of_code (of_le (field 1 (drop 12 bs)));
  req_type := type_of_code (of_le (field 1 (drop 13 bs)));
  req_price := of_i64_bytes (field 8 (drop 16 bs));
  req_quantity := of_le (field 4 (drop 24 bs));
  req_symbol := of_le (field 4 (drop 28 bs)) |}.

Definition cancel_bytes (r : CancelRequest) : list Z :=
  le 8 (can_order_id r) ++ le 4 (can_client_id r) ++ le 4 (can_symbol r).

Definition cancel_of_bytes (bs : list Z) : CancelRequest := {|
  can_order_id := of_le (field 8 bs);
  can_client_id := of_le (field 4 (drop 8 bs));
  can_symbol := of_le (field 4 (drop 12 bs)) |}.

Definition replace_bytes (pad : list Z) (r : ReplaceRequest) : list Z :=
  le 8 (rep_order_id r) ++ le 4 (rep_client_id r) ++ pad ++ i64_bytes (rep_new_price r) ++
  le 4 (rep_new_quantity r) ++ le 4 (rep_symbol r).

Definition replace_of_bytes (bs : list Z) : ReplaceRequest := {|
  rep_order_id := of_le (field 8 bs);
  rep_client_id := of_le (field 4 (drop 8 bs));
  rep_new_price := of_i64_bytes (field 8 (drop 16 bs));
  rep_new_quantity := of_le (field 4 (drop 24 bs));
  rep_symbol := of_le (field 4 (drop 28 bs)) |}.

(** The members are in the ranges of their types. *)
Definition order_ok (r : OrderRequest) : Prop :=
  in_u64 (req_order_id r) /\ in_u32 (req_client_id r) /\ in_i64 (req_price r) /\
  in_u32 (req_quantity r) /\ in_u32 (req_symbol r).

Definition cancel_request_ok (r : CancelRequest) : Prop :=
  in_u64 (can_order_id r) /\ in_u32 (can_client_id r) /\ in_u32 (can_symbol r).

Definition replace_request_ok (r : ReplaceRequest) : Prop :=
  in_u64 (rep_order_id r) /\ in_u32 (rep_client_id r) /\ in_i64 (rep_new_price r) /\
  in_u32 (rep_new_quantity r) /\ in_u32 (rep_symbol r).

Lemma side_of_code_code s : side_of_code (side_code s) = s.
Proof. by destruct s. Qed.

Lemma type_of_code_code t : type_of_code (type_code t) = t.
Proof. by destruct t. Qed.

Lemma le_read_u64 z rest : in_u64 z -> of_le (field 8 (le 8 z ++ rest)) = z.
Proof. intros H. rewrite field_app by apply length_le. by apply of_le_le. Qed.

Lemma le_read_u32 z rest : in_u32 z -> of_le (field 4 (le 4 z ++ rest)) = z.
Proof. intros H. rewrite field_app by apply length_le. by apply of_le_le. Qed.

Lemma le_read_i64 z rest : in_i64 z -> of_i64_bytes (field 8 (i64_bytes z ++ rest)) = z.
Proof. intros H. rewrite field_app by apply length_le. by apply of_i64_bytes_le. Qed.

(** Skipping the fields before one. *)
Lemma drop_le n m z rest : (n <= m)%nat -> drop m (le n z ++ rest) = drop (m - n) rest.
Proof.
  intros H. rewrite drop_app, length_le, drop_ge; [done|]. by rewrite length_le.
Qed.

Lemma drop_pad n (pad rest : list Z) :
  (length pad <= n)%nat -> drop n (pad ++ rest) = drop (n - length pad) rest.
Proof. intros H. by rewrite drop_app, drop_ge. Qed.

Lemma length_order_bytes pad r : length pad = 2%nat -> length (order_bytes pad r) = order_size.
Proof. intros H. unfold order_bytes, i64_bytes. by rewrite !length_app, !length_le, H. Qed.

Lemma length_cancel_bytes r : length (cancel_bytes r) = cancel_size.
Proof. unfold cancel_bytes. by rewrite !length_app, !length_le. Qed.

Lemma length_replace_bytes pad r : length pad = 4%nat -> length (replace_bytes pad r) = replace_size.
Proof. intros H. unfold replace_bytes, i64_bytes. by rewrite !length_app, !length_le, H. Qed.

(** One field: skip what is before it, then read it. *)
Ltac read_field :=
  rewrite ?drop_le, ?drop_pad by (cbn [length Nat.sub]; lia); cbn [length Nat.sub];
  first [by apply le_read_u64|by apply le_read_u32|by apply le_read_i64].

Lemma of_byte b rest : of_le (field 1 ([b] ++ rest)) = b.
Proof. apply Z.add_0_r. Qed.

Ltac skip_fields := rewrite ?drop_le, ?drop_pad by (cbn [length Nat.sub]; lia); cbn [length Nat.sub].

Lemma order_bytes_roundtrip pad r rest :
  length pad = 2%nat -> order_ok r -> order_of_bytes (order_bytes pad r ++ rest) = r.
Proof.
  intros Hp (H1 & H2 & H3 & H4 & H5). unfold order_of_bytes, order_bytes.
  destruct r as [id cl s t px q sym], pad as [|p1 [|p2 [|? ?]]]; try done.
  cbn [req_order_id req_client_id req_side req_type req_price req_quantity req_symbol] in *.
  rewrite <- !app_assoc. unfold i64_bytes. f_equal; try read_field.
  - skip_fields. rewrite drop_0, of_byte. apply side_of_code_code.
  - skip_fields. rewrite drop_0, of_byte. apply type_of_code_code.
Qed.

Lemma cancel_bytes_roundtrip r rest :
  cancel_request_ok r -> cancel_of_bytes (cancel_bytes r ++ rest) = r.
Proof.
  intros (H1 & H2 & H3). unfold cancel_of_bytes, cancel_bytes. destruct r as [id cl sym].
  cbn [can_order_id can_client_id can_symbol] in *. rewrite <- !app_assoc. f_equal; read_field.
Qed.

Lemma replace_bytes_roundtrip pad r rest :
  length pad = 4%nat -> replace_request_ok r -> replace_of_bytes (replace_bytes pad r ++ rest) = r.
Proof.
  intros Hp (H1 & H2 & H3 & H4 & H5). unfold replace_of_bytes, replace_bytes.
  destruct r as [id cl px q sym], pad as [|p1 [|p2 [|p3 [|p4 [|? ?]]]]]; try done.
  cbn [rep_order_id rep_client_id rep_new_price rep_new_quantity rep_symbol] in *.
  rewrite <- !app_assoc. unfold i64_bytes. f_equal; read_field.
Qed.
