(* ===== verification/Exchange.v ===== *)
(** * The exchange ([exchange.hpp], [exchange.cpp])

    One book per instrument, created on first use, with the halts, the price
    bands and the self-trade policy that are checked before an order reaches its
    book, and the snapshot file.  The handlers of the books forward to those of
    the exchange: after a call the events of the book are moved to [ex_log],
    the ordered calls of the exchange's handlers. *)

From S2P Require Import Prelude.
From S2P Require Import Types.
From S2P Require Import SortedMap.
From S2P Require Import OrderBook.
From S2P Require Import Bytes.
From S2P Require Import Layout.
From S2P Require Import Float.

Record PriceBand := {
  reference_price : Price;
  band_percent : double
}.

Record Exchange := {
  per_symbol_capacity_ : nat;
  books_ : gmap Z Book;
  ex_stp_policy_ : SelfTradePreventionPolicy;
  globally_halted_ : bool;
  halted_symbols_ : gset Z;
  price_bands_ : gmap Z PriceBand;
  ex_log : list Event
}.

(** [Exchange(per_symbol_capacity)] *)
Definition new_exchange (per_symbol_capacity : nat) : Exchange := {|
  per_symbol_capacity_ := per_symbol_capacity; books_ := ∅; ex_stp_policy_ := StpNone;
  globally_halted_ := false; halted_symbols_ := ∅; price_bands_ := ∅; ex_log := [] |}.

Definition set_books (ex : Exchange) m log : Exchange := {|
  per_symbol_capacity_ := per_symbol_capacity_ ex; books_ := m;
  ex_stp_policy_ := ex_stp_policy_ ex; globally_halted_ := globally_halted_ ex;
  halted_symbols_ := halted_symbols_ ex; price_bands_ := price_bands_ ex; ex_log := log |}.

Definition set_controls (ex : Exchange) halted symbols bands : Exchange := {|
  per_symbol_capacity_ := per_symbol_capacity_ ex; books_ := books_ ex;
  ex_stp_policy_ := ex_stp_policy_ ex; globally_halted_ := halted;
  halted_symbols_ := symbols; price_bands_ := bands; ex_log := ex_log ex |}.

(** A book with the exchange's policy, as [book_for] and [load_snapshot] make
    it. *)
Definition new_book (ex : Exchange) (symbol : SymbolId) : Book :=
  OrderBook.set_stp_policy (ex_stp_policy_ ex)
    (OrderBook.OrderBook (per_symbol_capacity_ ex) symbol).

Definition book_for (symbol : SymbolId) (ex : Exchange) : Book :=
  default (new_book ex symbol) (books_ ex !! symbol).

(** A book whose handler calls have been forwarded. *)
Definition forwarded (b : Book) : Book :=
  set_outbox b {| sequence_ := sequence_ (outbox_ b); emitted_ := [] |}.

(** A call of a member function of the book of a symbol. *)
Definition with_book {A} (symbol : SymbolId) (f : ST Book A) : ST Exchange A := fun ex =>
  let (r, b) := f (book_for symbol ex) in
  (r, set_books ex (<[symbol := forwarded b]> (books_ ex)) (ex_log ex ++ emitted_ (outbox_ b))).

(** A rejection the exchange reports itself, with sequence number 0. *)
Definition reject (r : OrderRequest) (reason : RejectReason) (ex : Exchange) : Exchange :=
  set_books ex (books_ ex) (ex_log ex ++ [EReport {| er_sequence := 0;
    er_order_id := req_order_id r; er_status := Rejected; er_remaining := req_quantity r;
    er_reject_reason := reason; er_symbol := req_symbol r |}]).

Definition halted (symbol : SymbolId) (ex : Exchange) : bool :=
  globally_halted_ ex || bool_decide (symbol ∈ halted_symbols_ ex).

Definition band_lower (band : PriceBand) : double :=
  dmul (dbl (reference_price band)) (dsub (dbl 1) (ddiv (band_percent band) (dbl 100))).

Definition band_upper (band : PriceBand) : double :=
  dmul (dbl (reference_price band)) (dadd (dbl 1) (ddiv (band_percent band) (dbl 100))).

Definition violates_band (r : OrderRequest) (ex : Exchange) : bool :=
  bool_decide (req_type r ≠ Market) &&
  match price_bands_ ex !! req_symbol r with
  | None => false
  | Some band => dlt (dbl (req_price r)) (band_lower band) ||
                 dgt (dbl (req_price r)) (band_upper band)
  end.

Definition submit (r : OrderRequest) : ST Exchange bool := fun ex =>
  if halted (req_symbol r) ex then (Ok false, reject r TradingHalted ex)
  else if violates_band r ex then (Ok false, reject r PriceBandViolation ex)
  else with_book (req_symbol r) (OrderBook.submit r) ex.

Definition cancel (r : CancelRequest) : ST Exchange bool :=
  with_book (can_symbol r) (OrderBook.cancel r).

Definition replace (r : ReplaceRequest) : ST Exchange bool :=
  with_book (rep_symbol r) (OrderBook.replace r).

(** ** Controls *)

Definition halt_all (ex : Exchange) : Exchange :=
  set_controls ex true (halted_symbols_ ex) (price_bands_ ex).
Definition resume_all (ex : Exchange) : Exchange :=
  set_controls ex false (halted_symbols_ ex) (price_bands_ ex).
Definition halt_symbol (symbol : SymbolId) (ex : Exchange) : Exchange :=
  set_controls ex (globally_halted_ ex) ({[symbol]} ∪ halted_symbols_ ex) (price_bands_ ex).
Definition resume_symbol (symbol : SymbolId) (ex : Exchange) : Exchange :=
  set_controls ex (globally_halted_ ex) (halted_symbols_ ex ∖ {[symbol]}) (price_bands_ ex).
Definition symbol_halted (symbol : SymbolId) (ex : Exchange) : bool :=
  bool_decide (symbol ∈ halted_symbols_ ex).

Definition set_price_band (symbol : SymbolId) (reference : Price) (percent : double)
    : ST Exchange unit := fun ex =>
  if (reference <=? 0) || dle percent dzero
  then (Throw (invalid_argument "invalid price band"), ex)
  else (Ok tt, set_controls ex (globally_halted_ ex) (halted_symbols_ ex)
          (<[symbol := {| reference_price := reference; band_percent := percent |}]>
             (price_bands_ ex))).

Definition clear_price_band (symbol : SymbolId) (ex : Exchange) : Exchange :=
  set_controls ex (globally_halted_ ex) (halted_symbols_ ex) (delete symbol (price_bands_ ex)).

Definition set_stp_policy (policy : SelfTradePreventionPolicy) (ex : Exchange) : Exchange := {|
  per_symbol_capacity_ := per_symbol_capacity_ ex;
  books_ := OrderBook.set_stp_policy policy <$> books_ ex;
  ex_stp_policy_ := policy; globally_halted_ := globally_halted_ ex;
  halted_symbols_ := halted_symbols_ ex; price_bands_ := price_bands_ ex; ex_log := ex_log ex |}.

(** ** Queries *)

Definition find_book (symbol : SymbolId) (ex : Exchange) : option Book := books_ ex !! symbol.

(** The keys in increasing order: [std::sort] of the keys of the map. *)
Definition symbols (ex : Exchange) : list SymbolId :=
  merge_sort Z.le (elements (dom (books_ ex))).

Definition active_orders (ex : Exchange) : Z :=
  u64 (map_fold (fun _ b n => active_count_ b + n) 0 (books_ ex)).

Fixpoint hash_books (ex : Exchange) (ss : list SymbolId) (hash : Z) : result Z :=
  match ss with
  | [] => Ok hash
  | s :: ss' =>
      match books_ ex !! s with
      | None => Throw (out_of_range "map::at")
      | Some b => h ← OrderBook.state_hash b; hash_books ex ss' (mix (mix hash s) h)
      end
  end.

Definition state_hash (ex : Exchange) : result Z := hash_books ex (symbols ex) 1469598103934665603.

(** ** The snapshot file *)

Definition snapshot_magic : Z := 1296913232.  (* 0x4D4D5350 *)
Definition snapshot_version : Z := 1.

Definition header_bytes (symbol_count : Z) : list Z :=
  le 4 snapshot_magic ++ le 2 snapshot_version ++ le 2 0 ++ le 4 (u32 symbol_count).

Definition book_header_bytes (symbol : SymbolId) (seq : Sequence) (count hash : Z) : list Z :=
  le 4 symbol ++ le 8 seq ++ le 8 count ++ le 8 hash.

Definition orders_bytes (pad : nat -> list Z) (orders : list OrderRequest) : list Z :=
  concat (imap (fun i r => order_bytes (pad i) r) orders).

Fixpoint books_bytes (pad : SymbolId -> nat -> list Z) (ex : Exchange) (ss : list SymbolId)
    : result (list Z) :=
  match ss with
  | [] => Ok []
  | s :: ss' =>
      match books_ ex !! s with
      | None => Throw (out_of_range "map::at")
      | Some b =>
          orders ← resting_orders b;
          h ← OrderBook.state_hash b;
          rest ← books_bytes pad ex ss';
          Ok (book_header_bytes s (sequence_ (outbox_ b)) (Z.of_nat (length orders)) h ++
              orders_bytes (pad s) orders ++ rest)
      end
  end.

(** What [write_snapshot] puts into the file; [pad s i] are the padding bytes
    of the [i]-th order of the book of [s]. *)
Definition write_snapshot (pad : SymbolId -> nat -> list Z) (ex : Exchange) : result (list Z) :=
  bs ← books_bytes pad ex (symbols ex);
  Ok (header_bytes (Z.of_nat (length (symbols ex))) ++ bs).

(** [count] orders at the front of a stream. *)
Fixpoint read_orders (count : nat) (s : list Z) : list OrderRequest :=
  match count with
  | O => []
  | S n => order_of_bytes (field order_size s) :: read_orders n (drop order_size s)
  end.

(** One round of the loop of [load_snapshot], on the rest of the file. *)
Definition load_book (s : list Z) : ST Exchange (list Z) := fun ex =>
  match read_bytes 28 s with
  | None => (Throw (runtime_error "invalid snapshot book"), ex)
  | Some (h, s) =>
      let symbol := of_le (field 4 h) in
      let seq := of_le (field 8 (drop 4 h)) in
      let count := of_le (field 8 (drop 12 h)) in
      let hash := of_le (field 8 (drop 20 h)) in
      if Z.of_nat (per_symbol_capacity_ ex) <? count
      then (Throw (runtime_error "invalid snapshot book"), ex)
      else match read_bytes (Z.to_nat count * order_size) s with
      | None => (Throw (runtime_error "truncated snapshot"), ex)
      | Some (os, s) =>
          match restore_resting_orders (read_orders (Z.to_nat count) os) seq (new_book ex symbol) with
          | (Throw e, _) => (Throw e, ex)
          | (Ok _, b) =>
              match OrderBook.state_hash b with
              | Throw e => (Throw e, ex)
              | Ok h' =>
                  if negb (h' =? hash) then (Throw (runtime_error "snapshot state hash mismatch"), ex)
                  else (Ok s, set_books ex
                          (match books_ ex !! symbol with
                           | Some _ => books_ ex
                           | None => <[symbol := forwarded b]> (books_ ex)
                           end) (ex_log ex ++ emitted_ (outbox_ b)))
              end
          end
      end
  end.

Fixpoint load_books (count : nat) (s : list Z) : ST Exchange unit :=
  match count with
  | O => mret tt
  | S n => s ← load_book s; load_books n s
  end.

(** [load_snapshot] of a file's content, [None] when it cannot be opened. *)
Definition load_snapshot (file : option (list Z)) : ST Exchange unit := fun ex =>
  match file with
  | None => (Throw (runtime_error "cannot open snapshot for reading"), ex)
  | Some s =>
      match read_bytes 12 s with
      | None => (Throw (runtime_error "bad snapshot header"), ex)
      | Some (h, s) =>
          if negb (of_le (field 4 h) =? snapshot_magic) ||
             negb (of_le (field 2 (drop 4 h)) =? snapshot_version)
          then (Throw (runtime_error "bad snapshot header"), ex)
          else load_books (Z.to_nat (of_le (field 4 (drop 8 h)))) s (set_books ex ∅ (ex_log ex))
      end
  end.
