(* ===== verification/ExchangeProps.v ===== *)
(** * Correctness of the exchange

    Every book of a reachable exchange is a well-formed price-time book of its
    instrument under the exchange's policy; a command touches only the book of
    its symbol; the controls gate [submit]; and a snapshot file restores the
    books. *)

From S2P Require Import Prelude.
From S2P Require Import Types.
From S2P Require Import SortedMap.
From S2P Require Import OrderBook.
From S2P Require Import BookSpec.
From S2P Require Import BookFacts.
From S2P Require Import BookEvents.
From S2P Require Import BookInv.
From S2P Require Import BookRefine.
From S2P Require Import BookCommands.
From S2P Require Import BookProps.
From S2P Require Import Bytes.
From S2P Require Import Layout.
From S2P Require Import Float.
From S2P Require Import Exchange.

(** ** The instrument of the handler calls *)

Definition event_symbol (e : Event) : SymbolId :=
  match e with ETrade t => tr_symbol t | EReport r => er_symbol r end.

(** [o'] has the calls of [o] and then calls about one instrument. *)
Definition tagged (sym : SymbolId) (o o' : Outbox) : Prop :=
  exists evs, emitted_ o' = emitted_ o ++ evs /\ Forall (fun e => event_symbol e = sym) evs.

Lemma tagged_refl sym o : tagged sym o o.
Proof. exists []. by rewrite app_nil_r. Qed.

Lemma tagged_trans sym o1 o2 o3 : tagged sym o1 o2 -> tagged sym o2 o3 -> tagged sym o1 o3.
Proof.
  intros (e1 & E1 & F1) (e2 & E2 & F2). exists (e1 ++ e2).
  rewrite E2, E1, <- app_assoc. split; [done|]. by apply Forall_app.
Qed.

Lemma tagged_report sym id st rem reason o : tagged sym o (push_report sym id st rem reason o).
Proof. eexists [_]. split; [reflexivity|]. by repeat constructor. Qed.

Lemma tagged_fill sym taker m fill left o : tagged sym o (fill_events sym taker m fill left o).
Proof.
  eapply tagged_trans; [|apply tagged_report]. eexists [_]. split; [reflexivity|]. by repeat constructor.
Qed.

#[local] Hint Resolve tagged_refl tagged_report tagged_fill : mm.

Lemma run_tagged sym policy taker rem q o out rem' q' o' :
  match_run sym policy taker rem q o out rem' q' o' -> tagged sym o o'.
Proof.
  induction 1; auto with mm; unfold cancel_taker, cancel_report in *;
    (eapply tagged_trans; [|done || apply tagged_report]; auto with mm).
Qed.

Lemma finish_tagged r rem a : tagged (sb_symbol a) (sb_outbox a) (sb_outbox (spec_finish r rem a)).
Proof.
  unfold spec_finish. set (a1 := if rem =? 0 then _ else _).
  assert (tagged (sb_symbol a) (sb_outbox a) (sb_outbox a1) /\ sb_symbol a1 = sb_symbol a) as [H E].
  { unfold a1. repeat case_if; split; try done; apply tagged_report || apply tagged_refl. }
  repeat case_if; try done. eapply tagged_trans; [exact H|]. rewrite <- E. apply tagged_report.
Qed.

Lemma submit_tagged r a : 0 <= req_quantity r ->
  tagged (sb_symbol a) (sb_outbox a) (sb_outbox (spec_submit r a).2).
Proof.
  intros Hq. destruct (submit_cases r a) as [[reason ->]|(_ & _ & _ & ->)]; [apply tagged_report|].
  cbn [snd]. set (a1 := sb_report _ _ _ _ a). unfold spec_execute.
  destruct (spec_match _ _ _ _ _ _) as [[[out rem'] q'] o'] eqn:ES.
  apply spec_match_run, run_tagged in ES; [|done].
  eapply tagged_trans; [apply tagged_report|]. eapply tagged_trans; [exact ES|].
  destruct out; [|apply tagged_refl].
  exact (finish_tagged r rem' (sb_set_outbox (sb_set_side a1 (opposite (req_side r)) q') o')).
Qed.

Lemma cancel_tagged r a : tagged (sb_symbol a) (sb_outbox a) (sb_outbox (spec_cancel r a).2).
Proof. unfold spec_cancel. repeat case_match; apply tagged_report. Qed.

Lemma replace_tagged r a : 0 <= rep_new_quantity r ->
  tagged (sb_symbol a) (sb_outbox a) (sb_outbox (spec_replace r a).2).
Proof.
  intros Hq. unfold spec_replace.
  destruct (spec_find (rep_order_id r) a) as [[s o]|]; [|apply tagged_report].
  repeat (case_if; [apply tagged_report|]). eapply tagged_trans; [apply tagged_report|].
  by apply (submit_tagged (replacement r s (sb_symbol a)) (sb_report _ _ _ _ (spec_remove s _ a))).
Qed.

(** ** The machine *)

(** A book as the exchange keeps it. *)
Definition book_ok (capacity : nat) (policy : SelfTradePreventionPolicy) (s : SymbolId) (b : Book) : Prop :=
  exists a, refines b a /\ sb_ok a /\ sb_symbol a = s /\ sb_policy a = policy /\
    sb_capacity a = capacity /\ emitted_ (outbox_ b) = [].

Record ex_ok (ex : Exchange) : Prop := {
  ex_capacity : Z.of_nat (per_symbol_capacity_ ex) <= npos;
  ex_books : forall s b, books_ ex !! s = Some b ->
    book_ok (per_symbol_capacity_ ex) (ex_stp_policy_ ex) s b
}.

Lemma set_policy_refines p b a : refines b a ->
  refines (OrderBook.set_stp_policy p b) (spec_set_policy p a).
Proof.
  intros (g & HR & HE & ->). exists g. split_and!; [|done|done]. by apply (rep_same b).
Qed.

Lemma new_book_refines ex s : Z.of_nat (per_symbol_capacity_ ex) <= npos ->
  refines (new_book ex s)
    (spec_set_policy (ex_stp_policy_ ex) (spec_new (per_symbol_capacity_ ex) s)).
Proof. intros H. apply set_policy_refines. by apply new_refines. Qed.

Lemma empty_sb_ok a : sb_bids a = [] -> sb_asks a = [] -> sb_ok a.
Proof.
  intros H1 H2. split.
  - intros []; simpl; rewrite ?H1, ?H2; constructor.
  - intros []; simpl; rewrite ?H1, ?H2; constructor.
  - intros _ p q Hp. rewrite H1 in Hp. by apply elem_of_nil in Hp.
Qed.

Lemma book_for_ok ex s : ex_ok ex ->
  book_ok (per_symbol_capacity_ ex) (ex_stp_policy_ ex) s (book_for s ex).
Proof.
  intros [HC HB]. unfold book_for. destruct (books_ ex !! s) as [b|] eqn:E; simpl; [by apply HB|].
  eexists. split; [by apply new_book_refines|]. split; [by apply empty_sb_ok|]. done.
Qed.

Lemma forwarded_refines b a : refines b a ->
  refines (forwarded b) (sb_set_outbox a {| sequence_ := sequence_ (sb_outbox a); emitted_ := [] |}).
Proof.
  intros (g & HR & HE & ->). exists g. split_and!; [|done|done]. by apply (rep_same b).
Qed.

(** A command of a book, called through the exchange. *)
Definition lifts (f : ST Book bool) (spec : SBook -> bool * SBook) : Prop :=
  forall b a, refines b a -> sb_ok a ->
    (exists b', f b = (Ok (spec a).1, b') /\ refines b' (spec a).2) /\
    sb_ok (spec a).2 /\ same_book a (spec a).2 /\
    tagged (sb_symbol a) (sb_outbox a) (sb_outbox (spec a).2).

Lemma with_book_ok s f spec ex : lifts f spec -> ex_ok ex ->
  exists ok b evs, with_book s f ex =
      (Ok ok, set_books ex (<[s := b]> (books_ ex)) (ex_log ex ++ evs)) /\
    book_ok (per_symbol_capacity_ ex) (ex_stp_policy_ ex) s b /\
    Forall (fun e => event_symbol e = s) evs.
Proof.
  intros HL HX. destruct (book_for_ok ex s HX) as (a & HA & HO & E1 & E2 & E3 & E4).
  destruct (HL _ _ HA HO) as ((b' & E & HB) & HO' & (S1 & S2 & S3) & evs & ET & FT).
  unfold with_book. rewrite E. do 3 eexists. split; [reflexivity|].
  destruct (refines_views _ _ HA) as (_ & _ & V). destruct (refines_views _ _ HB) as (_ & _ & V').
  split.
  - exists (sb_set_outbox (spec a).2 {| sequence_ := sequence_ (sb_outbox (spec a).2); emitted_ := [] |}).
    split_and!; [by apply forwarded_refines|by revert HO'; apply ok_sublist|simpl; congruence..|done].
  - rewrite V', ET, <- V, E4, app_nil_l. by rewrite <- E1.
Qed.

Lemma lifts_submit r : in_u32 (req_quantity r) -> lifts (OrderBook.submit r) (spec_submit r).
Proof.
  intros Hq b a HA HO. pose proof (proj1 Hq).
  split; [by apply submit_ok|split; [by apply submit_sb_ok|split; [apply submit_same|by apply submit_tagged]]].
Qed.

Lemma lifts_cancel r : lifts (OrderBook.cancel r) (spec_cancel r).
Proof.
  intros b a HA HO.
  split; [by apply cancel_ok|split; [by apply cancel_sb_ok|split; [apply cancel_same|apply cancel_tagged]]].
Qed.

Lemma lifts_replace r : in_u32 (rep_new_quantity r) -> lifts (OrderBook.replace r) (spec_replace r).
Proof.
  intros Hq b a HA HO. pose proof (proj1 Hq).
  split; [by apply replace_ok|split; [by apply replace_sb_ok|split; [apply replace_same|by apply replace_tagged]]].
Qed.

Inductive ExCommand :=
| XSubmit (r : OrderRequest)
| XCancel (r : CancelRequest)
| XReplace (r : ReplaceRequest)
| XHaltAll | XResumeAll
| XHalt (s : SymbolId) | XResume (s : SymbolId)
| XBand (s : SymbolId) (reference : Price) (percent : double)
| XClearBand (s : SymbolId)
| XPolicy (p : SelfTradePreventionPolicy).

Definition ex_cmd_ok (c : ExCommand) : Prop :=
  match c with
  | XSubmit r => in_u32 (req_quantity r)
  | XReplace r => in_u32 (rep_new_quantity r)
  | _ => True
  end.

Definition ex_exec (c : ExCommand) : ST Exchange bool :=
  match c with
  | XSubmit r => submit r
  | XCancel r => cancel r
  | XReplace r => replace r
  | XHaltAll => modify halt_all;; mret true
  | XResumeAll => modify resume_all;; mret true
  | XHalt s => modify (halt_symbol s);; mret true
  | XResume s => modify (resume_symbol s);; mret true
  | XBand s p x => set_price_band s p x;; mret true
  | XClearBand s => modify (clear_price_band s);; mret true
  | XPolicy p => modify (set_stp_policy p);; mret true
  end.

Inductive ex_reach (capacity : nat) : Exchange -> Prop :=
| ex_reach_new : Z.of_nat capacity <= npos -> ex_reach capacity (new_exchange capacity)
| ex_reach_step ex c : ex_reach capacity ex -> ex_cmd_ok c -> ex_reach capacity (ex_exec c ex).2.

Lemma ex_ok_books ex ex' s b : ex_ok ex -> per_symbol_capacity_ ex' = per_symbol_capacity_ ex ->
  ex_stp_policy_ ex' = ex_stp_policy_ ex -> books_ ex' = <[s := b]> (books_ ex) ->
  book_ok (per_symbol_capacity_ ex) (ex_stp_policy_ ex) s b -> ex_ok ex'.
Proof.
  intros [HC HB] E1 E2 E3 HN. split; rewrite ?E1, ?E2; [done|]. intros s' b'. rewrite E3, lookup_insert.
  case_decide; [intros [= <-]; by subst|apply HB].
Qed.

Lemma ex_ok_same ex ex' : ex_ok ex -> per_symbol_capacity_ ex' = per_symbol_capacity_ ex ->
  ex_stp_policy_ ex' = ex_stp_policy_ ex -> books_ ex' = books_ ex -> ex_ok ex'.
Proof. intros [HC HB] E1 E2 E3. split; rewrite ?E1, ?E2, ?E3; done. Qed.

Lemma with_book_ex_ok s f spec ex : lifts f spec -> ex_ok ex -> ex_ok (with_book s f ex).2.
Proof.
  intros HL HX. destruct (with_book_ok s f spec ex HL HX) as (ok & b & evs & -> & HB & _).
  by eapply ex_ok_books.
Qed.

Lemma ex_step_ok c ex : ex_ok ex -> ex_cmd_ok c -> ex_ok (ex_exec c ex).2.
Proof.
  intros HX HC. destruct c; simpl in *; try (by apply (ex_ok_same ex)).
  - unfold submit. repeat case_if; [by apply (ex_ok_same ex)..|].
    by eapply with_book_ex_ok, HX; apply lifts_submit.
  - eapply with_book_ex_ok, HX. apply lifts_cancel.
  - by eapply with_book_ex_ok, HX; apply lifts_replace.
  - unfold mbind, st_bind, set_price_band. case_if; simpl; by apply (ex_ok_same ex).
  - destruct HX as [HK HB]. split; [done|]. intros s b. simpl. rewrite lookup_fmap.
    destruct (books_ ex !! s) as [b0|] eqn:E; [|done]. intros [= <-].
    destruct (HB s b0 E) as (a & HA & HO & E1 & E2 & E3 & E4). exists (spec_set_policy p a).
    split_and!; try done; [by apply set_policy_refines|by revert HO; apply ok_sublist].
Qed.

Lemma ex_reach_ok capacity ex : ex_reach capacity ex -> ex_ok ex.
Proof.
  induction 1 as [H|ex c _ IH HC]; [|by apply ex_step_ok].
  split; [done|]. intros s b H0. simpl in H0. by rewrite lookup_empty in H0.
Qed.

Lemma commands_return c ex : ex_ok ex -> ex_cmd_ok c -> (forall s p x, c <> XBand s p x) ->
  exists ok, (ex_exec c ex).1 = Ok ok.
Proof.
  intros HX HC HN. destruct c; simpl in *; try (eexists; reflexivity).
  - unfold submit. repeat (case_if; [by eexists|]).
    destruct (with_book_ok (req_symbol r) _ _ ex (lifts_submit r HC) HX) as (ok & b & evs & -> & _). by exists ok.
  - destruct (with_book_ok (can_symbol r) _ _ ex (lifts_cancel r) HX) as (ok & b & evs & E & _).
    exists ok. unfold cancel. by rewrite E.
  - destruct (with_book_ok (rep_symbol r) _ _ ex (lifts_replace r HC) HX) as (ok & b & evs & E & _).
    exists ok. unfold replace. by rewrite E.
  - by destruct (HN s reference percent).
Qed.

(** ** Main properties *)

(** In a reachable exchange every book is a well-formed, uncrossed book of
    its own symbol under the exchange's self-trade policy, and the next command
    of any kind throws nothing except a refused price band. *)
Theorem exchange_books_well_formed capacity ex c :
  ex_reach capacity ex -> ex_cmd_ok c ->
  (forall s b, books_ ex !! s = Some b ->
    symbol_ b = s /\ stp_policy_ b = ex_stp_policy_ ex /\
    exists rs, resting_orders b = Ok rs /\ NoDup (req_order_id <$> rs) /\
      Forall (fun r => req_symbol r = s /\ 0 < req_price r /\ 0 < req_quantity r < 2 ^ 32) rs /\
      (forall x y, x ∈ of_side Buy rs -> y ∈ of_side Sell rs -> req_price x < req_price y)) /\
  ((exists ok, (ex_exec c ex).1 = Ok ok) \/ (ex_exec c ex).1 = Throw (invalid_argument "invalid price band")).
Proof.
  intros HR HC. apply ex_reach_ok in HR as HX. split.
  - intros s b E. destruct (ex_books ex HX s b E) as (a & HA & HO & E1 & E2 & _).
    destruct (refines_views b a HA) as (HV & _).
    destruct (refines_facts b a HA) as (HF & ND & _ & _ & EP & ES).
    split; [congruence|]. split; [congruence|]. exists (spec_resting a).
    split; [done|]. split; [by rewrite resting_ids|]. split.
    + apply Forall_forall. intros r (s' & o & Ho & ->)%elem_resting. split; [done|split].
      * apply (ok_side_prices a s' HO). by apply (list_elem_of_fmap_2 o_price).
      * rewrite Forall_forall in HF. eapply HF, side_elem, Ho.
    + intros x y. rewrite !of_side_spec, !list_elem_of_fmap.
      intros (o & -> & Ho) (p & -> & Hp). apply (ok_uncrossed a HO); by apply (list_elem_of_fmap_2 o_price).
  - destruct c as [| | | | | | |s p x| |]; try (left; by apply commands_return).
    simpl. unfold mbind, st_bind, set_price_band. case_if; [by right|left; by eexists].
Qed.

(** The symbol a trading command names. *)
Definition command_symbol (c : ExCommand) : option SymbolId :=
  match c with
  | XSubmit r => Some (req_symbol r)
  | XCancel r => Some (can_symbol r)
  | XReplace r => Some (rep_symbol r)
  | _ => None
  end.

(** instruments are isolated: a command for one symbol leaves the book of
    every other symbol and all controls as they were, and every handler call it
    makes is about its symbol. *)
Theorem exchange_isolates_symbols capacity ex c s :
  ex_reach capacity ex -> ex_cmd_ok c -> command_symbol c = Some s ->
  let ex' := (ex_exec c ex).2 in
  (forall s', s' <> s -> books_ ex' !! s' = books_ ex !! s') /\
  (globally_halted_ ex' = globally_halted_ ex /\ halted_symbols_ ex' = halted_symbols_ ex /\
   price_bands_ ex' = price_bands_ ex /\ ex_stp_policy_ ex' = ex_stp_policy_ ex) /\
  exists evs, ex_log ex' = ex_log ex ++ evs /\ Forall (fun e => event_symbol e = s) evs.
Proof.
  intros HR HC HS. apply ex_reach_ok in HR as HX.
  assert (forall f spec, lifts f spec -> let ex' := (with_book s f ex).2 in
    (forall s', s' <> s -> books_ ex' !! s' = books_ ex !! s') /\
    (globally_halted_ ex' = globally_halted_ ex /\ halted_symbols_ ex' = halted_symbols_ ex /\
     price_bands_ ex' = price_bands_ ex /\ ex_stp_policy_ ex' = ex_stp_policy_ ex) /\
    exists evs, ex_log ex' = ex_log ex ++ evs /\ Forall (fun e => event_symbol e = s) evs) as HW.
  { intros f spec HL. destruct (with_book_ok s f spec ex HL HX) as (ok & b & evs & -> & _ & HF).
    simpl. split_and!; try done; [|by exists evs]. intros s' Hs. by rewrite lookup_insert_ne. }
  destruct c; simplify_eq/=.
  - unfold submit. repeat case_if; [..|by eapply HW, lifts_submit];
      (split_and!; try done; eexists; split; [reflexivity|by repeat constructor]).
  - eapply HW, lifts_cancel.
  - by eapply HW, lifts_replace.
Qed.

(** What the controls do to [submit]: an order that a book accepts was
    neither halted nor, unless it is a market order, outside the band of its
    symbol; an order they stop is refused with one report and no change. *)
Theorem submit_respects_controls ex r :
  let (res, ex') := submit r ex in
  (res = Ok true ->
     globally_halted_ ex = false /\ (req_symbol r ∉ halted_symbols_ ex) /\
     (req_type r <> Market -> forall band, price_bands_ ex !! req_symbol r = Some band ->
        dlt (dbl (req_price r)) (band_lower band) = false /\
        dlt (band_upper band) (dbl (req_price r)) = false)) /\
  (halted (req_symbol r) ex || violates_band r ex = true ->
     res = Ok false /\ books_ ex' = books_ ex /\
     exists reason, (reason = TradingHalted \/ reason = PriceBandViolation) /\
       ex_log ex' = ex_log ex ++ [EReport {| er_sequence := 0; er_order_id := req_order_id r;
         er_status := Rejected; er_remaining := req_quantity r; er_reject_reason := reason;
         er_symbol := req_symbol r |}]).
Proof.
  unfold submit. destruct (halted (req_symbol r) ex) eqn:EH.
  { split; [done|]. intros _. split_and!; try done. eexists. split; [by left|done]. }
  destruct (violates_band r ex) eqn:EB.
  { split; [done|]. intros _. split_and!; try done. eexists. split; [by right|done]. }
  destruct (with_book _ _ _) as [res ex'] eqn:EW. simpl. split; [|done]. intros _.
  unfold halted in EH. apply orb_false_iff in EH as [E1 E2]. breflect. split_and!; [done..|].
  intros HM band HB. unfold violates_band in EB. rewrite HB, bool_decide_eq_true_2 in EB by done.
  simpl in EB. by apply orb_false_iff in EB.
Qed.

(** ** The snapshot file *)

Lemma orders_bytes_cons pad r rs :
  orders_bytes pad (r :: rs) = order_bytes (pad O) r ++ orders_bytes (fun i => pad (S i)) rs.
Proof. done. Qed.

Lemma length_orders_bytes pad rs :
  (forall i, length (pad i) = 2%nat) -> length (orders_bytes pad rs) = (length rs * order_size)%nat.
Proof.
  intros Hp. revert pad Hp. induction rs as [|r rs IH]; intros pad Hp; [done|].
  rewrite orders_bytes_cons, length_app, length_order_bytes, IH by auto. done.
Qed.

Lemma read_orders_bytes pad rs rest :
  (forall i, length (pad i) = 2%nat) -> Forall order_ok rs ->
  read_orders (length rs) (orders_bytes pad rs ++ rest) = rs.
Proof.
  intros Hp HF. revert pad Hp. induction HF as [|r rs Hr _ IH]; intros pad Hp; [done|].
  rewrite orders_bytes_cons, <- app_assoc. cbn [length read_orders]. f_equal.
  - rewrite field_app by (by apply length_order_bytes).
    rewrite <- (app_nil_r (order_bytes _ r)). by apply order_bytes_roundtrip.
  - rewrite skip_app by (by apply length_order_bytes). by apply IH.
Qed.

(** Two books that show the same. *)
Definition shows_same (b b' : Book) : Prop :=
  resting_orders b' = resting_orders b /\ OrderBook.state_hash b' = OrderBook.state_hash b /\
  sequence_ (outbox_ b') = sequence_ (outbox_ b).

(** The members of a book have the ranges of their types. *)
Definition book_typed (s : SymbolId) (b : Book) : Prop :=
  in_u32 s /\ in_u64 (sequence_ (outbox_ b)) /\
  (forall rs, resting_orders b = Ok rs -> Forall order_ok rs) /\
  (forall h, OrderBook.state_hash b = Ok h -> in_u64 h).

Lemma read_field_at n m z w rest : (n <= m)%nat ->
  field w (drop m (le n z ++ rest)) = field w (drop (m - n) rest).
Proof. intros H. by rewrite drop_le. Qed.

Lemma book_header_fields s seq count h rest :
  in_u32 s -> in_u64 seq -> in_u64 count -> in_u64 h ->
  let hd := book_header_bytes s seq count h in
  read_bytes 28 (hd ++ rest) = Some (hd, rest) /\
  of_le (field 4 hd) = s /\ of_le (field 8 (drop 4 hd)) = seq /\
  of_le (field 8 (drop 12 hd)) = count /\ of_le (field 8 (drop 20 hd)) = h.
Proof.
  intros H1 H2 H3 H4 hd. unfold hd, book_header_bytes.
  split_and!; [by rewrite read_bytes_app by (rewrite !length_app, !length_le; done)|..].
  - by apply le_read_u32.
  - rewrite !read_field_at by lia. by apply le_read_u64.
  - rewrite !read_field_at by lia. by apply le_read_u64.
  - rewrite !read_field_at by lia. cbn [Nat.sub]. rewrite <- (app_nil_r (le 8 h)). by apply le_read_u64.
Qed.

Lemma set_books_twice ex m1 l1 m2 l2 : set_books (set_books ex m1 l1) m2 l2 = set_books ex m2 l2.
Proof. done. Qed.

(** One book written and read back. *)
Lemma load_book_ok ex0 s b pad rest orders h capacity policy :
  Z.of_nat (per_symbol_capacity_ ex0) <= npos -> book_ok capacity policy s b -> book_typed s b ->
  (capacity <= per_symbol_capacity_ ex0)%nat -> (forall i, length (pad i) = 2%nat) ->
  resting_orders b = Ok orders -> OrderBook.state_hash b = Ok h -> books_ ex0 !! s = None ->
  exists b', shows_same b b' /\
    load_book (book_header_bytes s (sequence_ (outbox_ b)) (Z.of_nat (length orders)) h ++
      orders_bytes pad orders ++ rest) ex0 =
    (Ok rest, set_books ex0 (<[s := b']> (books_ ex0)) (ex_log ex0)).
Proof.
  intros HK (a & HA & HO & EA1 & EA2 & EA3 & EA4) (T1 & T2 & T3 & T4) HC Hp HV HH HN.
  destruct (refines_facts b a HA) as (_ & _ & HLen & _ & _ & ES).
  assert (length orders <= capacity)%nat as HL.
  { destruct (refines_views b a HA) as (V & _). rewrite HV in V. injection V as ->.
    rewrite resting_length, <- EA3. by destruct HA as (g & _ & _ & ->). }
  destruct (book_header_fields s (sequence_ (outbox_ b)) (Z.of_nat (length orders)) h
    (orders_bytes pad orders ++ rest)) as (R & F1 & F2 & F3 & F4); [done|done| |by apply T4|].
  { unfold in_u64, npos in *. lia. }
  unfold load_book. rewrite R, F1, F2, F3, F4. rewrite (proj2 (Z.ltb_ge _ _)) by lia.
  rewrite Nat2Z.id. rewrite read_bytes_app by (by apply length_orders_bytes).
  rewrite <- (app_nil_r (orders_bytes pad orders)), read_orders_bytes by auto.
  destruct (restore_back b a (new_book ex0 s) _ orders (sequence_ (outbox_ b)) h HA HO
    (new_book_refines ex0 s HK) HV HH) as (b' & a' & E & HA' & _ & G1 & G2 & G3 & G4 & _).
  { simpl. rewrite length_replicate. lia. }
  { simpl. congruence. }
  rewrite E, G2, Z.eqb_refl, HN. simpl. exists (forwarded b'). split.
  - split_and!; [by rewrite HV, <- G1|by rewrite HH, <- G2|by rewrite <- G3].
  - rewrite G4. simpl. by rewrite app_nil_r.
Qed.

Lemma load_books_ok ex pad ss : forall ex0 bs,
  ex_ok ex -> Z.of_nat (per_symbol_capacity_ ex0) <= npos ->
  (per_symbol_capacity_ ex <= per_symbol_capacity_ ex0)%nat ->
  (forall s i, length (pad s i) = 2%nat) ->
  (forall s b, books_ ex !! s = Some b -> book_typed s b) ->
  NoDup ss -> (forall s, s ∈ ss -> books_ ex0 !! s = None) -> books_bytes pad ex ss = Ok bs ->
  exists m, load_books (length ss) bs ex0 = (Ok tt, set_books ex0 m (ex_log ex0)) /\
    (forall s, s ∉ ss -> m !! s = books_ ex0 !! s) /\
    (forall s, s ∈ ss -> exists b b', books_ ex !! s = Some b /\ m !! s = Some b' /\ shows_same b b').
Proof.
  induction ss as [|s ss IH]; intros ex0 bs HX HK HC Hp HT ND HN HB.
  { exists (books_ ex0). split_and!; [by destruct ex0|done|]. intros s Hs. by apply elem_of_nil in Hs. }
  apply NoDup_cons in ND as [Hs ND]. cbn [books_bytes] in HB.
  destruct (books_ ex !! s) as [b|] eqn:Eb; [|done].
  destruct (resting_orders b) as [orders|] eqn:HV; [|done].
  destruct (OrderBook.state_hash b) as [h|] eqn:HH; [|done].
  cbn [mbind result_bind] in HB. destruct (books_bytes pad ex ss) as [rest|] eqn:ER; [|done].
  assert (bs = book_header_bytes s (sequence_ (outbox_ b)) (Z.of_nat (length orders)) h ++
    orders_bytes (pad s) orders ++ rest) as -> by (injection HB as <-; reflexivity). clear HB.
  destruct (load_book_ok ex0 s b (pad s) rest orders h _ _ HK (ex_books ex HX s b Eb) (HT s b Eb) HC
    (Hp s) HV HH (HN s ltac:(constructor))) as (b' & HS & HL).
  set (ex1 := set_books ex0 (<[s := b']> (books_ ex0)) (ex_log ex0)) in *.
  destruct (IH ex1 rest) as (m & EM & M1 & M2); try done.
  { intros s' Hs'. simpl. rewrite lookup_insert_ne by (by intros ->). apply HN. by constructor. }
  exists m. split_and!.
  - cbn [length load_books]. unfold mbind, st_bind. rewrite HL, EM. done.
  - intros s' Hs'. rewrite not_elem_of_cons in Hs'. destruct Hs' as [Hne Hs'].
    rewrite M1 by done. simpl. by rewrite lookup_insert_ne.
  - intros s' Hs'. apply elem_of_cons in Hs' as [->|Hs']; [|by apply M2].
    exists b, b'. split_and!; [done| |done]. rewrite M1 by done. simpl. by rewrite lookup_insert_eq.
Qed.

Lemma symbols_spec ex : symbols ex ≡ₚ elements (dom (books_ ex)).
Proof. apply merge_sort_Permutation. Qed.

Lemma hash_books_total ex ss h : ex_ok ex -> (forall x, x ∈ ss -> is_Some (books_ ex !! x)) ->
  exists h', hash_books ex ss h = Ok h'.
Proof.
  intros HX. revert h. induction ss as [|x ss IH]; intros h HS; [by eexists|].
  destruct (HS x) as [b Eb]; [constructor|]. cbn [hash_books]. rewrite Eb.
  destruct (ex_books ex HX x b Eb) as (a & HA & _). destruct (refines_views b a HA) as (_ & -> & _).
  apply IH. intros y Hy. apply HS. by constructor.
Qed.

Lemma state_hash_total ex : ex_ok ex -> exists h, state_hash ex = Ok h.
Proof.
  intros HX. apply hash_books_total; [done|]. intros x. rewrite symbols_spec, elem_of_elements. apply elem_of_dom.
Qed.

Lemma new_exchange_ok capacity : Z.of_nat capacity <= npos -> ex_ok (new_exchange capacity).
Proof. intros H. by apply (ex_reach_ok capacity), ex_reach_new. Qed.

Lemma books_bytes_total ex pad ss : ex_ok ex -> (forall s, s ∈ ss -> is_Some (books_ ex !! s)) ->
  exists bs, books_bytes pad ex ss = Ok bs.
Proof.
  intros HX. induction ss as [|s ss IH]; intros HS; [by eexists|].
  destruct (HS s) as [b Eb]; [constructor|].
  destruct IH as [bs IH]; [intros s' Hs'; apply HS; by constructor|].
  cbn [books_bytes]. rewrite Eb. destruct (ex_books ex HX s b Eb) as (a & HA & _).
  destruct (refines_views b a HA) as (-> & -> & _). cbn [mbind result_bind]. rewrite IH. by eexists.
Qed.

(** C5: a snapshot file round trip: [write_snapshot] of a reachable exchange
    whose members have the ranges of their C++ types succeeds, and
    [load_snapshot] of that file into an exchange with room succeeds, whatever
    the padding bytes; it then has exactly the books that were written, with the
    same resting orders, sequence numbers and hashes, and keeps its own controls
    and log. *)
Theorem snapshot_file_roundtrip capacity ex capacity0 ex0 pad :
  ex_reach capacity ex -> ex_reach capacity0 ex0 ->
  (per_symbol_capacity_ ex <= per_symbol_capacity_ ex0)%nat ->
  (forall s i, length (pad s i) = 2%nat) ->
  (forall s b, books_ ex !! s = Some b -> book_typed s b) ->
  Z.of_nat (length (symbols ex)) < 2 ^ 32 ->
  exists file m, write_snapshot pad ex = Ok file /\
    load_snapshot (Some file) ex0 = (Ok tt, set_books ex0 m (ex_log ex0)) /\
    (forall s, books_ ex !! s = None -> m !! s = None) /\
    (forall s b, books_ ex !! s = Some b -> exists b', m !! s = Some b' /\ shows_same b b').
Proof.
  intros HR HR0 HC Hp HT HL. apply ex_reach_ok in HR as HX. apply ex_reach_ok in HR0 as HX0.
  assert (forall s, s ∈ symbols ex <-> is_Some (books_ ex !! s)) as HS.
  { intros s. by rewrite symbols_spec, elem_of_elements, elem_of_dom. }
  assert (NoDup (symbols ex)) as ND by (rewrite symbols_spec; apply NoDup_elements).
  destruct (books_bytes_total ex pad (symbols ex) HX) as [bs EB]; [intros s; apply HS|].
  set (hd := header_bytes (Z.of_nat (length (symbols ex)))).
  destruct (load_books_ok ex pad (symbols ex) (set_books ex0 ∅ (ex_log ex0)) bs) as (m & EM & M1 & M2);
    try done; [apply HX0|].
  exists (hd ++ bs), m. split_and!.
  - unfold write_snapshot. by rewrite EB.
  - unfold load_snapshot. rewrite (read_bytes_app 12) by (unfold hd, header_bytes; by rewrite !length_app, !length_le).
    assert (of_le (field 4 hd) = snapshot_magic /\ of_le (field 2 (drop 4 hd)) = snapshot_version)
      as [-> ->] by (split; reflexivity).
    assert (of_le (field 4 (drop 8 hd)) = Z.of_nat (length (symbols ex))) as ->.
    { unfold hd, header_bytes. rewrite !read_field_at by lia. cbn [Nat.sub].
      rewrite u32_small by (unfold in_u32; lia). rewrite <- (app_nil_r (le 4 _)), drop_0.
      apply le_read_u32. unfold in_u32. lia. }
    rewrite Nat2Z.id. cbn [negb Z.eqb orb]. exact EM.
  - intros s E. rewrite M1; [apply lookup_empty|]. rewrite HS, E. by intros [? ?].
  - intros s b E. destruct (M2 s) as (b0 & b' & E0 & E1 & E2); [apply HS; by exists b|].
    rewrite E in E0. injection E0 as <-. by exists b'.
Qed.

(** ** Replacement and the controls *)

Definition price_book (cs : list ExCommand) : Exchange :=
  foldl (fun ex c => (ex_exec c ex).2) (new_exchange 8) cs.

(** The controls gate [submit] only: with the exchange halted and a band of
    one per cent around 100, a replacement still moves a resting order to
    price 200 and trades there. *)
Example replace_bypasses_controls :
  let ex := price_book [XSubmit (order 1 7 Sell Limit 200 5); XSubmit (order 2 8 Buy Limit 99 5);
                        XBand 1 100 (dbl 1); XHaltAll] in
  let r := {| rep_order_id := 2; rep_client_id := 8; rep_new_price := 200;
              rep_new_quantity := 5; rep_symbol := 1 |} in
  (submit (order 3 9 Buy Limit 99 1) ex).1 = Ok false /\
  (replace r ex).1 = Ok true /\
  traded (drop (length (ex_log ex)) (ex_log (replace r ex).2)) = 5.
Proof. vm_compute. by split_and!. Qed.

(** ** Witnesses *)

Definition demo_exchange : Exchange :=
  (ex_exec (XSubmit (order 2 8 Sell Limit 101 5))
    (ex_exec (XSubmit (order 1 7 Buy Limit 100 5)) (new_exchange 8)).2).2.

Lemma demo_exchange_reach : ex_reach 8 demo_exchange.
Proof.
  unfold demo_exchange. repeat (apply ex_reach_step; [|by split]). by apply ex_reach_new.
Qed.

Lemma exchange_books_well_formed_witness :
  let c := XSubmit (order 3 9 Buy Limit 101 8) in
  (forall s b, books_ demo_exchange !! s = Some b ->
    symbol_ b = s /\ stp_policy_ b = ex_stp_policy_ demo_exchange /\
    exists rs, resting_orders b = Ok rs /\ NoDup (req_order_id <$> rs) /\
      Forall (fun r => req_symbol r = s /\ 0 < req_price r /\ 0 < req_quantity r < 2 ^ 32) rs /\
      (forall x y, x ∈ of_side Buy rs -> y ∈ of_side Sell rs -> req_price x < req_price y)) /\
  ((exists ok, (ex_exec c demo_exchange).1 = Ok ok) \/
   (ex_exec c demo_exchange).1 = Throw (invalid_argument "invalid price band")).
Proof.
  apply (exchange_books_well_formed 8 demo_exchange (XSubmit (order 3 9 Buy Limit 101 8))
    demo_exchange_reach). by split.
Defined.

Lemma exchange_isolates_symbols_witness :
  let c := XSubmit (order 3 9 Buy Limit 101 8) in
  let ex' := (ex_exec c demo_exchange).2 in
  (forall s', s' <> 1 -> books_ ex' !! s' = books_ demo_exchange !! s') /\
  (globally_halted_ ex' = globally_halted_ demo_exchange /\
   halted_symbols_ ex' = halted_symbols_ demo_exchange /\
   price_bands_ ex' = price_bands_ demo_exchange /\
   ex_stp_policy_ ex' = ex_stp_policy_ demo_exchange) /\
  exists evs, ex_log ex' = ex_log demo_exchange ++ evs /\ Forall (fun e => event_symbol e = 1) evs.
Proof.
  apply (exchange_isolates_symbols 8 demo_exchange (XSubmit (order 3 9 Buy Limit 101 8)) 1
    demo_exchange_reach); [by split|done].
Defined.

Definition demo_exchange_book : Book := book_for 1 demo_exchange.

Lemma demo_exchange_books : books_ demo_exchange = {[1 := demo_exchange_book]}.
Proof. vm_compute. reflexivity. Qed.

Lemma demo_exchange_typed s b : books_ demo_exchange !! s = Some b -> book_typed s b.
Proof.
  rewrite demo_exchange_books. intros H. apply lookup_singleton_Some in H as [<- <-].
  split; [by split|split; [by vm_compute|split]].
  - intros rs H. vm_compute in H. injection H as <-.
    repeat (apply Forall_cons; split; [unfold order_ok, in_u64, in_u32, in_i64; simpl; lia|]). constructor.
  - intros h H. vm_compute in H. injection H as <-. by vm_compute.
Qed.

Lemma snapshot_file_roundtrip_witness :
  exists file m, write_snapshot (fun _ _ => [0; 0]) demo_exchange = Ok file /\
    load_snapshot (Some file) (new_exchange 8) =
      (Ok tt, set_books (new_exchange 8) m (ex_log (new_exchange 8))) /\
    (forall s, books_ demo_exchange !! s = None -> m !! s = None) /\
    (forall s b, books_ demo_exchange !! s = Some b -> exists b', m !! s = Some b' /\ shows_same b b').
Proof.
  apply (snapshot_file_roundtrip 8 demo_exchange 8 (new_exchange 8) (fun _ _ => [0; 0])
    demo_exchange_reach); [by apply ex_reach_new|vm_compute; lia|done|exact demo_exchange_typed|].
  vm_compute. done.
Defined.
