(* ===== verification/Risk.v ===== *)
(** * Pre-trade risk ([risk.hpp], [risk.cpp])

    One state per client and instrument, found by a 64-bit key.  Positions,
    notionals and profits are 64-bit signed; their sums and products are
    reduced to 64 bits, as the target does when they leave the range (the
    language leaves that case undefined). *)

From S2P Require Import Prelude.
From S2P Require Import Types.
From S2P Require Import Bytes.

(** Signed 64-bit arithmetic. *)
Definition i64 (z : Z) : Z := to_i64 (u64 z).

(** [std::llabs] *)
Definition llabs (z : Z) : Z := i64 (Z.abs z).

Record RiskLimits := {
  max_order_quantity : Quantity;
  max_abs_position : Z;
  max_open_notional : Z;
  max_daily_loss : Z
}.

Definition default_limits : RiskLimits := {|
  max_order_quantity := 5000; max_abs_position := 25000;
  max_open_notional := 500000000; max_daily_loss := 5000000 |}.

Record RiskState := {
  position : Z;
  open_notional : Z;
  realized_pnl : Z;
  killed : bool
}.

Definition RiskState0 : RiskState :=
  {| position := 0; open_notional := 0; realized_pnl := 0; killed := false |}.

Record RiskEngine := {
  limits_ : RiskLimits;
  states_ : gmap Z RiskState
}.

Definition new_risk_engine (limits : RiskLimits) : RiskEngine :=
  {| limits_ := limits; states_ := ∅ |}.

Definition key (client : ClientId) (symbol : SymbolId) : Z :=
  Z.lor (u64 (Z.shiftl client 32)) symbol.

(** [states_\[key\]] read, and written back by a function of the state. *)
Definition state (client : ClientId) (symbol : SymbolId) (e : RiskEngine) : RiskState :=
  default RiskState0 (states_ e !! key client symbol).

Definition update (client : ClientId) (symbol : SymbolId) (f : RiskState -> RiskState)
    (e : RiskEngine) : RiskEngine :=
  {| limits_ := limits_ e;
     states_ := <[key client symbol := f (state client symbol e)]> (states_ e) |}.

Definition signed_quantity (s : Side) (q : Z) : Z := match s with Buy => q | Sell => - q end.

Definition allow (r : OrderRequest) (e : RiskEngine) : bool :=
  let l := limits_ e in
  if (req_quantity r =? 0) || (max_order_quantity l <? req_quantity r) then false
  else
    let s := state (req_client_id r) (req_symbol r) e in
    if killed s || (realized_pnl s <=? i64 (- max_daily_loss l)) then false
    else if max_abs_position l <?
            llabs (i64 (position s + signed_quantity (req_side r) (req_quantity r))) then false
    else if bool_decide (req_type r ≠ Market) then
      let add := i64 (req_quantity r * req_price r) in
      negb ((add <? 0) || (i64 (max_open_notional l - add) <? open_notional s))
    else true.

Definition set_open_notional (n : Z) (s : RiskState) : RiskState :=
  {| position := position s; open_notional := n; realized_pnl := realized_pnl s;
     killed := killed s |}.

Definition on_order_accepted (r : OrderRequest) : RiskEngine -> RiskEngine :=
  update (req_client_id r) (req_symbol r) (fun s =>
    if bool_decide (req_type r ≠ Market)
    then set_open_notional (i64 (open_notional s + i64 (req_quantity r * req_price r))) s
    else s).

Definition on_order_closed (client : ClientId) (symbol : SymbolId) (_ : Side) (price : Price)
    (quantity : Quantity) : RiskEngine -> RiskEngine :=
  update client symbol (fun s =>
    set_open_notional (Z.max 0 (i64 (open_notional s - i64 (quantity * price)))) s).

Definition on_fill (client : ClientId) (symbol : SymbolId) (s : Side) (price : Price)
    (quantity : Quantity) : RiskEngine -> RiskEngine :=
  update client symbol (fun st =>
    {| position := i64 (position st + signed_quantity s quantity);
       open_notional := Z.max 0 (i64 (open_notional st - i64 (quantity * price)));
       realized_pnl := realized_pnl st; killed := killed st |}).

Definition set_realized_pnl (client : ClientId) (symbol : SymbolId) (pnl : Z) (e : RiskEngine)
    : RiskEngine :=
  update client symbol (fun s =>
    {| position := position s; open_notional := open_notional s; realized_pnl := pnl;
       killed := killed s || (pnl <=? i64 (- max_daily_loss (limits_ e))) |}) e.

Definition kill (client : ClientId) (symbol : SymbolId) : RiskEngine -> RiskEngine :=
  update client symbol (fun s =>
    {| position := position s; open_notional := open_notional s;
       realized_pnl := realized_pnl s; killed := true |}).

Definition reset (client : ClientId) (symbol : SymbolId) : RiskEngine -> RiskEngine :=
  update client symbol (fun _ => RiskState0).

(** ** Keys *)

Lemma key_sum c s : in_u32 c -> in_u32 s -> key c s = c * 2 ^ 32 + s.
Proof.
  intros [Hc1 Hc2] [Hs1 Hs2]. unfold key. rewrite Z.shiftl_mul_pow2 by lia.
  rewrite u64_small by (unfold in_u64; lia).
  rewrite <- Z.add_lor_land.
  enough (Z.land (c * 2 ^ 32) s = 0) by lia.
  apply Z.bits_inj'. intros n Hn. rewrite Z.land_spec, Z.bits_0.
  destruct (Z_lt_le_dec n 32).
  - by rewrite Z.mul_pow2_bits_low.
  - assert (Z.testbit s n = false) as ->; [|by rewrite andb_false_r].
    rewrite <- (Z.mod_small s (2 ^ 32)) by lia. by apply Z.mod_pow2_bits_high.
Qed.

(** The states of different clients or instruments do not share a key. *)
Lemma key_inj c s c' s' : in_u32 c -> in_u32 s -> in_u32 c' -> in_u32 s' ->
  key c s = key c' s' -> c = c' /\ s = s'.
Proof.
  intros Hc Hs Hc' Hs' H. rewrite !key_sum in H by done. unfold in_u32 in *. lia.
Qed.

Lemma state_update c s f e c' s' : in_u32 c -> in_u32 s -> in_u32 c' -> in_u32 s' ->
  state c' s' (update c s f e) =
  if decide (c' = c /\ s' = s) then f (state c s e) else state c' s' e.
Proof.
  intros Hc Hs Hc' Hs'. unfold state at 1, update. simpl. rewrite lookup_insert.
  case_decide as E; case_decide as D; try done.
  - destruct D. symmetry in E. apply key_inj in E; tauto.
  - destruct D as [-> ->]. done.
Qed.

(** ** The machine *)

Inductive RiskOp :=
| RAccepted (r : OrderRequest)
| RClosed (client : ClientId) (symbol : SymbolId) (s : Side) (price : Price) (quantity : Quantity)
| RFill (client : ClientId) (symbol : SymbolId) (s : Side) (price : Price) (quantity : Quantity)
| RPnl (client : ClientId) (symbol : SymbolId) (pnl : Z)
| RKill (client : ClientId) (symbol : SymbolId)
| RReset (client : ClientId) (symbol : SymbolId).

Definition risk_step (o : RiskOp) (e : RiskEngine) : RiskEngine :=
  match o with
  | RAccepted r => on_order_accepted r e
  | RClosed c s sd p q => on_order_closed c s sd p q e
  | RFill c s sd p q => on_fill c s sd p q e
  | RPnl c s pnl => set_realized_pnl c s pnl e
  | RKill c s => kill c s e
  | RReset c s => reset c s e
  end.

Definition op_target (o : RiskOp) : ClientId * SymbolId :=
  match o with
  | RAccepted r => (req_client_id r, req_symbol r)
  | RClosed c s _ _ _ | RFill c s _ _ _ | RPnl c s _ | RKill c s | RReset c s => (c, s)
  end.

Definition op_ok (o : RiskOp) : Prop := in_u32 (op_target o).1 /\ in_u32 (op_target o).2.

Lemma risk_step_killed o e c s : in_u32 c -> in_u32 s -> op_ok o ->
  o <> RReset c s -> killed (state c s e) = true -> killed (state c s (risk_step o e)) = true.
Proof.
  intros Hc Hs [H1 H2] HR HK. destruct o; simpl in *;
    unfold on_order_accepted, on_order_closed, on_fill, set_realized_pnl, kill, reset;
    rewrite state_update by done; case_decide as D; try done; destruct D as [-> ->].
  - by case_bool_decide.
  - done.
  - done.
  - simpl. by rewrite HK.
  - done.
Qed.

(** The kill switch sticks: once a client's state in an instrument is
    killed, by [kill] or by a loss at the limit, no later event of any client
    except a reset of that state makes [allow] accept an order of it. *)
Theorem kill_switch_sticks ops e c s r :
  in_u32 c -> in_u32 s -> Forall op_ok ops -> RReset c s ∉ ops ->
  killed (state c s e) = true -> req_client_id r = c -> req_symbol r = s ->
  allow r (foldl (fun e o => risk_step o e) e ops) = false.
Proof.
  intros Hc Hs HO HR HK <- <-. revert e HK.
  induction HO as [|o ops Ho _ IH]; intros e HK; simpl.
  - unfold allow. case_if; [done|]. by rewrite HK.
  - rewrite not_elem_of_cons in HR. destruct HR as [Hne HR].
    apply IH; [done|]. by apply risk_step_killed; auto.
Qed.

Lemma i64_small z : in_i64 z -> i64 z = z.
Proof. apply to_i64_u64. Qed.

(** C6: [allow] within the limits: when prices stay below 2{^30} and the
    recorded position, notional and limits below 2{^62}, an allowed order keeps
    the quantity, the resulting position and the resulting open notional within
    the limits, and the client is neither killed nor at its loss limit. *)
Theorem allow_respects_limits e r :
  let l := limits_ e in
  let s := state (req_client_id r) (req_symbol r) e in
  in_u32 (req_quantity r) -> Z.abs (req_price r) < 2 ^ 30 ->
  Z.abs (position s) < 2 ^ 62 -> 0 <= open_notional s < 2 ^ 62 ->
  0 <= max_open_notional l < 2 ^ 62 -> 0 <= max_daily_loss l < 2 ^ 62 ->
  allow r e = true ->
  0 < req_quantity r <= max_order_quantity l /\
  Z.abs (position s + signed_quantity (req_side r) (req_quantity r)) <= max_abs_position l /\
  killed s = false /\ - max_daily_loss l < realized_pnl s /\
  (req_type r <> Market ->
     0 <= req_quantity r * req_price r /\
     open_notional s + req_quantity r * req_price r <= max_open_notional l).
Proof.
  intros l s Hq Hp Hpos Hn Hm Hd HA. unfold allow in HA. fold l s in HA.
  destruct ((req_quantity r =? 0) || _) eqn:E1; [done|].
  destruct (killed s || _) eqn:E2; [done|]. destruct (max_abs_position l <? _) eqn:E3; [done|].
  breflect. unfold in_u32 in Hq.
  assert (Z.abs (signed_quantity (req_side r) (req_quantity r)) <= req_quantity r) as Hsq
    by (destruct (req_side r); simpl; lia).
  assert (Z.abs (req_quantity r * req_price r) <= 2 ^ 32 * 2 ^ 30) as Hadd.
  { rewrite Z.abs_mul. apply Z.mul_le_mono_nonneg; lia. }
  rewrite (i64_small (position s + _)) in E3 by (unfold in_i64; lia).
  unfold llabs in E3. rewrite i64_small in E3 by (unfold in_i64; lia).
  assert (i64 (- max_daily_loss l) = - max_daily_loss l) as EL by (apply i64_small; unfold in_i64; lia).
  rewrite EL in *. split; [lia|]. split; [lia|]. split; [done|]. split; [lia|].
  intros HM. rewrite bool_decide_eq_true_2 in HA by done.
  rewrite (i64_small (req_quantity r * _)) in HA by (unfold in_i64; lia).
  apply negb_true_iff, orb_false_iff in HA as [HA1 HA2]. breflect.
  rewrite i64_small in HA2 by (unfold in_i64; lia). lia.
Qed.

(** Without those bounds the notional product wraps: four units at price
    2{^62} count as a notional of 0 and are allowed with default limits. *)
Example notional_check_wraps :
  let r := {| req_order_id := 1; req_client_id := 7; req_side := Buy; req_type := Limit;
              req_price := 2 ^ 62; req_quantity := 4; req_symbol := 1 |} in
  allow r (new_risk_engine default_limits) = true /\
  open_notional (state 7 1 (on_order_accepted r (new_risk_engine default_limits))) = 0.
Proof. by vm_compute. Qed.

(** ** Witnesses *)

Definition demo_order : OrderRequest := {| req_order_id := 1; req_client_id := 7; req_side := Sell;
  req_type := Limit; req_price := 100; req_quantity := 40; req_symbol := 1 |}.

Lemma kill_switch_sticks_witness :
  allow demo_order (foldl (fun e o => risk_step o e)
    (set_realized_pnl 7 1 (-6000000) (new_risk_engine default_limits))
    [RPnl 7 1 0; RFill 7 1 Buy 100 5; RReset 8 1]) = false.
Proof.
  apply (kill_switch_sticks [RPnl 7 1 0; RFill 7 1 Buy 100 5; RReset 8 1]
    (set_realized_pnl 7 1 (-6000000) (new_risk_engine default_limits)) 7 1 demo_order);
    [by split|by split|repeat constructor; done| |by vm_compute|done|done].
  intros H. repeat (apply elem_of_cons in H as [[=]|H]). by apply elem_of_nil in H.
Defined.

Lemma allow_respects_limits_witness :
  let e := on_fill 7 1 Buy 90 30 (new_risk_engine default_limits) in
  let s := state 7 1 e in
  0 < 40 <= 5000 /\ Z.abs (position s + - (40)) <= 25000 /\ killed s = false /\
  - 5000000 < realized_pnl s /\
  (Limit <> Market -> 0 <= 40 * 100 /\ open_notional s + 40 * 100 <= 500000000).
Proof.
  apply (allow_respects_limits (on_fill 7 1 Buy 90 30 (new_risk_engine default_limits)) demo_order);
    try (vm_compute; done); split; by vm_compute.
Defined.
