(* ===== verification/EventLog.v ===== *)
(** * The event log ([event_log.hpp], [event_log.cpp])

    An append-only file of input events: each record is a 28-byte header with a
    sequence number and the FNV checksum of the payload, then the request as it
    lies in memory.  A file is its list of bytes. *)

From S2P Require Import Prelude.
From S2P Require Import Types.
From S2P Require Import Bytes.
From S2P Require Import Layout.

Inductive EventKind := KSubmit | KCancel | KReplace.

Definition kind_code (k : EventKind) : Z :=
  match k with KSubmit => 1 | KCancel => 2 | KReplace => 3 end.

Inductive InputEvent :=
| InOrder (r : OrderRequest)
| InCancel (r : CancelRequest)
| InReplace (r : ReplaceRequest).

Definition log_magic : Z := 1296911431.  (* 0x4D4D4C47 *)
Definition log_version : Z := 2.
Definition log_header_size : nat := 28.

Definition checksum (bytes : list Z) : Z := foldl fnv_step fnv_offset bytes.

(** ** Writing *)

(** [good_] is the state of the stream, which the operating system can spoil;
    [file_] is what the file holds. *)
Record EventLogWriter := {
  file_ : list Z;
  good_ : bool;
  event_sequence_ : Z
}.

(** Opening in append mode: [None] when the file cannot be opened. *)
Definition open_writer (content : option (list Z)) : result EventLogWriter :=
  match content with
  | None => Throw (runtime_error "cannot open event log")
  | Some bs => Ok {| file_ := bs; good_ := true; event_sequence_ := 0 |}
  end.

Definition log_header (kind : EventKind) (payload_size seq sum : Z) : list Z :=
  le 4 log_magic ++ le 2 log_version ++ [kind_code kind] ++ [0] ++ le 4 payload_size ++
  le 8 seq ++ le 8 sum.

Definition write (kind : EventKind) (value : list Z) : ST EventLogWriter unit := fun w =>
  let seq := u64 (event_sequence_ w + 1) in
  if good_ w
  then (Ok tt, {| file_ := file_ w ++ log_header kind (Z.of_nat (length value)) seq (checksum value)
                            ++ value;
                  good_ := true; event_sequence_ := seq |})
  else (Throw (runtime_error "event log write failed"),
        {| file_ := file_ w; good_ := false; event_sequence_ := seq |}).

(** The kind and the bytes in memory of an event; [pad] are its padding bytes,
    of which an order has two and a replacement four. *)
Definition event_kind (e : InputEvent) : EventKind :=
  match e with InOrder _ => KSubmit | InCancel _ => KCancel | InReplace _ => KReplace end.

Definition event_bytes (pad : list Z) (e : InputEvent) : list Z :=
  match e with
  | InOrder r => order_bytes pad r
  | InCancel r => cancel_bytes r
  | InReplace r => replace_bytes pad r
  end.

Definition append (pad : list Z) (e : InputEvent) : ST EventLogWriter unit :=
  write (event_kind e) (event_bytes pad e).

Fixpoint append_all (evs : list (list Z * InputEvent)) : ST EventLogWriter unit :=
  match evs with
  | [] => mret tt
  | (pad, e) :: evs => append pad e ;; append_all evs
  end.

(** ** Reading *)

(** [in_] is what the stream has left; a failed read leaves nothing. *)
Record EventLogReader := {
  in_ : list Z;
  last_sequence_ : Z
}.

Definition open_reader (content : option (list Z)) : result EventLogReader :=
  match content with
  | None => Throw (runtime_error "cannot open event log")
  | Some bs => Ok {| in_ := bs; last_sequence_ := 0 |}
  end.

(** The lambda [read_checked] of [next]. *)
Definition read_checked {A} (size : nat) (decode : list Z -> A) (sum : Z) : ST EventLogReader A :=
  fun r =>
  match read_bytes size (in_ r) with
  | None => (Throw (runtime_error "log checksum mismatch"),
             {| in_ := []; last_sequence_ := last_sequence_ r |})
  | Some (v, rest) =>
      let r' := {| in_ := rest; last_sequence_ := last_sequence_ r |} in
      if checksum v =? sum then (Ok (decode v), r')
      else (Throw (runtime_error "log checksum mismatch"), r')
  end.

(** [Some e] where the code stores [e] and returns [true]. *)
Definition next : ST EventLogReader (option InputEvent) := fun r =>
  match read_bytes log_header_size (in_ r) with
  | None => (Ok None, {| in_ := []; last_sequence_ := last_sequence_ r |})
  | Some (h, rest) =>
      let magic := of_le (field 4 h) in
      let version := of_le (field 2 (drop 4 h)) in
      let kind := of_le (field 1 (drop 6 h)) in
      let size := of_le (field 4 (drop 8 h)) in
      let seq := of_le (field 8 (drop 12 h)) in
      let sum := of_le (field 8 (drop 20 h)) in
      if negb (magic =? log_magic) || negb (version =? log_version) ||
         negb (seq =? u64 (last_sequence_ r + 1))
      then (Throw (runtime_error "bad or non-contiguous log header"),
            {| in_ := rest; last_sequence_ := last_sequence_ r |})
      else
        (if (kind =? 1) && (size =? 32) then
           v ← read_checked order_size order_of_bytes sum; mret (Some (InOrder v))
         else if (kind =? 2) && (size =? 16) then
           v ← read_checked cancel_size cancel_of_bytes sum; mret (Some (InCancel v))
         else if (kind =? 3) && (size =? 32) then
           v ← read_checked replace_size replace_of_bytes sum; mret (Some (InReplace v))
         else throw (runtime_error "unknown log event"))
        {| in_ := rest; last_sequence_ := seq |}
  end.

(** The loop of every reader of a log, [while (reader.next(event))]: the events
    it gets and how it ends; [None] when the fuel does not suffice. *)
Fixpoint drain (fuel : nat) (r : EventLogReader) : list InputEvent * option (result unit) :=
  match fuel with
  | O => ([], None)
  | S fuel =>
      match next r with
      | (Ok (Some e), r) => let (es, o) := drain fuel r in (e :: es, o)
      | (Ok None, _) => ([], Some (Ok tt))
      | (Throw x, _) => ([], Some (Throw x))
      end
  end.

(** ** Records *)

Definition event_ok (e : InputEvent) : Prop :=
  match e with
  | InOrder r => order_ok r
  | InCancel r => cancel_request_ok r
  | InReplace r => replace_request_ok r
  end.

Definition pad_ok (pad : list Z) (e : InputEvent) : Prop :=
  match e with
  | InOrder _ => length pad = 2%nat
  | InCancel _ => True
  | InReplace _ => length pad = 4%nat
  end.

Definition record_ok (x : list Z * InputEvent) : Prop := pad_ok x.1 x.2 /\ event_ok x.2.

Definition record (seq : Z) (x : list Z * InputEvent) : list Z :=
  let v := event_bytes x.1 x.2 in
  log_header (event_kind x.2) (Z.of_nat (length v)) seq (checksum v) ++ v.

Fixpoint records (last : Z) (evs : list (list Z * InputEvent)) : list Z :=
  match evs with
  | [] => []
  | x :: evs => record (u64 (last + 1)) x ++ records (u64 (last + 1)) evs
  end.

Lemma append_all_records evs w :
  good_ w = true ->
  let (res, w') := append_all evs w in
  res = Ok tt /\ good_ w' = true /\ file_ w' = file_ w ++ records (event_sequence_ w) evs.
Proof.
  revert w. induction evs as [|[pad e] evs IH]; intros w Hw.
  - cbn. by rewrite app_nil_r.
  - cbn [append_all records]. unfold mbind, st_bind at 1. unfold append, write. rewrite Hw.
    match goal with |- context [append_all evs ?w1] => specialize (IH w1 eq_refl) end.
    destruct (append_all evs _) as [res w']. destruct IH as (-> & Hg & Hf).
    split; [done|]. split; [done|]. rewrite Hf. cbn. by rewrite <- !app_assoc.
Qed.

Lemma checksum_u64 bytes : in_u64 (checksum bytes).
Proof.
  unfold checksum. assert (in_u64 fnv_offset) as H by (by split).
  revert H. generalize fnv_offset. induction bytes as [|b bytes IH]; intros h H; simpl; [done|].
  apply IH, u64_range.
Qed.

Lemma length_log_header k sz seq sum : length (log_header k sz seq sum) = log_header_size.
Proof. unfold log_header. by rewrite !length_app, !length_le. Qed.

Lemma length_event_bytes pad e : pad_ok pad e ->
  length (event_bytes pad e) = match e with InCancel _ => cancel_size | _ => order_size end.
Proof.
  destruct e; cbn [event_bytes pad_ok]; intros H.
  - by apply length_order_bytes.
  - apply length_cancel_bytes.
  - by apply length_replace_bytes.
Qed.

(** The header fields as [next] reads them. *)
Lemma log_header_fields k sz seq sum : in_u32 sz -> in_u64 seq -> in_u64 sum ->
  let h := log_header k sz seq sum in
  of_le (field 4 h) = log_magic /\ of_le (field 2 (drop 4 h)) = log_version /\
  of_le (field 1 (drop 6 h)) = kind_code k /\ of_le (field 4 (drop 8 h)) = sz /\
  of_le (field 8 (drop 12 h)) = seq /\ of_le (field 8 (drop 20 h)) = sum.
Proof.
  intros H1 H2 H3 h. unfold h, log_header.
  split; [rewrite le_read_u32; [done|by split]|].
  split. { skip_fields. rewrite drop_0, field_app by apply length_le. by apply of_le_le. }
  split. { skip_fields. rewrite drop_0. by rewrite of_byte. }
  split; [read_field|]. split; [read_field|].
  rewrite <- (app_nil_r (le 8 sum)). read_field.
Qed.

Lemma order_decode pad r : length pad = 2%nat -> order_ok r ->
  order_of_bytes (order_bytes pad r) = r.
Proof. intros. rewrite <- (app_nil_r (order_bytes pad r)). by apply order_bytes_roundtrip. Qed.

Lemma cancel_decode r : cancel_request_ok r -> cancel_of_bytes (cancel_bytes r) = r.
Proof. intros. rewrite <- (app_nil_r (cancel_bytes r)). by apply cancel_bytes_roundtrip. Qed.

Lemma replace_decode pad r : length pad = 4%nat -> replace_request_ok r ->
  replace_of_bytes (replace_bytes pad r) = r.
Proof. intros. rewrite <- (app_nil_r (replace_bytes pad r)). by apply replace_bytes_roundtrip. Qed.

Lemma next_record last x rest : record_ok x ->
  next {| in_ := record (u64 (last + 1)) x ++ rest; last_sequence_ := last |} =
  (Ok (Some x.2), {| in_ := rest; last_sequence_ := u64 (last + 1) |}).
Proof.
  destruct x as [pad e]. intros [Hp He]. cbn [fst snd] in *. unfold next, record. cbn [fst snd in_ last_sequence_].
  rewrite <- app_assoc, read_bytes_app by apply length_log_header.
  pose proof (length_event_bytes pad e Hp) as HL.
  destruct (log_header_fields (event_kind e) (Z.of_nat (length (event_bytes pad e)))
    (u64 (last + 1)) (checksum (event_bytes pad e))) as (-> & -> & -> & -> & -> & ->);
    [rewrite HL; destruct e; by split|apply u64_range|apply checksum_u64|].
  rewrite !Z.eqb_refl. cbn [negb orb]. rewrite HL.
  destruct e; cbn [event_kind kind_code Z.eqb Pos.eqb andb]; unfold mbind, st_bind, read_checked;
    cbn [in_ last_sequence_].
  - change (Z.of_nat order_size =? 32) with true. cbn [andb in_ last_sequence_]. rewrite read_bytes_app by done.
    rewrite Z.eqb_refl. cbn [event_bytes]. by rewrite order_decode.
  - change (Z.of_nat cancel_size =? 16) with true. cbn [andb in_ last_sequence_]. rewrite read_bytes_app by done.
    rewrite Z.eqb_refl. cbn [event_bytes]. by rewrite cancel_decode.
  - change (Z.of_nat order_size =? 32) with true. cbn [andb in_ last_sequence_]. rewrite read_bytes_app by done.
    rewrite Z.eqb_refl. cbn [event_bytes]. by rewrite replace_decode.
Qed.

Lemma read_bytes_short n s : (length s < n)%nat -> read_bytes n s = None.
Proof. intros H. unfold read_bytes. by rewrite bool_decide_eq_false_2 by lia. Qed.

Lemma length_record last x : record_ok x ->
  length (record last x) = (log_header_size + length (event_bytes x.1 x.2))%nat.
Proof. intros _. unfold record. by rewrite length_app, length_log_header. Qed.

(** A record cut short reads as the end of the log or as a checksum error. *)
Lemma next_cut last x (k : nat) : record_ok x -> (k < length (record (u64 (last + 1)) x))%nat ->
  exists r', next {| in_ := take k (record (u64 (last + 1)) x); last_sequence_ := last |} =
    (if bool_decide (k < log_header_size)%nat then Ok None
     else Throw (runtime_error "log checksum mismatch"), r').
Proof.
  intros Hx Hk. rewrite length_record in Hk by done. destruct x as [pad e], Hx as [Hp He].
  cbn [fst snd] in *. unfold next, record. cbn [fst snd in_ last_sequence_].
  case_bool_decide as D.
  { rewrite read_bytes_short by (rewrite length_take; lia). eauto. }
  rewrite take_app, length_log_header, take_ge by (rewrite length_log_header; lia).
  rewrite read_bytes_app by apply length_log_header.
  pose proof (length_event_bytes pad e Hp) as HL.
  destruct (log_header_fields (event_kind e) (Z.of_nat (length (event_bytes pad e)))
    (u64 (last + 1)) (checksum (event_bytes pad e))) as (-> & -> & -> & -> & -> & ->);
    [rewrite HL; destruct e; by split|apply u64_range|apply checksum_u64|].
  rewrite !Z.eqb_refl. cbn [negb orb]. rewrite HL in *.
  assert (forall n, n = length (event_bytes pad e) ->
    read_bytes n (take (k - log_header_size) (event_bytes pad e)) = None) as HN.
  { intros n ->. apply read_bytes_short. rewrite length_take. lia. }
  destruct e; cbn [event_kind kind_code Z.eqb Pos.eqb andb]; unfold mbind, st_bind, read_checked;
    cbn [in_ last_sequence_].
  - change (Z.of_nat order_size =? 32) with true. cbn [andb in_ last_sequence_]. rewrite HN by done. eauto.
  - change (Z.of_nat cancel_size =? 16) with true. cbn [andb in_ last_sequence_]. rewrite HN by done. eauto.
  - change (Z.of_nat order_size =? 32) with true. cbn [andb in_ last_sequence_]. rewrite HN by done. eauto.
Qed.

(** ** Reading a log back *)

Lemma drain_app evs last rest fuel es o seq :
  Forall record_ok evs ->
  seq = foldl (fun s _ => u64 (s + 1)) last evs ->
  drain fuel {| in_ := rest; last_sequence_ := seq |} = (es, o) ->
  drain (length evs + fuel) {| in_ := records last evs ++ rest; last_sequence_ := last |} =
    (evs.*2 ++ es, o).
Proof.
  intros HF -> HD. revert last HD. induction HF as [|x evs Hx HF IH]; intros last HD; [done|].
  cbn [records length Nat.add drain]. rewrite <- app_assoc, next_record by done.
  by rewrite (IH (u64 (last + 1))).
Qed.

Lemma records_snoc evs x last :
  records last (evs ++ [x]) =
  records last evs ++ record (u64 (foldl (fun s _ => u64 (s + 1)) last evs + 1)) x.
Proof.
  revert last. induction evs as [|y evs IH]; intros last; cbn; [by rewrite app_nil_r|].
  by rewrite IH, app_assoc.
Qed.

(** The bytes of a fresh log to which [evs] were appended. *)
Definition log_file (evs : list (list Z * InputEvent)) : list Z :=
  file_ (append_all evs {| file_ := []; good_ := true; event_sequence_ := 0 |}).2.

Lemma log_file_records evs : log_file evs = records 0 evs.
Proof.
  unfold log_file. pose proof (append_all_records evs {| file_ := []; good_ := true;
    event_sequence_ := 0 |} eq_refl) as H. destruct (append_all evs _). apply H.
Qed.

(** C7: what is appended to a fresh log is read back: the events come out in
    order and unchanged, then the end of the log.  When the file was cut at any
    byte of the last record, as a crash leaves it, the events before it still
    come out; a cut in the header reads as the end of the log, a cut in the
    payload as a checksum error, and never as an event. *)
Theorem log_survives_truncation evs x k fuel :
  Forall record_ok evs -> record_ok x -> (length evs < fuel)%nat ->
  (append_all evs {| file_ := []; good_ := true; event_sequence_ := 0 |}).1 = Ok tt /\
  drain fuel {| in_ := log_file evs; last_sequence_ := 0 |} = (evs.*2, Some (Ok tt)) /\
  ((length (log_file evs) <= k < length (log_file (evs ++ [x])))%nat ->
   drain fuel {| in_ := take k (log_file (evs ++ [x])); last_sequence_ := 0 |} =
   (evs.*2, Some (if bool_decide (k - length (log_file evs) < log_header_size)%nat then Ok tt
                  else Throw (runtime_error "log checksum mismatch")))).
Proof.
  intros HF Hx Hfuel. assert (fuel = length evs + S (fuel - S (length evs)))%nat as -> by lia.
  generalize (fuel - S (length evs))%nat. intros n. rewrite !log_file_records. split; [|split].
  - pose proof (append_all_records evs {| file_ := []; good_ := true; event_sequence_ := 0 |} eq_refl)
      as H. destruct (append_all evs _). apply H.
  - rewrite <- (app_nil_r (records 0 evs)), <- (app_nil_r (evs.*2)). by eapply drain_app.
  - intros Hk. rewrite records_snoc, take_app, take_ge by lia.
    rewrite <- (app_nil_r (evs.*2)). eapply drain_app; [done|done|].
    rewrite records_snoc, length_app in Hk. cbn [drain].
    destruct (next_cut (foldl (fun s _ => u64 (s + 1)) 0 evs) x (k - length (records 0 evs)))
      as [r' ->]; [done|lia|]. by case_bool_decide.
Qed.

(** A second session on the same file starts its numbers at 1 again, so a
    log that was closed and opened for appending no longer reads past the
    events of the first session: the first record of the second is refused. *)
Theorem reopened_log_unreadable evs x w rest fuel :
  Forall record_ok evs -> evs <> [] -> Z.of_nat (length evs) < 2 ^ 64 - 1 ->
  record_ok x -> Forall record_ok rest -> (length evs < fuel)%nat ->
  open_writer (Some (log_file evs)) = Ok w ->
  let log := file_ (append_all (x :: rest) w).2 in
  drain fuel {| in_ := log; last_sequence_ := 0 |} =
    (evs.*2, Some (Throw (runtime_error "bad or non-contiguous log header"))).
Proof.
  intros HF Hne Hlen Hx Hrest Hfuel [= <-] log.
  assert (fuel = length evs + S (fuel - S (length evs)))%nat as -> by lia.
  generalize (fuel - S (length evs))%nat. intros n. unfold log.
  pose proof (append_all_records (x :: rest) {| file_ := log_file evs; good_ := true;
    event_sequence_ := 0 |} eq_refl) as H. destruct (append_all (x :: rest) _) as [res w'].
  destruct H as (_ & _ & H). cbn [snd file_ event_sequence_] in *. rewrite H, log_file_records.
  rewrite <- (app_nil_r (evs.*2)). eapply drain_app; [done|done|].
  assert (foldl (fun s _ => u64 (s + 1)) 0 evs = Z.of_nat (length evs)) as ->.
  { clear -Hlen. induction evs as [|y evs IH] using rev_ind; [done|].
    rewrite foldl_app, length_app in *. cbn [foldl length] in *. rewrite IH by lia.
    rewrite u64_small by (unfold in_u64; lia). lia. }
  cbn [records drain]. unfold next. cbn [in_ last_sequence_].
  destruct x as [pad e], Hx as [Hp He]. cbn [fst snd] in *. unfold record. cbn [fst snd].
  rewrite <- !app_assoc, read_bytes_app by apply length_log_header.
  pose proof (length_event_bytes pad e Hp) as HL.
  destruct (log_header_fields (event_kind e) (Z.of_nat (length (event_bytes pad e)))
    (u64 (0 + 1)) (checksum (event_bytes pad e))) as (-> & -> & _ & _ & -> & _);
    [rewrite HL; destruct e; by split|apply u64_range|apply checksum_u64|].
  rewrite !Z.eqb_refl. destruct evs; [done|]. cbn [length] in *.
  rewrite (u64_small (Z.of_nat _ + 1)) by (unfold in_u64; lia).
  rewrite (proj2 (Z.eqb_neq _ _)); [done|]. change (u64 (0 + 1)) with 1. lia.
Qed.

(** ** Witnesses *)

Definition demo_order : InputEvent := InOrder {| req_order_id := 5; req_client_id := 7;
  req_side := Sell; req_type := PostOnly; req_price := 100; req_quantity := 40; req_symbol := 1 |}.
Definition demo_cancel : InputEvent := InCancel {| can_order_id := 5; can_client_id := 7;
  can_symbol := 1 |}.

Lemma demo_order_ok : record_ok ([9; 9], demo_order).
Proof. split; [done|]. repeat split; by vm_compute. Qed.

Lemma demo_cancel_ok : record_ok ([], demo_cancel).
Proof. split; [done|]. repeat split; by vm_compute. Qed.

Lemma log_survives_truncation_witness :
  drain 3 {| in_ := take 70 (log_file [([9; 9], demo_order); ([], demo_cancel)]);
             last_sequence_ := 0 |} = ([demo_order], Some (Ok tt)).
Proof.
  apply (log_survives_truncation [([9; 9], demo_order)] ([], demo_cancel) 70 3);
    [by repeat constructor; apply demo_order_ok|apply demo_cancel_ok|simpl; lia|].
  vm_compute. lia.
Defined.

Lemma reopened_log_unreadable_witness :
  drain 3 {| in_ := file_ (append_all [([], demo_cancel)]
                     {| file_ := log_file [([9; 9], demo_order)]; good_ := true;
                        event_sequence_ := 0 |}).2; last_sequence_ := 0 |} =
  ([demo_order], Some (Throw (runtime_error "bad or non-contiguous log header"))).
Proof.
  apply (reopened_log_unreadable [([9; 9], demo_order)] ([], demo_cancel)
    {| file_ := log_file [([9; 9], demo_order)]; good_ := true; event_sequence_ := 0 |} [] 3);
    [by repeat constructor; apply demo_order_ok|done|done|apply demo_cancel_ok|constructor|
     simpl; lia|done].
Defined.
