(* ===== verification/Protocol.v ===== *)
(** * The binary order protocol ([protocol.hpp], [protocol.cpp])

    A message is a packed 12-byte header and a packed payload; there is no
    padding.  A receiver copies the payload bytes into the wire struct of the
    type that the header names and decodes it. *)

From S2P Require Import Prelude.
From S2P Require Import Types.
From S2P Require Import Bytes.
From S2P Require Import Layout.

Inductive MessageType := NewOrder | CancelMsg | ReplaceMsg.

Definition message_code (t : MessageType) : Z :=
  match t with NewOrder => 1 | CancelMsg => 2 | ReplaceMsg => 3 end.

Record WireOrder := {
  wo_order_id : Z; wo_client_id : Z; wo_symbol : Z; wo_side : Z; wo_type : Z;
  wo_price : Z; wo_quantity : Z
}.

Record WireCancel := { wc_order_id : Z; wc_client_id : Z; wc_symbol : Z }.

Record WireReplace := {
  wr_order_id : Z; wr_client_id : Z; wr_symbol : Z; wr_new_price : Z; wr_new_quantity : Z
}.

Definition wire_magic : Z := 1296908628.  (* 0x4D4D4154 *)
Definition wire_version : Z := 2.
Definition wire_header_size : nat := 12.

Definition wire_header (t : MessageType) (length : Z) : list Z :=
  le 4 wire_magic ++ le 2 wire_version ++ [message_code t] ++ [0] ++ le 4 length.

(** The packed structs as bytes, both ways of the [memcpy]. *)
Definition wire_order_bytes (w : WireOrder) : list Z :=
  le 8 (wo_order_id w) ++ le 4 (wo_client_id w) ++ le 4 (wo_symbol w) ++ [wo_side w] ++
  [wo_type w] ++ i64_bytes (wo_price w) ++ le 4 (wo_quantity w).

Definition wire_order_of_bytes (bs : list Z) : WireOrder := {|
  wo_order_id := of_le (field 8 bs); wo_client_id := of_le (field 4 (drop 8 bs));
  wo_symbol := of_le (field 4 (drop 12 bs)); wo_side := of_le (field 1 (drop 16 bs));
  wo_type := of_le (field 1 (drop 17 bs)); wo_price := of_i64_bytes (field 8 (drop 18 bs));
  wo_quantity := of_le (field 4 (drop 26 bs)) |}.

Definition wire_cancel_bytes (w : WireCancel) : list Z :=
  le 8 (wc_order_id w) ++ le 4 (wc_client_id w) ++ le 4 (wc_symbol w).

Definition wire_cancel_of_bytes (bs : list Z) : WireCancel := {|
  wc_order_id := of_le (field 8 bs); wc_client_id := of_le (field 4 (drop 8 bs));
  wc_symbol := of_le (field 4 (drop 12 bs)) |}.

Definition wire_replace_bytes (w : WireReplace) : list Z :=
  le 8 (wr_order_id w) ++ le 4 (wr_client_id w) ++ le 4 (wr_symbol w) ++
  i64_bytes (wr_new_price w) ++ le 4 (wr_new_quantity w).

Definition wire_replace_of_bytes (bs : list Z) : WireReplace := {|
  wr_order_id := of_le (field 8 bs); wr_client_id := of_le (field 4 (drop 8 bs));
  wr_symbol := of_le (field 4 (drop 12 bs)); wr_new_price := of_i64_bytes (field 8 (drop 16 bs));
  wr_new_quantity := of_le (field 4 (drop 24 bs)) |}.

Definition encode_payload (t : MessageType) (payload : list Z) : list Z :=
  wire_header t (Z.of_nat (length payload)) ++ payload.

Definition wire_of_order (r : OrderRequest) : WireOrder := {|
  wo_order_id := req_order_id r; wo_client_id := req_client_id r; wo_symbol := req_symbol r;
  wo_side := side_code (req_side r); wo_type := type_code (req_type r);
  wo_price := req_price r; wo_quantity := req_quantity r |}.

Definition encode_order (r : OrderRequest) : list Z :=
  encode_payload NewOrder (wire_order_bytes (wire_of_order r)).

Definition wire_of_cancel (r : CancelRequest) : WireCancel := {|
  wc_order_id := can_order_id r; wc_client_id := can_client_id r; wc_symbol := can_symbol r |}.

Definition encode_cancel (r : CancelRequest) : list Z :=
  encode_payload CancelMsg (wire_cancel_bytes (wire_of_cancel r)).

Definition wire_of_replace (r : ReplaceRequest) : WireReplace := {|
  wr_order_id := rep_order_id r; wr_client_id := rep_client_id r; wr_symbol := rep_symbol r;
  wr_new_price := rep_new_price r; wr_new_quantity := rep_new_quantity r |}.

Definition encode_replace (r : ReplaceRequest) : list Z :=
  encode_payload ReplaceMsg (wire_replace_bytes (wire_of_replace r)).

Definition decode_order (w : WireOrder) : OrderRequest := {|
  req_order_id := wo_order_id w; req_client_id := wo_client_id w;
  req_side := side_of_code (wo_side w); req_type := type_of_code (wo_type w);
  req_price := wo_price w; req_quantity := wo_quantity w; req_symbol := wo_symbol w |}.

Definition decode_cancel (w : WireCancel) : CancelRequest := {|
  can_order_id := wc_order_id w; can_client_id := wc_client_id w; can_symbol := wc_symbol w |}.

Definition decode_replace (w : WireReplace) : ReplaceRequest := {|
  rep_order_id := wr_order_id w; rep_client_id := wr_client_id w;
  rep_new_price := wr_new_price w; rep_new_quantity := wr_new_quantity w;
  rep_symbol := wr_symbol w |}.

(** What a receiver reads in the header of a message: magic, version, type and
    payload length. *)
Definition header_fields (bs : list Z) : Z * Z * Z * Z :=
  (of_le (field 4 bs), of_le (field 2 (drop 4 bs)), of_le (field 1 (drop 6 bs)),
   of_le (field 4 (drop 8 bs))).

Lemma header_fields_encode t payload rest : in_u32 (Z.of_nat (length payload)) ->
  header_fields (encode_payload t payload ++ rest) =
    (wire_magic, wire_version, message_code t, Z.of_nat (length payload)) /\
  drop wire_header_size (encode_payload t payload ++ rest) = payload ++ rest.
Proof.
  intros H. unfold header_fields, encode_payload, wire_header. rewrite <- !app_assoc. split.
  - apply f_equal2; [apply f_equal2; [apply f_equal2|]|].
    + by rewrite le_read_u32 by (by split).
    + skip_fields. by rewrite drop_0, field_app, of_le_le by (by rewrite ?length_le).
    + skip_fields. by rewrite drop_0, of_byte.
    + read_field.
  - unfold wire_header_size. by repeat (skip_fields; rewrite ?drop_0).
Qed.

Lemma encode_payload_spec t payload rest n : length payload = n -> in_u32 (Z.of_nat n) ->
  header_fields (encode_payload t payload ++ rest) =
    (wire_magic, wire_version, message_code t, Z.of_nat n) /\
  drop wire_header_size (encode_payload t payload ++ rest) = payload ++ rest /\
  drop (wire_header_size + n) (encode_payload t payload ++ rest) = rest.
Proof.
  intros <- Hn. destruct (header_fields_encode t payload rest Hn) as [-> E].
  rewrite <- drop_drop, E. split; [done|]. split; [done|]. by apply skip_app.
Qed.

Lemma wire_order_roundtrip r rest : order_ok r ->
  decode_order (wire_order_of_bytes (wire_order_bytes (wire_of_order r) ++ rest)) = r.
Proof.
  intros (O1 & O2 & O3 & O4 & O5). destruct r as [id cl s t px q sym].
  unfold wire_order_of_bytes, decode_order, wire_order_bytes, wire_of_order, i64_bytes.
  cbn [wo_order_id wo_client_id wo_symbol wo_side wo_type wo_price wo_quantity req_order_id
    req_client_id req_side req_type req_price req_quantity req_symbol] in *.
  rewrite <- !app_assoc. f_equal; try read_field.
  - skip_fields. rewrite drop_0, of_byte. apply side_of_code_code.
  - skip_fields. rewrite drop_0, of_byte. apply type_of_code_code.
Qed.

Lemma wire_cancel_roundtrip r rest : cancel_request_ok r ->
  decode_cancel (wire_cancel_of_bytes (wire_cancel_bytes (wire_of_cancel r) ++ rest)) = r.
Proof.
  intros (C1 & C2 & C3). destruct r as [id cl sym].
  unfold wire_cancel_of_bytes, decode_cancel, wire_cancel_bytes, wire_of_cancel.
  cbn [wc_order_id wc_client_id wc_symbol can_order_id can_client_id can_symbol] in *.
  rewrite <- !app_assoc. f_equal; read_field.
Qed.

Lemma wire_replace_roundtrip r rest : replace_request_ok r ->
  decode_replace (wire_replace_of_bytes (wire_replace_bytes (wire_of_replace r) ++ rest)) = r.
Proof.
  intros (R1 & R2 & R3 & R4 & R5). destruct r as [id cl px q sym].
  unfold wire_replace_of_bytes, decode_replace, wire_replace_bytes, wire_of_replace, i64_bytes.
  cbn [wr_order_id wr_client_id wr_symbol wr_new_price wr_new_quantity rep_order_id
    rep_client_id rep_new_price rep_new_quantity rep_symbol] in *.
  rewrite <- !app_assoc. f_equal; read_field.
Qed.

(** Every message decodes to the request it was made from, whatever bytes
    follow it in the stream; its header carries the magic number, the version,
    the type and the length of the payload, so the next message starts
    [12 + length] bytes later. *)
Theorem wire_messages_decode rest o c r :
  order_ok o -> cancel_request_ok c -> replace_request_ok r ->
  (header_fields (encode_order o ++ rest) = (wire_magic, wire_version, 1, 30) /\
   decode_order (wire_order_of_bytes (drop wire_header_size (encode_order o ++ rest))) = o /\
   drop (wire_header_size + 30) (encode_order o ++ rest) = rest) /\
  (header_fields (encode_cancel c ++ rest) = (wire_magic, wire_version, 2, 16) /\
   decode_cancel (wire_cancel_of_bytes (drop wire_header_size (encode_cancel c ++ rest))) = c /\
   drop (wire_header_size + 16) (encode_cancel c ++ rest) = rest) /\
  (header_fields (encode_replace r ++ rest) = (wire_magic, wire_version, 3, 28) /\
   decode_replace (wire_replace_of_bytes (drop wire_header_size (encode_replace r ++ rest))) = r /\
   drop (wire_header_size + 28) (encode_replace r ++ rest) = rest).
Proof.
  intros HO HC HR. unfold encode_order, encode_cancel, encode_replace. split; [|split].
  - destruct (encode_payload_spec NewOrder (wire_order_bytes (wire_of_order o)) rest 30)
      as (-> & -> & ->); [|by split|].
    { unfold wire_order_bytes, i64_bytes. by rewrite !length_app, !length_le. }
    by rewrite wire_order_roundtrip.
  - destruct (encode_payload_spec CancelMsg (wire_cancel_bytes (wire_of_cancel c)) rest 16)
      as (-> & -> & ->); [|by split|].
    { unfold wire_cancel_bytes. by rewrite !length_app, !length_le. }
    by rewrite wire_cancel_roundtrip.
  - destruct (encode_payload_spec ReplaceMsg (wire_replace_bytes (wire_of_replace r)) rest 28)
      as (-> & -> & ->); [|by split|].
    { unfold wire_replace_bytes, i64_bytes. by rewrite !length_app, !length_le. }
    by rewrite wire_replace_roundtrip.
Qed.

(** ** Witness *)

Definition demo_order : OrderRequest := {| req_order_id := 5; req_client_id := 7; req_side := Sell;
  req_type := IOC; req_price := -3; req_quantity := 40; req_symbol := 1 |}.
Definition demo_cancel : CancelRequest := {| can_order_id := 5; can_client_id := 7; can_symbol := 1 |}.
Definition demo_replace : ReplaceRequest := {| rep_order_id := 5; rep_client_id := 7;
  rep_new_price := 9; rep_new_quantity := 2; rep_symbol := 1 |}.

Lemma wire_messages_decode_witness :
  decode_order (wire_order_of_bytes (drop wire_header_size (encode_order demo_order ++ [1; 2]))) =
  demo_order.
Proof.
  apply (wire_messages_decode [1; 2] demo_order demo_cancel demo_replace);
    repeat split; by vm_compute.
Defined.
