(* ===== verification/SpscRing.v ===== *)
(** * The single-producer single-consumer ring ([spsc_ring.hpp])

    The two calls are split at their accesses to shared memory and may
    interleave in any way.  An atomic index is the list of the values stored to
    it, oldest first; a thread reads its own index up to date and may see any
    store of the other's index that is not older than the last one it saw.  The
    slots are plain memory: that the threads never touch the same slot at the
    same time is part of what is proved. *)

From S2P Require Import Prelude.

Section ring.
Context {T : Type} `{Inhabited T} (Capacity : nat).

(** Where a call of [try_push] is: before it, before the write of the slot,
    before the store of the index. *)
Inductive Producer :=
| PIdle
| PWrite (value : T) (head : nat)
| PStore (value : T) (next : nat).

Inductive Consumer :=
| CIdle
| CRead (tail : nat)
| CStore (value : T) (tail : nat).

Record SpscRing := {
  head_stores : list nat;
  tail_stores : list nat;
  data_ : list T;
  producer : Producer;
  tail_seen : nat;
  consumer : Consumer;
  head_seen : nat
}.

Definition new_ring : SpscRing := {|
  head_stores := [0%nat]; tail_stores := [0%nat]; data_ := replicate Capacity inhabitant;
  producer := PIdle; tail_seen := 0; consumer := CIdle; head_seen := 0 |}.

Definition increment (i : nat) : nat := (i + 1) mod Capacity.

(** A step of the producer or of the consumer; [k] is the store of the other's
    index that the acquiring load sees. *)
Inductive Action :=
| ATryPush (value : T) (k : nat)
| AWriteSlot
| AStoreHead
| ATryPop (k : nat)
| AReadSlot
| AStoreTail.

(** What a call returns when it is done. *)
Inductive Return :=
| Pushed (value : T) (ok : bool)
| Popped (value : option T).

Definition set_producer (p : Producer) (k : nat) (s : SpscRing) : SpscRing := {|
  head_stores := head_stores s; tail_stores := tail_stores s; data_ := data_ s;
  producer := p; tail_seen := k; consumer := consumer s; head_seen := head_seen s |}.

Definition set_consumer (c : Consumer) (k : nat) (s : SpscRing) : SpscRing := {|
  head_stores := head_stores s; tail_stores := tail_stores s; data_ := data_ s;
  producer := producer s; tail_seen := tail_seen s; consumer := c; head_seen := k |}.

Definition set_data (d : list T) (s : SpscRing) : SpscRing := {|
  head_stores := head_stores s; tail_stores := tail_stores s; data_ := d;
  producer := producer s; tail_seen := tail_seen s; consumer := consumer s;
  head_seen := head_seen s |}.

Definition store_head (i : nat) (s : SpscRing) : SpscRing := {|
  head_stores := head_stores s ++ [i]; tail_stores := tail_stores s; data_ := data_ s;
  producer := PIdle; tail_seen := tail_seen s; consumer := consumer s;
  head_seen := head_seen s |}.

Definition store_tail (i : nat) (s : SpscRing) : SpscRing := {|
  head_stores := head_stores s; tail_stores := tail_stores s ++ [i]; data_ := data_ s;
  producer := producer s; tail_seen := tail_seen s; consumer := CIdle;
  head_seen := head_seen s |}.

(** [try_push]: the loads and the test, then the write of the slot, then the
    releasing store. *)
Definition push_loads (value : T) (k : nat) (s : SpscRing) : option (SpscRing * option Return) :=
  match producer s, last (head_stores s), tail_stores s !! k with
  | PIdle, Some head, Some tail =>
      if bool_decide (tail_seen s <= k)%nat then
        if bool_decide (increment head = tail)
        then Some (set_producer PIdle k s, Some (Pushed value false))
        else Some (set_producer (PWrite value head) k s, None)
      else None
  | _, _, _ => None
  end.

Definition push_write (s : SpscRing) : option (SpscRing * option Return) :=
  match producer s with
  | PWrite value head =>
      Some (set_producer (PStore value (increment head)) (tail_seen s)
              (set_data (<[head := value]> (data_ s)) s), None)
  | _ => None
  end.

Definition push_store (s : SpscRing) : option (SpscRing * option Return) :=
  match producer s with
  | PStore value next => Some (store_head next s, Some (Pushed value true))
  | _ => None
  end.

(** [try_pop] *)
Definition pop_loads (k : nat) (s : SpscRing) : option (SpscRing * option Return) :=
  match consumer s, last (tail_stores s), head_stores s !! k with
  | CIdle, Some tail, Some head =>
      if bool_decide (head_seen s <= k)%nat then
        if bool_decide (tail = head)
        then Some (set_consumer CIdle k s, Some (Popped None))
        else Some (set_consumer (CRead tail) k s, None)
      else None
  | _, _, _ => None
  end.

Definition pop_read (s : SpscRing) : option (SpscRing * option Return) :=
  match consumer s with
  | CRead tail =>
      value ← data_ s !! tail;
      Some (set_consumer (CStore value tail) (head_seen s) s, None)
  | _ => None
  end.

Definition pop_store (s : SpscRing) : option (SpscRing * option Return) :=
  match consumer s with
  | CStore value tail => Some (store_tail (increment tail) s, Some (Popped (Some value)))
  | _ => None
  end.

Definition ring_step (a : Action) (s : SpscRing) : option (SpscRing * option Return) :=
  match a with
  | ATryPush value k => push_loads value k s
  | AWriteSlot => push_write s
  | AStoreHead => push_store s
  | ATryPop k => pop_loads k s
  | AReadSlot => pop_read s
  | AStoreTail => pop_store s
  end.

(** [empty] and [approximate_size], on the stores that their loads see. *)
Definition empty (h t : nat) : bool := bool_decide (h = t).

Definition approximate_size (h t : nat) : nat :=
  if bool_decide (t <= h)%nat then (h - t)%nat else (Capacity - (t - h))%nat.

(** The values that went in and came out, by the returns of the calls. *)
Definition pushed_value (r : option Return) : list T :=
  match r with Some (Pushed v true) => [v] | _ => [] end.
Definition popped_value (r : option Return) : list T :=
  match r with Some (Popped (Some v)) => [v] | _ => [] end.

(** Executions of the new ring, with what went in and what came out. *)
Inductive ring_reach : SpscRing -> list T -> list T -> Prop :=
| ring_init : ring_reach new_ring [] []
| ring_next s ins outs a s' r :
    ring_reach s ins outs -> ring_step a s = Some (s', r) ->
    ring_reach s' (ins ++ pushed_value r) (outs ++ popped_value r).

(** ** Invariant *)

Hypothesis Hcap : (2 <= Capacity)%nat.

(** The stores to an index that was advanced [n] times. *)
Definition stores (n : nat) : list nat := (fun k => k mod Capacity)%nat <$> seq 0 (S n).

Record ring_inv (s : SpscRing) (ins outs : list T) : Prop := {
  ri_heads : head_stores s = stores (length ins);
  ri_tails : tail_stores s = stores (length outs);
  ri_prefix : outs `prefix_of` ins;
  ri_size : length (data_ s) = Capacity;
  ri_data : forall n, (length outs <= n < length ins)%nat ->
    data_ s !! (n mod Capacity)%nat = ins !! n;
  ri_tail_seen : (tail_seen s <= length outs)%nat;
  ri_head_seen : (length outs <= head_seen s <= length ins)%nat;
  ri_room : (length ins <= tail_seen s + (Capacity - 1))%nat;
  ri_producer : match producer s with
    | PIdle => True
    | PWrite v h => h = (length ins mod Capacity)%nat /\
        (length ins + 1 <= tail_seen s + (Capacity - 1))%nat
    | PStore v n => n = ((length ins + 1) mod Capacity)%nat /\
        (length ins + 1 <= tail_seen s + (Capacity - 1))%nat /\
        data_ s !! (length ins mod Capacity)%nat = Some v
    end;
  ri_consumer : match consumer s with
    | CIdle => True
    | CRead t => t = (length outs mod Capacity)%nat /\ (length outs < head_seen s)%nat
    | CStore v t => t = (length outs mod Capacity)%nat /\ (length outs < head_seen s)%nat /\
        ins !! length outs = Some v
    end
}.

Lemma stores_last n : last (stores n) = Some (n mod Capacity)%nat.
Proof. unfold stores. rewrite seq_S, fmap_app. apply last_snoc. Qed.

Lemma stores_lookup n k i : stores n !! k = Some i -> (k <= n)%nat /\ i = (k mod Capacity)%nat.
Proof.
  unfold stores. rewrite list_lookup_fmap. intros H2.
  apply fmap_Some in H2 as (j & H2 & ->). apply lookup_seq in H2 as [-> ?]. split; [lia|done].
Qed.

Lemma stores_snoc n : stores (n + 1) = stores n ++ [((n + 1) mod Capacity)%nat].
Proof.
  unfold stores. by rewrite Nat.add_1_r, (seq_S (S n) 0), fmap_app.
Qed.

Lemma increment_mod n : increment (n mod Capacity) = ((n + 1) mod Capacity)%nat.
Proof. unfold increment. by rewrite Nat.Div0.add_mod_idemp_l. Qed.

(** Counters at a distance below the capacity have different indices. *)
Lemma mod_ne a b : (a < b)%nat -> (b - a < Capacity)%nat -> (a mod Capacity <> b mod Capacity)%nat.
Proof.
  intros H1 H2 E.
  pose proof (Nat.div_mod_eq a Capacity). pose proof (Nat.div_mod_eq b Capacity).
  rewrite E in *. destruct (Nat.le_gt_cases (b / Capacity) (a / Capacity)) as [L|L].
  - apply (Nat.mul_le_mono_l _ _ Capacity) in L. lia.
  - apply (Nat.mul_le_mono_l _ _ Capacity) in L. lia.
Qed.

Lemma mod_full a b : (a <= b)%nat -> (b - a < Capacity)%nat ->
  ((b + 1) mod Capacity = a mod Capacity)%nat -> (b = a + (Capacity - 1))%nat.
Proof.
  intros H1 H2 E. destruct (decide (b + 1 - a < Capacity)%nat); [|lia].
  exfalso. apply (mod_ne a (b + 1)); [lia..|done].
Qed.

Lemma mod_lt n : (n mod Capacity < Capacity)%nat.
Proof. apply Nat.mod_upper_bound. lia. Qed.

(** The size between two counters whose distance the ring can hold. *)
Lemma approximate_size_between a b : (a <= b)%nat -> (b - a < Capacity)%nat ->
  approximate_size (b mod Capacity) (a mod Capacity) = (b - a)%nat.
Proof.
  intros H1 H2. unfold approximate_size. pose proof (Nat.div_mod_eq a Capacity). pose proof (Nat.div_mod_eq b Capacity).
  pose proof (mod_lt a). pose proof (mod_lt b).
  set (x := (a mod Capacity)%nat) in *. set (y := (b mod Capacity)%nat) in *.
  set (c := (a / Capacity)%nat) in *. set (d := (b / Capacity)%nat) in *.
  assert (c = d \/ d = c + 1)%nat as [Hd|Hd].
  { destruct (Nat.lt_trichotomy c d) as [L|[L|L]]; [right|by left|exfalso].
    - destruct (decide (d = c + 1)%nat) as [|D]; [done|exfalso]. assert (c + 2 <= d)%nat as L2 by lia.
      apply (Nat.mul_le_mono_l _ _ Capacity) in L2. lia.
    - assert (d + 1 <= c)%nat as L2 by lia. apply (Nat.mul_le_mono_l _ _ Capacity) in L2. lia. }
  - rewrite <- Hd in *. case_bool_decide; lia.
  - rewrite Hd in *. rewrite Nat.mul_add_distr_l, Nat.mul_1_r in *. case_bool_decide; lia.
Qed.

Lemma ring_inv_init : ring_inv new_ring [] [].
Proof.
  constructor; cbn [new_ring head_stores tail_stores data_ producer tail_seen consumer head_seen length].
  - unfold stores. cbn. by rewrite Nat.mod_0_l by lia.
  - unfold stores. cbn. by rewrite Nat.mod_0_l by lia.
  - done.
  - apply length_replicate.
  - lia.
  - lia.
  - lia.
  - lia.
  - done.
  - done.
Qed.

(** The counters of the two threads, for the arithmetic of the steps. *)
Lemma ring_inv_counts s ins outs : ring_inv s ins outs ->
  (length outs <= length ins)%nat /\ (length ins <= length outs + (Capacity - 1))%nat.
Proof.
  intros I. pose proof (prefix_length _ _ (ri_prefix _ _ _ I)).
  pose proof (ri_room _ _ _ I). pose proof (ri_tail_seen _ _ _ I). lia.
Qed.

Lemma ring_inv_push_loads v k s s' r ins outs :
  ring_inv s ins outs -> push_loads v k s = Some (s', r) ->
  ring_inv s' (ins ++ pushed_value r) (outs ++ popped_value r).
Proof.
  intros I. pose proof (ring_inv_counts _ _ _ I) as [C1 C2]. unfold push_loads.
  destruct (producer s) eqn:EP; [|done..].
  rewrite (ri_heads _ _ _ I), stores_last. destruct (tail_stores s !! k) as [tail|] eqn:ET; [|done].
  rewrite (ri_tails _ _ _ I) in ET. apply stores_lookup in ET as [Hk ->].
  case_bool_decide as Dk; [|done]. rewrite increment_mod.
  pose proof (ri_room _ _ _ I) as Hroom.
  case_bool_decide as D; intros [= <- <-]; rewrite !app_nil_r.
  - destruct I; constructor; cbn [set_producer head_stores tail_stores data_ producer tail_seen
      consumer head_seen]; try done; lia.
  - destruct I; constructor; cbn [set_producer head_stores tail_stores data_ producer tail_seen
      consumer head_seen]; try done; try lia.
    split; [done|]. destruct (decide (length ins + 1 <= k + (Capacity - 1))%nat); [done|].
    exfalso. apply D. replace (length ins + 1)%nat with (k + 1 * Capacity)%nat by lia.
    by rewrite Nat.Div0.mod_add.
Qed.

Lemma ring_inv_push_write s s' r ins outs :
  ring_inv s ins outs -> push_write s = Some (s', r) ->
  ring_inv s' (ins ++ pushed_value r) (outs ++ popped_value r).
Proof.
  intros I. pose proof (ring_inv_counts _ _ _ I) as [C1 C2]. unfold push_write.
  destruct (producer s) as [|v h|] eqn:EP; [done| |done]. intros [= <- <-]. rewrite !app_nil_r.
  pose proof (ri_producer _ _ _ I) as HP. rewrite EP in HP. destruct HP as [-> HP].
  pose proof (mod_lt (length ins)). pose proof (ri_tail_seen _ _ _ I).
  destruct I; constructor; cbn [set_producer set_data head_stores tail_stores data_ producer
    tail_seen consumer head_seen]; try done.
  - by rewrite length_insert.
  - intros n Hn. rewrite list_lookup_insert_ne; [by apply ri_data0|].
    apply not_eq_sym, mod_ne; lia.
  - rewrite increment_mod. split; [done|]. split; [done|].
    rewrite list_lookup_insert_eq; [done|]. lia.
Qed.

Lemma ring_inv_push_store s s' r ins outs :
  ring_inv s ins outs -> push_store s = Some (s', r) ->
  ring_inv s' (ins ++ pushed_value r) (outs ++ popped_value r).
Proof.
  intros I. pose proof (ring_inv_counts _ _ _ I) as [C1 C2]. unfold push_store.
  destruct (producer s) as [| |v n] eqn:EP; [done..|]. intros [= <- <-].
  cbn [pushed_value popped_value]. rewrite app_nil_r.
  pose proof (ri_producer _ _ _ I) as HP. rewrite EP in HP. destruct HP as (-> & HP & HD).
  destruct I; constructor; cbn [store_head head_stores tail_stores data_ producer
    tail_seen consumer head_seen]; rewrite ?length_app; cbn [length]; try done; try lia.
  - by rewrite ri_heads0, stores_snoc.
  - by apply prefix_app_r.
  - intros n Hn. destruct (decide (n = length ins)) as [->|].
    + rewrite lookup_app_r by lia. by rewrite Nat.sub_diag.
    + rewrite lookup_app_l by lia. apply ri_data0. lia.
  - destruct (consumer s) as [|t|w t]; [done|done|]. destruct ri_consumer0 as (-> & Ht & Hv).
    split; [done|]. split; [done|]. by apply lookup_app_l_Some.
Qed.

Lemma ring_inv_pop_loads k s s' r ins outs :
  ring_inv s ins outs -> pop_loads k s = Some (s', r) ->
  ring_inv s' (ins ++ pushed_value r) (outs ++ popped_value r).
Proof.
  intros I. pose proof (ring_inv_counts _ _ _ I) as [C1 C2]. unfold pop_loads.
  destruct (consumer s) eqn:EC; [|done..].
  rewrite (ri_tails _ _ _ I), stores_last. destruct (head_stores s !! k) as [head|] eqn:EH; [|done].
  rewrite (ri_heads _ _ _ I) in EH. apply stores_lookup in EH as [Hk ->].
  case_bool_decide as Dk; [|done]. pose proof (ri_head_seen _ _ _ I) as Hh.
  case_bool_decide as D; intros [= <- <-]; rewrite !app_nil_r;
    (destruct I; constructor; cbn [set_consumer head_stores tail_stores data_ producer tail_seen
      consumer head_seen]; try done; try lia).
  split; [done|]. destruct (decide (length outs = k)) as [E|]; [|lia]. by rewrite E in D.
Qed.

Lemma ring_inv_pop_read s s' r ins outs :
  ring_inv s ins outs -> pop_read s = Some (s', r) ->
  ring_inv s' (ins ++ pushed_value r) (outs ++ popped_value r).
Proof.
  intros I. unfold pop_read. destruct (consumer s) as [|t|] eqn:EC; [done| |done].
  pose proof (ri_consumer _ _ _ I) as HC. rewrite EC in HC. destruct HC as [-> HC].
  pose proof (ri_head_seen _ _ _ I).
  rewrite (ri_data _ _ _ I) by lia. destruct (ins !! length outs) as [v|] eqn:EV; [|done].
  cbn. intros [= <- <-]. rewrite !app_nil_r.
  destruct I; constructor; cbn [set_consumer head_stores tail_stores data_ producer tail_seen
    consumer head_seen]; done.
Qed.

Lemma ring_inv_pop_store s s' r ins outs :
  ring_inv s ins outs -> pop_store s = Some (s', r) ->
  ring_inv s' (ins ++ pushed_value r) (outs ++ popped_value r).
Proof.
  intros I. unfold pop_store. destruct (consumer s) as [| |v t] eqn:EC; [done..|].
  intros [= <- <-]. cbn [pushed_value popped_value]. rewrite app_nil_r.
  pose proof (ri_consumer _ _ _ I) as HC. rewrite EC in HC. destruct HC as (-> & HC & HV).
  destruct I; constructor; cbn [store_tail head_stores tail_stores data_ producer
    tail_seen consumer head_seen]; rewrite ?length_app; cbn [length]; try done; try lia.
  - by rewrite ri_tails0, increment_mod, stores_snoc.
  - destruct ri_prefix0 as [rest ->]. rewrite lookup_app_r, Nat.sub_diag in HV by lia.
    destruct rest as [|w rest]; [done|]. injection HV as ->. exists rest. by rewrite <- app_assoc.
  - intros n Hn. apply ri_data0. lia.
Qed.

Lemma ring_inv_step a s s' r ins outs :
  ring_inv s ins outs -> ring_step a s = Some (s', r) ->
  ring_inv s' (ins ++ pushed_value r) (outs ++ popped_value r).
Proof.
  intros I HS. destruct a; cbn in HS.
  - by eapply ring_inv_push_loads.
  - by eapply ring_inv_push_write.
  - by eapply ring_inv_push_store.
  - by eapply ring_inv_pop_loads.
  - by eapply ring_inv_pop_read.
  - by eapply ring_inv_pop_store.
Qed.

Lemma ring_reach_inv s ins outs : ring_reach s ins outs -> ring_inv s ins outs.
Proof. induction 1; [apply ring_inv_init|by eapply ring_inv_step]. Qed.

(** What each step returns and does to the thread that takes it. *)
Lemma push_loads_result v k s s' r : ring_step (ATryPush v k) s = Some (s', r) ->
  producer s = PIdle /\ consumer s' = consumer s /\
  ((r = Some (Pushed v false) /\ producer s' = PIdle) \/
   (r = None /\ exists h, producer s' = PWrite v h)).
Proof.
  cbn. unfold push_loads. destruct (producer s); [|done..].
  destruct (last _), (tail_stores s !! k); try done.
  repeat case_bool_decide; intros [= <- <-]; cbn; eauto 6.
Qed.

Lemma push_write_result s s' r : ring_step AWriteSlot s = Some (s', r) ->
  r = None /\ consumer s' = consumer s /\
  exists v h n, producer s = PWrite v h /\ producer s' = PStore v n.
Proof. cbn. unfold push_write. destruct (producer s); [done| |done]. intros [= <- <-].
  split; [done|]. split; [done|]. by repeat eexists.
Qed.

Lemma push_store_result s s' r : ring_step AStoreHead s = Some (s', r) ->
  consumer s' = consumer s /\ exists v n, producer s = PStore v n /\ r = Some (Pushed v true) /\
  producer s' = PIdle.
Proof. cbn. unfold push_store. destruct (producer s); [done..|]. intros [= <- <-].
  split; [done|]. by repeat eexists.
Qed.

Lemma pop_loads_result k s s' r : ring_step (ATryPop k) s = Some (s', r) ->
  producer s' = producer s /\ (r = Some (Popped None) \/ r = None).
Proof.
  cbn. unfold pop_loads. destruct (consumer s); [|done..].
  destruct (last _), (head_stores s !! k); try done.
  repeat case_bool_decide; intros [= <- <-]; cbn; eauto 6.
Qed.

Lemma pop_read_result s s' r : ring_step AReadSlot s = Some (s', r) ->
  producer s' = producer s /\ r = None.
Proof.
  cbn. unfold pop_read. destruct (consumer s); [done| |done].
  destruct (data_ s !! tail); [|done]. cbn. intros [= <- <-]. done.
Qed.

Lemma pop_store_result s s' r : ring_step AStoreTail s = Some (s', r) ->
  producer s' = producer s /\ exists v, r = Some (Popped (Some v)).
Proof. cbn. unfold pop_store. destruct (consumer s); [done..|]. intros [= <- <-]. eauto. Qed.

(** The two threads are about to access the same slot. *)
Definition racing (s : SpscRing) : Prop :=
  exists v i, producer s = PWrite v i /\ consumer s = CRead i.

(** The threads are never stuck inside a call: the next step of either is
    possible, with an up-to-date load. *)
Definition producer_action (v : T) (pops : nat) (s : SpscRing) : Action :=
  match producer s with
  | PIdle => ATryPush v pops
  | PWrite _ _ => AWriteSlot
  | PStore _ _ => AStoreHead
  end.

Definition consumer_action (pushes : nat) (s : SpscRing) : Action :=
  match consumer s with
  | CIdle => ATryPop pushes
  | CRead _ => AReadSlot
  | CStore _ _ => AStoreTail
  end.

Lemma stores_at n : stores n !! n = Some (n mod Capacity)%nat.
Proof.
  unfold stores. rewrite list_lookup_fmap, (proj2 (lookup_seq _ _ _ n)) by lia. done.
Qed.

Lemma ring_inv_progress s ins outs v : ring_inv s ins outs ->
  is_Some (ring_step (producer_action v (length outs) s) s) /\
  is_Some (ring_step (consumer_action (length ins) s) s).
Proof.
  intros I. unfold producer_action, consumer_action. split.
  - destruct (producer s) eqn:EP; cbn [ring_step]; unfold push_loads, push_write, push_store;
      rewrite EP; [|done..].
    rewrite (ri_heads _ _ _ I), (ri_tails _ _ _ I), stores_last, stores_at.
    rewrite bool_decide_eq_true_2 by apply (ri_tail_seen _ _ _ I). by case_bool_decide.
  - destruct (consumer s) eqn:EC; cbn [ring_step]; unfold pop_loads, pop_read, pop_store;
      rewrite EC; [| |done].
    + rewrite (ri_heads _ _ _ I), (ri_tails _ _ _ I), stores_last, stores_at.
      rewrite bool_decide_eq_true_2 by apply (ri_head_seen _ _ _ I). by case_bool_decide.
    + pose proof (ri_consumer _ _ _ I) as HC. rewrite EC in HC. destruct HC as [-> HC].
      pose proof (mod_lt (length outs)). pose proof (ri_size _ _ _ I).
      destruct (lookup_lt_is_Some_2 (data_ s) (length outs mod Capacity)) as [w ->]; [lia|done].
Qed.

(** C8: the ring is a bounded first-in first-out queue in every interleaving
    and whatever stores the loads see: what came out is a prefix of what went
    in, at most [Capacity - 1] values are inside, the threads never touch a slot
    at the same time, a push is refused only when the ring is full by the pops
    it has seen, a pop only when it is empty by the pushes it has seen, and
    neither call ever waits for the other thread. *)
Theorem ring_is_fifo s ins outs :
  ring_reach s ins outs ->
  outs `prefix_of` ins /\ (length ins <= length outs + (Capacity - 1))%nat /\ ~ racing s /\
  (forall v k s', ring_step (ATryPush v k) s = Some (s', Some (Pushed v false)) ->
     (k <= length outs)%nat /\ length ins = (k + (Capacity - 1))%nat) /\
  (forall k s', ring_step (ATryPop k) s = Some (s', Some (Popped None)) ->
     (k <= length ins)%nat /\ k = length outs) /\
  (forall v, is_Some (ring_step (producer_action v (length outs) s) s)) /\
  is_Some (ring_step (consumer_action (length ins) s) s).
Proof.
  intros I%ring_reach_inv. pose proof (ring_inv_counts _ _ _ I) as [C1 C2].
  pose proof (ri_head_seen _ _ _ I). pose proof (ri_room _ _ _ I).
  split; [apply I|]. split; [done|].
  split. { intros (v & i & EP & EC). pose proof (ri_producer _ _ _ I) as HP.
    pose proof (ri_consumer _ _ _ I) as HC. rewrite EP in HP. rewrite EC in HC.
    destruct HP as [-> HP], HC as [HC HC']. pose proof (ri_tail_seen _ _ _ I).
    apply (mod_ne (length outs) (length ins)); [lia|lia|done]. }
  split; [|split].
  - intros v k s'. cbn. unfold push_loads. destruct (producer s); [|done..].
    rewrite (ri_heads _ _ _ I), (ri_tails _ _ _ I), stores_last.
    destruct (stores (length outs) !! k) as [t|] eqn:ET; [|done]. apply stores_lookup in ET as [Hk ->].
    case_bool_decide; [|done]. rewrite increment_mod. case_bool_decide as D; [|done].
    intros _. split; [done|]. apply mod_full; [lia|lia|done].
  - intros k s'. cbn. unfold pop_loads. destruct (consumer s); [|done..].
    rewrite (ri_heads _ _ _ I), (ri_tails _ _ _ I), stores_last.
    destruct (stores (length ins) !! k) as [h|] eqn:EH; [|done]. apply stores_lookup in EH as [Hk ->].
    case_bool_decide; [|done]. case_bool_decide as D; [|done].
    intros _. split; [done|]. destruct (decide (k = length outs)); [done|].
    exfalso. apply (mod_ne (length outs) k); [lia|lia|done].
  - split; [intros v; exact (proj1 (ring_inv_progress s ins outs v I))|].
    exact (proj2 (ring_inv_progress s ins outs inhabitant I)).
Qed.

End ring.

(** ** Witness *)

(** A ring of capacity 2 with one value inside: the next push is refused. *)
Definition demo_ring : SpscRing :=
  store_head 1 (set_producer (PStore 7 1) 0 (set_data [7; inhabitant] (set_producer (PWrite 7 0) 0
    (new_ring (T := Z) 2)))).

Lemma demo_ring_reach : ring_reach 2 demo_ring [7] [].
Proof.
  pose proof (ring_init (T := Z) 2) as H0.
  pose proof (ring_next 2 _ _ _ (ATryPush 7 0) _ _ H0 eq_refl) as H1.
  pose proof (ring_next 2 _ _ _ AWriteSlot _ _ H1 eq_refl) as H2.
  exact (ring_next 2 _ _ _ AStoreHead _ _ H2 eq_refl).
Qed.

Lemma ring_is_fifo_witness :
  (forall v k s', ring_step 2 (ATryPush v k) demo_ring = Some (s', Some (Pushed v false)) ->
     (k <= 0)%nat /\ 1%nat = (k + 1)%nat) /\
  ring_step 2 (ATryPush 8 0) demo_ring = Some (set_producer PIdle 0 demo_ring, Some (Pushed 8 false)).
Proof.
  split; [|reflexivity].
  apply (ring_is_fifo 2 (le_n 2) demo_ring [7] [] demo_ring_reach).
Defined.
