(* ===== verification/Pipeline.v ===== *)
(** * The matching pipeline ([pipeline.hpp], [pipeline.cpp])

    A client thread hands commands over the ring to the one thread that owns
    the exchange.  The client thread also calls [start] and [stop], as the ring
    requires (one producer).  The steps of the two threads interleave in any
    way; the clock readings and the stores the loads see are inputs of the
    steps. *)

From S2P Require Import Prelude.
From S2P Require Import Types.
From S2P Require Import OrderBook.
From S2P Require Import Exchange.
From S2P Require Import ExchangeProps.
From S2P Require Import SpscRing.

Inductive Kind := New | CancelKind | ReplaceKind | Stop.

#[export] Instance Kind_eq_dec : EqDecision Kind.
Proof. solve_decision. Defined.

Record PipelineCommand := {
  kind : Kind;
  pc_order : OrderRequest;
  pc_cancel : CancelRequest;
  pc_replace : ReplaceRequest;
  ingress_ns : Z
}.

Definition PipelineCommand0 (k : Kind) : PipelineCommand := {|
  kind := k;
  pc_order := {| req_order_id := 0; req_client_id := 0; req_side := Buy; req_type := Limit;
                 req_price := 0; req_quantity := 0; req_symbol := DEFAULT_SYMBOL |};
  pc_cancel := {| can_order_id := 0; can_client_id := 0; can_symbol := DEFAULT_SYMBOL |};
  pc_replace := {| rep_order_id := 0; rep_client_id := 0; rep_new_price := 0;
                   rep_new_quantity := 0; rep_symbol := DEFAULT_SYMBOL |};
  ingress_ns := 0 |}.

#[export] Instance PipelineCommand_inhabited : Inhabited PipelineCommand :=
  populate (PipelineCommand0 New).

(** The template argument of the queue. *)
Definition source_queue_capacity : nat := Z.to_nat (Z.shiftl 1 16).

Section pipeline.

Context (queue_capacity : nat).

(** Where the client thread is: outside a call, inside [submit], pushing the
    stop command, or joining the worker. *)
Inductive Client := COutside | CSubmitting | CStopping | CJoining.

(** Where the worker is: not started, polling the queue, executing a command,
    out of its loop, or terminated by an exception that left it. *)
Inductive Worker := WNone | WPolling | WExecuting (c : PipelineCommand) | WFinished | WTerminated.

Record MatchingPipeline := {
  exchange_ : Exchange;
  queue_ : SpscRing (T := PipelineCommand);
  running_ : bool;
  client : Client;
  worker_ : Worker;
  submitted_ : Z; processed_ : Z; dropped_ : Z; trades_ : Z; reports_ : Z; max_depth_ : Z;
  latencies_ : list Z
}.

Definition new_pipeline (capacity : nat) : MatchingPipeline := {|
  exchange_ := new_exchange capacity; queue_ := new_ring queue_capacity; running_ := false;
  client := COutside; worker_ := WNone; submitted_ := 0; processed_ := 0; dropped_ := 0;
  trades_ := 0; reports_ := 0; max_depth_ := 0; latencies_ := [] |}.

Definition set_threads (q : SpscRing (T := PipelineCommand)) (r : bool) (cl : Client) (w : Worker)
    (p : MatchingPipeline) : MatchingPipeline := {|
  exchange_ := exchange_ p; queue_ := q; running_ := r; client := cl; worker_ := w;
  submitted_ := submitted_ p; processed_ := processed_ p; dropped_ := dropped_ p;
  trades_ := trades_ p; reports_ := reports_ p; max_depth_ := max_depth_ p;
  latencies_ := latencies_ p |}.

Definition set_counts (sub drp depth : Z) (p : MatchingPipeline) : MatchingPipeline := {|
  exchange_ := exchange_ p; queue_ := queue_ p; running_ := running_ p; client := client p;
  worker_ := worker_ p; submitted_ := sub; processed_ := processed_ p; dropped_ := drp;
  trades_ := trades_ p; reports_ := reports_ p; max_depth_ := depth; latencies_ := latencies_ p |}.

(** ** The client thread *)

(** [start]: nothing when the pipeline runs already. *)
Definition start (p : MatchingPipeline) : option MatchingPipeline :=
  match client p with
  | COutside =>
      Some (if running_ p then p else set_threads (queue_ p) true COutside WPolling p)
  | _ => None
  end.

(** [submit], up to the loads of [try_push]; [now] is the clock. *)
Definition stamped (input : PipelineCommand) (now : Z) : PipelineCommand := {|
  kind := kind input; pc_order := pc_order input; pc_cancel := pc_cancel input;
  pc_replace := pc_replace input;
  ingress_ns := if ingress_ns input =? 0 then now else ingress_ns input |}.

Definition submit_begin (input : PipelineCommand) (now : Z) (k : nat) (p : MatchingPipeline)
    : option MatchingPipeline :=
  match client p with
  | COutside =>
      '(q, r) ← ring_step queue_capacity (ATryPush (stamped input now) k) (queue_ p);
      let sub := u64 (submitted_ p + 1) in
      match r with
      | Some _ => Some (set_counts sub (u64 (dropped_ p + 1)) (max_depth_ p)
                          (set_threads q (running_ p) COutside (worker_ p) p))
      | None => Some (set_counts sub (dropped_ p) (max_depth_ p)
                          (set_threads q (running_ p) CSubmitting (worker_ p) p))
      end
  | _ => None
  end.

(** The rest of [try_push] inside [submit] or [stop]. *)
Definition push_slot (p : MatchingPipeline) : option MatchingPipeline :=
  '(q, _) ← ring_step queue_capacity AWriteSlot (queue_ p);
  Some (set_threads q (running_ p) (client p) (worker_ p) p).

(** The store of the index and the rest of [submit]: the depth is taken from
    the own index and the store [k] of the other one; the loop on [max_depth_]
    keeps the larger value, since no other thread writes it. *)
Definition submit_end (k : nat) (p : MatchingPipeline) : option MatchingPipeline :=
  match client p with
  | CSubmitting =>
      '(q, _) ← ring_step queue_capacity AStoreHead (queue_ p);
      h ← last (head_stores q);
      t ← tail_stores q !! k;
      if bool_decide (tail_seen q <= k)%nat then
        Some (set_counts (submitted_ p) (dropped_ p)
               (Z.max (max_depth_ p) (Z.of_nat (approximate_size queue_capacity h t)))
               (set_threads q (running_ p) COutside (worker_ p) p))
      else None
  | _ => None
  end.

(** [stop], up to the loop. *)
Definition stop_begin (p : MatchingPipeline) : option MatchingPipeline :=
  match client p with
  | COutside =>
      Some (if running_ p then set_threads (queue_ p) false CStopping (worker_ p) p else p)
  | _ => None
  end.

(** A round of the loop of [stop], up to the loads of [try_push]. *)
Definition stop_push (k : nat) (p : MatchingPipeline) : option MatchingPipeline :=
  match client p with
  | CStopping =>
      '(q, _) ← ring_step queue_capacity (ATryPush (PipelineCommand0 Stop) k) (queue_ p);
      Some (set_threads q (running_ p) CStopping (worker_ p) p)
  | _ => None
  end.

Definition stop_pushed (p : MatchingPipeline) : option MatchingPipeline :=
  match client p with
  | CStopping =>
      '(q, _) ← ring_step queue_capacity AStoreHead (queue_ p);
      Some (set_threads q (running_ p) CJoining (worker_ p) p)
  | _ => None
  end.

(** [worker_.join()] *)
Definition join (p : MatchingPipeline) : option MatchingPipeline :=
  match client p, worker_ p with
  | CJoining, WFinished => Some (set_threads (queue_ p) (running_ p) COutside WNone p)
  | _, _ => None
  end.

(** ** The worker: [run] *)

Definition poll (k : nat) (p : MatchingPipeline) : option MatchingPipeline :=
  match worker_ p with
  | WPolling =>
      '(q, _) ← ring_step queue_capacity (ATryPop k) (queue_ p);
      Some (set_threads q (running_ p) (client p) WPolling p)
  | _ => None
  end.

Definition poll_read (p : MatchingPipeline) : option MatchingPipeline :=
  match worker_ p with
  | WPolling =>
      '(q, _) ← ring_step queue_capacity AReadSlot (queue_ p);
      Some (set_threads q (running_ p) (client p) WPolling p)
  | _ => None
  end.

Definition poll_end (p : MatchingPipeline) : option MatchingPipeline :=
  match worker_ p with
  | WPolling =>
      '(q, r) ← ring_step queue_capacity AStoreTail (queue_ p);
      match r with
      | Some (Popped (Some c)) =>
          Some (set_threads q (running_ p) (client p)
                  (if bool_decide (kind c = Stop) then WFinished else WExecuting c) p)
      | _ => None
      end
  | _ => None
  end.

Definition execute (c : PipelineCommand) : ST Exchange bool :=
  match kind c with
  | New => Exchange.submit (pc_order c)
  | CancelKind => Exchange.cancel (pc_cancel c)
  | ReplaceKind => Exchange.replace (pc_replace c)
  | Stop => mret false
  end.

Definition is_trade (e : Event) : bool := match e with ETrade _ => true | EReport _ => false end.

(** [now_ns() - c.ingress_ns] is unsigned.  The handlers count the events that
    the call adds to the log; an exception ends the process. *)
Definition execute_end (now : Z) (p : MatchingPipeline) : option MatchingPipeline :=
  match worker_ p with
  | WExecuting c =>
      let (res, ex) := execute c (exchange_ p) in
      let news := drop (length (ex_log (exchange_ p))) (ex_log ex) in
      let trades := Z.of_nat (length (List.filter is_trade news)) in
      let thrown := match res with Ok _ => false | Throw _ => true end in
      Some {| exchange_ := ex; queue_ := queue_ p; running_ := running_ p; client := client p;
              worker_ := if thrown then WTerminated else WPolling;
              submitted_ := submitted_ p;
              processed_ := if thrown then processed_ p else u64 (processed_ p + 1);
              dropped_ := dropped_ p; trades_ := u64 (trades_ p + trades);
              reports_ := u64 (reports_ p + (Z.of_nat (length news) - trades));
              max_depth_ := max_depth_ p;
              latencies_ := if thrown then latencies_ p
                            else latencies_ p ++ [u64 (now - ingress_ns c)] |}
  | _ => None
  end.

Inductive PipelineStep :=
| QStart
| QSubmit (input : PipelineCommand) (now : Z) (k : nat)
| QPushSlot
| QSubmitEnd (k : nat)
| QStopBegin
| QStopPush (k : nat)
| QStopPushed
| QJoin
| QPoll (k : nat)
| QPollRead
| QPollEnd
| QExecute (now : Z).

Definition pipeline_step (a : PipelineStep) (p : MatchingPipeline) : option MatchingPipeline :=
  match a with
  | QStart => start p
  | QSubmit input now k => submit_begin input now k p
  | QPushSlot => push_slot p
  | QSubmitEnd k => submit_end k p
  | QStopBegin => stop_begin p
  | QStopPush k => stop_push k p
  | QStopPushed => stop_pushed p
  | QJoin => join p
  | QPoll k => poll k p
  | QPollRead => poll_read p
  | QPollEnd => poll_end p
  | QExecute now => execute_end now p
  end.

(** What clients may submit: any command but [Stop], which is [stop]'s own,
    with quantities in range. *)
Definition command_ok (c : PipelineCommand) : Prop :=
  kind c <> Stop /\ in_u32 (req_quantity (pc_order c)) /\ in_u32 (rep_new_quantity (pc_replace c)).

Definition step_ok (a : PipelineStep) : Prop :=
  match a with QSubmit input _ _ => command_ok input | _ => True end.

(** The command a step accepts and the one it executes. *)
Definition accepts (a : PipelineStep) (p : MatchingPipeline) : list PipelineCommand :=
  match a, producer (queue_ p) with QSubmitEnd _, PStore c _ => [c] | _, _ => [] end.

Definition executes (a : PipelineStep) (p : MatchingPipeline) : list PipelineCommand :=
  match a, worker_ p with QExecute _, WExecuting c => [c] | _, _ => [] end.

(** Executions, with the commands accepted and executed so far. *)
Inductive pipeline_reach (capacity : nat)
    : MatchingPipeline -> list PipelineCommand -> list PipelineCommand -> Prop :=
| pipeline_new : Z.of_nat capacity <= npos -> pipeline_reach capacity (new_pipeline capacity) [] []
| pipeline_next p acc don a p' :
    pipeline_reach capacity p acc don -> step_ok a -> pipeline_step a p = Some p' ->
    pipeline_reach capacity p' (acc ++ accepts a p) (don ++ executes a p).

(** The reference: the commands given to an exchange one after the other,
    without ring, threads or counters. *)
Definition exchange_command (c : PipelineCommand) : option ExCommand :=
  match kind c with
  | New => Some (XSubmit (pc_order c))
  | CancelKind => Some (XCancel (pc_cancel c))
  | ReplaceKind => Some (XReplace (pc_replace c))
  | Stop => None
  end.

Definition run_commands (capacity : nat) (cs : list PipelineCommand) : Exchange :=
  foldl (fun ex c => from_option (fun x => (ex_exec x ex).2) ex (exchange_command c))
    (new_exchange capacity) cs.

(** ** Invariant *)

Hypothesis Hcap : (2 <= queue_capacity)%nat.

Definition nonstop (c : PipelineCommand) : Prop := kind c <> Stop.
#[local] Instance nonstop_dec c : Decision (nonstop c).
Proof. unfold nonstop. apply _. Defined.

Definition live (cs : list PipelineCommand) : list PipelineCommand := filter nonstop cs.

Definition executing (p : MatchingPipeline) : list PipelineCommand :=
  match worker_ p with WExecuting c => [c] | _ => [] end.

Definition client_inv (p : MatchingPipeline) : Prop :=
  match client p, producer (queue_ p) with
  | COutside, PIdle | CJoining, PIdle | CStopping, PIdle => True
  | CSubmitting, PWrite c _ | CSubmitting, PStore c _ => command_ok c
  | CStopping, PWrite c _ | CStopping, PStore c _ => c = PipelineCommand0 Stop
  | _, _ => False
  end.

(** Where a stop command can be: [rest] is what the queue holds. *)
Definition stop_inv (p : MatchingPipeline) (rest : list PipelineCommand) : Prop :=
  match client p with
  | CJoining => running_ p = false /\ worker_ p <> WNone /\
      match worker_ p with
      | WFinished => rest = []
      | _ => exists l, rest = l ++ [PipelineCommand0 Stop] /\ Forall nonstop l
      end
  | CStopping => running_ p = false /\ worker_ p <> WNone /\ worker_ p <> WFinished /\
      Forall nonstop rest
  | _ => (running_ p = true <-> worker_ p <> WNone) /\ worker_ p <> WFinished /\
      Forall nonstop rest
  end.

Record counts_inv (p : MatchingPipeline) (acc don : list PipelineCommand) : Prop := {
  ci_submitted : submitted_ p = u64 (dropped_ p + Z.of_nat (length acc) +
    match client p with CSubmitting => 1 | _ => 0 end);
  ci_processed : processed_ p = u64 (Z.of_nat (length don));
  ci_trades : trades_ p = u64 (Z.of_nat (length (List.filter is_trade (ex_log (exchange_ p)))));
  ci_reports : reports_ p =
    u64 (Z.of_nat (length (List.filter (fun e => negb (is_trade e)) (ex_log (exchange_ p)))));
  ci_latencies : length (latencies_ p) = length don
}.

(** The depth that the client keeps covers what waits in the queue. *)
Definition depth_inv (p : MatchingPipeline) (rest : list PipelineCommand) : Prop :=
  Z.of_nat (length (live rest)) <= max_depth_ p < Z.of_nat queue_capacity.

Record pipeline_inv (capacity : nat) (p : MatchingPipeline) (acc don ins outs rest : list PipelineCommand)
    : Prop := {
  pi_ring : ring_inv queue_capacity (queue_ p) ins outs;
  pi_accepted : live ins = acc;
  pi_executed : live outs = don ++ executing p;
  pi_exchange : exchange_ p = run_commands capacity don;
  pi_exchange_ok : ex_ok (exchange_ p);
  pi_commands : Forall command_ok acc;
  pi_client : client_inv p;
  pi_rest : ins = outs ++ rest;
  pi_stop : stop_inv p rest;
  pi_alive : worker_ p <> WTerminated;
  pi_counts : counts_inv p acc don;
  pi_depth : depth_inv p rest
}.

(** ** The steps keep it *)

Lemma live_app l k : live (l ++ k) = live l ++ live k.
Proof. apply filter_app. Qed.

Lemma live_nonstop c : nonstop c -> live [c] = [c].
Proof. intros H. unfold live. by rewrite filter_cons_True. Qed.

Lemma live_stop c : kind c = Stop -> live [c] = [].
Proof. intros H. unfold live. rewrite filter_cons_False; [done|]. intros HN. by apply HN. Qed.

Lemma with_book_log {A} s (f : ST Book A) ex : exists evs, ex_log (with_book s f ex).2 = ex_log ex ++ evs.
Proof. unfold with_book. destruct (f _). by eexists. Qed.

Lemma execute_log c ex : exists evs, ex_log (execute c ex).2 = ex_log ex ++ evs.
Proof.
  unfold execute. destruct (kind c); [|apply with_book_log|apply with_book_log|].
  - unfold Exchange.submit. do 2 (case_if; [by eexists|]). apply with_book_log.
  - exists []. by rewrite app_nil_r.
Qed.

Lemma execute_reference c ex :
  (execute c ex).2 = from_option (fun x => (ex_exec x ex).2) ex (exchange_command c).
Proof. unfold execute, exchange_command. by destruct (kind c). Qed.

Lemma execute_step_ok c ex : ex_ok ex -> command_ok c ->
  exists ok, execute c ex = (Ok ok, (execute c ex).2) /\ ex_ok (execute c ex).2.
Proof.
  intros HX (_ & H1 & H2).
  assert (forall x, ex_cmd_ok x -> (forall s p d, x <> XBand s p d) -> execute c ex = ex_exec x ex ->
    exists ok, execute c ex = (Ok ok, (execute c ex).2) /\ ex_ok (execute c ex).2) as HE.
  { intros x Hx Hb ->. destruct (commands_return x ex HX Hx Hb) as [ok E]. exists ok.
    split; [|by apply ex_step_ok]. destruct (ex_exec x ex). simpl in *. by rewrite E. }
  unfold execute in *. destruct (kind c).
  - by apply (HE (XSubmit (pc_order c))).
  - by apply (HE (XCancel (pc_cancel c))).
  - by apply (HE (XReplace (pc_replace c))).
  - by exists false.
Qed.

(** A ring step that moves no value in or out. *)
Lemma ring_quiet a (q q' : SpscRing (T := PipelineCommand)) r ins outs : ring_inv queue_capacity q ins outs ->
  ring_step queue_capacity a q = Some (q', r) -> pushed_value r = [] -> popped_value r = [] ->
  ring_inv queue_capacity q' ins outs.
Proof.
  intros I HS H1 H2. eapply (ring_inv_step _ Hcap) in HS; [|done].
  by rewrite H1, H2, !app_nil_r in HS.
Qed.

Ltac fields := cbn [set_threads set_counts exchange_ queue_ running_ client worker_ submitted_
  processed_ dropped_ trades_ reports_ max_depth_ latencies_] in *.

(** A step that only moves the threads inside the queue. *)
Lemma inv_threads capacity p acc don ins outs rest q r cl w :
  pipeline_inv capacity p acc don ins outs rest ->
  let p' := set_threads q r cl w p in
  ring_inv queue_capacity q ins outs -> client_inv p' -> stop_inv p' rest ->
  executing p' = executing p -> w <> WTerminated ->
  (cl = CSubmitting <-> client p = CSubmitting) ->
  pipeline_inv capacity p' acc don ins outs rest.
Proof.
  intros [] p' H1 H2 H3 H4 H5 H6. constructor; try done; [by rewrite H4|].
  destruct pi_counts0. constructor; try done. unfold p'. fields. rewrite ci_submitted0.
  destruct cl, (client p); try done; exfalso; naive_solver.
Qed.
Lemma inv_start capacity p acc don ins outs rest p' :
  pipeline_inv capacity p acc don ins outs rest -> start p = Some p' ->
  pipeline_inv capacity p' acc don ins outs rest.
Proof.
  intros I. unfold start. destruct (client p) eqn:EC; try done.
  destruct (running_ p) eqn:ER; intros [= <-]; [done|].
  pose proof (pi_client _ _ _ _ _ _ _ I) as HC. pose proof (pi_stop _ _ _ _ _ _ _ I) as HS.
  unfold client_inv, stop_inv in HC, HS. rewrite EC in HC, HS. rewrite ER in HS.
  destruct HS as (HR & HF & HN).
  assert (worker_ p = WNone) as EW.
  { destruct (worker_ p); try done; exfalso; assert (false = true) by (apply (proj2 HR); discriminate); done. }
  apply inv_threads; [done|apply I|..]; unfold client_inv, stop_inv, executing; fields; try done.
  - by rewrite EW.
  - by rewrite EC.
Qed.

Lemma inv_submit_begin capacity p acc don ins outs rest input now k p' :
  pipeline_inv capacity p acc don ins outs rest -> command_ok input ->
  submit_begin input now k p = Some p' -> pipeline_inv capacity p' acc don ins outs rest.
Proof.
  intros I Hi. unfold submit_begin. destruct (client p) eqn:EC; try done.
  destruct (ring_step _ _ _) as [[q r]|] eqn:EQ; [|done]. cbn [mbind option_bind].
  pose proof (push_loads_result _ _ _ _ _ _ EQ) as (HP & _ & HR).
  pose proof (pi_stop _ _ _ _ _ _ _ I) as HS. unfold stop_inv in HS. rewrite EC in HS.
  assert (ring_inv queue_capacity q ins outs) as HQ.
  { eapply ring_quiet; [apply I|exact EQ|..]; by destruct HR as [[-> _]|[-> _]]. }
  destruct I, pi_counts0. rewrite EC in ci_submitted0.
  destruct HR as [[-> HR]|[-> [h HR]]]; intros [= <-]; constructor; fields; try done;
    unfold client_inv, stop_inv, executing; fields; rewrite ?HR; try done;
    constructor; fields; try done; rewrite ci_submitted0.
  - rewrite <- (Z.add_assoc (u64 _)), !u64_add_l. f_equal. lia.
  - rewrite u64_add_l. f_equal. lia.
Qed.

Lemma inv_push_slot capacity p acc don ins outs rest p' :
  pipeline_inv capacity p acc don ins outs rest -> push_slot p = Some p' ->
  pipeline_inv capacity p' acc don ins outs rest.
Proof.
  intros I. unfold push_slot. destruct (ring_step _ _ _) as [[q r]|] eqn:EQ; [|done].
  cbn [mbind option_bind]. intros [= <-].
  pose proof (push_write_result _ _ _ _ EQ) as (-> & _ & v & h & n & HP & HP').
  pose proof (pi_client _ _ _ _ _ _ _ I) as HC. unfold client_inv in HC. rewrite HP in HC.
  apply inv_threads; try done; [by eapply ring_quiet; [apply I|exact EQ|..]| |apply I|apply I].
  unfold client_inv. fields. rewrite HP'. by destruct (client p).
Qed.

(** What [approximate_size] says after a push: the own index is up to date, the
    other one may lag. *)
Lemma measured_depth (q : SpscRing (T := PipelineCommand)) ins outs k h t n :
  ring_inv queue_capacity q ins outs -> last (head_stores q) = Some h -> tail_stores q !! k = Some t ->
  (tail_seen q <= k)%nat -> length ins = (length outs + n)%nat ->
  (n <= approximate_size queue_capacity h t < queue_capacity)%nat.
Proof.
  intros I Eh Et Hk Hn. rewrite (ri_heads _ _ _ _ I), stores_last in Eh. injection Eh as <-.
  rewrite (ri_tails _ _ _ _ I) in Et. apply (stores_lookup _ Hcap) in Et as [Hk' ->].
  pose proof (ri_room _ _ _ _ I). rewrite (approximate_size_between _ Hcap) by lia. lia.
Qed.

Lemma inv_submit_end capacity p acc don ins outs rest k p' :
  pipeline_inv capacity p acc don ins outs rest -> submit_end k p = Some p' ->
  exists v n, producer (queue_ p) = PStore v n /\
  pipeline_inv capacity p' (acc ++ [v]) don (ins ++ [v]) outs (rest ++ [v]).
Proof.
  intros I. unfold submit_end. destruct (client p) eqn:EC; try done.
  destruct (ring_step _ _ _) as [[q r]|] eqn:EQ; [|done]. cbn [mbind option_bind].
  destruct (last (head_stores q)) as [h|] eqn:Eh; [|done]. destruct (tail_stores q !! k) as [t|] eqn:Et; [|done].
  cbn [mbind option_bind]. case_bool_decide as Hk; [|done]. intros [= <-].
  pose proof (ring_inv_step _ Hcap _ _ _ _ _ _ (pi_ring _ _ _ _ _ _ _ I) EQ) as HQ.
  pose proof (push_store_result _ _ _ _ EQ) as (_ & v & m & HP & -> & HP'). exists v, m.
  split; [done|]. cbn [pushed_value popped_value] in HQ. rewrite app_nil_r in HQ.
  pose proof (pi_client _ _ _ _ _ _ _ I) as HC. unfold client_inv in HC. rewrite EC, HP in HC.
  pose proof (pi_stop _ _ _ _ _ _ _ I) as HS. unfold stop_inv in HS. rewrite EC in HS.
  assert (length rest + 1 <= approximate_size queue_capacity h t < queue_capacity)%nat as HD.
  { eapply measured_depth; [exact HQ|done|done|exact Hk|]. rewrite (pi_rest _ _ _ _ _ _ _ I), !length_app. cbn. lia. }
  destruct I, pi_counts0. rewrite EC in ci_submitted0. constructor; fields; try done.
  - rewrite live_app, live_nonstop, pi_accepted0; [done|apply HC].
  - apply Forall_app. split; [done|by constructor].
  - unfold client_inv. fields. by rewrite HP'.
  - by rewrite pi_rest0, app_assoc.
  - unfold stop_inv. fields. destruct HS as (H1 & H2 & H3). split; [done|]. split; [done|].
    apply Forall_app. split; [done|]. constructor; [apply HC|done].
  - constructor; fields; try done. rewrite ci_submitted0. f_equal. rewrite length_app. simpl. lia.
  - unfold depth_inv in *. fields. rewrite live_app, length_app.
    assert (length (live rest) <= length rest)%nat by apply length_filter.
    assert (length (live [v]) <= 1)%nat by (apply (length_filter _ [v])). lia.
Qed.

Lemma inv_stop_begin capacity p acc don ins outs rest p' :
  pipeline_inv capacity p acc don ins outs rest -> stop_begin p = Some p' ->
  pipeline_inv capacity p' acc don ins outs rest.
Proof.
  intros I. unfold stop_begin. destruct (client p) eqn:EC; try done.
  destruct (running_ p) eqn:ER; intros [= <-]; [|done].
  pose proof (pi_client _ _ _ _ _ _ _ I) as HC. pose proof (pi_stop _ _ _ _ _ _ _ I) as HS.
  unfold client_inv, stop_inv in HC, HS. rewrite EC in HC, HS. rewrite ER in HS.
  destruct HS as (HR & HF & HN).
  apply inv_threads; [done|apply I|..]; unfold client_inv, stop_inv, executing; fields; try done.
  - by destruct (producer (queue_ p)).
  - split; [done|]. split; [by apply HR|done].
  - apply I.
  - by rewrite EC.
Qed.

Lemma inv_stop_push capacity p acc don ins outs rest k p' :
  pipeline_inv capacity p acc don ins outs rest -> stop_push k p = Some p' ->
  pipeline_inv capacity p' acc don ins outs rest.
Proof.
  intros I. unfold stop_push. destruct (client p) eqn:EC; try done.
  destruct (ring_step _ _ _) as [[q r]|] eqn:EQ; [|done]. cbn [mbind option_bind]. intros [= <-].
  pose proof (push_loads_result _ _ _ _ _ _ EQ) as (HP & _ & HR).
  pose proof (pi_stop _ _ _ _ _ _ _ I) as HS. unfold stop_inv in HS. rewrite EC in HS.
  apply inv_threads; try done.
  - eapply ring_quiet; [apply I|exact EQ|..]; by destruct HR as [[-> _]|[-> _]].
  - unfold client_inv. fields. by destruct HR as [[_ ->]|[_ [h ->]]].
  - apply I.
  - by rewrite EC.
Qed.

Lemma inv_stop_pushed capacity p acc don ins outs rest p' :
  pipeline_inv capacity p acc don ins outs rest -> stop_pushed p = Some p' ->
  exists s, pipeline_inv capacity p' acc don (ins ++ [s]) outs (rest ++ [s]).
Proof.
  intros I. unfold stop_pushed. destruct (client p) eqn:EC; try done.
  destruct (ring_step _ _ _) as [[q r]|] eqn:EQ; [|done]. cbn [mbind option_bind]. intros [= <-].
  pose proof (ring_inv_step _ Hcap _ _ _ _ _ _ (pi_ring _ _ _ _ _ _ _ I) EQ) as HQ.
  pose proof (push_store_result _ _ _ _ EQ) as (_ & v & m & HP & -> & HP'). exists v.
  cbn [pushed_value popped_value] in HQ. rewrite app_nil_r in HQ.
  pose proof (pi_client _ _ _ _ _ _ _ I) as HC. unfold client_inv in HC. rewrite EC, HP in HC.
  pose proof (pi_stop _ _ _ _ _ _ _ I) as HS. unfold stop_inv in HS. rewrite EC in HS.
  destruct HS as (H1 & H2 & H3 & H4).
  destruct I, pi_counts0. rewrite EC in ci_submitted0. constructor; fields; try done.
  - by rewrite live_app, live_stop, app_nil_r by (by rewrite HC).
  - unfold client_inv. fields. by rewrite HP'.
  - by rewrite pi_rest0, app_assoc.
  - unfold stop_inv. fields. split; [done|]. split; [done|].
    destruct (worker_ p); try done; exists rest; by rewrite HC.
  - unfold depth_inv in *. fields. by rewrite live_app, live_stop, app_nil_r by (by rewrite HC).
Qed.

Lemma inv_join capacity p acc don ins outs rest p' :
  pipeline_inv capacity p acc don ins outs rest -> join p = Some p' ->
  pipeline_inv capacity p' acc don ins outs rest.
Proof.
  intros I. unfold join. destruct (client p) eqn:EC; try done.
  destruct (worker_ p) eqn:EW; try done. intros [= <-].
  pose proof (pi_client _ _ _ _ _ _ _ I) as HC. pose proof (pi_stop _ _ _ _ _ _ _ I) as HS.
  unfold client_inv, stop_inv in HC, HS. rewrite EC in HC, HS. rewrite EW in HS.
  destruct HS as (HR & _ & ->).
  apply inv_threads; [done|apply I|..]; unfold client_inv, stop_inv, executing; fields; try done.
  - split; [by rewrite HR|done].
  - by rewrite EW.
  - by rewrite EC.
Qed.

Lemma inv_poll capacity p acc don ins outs rest a q r :
  pipeline_inv capacity p acc don ins outs rest -> worker_ p = WPolling ->
  ring_step queue_capacity a (queue_ p) = Some (q, r) -> producer q = producer (queue_ p) ->
  pushed_value r = [] -> popped_value r = [] ->
  pipeline_inv capacity (set_threads q (running_ p) (client p) WPolling p) acc don ins outs rest.
Proof.
  intros I EW EQ HP H1 H2. apply inv_threads; try done.
  - by eapply ring_quiet; [apply I|exact EQ|..].
  - pose proof (pi_client _ _ _ _ _ _ _ I) as HC. unfold client_inv in *. fields. by rewrite HP.
  - pose proof (pi_stop _ _ _ _ _ _ _ I) as HC. unfold stop_inv in *. fields. by rewrite EW in HC.
  - unfold executing. fields. by rewrite EW.
Qed.

(** The front of the queue that a pop takes: a stop command is the last one,
    and only while a client waits for it. *)
Lemma stop_inv_pop p v rest q w :
  stop_inv p (v :: rest) -> worker_ p = WPolling ->
  w = (if bool_decide (kind v = Stop) then WFinished else WExecuting v) ->
  stop_inv (set_threads q (running_ p) (client p) w p) rest.
Proof.
  intros HS EW ->. unfold stop_inv in *. fields. rewrite EW in HS.
  destruct (client p).
  1,2,3: destruct HS as (H1 & H2 & H3); try (destruct H3 as [H3 H4]).
  1,2: apply Forall_cons in H3 as [Hv H3]; rewrite bool_decide_eq_false_2 by done.
  1,2: split; [|done]; rewrite H1; by split.
  - apply Forall_cons in H4 as [Hv H4]. rewrite bool_decide_eq_false_2 by done. done.
  - destruct HS as (H1 & _ & l & HL & HF). split; [done|]. case_bool_decide as D.
    + split; [done|]. destruct l as [|x l]; [by injection HL|].
      injection HL as -> _. by apply Forall_cons in HF as [? _].
    + split; [done|]. destruct l as [|x l]; injection HL as -> ->; [by destruct D|].
      exists l. apply Forall_cons in HF as [_ HF]. done.
Qed.

Lemma inv_poll_end capacity p acc don ins outs rest p' :
  pipeline_inv capacity p acc don ins outs rest -> poll_end p = Some p' ->
  exists v rest', pipeline_inv capacity p' acc don ins (outs ++ [v]) rest'.
Proof.
  intros I. unfold poll_end. destruct (worker_ p) eqn:EW; try done.
  destruct (ring_step _ _ _) as [[q r]|] eqn:EQ; [|done]. cbn [mbind option_bind].
  pose proof (ring_inv_step _ Hcap _ _ _ _ _ _ (pi_ring _ _ _ _ _ _ _ I) EQ) as HQ.
  pose proof (pop_store_result _ _ _ _ EQ) as (HP & v & ->). intros [= <-].
  cbn [pushed_value popped_value] in HQ. rewrite app_nil_r in HQ.
  destruct (ri_prefix _ _ _ _ HQ) as [rest' HR]. exists v, rest'.
  pose proof (pi_rest _ _ _ _ _ _ _ I) as HR'. rewrite HR, <- app_assoc in HR'.
  apply app_inv_head in HR' as <-.
  destruct I, pi_counts0. constructor; fields; try done.
  - rewrite live_app, pi_executed0. unfold executing. rewrite EW. fields.
    case_bool_decide as D; [by rewrite live_stop, !app_nil_r|].
    by rewrite live_nonstop, app_nil_r.
  - unfold client_inv in *. fields. by rewrite HP.
  - by eapply stop_inv_pop.
  - by case_bool_decide.
  - unfold depth_inv in *. fields. rewrite live_app, length_app in pi_depth0. lia.
Qed.

Lemma inv_execute capacity p acc don ins outs rest now p' :
  pipeline_inv capacity p acc don ins outs rest -> execute_end now p = Some p' ->
  exists c, worker_ p = WExecuting c /\ pipeline_inv capacity p' acc (don ++ [c]) ins outs rest.
Proof.
  intros I. unfold execute_end. destruct (worker_ p) as [| |c| |] eqn:EW; try done.
  assert (command_ok c) as Hc.
  { pose proof (pi_commands _ _ _ _ _ _ _ I) as HF. rewrite Forall_forall in HF. apply HF.
    rewrite <- (pi_accepted _ _ _ _ _ _ _ I), (pi_rest _ _ _ _ _ _ _ I), live_app,
      (pi_executed _ _ _ _ _ _ _ I). unfold executing. rewrite EW. set_solver. }
  destruct (execute_step_ok c (exchange_ p) (pi_exchange_ok _ _ _ _ _ _ _ I) Hc) as (ok & -> & HX).
  destruct (execute_log c (exchange_ p)) as [evs HE]. intros [= <-]. exists c. split; [done|].
  rewrite HE, drop_app_length.
  destruct I, pi_counts0. constructor; fields; try done.
  - rewrite pi_executed0. unfold executing. fields. by rewrite EW, app_nil_r.
  - unfold run_commands. rewrite foldl_app. cbn [foldl]. rewrite execute_reference. by rewrite pi_exchange0.
  - unfold stop_inv in *. fields. rewrite EW in pi_stop0. destruct (client p).
    1,2: by destruct pi_stop0 as ([H1 H2] & H3 & H4); split; [split; [done|by intros; apply H2]|].
    + by destruct pi_stop0 as (H1 & H2 & H3 & H4).
    + by destruct pi_stop0 as (H1 & H2 & H3).
  - constructor; fields; try done.
    + rewrite ci_processed0, u64_add_l, length_app. f_equal. simpl. lia.
    + rewrite HE, List.filter_app, length_app, ci_trades0, u64_add_l. f_equal. lia.
    + rewrite HE, List.filter_app, length_app, ci_reports0, u64_add_l. f_equal.
      pose proof (List.filter_length is_trade evs). lia.
    + rewrite !length_app, ci_latencies0. done.
Qed.

Lemma pipeline_reach_inv capacity p acc don : pipeline_reach capacity p acc don ->
  exists ins outs rest, pipeline_inv capacity p acc don ins outs rest.
Proof.
  induction 1 as [HC|p acc don a p' _ (ins & outs & rest & I) Ha HS].
  { exists [], [], []. constructor; cbn [new_pipeline]; try done.
    - by apply ring_inv_init.
    - unfold depth_inv. cbn. lia. }
  destruct a; cbn [pipeline_step accepts executes] in *; rewrite ?app_nil_r.
  - eapply inv_start in HS; eauto.
  - eapply inv_submit_begin in HS; eauto.
  - eapply inv_push_slot in HS; eauto.
  - eapply inv_submit_end in HS as (v & n & -> & HS); eauto.
  - eapply inv_stop_begin in HS; eauto.
  - eapply inv_stop_push in HS; eauto.
  - eapply inv_stop_pushed in HS as (s & HS); eauto.
  - eapply inv_join in HS; eauto.
  - exists ins, outs, rest. revert HS. unfold poll. destruct (worker_ p) eqn:EW; try done.
    destruct (ring_step _ _ _) as [[q r]|] eqn:EQ; [|done]. cbn [mbind option_bind]. intros [= <-].
    pose proof (pop_loads_result _ _ _ _ _ EQ) as (HP & HR).
    eapply inv_poll; try done; by destruct HR as [-> | ->].
  - exists ins, outs, rest. revert HS. unfold poll_read. destruct (worker_ p) eqn:EW; try done.
    destruct (ring_step _ _ _) as [[q r]|] eqn:EQ; [|done]. cbn [mbind option_bind]. intros [= <-].
    pose proof (pop_read_result _ _ _ _ EQ) as (HP & ->). by eapply inv_poll.
  - eapply inv_poll_end in HS as (v & rest' & HS); eauto.
  - eapply inv_execute in HS as (c & -> & HS); eauto.
Qed.

(** The largest depth only grows. *)
Lemma max_depth_grows a p p' : pipeline_step a p = Some p' -> max_depth_ p <= max_depth_ p'.
Proof.
  destruct a; cbn [pipeline_step]; unfold start, submit_begin, push_slot, submit_end, stop_begin, stop_push, stop_pushed,
    join, poll, poll_read, poll_end, execute_end; intros HS;
    repeat (case_match; simplify_option_eq; try done; cbn; try lia).
  destruct (ring_step _ _ _) as [[q r]|]; [|done]. by injection HS as <-.
Qed.


End pipeline.

(** ** Witness *)

Fixpoint run_steps (q : nat) (steps : list PipelineStep)
    (x : MatchingPipeline * list PipelineCommand * list PipelineCommand)
    : option (MatchingPipeline * list PipelineCommand * list PipelineCommand) :=
  match steps with
  | [] => Some x
  | a :: steps =>
      p' ← pipeline_step q a x.1.1;
      run_steps q steps (p', x.1.2 ++ accepts a x.1.1, x.2 ++ executes a x.1.1)
  end.

Lemma run_steps_reach q capacity steps x p acc don :
  pipeline_reach q capacity x.1.1 x.1.2 x.2 -> Forall step_ok steps ->
  run_steps q steps x = Some (p, acc, don) -> pipeline_reach q capacity p acc don.
Proof.
  intros HR HF. revert x HR. induction HF as [|a steps Ha _ IH]; intros x HR; cbn [run_steps].
  - by intros [= ->].
  - destruct (pipeline_step q a x.1.1) as [p'|] eqn:E; [|done]. cbn [mbind option_bind].
    apply IH. by eapply pipeline_next.
Qed.

Definition demo_command (id price : Z) (s : Side) : PipelineCommand := {|
  kind := New; pc_cancel := pc_cancel (PipelineCommand0 New);
  pc_replace := pc_replace (PipelineCommand0 New); ingress_ns := 0;
  pc_order := {| req_order_id := id; req_client_id := id; req_side := s; req_type := Limit;
                 req_price := price; req_quantity := 5; req_symbol := 1 |} |}.

(** Two orders through a ring of three slots, one refused in between, the
    worker polling late, then [stop]. *)
Definition demo_steps : list PipelineStep :=
  [QStart; QPoll 0; QSubmit (demo_command 1 100 Buy) 10 0; QPushSlot; QSubmitEnd 0;
   QSubmit (demo_command 2 99 Sell) 11 0; QPushSlot; QPoll 1; QSubmitEnd 0; QPollRead;
   QSubmit (demo_command 3 98 Sell) 12 0; QPollEnd; QStopBegin; QExecute 20; QStopPush 1;
   QPushSlot; QStopPushed; QPoll 3; QPollRead; QPollEnd; QExecute 21; QPoll 3; QPollRead; QPollEnd].

Definition demo_run : MatchingPipeline * list PipelineCommand * list PipelineCommand :=
  default (new_pipeline 3 4, [], []) (run_steps 3 demo_steps (new_pipeline 3 4, [], [])).

