(* ===== verification/Oms.v ===== *)
(** * The order management system ([oms.hpp], [oms.cpp])

    Parent orders, the child orders they are worked with, and the execution
    reports.  A command that fails throws; the calls of the mutation callback
    are recorded in order in [notified].  Quantities and prices are doubles. *)

From S2P Require Import Prelude.
From S2P Require Import Float.

Inductive RouteSide := RouteBuy | RouteSell.

Inductive ExecutionAlgorithm := AlgoMarket | TWAP | VWAP | POV | Iceberg.

Inductive OrderStatus := New | Working | PartiallyFilled | Filled | Cancelled | Rejected.

#[export] Instance OrderStatus_eq_dec : EqDecision OrderStatus.
Proof. solve_decision. Defined.

Definition to_string (s : OrderStatus) : string :=
  match s with
  | New => "NEW" | Working => "WORKING" | PartiallyFilled => "PARTIALLY_FILLED"
  | Filled => "FILLED" | Cancelled => "CANCELLED" | Rejected => "REJECTED"
  end.

Record ParentOrderRequest := {
  prq_symbol : string; prq_side : RouteSide; prq_quantity : double;
  prq_algorithm : ExecutionAlgorithm
}.

Record ParentOrder := {
  po_id : Z; po_symbol : string; po_side : RouteSide; po_algorithm : ExecutionAlgorithm;
  po_quantity : double; po_filled : double; po_remaining : double; po_status : OrderStatus;
  po_created : Z; po_updated : Z; po_child_ids : list Z
}.

Record ChildOrderRequest := {
  crq_parent_id : Z; crq_venue : string; crq_price : double; crq_quantity : double;
  crq_created : Z
}.

Record ChildOrder := {
  co_id : Z; co_parent_id : Z; co_venue : string; co_price : double; co_quantity : double;
  co_filled : double; co_remaining : double; co_status : OrderStatus;
  co_created : Z; co_updated : Z
}.

Record OmsExecutionReport := {
  xr_id : Z; xr_parent_id : Z; xr_child_id : Z; xr_venue : string; xr_price : double;
  xr_quantity : double; xr_notional : double; xr_fee : double; xr_timestamp : Z
}.

Inductive MutationType := ParentCreated | ParentUpdated | ChildCreated | ChildUpdated | FillRecorded.

#[export] Instance MutationType_eq_dec : EqDecision MutationType.
Proof. solve_decision. Defined.

Record MutationEvent := {
  ev_type : MutationType;
  ev_parent : option ParentOrder;
  ev_child : option ChildOrder;
  ev_fill : option OmsExecutionReport
}.

Record Oms := {
  next_parent_id_ : Z;
  next_child_id_ : Z;
  next_execution_report_id_ : Z;
  parents_ : gmap Z ParentOrder;
  children_ : gmap Z ChildOrder;
  execution_reports_ : list OmsExecutionReport;
  notified : list MutationEvent
}.

Definition new_oms : Oms := {|
  next_parent_id_ := 1; next_child_id_ := 1; next_execution_report_id_ := 1;
  parents_ := ∅; children_ := ∅; execution_reports_ := []; notified := [] |}.

Definition epsilon : double := tiny.

Definition terminal_status (s : OrderStatus) : bool :=
  match s with Filled | Cancelled | Rejected => true | _ => false end.

Definition validate_positive (value : double) (message : string) : result unit :=
  if negb (isfinite value) || dle value dzero then Throw (invalid_argument message) else Ok tt.

(** ** Updates of the state *)

Definition set_parents m (s : Oms) : Oms := {|
  next_parent_id_ := next_parent_id_ s; next_child_id_ := next_child_id_ s;
  next_execution_report_id_ := next_execution_report_id_ s; parents_ := m;
  children_ := children_ s; execution_reports_ := execution_reports_ s;
  notified := notified s |}.

Definition set_children m (s : Oms) : Oms := {|
  next_parent_id_ := next_parent_id_ s; next_child_id_ := next_child_id_ s;
  next_execution_report_id_ := next_execution_report_id_ s; parents_ := parents_ s;
  children_ := m; execution_reports_ := execution_reports_ s; notified := notified s |}.

Definition set_next (p c : Z) (s : Oms) : Oms := {|
  next_parent_id_ := p; next_child_id_ := c;
  next_execution_report_id_ := next_execution_report_id_ s; parents_ := parents_ s;
  children_ := children_ s; execution_reports_ := execution_reports_ s;
  notified := notified s |}.

Definition push_report (r : OmsExecutionReport) (s : Oms) : Oms := {|
  next_parent_id_ := next_parent_id_ s; next_child_id_ := next_child_id_ s;
  next_execution_report_id_ := u64 (next_execution_report_id_ s + 1);
  parents_ := parents_ s; children_ := children_ s;
  execution_reports_ := execution_reports_ s ++ [r]; notified := notified s |}.

(** [notify_mutation], with [parents_.at(parent_id)] as the parent of the
    event, which throws when there is none. *)
Definition notify (e : MutationEvent) (s : Oms) : Oms := {|
  next_parent_id_ := next_parent_id_ s; next_child_id_ := next_child_id_ s;
  next_execution_report_id_ := next_execution_report_id_ s; parents_ := parents_ s;
  children_ := children_ s; execution_reports_ := execution_reports_ s;
  notified := notified s ++ [e] |}.

Definition notify_mutation (type : MutationType) (parent_id : Z) (child : option ChildOrder)
    (fill : option OmsExecutionReport) : ST Oms unit := fun s =>
  match parents_ s !! parent_id with
  | None => (Throw (out_of_range "unordered_map::at"), s)
  | Some p => (Ok tt, notify {| ev_type := type; ev_parent := Some p; ev_child := child;
                                ev_fill := fill |} s)
  end.

Definition parent_with (p : ParentOrder) (filled remaining : double) (status : OrderStatus)
    (updated : Z) (ids : list Z) : ParentOrder := {|
  po_id := po_id p; po_symbol := po_symbol p; po_side := po_side p;
  po_algorithm := po_algorithm p; po_quantity := po_quantity p; po_filled := filled;
  po_remaining := remaining; po_status := status; po_created := po_created p;
  po_updated := updated; po_child_ids := ids |}.

Definition child_with (c : ChildOrder) (filled remaining : double) (status : OrderStatus)
    (updated : Z) : ChildOrder := {|
  co_id := co_id c; co_parent_id := co_parent_id c; co_venue := co_venue c;
  co_price := co_price c; co_quantity := co_quantity c; co_filled := filled;
  co_remaining := remaining; co_status := status; co_created := co_created c;
  co_updated := updated |}.

(** [emplace] keeps an element that is already there. *)
Definition emplace {A} (k : Z) (x : A) (m : gmap Z A) : gmap Z A :=
  match m !! k with Some _ => m | None => <[k := x]> m end.

(** ** The commands *)

(** The loop of [refresh_parent]: the filled sum and the three flags. *)
Record Tally := { t_filled : double; t_working : bool; t_rejected : bool; t_cancelled : bool }.

Definition tally_child (t : Tally) (c : ChildOrder) : Tally := {|
  t_filled := dadd (t_filled t) (co_filled c);
  t_working := t_working t || negb (terminal_status (co_status c));
  t_rejected := t_rejected t || bool_decide (co_status c = Rejected);
  t_cancelled := t_cancelled t || bool_decide (co_status c = Cancelled) |}.

Definition tally (children : gmap Z ChildOrder) (ids : list Z) : Tally :=
  foldl (fun t id => match children !! id with None => t | Some c => tally_child t c end)
    {| t_filled := dzero; t_working := false; t_rejected := false; t_cancelled := false |} ids.

Definition refreshed_status (filled remaining : double) (t : Tally) : OrderStatus :=
  if dle remaining epsilon then Filled
  else if dgt filled epsilon then PartiallyFilled
  else if t_working t then Working
  else if t_rejected t && negb (t_cancelled t) then Rejected
  else if t_cancelled t then Cancelled
  else New.

Definition refreshed (children : gmap Z ChildOrder) (timestamp : Z) (p : ParentOrder) : ParentOrder :=
  if bool_decide (po_status p = Cancelled) then p
  else
    let t := tally children (po_child_ids p) in
    let filled := dmin (po_quantity p) (t_filled t) in
    let remaining := dmax dzero (dsub (po_quantity p) filled) in
    parent_with p filled remaining (refreshed_status filled remaining t) timestamp (po_child_ids p).

Definition refresh_parent (parent_id timestamp : Z) (s : Oms) : Oms :=
  match parents_ s !! parent_id with
  | None => s
  | Some p => set_parents (<[parent_id := refreshed (children_ s) timestamp p]> (parents_ s)) s
  end.

Definition create_parent (request : ParentOrderRequest) (timestamp : Z) : ST Oms Z := fun s =>
  if bool_decide (prq_symbol request = ""%string)
  then (Throw (invalid_argument "parent symbol cannot be empty"), s)
  else match validate_positive (prq_quantity request) "parent quantity must be positive" with
  | Throw e => (Throw e, s)
  | Ok _ =>
      let id := next_parent_id_ s in
      let p := {| po_id := id; po_symbol := prq_symbol request; po_side := prq_side request;
                  po_algorithm := prq_algorithm request; po_quantity := prq_quantity request;
                  po_filled := dzero; po_remaining := prq_quantity request; po_status := New;
                  po_created := timestamp; po_updated := timestamp; po_child_ids := [] |} in
      let s := set_next (u64 (id + 1)) (next_child_id_ s) s in
      let s := set_parents (emplace id p (parents_ s)) s in
      (notify_mutation ParentCreated id None None;; mret id) s
  end.

Definition check_child (request : ChildOrderRequest) (p : ParentOrder) : result unit :=
  guard_or (negb (terminal_status (po_status p)))
    (logic_error "cannot create child for terminal parent");;
  guard_or (bool_decide (crq_venue request <> ""%string))
    (invalid_argument "child venue cannot be empty");;
  validate_positive (crq_price request) "child price must be positive";;
  validate_positive (crq_quantity request) "child quantity must be positive";;
  guard_or (negb (dgt (crq_quantity request) (dadd (po_remaining p) epsilon)))
    (invalid_argument "child quantity exceeds parent remainder").

Definition create_child (request : ChildOrderRequest) : ST Oms Z := fun s =>
  match parents_ s !! crq_parent_id request with
  | None => (Throw (invalid_argument "parent order does not exist"), s)
  | Some p =>
      match check_child request p with
      | Throw e => (Throw e, s)
      | Ok _ =>
          let id := next_child_id_ s in
          let c := {| co_id := id; co_parent_id := crq_parent_id request;
                      co_venue := crq_venue request; co_price := crq_price request;
                      co_quantity := crq_quantity request; co_filled := dzero;
                      co_remaining := crq_quantity request; co_status := New;
                      co_created := crq_created request; co_updated := crq_created request |} in
          let status := if bool_decide (po_status p = New) then Working else po_status p in
          let p := parent_with p (po_filled p) (po_remaining p) status (crq_created request)
                     (po_child_ids p ++ [id]) in
          let s := set_next (next_parent_id_ s) (u64 (id + 1)) s in
          let s := set_children (emplace id c (children_ s)) s in
          let s := set_parents (<[crq_parent_id request := p]> (parents_ s)) s in
          (* [children_.at(id)] *)
          match children_ s !! id with
          | None => (Throw (out_of_range "unordered_map::at"), s)
          | Some c => (notify_mutation ChildCreated (crq_parent_id request) (Some c) None;; mret id) s
          end
      end
  end.

(** What [mark_child_working], [cancel_child] and [reject_child] have in
    common. *)
Definition set_child_status (status : ChildOrder -> OrderStatus) (child_id timestamp : Z)
    : ST Oms bool := fun s =>
  match children_ s !! child_id with
  | None => (Ok false, s)
  | Some c =>
      if terminal_status (co_status c) then (Ok false, s)
      else
        let c := child_with c (co_filled c) (co_remaining c) (status c) timestamp in
        let s := set_children (<[child_id := c]> (children_ s)) s in
        let s := refresh_parent (co_parent_id c) timestamp s in
        (notify_mutation ChildUpdated (co_parent_id c) (Some c) None;; mret true) s
  end.

Definition mark_child_working : Z -> Z -> ST Oms bool :=
  set_child_status (fun c => if dgt (co_filled c) epsilon then PartiallyFilled else Working).

Definition cancel_child : Z -> Z -> ST Oms bool := set_child_status (fun _ => Cancelled).

Definition reject_child : Z -> Z -> ST Oms bool := set_child_status (fun _ => Rejected).

Definition check_fill (c : ChildOrder) (price quantity fee : double) : result unit :=
  guard_or (negb (terminal_status (co_status c))) (logic_error "cannot fill terminal child order");;
  validate_positive price "fill price must be positive";;
  validate_positive quantity "fill quantity must be positive";;
  guard_or (isfinite fee && negb (dlt fee dzero)) (invalid_argument "fill fee must be non-negative");;
  guard_or (negb (dgt quantity (dadd (co_remaining c) epsilon)))
    (invalid_argument "fill exceeds child remaining quantity").

Definition record_fill (child_id : Z) (price quantity fee : double) (timestamp : Z)
    : ST Oms OmsExecutionReport := fun s =>
  match children_ s !! child_id with
  | None => (Throw (invalid_argument "child order does not exist"), s)
  | Some c =>
      match check_fill c price quantity fee with
      | Throw e => (Throw e, s)
      | Ok _ =>
          let filled := dadd (co_filled c) quantity in
          let remaining := dmax dzero (dsub (co_quantity c) filled) in
          let status := if dle remaining epsilon then Filled else PartiallyFilled in
          let c := child_with c filled remaining status timestamp in
          let r := {| xr_id := next_execution_report_id_ s; xr_parent_id := co_parent_id c;
                      xr_child_id := co_id c; xr_venue := co_venue c; xr_price := price;
                      xr_quantity := quantity; xr_notional := dmul price quantity;
                      xr_fee := fee; xr_timestamp := timestamp |} in
          let s := set_children (<[child_id := c]> (children_ s)) s in
          let s := refresh_parent (co_parent_id c) timestamp (push_report r s) in
          (notify_mutation FillRecorded (co_parent_id c) (Some c) (Some r);; mret r) s
      end
  end.

(** The loop of [cancel_parent]. *)
Definition cancel_open (timestamp : Z) (children : gmap Z ChildOrder) (id : Z) : gmap Z ChildOrder :=
  match children !! id with
  | None => children
  | Some c =>
      if terminal_status (co_status c) then children
      else <[id := child_with c (co_filled c) (co_remaining c) Cancelled timestamp]> children
  end.

Definition cancel_parent (parent_id timestamp : Z) : ST Oms bool := fun s =>
  match parents_ s !! parent_id with
  | None => (Ok false, s)
  | Some p =>
      if terminal_status (po_status p) then (Ok false, s)
      else
        let s := set_children (foldl (cancel_open timestamp) (children_ s) (po_child_ids p)) s in
        let p := parent_with p (po_filled p) (po_remaining p) Cancelled timestamp (po_child_ids p) in
        let s := set_parents (<[parent_id := p]> (parents_ s)) s in
        (Ok true, notify {| ev_type := ParentUpdated; ev_parent := Some p; ev_child := None;
                            ev_fill := None |} s)
  end.

(** ** Queries and recovery *)

Definition find_parent (parent_id : Z) (s : Oms) : option ParentOrder := parents_ s !! parent_id.
Definition find_child (child_id : Z) (s : Oms) : option ChildOrder := children_ s !! child_id.

Definition children_for_parent (parent_id : Z) (s : Oms) : list ChildOrder :=
  match parents_ s !! parent_id with
  | None => []
  | Some p => omap (fun id => children_ s !! id) (po_child_ids p)
  end.

Definition fills_for_parent (parent_id : Z) (s : Oms) : list OmsExecutionReport :=
  filter (fun r => xr_parent_id r = parent_id) (execution_reports_ s).

(** [parents]: the values, sorted by their id. *)
#[export] Instance id_le_dec : RelDecision (fun p q => po_id p <= po_id q).
Proof. intros p q. apply _. Defined.

Definition parents (s : Oms) : list ParentOrder :=
  merge_sort (fun p q => po_id p <= po_id q) ((map_to_list (parents_ s)).*2).

Definition parent_count (s : Oms) : nat := size (parents_ s).
Definition child_count (s : Oms) : nat := size (children_ s).
Definition execution_report_count (s : Oms) : nat := length (execution_reports_ s).

Definition restore (ps : list ParentOrder) (cs : list ChildOrder) (rs : list OmsExecutionReport)
    (s : Oms) : Oms := {|
  next_parent_id_ := foldl (fun n p => Z.max n (u64 (po_id p + 1))) 1 ps;
  next_child_id_ := foldl (fun n c => Z.max n (u64 (co_id c + 1))) 1 cs;
  next_execution_report_id_ := foldl (fun n r => Z.max n (u64 (xr_id r + 1))) 1 rs;
  parents_ := foldl (fun m p => emplace (po_id p) p m) ∅ ps;
  children_ := foldl (fun m c => emplace (co_id c) c m) ∅ cs;
  execution_reports_ := rs;
  notified := notified s |}.
