(* ===== verification/OmsProps.v ===== *)
(** * What the order management system guarantees

    The invariant that ties parents, children and execution reports together,
    kept by every command from the empty system on, and its consequences. *)

From S2P Require Import Prelude.
From S2P Require Import Float.
From S2P Require Import Oms.

Inductive OmsCommand :=
| OCreateParent (request : ParentOrderRequest) (timestamp : Z)
| OCreateChild (request : ChildOrderRequest)
| OWorking (child_id timestamp : Z)
| OFill (child_id : Z) (price quantity fee : double) (timestamp : Z)
| OCancelChild (child_id timestamp : Z)
| ORejectChild (child_id timestamp : Z)
| OCancelParent (parent_id timestamp : Z).

Definition oms_exec (c : OmsCommand) : ST Oms bool :=
  match c with
  | OCreateParent r t => create_parent r t;; mret true
  | OCreateChild r => create_child r;; mret true
  | OWorking i t => mark_child_working i t
  | OFill i p q f t => record_fill i p q f t;; mret true
  | OCancelChild i t => cancel_child i t
  | ORejectChild i t => reject_child i t
  | OCancelParent i t => cancel_parent i t
  end.

Definition run (cs : list OmsCommand) : Oms := foldl (fun s c => (oms_exec c s).2) new_oms cs.

(** ** The invariant *)

Definition fill_quantities (child : Z) (rs : list OmsExecutionReport) : list double :=
  xr_quantity <$> filter (fun r => xr_child_id r = child) rs.

(** What the reports of a child add up to. *)
Definition reported (child : Z) (rs : list OmsExecutionReport) : double :=
  foldl dadd dzero (fill_quantities child rs).

(** What the children of a parent add up to. *)
Definition children_filled (cs : gmap Z ChildOrder) (ids : list Z) : double :=
  foldl (fun a id => match cs !! id with None => a | Some c => dadd a (co_filled c) end) dzero ids.

Definition remainder (quantity filled : double) : double := dmax dzero (dsub quantity filled).

Record parent_ok (cs : gmap Z ChildOrder) (i : Z) (p : ParentOrder) : Prop := {
  pk_id : po_id p = i;
  pk_quantity : dpositive (po_quantity p) = true;
  pk_ids : NoDup (po_child_ids p);
  pk_children : forall id, id ∈ po_child_ids p -> exists c, cs !! id = Some c /\ co_parent_id c = i;
  pk_filled : po_filled p = dmin (po_quantity p) (children_filled cs (po_child_ids p));
  pk_remaining : po_remaining p = remainder (po_quantity p) (po_filled p);
  pk_done : po_status p = Filled -> dle (po_remaining p) epsilon = true;
  pk_cancelled : po_status p = Cancelled -> forall id c, id ∈ po_child_ids p ->
    cs !! id = Some c -> terminal_status (co_status c) = true
}.

Record child_ok (ps : gmap Z ParentOrder) (rs : list OmsExecutionReport) (i : Z) (c : ChildOrder)
    : Prop := {
  ck_id : co_id c = i;
  ck_parent : exists p, ps !! co_parent_id c = Some p /\ i ∈ po_child_ids p;
  ck_quantity : dpositive (co_quantity c) = true;
  ck_filled : co_filled c = reported i rs;
  ck_remaining : co_remaining c = remainder (co_quantity c) (co_filled c);
  ck_done : co_status c = Filled -> dle (co_remaining c) epsilon = true
}.

Definition report_ok (cs : gmap Z ChildOrder) (k : nat) (r : OmsExecutionReport) : Prop :=
  xr_id r = Z.of_nat k + 1 /\ dpositive (xr_price r) = true /\ dpositive (xr_quantity r) = true /\
  exists c, cs !! xr_child_id r = Some c /\ co_parent_id c = xr_parent_id r /\
    co_venue c = xr_venue r.

(** [n] bounds the number of commands so far: no counter has wrapped. *)
Record oms_inv (n : Z) (s : Oms) : Prop := {
  oi_next_parent : 1 <= next_parent_id_ s <= n + 1;
  oi_next_child : 1 <= next_child_id_ s <= n + 1;
  oi_next_report : next_execution_report_id_ s = Z.of_nat (length (execution_reports_ s)) + 1;
  oi_reports_bound : Z.of_nat (length (execution_reports_ s)) <= n;
  oi_parent_ids : forall i p, parents_ s !! i = Some p -> 1 <= i < next_parent_id_ s;
  oi_child_ids : forall i c, children_ s !! i = Some c -> 1 <= i < next_child_id_ s;
  oi_parents : forall i p, parents_ s !! i = Some p -> parent_ok (children_ s) i p;
  oi_children : forall i c, children_ s !! i = Some c -> child_ok (parents_ s) (execution_reports_ s) i c;
  oi_reports : forall k r, execution_reports_ s !! k = Some r -> report_ok (children_ s) k r;
  oi_last_parent : next_parent_id_ s = 1 \/ is_Some (parents_ s !! (next_parent_id_ s - 1));
  oi_last_child : next_child_id_ s = 1 \/ is_Some (children_ s !! (next_child_id_ s - 1))
}.

Lemma oms_inv_init : oms_inv 0 new_oms.
Proof.
  constructor; cbn; try lia; try (intros ? ?; rewrite ?lookup_empty, ?lookup_nil; done); by left.
Qed.

Lemma insert_keeps {A} (m : gmap Z A) k x i (P : Prop) :
  P \/ is_Some (m !! i) -> P \/ is_Some (<[k := x]> m !! i).
Proof. intros [H|H]; [by left|right]. rewrite lookup_insert. by case_decide. Qed.

Lemma oms_inv_mono n m s : n <= m -> oms_inv n s -> oms_inv m s.
Proof. intros H []. constructor; try done; lia. Qed.

(** ** Sums *)

Lemma reported_app child rs r : reported child (rs ++ [r]) =
  if decide (xr_child_id r = child) then dadd (reported child rs) (xr_quantity r)
  else reported child rs.
Proof.
  unfold reported, fill_quantities. rewrite filter_app, fmap_app, foldl_app. case_decide as D.
  - by rewrite filter_cons_True by done.
  - by rewrite filter_cons_False by done.
Qed.

Lemma reported_fresh j rs : (forall r, r ∈ rs -> xr_child_id r <> j) -> reported j rs = dzero.
Proof.
  intros H. unfold reported, fill_quantities. replace (filter _ rs) with (@nil OmsExecutionReport); [done|].
  induction rs as [|r rs IH]; [done|]. rewrite filter_cons_False by (apply H; set_solver).
  apply IH. intros x Hx. apply H. set_solver.
Qed.

Lemma foldl_dadd_nonneg l a : dnonneg a -> Forall dnonneg l -> dnonneg (foldl dadd a l).
Proof. intros Ha HF. revert a Ha. induction HF; intros a Ha; simpl; auto using dadd_nonneg. Qed.

Lemma reported_nonneg child rs :
  Forall (fun r => dpositive (xr_quantity r) = true) rs -> dnonneg (reported child rs).
Proof.
  intros H. apply foldl_dadd_nonneg; [done|]. unfold fill_quantities.
  rewrite Forall_forall in H. apply Forall_fmap, Forall_forall. intros r [_ Hr]%list_elem_of_filter.
  by apply dpositive_nonneg, H.
Qed.

Lemma children_filled_ext (cs cs' : gmap Z ChildOrder) ids :
  (forall id, id ∈ ids -> co_filled <$> cs !! id = co_filled <$> cs' !! id) ->
  children_filled cs ids = children_filled cs' ids.
Proof.
  unfold children_filled. generalize dzero. induction ids as [|id ids IH]; intros a H; [done|].
  simpl. pose proof (H id ltac:(set_solver)) as Hid.
  destruct (cs !! id), (cs' !! id); simplify_eq/=; rewrite ?Hid; apply IH; set_solver.
Qed.

Lemma children_filled_nonneg (cs : gmap Z ChildOrder) ids :
  (forall id c, cs !! id = Some c -> dnonneg (co_filled c)) -> dnonneg (children_filled cs ids).
Proof.
  intros H. unfold children_filled. assert (dnonneg dzero) as H0 by done. revert H0.
  generalize dzero. induction ids as [|id ids IH]; intros a Ha; simpl; [done|]. apply IH.
  destruct (cs !! id) eqn:E; [|done]. eauto using dadd_nonneg.
Qed.

(** What the loop of [refresh_parent] finds. *)
Lemma tally_spec (cs : gmap Z ChildOrder) ids :
  t_filled (tally cs ids) = children_filled cs ids /\
  (t_working (tally cs ids) = false -> forall id c, id ∈ ids -> cs !! id = Some c ->
     terminal_status (co_status c) = true).
Proof.
  unfold tally, children_filled.
  induction ids as [|id ids [IH1 IH2]] using rev_ind; [by split; [|set_solver]|].
  rewrite !foldl_app. cbn [foldl]. destruct (cs !! id) as [c|] eqn:E.
  - cbn [tally_child t_filled t_working]. rewrite IH1. split; [done|].
    intros [H1 H2]%orb_false_iff id' c' [H|H%list_elem_of_singleton]%elem_of_app H'; [by eapply IH2|].
    subst. rewrite E in H'. injection H' as <-. by apply negb_false_iff.
  - split; [done|]. intros H1 id' c' [H|H%list_elem_of_singleton]%elem_of_app H'; [by eapply IH2|].
    subst. by rewrite E in H'.
Qed.

(** ** Refreshing a parent *)

Lemma refreshed_ids cs t p : po_child_ids (refreshed cs t p) = po_child_ids p.
Proof. unfold refreshed. by case_bool_decide. Qed.

Lemma refreshed_ok cs cs' t i p :
  parent_ok cs i p -> po_status p <> Cancelled ->
  (forall id, id ∈ po_child_ids p -> exists c, cs' !! id = Some c /\ co_parent_id c = i) ->
  parent_ok cs' i (refreshed cs' t p).
Proof.
  intros [] HC HN. unfold refreshed. rewrite bool_decide_eq_false_2 by done.
  destruct (tally_spec cs' (po_child_ids p)) as [HT HW]. rewrite HT.
  constructor; cbn [parent_with po_id po_quantity po_child_ids po_filled po_remaining po_status];
    try done; unfold refreshed_status.
  - repeat case_if; done.
  - intros HS. apply HW. revert HS. by repeat case_if.
Qed.

Lemma parent_ok_ext cs cs' i p :
  parent_ok cs i p -> (forall id, id ∈ po_child_ids p -> cs' !! id = cs !! id) -> parent_ok cs' i p.
Proof.
  intros [] HE. constructor; try done.
  - intros id Hid. rewrite HE by done. by apply pk_children0.
  - rewrite pk_filled0. f_equal. apply children_filled_ext. intros id Hid. by rewrite HE.
  - intros HS id c Hid. rewrite HE by done. by apply pk_cancelled0.
Qed.

(** ** Updating a child

    [s'] is [s] with the open child [j] replaced by [c'], the reports by [rs],
    and the parent refreshed. *)
Lemma update_child_inv n s j c c' rs next t :
  oms_inv n s -> children_ s !! j = Some c -> terminal_status (co_status c) = false ->
  co_id c' = co_id c -> co_parent_id c' = co_parent_id c -> co_venue c' = co_venue c ->
  let s1 := {| next_parent_id_ := next_parent_id_ s; next_child_id_ := next_child_id_ s;
    next_execution_report_id_ := next; parents_ := parents_ s;
    children_ := <[j := c']> (children_ s); execution_reports_ := rs; notified := notified s |} in
  next = Z.of_nat (length rs) + 1 -> Z.of_nat (length rs) <= n ->
  child_ok (parents_ s) rs j c' ->
  (forall i, i <> j -> reported i rs = reported i (execution_reports_ s)) ->
  (forall k r, rs !! k = Some r -> report_ok (children_ s1) k r) ->
  exists p, parents_ s !! co_parent_id c = Some p /\
  oms_inv n (refresh_parent (co_parent_id c) t s1) /\
  parents_ (refresh_parent (co_parent_id c) t s1) !! co_parent_id c =
    Some (refreshed (<[j := c']> (children_ s)) t p).
Proof.
  intros I EC HT E1 E2 E3 s1 Hn Hl HCK HRep HR.
  destruct (ck_parent _ _ _ _ (oi_children _ _ I j c EC)) as (p & EP & Hj). exists p.
  split; [done|]. unfold refresh_parent. cbn [s1 parents_ children_]. rewrite EP.
  set (p' := refreshed _ t p).
  assert (po_status p <> Cancelled) as HCan.
  { intros HS. pose proof (pk_cancelled _ _ _ (oi_parents _ _ I _ _ EP) HS j c Hj EC). congruence. }
  assert (forall i q, parents_ s !! i = Some q -> exists q', (<[co_parent_id c := p']> (parents_ s)) !! i
    = Some q' /\ po_child_ids q' = po_child_ids q) as HQ.
  { intros i q Eq. destruct (decide (i = co_parent_id c)) as [->|Hi].
    - rewrite lookup_insert_eq. exists p'. split; [done|]. rewrite EP in Eq. injection Eq as ->.
      apply refreshed_ids.
    - rewrite lookup_insert_ne by done. by exists q. }
  split; [|cbn [set_parents parents_]; by rewrite lookup_insert_eq].
  assert (forall i d, child_ok (parents_ s) rs i d ->
    child_ok (<[co_parent_id c := p']> (parents_ s)) rs i d) as HP.
  { intros i d []. constructor; try done. destruct ck_parent0 as (q & Eq & Hq).
    destruct (HQ _ _ Eq) as (q' & -> & Eids). exists q'. by rewrite Eids. }
  constructor; cbn [s1 set_parents next_parent_id_ next_child_id_ next_execution_report_id_ parents_
    children_ execution_reports_]; try apply I; try done.
  - intros i q. rewrite lookup_insert. case_decide as D; [|apply I]. intros _. subst.
    by eapply (oi_parent_ids _ _ I).
  - intros i d. rewrite lookup_insert. case_decide as D; [|apply I]. intros _. subst.
    by eapply (oi_child_ids _ _ I).
  - intros i q. rewrite lookup_insert. case_decide as D.
    + intros [= <-]. subst i. eapply refreshed_ok; [by apply I|done|].
      intros id Hid. destruct (decide (id = j)) as [->|]; [rewrite lookup_insert_eq; eauto|].
      rewrite lookup_insert_ne by done. by apply (pk_children _ _ _ (oi_parents _ _ I _ _ EP)).
    + intros Eq. eapply parent_ok_ext; [by apply I|]. intros id Hid.
      rewrite lookup_insert_ne; [done|]. intros <-.
      destruct (pk_children _ _ _ (oi_parents _ _ I _ _ Eq) _ Hid) as (d & Ed & <-). congruence.
  - intros i d. rewrite lookup_insert. case_decide as D.
    + intros [= <-]. subst i. by apply HP.
    + intros Ed. apply HP. pose proof (oi_children _ _ I _ _ Ed) as []. constructor; try done.
      by rewrite HRep.
  - apply insert_keeps, I.
  - apply insert_keeps, I.
Qed.

(** A [notify] after the update. *)
Lemma notify_inv n e s : oms_inv n s -> oms_inv n (notify e s).
Proof. by intros []; constructor. Qed.

Lemma report_ok_update (cs : gmap Z ChildOrder) k r j c c' :
  report_ok cs k r -> cs !! j = Some c -> co_parent_id c' = co_parent_id c ->
  co_venue c' = co_venue c -> report_ok (<[j := c']> cs) k r.
Proof.
  intros (H1 & H2 & H3 & d & Ed & H4 & H5) EC E1 E2. split; [done|]. split; [done|]. split; [done|].
  rewrite lookup_insert. case_decide as D; [|by exists d]. exists c'. subst. split; [done|].
  rewrite EC in Ed. injection Ed as ->. by rewrite E1, E2.
Qed.

(** ** The commands keep the invariant *)

(** A command that throws or returns [false] changes nothing, and it throws
    only what it says about its arguments. *)
Definition outcome_ok (r : result bool) (s s' : Oms) : Prop :=
  match r with
  | Ok true => True
  | Ok false => s' = s
  | Throw (invalid_argument _) | Throw (logic_error _) => s' = s
  | Throw _ => False
  end.

Definition step_ok (n : Z) (s : Oms) (x : result bool * Oms) : Prop :=
  oms_inv n x.2 /\ outcome_ok x.1 s x.2.

Lemma validate_positive_spec v m :
  validate_positive v m = (if dpositive v then Ok tt else Throw (invalid_argument m)).
Proof. unfold validate_positive, dpositive. by destruct (isfinite v), (dle v dzero). Qed.

Lemma dmin_zero q : dpositive q = true -> dmin q dzero = dzero.
Proof. by intros (m & e & ->)%dpositive_inv. Qed.

Lemma remainder_zero q : dpositive q = true -> remainder q dzero = q.
Proof. intros H. unfold remainder. by rewrite dsub_zero_r, dmax_zero_l. Qed.

Lemma refused n s e : oms_inv n s ->
  match e with invalid_argument _ | logic_error _ => True | _ => False end ->
  step_ok (n + 1) s (Throw e, s).
Proof. intros I He. split; [by eapply oms_inv_mono, I; lia|]. by destruct e. Qed.

Lemma unchanged n s : oms_inv n s -> step_ok (n + 1) s (Ok false, s).
Proof. intros I. split; [by eapply oms_inv_mono, I; lia|done]. Qed.

Lemma emplace_fresh {A} k (x : A) m : m !! k = None -> emplace k x m = <[k := x]> m.
Proof. unfold emplace. by intros ->. Qed.

Lemma fresh_parent n s : oms_inv n s -> parents_ s !! next_parent_id_ s = None.
Proof.
  intros I. destruct (parents_ s !! next_parent_id_ s) eqn:E; [|done].
  apply (oi_parent_ids _ _ I) in E. lia.
Qed.

Lemma fresh_child n s : oms_inv n s -> children_ s !! next_child_id_ s = None.
Proof.
  intros I. destruct (children_ s !! next_child_id_ s) eqn:E; [|done].
  apply (oi_child_ids _ _ I) in E. lia.
Qed.

Lemma create_parent_step n s r t : oms_inv n s -> n < 2 ^ 64 - 2 ->
  step_ok (n + 1) s (oms_exec (OCreateParent r t) s).
Proof.
  intros I Hn. cbn [oms_exec]. unfold mbind, st_bind at 1, create_parent.
  case_bool_decide; [by apply refused|]. rewrite validate_positive_spec.
  destruct (dpositive (prq_quantity r)) eqn:HQ; [|by apply refused].
  rewrite emplace_fresh by exact (fresh_parent n s I). unfold mbind, st_bind, notify_mutation.
  cbn [set_parents set_next parents_]. rewrite lookup_insert_eq. cbn [mret st_ret fst snd].
  pose proof (oi_next_parent _ _ I). pose proof (oi_next_child _ _ I).
  pose proof (oi_reports_bound _ _ I). pose proof (fresh_parent n s I) as Hf.
  split; [|done]. apply notify_inv. rewrite u64_small by (unfold in_u64; lia).
  constructor; cbn [snd set_parents set_next next_parent_id_ next_child_id_ next_execution_report_id_
    parents_ children_ execution_reports_]; try apply I; try lia.
  - intros i p. rewrite lookup_insert. case_decide; [lia|]. intros Ep%(oi_parent_ids _ _ I). lia.
  - intros i p. rewrite lookup_insert. case_decide as D; [|apply I]. intros [= <-]. subst i.
    constructor; cbn; try done; [constructor|set_solver|by rewrite dmin_zero|by rewrite remainder_zero].
  - intros i c Ec. destruct (oi_children _ _ I _ _ Ec) as []. constructor; try done.
    destruct ck_parent0 as (q & Eq & Hq). exists q. split; [|done].
    rewrite lookup_insert_ne; [done|]. congruence.
  - right. rewrite Z.add_simpl_r, lookup_insert_eq. by eexists.
Qed.

Lemma check_child_spec r p x : check_child r p = Ok x ->
  terminal_status (po_status p) = false /\ dpositive (crq_quantity r) = true /\
  dpositive (crq_price r) = true.
Proof.
  unfold check_child, guard_or. cbn [mbind result_bind]. rewrite !validate_positive_spec.
  destruct (terminal_status _), (bool_decide _), (dpositive (crq_price r)),
    (dpositive (crq_quantity r)); try done.
Qed.

Lemma check_child_throws r p e : check_child r p = Throw e ->
  match e with invalid_argument _ | logic_error _ => True | _ => False end.
Proof.
  unfold check_child, guard_or. cbn [mbind result_bind]. rewrite !validate_positive_spec.
  destruct (negb (terminal_status _)), (bool_decide _), (dpositive (crq_price r)),
    (dpositive (crq_quantity r)), (negb (dgt _ _)); by intros [= <-].
Qed.

Lemma child_filled_nonneg n s i c : oms_inv n s -> children_ s !! i = Some c -> dnonneg (co_filled c).
Proof.
  intros I Ec. rewrite (ck_filled _ _ _ _ (oi_children _ _ I _ _ Ec)). apply reported_nonneg.
  apply Forall_lookup. intros k r Hr. by destruct (oi_reports _ _ I _ _ Hr) as (_ & _ & ? & _).
Qed.

(** The parent of a new child. *)
Lemma parent_new_child n s i p id c t status :
  oms_inv n s -> parents_ s !! i = Some p -> children_ s !! id = None ->
  co_parent_id c = i -> co_filled c = dzero -> terminal_status status = false ->
  parent_ok (<[id := c]> (children_ s)) i
    (parent_with p (po_filled p) (po_remaining p) status t (po_child_ids p ++ [id])).
Proof.
  intros I Ep Hid Ec Hf HS. pose proof (oi_parents _ _ I _ _ Ep) as [].
  assert (id ∉ po_child_ids p) as Hnew by (intros (d & Ed & _)%pk_children0; congruence).
  constructor; cbn [parent_with po_id po_quantity po_child_ids po_filled po_remaining po_status]; try done.
  - apply NoDup_app. split; [done|]. split; [set_solver|apply NoDup_singleton].
  - intros j [Hj|Hj%list_elem_of_singleton]%elem_of_app.
    + rewrite lookup_insert_ne by set_solver. by apply pk_children0.
    + subst j. rewrite lookup_insert_eq. eauto.
  - rewrite pk_filled0. f_equal. unfold children_filled at 2. rewrite foldl_app. cbn [foldl].
    rewrite lookup_insert_eq, Hf. fold (children_filled (<[id:=c]> (children_ s)) (po_child_ids p)).
    rewrite (children_filled_ext (<[id:=c]> (children_ s)) (children_ s)).
    + symmetry. apply dadd_zero_nonneg, children_filled_nonneg. intros j d Ed. by eapply child_filled_nonneg.
    + intros j Hj. rewrite lookup_insert_ne; [done|]. by intros <-.
  - intros ->. done.
  - intros ->. done.
Qed.

Lemma create_child_step n s r : oms_inv n s -> n < 2 ^ 64 - 2 ->
  step_ok (n + 1) s (oms_exec (OCreateChild r) s).
Proof.
  intros I Hn. cbn [oms_exec]. unfold mbind, st_bind at 1, create_child.
  destruct (parents_ s !! crq_parent_id r) as [p|] eqn:Ep; [|by apply refused].
  destruct (check_child r p) as [x|e] eqn:EC; [|by apply refused, (check_child_throws r p)].
  apply check_child_spec in EC as (HT & HQ & _).
  pose proof (fresh_child n s I) as Hf. rewrite emplace_fresh by done.
  cbn [set_parents set_children set_next children_ next_parent_id_]. rewrite lookup_insert_eq.
  unfold mbind, st_bind, notify_mutation.
  cbn [set_parents set_children set_next parents_]. rewrite lookup_insert_eq. cbn [mret st_ret fst snd].
  pose proof (oi_next_parent _ _ I). pose proof (oi_next_child _ _ I). pose proof (oi_reports_bound _ _ I).
  split; [|done]. apply notify_inv. rewrite u64_small by (unfold in_u64; lia).
  set (c := {| co_id := next_child_id_ s |}). set (p' := parent_with p _ _ _ _ _).
  assert (parent_ok (<[next_child_id_ s := c]> (children_ s)) (crq_parent_id r) p') as HP.
  { eapply parent_new_child; try done. case_bool_decide as D; [done|]. by destruct (po_status p). }
  assert (forall i q, parents_ s !! i = Some q -> exists q', (<[crq_parent_id r := p']> (parents_ s)) !! i
    = Some q' /\ forall id, id ∈ po_child_ids q -> id ∈ po_child_ids q') as HP'.
  { intros i q Eq. rewrite lookup_insert. case_decide as D; [|by exists q]. subst i. exists p'.
    rewrite Ep in Eq. injection Eq as <-. split; [done|]. cbn. set_solver. }
  constructor; cbn [snd set_parents set_next set_children next_parent_id_ next_child_id_
    next_execution_report_id_ parents_ children_ execution_reports_]; try apply I; try lia.
  - intros i q. rewrite lookup_insert. case_decide; [|apply I]. intros _. subst. by eapply oi_parent_ids.
  - intros i d. rewrite lookup_insert. case_decide; [lia|]. intros Ed%(oi_child_ids _ _ I). lia.
  - intros i q. rewrite lookup_insert. case_decide as D; [by intros [= <-]; subst|]. intros Eq.
    eapply parent_ok_ext; [by apply I|]. intros id Hid. rewrite lookup_insert_ne; [done|]. intros <-.
    apply (oi_parents _ _ I) in Eq as []. apply pk_children0 in Hid as (d & Ed & _). congruence.
  - intros i d. rewrite lookup_insert. case_decide as D.
    + intros [= <-]. subst i. constructor; cbn; try done.
      * exists p'. rewrite lookup_insert_eq. split; [done|]. cbn. set_solver.
      * symmetry. apply reported_fresh. intros y Hy E. apply list_elem_of_lookup in Hy as [k Hk].
        apply (oi_reports _ _ I) in Hk as (_ & _ & _ & d & Ed & _). congruence.
      * by rewrite remainder_zero.
    + intros Ed. pose proof (oi_children _ _ I _ _ Ed) as []. constructor; try done.
      destruct ck_parent0 as (q & Eq & Hq). destruct (HP' _ _ Eq) as (q' & Eq' & Hq'). eauto.
  - intros k y Hy. apply (oi_reports _ _ I) in Hy as (H1' & H2 & H3 & d & Ed & H4).
    split; [done|]. split; [done|]. split; [done|]. exists d. split; [|done].
    rewrite lookup_insert_ne; [done|]. congruence.
  - apply insert_keeps, I.
  - right. rewrite Z.add_simpl_r, lookup_insert_eq. by eexists.
Qed.

Lemma set_child_status_step n s f j t : oms_inv n s -> (forall c, f c <> Filled) ->
  step_ok (n + 1) s (set_child_status f j t s).
Proof.
  intros I Hf. unfold set_child_status. destruct (children_ s !! j) as [c|] eqn:EC; [|by apply unchanged].
  destruct (terminal_status (co_status c)) eqn:HT; [by apply unchanged|].
  set (c' := child_with c _ _ _ _).
  destruct (update_child_inv n s j c c' (execution_reports_ s) (next_execution_report_id_ s) t)
    as (p & Ep & I' & Ep'); try done.
  - apply I.
  - apply I.
  - destruct (oi_children _ _ I _ _ EC) as []. constructor; cbn; try done. by intros ?%Hf.
  - intros k r Hr. eapply report_ok_update; try done. by apply I.
  - unfold mbind, st_bind, notify_mutation, set_children in *. cbn [co_parent_id c' child_with].
    rewrite Ep'. split; [|done]. cbn [mret st_ret snd]. apply notify_inv. by eapply oms_inv_mono, I'; lia.
Qed.

Lemma check_fill_spec c price q fee x : check_fill c price q fee = Ok x ->
  terminal_status (co_status c) = false /\ dpositive price = true /\ dpositive q = true.
Proof.
  unfold check_fill, guard_or. cbn [mbind result_bind]. rewrite !validate_positive_spec.
  by destruct (terminal_status _), (dpositive price), (dpositive q).
Qed.

Lemma check_fill_throws c price q fee e : check_fill c price q fee = Throw e ->
  match e with invalid_argument _ | logic_error _ => True | _ => False end.
Proof.
  unfold check_fill, guard_or. cbn [mbind result_bind]. rewrite !validate_positive_spec.
  destruct (negb (terminal_status _)), (dpositive price), (dpositive q), (isfinite fee && _),
    (negb (dgt _ _)); by intros [= <-].
Qed.

Lemma record_fill_step n s j price q fee t : oms_inv n s -> n < 2 ^ 64 - 2 ->
  step_ok (n + 1) s (oms_exec (OFill j price q fee t) s).
Proof.
  intros I Hn. cbn [oms_exec]. unfold mbind, st_bind at 1, record_fill.
  destruct (children_ s !! j) as [c|] eqn:EC; [|by apply refused].
  destruct (check_fill c price q fee) as [x|e] eqn:E; [|by eapply refused, check_fill_throws].
  apply check_fill_spec in E as (HT & Hp & Hq). set (c' := child_with c _ _ _ _).
  set (r := {| xr_id := _ |}). pose proof (oi_reports_bound _ _ I). pose proof (oi_next_report _ _ I) as HN.
  pose proof (oi_children _ _ I _ _ EC) as HC.
  destruct (update_child_inv (n + 1) s j c c' (execution_reports_ s ++ [r])
    (u64 (next_execution_report_id_ s + 1)) t) as (p & Ep & I' & Ep'); try done.
  - eapply oms_inv_mono, I. lia.
  - rewrite HN, u64_small by (unfold in_u64; lia). rewrite length_app. cbn. lia.
  - rewrite length_app. cbn. lia.
  - destruct HC. constructor; cbn; try done.
    + rewrite reported_app. by rewrite decide_True, ck_filled0 by done.
    + intros HS. revert HS. by case_if.
  - intros i Hi. rewrite reported_app, decide_False; [done|]. cbn. rewrite (ck_id _ _ _ _ HC). congruence.
  - intros k x' [Hx|(Hl & Hx)]%lookup_snoc_Some.
    + eapply report_ok_update; try done. apply I. by destruct Hx.
    + subst x'. split; [cbn; lia|]. split; [done|]. split; [done|]. exists c'. cbn.
      rewrite (ck_id _ _ _ _ HC), lookup_insert_eq. done.
  - unfold mbind, st_bind, notify_mutation, set_children, push_report in *. cbn [co_parent_id c' child_with].
    cbn [next_parent_id_ next_child_id_ next_execution_report_id_ parents_ children_ execution_reports_ notified] in *.
    rewrite Ep'. split; [|done]. cbn [mret st_ret snd]. by apply notify_inv.
Qed.

(** ** Cancelling a parent *)

Definition cancelled (t : Z) (c : ChildOrder) : ChildOrder :=
  if terminal_status (co_status c) then c else child_with c (co_filled c) (co_remaining c) Cancelled t.

Lemma cancel_open_lookup t cs id i :
  cancel_open t cs id !! i = (if decide (i = id) then cancelled t else fun c => c) <$> cs !! i.
Proof.
  unfold cancel_open, cancelled. case_decide as D.
  - subst i. destruct (cs !! id) as [c|] eqn:E; simpl; [|by rewrite E].
    destruct (terminal_status _) eqn:HT; [by rewrite E|]. by rewrite lookup_insert_eq.
  - rewrite option_fmap_id. destruct (cs !! id) as [c|]; [|done].
    destruct (terminal_status _); [done|]. by rewrite lookup_insert_ne.
Qed.

Lemma cancelled_idemp t c : cancelled t (cancelled t c) = cancelled t c.
Proof. unfold cancelled. destruct (terminal_status (co_status c)) eqn:E; simpl; by rewrite ?E. Qed.

Lemma cancel_all_lookup t ids cs i :
  foldl (cancel_open t) cs ids !! i =
  (if decide (i ∈ ids) then cancelled t else fun c => c) <$> cs !! i.
Proof.
  revert cs. induction ids as [|id ids IH]; intros cs; cbn [foldl].
  - rewrite decide_False by set_solver. by rewrite option_fmap_id.
  - rewrite IH, cancel_open_lookup, <- option_fmap_compose.
    destruct (cs !! i) as [c|]; [|by repeat case_decide]. simpl. f_equal.
    destruct (decide (i = id)), (decide (i ∈ ids)), (decide (i ∈ id :: ids));
      first [by rewrite ?cancelled_idemp|set_solver].
Qed.

Lemma cancelled_same t c : co_id (cancelled t c) = co_id c /\ co_parent_id (cancelled t c) = co_parent_id c /\
  co_venue (cancelled t c) = co_venue c /\ co_quantity (cancelled t c) = co_quantity c /\
  co_filled (cancelled t c) = co_filled c /\ co_remaining (cancelled t c) = co_remaining c /\
  terminal_status (co_status (cancelled t c)) = true /\
  (co_status (cancelled t c) = Filled -> co_status c = Filled).
Proof. unfold cancelled. destruct (terminal_status (co_status c)) eqn:E; by repeat split. Qed.

Lemma cancel_parent_step n s i t : oms_inv n s -> step_ok (n + 1) s (cancel_parent i t s).
Proof.
  intros I. unfold cancel_parent. destruct (parents_ s !! i) as [p|] eqn:Ep; [|by apply unchanged].
  destruct (terminal_status (po_status p)) eqn:HT; [by apply unchanged|].
  split; [|done]. cbn [snd]. apply notify_inv. apply (oms_inv_mono n); [lia|].
  pose proof (oi_parents _ _ I _ _ Ep) as HP. set (cs := foldl _ _ _). set (p' := parent_with p _ _ _ _ _).
  assert (forall j c, children_ s !! j = Some c -> exists c', cs !! j = Some c' /\
    (c' = c \/ c' = cancelled t c)) as HC.
  { intros j c Ec. unfold cs. rewrite cancel_all_lookup, Ec. case_decide; simpl; eauto. }
  assert (forall j c', cs !! j = Some c' -> exists c, children_ s !! j = Some c /\
    (c' = c \/ c' = cancelled t c)) as HC'.
  { intros j c'. unfold cs. rewrite cancel_all_lookup. destruct (children_ s !! j) as [c|]; [|done].
    case_decide; intros [= <-]; eauto. }
  assert (forall j, co_filled <$> cs !! j = co_filled <$> children_ s !! j) as HF.
  { intros j. unfold cs. rewrite cancel_all_lookup. destruct (children_ s !! j) as [c|]; [|done].
    case_decide; [|done]. simpl. f_equal. apply cancelled_same. }
  assert (forall j id c, (exists c, children_ s !! id = Some c /\ co_parent_id c = j) ->
    cs !! id = Some c -> co_parent_id c = j) as HPar.
  { intros j id c' (c & Ec & Hc) (d & Ed & [-> | ->])%HC'; simplify_eq; [done|]. apply cancelled_same. }
  constructor; cbn [set_parents set_children next_parent_id_ next_child_id_
    next_execution_report_id_ parents_ children_ execution_reports_]; try apply I.
  - intros j q. rewrite lookup_insert. case_decide; [|apply I]. intros _. subst. by eapply oi_parent_ids.
  - intros j c' (c & Ec & _)%HC'. by apply (oi_child_ids _ _ I) in Ec.
  - intros j q Eq. assert (exists q0, parents_ s !! j = Some q0 /\ (q = q0 /\ j <> i \/ j = i /\ q = p'))
      as (q0 & Eq0 & HQ).
    { revert Eq. rewrite lookup_insert. case_decide as D; [intros [= <-]; subst; eauto|eauto 6]. }
    pose proof (oi_parents _ _ I _ _ Eq0) as [].
    assert (po_child_ids q = po_child_ids q0 /\ po_id q = po_id q0 /\ po_quantity q = po_quantity q0 /\
      po_filled q = po_filled q0 /\ po_remaining q = po_remaining q0) as (E1 & E2 & E3 & E4 & E5).
    { destruct HQ as [[-> _]|[-> ->]]; [done|]. rewrite Ep in Eq0. by injection Eq0 as <-. }
    constructor; rewrite ?E1, ?E2, ?E3, ?E4, ?E5; try done.
    + intros id Hid. destruct (pk_children0 id Hid) as (c & Ec & Hc). destruct (HC _ _ Ec) as (c' & Ec' & _).
      exists c'. split; [done|]. eapply HPar; [|done]. eauto.
    + rewrite pk_filled0. f_equal. apply children_filled_ext. intros id _. by rewrite HF.
    + destruct HQ as [[-> _]|[-> ->]]; [done|]. cbn. done.
    + destruct HQ as [[-> HN]|[-> ->]].
      * intros HS id c' Hid (c & Ec & HE)%HC'. pose proof (pk_cancelled0 HS id c Hid Ec).
        destruct HE as [-> | ->]; [done|]. apply cancelled_same.
      * intros _ id c' Hid. unfold cs. rewrite cancel_all_lookup. rewrite Ep in Eq0. injection Eq0 as <-.
        rewrite decide_True by done. destruct (children_ s !! id); [|done]. intros [= <-].
        apply cancelled_same.
  - intros j c' (c & Ec & HE)%HC'. pose proof (oi_children _ _ I _ _ Ec) as [].
    assert (exists q, <[i:=p']> (parents_ s) !! co_parent_id c = Some q /\ j ∈ po_child_ids q) as HP'.
    { destruct ck_parent0 as (q & Eq & Hq). rewrite lookup_insert. case_decide as D; [|eauto].
      exists p'. split; [done|]. subst i. rewrite Ep in Eq. by injection Eq as <-. }
    destruct HE as [-> | ->]; [by constructor|].
    destruct (cancelled_same t c) as (F1 & F2 & F3 & F4 & F5 & F6 & F7 & F8).
    constructor; rewrite ?F1, ?F2, ?F4, ?F5, ?F6; auto.
  - intros k r Hr. destruct (oi_reports _ _ I _ _ Hr) as (H1 & H2 & H3 & c & Ec & H4 & H5).
    split; [done|]. split; [done|]. split; [done|]. destruct (HC _ _ Ec) as (c' & Ec' & [-> | ->]).
    + eauto.
    + destruct (cancelled_same t c) as (_ & F2 & F3 & _). exists (cancelled t c). by rewrite F2, F3.
  - apply insert_keeps, I.
  - destruct (oi_last_child _ _ I) as [|[c Ec]]; [by left|right].
    destruct (HC _ _ Ec) as (c' & -> & _). by eexists.
Qed.

Lemma oms_step n s c : oms_inv n s -> n < 2 ^ 64 - 2 -> step_ok (n + 1) s (oms_exec c s).
Proof.
  intros I Hn. destruct c.
  - by apply create_parent_step.
  - by apply create_child_step.
  - apply set_child_status_step; [done|]. intros c. by case_if.
  - by apply record_fill_step.
  - by apply set_child_status_step.
  - by apply set_child_status_step.
  - by apply cancel_parent_step.
Qed.

Lemma run_inv cs : Z.of_nat (length cs) < 2 ^ 64 - 1 -> oms_inv (Z.of_nat (length cs)) (run cs).
Proof.
  unfold run. induction cs as [|c cs IH] using rev_ind; [intros _; apply oms_inv_init|].
  rewrite length_app, foldl_app. cbn [foldl length]. intros H.
  replace (Z.of_nat (length cs + 1)) with (Z.of_nat (length cs) + 1) by lia.
  apply oms_step; [apply IH; lia|lia].
Qed.

(** ** Main properties *)

Lemma children_filled_list i s p : find_parent i s = Some p ->
  children_filled (children_ s) (po_child_ids p) =
  foldl dadd dzero (co_filled <$> children_for_parent i s).
Proof.
  unfold find_parent, children_for_parent, children_filled. intros ->. generalize dzero.
  induction (po_child_ids p) as [|id ids IH]; intros a; [done|]. simpl.
  destruct (children_ s !! id); simpl; apply IH.
Qed.

(** C10: the books of the system balance after any commands: a parent is filled
    by what its children are, clamped at its quantity, a child by what its
    execution reports say; what remains is the rest of the quantity, parents and
    children refer to each other, a filled order has nothing left, a cancelled
    parent has no open child, and the reports are numbered 1, 2, 3, .... *)
Theorem oms_books_balance cs :
  Z.of_nat (length cs) < 2 ^ 64 - 1 -> let s := run cs in
  (forall i p, find_parent i s = Some p ->
     po_id p = i /\ co_id <$> children_for_parent i s = po_child_ids p /\ NoDup (po_child_ids p) /\
     po_filled p = dmin (po_quantity p) (foldl dadd dzero (co_filled <$> children_for_parent i s)) /\
     po_remaining p = dmax dzero (dsub (po_quantity p) (po_filled p)) /\
     (po_status p = Filled -> dle (po_remaining p) epsilon = true) /\
     (po_status p = Cancelled ->
        Forall (fun c => terminal_status (co_status c) = true) (children_for_parent i s))) /\
  (forall i c, find_child i s = Some c ->
     co_id c = i /\ c ∈ children_for_parent (co_parent_id c) s /\
     co_filled c = foldl dadd dzero
       (xr_quantity <$> filter (fun r => xr_child_id r = i) (execution_reports_ s)) /\
     co_remaining c = dmax dzero (dsub (co_quantity c) (co_filled c)) /\
     (co_status c = Filled -> dle (co_remaining c) epsilon = true)) /\
  (forall k r, execution_reports_ s !! k = Some r -> xr_id r = Z.of_nat k + 1 /\
     exists c, find_child (xr_child_id r) s = Some c /\ co_parent_id c = xr_parent_id r).
Proof.
  intros HL s. pose proof (run_inv cs HL) as I. fold s in I.
  assert (forall i p id c, find_parent i s = Some p -> id ∈ po_child_ids p ->
    children_ s !! id = Some c -> c ∈ children_for_parent i s) as HIn.
  { intros i p id c Ep Hid Ec. unfold children_for_parent. unfold find_parent in Ep. rewrite Ep.
    apply list_elem_of_omap. eauto. }
  split; [|split].
  - intros i p Ep. pose proof (oi_parents _ _ I _ _ Ep) as []. rewrite <- (children_filled_list i s p Ep).
    split; [done|]. split; [|split; [done|split; [done|split; [done|split; [done|]]]]].
    + unfold children_for_parent. unfold find_parent in Ep. rewrite Ep. clear - I pk_children0.
      induction (po_child_ids p) as [|id ids IH]; [done|]. simpl.
      destruct (pk_children0 id) as (c & Ec & _); [set_solver|]. rewrite Ec. simpl.
      f_equal; [by apply (ck_id _ _ _ _ (oi_children _ _ I _ _ Ec))|apply IH; set_solver].
    + intros HS. apply Forall_forall. intros c. unfold children_for_parent. unfold find_parent in Ep.
      rewrite Ep, list_elem_of_omap. intros (id & Hid & Ec). by eapply pk_cancelled0.
  - intros i c Ec. pose proof (oi_children _ _ I _ _ Ec) as [].
    destruct ck_parent0 as (p & Ep & Hi). split; [done|]. split; [by eapply HIn|]. done.
  - intros k r Hr. destruct (oi_reports _ _ I _ _ Hr) as (H1 & _ & _ & c & Ec & H2 & _). eauto.
Qed.

(** ** What no command changes *)

Definition frozen (s s' : Oms) : Prop :=
  (forall i c, children_ s !! i = Some c -> terminal_status (co_status c) = true ->
     children_ s' !! i = Some c) /\
  (forall i p, parents_ s !! i = Some p -> po_status p = Cancelled -> parents_ s' !! i = Some p) /\
  execution_reports_ s `prefix_of` execution_reports_ s'.

Lemma frozen_refl s : frozen s s.
Proof. by repeat split. Qed.

Lemma refresh_frozen s s1 i t :
  (forall k c, children_ s !! k = Some c -> terminal_status (co_status c) = true ->
     children_ s1 !! k = Some c) ->
  parents_ s1 = parents_ s -> execution_reports_ s `prefix_of` execution_reports_ s1 ->
  frozen s (refresh_parent i t s1).
Proof.
  intros HC HP HR. unfold refresh_parent. rewrite HP.
  destruct (parents_ s !! i) as [p|] eqn:Ep; [|by split; [|split; rewrite ?HP]].
  split; [done|]. split; [|done]. intros k q Eq HS. cbn. rewrite lookup_insert.
  case_decide as D; [|done]. subst k. rewrite Ep in Eq. injection Eq as ->.
  unfold refreshed. by rewrite bool_decide_eq_true_2.
Qed.

Lemma notify_mutation_frozen {A} s s1 ty i c f (x : A) :
  frozen s s1 -> frozen s ((notify_mutation ty i c f;; mret x) s1).2.
Proof. intros H. unfold mbind, st_bind, notify_mutation. by destruct (parents_ s1 !! i). Qed.

Lemma set_child_status_frozen f j t s : frozen s (set_child_status f j t s).2.
Proof.
  unfold set_child_status. destruct (children_ s !! j) as [c|] eqn:EC; [|apply frozen_refl].
  destruct (terminal_status (co_status c)) eqn:HT; [apply frozen_refl|].
  apply notify_mutation_frozen, refresh_frozen; [|done|done]. intros k d Ed HS. cbn.
  rewrite lookup_insert_ne; [done|]. congruence.
Qed.

Lemma oms_exec_frozen n s c : oms_inv n s -> frozen s (oms_exec c s).2.
Proof.
  intros I. destruct c; cbn [oms_exec]; try apply set_child_status_frozen.
  - unfold mbind, st_bind at 1, create_parent. case_bool_decide; [apply frozen_refl|].
    destruct (validate_positive _ _); [|apply frozen_refl].
    match goal with |- frozen _ (let (_, _) := ?x in _).2 => enough (frozen s x.2) by (by destruct x as [[] ]) end.
    apply notify_mutation_frozen. split; [done|]. split; [|done]. intros i p Ep _. cbn.
    rewrite emplace_fresh, lookup_insert_ne; [done| |by apply (fresh_parent n)].
    apply (oi_parent_ids _ _ I) in Ep. lia.
  - unfold mbind, st_bind at 1, create_child.
    destruct (parents_ s !! crq_parent_id request) as [p|] eqn:Ep; [|apply frozen_refl].
    destruct (check_child request p) as [x|] eqn:EC; [|apply frozen_refl].
    apply check_child_spec in EC as (HT & _). set (s1 := set_parents _ _).
    match goal with |- frozen _ (let (_, _) := ?x in _).2 => enough (frozen s x.2) by (by destruct x as [[] ]) end.
    assert (frozen s s1) as HF.
    { split; [|split; [|done]].
      - intros i c Ec _. cbn. rewrite emplace_fresh, lookup_insert_ne; [done| |by apply (fresh_child n)].
        apply (oi_child_ids _ _ I) in Ec. lia.
      - intros i q Eq HS. cbn. rewrite lookup_insert_ne; [done|]. intros <-. rewrite Ep in Eq.
        injection Eq as ->. by rewrite HS in HT. }
    destruct (children_ s1 !! _); [by apply notify_mutation_frozen|done].
  - unfold mbind, st_bind at 1, record_fill.
    destruct (children_ s !! child_id) as [c|] eqn:EC; [|apply frozen_refl].
    destruct (check_fill _ _ _ _) as [x|] eqn:E; [|apply frozen_refl].
    apply check_fill_spec in E as (HT & _).
    match goal with |- frozen _ (let (_, _) := ?x in _).2 => enough (frozen s x.2) by (by destruct x as [[] ]) end.
    apply notify_mutation_frozen, refresh_frozen; [|done|by eexists]. intros k d Ed HS. cbn.
    rewrite lookup_insert_ne; [done|]. congruence.
  - unfold cancel_parent. destruct (parents_ s !! parent_id) as [p|] eqn:Ep; [|apply frozen_refl].
    destruct (terminal_status (po_status p)) eqn:HT; [apply frozen_refl|].
    split; [|split; [|done]]; cbn.
    + intros i c Ec HS. rewrite cancel_all_lookup, Ec. case_decide; simpl; [|done].
      unfold cancelled. by rewrite HS.
    + intros i q Eq HS. rewrite lookup_insert_ne; [done|]. intros <-. rewrite Ep in Eq.
      injection Eq as ->. by rewrite HS in HT.
Qed.


(** The size of a child is checked against what is not filled yet, not against
    what other open children may still fill: two children of 10 for a parent of
    10 both fill, and the clamp hides it. *)
Definition overfill_commands : list OmsCommand :=
  [OCreateParent {| prq_symbol := "BTC"; prq_side := RouteBuy; prq_quantity := dbl 10;
                    prq_algorithm := AlgoMarket |} 1;
   OCreateChild {| crq_parent_id := 1; crq_venue := "A"; crq_price := dbl 5;
                   crq_quantity := dbl 10; crq_created := 2 |};
   OCreateChild {| crq_parent_id := 1; crq_venue := "B"; crq_price := dbl 6;
                   crq_quantity := dbl 10; crq_created := 3 |};
   OFill 1 (dbl 5) (dbl 10) dzero 4; OFill 2 (dbl 6) (dbl 10) dzero 5].

Example children_overfill_parent :
  let s := run overfill_commands in
  foldl dadd dzero (co_filled <$> children_for_parent 1 s) = dbl 20 /\
  (po_filled <$> find_parent 1 s) = Some (dbl 10) /\
  (po_quantity <$> find_parent 1 s) = Some (dbl 10).
Proof. by vm_compute. Qed.

(** ** Witnesses *)

Definition demo_parent : ParentOrder :=
  default {| po_id := 0; po_symbol := ""; po_side := RouteBuy; po_algorithm := POV;
             po_quantity := dzero; po_filled := dzero; po_remaining := dzero; po_status := New;
             po_created := 0; po_updated := 0; po_child_ids := [] |}
    (find_parent 1 (run overfill_commands)).

Lemma oms_books_balance_witness :
  po_filled demo_parent = dmin (po_quantity demo_parent)
    (foldl dadd dzero (co_filled <$> children_for_parent 1 (run overfill_commands))).
Proof.
  assert (find_parent 1 (run overfill_commands) = Some demo_parent) as E by (by vm_compute).
  destruct (proj1 (oms_books_balance overfill_commands ltac:(vm_compute; done)) 1 demo_parent E)
    as (_ & _ & _ & H & _). exact H.
Defined.

