(* ===== verification/OmsRecovery.v ===== *)
(** * Recovery of the order management system

    The server saves what each mutation event carries in a store keyed by id
    and, after a restart, restores the system from the store (the callback in
    [api.cpp] and [OrderManagementSystem::restore]).  The store itself is
    SQLite; here it is the three maps it keeps: a parent or child replaces the one of
    its id, a fill does not, and texts hold no NUL, where SQLite would cut them. *)

From S2P Require Import Prelude.
From S2P Require Import Float.
From S2P Require Import Oms.
From S2P Require Import OmsProps.

Record Store := {
  st_parents : gmap Z ParentOrder;
  st_children : gmap Z ChildOrder;
  st_fills : gmap Z OmsExecutionReport
}.

Definition save_parent (p : ParentOrder) (st : Store) : Store :=
  {| st_parents := <[po_id p := p]> (st_parents st); st_children := st_children st;
     st_fills := st_fills st |}.

Definition save_child (st : Store) (c : ChildOrder) : Store :=
  {| st_parents := st_parents st; st_children := <[co_id c := c]> (st_children st);
     st_fills := st_fills st |}.

Definition save_fill (r : OmsExecutionReport) (st : Store) : Store :=
  {| st_parents := st_parents st; st_children := st_children st;
     st_fills := emplace (xr_id r) r (st_fills st) |}.

(** The persistence part of the callback; [s] is the system during the call. *)
Definition save_event (s : Oms) (st : Store) (e : MutationEvent) : Store :=
  let st := match ev_parent e with Some p => save_parent p st | None => st end in
  let st := match ev_child e with Some c => save_child st c | None => st end in
  let st := match ev_fill e with Some r => save_fill r st | None => st end in
  match ev_type e, ev_parent e with
  | ParentUpdated, Some p => foldl save_child st (children_for_parent (po_id p) s)
  | _, _ => st
  end.

(** A command and the callbacks it makes. *)
Definition saving_exec (x : Oms * Store) (c : OmsCommand) : Oms * Store :=
  let s' := (oms_exec c x.1).2 in
  (s', foldl (save_event s') x.2 (drop (length (notified x.1)) (notified s'))).

Definition run_saving (cs : list OmsCommand) : Oms * Store :=
  foldl saving_exec (new_oms, {| st_parents := ∅; st_children := ∅; st_fills := ∅ |}) cs.

(** ** The store mirrors the system *)

Definition fills_map (rs : list OmsExecutionReport) : gmap Z OmsExecutionReport :=
  foldl (fun m r => emplace (xr_id r) r m) ∅ rs.

Definition contents (s : Oms) : Store :=
  {| st_parents := parents_ s; st_children := children_ s;
     st_fills := fills_map (execution_reports_ s) |}.

Lemma run_saving_state cs : (run_saving cs).1 = run cs.
Proof.
  unfold run_saving, run. induction cs as [|c cs IH] using rev_ind; [done|].
  rewrite !foldl_app. cbn [foldl]. by rewrite <- IH.
Qed.

(** A step either changes nothing or makes one call, after which the store is
    up to date again. *)
Definition mirrored (s s' : Oms) : Prop :=
  s' = s \/ exists e, notified s' = notified s ++ [e] /\ save_event s' (contents s) e = contents s'.

Lemma notify_mirrored s s1 ty i c f p :
  notified s1 = notified s -> parents_ s1 !! i = Some p -> po_id p = i ->
  (match c with Some c => <[co_id c := c]> (children_ s) | None => children_ s end) = children_ s1 ->
  <[i := p]> (parents_ s) = parents_ s1 ->
  (match f with Some r => emplace (xr_id r) r (fills_map (execution_reports_ s))
   | None => fills_map (execution_reports_ s) end) = fills_map (execution_reports_ s1) ->
  ty <> ParentUpdated ->
  forall (A : Type) (x : A), mirrored s ((notify_mutation ty i c f;; mret x) s1).2.
Proof.
  intros HN Ep Hp HC HP HF HT A x. unfold mbind, st_bind, notify_mutation. rewrite Ep. right.
  eexists. cbn [mret st_ret snd notify notified]. split; [by rewrite HN|].
  unfold save_event. cbn [ev_parent ev_child ev_fill ev_type].
  destruct ty; try done;
    destruct c, f; unfold contents, save_parent, save_child, save_fill;
    cbn [st_parents st_children st_fills notify parents_ children_ execution_reports_];
    rewrite Hp, HP, <- HC, <- HF; done.
Qed.

Lemma bind_true_mirrored {A} (m : ST Oms A) s : mirrored s (m s).2 -> mirrored s ((m;; mret true) s).2.
Proof. unfold mbind, st_bind. by destruct (m s) as [[] ]. Qed.

Lemma refresh_notified i t s : notified (refresh_parent i t s) = notified s /\
  children_ (refresh_parent i t s) = children_ s /\
  execution_reports_ (refresh_parent i t s) = execution_reports_ s.
Proof. unfold refresh_parent. by destruct (parents_ s !! i). Qed.

(** The refreshed parent is what the event carries. *)
Lemma refresh_event n s s1 i t p ty c f {A} (x : A) :
  oms_inv n s -> parents_ s !! i = Some p -> parents_ s1 = parents_ s -> notified s1 = notified s ->
  (match c with Some c => <[co_id c := c]> (children_ s) | None => children_ s end) = children_ s1 ->
  (match f with Some r => emplace (xr_id r) r (fills_map (execution_reports_ s))
   | None => fills_map (execution_reports_ s) end) = fills_map (execution_reports_ s1) ->
  ty <> ParentUpdated ->
  mirrored s ((notify_mutation ty i c f;; mret x) (refresh_parent i t s1)).2.
Proof.
  intros I Ep HP HN HC HF HT. destruct (refresh_notified i t s1) as (E1 & E2 & E3).
  eapply (notify_mirrored _ _ _ _ _ _ (refreshed (children_ s1) t p)); try done.
  - by rewrite E1.
  - unfold refresh_parent. rewrite HP, Ep. cbn. by rewrite lookup_insert_eq.
  - pose proof (pk_id _ _ _ (oi_parents _ _ I _ _ Ep)). unfold refreshed. by case_bool_decide.
  - by rewrite E2.
  - unfold refresh_parent. by rewrite HP, Ep.
  - by rewrite E3.
Qed.

Lemma set_child_status_mirrored n f j t s : oms_inv n s -> mirrored s (set_child_status f j t s).2.
Proof.
  intros I. unfold set_child_status. destruct (children_ s !! j) as [c|] eqn:EC; [|by left].
  destruct (terminal_status (co_status c)); [by left|].
  pose proof (oi_children _ _ I _ _ EC) as HC. destruct (ck_parent _ _ _ _ HC) as (p & Ep & _).
  eapply (refresh_event n _ _ _ _ p); try done. cbn. by rewrite (ck_id _ _ _ _ HC).
Qed.

Lemma save_children (s' : Oms) ids st :
  (forall id c, children_ s' !! id = Some c -> co_id c = id) ->
  st_parents (foldl save_child st (omap (fun id => children_ s' !! id) ids)) = st_parents st /\
  st_fills (foldl save_child st (omap (fun id => children_ s' !! id) ids)) = st_fills st /\
  forall k, st_children (foldl save_child st (omap (fun id => children_ s' !! id) ids)) !! k =
    (if decide (k ∈ ids) then match children_ s' !! k with Some c => Some c | None => st_children st !! k end
     else st_children st !! k).
Proof.
  intros HID. revert st. induction ids as [|id ids IH]; intros st.
  - cbn. split; [done|]. split; [done|]. intros k. by rewrite decide_False by set_solver.
  - cbn [omap list_omap]. destruct (children_ s' !! id) as [c|] eqn:Ec; cbn [foldl].
    + destruct (IH (save_child st c)) as (H1 & H2 & H3). rewrite H1, H2. split; [done|]. split; [done|].
      intros k. rewrite H3. cbn [save_child st_children]. rewrite (HID _ _ Ec), lookup_insert.
      destruct (decide (k ∈ ids)) as [Hk|Hk]; [rewrite (decide_True _ _ (list_elem_of_further _ _ _ Hk))|].
      * case_decide; [subst|done]. by rewrite Ec.
      * case_decide as D; [subst k; by rewrite decide_True, Ec by constructor|].
        rewrite decide_False; [done|]. by intros [->|]%elem_of_cons.
    + destruct (IH st) as (H1 & H2 & H3). rewrite H1, H2. split; [done|]. split; [done|].
      intros k. rewrite H3. destruct (decide (k ∈ ids)), (decide (k ∈ id :: ids)); try done; [set_solver|].
      assert (k = id) as -> by set_solver. by rewrite Ec.
Qed.

Lemma cancel_parent_mirrored n i t s : oms_inv n s -> mirrored s (cancel_parent i t s).2.
Proof.
  intros I. pose proof (cancel_parent_step n s i t I) as [I' _]. revert I'. unfold cancel_parent.
  destruct (parents_ s !! i) as [p|] eqn:Ep; [|by left].
  destruct (terminal_status (po_status p)); [by left|]. cbn [snd]. intros I'.
  pose proof (pk_id _ _ _ (oi_parents _ _ I _ _ Ep)) as Hid. right.
  eexists. split; [done|]. unfold save_event. cbn [ev_parent ev_child ev_fill ev_type].
  set (s' := notify _ _) in *. set (p' := parent_with p _ _ _ _ _) in *.
  assert (children_for_parent (po_id p') s' = omap (fun id => children_ s' !! id) (po_child_ids p)) as ->.
  { unfold children_for_parent. cbn. by rewrite Hid, lookup_insert_eq. }
  destruct (save_children s' (po_child_ids p) (save_parent p' (contents s))) as (H1 & H2 & H3).
  { intros id c Ec. by apply (ck_id _ _ _ _ (oi_children _ _ I' _ _ Ec)). }
  destruct (foldl save_child _ _) as [sp sc sf]. cbn [st_parents st_fills st_children] in *.
  unfold contents. f_equal; [by rewrite H1; cbn; rewrite Hid| |by rewrite H2].
  apply map_eq. intros k. rewrite H3. cbn. rewrite cancel_all_lookup.
  destruct (children_ s !! k); case_decide; done.
Qed.

Lemma oms_exec_mirrored n c s : oms_inv n s -> mirrored s (oms_exec c s).2.
Proof.
  intros I. destruct c; cbn [oms_exec]; try (by eapply set_child_status_mirrored).
  - apply bind_true_mirrored. unfold create_parent. case_bool_decide; [by left|].
    destruct (validate_positive _ _); [|by left].
    eapply notify_mirrored; try done; cbn.
    + rewrite emplace_fresh by exact (fresh_parent n s I). by rewrite lookup_insert_eq.
    + done.
    + by rewrite emplace_fresh by exact (fresh_parent n s I).
  - apply bind_true_mirrored. unfold create_child.
    destruct (parents_ s !! crq_parent_id request) as [p|] eqn:Ep; [|by left].
    destruct (check_child request p); [|by left].
    rewrite emplace_fresh by exact (fresh_child n s I).
    cbn [set_parents set_children set_next children_ next_parent_id_]. rewrite lookup_insert_eq.
    eapply notify_mirrored; try done; cbn; [by rewrite lookup_insert_eq|].
    cbn. apply (pk_id _ _ _ (oi_parents _ _ I _ _ Ep)).
  - apply bind_true_mirrored. unfold record_fill.
    destruct (children_ s !! child_id) as [c|] eqn:EC; [|by left].
    destruct (check_fill _ _ _ _); [|by left].
    pose proof (oi_children _ _ I _ _ EC) as HC. destruct (ck_parent _ _ _ _ HC) as (p & Ep & _).
    eapply (refresh_event n _ _ _ _ p); try done; cbn; [by rewrite (ck_id _ _ _ _ HC)|].
    unfold fills_map. by rewrite foldl_app.
  - by eapply cancel_parent_mirrored.
Qed.

Lemma run_saving_mirror cs : Z.of_nat (length cs) < 2 ^ 64 - 1 -> (run_saving cs).2 = contents (run cs).
Proof.
  induction cs as [|c cs IH] using rev_ind; intros HL; [done|]. rewrite length_app in HL. cbn in HL.
  unfold run_saving in *. rewrite foldl_app. cbn [foldl]. unfold saving_exec at 1. cbn [snd].
  rewrite IH by lia. pose proof (run_saving_state cs) as HS. unfold run_saving in HS. rewrite HS.
  assert (run (cs ++ [c]) = (oms_exec c (run cs)).2) as -> by (unfold run; by rewrite foldl_app).
  pose proof (run_inv cs ltac:(lia)) as I.
  destruct (oms_exec_mirrored _ c _ I) as [-> | (e & EN & ES)].
  - by rewrite drop_ge by done.
  - by rewrite EN, drop_app_length.
Qed.

(** ** Restoring *)

Lemma foldl_max_next {A} (f : A -> Z) l N :
  (forall x, x ∈ l -> 0 <= f x /\ f x + 1 <= N) -> (N = 1 \/ exists x, x ∈ l /\ f x + 1 = N) ->
  1 <= N < 2 ^ 64 -> foldl (fun n x => Z.max n (u64 (f x + 1))) 1 l = N.
Proof.
  intros H1 H2 H3.
  assert (forall m, foldl (fun n x => Z.max n (u64 (f x + 1))) m l =
    foldr Z.max m ((fun x => f x + 1) <$> l)) as ->.
  { clear H2. induction l as [|x l IH]; intros m; [done|]. cbn. rewrite IH by (intros; apply H1; set_solver).
    rewrite u64_small by (unfold in_u64; pose proof (H1 x ltac:(set_solver)); lia).
    clear. generalize (f x + 1). intros z. induction l as [|y l IH]; cbn; lia. }
  apply Z.le_antisymm.
  - clear H2. induction l as [|x l IH]; cbn; [lia|]. pose proof (H1 x ltac:(set_solver)).
    apply Z.max_lub; [lia|]. apply IH. intros; apply H1; set_solver.
  - destruct H2 as [->|(x & Hx & <-)].
    + clear. induction l; cbn; lia.
    + clear H1. induction Hx; cbn; lia.
Qed.

Lemma foldl_emplace {A} (f : A -> Z) (l : list A) (m : gmap Z A) :
  l ≡ₚ (map_to_list m).*2 -> (forall k x, m !! k = Some x -> f x = k) ->
  foldl (fun m x => emplace (f x) x m) ∅ l = m.
Proof.
  intros HP HK.
  assert (forall x, x ∈ l <-> m !! f x = Some x) as Hin.
  { intros x. rewrite HP, list_elem_of_fmap. split.
    - intros ([k y] & -> & Hy%elem_of_map_to_list). cbn. by rewrite (HK _ _ Hy).
    - intros Hx. exists (f x, x). split; [done|]. by apply elem_of_map_to_list. }
  assert (forall x y, x ∈ l -> y ∈ l -> f x = f y -> x = y) as Hinj.
  { intros x y Hx%Hin Hy%Hin E. rewrite E in Hx. congruence. }
  assert (forall l', (forall x, x ∈ l' -> x ∈ l) -> forall k y,
    foldl (fun m x => emplace (f x) x m) ∅ l' !! k = Some y <-> y ∈ l' /\ f y = k) as Hlook.
  { intros l'. induction l' as [|x l' IH] using rev_ind; intros HS k y.
    - cbn. rewrite lookup_empty. set_solver.
    - rewrite foldl_app. cbn. unfold emplace. specialize (IH ltac:(set_solver)).
      destruct (foldl _ _ l' !! f x) as [z|] eqn:Ez.
      + rewrite IH. apply IH in Ez as [Hz Ez]. assert (x = z) as -> by (apply Hinj; set_solver). set_solver.
      + rewrite lookup_insert. case_decide as D.
        * subst k. split; [intros [= <-]; set_solver|]. intros [Hy E]. f_equal. apply Hinj; set_solver.
        * rewrite IH. set_solver. }
  apply map_eq. intros k. apply option_eq. intros y. rewrite (Hlook l) by done. rewrite Hin.
  split; [by intros [? <-]|]. intros Ek. by rewrite (HK _ _ Ek).
Qed.

Lemma reports_sorted n s : oms_inv n s ->
  StronglySorted (fun r r' => xr_id r < xr_id r') (execution_reports_ s).
Proof.
  intros I. assert (forall rs m, (forall (k : nat) r, rs !! k = Some r -> xr_id r = m + Z.of_nat k) ->
    StronglySorted (fun r r' => xr_id r < xr_id r') rs) as H.
  { clear. induction rs as [|r rs IH]; intros m H; constructor.
    - apply (IH (m + 1)). intros k r' Hr. rewrite (H (S k) r') by done. lia.
    - apply Forall_lookup. intros k r' Hr. pose proof (H 0%nat r eq_refl). pose proof (H (S k) r' Hr). lia. }
  apply (H _ 1). intros k r Hr. destruct (oi_reports _ _ I _ _ Hr) as [-> _]. lia.
Qed.

Lemma fills_map_list rs :
  NoDup (xr_id <$> rs) -> (map_to_list (fills_map rs)).*2 ≡ₚ rs /\
  forall k, k ∉ xr_id <$> rs -> fills_map rs !! k = None.
Proof.
  unfold fills_map. induction rs as [|r rs IH] using rev_ind; intros HN.
  - cbn. split; [by rewrite map_to_list_empty|]. intros k _. apply lookup_empty.
  - rewrite fmap_app, NoDup_app in HN. destruct HN as (HN & Hr & _). destruct (IH HN) as [IH1 IH2].
    assert (foldl (fun m r => emplace (xr_id r) r m) ∅ rs !! xr_id r = None) as HF
      by (apply IH2; intros H%Hr; by apply H, list_elem_of_singleton).
    rewrite foldl_app. cbn [foldl]. rewrite emplace_fresh by done. split.
    + rewrite map_to_list_insert by done. cbn. rewrite IH1. apply Permutation_cons_append.
    + intros k Hk. rewrite fmap_app, not_elem_of_app in Hk. destruct Hk as [Hk1 Hk2].
      rewrite lookup_insert_ne; [by apply IH2|]. intros <-. by apply Hk2, list_elem_of_singleton.
Qed.

(** Nothing is lost over a restart: after any commands, restoring any
    system from what the callbacks have saved (the parents and children in any
    order, the fills by their ids, as the store returns them) gives the same
    parents, children and reports, and the next identifiers continue. *)
Theorem oms_recovers cs ps chs rs s0 :
  Z.of_nat (length cs) < 2 ^ 64 - 2 ->
  let st := (run_saving cs).2 in
  ps ≡ₚ (map_to_list (st_parents st)).*2 -> chs ≡ₚ (map_to_list (st_children st)).*2 ->
  rs ≡ₚ (map_to_list (st_fills st)).*2 -> StronglySorted (fun r r' => xr_id r < xr_id r') rs ->
  let s := run cs in let s' := restore ps chs rs s0 in
  parents_ s' = parents_ s /\ children_ s' = children_ s /\
  execution_reports_ s' = execution_reports_ s /\ next_parent_id_ s' = next_parent_id_ s /\
  next_child_id_ s' = next_child_id_ s /\
  next_execution_report_id_ s' = next_execution_report_id_ s.
Proof.
  intros HL st HP HC HR HS s s'. unfold st in *. rewrite run_saving_mirror in * by lia. fold s in HP, HC, HR.
  pose proof (run_inv cs ltac:(lia)) as I. fold s in I. cbn [contents st_parents st_children st_fills] in *.
  pose proof (reports_sorted _ _ I) as HS'.
  assert (NoDup (xr_id <$> execution_reports_ s)) as ND.
  { clear -HS'. induction HS' as [|r rs _ IH HF]; constructor; [|done].
    intros (r' & E & Hr)%list_elem_of_fmap. rewrite Forall_forall in HF. specialize (HF _ Hr). lia. }
  rewrite (proj1 (fills_map_list _ ND)) in HR.
  assert (rs = execution_reports_ s) as ->.
  { eapply StronglySorted_unique_strong; [|exact HS|exact HS'|done]. intros x y _ _. cbv beta. lia. }
  split; [|split; [|split; [done|split; [|split]]]]; cbn.
  - apply foldl_emplace; [done|]. intros k p Ep. apply (pk_id _ _ _ (oi_parents _ _ I _ _ Ep)).
  - apply foldl_emplace; [done|]. intros k c Ec. apply (ck_id _ _ _ _ (oi_children _ _ I _ _ Ec)).
  - pose proof (oi_next_parent _ _ I). apply foldl_max_next; [| |lia].
    + intros p. rewrite HP, list_elem_of_fmap. intros ([k q] & -> & Hq%elem_of_map_to_list). cbn.
      rewrite (pk_id _ _ _ (oi_parents _ _ I _ _ Hq)). apply (oi_parent_ids _ _ I) in Hq. lia.
    + destruct (oi_last_parent _ _ I) as [|[p Hp]]; [by left|right]. exists p.
      rewrite HP, list_elem_of_fmap, (pk_id _ _ _ (oi_parents _ _ I _ _ Hp)). split; [|lia].
      eexists (_, p). split; [done|]. by apply elem_of_map_to_list.
  - pose proof (oi_next_child _ _ I). apply foldl_max_next; [| |lia].
    + intros p. rewrite HC, list_elem_of_fmap. intros ([k q] & -> & Hq%elem_of_map_to_list). cbn.
      rewrite (ck_id _ _ _ _ (oi_children _ _ I _ _ Hq)). apply (oi_child_ids _ _ I) in Hq. lia.
    + destruct (oi_last_child _ _ I) as [|[p Hp]]; [by left|right]. exists p.
      rewrite HC, list_elem_of_fmap, (ck_id _ _ _ _ (oi_children _ _ I _ _ Hp)). split; [|lia].
      eexists (_, p). split; [done|]. by apply elem_of_map_to_list.
  - rewrite (oi_next_report _ _ I). pose proof (oi_reports_bound _ _ I). apply foldl_max_next; [| |lia].
    + intros r [k Hk]%list_elem_of_lookup. destruct (oi_reports _ _ I _ _ Hk) as [-> _].
      apply lookup_lt_Some in Hk. lia.
    + destruct (last (execution_reports_ s)) as [r|] eqn:E;
        [right|left; by apply last_None in E as ->].
      exists r. split; [by apply last_Some_elem_of|]. rewrite last_lookup in E.
      destruct (oi_reports _ _ I _ _ E) as [-> _]. apply lookup_lt_Some in E. lia.
Qed.

(** ** Witness *)

Definition saved : Store := (run_saving overfill_commands).2.

Lemma oms_recovers_witness :
  let s' := restore (map_to_list (st_parents saved)).*2 (map_to_list (st_children saved)).*2
    (execution_reports_ (run overfill_commands)) new_oms in
  parents_ s' = parents_ (run overfill_commands) /\ next_child_id_ s' = 3.
Proof.
  destruct (oms_recovers overfill_commands (map_to_list (st_parents saved)).*2
    (map_to_list (st_children saved)).*2 (execution_reports_ (run overfill_commands)) new_oms)
    as (H1 & _ & _ & _ & H2 & _).
  - by vm_compute.
  - done.
  - done.
  - vm_compute. apply perm_swap.
  - apply (reports_sorted 5), (run_inv overfill_commands). by vm_compute.
  - split; [exact H1|]. exact H2.
Defined.
