(* ===== verification/Router.v ===== *)
(** * The smart order router ([router.hpp], [router.cpp])

    A plan spreads an order over the price levels of the venues, best price
    after costs first.  Prices and quantities are doubles. *)

From S2P Require Import Prelude.
From S2P Require Import Float.
From S2P Require Import Oms.

Record VenueLevel := { vl_price : double; vl_quantity : double }.

Record VenueQuote := {
  vq_venue : string; vq_bids : list VenueLevel; vq_asks : list VenueLevel;
  vq_taker_fee_bps : double; vq_latency_ms : double; vq_latency_cost_bps_per_ms : double;
  vq_healthy : bool
}.

Record RouteRequest := {
  rr_side : RouteSide; rr_quantity : double; rr_limit_price : double;
  rr_max_slippage_bps : double; rr_max_venue_count : Z; rr_all_or_none : bool
}.

Record RouteLeg := {
  leg_venue : string; leg_price : double; leg_quantity : double; leg_fee : double;
  leg_effective_price : double; leg_latency_ms : double; leg_taker_fee_bps : double;
  leg_latency_cost : double; leg_level_index : nat
}.

Record RoutePlan := {
  pl_complete : bool; pl_requested : double; pl_routed : double; pl_notional : double;
  pl_fees : double; pl_average_price : double; pl_legs : list RouteLeg
}.

Record CandidateLevel := {
  cl_venue : string; cl_price : double; cl_quantity : double; cl_taker_fee_bps : double;
  cl_latency_ms : double; cl_latency_cost : double; cl_effective_price : double;
  cl_level_index : nat
}.

Definition bps : double := dbl 10000.

Definition calculate_effective_price (price : double) (side : RouteSide)
    (taker_fee_bps latency_ms latency_cost_bps_per_ms : double) : double :=
  let total_cost_bps := dadd taker_fee_bps (dmul latency_ms latency_cost_bps_per_ms) in
  let cost_rate := ddiv total_cost_bps bps in
  match side with
  | RouteBuy => dmul price (dadd (dbl 1) cost_rate)
  | RouteSell => dmul price (dsub (dbl 1) cost_rate)
  end.

Definition valid_level (level : VenueLevel) : bool :=
  isfinite (vl_price level) && isfinite (vl_quantity level) &&
  dgt (vl_price level) dzero && dgt (vl_quantity level) dzero.

(** The checks of the arguments, in order. *)
Definition check_request (r : RouteRequest) : result unit :=
  guard_or (isfinite (rr_quantity r) && negb (dle (rr_quantity r) dzero))
    (invalid_argument "route quantity must be positive");;
  guard_or (isfinite (rr_limit_price r) && negb (dlt (rr_limit_price r) dzero))
    (invalid_argument "limit price must be non-negative");;
  guard_or (isfinite (rr_max_slippage_bps r) && negb (dlt (rr_max_slippage_bps r) dzero))
    (invalid_argument "maximum slippage must be non-negative");;
  guard_or (negb (rr_max_venue_count r =? 0))
    (invalid_argument "maximum venue count must be positive").

Definition quote_levels (side : RouteSide) (q : VenueQuote) : list VenueLevel :=
  match side with RouteBuy => vq_asks q | RouteSell => vq_bids q end.

Definition candidate (side : RouteSide) (q : VenueQuote) (index : nat) (level : VenueLevel)
    : CandidateLevel := {|
  cl_venue := vq_venue q; cl_price := vl_price level; cl_quantity := vl_quantity level;
  cl_taker_fee_bps := vq_taker_fee_bps q; cl_latency_ms := vq_latency_ms q;
  cl_latency_cost := vq_latency_cost_bps_per_ms q;
  cl_effective_price := calculate_effective_price (vl_price level) side (vq_taker_fee_bps q)
    (vq_latency_ms q) (vq_latency_cost_bps_per_ms q);
  cl_level_index := index |}.

(** The loop over the levels of one quote, from an index on. *)
Fixpoint quote_candidates (side : RouteSide) (q : VenueQuote) (index : nat)
    (levels : list VenueLevel) : list CandidateLevel :=
  match levels with
  | [] => []
  | level :: levels =>
      let rest := quote_candidates side q (S index) levels in
      if valid_level level then candidate side q index level :: rest else rest
  end.

Definition candidates (r : RouteRequest) (quotes : list VenueQuote) : list CandidateLevel :=
  concat ((fun q => if vq_healthy q
                    then quote_candidates (rr_side r) q 0 (quote_levels (rr_side r) q)
                    else []) <$> quotes).

(** The comparison that [std::sort] is given. *)
Definition precedes (side : RouteSide) (l r : CandidateLevel) : bool :=
  if negb (deq (cl_effective_price l) (cl_effective_price r)) then
    match side with
    | RouteBuy => dlt (cl_effective_price l) (cl_effective_price r)
    | RouteSell => dgt (cl_effective_price l) (cl_effective_price r)
    end
  else if negb (deq (cl_latency_ms l) (cl_latency_ms r))
  then dlt (cl_latency_ms l) (cl_latency_ms r)
  else if negb (bool_decide (cl_venue l = cl_venue r)) then String.ltb (cl_venue l) (cl_venue r)
  else bool_decide (cl_level_index l < cl_level_index r)%nat.

Definition sorts_before (side : RouteSide) (l r : CandidateLevel) : Prop :=
  precedes side r l = false.

#[export] Instance sorts_before_dec side : RelDecision (sorts_before side).
Proof. intros l r. unfold sorts_before. apply _. Defined.

#[export] Instance sorts_before_total side : Total (sorts_before side).
Proof.
  intros l r. unfold sorts_before. destruct (precedes side r l) eqn:E; [right|by left].
  revert E. unfold precedes. rewrite (deq_sym (cl_effective_price l)), (deq_sym (cl_latency_ms l)).
  destruct (deq (cl_effective_price r) (cl_effective_price l)); cbn [negb].
  2: { destruct side; apply dlt_asym. }
  destruct (deq (cl_latency_ms r) (cl_latency_ms l)); cbn [negb]; [|apply dlt_asym].
  repeat case_bool_decide; cbn [negb]; try congruence; try done; try lia.
  all: unfold String.ltb; rewrite (String.compare_antisym (cl_venue r));
    by destruct (String.compare _ _).
Qed.

(** The sorted candidates; levels that compare equal (a venue quoted twice)
    stay in the order of the quotes, an order that [std::sort] leaves open. *)
Definition sorted_candidates (r : RouteRequest) (quotes : list VenueQuote) : list CandidateLevel :=
  merge_sort (sorts_before (rr_side r)) (candidates r quotes).

Definition violates_limit (r : RouteRequest) (c : CandidateLevel) : bool :=
  dgt (rr_limit_price r) dzero &&
  match rr_side r with
  | RouteBuy => dgt (cl_price c) (rr_limit_price r)
  | RouteSell => dlt (cl_price c) (rr_limit_price r)
  end.

Definition violates_slippage (r : RouteRequest) (arrival : double) (c : CandidateLevel) : bool :=
  let fraction := ddiv (rr_max_slippage_bps r) bps in
  match rr_side r with
  | RouteBuy => dgt (cl_effective_price c) (dmul arrival (dadd (dbl 1) fraction))
  | RouteSell => dlt (cl_effective_price c) (dmul arrival (dsub (dbl 1) fraction))
  end.

Definition make_leg (c : CandidateLevel) (routed fee : double) : RouteLeg := {|
  leg_venue := cl_venue c; leg_price := cl_price c; leg_quantity := routed; leg_fee := fee;
  leg_effective_price := cl_effective_price c; leg_latency_ms := cl_latency_ms c;
  leg_taker_fee_bps := cl_taker_fee_bps c; leg_latency_cost := cl_latency_cost c;
  leg_level_index := cl_level_index c |}.

Definition add_leg (p : RoutePlan) (leg : RouteLeg) (notional : double) : RoutePlan := {|
  pl_complete := pl_complete p; pl_requested := pl_requested p;
  pl_routed := dadd (pl_routed p) (leg_quantity leg); pl_notional := dadd (pl_notional p) notional;
  pl_fees := dadd (pl_fees p) (leg_fee leg); pl_average_price := pl_average_price p;
  pl_legs := pl_legs p ++ [leg] |}.

(** The loop over the sorted candidates. *)
Fixpoint route_loop (r : RouteRequest) (arrival : double) (cs : list CandidateLevel)
    (remaining : double) (used_venues : gset string) (p : RoutePlan) : RoutePlan :=
  match cs with
  | [] => p
  | c :: cs =>
      if dle remaining tiny then p
      else if violates_limit r c then route_loop r arrival cs remaining used_venues p
      else if violates_slippage r arrival c then route_loop r arrival cs remaining used_venues p
      else if negb (bool_decide (cl_venue c ∈ used_venues)) &&
              (rr_max_venue_count r <=? Z.of_nat (size used_venues))
      then route_loop r arrival cs remaining used_venues p
      else
        let routed := dmin remaining (cl_quantity c) in
        let notional := dmul routed (cl_price c) in
        let fee := ddiv (dmul notional (cl_taker_fee_bps c)) bps in
        route_loop r arrival cs (dsub remaining routed) ({[cl_venue c]} ∪ used_venues)
          (add_leg p (make_leg c routed fee) notional)
  end.

Definition empty_plan (r : RouteRequest) : RoutePlan := {|
  pl_complete := false; pl_requested := rr_quantity r; pl_routed := dzero; pl_notional := dzero;
  pl_fees := dzero; pl_average_price := dzero; pl_legs := [] |}.

Definition set_result (p : RoutePlan) (complete : bool) (average : double) : RoutePlan := {|
  pl_complete := complete; pl_requested := pl_requested p; pl_routed := pl_routed p;
  pl_notional := pl_notional p; pl_fees := pl_fees p; pl_average_price := average;
  pl_legs := pl_legs p |}.

(** What follows the loop. *)
Definition finish_plan (r : RouteRequest) (p : RoutePlan) : RoutePlan :=
  let complete := dge (dadd (pl_routed p) tiny) (rr_quantity r) in
  if rr_all_or_none r && negb complete then empty_plan r
  else set_result p complete
         (if dgt (pl_routed p) dzero then ddiv (pl_notional p) (pl_routed p)
          else pl_average_price p).

Definition build_route_plan (r : RouteRequest) (quotes : list VenueQuote) : result RoutePlan :=
  check_request r;;
  match sorted_candidates r quotes with
  | [] => Ok (empty_plan r)
  | best :: rest =>
      Ok (finish_plan r (route_loop r (cl_effective_price best) (best :: rest) (rr_quantity r) ∅
                           (empty_plan r)))
  end.

(** ** What a plan contains *)

(** A leg taken from a candidate that the request admits. *)
Record leg_of (r : RouteRequest) (arrival : double) (leg : RouteLeg) (c : CandidateLevel) : Prop := {
  lo_leg : leg = make_leg c (leg_quantity leg)
    (ddiv (dmul (dmul (leg_quantity leg) (cl_price c)) (cl_taker_fee_bps c)) bps);
  lo_quantity : dle (leg_quantity leg) (cl_quantity c) = true;
  lo_limit : violates_limit r c = false;
  lo_slippage : violates_slippage r arrival c = false
}.

Definition leg_notional (leg : RouteLeg) : double := dmul (leg_quantity leg) (leg_price leg).

(** From [p] the loop goes to [p'] by adding [legs], for some of the candidates
    [cs] in their order. *)
Record extends_plan (r : RouteRequest) (arrival : double) (cs : list CandidateLevel)
    (used : gset string) (p p' : RoutePlan) (legs : list RouteLeg) : Prop := {
  ep_legs : pl_legs p' = pl_legs p ++ legs;
  ep_candidates : exists cs', cs' `sublist_of` cs /\ Forall2 (leg_of r arrival) legs cs';
  ep_routed : pl_routed p' = foldl dadd (pl_routed p) (leg_quantity <$> legs);
  ep_notional : pl_notional p' = foldl dadd (pl_notional p) (leg_notional <$> legs);
  ep_fees : pl_fees p' = foldl dadd (pl_fees p) (leg_fee <$> legs);
  ep_requested : pl_requested p' = pl_requested p;
  ep_average : pl_average_price p' = pl_average_price p;
  ep_venues : Z.of_nat (size used) <= rr_max_venue_count r ->
    Z.of_nat (size (used ∪ list_to_set (leg_venue <$> legs))) <= rr_max_venue_count r
}.

Lemma extends_plan_refl r arrival cs used p : extends_plan r arrival cs used p p [].
Proof.
  constructor; try done; [by rewrite app_nil_r| |].
  - exists []. split; [apply sublist_nil_l|constructor].
  - cbn. by rewrite union_empty_r_L.
Qed.

Lemma extends_plan_skip r arrival c cs used p p' legs :
  extends_plan r arrival cs used p p' legs -> extends_plan r arrival (c :: cs) used p p' legs.
Proof.
  intros []. constructor; try done. destruct ep_candidates0 as (cs' & HS & HF). exists cs'.
  split; [by constructor|done].
Qed.

Lemma extends_plan_take r arrival c cs used p p' legs leg notional :
  leg_of r arrival leg c -> notional = leg_notional leg ->
  (leg_venue leg ∈ used \/ Z.of_nat (size used) < rr_max_venue_count r) ->
  extends_plan r arrival cs ({[leg_venue leg]} ∪ used) (add_leg p leg notional) p' legs ->
  extends_plan r arrival (c :: cs) used p p' (leg :: legs).
Proof.
  intros HL -> HV []. constructor; try done.
  - rewrite ep_legs0. cbn. by rewrite <- app_assoc.
  - destruct ep_candidates0 as (cs' & HS & HF). exists (c :: cs'). split; by constructor.
  - intros Hu. cbn [fmap list_fmap list_to_set].
    replace (used ∪ ({[leg_venue leg]} ∪ list_to_set (leg_venue <$> legs)))
      with ({[leg_venue leg]} ∪ used ∪ list_to_set (leg_venue <$> legs)) by set_solver.
    apply ep_venues0. destruct HV as [HV|HV].
    + by replace ({[leg_venue leg]} ∪ used) with used by set_solver.
    + destruct (decide (leg_venue leg ∈ used)); [by replace ({[leg_venue leg]} ∪ used) with used by set_solver|].
      rewrite size_union by set_solver. rewrite size_singleton. lia.
Qed.

Lemma dmin_finite x y : isnan x = false -> dle x tiny = false -> isfinite y = true ->
  isfinite (dmin x y) = true.
Proof.
  intros HN Hx Hy. unfold dmin. destruct (dlt y x) eqn:E; [done|].
  destruct x as [[]|[]| |[] m e]; try done. by destruct y as [[]| | |[]].
Qed.

Lemma route_loop_spec r arrival cs remaining used p :
  isnan remaining = false -> Forall (fun c => isfinite (cl_quantity c) = true) cs ->
  exists legs, extends_plan r arrival cs used p (route_loop r arrival cs remaining used p) legs.
Proof.
  intros HN HF. revert remaining used p HN.
  induction HF as [|c cs Hc HF IH]; intros remaining used p HN; cbn [route_loop].
  { exists []. apply extends_plan_refl. }
  destruct (dle remaining tiny) eqn:E0; [exists []; apply extends_plan_refl|].
  destruct (violates_limit r c) eqn:E1.
  { destruct (IH remaining used p HN) as [legs HL]. exists legs. by apply extends_plan_skip. }
  destruct (violates_slippage r arrival c) eqn:E2.
  { destruct (IH remaining used p HN) as [legs HL]. exists legs. by apply extends_plan_skip. }
  destruct (negb (bool_decide _) && _) eqn:E3.
  { destruct (IH remaining used p HN) as [legs HL]. exists legs. by apply extends_plan_skip. }
  pose proof (dmin_le remaining (cl_quantity c) HN (isfinite_number _ Hc)) as [_ Hle].
  set (leg := make_leg _ _ _). set (p1 := add_leg p leg _).
  destruct (IH (dsub remaining (dmin remaining (cl_quantity c))) ({[cl_venue c]} ∪ used) p1) as [legs HL].
  { apply dsub_number; [done|]. by apply dmin_finite. }
  exists (leg :: legs). eapply extends_plan_take; [|reflexivity| |done].
  - by constructor.
  - apply andb_false_iff in E3 as [E3|E3]; breflect; [by left|right; cbn; lia].
Qed.

(** ** The candidates *)

Definition from_quote (r : RouteRequest) (quotes : list VenueQuote) (c : CandidateLevel) : Prop :=
  exists q level, q ∈ quotes /\ vq_healthy q = true /\
    quote_levels (rr_side r) q !! cl_level_index c = Some level /\ valid_level level = true /\
    c = candidate (rr_side r) q (cl_level_index c) level.

Lemma quote_candidates_spec side q k levels c : c ∈ quote_candidates side q k levels ->
  exists i level, levels !! i = Some level /\ valid_level level = true /\
    c = candidate side q (k + i) level.
Proof.
  revert k. induction levels as [|l levels IH]; intros k Hc; [by apply elem_of_nil in Hc|].
  cbn in Hc. destruct (valid_level l) eqn:HV.
  - apply elem_of_cons in Hc as [->|Hc]; [exists 0%nat, l; by rewrite Nat.add_0_r|].
    destruct (IH _ Hc) as (i & level & ? & ? & ->). exists (S i), level. by rewrite <- Nat.add_succ_comm.
  - destruct (IH _ Hc) as (i & level & ? & ? & ->). exists (S i), level. by rewrite <- Nat.add_succ_comm.
Qed.

Lemma candidates_spec r quotes c : c ∈ candidates r quotes -> from_quote r quotes c.
Proof.
  unfold candidates. rewrite elem_of_concat. intros (l & Hc & (q & -> & Hq)%list_elem_of_fmap).
  destruct (vq_healthy q) eqn:HH; [|by apply elem_of_nil in Hc].
  apply quote_candidates_spec in Hc as (i & level & Hl & HV & ->). exists q, level.
  cbn. by rewrite Hl.
Qed.

Lemma candidate_finite r quotes c : from_quote r quotes c -> isfinite (cl_quantity c) = true.
Proof.
  intros (q & level & _ & _ & _ & HV & ->). cbn. unfold valid_level in HV.
  by destruct (isfinite (vl_price level)), (isfinite (vl_quantity level)).
Qed.

(** The key of a candidate or leg: no level is taken twice when no venue is
    quoted twice. *)
Lemma quote_candidates_keys side q k levels :
  NoDup (cl_level_index <$> quote_candidates side q k levels) /\
  Forall (fun c => (k <= cl_level_index c)%nat /\ cl_venue c = vq_venue q)
    (quote_candidates side q k levels).
Proof.
  revert k. induction levels as [|l levels IH]; intros k; [by split; constructor|].
  destruct (IH (S k)) as [H1 H2]. cbn.
  assert (Forall (fun c => (k <= cl_level_index c)%nat /\ cl_venue c = vq_venue q)
    (quote_candidates side q (S k) levels)) as H3.
  { eapply Forall_mono, H2. intros c _ [? ?]. split; [lia|done]. }
  destruct (valid_level l); [|done]. split; [|by constructor].
  constructor; [|done]. intros (c & E & Hc)%list_elem_of_fmap. rewrite Forall_forall in H2.
  apply H2 in Hc. cbn in E. lia.
Qed.

Definition candidate_key (c : CandidateLevel) : string * nat := (cl_venue c, cl_level_index c).

Lemma candidates_keys r quotes : NoDup (vq_venue <$> quotes) ->
  NoDup (candidate_key <$> candidates r quotes) /\
  forall c, c ∈ candidates r quotes -> cl_venue c ∈ vq_venue <$> quotes.
Proof.
  unfold candidates. induction quotes as [|q quotes IH]; intros HN; [by split; [constructor|intros c []%elem_of_nil]|].
  apply NoDup_cons in HN as [Hq HN]. destruct (IH HN) as [H1 H2]. clear IH. cbn [fmap list_fmap concat].
  pose proof (quote_candidates_keys (rr_side r) q 0 (quote_levels (rr_side r) q)) as [K1 K2].
  set (cq := if vq_healthy q then _ else _).
  assert (NoDup (cl_level_index <$> cq) /\ Forall (fun c => cl_venue c = vq_venue q) cq) as [K3 K4].
  { unfold cq. destruct (vq_healthy q); [|by split; constructor]. split; [done|].
    eapply Forall_mono, K2. by intros c _ [_ ?]. }
  rewrite Forall_forall in K4. split.
  - rewrite fmap_app, NoDup_app. split; [|split; [|done]].
    + clear - K3. induction cq as [|c cq IH]; [constructor|]. apply NoDup_cons in K3 as [Hc HN].
      constructor; [|by apply IH]. intros (d & [= _ E] & Hd)%list_elem_of_fmap. apply Hc. rewrite E.
      by apply list_elem_of_fmap_2.
    + intros k (c & -> & Hc)%list_elem_of_fmap (d & [= E _] & Hd)%list_elem_of_fmap. apply Hq.
      rewrite <- (K4 _ Hc), E. by apply H2.
  - intros c [Hc|Hc]%elem_of_app; cbn; [rewrite (K4 _ Hc); by left|]. right. by apply H2.
Qed.

Lemma check_request_spec r x : check_request r = Ok x ->
  isfinite (rr_quantity r) = true /\ rr_max_venue_count r <> 0.
Proof.
  unfold check_request, guard_or. cbn [mbind result_bind].
  destruct (isfinite (rr_quantity r) && _) eqn:E1, (isfinite (rr_limit_price r) && _),
    (isfinite (rr_max_slippage_bps r) && _), (negb (rr_max_venue_count r =? 0)) eqn:E2;
    intros [=]. apply andb_true_iff in E1 as [-> _]. split; [done|]. by breflect.
Qed.

(** The legs of a plan, after the all-or-none rule. *)
Lemma finish_plan_spec r p : let p' := finish_plan r p in
  (pl_legs p' = [] /\ p' = empty_plan r /\ rr_all_or_none r = true /\
     dge (dadd (pl_routed p) tiny) (rr_quantity r) = false) \/
  (pl_legs p' = pl_legs p /\ pl_routed p' = pl_routed p /\ pl_notional p' = pl_notional p /\
   pl_fees p' = pl_fees p /\ pl_requested p' = pl_requested p /\
   pl_complete p' = dge (dadd (pl_routed p) tiny) (rr_quantity r) /\
   (rr_all_or_none r = true -> pl_complete p' = true)).
Proof.
  cbn. unfold finish_plan.
  destruct (rr_all_or_none r), (dge _ _) eqn:E; cbn; (by left) || (right; by repeat split).
Qed.

Definition arrival_price (r : RouteRequest) (quotes : list VenueQuote) : double :=
  match sorted_candidates r quotes with [] => dzero | best :: _ => cl_effective_price best end.

Definition leg_key (leg : RouteLeg) : string * nat := (leg_venue leg, leg_level_index leg).

Record plan_ok (r : RouteRequest) (quotes : list VenueQuote) (p : RoutePlan) : Prop := {
  po_legs : exists cs, cs `sublist_of` sorted_candidates r quotes /\
    Forall2 (leg_of r (arrival_price r quotes)) (pl_legs p) cs;
  po_venues : Z.of_nat (size (list_to_set (leg_venue <$> pl_legs p) : gset string)) <= rr_max_venue_count r;
  po_routed : pl_routed p = foldl dadd dzero (leg_quantity <$> pl_legs p);
  po_notional : pl_notional p = foldl dadd dzero (leg_notional <$> pl_legs p);
  po_fees : pl_fees p = foldl dadd dzero (leg_fee <$> pl_legs p);
  po_requested : pl_requested p = rr_quantity r
}.

Lemma empty_plan_ok r quotes : 0 <= rr_max_venue_count r -> plan_ok r quotes (empty_plan r).
Proof.
  intros H. constructor; try done. exists []. split; [apply sublist_nil_l|constructor].
Qed.

Lemma sorted_from_quote r quotes c : c ∈ sorted_candidates r quotes -> from_quote r quotes c.
Proof. unfold sorted_candidates. rewrite merge_sort_Permutation. apply candidates_spec. Qed.

Lemma route_loop_ok r quotes : isfinite (rr_quantity r) = true -> 0 <= rr_max_venue_count r ->
  plan_ok r quotes (route_loop r (arrival_price r quotes) (sorted_candidates r quotes)
                      (rr_quantity r) ∅ (empty_plan r)).
Proof.
  intros HQ HM.
  destruct (route_loop_spec r (arrival_price r quotes) (sorted_candidates r quotes) (rr_quantity r) ∅
    (empty_plan r)) as [legs []].
  - by apply isfinite_number.
  - apply Forall_forall. intros c Hc. by eapply candidate_finite, sorted_from_quote.
  - cbn in ep_legs0. rewrite <- ep_legs0 in *. constructor; try done.
    rewrite union_empty_l_L in ep_venues0. apply ep_venues0. by rewrite size_empty.
Qed.

Lemma build_route_plan_ok r quotes p : 0 <= rr_max_venue_count r ->
  build_route_plan r quotes = Ok p ->
  plan_ok r quotes p /\
  (pl_complete p = true -> dge (dadd (pl_routed p) tiny) (rr_quantity r) = true) /\
  (rr_all_or_none r = true -> pl_complete p = false -> pl_legs p = []).
Proof.
  intros HM. unfold build_route_plan. destruct (check_request r) as [x|] eqn:EC; [|done].
  apply check_request_spec in EC as [HQ _]. cbn [mbind result_bind].
  pose proof (route_loop_ok r quotes HQ HM) as HL. unfold arrival_price in HL.
  destruct (sorted_candidates r quotes) as [|best rest] eqn:ES; intros HP.
  - assert (p = empty_plan r) as -> by congruence. split; [by apply empty_plan_ok|done].
  - assert (p = finish_plan r (route_loop r (cl_effective_price best) (best :: rest) (rr_quantity r) ∅
      (empty_plan r))) as -> by congruence. clear HP.
    destruct (finish_plan_spec r (route_loop r (cl_effective_price best) (best :: rest) (rr_quantity r) ∅
      (empty_plan r))) as [(_ & -> & _)|(E1 & E2 & E3 & E4 & E5 & E6 & E7)].
    + split; [by apply empty_plan_ok|done].
    + split; [|split; [by rewrite E6, E2|intros HA; by rewrite E7]].
      destruct HL. constructor; rewrite ?E1, ?E2, ?E3, ?E4, ?E5; try done.
Qed.

Lemma legs_candidates r arrival legs cs : Forall2 (leg_of r arrival) legs cs ->
  leg_key <$> legs = candidate_key <$> cs /\
  forall leg, leg ∈ legs -> exists c, c ∈ cs /\ leg_of r arrival leg c.
Proof.
  induction 1 as [|leg c legs cs HL _ [IH1 IH2]]; [by split; [|intros leg []%elem_of_nil]|]. split.
  - cbn. f_equal; [|done]. by rewrite (lo_leg _ _ _ _ HL).
  - intros l [->|Hl]%elem_of_cons; [exists c; split; [by left|done]|].
    destruct (IH2 l Hl) as (d & ? & ?). exists d. split; [by right|done].
Qed.

(** C12: every leg of a plan is a valid level of a healthy venue, on the right
    side, within the limit price, the slippage bound from the best price after
    costs and the quantity of the level; legs come in the sorted order of the
    candidates, no level is used twice when no venue is quoted twice, at most
    [max_venue_count] venues are used; the totals are the sums over the legs, a
    complete plan reaches the quantity, and an all-or-none plan that is not
    complete has no legs. *)
Theorem route_plan_sound r quotes p :
  0 <= rr_max_venue_count r -> build_route_plan r quotes = Ok p ->
  (forall leg, leg ∈ pl_legs p -> exists c, from_quote r quotes c /\
     leg_of r (arrival_price r quotes) leg c) /\
  (leg_key <$> pl_legs p) `sublist_of` (candidate_key <$> sorted_candidates r quotes) /\
  Sorted (sorts_before (rr_side r)) (sorted_candidates r quotes) /\
  (NoDup (vq_venue <$> quotes) -> NoDup (leg_key <$> pl_legs p)) /\
  Z.of_nat (size (list_to_set (leg_venue <$> pl_legs p) : gset string)) <= rr_max_venue_count r /\
  pl_routed p = foldl dadd dzero (leg_quantity <$> pl_legs p) /\
  pl_notional p = foldl dadd dzero (leg_notional <$> pl_legs p) /\
  pl_fees p = foldl dadd dzero (leg_fee <$> pl_legs p) /\
  (pl_complete p = true -> dge (dadd (pl_routed p) tiny) (rr_quantity r) = true) /\
  (rr_all_or_none r = true -> pl_complete p = false -> pl_legs p = []).
Proof.
  intros HM HB. destruct (build_route_plan_ok r quotes p HM HB) as ([(cs & HS & HF)] & HC & HA).
  apply legs_candidates in HF as [HK HL].
  assert ((leg_key <$> pl_legs p) `sublist_of` (candidate_key <$> sorted_candidates r quotes)) as HSub
    by (rewrite HK; by apply fmap_sublist).
  split; [|split; [done|split; [apply Sorted_merge_sort; apply _|split; [|by split_and!]]]].
  - intros leg (c & Hc & HO)%HL. exists c. split; [|done]. eapply sorted_from_quote.
    by eapply sublist_subseteq.
  - intros HN. eapply sublist_NoDup; [|done]. unfold sorted_candidates.
    rewrite merge_sort_Permutation. by apply candidates_keys.
Qed.

(** ** Witness *)

Definition demo_quotes : list VenueQuote :=
  [{| vq_venue := "A"; vq_bids := []; vq_asks := [{| vl_price := dbl 100; vl_quantity := dbl 3 |};
        {| vl_price := dbl 102; vl_quantity := dbl 9 |}];
      vq_taker_fee_bps := dbl 10; vq_latency_ms := dzero; vq_latency_cost_bps_per_ms := dzero;
      vq_healthy := true |};
   {| vq_venue := "B"; vq_bids := []; vq_asks := [{| vl_price := dbl 101; vl_quantity := dbl 4 |}];
      vq_taker_fee_bps := dzero; vq_latency_ms := dzero; vq_latency_cost_bps_per_ms := dzero;
      vq_healthy := true |}].

Definition demo_request : RouteRequest := {|
  rr_side := RouteBuy; rr_quantity := dbl 9; rr_limit_price := dbl 103;
  rr_max_slippage_bps := dbl 1000; rr_max_venue_count := 2; rr_all_or_none := true |}.

Definition demo_plan : RoutePlan :=
  match build_route_plan demo_request demo_quotes with Ok p => p | Throw _ => empty_plan demo_request end.

Lemma route_plan_sound_witness :
  leg_quantity <$> pl_legs demo_plan = [dbl 3; dbl 4; dbl 2] /\
  pl_routed demo_plan = foldl dadd dzero (leg_quantity <$> pl_legs demo_plan) /\
  NoDup (leg_key <$> pl_legs demo_plan).
Proof.
  split; [by vm_compute|].
  assert (build_route_plan demo_request demo_quotes = Ok demo_plan) as HB by (by vm_compute).
  destruct (route_plan_sound demo_request demo_quotes demo_plan ltac:(done) HB)
    as (_ & _ & _ & HN & _ & HR & _).
  split; [exact HR|]. apply HN, (bool_decide_unpack _). by vm_compute.
Defined.
