(* ===== verification/Position.v ===== *)
(** * Positions, profit and portfolio risk ([position_manager.hpp],
    [position_manager.cpp], [portfolio_risk.hpp], [portfolio_risk.cpp])

    The code computes with doubles.  The definitions are written over any
    arithmetic; its instance for doubles is the program, the instance for exact
    rationals is the reference in which the accounting identity can be stated:
    what the program adds to it is the rounding of each operation. *)

From S2P Require Import Prelude.
From S2P Require Import Float.
From S2P Require Import Arithmetic.
From S2P Require Import Oms.

(** ** The position of a symbol *)

Section position.
Context {N : Type} `{Arithmetic N}.

Record PositionState := {
  ps_symbol : string; net_quantity : N; average_cost : N; realized_pnl : N;
  unrealized_pnl : N; mark_price : N
}.

Definition PositionState0 (symbol : string) : PositionState := {|
  ps_symbol := symbol; net_quantity := nzero; average_cost := nzero; realized_pnl := nzero;
  unrealized_pnl := nzero; mark_price := nzero |}.

Definition signed_quantity (side : RouteSide) (quantity : N) : N :=
  match side with RouteBuy => quantity | RouteSell => nopp quantity end.

(** The test of the first branch: flat, or in the direction of the position. *)
Definition increases (old signed : N) : bool :=
  nlt (nabs old) ntiny || (nlt nzero old && nlt nzero signed) || (nlt old nzero && nlt signed nzero).

(** The new average cost and realized profit, before the fee. *)
Definition opened (p : PositionState) (signed price : N) : N * N :=
  let old_notional := nmul (nabs (net_quantity p)) (average_cost p) in
  let new_notional := nmul (nabs signed) price in
  let total := nadd (nabs (net_quantity p)) (nabs signed) in
  (if nlt ntiny total then ndiv (nadd old_notional new_notional) total else average_cost p,
   realized_pnl p).

Definition closed (p : PositionState) (signed price : N) : N * N :=
  let old := net_quantity p in
  let closing := nmin (nabs old) (nabs signed) in
  let gain := if nlt nzero old then nsub price (average_cost p) else nsub (average_cost p) price in
  let realized := nadd (realized_pnl p) (nmul gain closing) in
  let average := if nlt (nabs old) (nabs signed) then price else average_cost p in
  (if nlt (nabs (nadd old signed)) ntiny then nzero else average, realized).

Definition fill_position (symbol : string) (side : RouteSide) (price quantity fee : N)
    (p : PositionState) : PositionState :=
  let signed := signed_quantity side quantity in
  let net := nadd (net_quantity p) signed in
  let (average, realized) :=
    if increases (net_quantity p) signed then opened p signed price else closed p signed price in
  {| ps_symbol := symbol; net_quantity := net; average_cost := average;
     realized_pnl := nsub realized fee;
     unrealized_pnl := if nlt nzero (mark_price p) then nmul (nsub (mark_price p) average) net
                       else unrealized_pnl p;
     mark_price := mark_price p |}.

Definition mark_position (symbol : string) (price : N) (p : PositionState) : PositionState := {|
  ps_symbol := symbol; net_quantity := net_quantity p; average_cost := average_cost p;
  realized_pnl := realized_pnl p;
  unrealized_pnl := nmul (nsub price (average_cost p)) (net_quantity p);
  mark_price := price |}.

End position.
Arguments PositionState N : clear implicits.

(** ** The manager *)

Definition PositionManager : Type := gmap string (PositionState double).

(** [positions_\[symbol\]], made with an empty symbol when it is new. *)
Definition slot (symbol : string) (m : PositionManager) : PositionState double :=
  default (PositionState0 "") (m !! symbol).

Definition apply_fill (parent : ParentOrder) (fill : OmsExecutionReport) (m : PositionManager)
    : PositionManager :=
  <[po_symbol parent := fill_position (po_symbol parent) (po_side parent) (xr_price fill)
                          (xr_quantity fill) (xr_fee fill) (slot (po_symbol parent) m)]> m.

Definition mark (symbol : string) (price : double) (m : PositionManager) : PositionManager :=
  <[symbol := mark_position symbol price (slot symbol m)]> m.

Definition position (symbol : string) (m : PositionManager) : PositionState double :=
  default (PositionState0 symbol) (m !! symbol).

Definition by_symbol (p q : PositionState double) : Prop :=
  String.leb (ps_symbol p) (ps_symbol q) = true.

#[export] Instance by_symbol_dec : RelDecision by_symbol.
Proof. intros p q. unfold by_symbol. apply _. Defined.

Definition positions (m : PositionManager) : list (PositionState double) :=
  merge_sort by_symbol ((map_to_list m).*2).

(** ** Portfolio risk ([portfolio_risk.hpp], [portfolio_risk.cpp])

    Exposure, profit and concentration of all positions against four limits; a limit
    of zero is none. *)

Record PortfolioSummary := {
  pf_gross_exposure : double; pf_net_exposure : double; pf_realized_pnl : double; pf_unrealized_pnl : double;
  pf_total_pnl : double; pf_position_count : Z; pf_largest_symbol : string; pf_largest_exposure : double;
  pf_concentration : double
}.

Record PortfolioRiskLimits := {
  max_gross_exposure : double; max_net_exposure : double; max_concentration_percent : double; max_daily_loss : double
}.

Definition default_limits : PortfolioRiskLimits := {|
  max_gross_exposure := dbl 1000000; max_net_exposure := dbl 500000; max_concentration_percent := dbl 50;
  max_daily_loss := dbl 50000 |}.

Record PortfolioRiskStatus := {
  pr_summary : PortfolioSummary; pr_limits : PortfolioRiskLimits; pr_gross_breached : bool; pr_net_breached : bool;
  pr_concentration_breached : bool; pr_daily_loss_breached : bool; pr_breached : bool
}.

Definition summary0 (count : Z) : PortfolioSummary := {|
  pf_gross_exposure := dzero; pf_net_exposure := dzero; pf_realized_pnl := dzero; pf_unrealized_pnl := dzero;
  pf_total_pnl := dzero; pf_position_count := count; pf_largest_symbol := ""; pf_largest_exposure := dzero;
  pf_concentration := dzero |}.

Definition add_position (s : PortfolioSummary) (p : PositionState double) : PortfolioSummary :=
  let exposure := dmul (net_quantity p) (mark_price p) in
  let absolute := dabs exposure in
  let larger := dgt absolute (pf_largest_exposure s) in {|
  pf_gross_exposure := dadd (pf_gross_exposure s) absolute; pf_net_exposure := dadd (pf_net_exposure s) exposure;
  pf_realized_pnl := dadd (pf_realized_pnl s) (realized_pnl p);
  pf_unrealized_pnl := dadd (pf_unrealized_pnl s) (unrealized_pnl p);
  pf_total_pnl := pf_total_pnl s; pf_position_count := pf_position_count s;
  pf_largest_symbol := if larger then ps_symbol p else pf_largest_symbol s;
  pf_largest_exposure := if larger then absolute else pf_largest_exposure s;
  pf_concentration := pf_concentration s |}.

(** After the loop. *)
Definition finish_summary (s : PortfolioSummary) : PortfolioSummary := {|
  pf_gross_exposure := pf_gross_exposure s; pf_net_exposure := pf_net_exposure s; pf_realized_pnl := pf_realized_pnl s;
  pf_unrealized_pnl := pf_unrealized_pnl s; pf_total_pnl := dadd (pf_realized_pnl s) (pf_unrealized_pnl s);
  pf_position_count := pf_position_count s; pf_largest_symbol := pf_largest_symbol s;
  pf_largest_exposure := pf_largest_exposure s;
  pf_concentration := if dgt (pf_gross_exposure s) tiny
                      then dmul (ddiv (pf_largest_exposure s) (pf_gross_exposure s)) (dbl 100)
                      else pf_concentration s |}.

Definition summarize (ps : list (PositionState double)) : PortfolioSummary :=
  finish_summary (foldl add_position (summary0 (Z.of_nat (length ps))) ps).

Definition evaluate (limits : PortfolioRiskLimits) (ps : list (PositionState double)) : PortfolioRiskStatus :=
  let s := summarize ps in
  let over limit value := dgt limit dzero && dgt value limit in
  let gross := over (max_gross_exposure limits) (pf_gross_exposure s) in
  let net := over (max_net_exposure limits) (dabs (pf_net_exposure s)) in
  let concentration := over (max_concentration_percent limits) (pf_concentration s) in
  let loss := dgt (max_daily_loss limits) dzero && dlt (pf_total_pnl s) (SFopp (max_daily_loss limits)) in {|
  pr_summary := s; pr_limits := limits; pr_gross_breached := gross; pr_net_breached := net;
  pr_concentration_breached := concentration; pr_daily_loss_breached := loss;
  pr_breached := gross || net || concentration || loss |}.

(** The limits that [set_limits] stores. *)
Definition set_limits (limits : PortfolioRiskLimits) : result PortfolioRiskLimits :=
  if dlt (max_gross_exposure limits) dzero || dlt (max_net_exposure limits) dzero ||
     dlt (max_concentration_percent limits) dzero || dlt (max_daily_loss limits) dzero
  then Throw (invalid_argument "portfolio risk limits must be non-negative")
  else Ok limits.

(** ** The accounting identity *)

Inductive PositionEvent :=
| Fill (side : RouteSide) (price quantity fee : Q)
| Mark (price : Q).

Definition position_step (p : PositionState Q) (e : PositionEvent) : PositionState Q :=
  match e with
  | Fill side price quantity fee => fill_position (ps_symbol p) side price quantity fee p
  | Mark price => mark_position (ps_symbol p) price p
  end.

Definition traded (e : PositionEvent) : Q :=
  match e with Fill side _ quantity _ => signed_quantity side quantity | Mark _ => 0%Q end.

(** What the account received less what it paid, fees included. *)
Definition cash_flow (e : PositionEvent) : Q :=
  match e with
  | Fill side price quantity fee => (- (signed_quantity side quantity * price) - fee)%Q
  | Mark _ => 0%Q
  end.

(** Quantities are whole lots above the tolerance of the code; marks are
    prices. *)
Definition event_ok (lot : Q) (e : PositionEvent) : Prop :=
  match e with
  | Fill _ _ quantity _ => exists k, 0 < k /\ (quantity == inject_Z k * lot)%Q
  | Mark price => (0 < price)%Q
  end.

Record position_inv (lot : Q) (p : PositionState Q) (net cash : Q) : Prop := {
  pv_lots : exists k, (net_quantity p == inject_Z k * lot)%Q;
  pv_net : (net_quantity p == net)%Q;
  pv_cash : (realized_pnl p == cash + net_quantity p * average_cost p)%Q;
  pv_flat : (net_quantity p == 0)%Q -> (average_cost p == 0)%Q;
  pv_mark : (0 < mark_price p)%Q ->
    (unrealized_pnl p == (mark_price p - average_cost p) * net_quantity p)%Q
}.

(** A nonzero number of lots is above the tolerance. *)
Lemma lots_bound lot k : (ntiny < lot)%Q -> k <> 0 -> (lot <= Qabs (inject_Z k * lot))%Q.
Proof.
  intros HL Hk. cbn in HL. rewrite Qabs_Qmult, (Qabs_pos lot) by lra.
  assert (1 <= Qabs (inject_Z k))%Q as H.
  { unfold Qabs, inject_Z, Qle. cbn. lia. }
  rewrite <- (Qmult_1_l lot) at 1. apply Qmult_le_compat_r; [done|lra].
Qed.

(** The value of a position at its average cost, after opening and after
    closing. *)
Lemma opened_value o s a price : (0 < o /\ 0 < s \/ o < 0 /\ s < 0 \/ o == 0 /\ ~ s == 0)%Q ->
  ((o + s) * ((Qabs o * a + Qabs s * price) / (Qabs o + Qabs s)) == o * a + s * price)%Q.
Proof.
  intros [[H1 H2]|[[H1 H2]|[H1 H2]]].
  - rewrite (Qabs_pos o), (Qabs_pos s) by lra. field. lra.
  - rewrite (Qabs_neg o), (Qabs_neg s) by lra. field. lra.
  - rewrite H1. change (Qabs 0) with 0%Q. destruct (Qlt_le_dec 0 s).
    + rewrite (Qabs_pos s) by lra. field. lra.
    + rewrite (Qabs_neg s) by lra. field. lra.
Qed.

Lemma opened_spec p s price : (ntiny < Qabs s)%Q ->
  (0 < net_quantity p /\ 0 < s \/ net_quantity p < 0 /\ s < 0 \/ net_quantity p == 0 /\ ~ s == 0)%Q ->
  let (average, realized) := opened p s price in
  realized = realized_pnl p /\
  ((net_quantity p + s) * average == net_quantity p * average_cost p + s * price)%Q.
Proof.
  intros Hs HO. unfold opened. cbn [nlt nadd nmul ndiv nabs Q_arithmetic] in *.
  assert (0 <= Qabs (net_quantity p))%Q by apply Qabs_nonneg.
  qcase; [|lra]. split; [done|]. by apply opened_value.
Qed.

Lemma closed_spec p s price :
  (0 < net_quantity p /\ s < 0 \/ net_quantity p < 0 /\ 0 < s)%Q ->
  (net_quantity p + s == 0 \/ ntiny <= Qabs (net_quantity p + s))%Q ->
  let (average, realized) := closed p s price in
  (realized == realized_pnl p - s * price
     + (net_quantity p + s) * average - net_quantity p * average_cost p)%Q /\
  ((net_quantity p + s == 0)%Q -> (average == 0)%Q).
Proof.
  intros HO HN. unfold closed, nmin.
  cbn [nlt nadd nsub nmul ndiv nabs nzero ntiny Q_arithmetic] in *.
  set (o := net_quantity p) in *. set (a := average_cost p).
  assert (Qabs o == (if Qlt_le_dec 0 o then o else - o))%Q as EO.
  { destruct (Qlt_le_dec 0 o); [apply Qabs_pos|apply Qabs_neg]; lra. }
  assert (Qabs s == (if Qlt_le_dec 0 s then s else - s))%Q as ES.
  { destruct (Qlt_le_dec 0 s); [apply Qabs_pos|apply Qabs_neg]; lra. }
  assert (Qabs (o + s) < 1 # 1000000000000 -> o + s == 0)%Q as HZ.
  { intros HT. destruct HN as [HN|HN]; [done|]. lra. }
  destruct (Q_lt (Qabs (o + s)) (1 # 1000000000000)) eqn:ET;
    [apply Q_lt_true, HZ in ET|apply Q_lt_false in ET].
  - assert (s == - o)%Q as Es by lra. split; [|reflexivity].
    destruct HO as [[H1 H2]|[H1 H2]]; destruct (Qlt_le_dec 0 o), (Qlt_le_dec 0 s); try lra;
      repeat qcase; try lra; rewrite ?EO, ?ES, ?Es; ring.
  - assert (~ o + s == 0)%Q as Hne by (intros Hz; rewrite Hz in ET; change (Qabs 0) with 0%Q in ET; lra).
    split; [|done]. assert (o + s < 0 \/ 0 < o + s)%Q as Hs.
    { destruct (Qlt_le_dec 0 (o + s)) as [|Hle]; [by right|left]. by apply Qle_lteq in Hle as [|]. }
    destruct Hs; destruct HO as [[H1 H2]|[H1 H2]]; destruct (Qlt_le_dec 0 o), (Qlt_le_dec 0 s); try lra;
      repeat qcase; try lra; rewrite ?EO, ?ES; ring.
Qed.

Lemma signed_lots lot side quantity k : 0 < k -> (quantity == inject_Z k * lot)%Q ->
  exists k', k' <> 0 /\ (signed_quantity side quantity == inject_Z k' * lot)%Q.
Proof.
  intros Hk Hq. destruct side; cbn [signed_quantity nopp Q_arithmetic].
  - exists k. split; [lia|done].
  - exists (- k). split; [lia|]. rewrite Hq, inject_Z_opp. ring.
Qed.

Lemma lots_zero lot k : (ntiny < lot)%Q -> (Qabs (inject_Z k * lot) < lot)%Q -> k = 0.
Proof.
  intros HL H. destruct (decide (k = 0)) as [|Hk]; [done|]. pose proof (lots_bound lot k HL Hk). lra.
Qed.

(** The branches of [apply_fill], in lots. *)
Lemma fill_branches lot o s k k' : (ntiny < lot)%Q -> (o == inject_Z k * lot)%Q ->
  (s == inject_Z k' * lot)%Q -> k' <> 0 ->
  if increases o s then (0 < o /\ 0 < s \/ o < 0 /\ s < 0 \/ o == 0 /\ ~ s == 0)%Q
  else ((0 < o /\ s < 0 \/ o < 0 /\ 0 < s) /\ (o + s == 0 \/ ntiny <= Qabs (o + s)))%Q.
Proof.
  intros HL Ho Hs Hk'. unfold increases. cbn [nlt nabs nzero ntiny Q_arithmetic] in *.
  pose proof (lots_bound lot k' HL Hk') as HB. rewrite <- Hs in HB.
  assert (s < 0 \/ 0 < s)%Q as Hs0.
  { destruct (Qlt_le_dec 0 s) as [|Hle]; [by right|left]. apply Qle_lteq in Hle as [|E]; [done|].
    rewrite E in HB. change (Qabs 0) with 0%Q in HB. lra. }
  destruct (Q_lt (Qabs o) (1 # 1000000000000)) eqn:E1.
  - apply Q_lt_true in E1. cbn [orb]. right. right. split; [|lra].
    rewrite Ho in E1. rewrite Ho, (lots_zero lot k HL) by lra. ring.
  - apply Q_lt_false in E1. cbn [orb].
    assert (o < 0 \/ 0 < o)%Q as Ho0.
    { destruct (Qlt_le_dec 0 o) as [|Hle]; [by right|left]. apply Qle_lteq in Hle as [|E]; [done|].
      rewrite E in E1. change (Qabs 0) with 0%Q in E1. lra. }
    destruct (Q_lt 0 o) eqn:E2, (Q_lt 0 s) eqn:E3, (Q_lt o 0) eqn:E4, (Q_lt s 0) eqn:E5; cbn [andb orb];
      rewrite ?Q_lt_true, ?Q_lt_false in *; try lra;
      (split; [lra|]; destruct (decide (k + k' = 0)) as [Hz|Hz];
       [left; rewrite Ho, Hs, <- Qmult_plus_distr_l, <- inject_Z_plus, Hz; ring|right;
        pose proof (lots_bound lot (k + k') HL Hz) as HB';
        rewrite inject_Z_plus, Qmult_plus_distr_l, <- Ho, <- Hs in HB'; lra]).
Qed.

Lemma position_step_inv lot p net cash e :
  (ntiny < lot)%Q -> event_ok lot e -> position_inv lot p net cash ->
  position_inv lot (position_step p e) (net + traded e) (cash + cash_flow e).
Proof.
  intros HL He [[k Hk] HN HC HF HM]. destruct e as [side price quantity fee|price].
  - destruct He as (q & Hq & HQ). destruct (signed_lots lot side quantity q Hq HQ) as (k' & Hk' & Hs).
    cbn [position_step traded cash_flow]. unfold fill_position. set (s := signed_quantity side quantity) in *.
    pose proof (fill_branches lot (net_quantity p) s k k' HL Hk Hs Hk') as HB.
    assert (exists average realized, (if increases (net_quantity p) s then opened p s price
      else closed p s price) = (average, realized) /\
      (realized == cash - s * price + (net_quantity p + s) * average)%Q /\
      ((net_quantity p + s == 0)%Q -> (average == 0)%Q)) as (average & realized & -> & HR & HZ).
    { destruct (increases (net_quantity p) s).
      - assert (ntiny < Qabs s)%Q as Hst
          by (pose proof (lots_bound lot k' HL Hk') as HB'; rewrite <- Hs in HB'; lra).
        pose proof (opened_spec p s price Hst HB) as HO. destruct (opened p s price) as [a r].
        destruct HO as [-> HO]. exists a, (realized_pnl p). split; [done|]. split; [lra|].
        intros Hz. exfalso. destruct HB as [?|[?|[? ?]]]; lra.
      - destruct HB as [HB1 HB2]. pose proof (closed_spec p s price HB1 HB2) as HO.
        destruct (closed p s price) as [a r]. destruct HO as [HO1 HO2]. exists a, r.
        split; [done|]. split; [lra|done]. }
    constructor; cbn [net_quantity realized_pnl average_cost mark_price unrealized_pnl
      nadd nsub nmul nlt nzero Q_arithmetic].
    + exists (k + k'). rewrite Hk, Hs, inject_Z_plus. ring.
    + by rewrite HN.
    + rewrite HR. ring.
    + done.
    + intros Hm. rewrite (proj2 (Q_lt_true 0 (mark_price p)) Hm). ring.
  - cbn [position_step traded cash_flow]. unfold mark_position.
    constructor; cbn [net_quantity realized_pnl average_cost mark_price unrealized_pnl
      nadd nsub nmul nlt nzero Q_arithmetic]; try done.
    + by exists k.
    + rewrite HN. ring.
    + rewrite HC. ring.
Qed.

Lemma position_inv_eq lot p net cash net' cash' : (net == net')%Q -> (cash == cash')%Q ->
  position_inv lot p net cash -> position_inv lot p net' cash'.
Proof. intros H1 H2 []. constructor; try done; [by rewrite <- H1|by rewrite <- H2]. Qed.

Lemma position_run_inv symbol lot es : (1 # 1000000000000 < lot)%Q -> Forall (event_ok lot) es ->
  position_inv lot (foldl position_step (PositionState0 symbol) es)
    (sumQ (traded <$> es)) (sumQ (cash_flow <$> es)).
Proof.
  intros HL HF. induction es as [|e es IH] using rev_ind.
  - constructor; cbn; [exists 0|..]; try reflexivity; intros; try reflexivity; lra.
  - apply Forall_app in HF as [HF He]. rewrite foldl_app, !fmap_app. cbn [foldl fmap list_fmap].
    eapply position_inv_eq; [symmetry; apply sumQ_snoc|symmetry; apply sumQ_snoc|].
    apply Forall_cons in He as [He _]. apply position_step_inv; [done|done|by apply IH].
Qed.

(** C13: the accounting identity, in exact arithmetic: after any fills in whole
    lots and any marks, the net quantity is what was traded, the realized profit
    is the cash flow (sales less purchases less fees) plus the cost of what is
    held, a flat position has no cost, and at the last mark realized and
    unrealized profit together are the cash flow plus the market value. *)
Theorem profit_is_cash_plus_value symbol lot es :
  (1 # 1000000000000 < lot)%Q -> Forall (event_ok lot) es ->
  let p := foldl position_step (PositionState0 symbol) es in
  let net := sumQ (traded <$> es) in let cash := sumQ (cash_flow <$> es) in
  (net_quantity p == net)%Q /\
  (realized_pnl p == cash + net * average_cost p)%Q /\
  ((net == 0)%Q -> (average_cost p == 0)%Q) /\
  ((0 < mark_price p)%Q -> (realized_pnl p + unrealized_pnl p == cash + net * mark_price p)%Q).
Proof.
  intros HL HF p net cash.
  destruct (position_run_inv symbol lot es HL HF) as [_ HN HC HZ HM]. fold p net cash in HN, HC, HZ, HM.
  split; [done|]. split; [by rewrite HC, HN|]. split; [by rewrite <- HN|].
  intros Hm. rewrite HC, (HM Hm), HN. ring.
Qed.

(** ** Witness *)

Definition demo_events : list PositionEvent :=
  [Fill RouteBuy 100 (3 # 1) (1 # 10); Mark 110; Fill RouteSell 120 (5 # 1) 0; Mark 90;
   Fill RouteBuy 80 (1 # 1) 0].

Lemma profit_is_cash_plus_value_witness :
  let p := foldl position_step (PositionState0 "BTC") demo_events in
  (net_quantity p == -1)%Q /\
  (realized_pnl p + unrealized_pnl p == sumQ (cash_flow <$> demo_events) + -1 * 90)%Q.
Proof.
  destruct (profit_is_cash_plus_value "BTC" 1 demo_events) as (H1 & _ & _ & H2).
  - done.
  - repeat constructor; try done; by (exists 3 + exists 5 + exists 1).
  - split; [by vm_compute|]. rewrite H2 by done. by vm_compute.
Defined.
