(* ===== verification/Text.v ===== *)
(** * Text

    Strings whose characters matter are lists of them; integers are printed and
    read in decimal. *)

From Stdlib Require Export Ascii.
From S2P Require Import Prelude.

Notation str := (list ascii) (only parsing).

(** A string literal as its characters. *)
Definition lit (s : string) : str := String.list_ascii_of_string s.

(** The double quote. *)
Definition quote_char : ascii := ascii_of_nat 34.

(** ** Integers *)

Definition digit (d : Z) : ascii := ascii_of_nat (Z.to_nat (48 + d)).

Definition digit_value (c : ascii) : option Z :=
  let n := Z.of_nat (nat_of_ascii c) in
  if (48 <=? n) && (n <=? 57) then Some (n - 48) else None.

(** The decimal digits of a number; [fuel] bounds their count. *)
Fixpoint digits (fuel : nat) (z : Z) : str :=
  match fuel with
  | O => []
  | S fuel => if z <? 10 then [digit z] else digits fuel (z / 10) ++ [digit (z mod 10)]
  end.

(** [operator<<] and [std::to_string]: 20 digits are enough for 64 bits. *)
Definition print_integer (z : Z) : str :=
  if z <? 0 then "-"%char :: digits 20 (- z) else digits 20 z.

Fixpoint read_digits (acc : Z) (s : str) : option Z :=
  match s with
  | [] => Some acc
  | c :: s => match digit_value c with Some d => read_digits (10 * acc + d) s | None => None end
  end.

(** ** Searching a text *)

(** What is before and after the first occurrence of a character. *)
Definition split_at (c : ascii) (s : str) : option (str * str) :=
  (fun i => (take i.1 s, drop (S i.1) s)) <$> list_find (fun d => d = c) s.

Definition starts_with (pattern s : str) : bool := bool_decide (take (length pattern) s = pattern).

(** [find(pattern)]: the first position. *)
Fixpoint find_text (pattern s : list ascii) : option nat :=
  if starts_with pattern s then Some O
  else match s with
  | [] => None
  | _ :: s => S <$> find_text pattern s
  end.

Lemma starts_with_app p s t : starts_with p s = true -> starts_with p (s ++ t) = true.
Proof.
  unfold starts_with. intros H. breflect. apply bool_decide_eq_true_2.
  rewrite take_app_le; [done|]. rewrite <- H, length_take. lia.
Qed.

Lemma starts_with_length p s : starts_with p s = true -> (length p <= length s)%nat.
Proof.
  unfold starts_with. intros H. breflect. apply (f_equal length) in H.
  rewrite length_take in H. lia.
Qed.

Lemma find_text_length p s i : find_text p s = Some i -> (length p + i <= length s)%nat.
Proof.
  revert i. induction s as [|c s IH]; intros i H; cbn [find_text] in H.
  - destruct (starts_with p []) eqn:E; [|done]. injection H as <-.
    apply starts_with_length in E. lia.
  - destruct (starts_with p (c :: s)) eqn:E.
    + injection H as <-. apply starts_with_length in E. lia.
    + destruct (find_text p s) as [j|]; [|done]. injection H as <-. specialize (IH j eq_refl).
      cbn [length]. lia.
Qed.

(** The first match stays the first when the text grows. *)
Lemma find_text_app p s t i : find_text p s = Some i -> find_text p (s ++ t) = Some i.
Proof.
  revert i. induction s as [|c s IH]; intros i H; cbn [find_text] in H.
  - destruct (starts_with p []) eqn:E; [|done]. injection H as <-.
    apply (starts_with_app _ _ t) in E. cbn [app] in *. destruct t; cbn [find_text]; by rewrite E.
  - destruct (starts_with p (c :: s)) eqn:E.
    + injection H as <-. apply (starts_with_app _ _ t) in E. cbn [app] in *.
      cbn [find_text]. by rewrite E.
    + destruct (find_text p s) as [j|] eqn:E'; [|done]. injection H as <-.
      specialize (IH j eq_refl). cbn [app find_text].
      assert (E'' : starts_with p (c :: s ++ t) = false); [|by rewrite E'', IH].
      rewrite <- E. unfold starts_with. apply find_text_length in E'.
      by rewrite app_comm_cons, take_app_le by (cbn; lia).
Qed.

Lemma find_text_here p s : starts_with p s = true -> find_text p s = Some O.
Proof. intros H. destruct s; cbn [find_text]; by rewrite H. Qed.

Lemma starts_with_prefix p s : starts_with p (p ++ s) = true.
Proof. unfold starts_with. apply bool_decide_eq_true_2. by rewrite take_app_length. Qed.

Lemma find_text_skip c p f y : c ∉ f ->
  find_text (c :: p) (f ++ y) = (fun i => length f + i)%nat <$> find_text (c :: p) y.
Proof.
  induction f as [|x f IH]; intros H; [cbn [app]; by destruct (find_text (c :: p) y)|].
  apply not_elem_of_cons in H as [H1 H2]. cbn [app find_text].
  assert (E : starts_with (c :: p) (x :: f ++ y) = false).
  { unfold starts_with. apply bool_decide_eq_false_2. cbn. congruence. }
  rewrite E, IH by done. by destruct (find_text (c :: p) y).
Qed.

Lemma starts_with_self p : starts_with p p = true.
Proof. rewrite <- (app_nil_r p) at 2. apply starts_with_prefix. Qed.

Lemma split_at_first c (s rest : str) : c ∉ s -> split_at c (s ++ c :: rest) = Some (s, rest).
Proof.
  intros Hs. unfold split_at.
  assert (list_find (fun d => d = c) (s ++ c :: rest) = Some (length s, c)) as ->.
  { apply list_find_Some. split; [by apply list_lookup_middle|]. split; [done|].
    intros j y Hy Hj ->. rewrite lookup_app_l in Hy by done. apply Hs. by eapply list_elem_of_lookup_2. }
  cbn [fmap option_fmap option_map fst]. rewrite take_app_length. f_equal. f_equal.
  replace (S (length s)) with (length s + 1)%nat by lia. by rewrite <- drop_drop, drop_app_length.
Qed.
