(* ===== verification/Fix.v ===== *)
(** * The FIX codec ([fix.hpp], [fix.cpp])

    A message is a list of [tag=value] fields, each ended by the byte SOH, with
    the length of the body in tag 9 and the sum of the bytes in tag 10.
    Strings are lists of characters. *)

From S2P Require Import Prelude.
From S2P Require Import Text.

Definition FIX_SOH : ascii := "001"%char.
Definition equals_sign : ascii := "="%char.

Inductive FixMessageType :=
| Logon | Logout | Heartbeat | TestRequest | ResendRequest | SequenceReset | NewOrderSingle
| OrderCancelRequest | ExecutionReport | Reject | Unknown.

#[export] Instance FixMessageType_eq_dec : EqDecision FixMessageType.
Proof. solve_decision. Defined.

Record FixField := { tag : Z; value : str }.

Record FixMessage := {
  begin_string : str;
  body_length : Z;
  message_type : FixMessageType;
  fields : list FixField;
  checksum : Z
}.

Definition FixMessage0 : FixMessage := {|
  begin_string := lit "FIX.4.4"; body_length := 0; message_type := Unknown; fields := [];
  checksum := 0 |}.

(** [FixParseResult]: the message when it is valid, else the error. *)
Inductive FixParseResult :=
| Valid (message : FixMessage)
| Invalid (error : string).

(** ** Numbers *)

(** [int]: 32 bits, signed. *)
Definition in_int (z : Z) : Prop := - 2 ^ 31 <= z < 2 ^ 31.

(** [parse_integer]: [std::from_chars] on the whole of a non-empty text, an
    optional minus and digits, within the range of [int]. *)
Definition parse_integer (s : str) : option Z :=
  match s with
  | [] => None
  | c :: s' =>
      let (negative, ds) := if bool_decide (c = "-"%char) then (true, s') else (false, s) in
      match ds with
      | [] => None
      | _ =>
          match read_digits 0 ds with
          | None => None
          | Some n =>
              let v := if negative : bool then - n else n in
              if (- 2 ^ 31 <=? v) && (v <? 2 ^ 31) then Some v else None
          end
      end
  end.

(** ** Searching *)

Fixpoint find_char (c : ascii) (s : str) : option nat :=
  match s with
  | [] => None
  | x :: s => if bool_decide (x = c) then Some O else S <$> find_char c s
  end.

(** [find(c, start)] *)
Definition find_from (c : ascii) (start : nat) (s : str) : option nat :=
  (fun i => start + i)%nat <$> find_char c (drop start s).

(** [rfind(pattern)]: the last position. *)
Fixpoint rfind (pattern s : str) : option nat :=
  match s with
  | [] => if starts_with pattern [] then Some O else None
  | _ :: s' =>
      match rfind pattern s' with
      | Some i => Some (S i)
      | None => if starts_with pattern s then Some O else None
      end
  end.

(** The loop of [split_fields]; every round takes at least one character. *)
Fixpoint split_loop (fuel : nat) (s : str) : list str :=
  match fuel, s with
  | O, _ | _, [] => []
  | S fuel, _ =>
      match find_char FIX_SOH s with
      | None => [s]
      | Some e =>
          let rest := split_loop fuel (drop (S e) s) in
          if (0 <? e)%nat then take e s :: rest else rest
      end
  end.

Definition split_fields (input : str) : list str := split_loop (length input) input.

Definition parse_field (field : str) : option FixField :=
  match find_char equals_sign field with
  | None | Some O => None
  | Some separator =>
      match parse_integer (take separator field) with
      | None => None
      | Some t => Some {| tag := t; value := drop (S separator) field |}
      end
  end.

(** [std::setw(3)] with the fill ['0'] *)
Definition format_checksum (sum : Z) : str :=
  let s := print_integer sum in replicate (3 - length s) "0"%char ++ s.

(** ** Messages *)

Definition get (t : Z) (m : FixMessage) : option str :=
  value <$> List.find (fun f => tag f =? t) (fields m).

Fixpoint set_field (t : Z) (v : str) (fs : list FixField) : list FixField :=
  match fs with
  | [] => [{| tag := t; value := v |}]
  | f :: fs => if tag f =? t then {| tag := t; value := v |} :: fs else f :: set_field t v fs
  end.

Definition with_fields (m : FixMessage) (fs : list FixField) : FixMessage := {|
  begin_string := begin_string m; body_length := body_length m; message_type := message_type m;
  fields := fs; checksum := checksum m |}.

Definition set (t : Z) (v : str) (m : FixMessage) : FixMessage :=
  with_fields m (set_field t v (fields m)).

Definition to_string (t : FixMessageType) : string :=
  match t with
  | Logon => "LOGON" | Logout => "LOGOUT" | Heartbeat => "HEARTBEAT"
  | TestRequest => "TEST_REQUEST" | ResendRequest => "RESEND_REQUEST"
  | SequenceReset => "SEQUENCE_RESET" | NewOrderSingle => "NEW_ORDER_SINGLE"
  | OrderCancelRequest => "ORDER_CANCEL_REQUEST" | ExecutionReport => "EXECUTION_REPORT"
  | Reject => "REJECT" | Unknown => "UNKNOWN"
  end.

Definition fix_message_type_from_code (code : str) : FixMessageType :=
  if bool_decide (code = lit "A") then Logon
  else if bool_decide (code = lit "5") then Logout
  else if bool_decide (code = lit "0") then Heartbeat
  else if bool_decide (code = lit "1") then TestRequest
  else if bool_decide (code = lit "2") then ResendRequest
  else if bool_decide (code = lit "4") then SequenceReset
  else if bool_decide (code = lit "D") then NewOrderSingle
  else if bool_decide (code = lit "F") then OrderCancelRequest
  else if bool_decide (code = lit "8") then ExecutionReport
  else if bool_decide (code = lit "3") then Reject
  else Unknown.

Definition fix_message_code (t : FixMessageType) : str :=
  match t with
  | Logon => lit "A" | Logout => lit "5" | Heartbeat => lit "0" | TestRequest => lit "1"
  | ResendRequest => lit "2" | SequenceReset => lit "4" | NewOrderSingle => lit "D"
  | OrderCancelRequest => lit "F" | ExecutionReport => lit "8" | Reject => lit "3"
  | Unknown => []
  end.

(** The sum is taken in [unsigned int]. *)
Definition calculate_fix_checksum (s : str) : Z :=
  foldl (fun sum c => u32 (sum + Z.of_nat (nat_of_ascii c))) 0 s mod 256.

Definition encode_field (t v : str) : str := t ++ equals_sign :: v ++ [FIX_SOH].

(** The fields that [encode_fix_message] writes itself. *)
Definition framing (t : Z) : bool := (t =? 8) || (t =? 9) || (t =? 10) || (t =? 35).

Definition encode_body (m : FixMessage) : str :=
  encode_field (lit "35") (fix_message_code (message_type m)) ++
  concat ((fun f => if framing (tag f) then [] else encode_field (print_integer (tag f)) (value f))
            <$> fields m).

Definition encode_prefix (m : FixMessage) : str :=
  encode_field (lit "8") (begin_string m) ++
  encode_field (lit "9") (print_integer (Z.of_nat (length (encode_body m)))) ++ encode_body m.

Definition encode_fix_message (m : FixMessage) : result str :=
  if bool_decide (fix_message_code (message_type m) = [])
  then Throw (invalid_argument "cannot encode unknown FIX message type")
  else Ok (encode_prefix m ++
           encode_field (lit "10") (format_checksum (calculate_fix_checksum (encode_prefix m)))).

(** The loop over the fields between the length and the checksum: the fields
    and the last message type. *)
Fixpoint parse_fields (fs : list str) (t : FixMessageType)
    : option (list FixField * FixMessageType) :=
  match fs with
  | [] => Some ([], t)
  | f :: fs =>
      match parse_field f with
      | None => None
      | Some p =>
          let t := if tag p =? 35 then fix_message_type_from_code (value p) else t in
          match parse_fields fs t with
          | None => None
          | Some (ps, t) => Some (p :: ps, t)
          end
      end
  end.

(** The checks of the frame: the value of tag 8, the body length and the
    checksum, or an error. *)
Definition parse_frame (wire : str) (fs : list str) : str * Z * Z + string :=
  match head fs ≫= parse_field with
  | None => inr "FIX message must begin with tag 8"%string
  | Some b => if negb (tag b =? 8) then inr "FIX message must begin with tag 8"%string else
  match (fs !! 1%nat) ≫= parse_field with
  | None => inr "FIX message must contain tag 9 second"%string
  | Some l => if negb (tag l =? 9) then inr "FIX message must contain tag 9 second"%string else
  match parse_integer (value l) with
  | None => inr "invalid FIX body length"%string
  | Some len => if len <? 0 then inr "invalid FIX body length"%string else
  match last fs ≫= parse_field with
  | None => inr "FIX message must end with tag 10"%string
  | Some c => if negb (tag c =? 10) then inr "FIX message must end with tag 10"%string else
  match parse_integer (value c) with
  | None => inr "invalid FIX checksum"%string
  | Some sum => if (sum <? 0) || (255 <? sum) then inr "invalid FIX checksum"%string else
  match rfind (lit "10=") wire with
  | None => inr "FIX checksum field not found"%string
  | Some position =>
  if negb (calculate_fix_checksum (take position wire) =? sum)
  then inr "FIX checksum mismatch"%string else
  match find_from FIX_SOH (match find_char FIX_SOH wire with Some i => S i | None => O end) wire with
  | None => inr "FIX body start not found"%string
  | Some body_start =>
  if (position <? S body_start)%nat then inr "invalid FIX body boundaries"%string
  else if negb (Z.of_nat (position - S body_start) =? len)
  then inr "FIX body length mismatch"%string
  else inl (value b, len, sum)
  end end end end end end end.

Definition parse_fix_message (wire : str) : FixParseResult :=
  let fs := split_fields wire in
  if (length fs <? 4)%nat then Invalid "FIX message has too few fields"
  else match parse_frame wire fs with
  | inr e => Invalid e
  | inl (b, len, sum) =>
      match parse_fields (drop 2 (take (length fs - 1) fs)) Unknown with
      | None => Invalid "invalid FIX field"
      | Some (ps, t) =>
          if bool_decide (t = Unknown) then Invalid "unsupported or missing FIX message type"
          else Valid {| begin_string := b; body_length := len; message_type := t; fields := ps;
                        checksum := sum |}
      end
  end.

(** ** Resending *)

Definition prepare_fix_resend (original : FixMessage) (resend_timestamp_ns : Z) : result FixMessage :=
  match get 52 original with
  | None => Throw (invalid_argument "cannot resend FIX message without SendingTime")
  | Some t => Ok (set 52 (print_integer resend_timestamp_ns) (set 122 t (set 43 (lit "Y") original)))
  end.

Definition create_fix_gap_fill (number new_number : Z) (sender target : str) (timestamp_ns : Z)
    : result FixMessage :=
  if (number <=? 0) || (new_number <=? number)
  then Throw (invalid_argument "invalid FIX gap-fill sequence range")
  else if bool_decide (sender = []) || bool_decide (target = [])
  then Throw (invalid_argument "FIX gap-fill CompIDs cannot be empty")
  else Ok (set 122 (print_integer timestamp_ns) (set 52 (print_integer timestamp_ns)
         (set 56 target (set 49 sender (set 36 (print_integer new_number) (set 123 (lit "Y")
         (set 43 (lit "Y") (set 34 (print_integer number)
           {| begin_string := begin_string FixMessage0; body_length := 0;
              message_type := SequenceReset; fields := []; checksum := 0 |})))))))).
