(* ===== verification/FixProps.v ===== *)
(** * Properties of the FIX codec

    A message that is encoded parses to its fields, and a changed byte is
    detected by the checksum. *)

From S2P Require Import Prelude.
From S2P Require Import Text.
From S2P Require Import Fix.

(** ** Characters and numbers *)

Definition is_digit (c : ascii) : bool := bool_decide (is_Some (digit_value c)).

(** The characters of a printed number. *)
Definition numeric (c : ascii) : Prop := is_Some (digit_value c) \/ c = "-"%char.

Lemma digit_value_digit d : 0 <= d < 10 -> digit_value (digit d) = Some d.
Proof.
  intros Hd.
  assert (H : forallb (fun n => bool_decide (digit_value (digit (Z.of_nat n)) = Some (Z.of_nat n)))
                      (seq 0 10) = true) by reflexivity.
  rewrite forallb_forall in H. specialize (H (Z.to_nat d)).
  rewrite bool_decide_eq_true, Z2Nat.id in H by lia. apply H, in_seq. lia.
Qed.

Lemma numeric_not c : numeric c -> c <> equals_sign /\ c <> FIX_SOH.
Proof. intros [[d H] | ->]; [split; intros ->; discriminate H | done]. Qed.

Lemma read_digits_app s t acc :
  read_digits acc (s ++ t) = read_digits acc s ≫= fun n => read_digits n t.
Proof. revert acc. induction s as [|c s IH]; intros acc; cbn; [done|]. by destruct (digit_value c). Qed.

Lemma digits_read fuel z : 0 <= z < 10 ^ Z.of_nat fuel -> fuel <> O ->
  read_digits 0 (digits fuel z) = Some z.
Proof.
  revert z. induction fuel as [|fuel IH]; intros z Hz Hf; [done|].
  rewrite Nat2Z.inj_succ, Z.pow_succ_r in Hz by lia. cbn [digits].
  destruct (z <? 10) eqn:E.
  - apply Z.ltb_lt in E. cbn. by rewrite digit_value_digit by lia.
  - apply Z.ltb_ge in E. rewrite read_digits_app, IH.
    + cbn. rewrite digit_value_digit by (apply Z.mod_pos_bound; lia).
      f_equal. pose proof (Z.div_mod z 10). lia.
    + split; [apply Z.div_pos; lia | apply Z.div_lt_upper_bound; lia].
    + intros ->. cbn in Hz. lia.
Qed.

Lemma digits_numeric fuel z : 0 <= z -> Forall (fun c => is_Some (digit_value c)) (digits fuel z).
Proof.
  revert z. induction fuel as [|fuel IH]; intros z Hz; [constructor|]. cbn [digits].
  destruct (z <? 10) eqn:E.
  - apply Z.ltb_lt in E. constructor; [|done]. by rewrite digit_value_digit by lia.
  - apply Forall_app. split; [apply IH, Z.div_pos; lia|]. constructor; [|done].
    by rewrite digit_value_digit by (apply Z.mod_pos_bound; lia).
Qed.

Lemma digits_cons fuel z : exists c s, digits (S fuel) z = c :: s.
Proof.
  cbn [digits]. destruct (z <? 10); [by eexists _, _|].
  destruct (digits fuel (z / 10)); by eexists _, _.
Qed.

Lemma print_numeric z : Forall numeric (print_integer z).
Proof.
  unfold print_integer, numeric. destruct (z <? 0) eqn:E.
  - constructor; [by right|]. eapply Forall_impl; [apply digits_numeric; lia|]. tauto.
  - eapply Forall_impl; [apply digits_numeric; lia|]. tauto.
Qed.

Lemma print_nonempty z : print_integer z <> [].
Proof.
  unfold print_integer. destruct (z <? 0); [done|].
  destruct (digits_cons 19 z) as (c & s & ->). done.
Qed.

(** Printing and parsing an [int]. *)
Lemma parse_print z : in_int z -> parse_integer (print_integer z) = Some z.
Proof.
  unfold in_int, print_integer. intros Hz.
  assert (Hr : - 2 ^ 31 <= z -> z < 2 ^ 31 -> (- 2 ^ 31 <=? z) && (z <? 2 ^ 31) = true)
    by (intros; apply andb_true_intro; split; [by apply Z.leb_le | by apply Z.ltb_lt]).
  destruct (z <? 0) eqn:E.
  - pose proof (digits_read 20 (- z) ltac:(lia) ltac:(done)) as Hd.
    destruct (digits_cons 19 (- z)) as (c & s & Hc). rewrite Hc in *.
    cbn [parse_integer]. rewrite bool_decide_eq_true_2 by done. rewrite Hd, Z.opp_involutive.
    by rewrite Hr by lia.
  - pose proof (digits_read 20 z ltac:(lia) ltac:(done)) as Hd.
    pose proof (digits_numeric 20 z ltac:(lia)) as Hn.
    destruct (digits_cons 19 z) as (c & s & Hc). rewrite Hc in *.
    apply Forall_cons in Hn as [[d Hd'] _].
    cbn [parse_integer]. rewrite bool_decide_eq_false_2 by (intros ->; discriminate Hd').
    rewrite Hd. by rewrite Hr by lia.
Qed.

Lemma read_digits_inv s acc n :
  read_digits acc s = Some n -> Forall (fun c => is_Some (digit_value c)) s.
Proof.
  revert acc. induction s as [|c s IH]; intros acc H; [constructor|]. cbn in H.
  destruct (digit_value c) eqn:E; [|done]. constructor; [by rewrite E | eauto].
Qed.

(** What parses as a number has no other characters. *)
Lemma parse_integer_numeric s z : parse_integer s = Some z -> Forall numeric s.
Proof.
  destruct s as [|c s]; [done|]. cbn [parse_integer]. case_bool_decide as Hc; intros H.
  - destruct s as [|c' s]; [done|]. destruct (read_digits 0 (c' :: s)) eqn:E; [|done].
    constructor; [by right|]. eapply Forall_impl; [by eapply read_digits_inv|]. unfold numeric. tauto.
  - destruct (read_digits 0 (c :: s)) eqn:E; [|done].
    eapply Forall_impl; [by eapply read_digits_inv|]. unfold numeric. tauto.
Qed.

(** The checksum field, for each of the 256 sums. *)
Lemma checksum_text sum : 0 <= sum < 256 ->
  parse_integer (format_checksum sum) = Some sum /\
  Forall (fun c => is_digit c) (format_checksum sum) /\
  length (format_checksum sum) = 3%nat /\
  rfind (lit "10=") (lit "10=" ++ format_checksum sum ++ [FIX_SOH]) = Some O.
Proof.
  intros Hs.
  set (test n := let f := format_checksum (Z.of_nat n) in
    bool_decide (parse_integer f = Some (Z.of_nat n)) && forallb is_digit f &&
    (length f =? 3)%nat && bool_decide (rfind (lit "10=") (lit "10=" ++ f ++ [FIX_SOH]) = Some O)).
  assert (H : forallb test (seq 0 256) = true) by (vm_compute; reflexivity).
  rewrite forallb_forall in H. specialize (H (Z.to_nat sum) ltac:(apply in_seq; lia)).
  unfold test in H. rewrite Z2Nat.id in H by lia.
  rewrite !andb_true_iff, !bool_decide_eq_true, Nat.eqb_eq in H.
  destruct H as [[[H1 H2] H3] H4]. split_and!; try done.
  by apply Forall_forall; intros c Hc; apply Is_true_true, (proj1 (forallb_forall _ _) H2), list_elem_of_In.
Qed.

(** ** Searching *)

Lemma find_char_none c s : c ∉ s -> find_char c s = None.
Proof.
  induction s as [|x s IH]; intros H; [done|]. apply not_elem_of_cons in H as [H1 H2]. cbn.
  by rewrite bool_decide_eq_false_2, IH by congruence.
Qed.

Lemma find_char_at c s t : c ∉ s -> find_char c (s ++ c :: t) = Some (length s).
Proof.
  induction s as [|x s IH]; intros H; cbn.
  - by rewrite bool_decide_eq_true_2.
  - apply not_elem_of_cons in H as [H1 H2]. by rewrite bool_decide_eq_false_2, IH by congruence.
Qed.

Lemma find_char_split c s i :
  find_char c s = Some i -> exists s1 s2, s = s1 ++ c :: s2 /\ c ∉ s1 /\ i = length s1.
Proof.
  revert i. induction s as [|x s IH]; intros i H; [done|]. cbn in H. case_bool_decide as E.
  - injection H as <-. subst. exists [], s. split_and!; [done|apply not_elem_of_nil|done].
  - destruct (find_char c s) as [j|] eqn:E'; [|done]. injection H as <-.
    destruct (IH _ eq_refl) as (s1 & s2 & -> & H1 & ->). exists (x :: s1), s2.
    split_and!; [done| |done]. apply not_elem_of_cons. by split; [congruence|].
Qed.

Lemma find_char_absent c s : find_char c s = None -> c ∉ s.
Proof.
  induction s as [|x s IH]; intros H; [apply not_elem_of_nil|]. cbn in H.
  case_bool_decide; [done|]. destruct (find_char c s); [done|].
  apply not_elem_of_cons. split; [congruence | by apply IH].
Qed.

Lemma rfind_suffix pattern p s i :
  rfind pattern s = Some i -> rfind pattern (p ++ s) = Some (length p + i)%nat.
Proof. intros H. induction p as [|c p IH]; [done|]. cbn [app rfind]. by rewrite IH. Qed.

(** ** Fields *)

Lemma split_loop_fuel n s : (length s <= n)%nat -> split_loop n s = split_fields s.
Proof.
  unfold split_fields. revert s. induction n as [n IH] using lt_wf_ind. intros s Hs.
  destruct s as [|c s]; [by destruct n|]. cbn [length] in *. destruct n as [|n]; [lia|].
  cbn [split_loop]. destruct (find_char FIX_SOH (c :: s)) as [e|] eqn:E; [|done].
  assert (Hd : (length (drop (S e) (c :: s)) <= length s)%nat) by (rewrite length_drop; cbn; lia).
  rewrite (IH n) by lia.
  destruct (decide (length s = n)) as [<-|]; [by rewrite (IH (length s)) by lia|].
  by rewrite (IH (length s)) by lia.
Qed.

Lemma split_loop_step n s : s <> [] ->
  split_loop (S n) s =
  match find_char FIX_SOH s with
  | None => [s]
  | Some e => let rest := split_loop n (drop (S e) s) in
              if (0 <? e)%nat then take e s :: rest else rest
  end.
Proof. by destruct s. Qed.

Lemma split_fields_none s : FIX_SOH ∉ s -> split_fields s = if bool_decide (s = []) then [] else [s].
Proof.
  intros H. unfold split_fields. destruct s as [|c s]; [done|].
  rewrite bool_decide_eq_false_2 by done. cbn [length split_loop]. by rewrite find_char_none.
Qed.

Lemma split_fields_soh s t : FIX_SOH ∉ s ->
  split_fields (s ++ FIX_SOH :: t) = (if bool_decide (s = []) then [] else [s]) ++ split_fields t.
Proof.
  intros H. unfold split_fields at 1. rewrite length_app, Nat.add_comm. cbn [length plus].
  rewrite split_loop_step, find_char_at by (done || by destruct s). cbv zeta.
  rewrite take_app_length, drop_app_ge by lia.
  replace (S (length s) - length s)%nat with 1%nat by lia. cbn [drop].
  rewrite drop_0, split_loop_fuel by lia. destruct s; [done|]. by rewrite bool_decide_eq_false_2.
Qed.

Lemma split_fields_app p s :
  split_fields (p ++ FIX_SOH :: s) = split_fields p ++ split_fields s.
Proof.
  remember (length p) as n eqn:Hn. revert p Hn. induction n as [n IH] using lt_wf_ind. intros p ->.
  destruct (find_char FIX_SOH p) as [e|] eqn:E.
  - apply find_char_split in E as (p1 & p2 & -> & H1 & _).
    rewrite <- app_assoc. cbn [app]. rewrite (split_fields_soh p1 (p2 ++ _)), (split_fields_soh p1 p2) by done.
    rewrite <- app_assoc. f_equal. eapply IH; [|done]. rewrite length_app. cbn. lia.
  - apply find_char_absent in E. by rewrite split_fields_soh, (split_fields_none p) by done.
Qed.

(** A field without its SOH. *)
Definition text (t v : list ascii) : list ascii := t ++ equals_sign :: v.

Lemma encode_text t v : encode_field t v = text t v ++ [FIX_SOH].
Proof. unfold encode_field, text. by rewrite <- app_assoc. Qed.

Lemma text_nonempty t v : text t v <> [].
Proof. by destruct t. Qed.

Definition unsplit (fs : list (list ascii)) : list ascii := concat ((fun f => f ++ [FIX_SOH]) <$> fs).

Lemma split_unsplit fs :
  Forall (fun f => f <> [] /\ FIX_SOH ∉ f) fs -> split_fields (unsplit fs) = fs.
Proof.
  induction 1 as [|f fs [H1 H2] _ IH]; [done|].
  unfold unsplit in *. cbn [fmap list_fmap concat]. rewrite <- app_assoc. cbn [app].
  rewrite split_fields_soh, IH by done. by rewrite bool_decide_eq_false_2.
Qed.

Lemma numeric_no c s : Forall numeric s -> c = equals_sign \/ c = FIX_SOH -> c ∉ s.
Proof.
  intros H Hc Hin. rewrite Forall_forall in H. apply H, numeric_not in Hin. naive_solver.
Qed.

Lemma parse_text z v : in_int z ->
  parse_field (text (print_integer z) v) = Some {| tag := z; value := v |}.
Proof.
  intros Hz. unfold parse_field, text.
  rewrite find_char_at by (apply numeric_no; [apply print_numeric | by left]).
  destruct (length (print_integer z)) as [|n] eqn:E; [by apply nil_length_inv, print_nonempty in E|].
  rewrite <- E, take_app_length, parse_print by done.
  rewrite drop_app_ge by lia. by replace (S (length (print_integer z)) - length (print_integer z))%nat
    with 1%nat by lia.
Qed.

Lemma text_no_soh z v : FIX_SOH ∉ v -> FIX_SOH ∉ text (print_integer z) v.
Proof.
  intros H. unfold text. apply not_elem_of_app. split.
  - apply numeric_no; [apply print_numeric | by right].
  - by apply not_elem_of_cons.
Qed.

(** ** The fields of an encoded message *)

Definition carried (m : FixMessage) : list FixField :=
  List.filter (fun f => negb (framing (tag f))) (fields m).

Definition field_text (f : FixField) : list ascii := text (print_integer (tag f)) (value f).

Definition body_texts (m : FixMessage) : list (list ascii) :=
  text (lit "35") (fix_message_code (message_type m)) :: (field_text <$> carried m).

Definition length_text (m : FixMessage) : list ascii :=
  print_integer (Z.of_nat (length (encode_body m))).

Definition prefix_texts (m : FixMessage) : list (list ascii) :=
  text (lit "8") (begin_string m) :: text (lit "9") (length_text m) :: body_texts m.

Definition checksum_digits (m : FixMessage) : list ascii :=
  format_checksum (calculate_fix_checksum (encode_prefix m)).

(** What the caller owes: no SOH inside a value, tags that are [int]s, and a
    body whose length is one. *)
Record well_formed (m : FixMessage) : Prop := {
  wf_begin : FIX_SOH ∉ begin_string m;
  wf_fields : Forall (fun f => in_int (tag f) /\ FIX_SOH ∉ value f) (carried m);
  wf_length : Z.of_nat (length (encode_body m)) < 2 ^ 31
}.

Lemma unsplit_app fs gs : unsplit (fs ++ gs) = unsplit fs ++ unsplit gs.
Proof. unfold unsplit. by rewrite fmap_app, concat_app. Qed.

Lemma unsplit_cons f fs : unsplit (f :: fs) = f ++ FIX_SOH :: unsplit fs.
Proof. unfold unsplit. cbn. by rewrite <- app_assoc. Qed.

Lemma encode_body_texts m : encode_body m = unsplit (body_texts m).
Proof.
  unfold encode_body, body_texts, carried. rewrite unsplit_cons, encode_text, <- app_assoc.
  cbn [app]. do 2 f_equal. induction (fields m) as [|f fs IH]; [done|]. cbn.
  destruct (framing (tag f)); cbn; [done|].
  rewrite encode_text, <- app_assoc. unfold field_text at 1. rewrite IH, <- app_assoc. done.
Qed.

Lemma encode_prefix_texts m : encode_prefix m = unsplit (prefix_texts m).
Proof.
  unfold encode_prefix, prefix_texts. rewrite !unsplit_cons, !encode_text, <- encode_body_texts.
  by rewrite <- !app_assoc.
Qed.

(** The encoded message. *)
Definition wire_of (m : FixMessage) : list ascii :=
  encode_prefix m ++ text (lit "10") (checksum_digits m) ++ [FIX_SOH].

Lemma encode_wire m :
  encode_fix_message m = if bool_decide (message_type m = Unknown)
    then Throw (invalid_argument "cannot encode unknown FIX message type") else Ok (wire_of m).
Proof.
  unfold encode_fix_message, wire_of, checksum_digits. rewrite encode_text.
  by destruct (message_type m).
Qed.

Lemma checksum_range s : 0 <= calculate_fix_checksum s < 256.
Proof. apply Z.mod_pos_bound. lia. Qed.

Lemma code_no_soh t : FIX_SOH ∉ fix_message_code t.
Proof. apply find_char_absent. by destruct t. Qed.

Lemma type_of_code t : fix_message_type_from_code (fix_message_code t) = t.
Proof. by destruct t. Qed.

Lemma digits_no_soh m c : c = equals_sign \/ c = FIX_SOH -> c ∉ checksum_digits m.
Proof.
  intros Hc. apply numeric_no; [|done]. destruct (checksum_text _ (checksum_range (encode_prefix m)))
    as (_ & H & _). eapply Forall_impl; [exact H|]. intros c' Hd.
  left. by apply bool_decide_unpack in Hd.
Qed.

Lemma prefix_texts_ok m : well_formed m ->
  Forall (fun f => f <> [] /\ FIX_SOH ∉ f) (prefix_texts m).
Proof.
  intros [H1 H2 H3]. unfold prefix_texts, body_texts, length_text.
  repeat apply Forall_cons_2; [..| apply Forall_fmap; eapply Forall_impl; [exact H2|]];
    try (intros f [_ Hv]; cbn); (split; [apply text_nonempty|]).
  - by apply (text_no_soh 8).
  - apply (text_no_soh 9), numeric_no; [apply print_numeric | by right].
  - apply (text_no_soh 35), code_no_soh.
  - by apply text_no_soh.
Qed.

Lemma split_wire m : well_formed m ->
  split_fields (wire_of m) = prefix_texts m ++ [text (lit "10") (checksum_digits m)].
Proof.
  intros H. rewrite <- (split_unsplit (prefix_texts m ++ _)).
  - unfold wire_of. by rewrite encode_prefix_texts, unsplit_app, unsplit_cons.
  - apply Forall_app. split; [by apply prefix_texts_ok|]. apply Forall_singleton.
    split; [apply text_nonempty | apply (text_no_soh 10), digits_no_soh; by right].
Qed.

Lemma parse_field_texts fs t :
  Forall (fun f => in_int (tag f) /\ FIX_SOH ∉ value f) fs ->
  Forall (fun f => framing (tag f) = false) fs ->
  parse_fields (field_text <$> fs) t = Some (fs, t).
Proof.
  intros H. induction H as [|f fs [Hf _] _ IH]; intros Hn; [done|].
  apply Forall_cons in Hn as [Hn1 Hn2]. cbn [fmap list_fmap parse_fields]. unfold field_text at 1.
  rewrite parse_text by done. cbn [tag value]. unfold framing in Hn1.
  apply orb_false_iff in Hn1 as [_ ->]. change (list_fmap _ _ field_text fs) with (field_text <$> fs).
  rewrite IH by done. by destruct f.
Qed.

Lemma parse_body m t : well_formed m ->
  parse_fields (body_texts m) t =
  Some ({| tag := 35; value := fix_message_code (message_type m) |} :: carried m, message_type m).
Proof.
  intros H. unfold body_texts. cbn [parse_fields]. rewrite (parse_text 35) by (unfold in_int; lia).
  cbn [tag value]. rewrite Z.eqb_refl, type_of_code, parse_field_texts.
  - done.
  - by apply wf_fields.
  - apply Forall_forall. intros f Hf. unfold carried in Hf.
    apply list_elem_of_In, filter_In in Hf as [_ Hf]. by apply negb_true_iff.
Qed.

(** Where the checksum is found, whatever precedes it. *)
Lemma rfind_checksum m p :
  rfind (lit "10=") (p ++ text (lit "10") (checksum_digits m) ++ [FIX_SOH]) = Some (length p).
Proof.
  destruct (checksum_text _ (checksum_range (encode_prefix m))) as (_ & _ & _ & H).
  transitivity (Some (length p + 0)%nat); [exact (rfind_suffix _ p _ 0 H) | f_equal; lia].
Qed.

Lemma parse_checksum m :
  parse_integer (checksum_digits m) = Some (calculate_fix_checksum (encode_prefix m)).
Proof. apply checksum_text, checksum_range. Qed.

(** ** Properties *)

Lemma parse_frame_wire m : well_formed m ->
  parse_frame (wire_of m) (split_fields (wire_of m)) =
  inl (begin_string m, Z.of_nat (length (encode_body m)), calculate_fix_checksum (encode_prefix m)).
Proof.
  intros H. pose proof (prefix_texts_ok m H) as Hok. unfold prefix_texts in Hok.
  apply Forall_cons in Hok as [[_ H8] Hok]. apply Forall_cons in Hok as [[_ H9] _].
  rewrite split_wire by done. unfold parse_frame, prefix_texts. cbn [head hd_error app lookup list_lookup].
  cbn [mbind option_bind]. rewrite (parse_text 8), (parse_text 9) by (unfold in_int; lia).
  cbn [tag value negb Z.eqb Pos.eqb]. unfold length_text at 1.
  rewrite parse_print by (pose proof (wf_length m H); unfold in_int; lia).
  rewrite (proj2 (Z.ltb_ge _ _)) by lia.
  rewrite last_cons, last_cons, last_snoc. cbn [mbind option_bind].
  rewrite (parse_text 10) by (unfold in_int; lia). cbn [tag value negb Z.eqb Pos.eqb].
  rewrite parse_checksum. pose proof (checksum_range (encode_prefix m)) as Hr.
  rewrite !(proj2 (Z.ltb_ge _ _)) by lia. cbn [orb]. unfold wire_of at 1. rewrite rfind_checksum.
  unfold wire_of at 1. rewrite take_app_length, Z.eqb_refl. cbn [negb].
  assert (Hw : wire_of m = text (lit "8") (begin_string m) ++ FIX_SOH ::
      (text (lit "9") (length_text m) ++ FIX_SOH ::
        (encode_body m ++ text (lit "10") (checksum_digits m) ++ [FIX_SOH]))).
  { unfold wire_of. rewrite encode_prefix_texts. unfold prefix_texts.
    rewrite !unsplit_cons, <- encode_body_texts, <- !app_assoc. cbn [app]. by rewrite <- !app_assoc. }
  rewrite Hw, find_char_at by done. unfold find_from. rewrite drop_app_ge by lia.
  replace (S _ - _)%nat with 1%nat by lia. cbn [drop]. rewrite drop_0, find_char_at by done.
  cbn [fmap option_fmap option_map].
  assert (Hl : length (encode_prefix m) =
      (S (length (text (lit "8") (begin_string m)) + length (text (lit "9") (length_text m))) +
       S (length (encode_body m)))%nat).
  { rewrite encode_prefix_texts. unfold prefix_texts.
    rewrite !unsplit_cons, <- encode_body_texts, !length_app. cbn [length]. rewrite length_app.
    cbn [length]. lia. }
  rewrite Hl, (proj2 (Nat.ltb_ge _ _)) by lia.
  replace (_ + S (length (encode_body m)) - _)%nat with (length (encode_body m)) by lia.
  by rewrite Z.eqb_refl.
Qed.

Lemma parse_wire m : well_formed m -> message_type m <> Unknown ->
  parse_fix_message (wire_of m) = Valid {|
    begin_string := begin_string m;
    body_length := Z.of_nat (length (encode_body m));
    message_type := message_type m;
    fields := {| tag := 35; value := fix_message_code (message_type m) |} :: carried m;
    checksum := calculate_fix_checksum (encode_prefix m) |}.
Proof.
  intros H Ht. unfold parse_fix_message. rewrite parse_frame_wire by done. rewrite split_wire by done.
  set (t10 := text (lit "10") _).
  assert (Hl : length (prefix_texts m ++ [t10]) = S (length (prefix_texts m)))
    by (rewrite length_app; cbn; lia).
  rewrite Hl. assert (H4 : (length (prefix_texts m) >= 3)%nat) by (cbn; lia).
  rewrite (proj2 (Nat.ltb_ge _ _)) by lia.
  replace (S _ - 1)%nat with (length (prefix_texts m)) by lia.
  rewrite take_app_length. unfold prefix_texts. cbn [drop]. rewrite drop_0, parse_body by done.
  by rewrite bool_decide_eq_false_2.
Qed.

(** The parsed message. *)
Definition received (m : FixMessage) : FixMessage := {|
  begin_string := begin_string m;
  body_length := Z.of_nat (length (encode_body m));
  message_type := message_type m;
  fields := {| tag := 35; value := fix_message_code (message_type m) |} :: carried m;
  checksum := calculate_fix_checksum (encode_prefix m) |}.

Lemma carried_received m : carried (received m) = carried m.
Proof.
  unfold received, carried. cbn. induction (fields m) as [|f fs IH]; [done|]. cbn.
  destruct (framing (tag f)) eqn:E; cbn; [exact IH|]. by rewrite E, IH.
Qed.

Lemma encode_received m : wire_of (received m) = wire_of m.
Proof.
  unfold wire_of, checksum_digits. rewrite !encode_prefix_texts. unfold prefix_texts, length_text.
  rewrite !encode_body_texts. unfold body_texts. by rewrite carried_received.
Qed.

Lemma get_received m t : framing t = false -> get t (received m) = get t m.
Proof.
  intros Ht. unfold get, received. cbn [fields List.find tag]. destruct (35 =? t) eqn:E.
  { apply Z.eqb_eq in E as <-. done. }
  unfold carried. induction (fields m) as [|f fs IH]; [done|]. cbn.
  destruct (framing (tag f)) eqn:Ef; cbn; destruct (tag f =? t) eqn:Et; try done.
  - apply Z.eqb_eq in Et. congruence.
Qed.

(** C14: a message whose values contain no SOH is encoded unless its type is
    unknown, and the bytes parse to the same begin string, type and fields (the
    type first, the framing fields 8, 9 and 10 apart), with the length of the
    body and the sum that were written; encoding it again gives the same bytes. *)
Theorem encoded_messages_parse m : well_formed m ->
  (message_type m = Unknown -> exists e, encode_fix_message m = Throw e) /\
  (message_type m <> Unknown -> exists w m',
     encode_fix_message m = Ok w /\ parse_fix_message w = Valid m' /\
     encode_fix_message m' = Ok w /\
     begin_string m' = begin_string m /\ message_type m' = message_type m /\
     fields m' = {| tag := 35; value := fix_message_code (message_type m) |} :: carried m /\
     (forall t, framing t = false -> get t m' = get t m)).
Proof.
  intros H. rewrite encode_wire. split; intros Ht.
  - rewrite bool_decide_eq_true_2 by done. by eexists.
  - rewrite bool_decide_eq_false_2 by done. exists (wire_of m), (received m).
    split_and!; try done; [by apply parse_wire| |by apply get_received].
    rewrite encode_wire, encode_received. by rewrite bool_decide_eq_false_2.
Qed.

(** ** A changed byte *)

Definition code (c : ascii) : Z := Z.of_nat (nat_of_ascii c).

Lemma code_range c : 0 <= code c < 256.
Proof. unfold code. pose proof (nat_ascii_bounded c). lia. Qed.

Lemma code_inj a b : code a = code b -> a = b.
Proof.
  unfold code. intros H. rewrite <- (ascii_nat_embedding a), <- (ascii_nat_embedding b).
  f_equal. lia.
Qed.

Lemma checksum_sum s : calculate_fix_checksum s = sumZ (code <$> s) mod 256.
Proof.
  unfold calculate_fix_checksum.
  assert (H : forall acc, foldl (fun sum c => u32 (sum + code c)) acc s mod 256 =
                          (acc + sumZ (code <$> s)) mod 256); [|apply (H 0)].
  induction s as [|c s IH]; intros acc; [cbn; f_equal; lia|].
  cbn [foldl fmap list_fmap]. rewrite IH, sumZ_cons. unfold u32.
  rewrite <- Zplus_mod_idemp_l, <- Znumtheory.Zmod_div_mod, Zplus_mod_idemp_l by
    (first [lia | by exists (2 ^ 24)]). f_equal. lia.
Qed.

Lemma checksum_changed p q a b : a <> b ->
  calculate_fix_checksum (p ++ a :: q) <> calculate_fix_checksum (p ++ b :: q).
Proof.
  intros Hab H. rewrite !checksum_sum, !fmap_app, !sumZ_app in H. cbn [fmap list_fmap] in H.
  rewrite !sumZ_cons in H. apply Hab, code_inj.
  pose proof (code_range a). pose proof (code_range b).
  set (x := sumZ _) in *. set (y := sumZ (code <$> q)) in *.
  apply Z.cong_iff_ex in H as [k Hk]. lia.
Qed.

Lemma parse_frame_checksum wire fs r : parse_frame wire fs = inl r ->
  exists f position, last fs ≫= parse_field = Some f /\ rfind (lit "10=") wire = Some position /\
    parse_integer (value f) = Some (calculate_fix_checksum (take position wire)).
Proof.
  unfold parse_frame. intros H.
  repeat match type of H with
  | context [match ?x with _ => _ end] => destruct x eqn:?; try done
  end; breflect. eexists _, _. split_and!; [done..|congruence].
Qed.

Lemma parse_valid_frame w m : parse_fix_message w = Valid m ->
  exists r, parse_frame w (split_fields w) = inl r.
Proof.
  unfold parse_fix_message. destruct (_ <? _)%nat; [done|].
  destruct (parse_frame w (split_fields w)); [eauto|done].
Qed.

(** A field that has swallowed the checksum field is not a number. *)
Lemma parse_glued t v x f : parse_field (text t v ++ x) = Some f -> equals_sign ∈ x ->
  parse_integer (value f) = None.
Proof.
  unfold parse_field. intros H Hx.
  destruct (find_char equals_sign (text t v ++ x)) as [k|] eqn:E; [|done].
  destruct k as [|k]; [done|]. destruct (parse_integer (take _ _)); [|done].
  injection H as <-. cbn [value]. destruct (parse_integer (drop _ _)) eqn:Ep; [|done].
  apply parse_integer_numeric, (numeric_no equals_sign) in Ep; [|by left]. destruct Ep.
  assert (Hk : (S k <= length t)%nat).
  { destruct (le_lt_dec (S k) (length t)); [done|]. exfalso.
    apply find_char_split in E as (s1 & s2 & E & Hs & E').
    assert (Ht : s1 !! length t = Some equals_sign).
    { rewrite <- (lookup_app_l _ (equals_sign :: s2)), <- E by lia. unfold text.
      rewrite <- app_assoc, lookup_app_r, Nat.sub_diag by lia. done. }
    by apply Hs, (list_elem_of_lookup_2 _ _ _ Ht). }
  rewrite drop_app_le by (unfold text; rewrite length_app; cbn [length]; lia).
  apply elem_of_app. by right.
Qed.

Lemma prefix_split m : exists pre t v, prefix_texts m = pre ++ [text t v] /\ pre <> [].
Proof.
  unfold prefix_texts, body_texts.
  destruct (carried m) as [|f fs _] using rev_ind.
  - by eexists [_; _], _, _.
  - rewrite fmap_app. by eexists (_ :: _ :: _ :: _), _, _.
Qed.

(** The byte before the checksum field is not SOH any more. *)
Lemma changed_end m pre t v c f sum : pre <> [] -> c <> FIX_SOH ->
  FIX_SOH ∉ text t v ->
  last (split_fields ((unsplit pre ++ text t v) ++ c ::
    text (lit "10") (checksum_digits m) ++ [FIX_SOH])) ≫= parse_field = Some f ->
  parse_integer (value f) = Some sum -> False.
Proof.
  intros Hpre Hc Hs Hl Hv.
  destruct pre as [|g pre _] using rev_ind; [done|].
  assert (Hno : FIX_SOH ∉ text t v ++ c :: text (lit "10") (checksum_digits m)).
  { apply not_elem_of_app. split; [done|]. apply not_elem_of_cons. split; [congruence|].
    apply (text_no_soh 10), digits_no_soh. by right. }
  assert (Heq : (unsplit (pre ++ [g]) ++ text t v) ++ c :: text (lit "10") (checksum_digits m) ++ [FIX_SOH] =
    (unsplit pre ++ g) ++ FIX_SOH :: (text t v ++ c :: text (lit "10") (checksum_digits m)) ++ [FIX_SOH]).
  { rewrite unsplit_app, unsplit_cons. change (unsplit []) with (@nil ascii).
    rewrite <- !app_assoc. cbn [app]. done. }
  rewrite Heq, split_fields_app, split_fields_soh in Hl by done.
  rewrite bool_decide_eq_false_2 in Hl by (by destruct t).
  change (split_fields []) with (@nil (list ascii)) in Hl. rewrite app_nil_r, last_snoc in Hl.
  apply parse_glued in Hl; [congruence|]. do 3 right. left.
Qed.

(** The checksum field is still the last one. *)
Lemma changed_inside m p f sum :
  last (split_fields (p ++ FIX_SOH :: text (lit "10") (checksum_digits m) ++ [FIX_SOH]))
    ≫= parse_field = Some f ->
  parse_integer (value f) = Some sum -> sum = calculate_fix_checksum (encode_prefix m).
Proof.
  intros Hl Hv. rewrite split_fields_app, split_fields_soh in Hl
    by (apply (text_no_soh 10), digits_no_soh; by right).
  change (split_fields []) with (@nil (list ascii)) in Hl.
  rewrite bool_decide_eq_false_2, app_nil_r, last_snoc in Hl by done. cbn [mbind option_bind] in Hl.
  rewrite (parse_text 10) in Hl by (unfold in_int; lia). injection Hl as <-. cbn [value] in Hv.
  rewrite parse_checksum in Hv. congruence.
Qed.

(** C15: bytes that differ from an encoded message in one byte before the
    checksum field are never accepted. *)
Theorem changed_byte_detected m w i c : well_formed m ->
  encode_fix_message m = Ok w -> (i < length (encode_prefix m))%nat -> w !! i <> Some c ->
  exists e, parse_fix_message (<[i := c]> w) = Invalid e.
Proof.
  intros Hm He Hi Hc. rewrite encode_wire in He.
  destruct (bool_decide (message_type m = Unknown)); [done|]. injection He as <-.
  destruct (parse_fix_message _) as [m'|e] eqn:E; [exfalso | by eexists].
  apply parse_valid_frame in E as [r E].
  apply parse_frame_checksum in E as (f & k & Hl & Hk & Hs).
  destruct (lookup_lt_is_Some_2 _ _ Hi) as [a Ha].
  apply list_elem_of_split_length in Ha as (p & q & Hpq & Hp).
  unfold wire_of in Hl, Hk, Hs, Hc. rewrite Hpq, lookup_app_l, lookup_app_r in Hc
    by (rewrite ?length_app; cbn; lia).
  rewrite Hpq in Hl, Hk, Hs. rewrite <- !app_assoc, insert_app_r_alt in Hl, Hk, Hs by lia.
  subst i. rewrite Nat.sub_diag in *. cbn [app insert list_insert lookup list_lookup] in *.
  rewrite app_comm_cons, app_assoc in Hk, Hs. rewrite rfind_checksum in Hk. injection Hk as <-.
  rewrite take_app_length in Hs.
  destruct (prefix_split m) as (pre & t & v & Hpre & Hne).
  assert (Ht : FIX_SOH ∉ text t v).
  { pose proof (prefix_texts_ok m Hm) as Hok. rewrite Hpre in Hok.
    by apply Forall_app in Hok as [_ [[_ Hok] _]%Forall_cons]. }
  assert (Hw : p ++ a :: q = (unsplit pre ++ text t v) ++ [FIX_SOH]).
  { by rewrite <- Hpq, encode_prefix_texts, Hpre, unsplit_app, unsplit_cons, <- app_assoc. }
  destruct q as [|x q _] using rev_ind.
  - apply app_inj_tail in Hw as [-> ->].
    eapply (changed_end m pre t v c); [exact Hne | congruence | exact Ht | exact Hl | exact Hs].
  - rewrite app_comm_cons, app_assoc in Hw. apply app_inj_tail in Hw as [_ ->].
    eapply (checksum_changed p (q ++ [FIX_SOH]) c a); [congruence|].
    rewrite <- Hpq. eapply changed_inside; [|exact Hs].
    rewrite <- app_assoc in Hl. cbn [app] in Hl. rewrite app_comm_cons, app_assoc in Hl. exact Hl.
Qed.

(** ** Concrete messages *)

Definition demo_message : FixMessage := {|
  begin_string := lit "FIX.4.4"; body_length := 0; message_type := NewOrderSingle;
  fields := [ {| tag := 34; value := lit "7" |}; {| tag := 49; value := lit "CLIENT" |};
              {| tag := 9; value := lit "999" |}; {| tag := 58; value := lit "a=b" |};
              {| tag := -3; value := [] |} ];
  checksum := 0 |}.

Lemma demo_well_formed : well_formed demo_message.
Proof.
  split.
  - by apply find_char_absent.
  - repeat apply Forall_cons_2; try apply Forall_nil_2;
      (split; [unfold in_int; cbn; lia | by apply find_char_absent]).
  - vm_compute. reflexivity.
Qed.

Lemma encoded_messages_parse_witness :
  exists w m', encode_fix_message demo_message = Ok w /\ parse_fix_message w = Valid m' /\
    encode_fix_message m' = Ok w /\ get 58 m' = Some (lit "a=b").
Proof.
  destruct (encoded_messages_parse demo_message demo_well_formed) as [_ H].
  destruct H as (w & m' & H1 & H2 & H3 & _ & _ & _ & H4); [discriminate|].
  exists w, m'. split; [exact H1|]. split; [exact H2|]. split; [exact H3|].
  rewrite H4; reflexivity.
Defined.

Lemma changed_byte_detected_witness :
  exists e, parse_fix_message (<[20%nat := "X"%char]> (wire_of demo_message)) = Invalid e.
Proof.
  apply (changed_byte_detected demo_message (wire_of demo_message) 20 "X"%char demo_well_formed).
  - reflexivity.
  - apply Nat.ltb_lt. vm_compute. reflexivity.
  - vm_compute. discriminate.
Defined.

