(* ===== verification/FixSession.v ===== *)
(** * The FIX session ([fix_session.hpp], [fix_session.cpp])

    One side of a connection: it numbers what it sends, accepts what it
    receives in sequence, asks for what is missing, and follows the state of
    the connection from logon to logout. *)

From S2P Require Import Prelude.
From S2P Require Import Text.
From S2P Require Import Fix.

Definition nanoseconds_per_second : Z := 1000000000.

(** [int] arithmetic; what leaves 32 bits, which C++ leaves undefined, wraps. *)
Definition i32 (z : Z) : Z := (z + 2 ^ 31) mod 2 ^ 32 - 2 ^ 31.

Inductive FixSessionState := Disconnected | AwaitingLogon | Active | LogoutPending | Terminated.

Inductive FixSessionRejectReason :=
| NoReason | InvalidState | InvalidSequenceNumber | MissingRequiredField | SenderMismatch
| TargetMismatch | UnsupportedMessage | InvalidHeartbeatInterval.

#[export] Instance FixSessionState_eq_dec : EqDecision FixSessionState.
Proof. solve_decision. Defined.

#[export] Instance FixSessionRejectReason_eq_dec : EqDecision FixSessionRejectReason.
Proof. solve_decision. Defined.

Record FixSessionConfig := {
  sender_comp_id : list ascii;
  target_comp_id : list ascii;
  heartbeat_interval_seconds : Z;
  reset_sequence_numbers_on_logon : bool
}.

Definition FixSessionConfig0 : FixSessionConfig := {|
  sender_comp_id := lit "MINIMATCH"; target_comp_id := lit "CLIENT";
  heartbeat_interval_seconds := 30; reset_sequence_numbers_on_logon := false |}.

Record FixSessionResult := {
  accepted : bool;
  reject_reason : FixSessionRejectReason;
  message : string;
  response : option FixMessage;
  resend_begin_sequence : option Z;
  resend_end_sequence : option Z
}.

Record FixSession := {
  config_ : FixSessionConfig;
  state_ : FixSessionState;
  expected_incoming_sequence_ : Z;
  next_outgoing_sequence_ : Z;
  last_received_time_ns_ : Z;
  last_sent_time_ns_ : Z
}.

Definition session_state_to_string (s : FixSessionState) : string :=
  match s with
  | Disconnected => "DISCONNECTED" | AwaitingLogon => "AWAITING_LOGON" | Active => "ACTIVE"
  | LogoutPending => "LOGOUT_PENDING" | Terminated => "TERMINATED"
  end.

Definition reject_reason_to_string (r : FixSessionRejectReason) : string :=
  match r with
  | NoReason => "NONE" | InvalidState => "INVALID_STATE"
  | InvalidSequenceNumber => "INVALID_SEQUENCE_NUMBER"
  | MissingRequiredField => "MISSING_REQUIRED_FIELD" | SenderMismatch => "SENDER_MISMATCH"
  | TargetMismatch => "TARGET_MISMATCH" | UnsupportedMessage => "UNSUPPORTED_MESSAGE"
  | InvalidHeartbeatInterval => "INVALID_HEARTBEAT_INTERVAL"
  end.

Definition parse_positive_integer (v : option (list ascii)) : option Z :=
  match v ≫= parse_integer with
  | Some z => if z <=? 0 then None else Some z
  | None => None
  end.

(** The constructor. *)
Definition new_session (c : FixSessionConfig) : result FixSession :=
  if bool_decide (sender_comp_id c = []) || bool_decide (target_comp_id c = [])
  then Throw (invalid_argument "FIX session CompIDs cannot be empty")
  else if heartbeat_interval_seconds c <=? 0
  then Throw (invalid_argument "FIX heartbeat interval must be positive")
  else Ok {| config_ := c; state_ := Disconnected; expected_incoming_sequence_ := 1;
             next_outgoing_sequence_ := 1; last_received_time_ns_ := 0; last_sent_time_ns_ := 0 |}.

(** ** Changes of the members *)

Definition with_state (st : FixSessionState) (s : FixSession) : FixSession := {|
  config_ := config_ s; state_ := st;
  expected_incoming_sequence_ := expected_incoming_sequence_ s;
  next_outgoing_sequence_ := next_outgoing_sequence_ s;
  last_received_time_ns_ := last_received_time_ns_ s; last_sent_time_ns_ := last_sent_time_ns_ s |}.

Definition with_config (c : FixSessionConfig) (s : FixSession) : FixSession := {|
  config_ := c; state_ := state_ s;
  expected_incoming_sequence_ := expected_incoming_sequence_ s;
  next_outgoing_sequence_ := next_outgoing_sequence_ s;
  last_received_time_ns_ := last_received_time_ns_ s; last_sent_time_ns_ := last_sent_time_ns_ s |}.

Definition with_expected (n : Z) (s : FixSession) : FixSession := {|
  config_ := config_ s; state_ := state_ s; expected_incoming_sequence_ := n;
  next_outgoing_sequence_ := next_outgoing_sequence_ s;
  last_received_time_ns_ := last_received_time_ns_ s; last_sent_time_ns_ := last_sent_time_ns_ s |}.

(** [++expected_incoming_sequence_; last_received_time_ns_ = timestamp_ns] *)
Definition consume (t : Z) (s : FixSession) : FixSession := {|
  config_ := config_ s; state_ := state_ s;
  expected_incoming_sequence_ := i32 (expected_incoming_sequence_ s + 1);
  next_outgoing_sequence_ := next_outgoing_sequence_ s;
  last_received_time_ns_ := t; last_sent_time_ns_ := last_sent_time_ns_ s |}.

(** [next_outgoing_sequence_++; last_sent_time_ns_ = timestamp_ns] *)
Definition sent (t : Z) (s : FixSession) : FixSession := {|
  config_ := config_ s; state_ := state_ s;
  expected_incoming_sequence_ := expected_incoming_sequence_ s;
  next_outgoing_sequence_ := i32 (next_outgoing_sequence_ s + 1);
  last_received_time_ns_ := last_received_time_ns_ s; last_sent_time_ns_ := t |}.

(** ** Messages *)

(** The header that [create_admin_message] and [prepare_outbound] write. *)
Definition addressed (t : Z) (s : FixSession) (m : FixMessage) : FixMessage :=
  set 52 (print_integer t) (set 56 (target_comp_id (config_ s)) (set 49 (sender_comp_id (config_ s))
    (set 34 (print_integer (next_outgoing_sequence_ s)) m))).

Definition of_type (ty : FixMessageType) : FixMessage := {|
  begin_string := begin_string FixMessage0; body_length := 0; message_type := ty; fields := [];
  checksum := 0 |}.

Definition create_admin_message (ty : FixMessageType) (t : Z) (s : FixSession)
    : FixMessage * FixSession := (addressed t s (of_type ty), sent t s).

Definition rejected (reason : FixSessionRejectReason) (text : string) (r : option FixMessage)
    : FixSessionResult := {|
  accepted := false; reject_reason := reason; message := text; response := r;
  resend_begin_sequence := None; resend_end_sequence := None |}.

Definition accepts (text : string) (r : option FixMessage) : FixSessionResult := {|
  accepted := true; reject_reason := NoReason; message := text; response := r;
  resend_begin_sequence := None; resend_end_sequence := None |}.

Definition reject (reason : FixSessionRejectReason) (text : string) (t : Z) (s : FixSession)
    : FixSessionResult * FixSession :=
  let (m, s) := create_admin_message Reject t s in
  (rejected reason text (Some (set 58 (lit text) m)), s).

Definition create_heartbeat (t : Z) (id : list ascii) (s : FixSession) : FixMessage * FixSession :=
  let (m, s) := create_admin_message Heartbeat t s in
  (if bool_decide (id = []) then m else set 112 id m, s).

(** ** Receiving *)

Definition validate_comp_ids (m : FixMessage) (s : FixSession) : bool :=
  match get 49 m, get 56 m with
  | Some sender, Some target =>
      bool_decide (sender = target_comp_id (config_ s)) &&
      bool_decide (target = sender_comp_id (config_ s))
  | _, _ => false
  end.

Definition sequence_number (m : FixMessage) : option Z := parse_positive_integer (get 34 m).

Definition with_heartbeat (n : Z) (c : FixSessionConfig) : FixSessionConfig := {|
  sender_comp_id := sender_comp_id c; target_comp_id := target_comp_id c;
  heartbeat_interval_seconds := n;
  reset_sequence_numbers_on_logon := reset_sequence_numbers_on_logon c |}.

Definition process_logon (m : FixMessage) (t : Z) (s : FixSession) : FixSessionResult * FixSession :=
  if negb (bool_decide (state_ s = Disconnected)) && negb (bool_decide (state_ s = AwaitingLogon))
  then reject InvalidState "duplicate or unexpected logon" t s
  else match parse_positive_integer (get 108 m) with
  | None => reject InvalidHeartbeatInterval "missing or invalid HeartBtInt" t s
  | Some heartbeat =>
      let s := with_state Active (with_config (with_heartbeat heartbeat (config_ s)) s) in
      let (r, s) := create_admin_message Logon t s in
      (accepts "logon accepted"
         (Some (set 108 (print_integer (heartbeat_interval_seconds (config_ s)))
                  (set 98 (lit "0") r))), s)
  end.

Definition process_logout (t : Z) (s : FixSession) : FixSessionResult * FixSession :=
  if bool_decide (state_ s = Terminated)
  then reject InvalidState "session already terminated" t s
  else if negb (bool_decide (state_ s = LogoutPending))
  then let (r, s) := create_admin_message Logout t s in
       (accepts "logout accepted" (Some r), with_state Terminated s)
  else (accepts "logout accepted" None, with_state Terminated s).

Definition process_heartbeat (s : FixSession) : FixSessionResult * FixSession :=
  if negb (bool_decide (state_ s = Active))
  then (rejected InvalidState "heartbeat received while session inactive" None, s)
  else (accepts "heartbeat accepted" None, s).

Definition process_test_request (m : FixMessage) (t : Z) (s : FixSession)
    : FixSessionResult * FixSession :=
  if negb (bool_decide (state_ s = Active))
  then reject InvalidState "test request received while session inactive" t s
  else match get 112 m with
  | None | Some [] => reject MissingRequiredField "missing TestReqID" t s
  | Some id =>
      let (r, s) := create_heartbeat t id s in (accepts "test request accepted" (Some r), s)
  end.

Definition process_resend_request (m : FixMessage) (s : FixSession) : FixSessionResult * FixSession :=
  if negb (bool_decide (state_ s = Active))
  then (rejected InvalidState "resend request received while session inactive" None, s)
  else match get 7 m, get 16 m with
  | Some b, Some e =>
      match parse_positive_integer (Some b), parse_positive_integer (Some e) with
      | Some b, Some e =>
          if e <? b
          then (rejected InvalidSequenceNumber "invalid resend sequence range" None, s)
          else ({| accepted := true; reject_reason := NoReason;
                   message := "resend request accepted"; response := None;
                   resend_begin_sequence := Some b; resend_end_sequence := Some e |}, s)
      | _, _ => (rejected InvalidSequenceNumber "invalid resend sequence range" None, s)
      end
  | _, _ => (rejected MissingRequiredField "missing BeginSeqNo or EndSeqNo" None, s)
  end.

Definition process_sequence_reset (m : FixMessage) (s : FixSession) : FixSessionResult * FixSession :=
  match parse_positive_integer (get 36 m) with
  | None => (rejected MissingRequiredField "missing or invalid NewSeqNo" None, s)
  | Some n =>
      if n <? expected_incoming_sequence_ s
      then (rejected InvalidSequenceNumber "sequence reset moves session backwards" None, s)
      else (accepts "sequence reset accepted" None, with_expected n s)
  end.

(** The [switch] of [receive], on a message that is in sequence. *)
Definition process (m : FixMessage) (t : Z) (s : FixSession) : FixSessionResult * FixSession :=
  match message_type m with
  | Logon => process_logon m t s
  | Logout => process_logout t s
  | Heartbeat => process_heartbeat s
  | TestRequest => process_test_request m t s
  | ResendRequest => process_resend_request m s
  | SequenceReset => process_sequence_reset m s
  | NewOrderSingle | OrderCancelRequest =>
      if negb (bool_decide (state_ s = Active))
      then reject InvalidState "application message received before logon" t s
      else (accepts "accepted" None, s)
  | ExecutionReport | Reject | Unknown =>
      reject UnsupportedMessage "unsupported FIX message type" t s
  end.

(** The answer to a message that is ahead of the sequence. *)
Definition request_resend (number t : Z) (s : FixSession) : FixSessionResult * FixSession :=
  let expected := expected_incoming_sequence_ s in
  let (r, s) := create_admin_message ResendRequest t s in
  ({| accepted := false; reject_reason := InvalidSequenceNumber;
      message := "incoming sequence gap detected";
      response := Some (set 16 (print_integer (number - 1)) (set 7 (print_integer expected) r));
      resend_begin_sequence := Some expected; resend_end_sequence := Some (number - 1) |}, s).

Definition receive (m : FixMessage) (t : Z) (s : FixSession) : FixSessionResult * FixSession :=
  if negb (validate_comp_ids m s)
  then if negb (bool_decide (get 49 m = Some (target_comp_id (config_ s))))
       then reject SenderMismatch "unexpected SenderCompID" t s
       else reject TargetMismatch "unexpected TargetCompID" t s
  else match sequence_number m with
  | None => reject MissingRequiredField "missing or invalid MsgSeqNum" t s
  | Some number =>
      if expected_incoming_sequence_ s <? number then request_resend number t s
      else if number <? expected_incoming_sequence_ s
      then reject InvalidSequenceNumber "incoming sequence number is too low" t s
      else process m t (consume t s)
  end.

(** ** Sending *)

Definition create_logon (t : Z) : ST FixSession FixMessage := fun s =>
  if negb (bool_decide (state_ s = Disconnected)) && negb (bool_decide (state_ s = AwaitingLogon))
  then (Throw (logic_error "cannot send logon in current FIX state"), s)
  else
    let fresh := reset_sequence_numbers_on_logon (config_ s) in
    let s := if fresh
             then {| config_ := config_ s; state_ := state_ s; expected_incoming_sequence_ := 1;
                     next_outgoing_sequence_ := 1;
                     last_received_time_ns_ := last_received_time_ns_ s;
                     last_sent_time_ns_ := last_sent_time_ns_ s |}
             else s in
    let (m, s) := create_admin_message Logon t (with_state AwaitingLogon s) in
    let m := set 108 (print_integer (heartbeat_interval_seconds (config_ s))) (set 98 (lit "0") m) in
    (Ok (if fresh then set 141 (lit "Y") m else m), s).

Definition create_logout (t : Z) (txt : list ascii) : ST FixSession FixMessage := fun s =>
  if negb (bool_decide (state_ s = Active))
  then (Throw (logic_error "cannot send logout when session is not active"), s)
  else
    let (m, s) := create_admin_message Logout t (with_state LogoutPending s) in
    (Ok (if bool_decide (txt = []) then m else set 58 txt m), s).

Definition create_test_request (t : Z) (id : list ascii) : ST FixSession FixMessage := fun s =>
  if bool_decide (id = []) then (Throw (invalid_argument "TestReqID cannot be empty"), s)
  else let (m, s) := create_admin_message TestRequest t s in (Ok (set 112 id m), s).

Definition prepare_outbound (m : FixMessage) (t : Z) : ST FixSession FixMessage := fun s =>
  if negb (bool_decide (state_ s = Active)) && negb (bool_decide (message_type m = Logon)) &&
     negb (bool_decide (message_type m = Logout)) && negb (bool_decide (message_type m = Reject))
  then (Throw (logic_error "cannot send application message while FIX session is inactive"), s)
  else (Ok (addressed t s m), sent t s).

(** ** Timers and the rest *)

Definition heartbeat_due (t : Z) (s : FixSession) : bool :=
  if negb (bool_decide (state_ s = Active)) || (last_sent_time_ns_ s =? 0) then false
  else
    let interval := u64 (u64 (heartbeat_interval_seconds (config_ s)) * nanoseconds_per_second) in
    u64 (last_sent_time_ns_ s + interval) <=? t.

Definition test_request_due (t : Z) (s : FixSession) : bool :=
  if negb (bool_decide (state_ s = Active)) || (last_received_time_ns_ s =? 0) then false
  else
    let interval :=
      u64 (u64 (u64 (heartbeat_interval_seconds (config_ s)) * nanoseconds_per_second) * 2) in
    u64 (last_received_time_ns_ s + interval) <=? t.

Definition reset (s : FixSession) : FixSession := {|
  config_ := config_ s; state_ := Disconnected; expected_incoming_sequence_ := 1;
  next_outgoing_sequence_ := 1; last_received_time_ns_ := 0; last_sent_time_ns_ := 0 |}.

Definition restore_sequence_state (incoming outgoing received_ns sent_ns : Z)
    : ST FixSession unit := fun s =>
  if (incoming <=? 0) || (outgoing <=? 0)
  then (Throw (invalid_argument "FIX restored sequence numbers must be positive"), s)
  else (Ok tt, {| config_ := config_ s; state_ := state_ s;
                  expected_incoming_sequence_ := incoming; next_outgoing_sequence_ := outgoing;
                  last_received_time_ns_ := received_ns; last_sent_time_ns_ := sent_ns |}).
