(* ===== verification/FixSessionProps.v ===== *)
(** * Properties of the FIX session

    Messages are numbered without gaps, accepted in sequence and at most once,
    and the state of the connection only changes along its graph. *)

From S2P Require Import Prelude.
From S2P Require Import Text.
From S2P Require Import Fix.
From S2P Require Import FixProps.
From S2P Require Import FixSession.

(** ** Fields *)

Lemma get_set_eq t v m : get t (set t v m) = Some v.
Proof.
  unfold get, set, with_fields. cbn [fields]. induction (fields m) as [|f fs IH]; cbn.
  - by rewrite Z.eqb_refl.
  - destruct (tag f =? t) eqn:E; cbn; [by rewrite Z.eqb_refl | by rewrite E].
Qed.

Lemma get_set_ne t t' v m : t <> t' -> get t (set t' v m) = get t m.
Proof.
  intros Ht. apply Z.eqb_neq in Ht as Ht'. rewrite Z.eqb_sym in Ht'.
  unfold get, set, with_fields. cbn [fields]. induction (fields m) as [|f fs IH]; cbn.
  - by rewrite Ht'.
  - destruct (tag f =? t') eqn:E; cbn.
    + apply Z.eqb_eq in E. by rewrite Ht', E, Ht'.
    + by destruct (tag f =? t).
Qed.

Lemma type_set t v m : message_type (set t v m) = message_type m.
Proof. done. Qed.

Lemma begin_set t v m : begin_string (set t v m) = begin_string m.
Proof. done. Qed.

(** Reads a field of a message that was just written. *)
Ltac get_fields := rewrite ?get_set_eq, ?get_set_ne by lia; rewrite ?get_set_eq.

(** ** The header *)

(** A message that [s] may send: its own number, its CompIDs. *)
Definition numbered (s : FixSession) (m : FixMessage) : Prop :=
  get 34 m = Some (print_integer (next_outgoing_sequence_ s)) /\
  get 49 m = Some (sender_comp_id (config_ s)) /\ get 56 m = Some (target_comp_id (config_ s)).

Lemma addressed_numbered t s m : numbered s (addressed t s m).
Proof. unfold numbered, addressed. split_and!; by repeat (rewrite get_set_eq || rewrite get_set_ne by lia). Qed.

Lemma set_numbered s t v m : t <> 34 -> t <> 49 -> t <> 56 -> numbered s m -> numbered s (set t v m).
Proof. unfold numbered. intros H1 H2 H3 H. by rewrite !get_set_ne by congruence. Qed.

Lemma numbered_with_state s st m : numbered (with_state st s) m <-> numbered s m.
Proof. done. Qed.

Lemma numbered_with_config s n m :
  numbered (with_config (with_heartbeat n (config_ s)) s) m <-> numbered s m.
Proof. done. Qed.

(** ** One call *)

(** What identifies the two ends of a session. *)
Definition ends (s : FixSession) : list ascii * list ascii * bool :=
  (sender_comp_id (config_ s), target_comp_id (config_ s),
   reset_sequence_numbers_on_logon (config_ s)).

(** The call sends nothing, or one message with the next number. *)
Definition sends (s : FixSession) (out : option FixMessage) (s' : FixSession) : Prop :=
  ends s' = ends s /\
  match out with
  | None => next_outgoing_sequence_ s' = next_outgoing_sequence_ s
  | Some m => numbered s m /\ next_outgoing_sequence_ s' = i32 (next_outgoing_sequence_ s + 1)
  end.

(** The connection only changes along the edges of its graph. *)
Definition state_edge (logon : bool) (st st' : FixSessionState) : Prop :=
  match st, st' with
  | Disconnected, AwaitingLogon | AwaitingLogon, AwaitingLogon => True
  | (Disconnected | AwaitingLogon), Active => logon = true
  | Active, LogoutPending => True
  | _, Terminated => True
  | _, _ => st' = st
  end.

Lemma state_edge_refl b st : state_edge b st st.
Proof. by destruct st. Qed.

Definition is_application (ty : FixMessageType) : bool :=
  match ty with NewOrderSingle | OrderCancelRequest => true | _ => false end.

Lemma reject_ok reason text t s :
  let (r, s') := reject reason text t s in
  sends s (response r) s' /\ accepted r = false /\ s' = sent t s.
Proof.
  unfold reject. cbn [create_admin_message response rejected accepted]. split; [|done].
  split; [done|]. split; [|done]. apply set_numbered; [lia..|]. apply addressed_numbered.
Qed.

Definition taken_ok (m : FixMessage) (s : FixSession) (p : FixSessionResult * FixSession) : Prop :=
  sends s (response p.1) p.2 /\
  state_edge (accepted p.1 && bool_decide (message_type m = Logon)) (state_ s) (state_ p.2) /\
  (accepted p.1 = true -> is_application (message_type m) = true -> state_ s = Active) /\
  (expected_incoming_sequence_ p.2 = expected_incoming_sequence_ s \/
   exists n, parse_positive_integer (get 36 m) = Some n /\
     expected_incoming_sequence_ s <= n /\ expected_incoming_sequence_ p.2 = n).

Lemma taken_reject m s reason text t : taken_ok m s (reject reason text t s).
Proof.
  pose proof (reject_ok reason text t s) as H. destruct (reject reason text t s) as [r s'].
  destruct H as (H1 & H2 & ->). split; [done|]. cbn [fst snd]. rewrite H2.
  split; [apply state_edge_refl|]. split; [done | by left].
Qed.

Lemma taken_rejected m s reason text : taken_ok m s (rejected reason text None, s).
Proof.
  split; [done|]. split; [apply state_edge_refl|]. split; [done | by left].
Qed.

(** An accepted message that is answered with [r], or not. *)
Lemma taken_accepts m s text r s' :
  sends s r s' -> state_edge (bool_decide (message_type m = Logon)) (state_ s) (state_ s') ->
  (is_application (message_type m) = true -> state_ s = Active) ->
  expected_incoming_sequence_ s' = expected_incoming_sequence_ s ->
  taken_ok m s (accepts text r, s').
Proof. intros H1 H2 H3 H4. split; [done|]. split; [done|]. split; [done | by left]. Qed.

#[local] Hint Resolve taken_reject taken_rejected : session.

(** A message in sequence, after its number was consumed. *)
Lemma process_ok m t s : taken_ok m s (process m t s).
Proof.
  unfold process. destruct (message_type m) eqn:Em; auto with session.
  - unfold process_logon. destruct (negb _ && negb _) eqn:E; auto with session.
    destruct (parse_positive_integer _); auto with session. cbn [create_admin_message].
    apply taken_accepts; [done | | by rewrite Em | done].
    rewrite bool_decide_eq_true_2 by done. by destruct (state_ s).
  - unfold process_logout. case_bool_decide; auto with session.
    destruct (negb _); [cbn [create_admin_message]|]; (apply taken_accepts;
      [done | by destruct (state_ s) | by rewrite Em | done]).
  - unfold process_heartbeat. destruct (negb _); auto with session.
    apply taken_accepts; [done | apply state_edge_refl | by rewrite Em | done].
  - unfold process_test_request. destruct (negb _); auto with session.
    destruct (get 112 m) as [[|c id]|]; auto with session. cbn [create_heartbeat create_admin_message].
    by apply taken_accepts; [|apply state_edge_refl|rewrite Em|].
  - unfold process_resend_request. destruct (negb _); auto with session.
    destruct (get 7 m) as [b|]; auto with session. destruct (get 16 m) as [e|]; auto with session.
    destruct (parse_positive_integer (Some b)); auto with session.
    destruct (parse_positive_integer (Some e)); auto with session.
    destruct (_ <? _); auto with session.
    split; [done|]. split; [apply state_edge_refl|]. split; [by rewrite Em | by left].
  - unfold process_sequence_reset. destruct (parse_positive_integer _) as [n|] eqn:En; auto with session.
    destruct (_ <? _) eqn:E; auto with session. breflect.
    split; [done|]. split; [apply state_edge_refl|]. split; [by rewrite Em|]. right. by exists n.
  - destruct (negb _) eqn:E; auto with session. breflect.
    apply taken_accepts; [done | apply state_edge_refl | done | done].
  - destruct (negb _) eqn:E; auto with session. breflect.
    apply taken_accepts; [done | apply state_edge_refl | done | done].
Qed.

(** A message that was not in sequence changes only what is sent. *)
Definition left_ok (s : FixSession) (p : FixSessionResult * FixSession) : Prop :=
  sends s (response p.1) p.2 /\ accepted p.1 = false /\ state_ p.2 = state_ s /\
  expected_incoming_sequence_ p.2 = expected_incoming_sequence_ s.

Lemma left_reject s reason text t : left_ok s (reject reason text t s).
Proof.
  pose proof (reject_ok reason text t s) as H. destruct (reject reason text t s) as [r s'].
  by destruct H as (H1 & H2 & ->).
Qed.

Definition in_sequence (m : FixMessage) (s : FixSession) : Prop :=
  validate_comp_ids m s = true /\ sequence_number m = Some (expected_incoming_sequence_ s).

Lemma receive_ok m t s :
  left_ok s (receive m t s) \/
  (in_sequence m s /\ receive m t s = process m t (consume t s)).
Proof.
  unfold receive. destruct (validate_comp_ids m s) eqn:Ev; cbn [negb].
  2: { left. destruct (negb _); apply left_reject. }
  destruct (sequence_number m) as [n|] eqn:En; [|left; apply left_reject].
  destruct (_ <? n) eqn:E1; [left; done|].
  destruct (n <? _) eqn:E2; [left; apply left_reject|].
  right. split; [|done]. split; [done|]. breflect. rewrite En. f_equal. lia.
Qed.

Lemma receive_in_sequence m t s : in_sequence m s -> receive m t s = process m t (consume t s).
Proof.
  intros [H1 H2]. unfold receive. rewrite H1, H2. cbn [negb]. by rewrite Z.ltb_irrefl.
Qed.

(** ** Runs *)

Inductive session_event :=
| Receive (m : FixMessage) (t : Z)
| SendLogon (t : Z)
| SendLogout (t : Z) (txt : list ascii)
| SendHeartbeat (t : Z) (id : list ascii)
| SendTestRequest (t : Z) (id : list ascii)
| SendMessage (m : FixMessage) (t : Z).

(** What a call sends, and the message it accepts. *)
Definition call (f : ST FixSession FixMessage) (s : FixSession)
    : option FixMessage * option FixMessage * FixSession :=
  match f s with
  | (Ok m, s') => (Some m, None, s')
  | (Throw _, s') => (None, None, s')
  end.

Definition session_step (ev : session_event) (s : FixSession)
    : option FixMessage * option FixMessage * FixSession :=
  match ev with
  | Receive m t =>
      let (r, s') := receive m t s in (response r, if accepted r then Some m else None, s')
  | SendLogon t => call (create_logon t) s
  | SendLogout t txt => call (create_logout t txt) s
  | SendHeartbeat t id => let (m, s') := create_heartbeat t id s in (Some m, None, s')
  | SendTestRequest t id => call (create_test_request t id) s
  | SendMessage m t => call (prepare_outbound m t) s
  end.

(** The messages sent, the messages accepted with the state they met, and the
    session at the end. *)
Fixpoint session_run (es : list session_event) (s : FixSession)
    : list FixMessage * list (FixSessionState * FixMessage) * FixSession :=
  match es with
  | [] => ([], [], s)
  | ev :: es =>
      let '(out, taken, s1) := session_step ev s in
      let '(outs, takens, s2) := session_run es s1 in
      (option_list out ++ outs,
       match taken with Some m => [(state_ s, m)] | None => [] end ++ takens, s2)
  end.

(** The peer does not move the sequence past [bound]. *)
Definition within (bound : Z) (ev : session_event) : Prop :=
  match ev with
  | Receive m _ => forall n, parse_positive_integer (get 36 m) = Some n -> n <= bound
  | _ => True
  end.

Definition is_logon (taken : option FixMessage) : bool :=
  match taken with Some m => bool_decide (message_type m = Logon) | None => false end.

(** One event. *)
Definition step_ok (s : FixSession)
    (p : option FixMessage * option FixMessage * FixSession) (bound : Z) : Prop :=
  sends s p.1.1 p.2 /\ state_edge (is_logon p.1.2) (state_ s) (state_ p.2) /\
  expected_incoming_sequence_ s <= expected_incoming_sequence_ p.2 <= bound /\
  match p.1.2 with
  | None => True
  | Some m =>
      sequence_number m = Some (expected_incoming_sequence_ s) /\
      expected_incoming_sequence_ s < expected_incoming_sequence_ p.2 /\
      get 49 m = Some (target_comp_id (config_ s)) /\ get 56 m = Some (sender_comp_id (config_ s)) /\
      (is_application (message_type m) = true -> state_ s = Active)
  end.

Lemma i32_small z : - 2 ^ 31 <= z < 2 ^ 31 -> i32 z = z.
Proof. intros H. unfold i32. rewrite Z.mod_small; lia. Qed.

Lemma validate_fields m s : validate_comp_ids m s = true ->
  get 49 m = Some (target_comp_id (config_ s)) /\ get 56 m = Some (sender_comp_id (config_ s)).
Proof.
  unfold validate_comp_ids. destruct (get 49 m), (get 56 m); try done. intros H. breflect.
  by subst.
Qed.

Lemma receive_step_ok m t s bound :
  1 <= expected_incoming_sequence_ s < bound -> bound < 2 ^ 31 ->
  within bound (Receive m t) -> step_ok s (session_step (Receive m t) s) bound.
Proof.
  intros He Hb Hw. cbn [session_step]. destruct (receive_ok m t s) as [H | [[Hv Hn] Hr]].
  - destruct (receive m t s) as [r s']. destruct H as (H1 & H2 & H3 & H4). cbn [fst snd] in *.
    rewrite H2. split; [done|]. cbn [fst snd is_logon]. rewrite H3, H4.
    split; [apply state_edge_refl|]. split; [lia|done].
  - rewrite Hr. pose proof (process_ok m t (consume t s)) as H.
    destruct (process m t (consume t s)) as [r s']. destruct H as (H1 & H2 & H3 & H4).
    cbn [fst snd consume state_ expected_incoming_sequence_] in *.
    rewrite i32_small in H4 by lia.
    assert (Hx : expected_incoming_sequence_ s < expected_incoming_sequence_ s' <= bound).
    { destruct H4 as [-> | (n & H5 & H6 & ->)]; [lia|]. specialize (Hw n H5). lia. }
    split; [exact H1|]. destruct (accepted r); cbn [fst snd is_logon andb] in *.
    + split; [done|]. split; [lia|]. split; [done|]. split; [lia|].
      destruct (validate_fields m s Hv). by split_and!; [..|apply H3].
    + split; [done|]. split; [lia|done].
Qed.

Lemma call_ok s f (bound : Z) : expected_incoming_sequence_ s <= bound ->
  match f s with
  | (Ok m, s') => sends s (Some m) s'
  | (Throw _, s') => sends s None s'
  end ->
  state_edge false (state_ s) (state_ (f s).2) ->
  expected_incoming_sequence_ (f s).2 = expected_incoming_sequence_ s ->
  step_ok s (call f s) bound.
Proof.
  unfold call. intros Hb H1 H2 H3. destruct (f s) as [[m|e] s']; cbn [fst snd] in *;
    (split; [done|]; split; [done|]; cbn; split; [lia|done]).
Qed.

Lemma send_step_ok ev s bound :
  (forall m t, ev <> Receive m t) -> reset_sequence_numbers_on_logon (config_ s) = false ->
  expected_incoming_sequence_ s <= bound -> step_ok s (session_step ev s) bound.
Proof.
  intros Hev Hr Hb. destruct ev as [m t|t|t txt|t id|t id|m t]; cbn [session_step].
  - by destruct (Hev m t).
  - apply call_ok; [done|..]; unfold create_logon; rewrite Hr;
      destruct (negb (bool_decide (state_ s = Disconnected)) && _) eqn:E;
      first [done | apply state_edge_refl | idtac]. cbn. by destruct (state_ s).
  - apply call_ok; [done|..]; unfold create_logout; destruct (negb _) eqn:E;
      first [done | apply state_edge_refl | idtac].
    + cbn [create_admin_message]. split; [done|]. split; [|done]. by destruct txt.
    + breflect. cbn. by rewrite E.
  - cbn [create_heartbeat create_admin_message]. split; [|split; [apply state_edge_refl|cbn; lia]].
    split; [done|]. split; [|done]. by destruct id.
  - apply call_ok; unfold create_test_request; try case_bool_decide; try done; apply state_edge_refl.
  - apply call_ok; [done|..]; unfold prepare_outbound;
      destruct (negb (bool_decide (state_ s = Active)) && _ && _ && _);
      first [done | apply state_edge_refl | idtac].
    split; [done|]. split; [apply addressed_numbered|done].
Qed.

(** A session that has been logged on. *)
Definition logged (st : FixSessionState) : bool :=
  match st with Active | LogoutPending => true | _ => false end.

(** What holds of a run from [s] to [s']. *)
Record run_ok (s : FixSession) (outs : list FixMessage)
    (takens : list (FixSessionState * FixMessage)) (s' : FixSession) : Prop := {
  ro_ends : ends s' = ends s;
  ro_expected : expected_incoming_sequence_ s <= expected_incoming_sequence_ s';
  ro_next : next_outgoing_sequence_ s' = next_outgoing_sequence_ s + Z.of_nat (length outs);
  ro_sent : forall k m, outs !! k = Some m ->
    get 34 m = Some (print_integer (next_outgoing_sequence_ s + Z.of_nat k)) /\
    get 49 m = Some (sender_comp_id (config_ s)) /\ get 56 m = Some (target_comp_id (config_ s));
  ro_taken : exists ns, (fun p => sequence_number p.2) <$> takens = Some <$> ns /\
    StronglySorted Z.lt ns /\
    Forall (fun n => expected_incoming_sequence_ s <= n < expected_incoming_sequence_ s') ns;
  ro_from : Forall (fun p =>
    get 49 p.2 = Some (target_comp_id (config_ s)) /\ get 56 p.2 = Some (sender_comp_id (config_ s)) /\
    (is_application (message_type p.2) = true -> p.1 = Active)) takens;
  ro_logon : logged (state_ s) = false -> logged (state_ s') = true ->
    Exists (fun p => message_type p.2 = Logon) takens;
  ro_final : state_ s = Terminated -> state_ s' = Terminated
}.

Lemma run_ok_refl s : run_ok s [] [] s.
Proof.
  split; try done; [cbn; lia|exists [] | by intros ->].
  split_and!; [done|constructor|constructor].
Qed.

Lemma run_ok_step s out taken s1 outs takens s2 bound :
  step_ok s (out, taken, s1) bound -> next_outgoing_sequence_ s < 2 ^ 31 - 1 ->
  1 <= next_outgoing_sequence_ s -> run_ok s1 outs takens s2 ->
  run_ok s (option_list out ++ outs)
    (match taken with Some m => [(state_ s, m)] | None => [] end ++ takens) s2.
Proof.
  intros ([He Hs] & Hedge & Hexp & Htk) Hlt Hge [R1 R2 R3 R4 R5 R6 R7 R8]. cbn [fst snd] in *.
  assert (Hc : sender_comp_id (config_ s1) = sender_comp_id (config_ s) /\
               target_comp_id (config_ s1) = target_comp_id (config_ s)).
  { unfold ends in He. by injection He as ? ? ?. }
  destruct Hc as [Hc1 Hc2]. rewrite Hc1, Hc2 in R4, R6.
  assert (Hn : next_outgoing_sequence_ s1 = next_outgoing_sequence_ s + Z.of_nat (length (option_list out))).
  { destruct out as [m|]; [destruct Hs as [_ ->]; rewrite i32_small by lia|]; cbn; lia. }
  split.
  - congruence.
  - lia.
  - rewrite length_app. lia.
  - intros k m Hk. apply lookup_app_Some in Hk as [Hk | [Hk1 Hk2]].
    + destruct out as [m0|]; [|done]. destruct k; [|done]. injection Hk as ->.
      destruct Hs as [(H1 & H2 & H3) _]. cbn. by rewrite Z.add_0_r.
    + apply R4 in Hk2 as (H1 & H2 & H3). split_and!; try done. rewrite H1. do 2 f_equal. lia.
  - destruct R5 as (ns & H1 & H2 & H3). destruct taken as [m|]; cbn [app].
    + destruct Htk as (Hm & Hx & _). exists (expected_incoming_sequence_ s :: ns).
      cbn [fmap list_fmap]. split; [by rewrite <- H1, <- Hm|]. split.
      * constructor; [done|]. eapply Forall_impl; [exact H3|]. cbn. intros; lia.
      * constructor; [lia|]. eapply Forall_impl; [exact H3|]. cbn. intros; lia.
    + exists ns. split_and!; try done. eapply Forall_impl; [exact H3|]. cbn. intros; lia.
  - destruct taken as [m|]; [|done]. constructor; [|done]. cbn. by destruct Htk as (_ & _ & Htk).
  - intros L1 L2. destruct (logged (state_ s1)) eqn:L.
    + destruct taken as [m|]; cbn [is_logon] in Hedge.
      * left. cbn. unfold state_edge in Hedge.
        destruct (state_ s), (state_ s1); try done; by apply bool_decide_eq_true_1 in Hedge.
      * by destruct (state_ s), (state_ s1).
    + apply Exists_app. by right; apply R7.
  - intros E. apply R8. rewrite E in Hedge. by destruct (state_ s1).
Qed.

Lemma session_run_ok es s bound :
  reset_sequence_numbers_on_logon (config_ s) = false ->
  1 <= expected_incoming_sequence_ s <= bound -> bound + Z.of_nat (length es) < 2 ^ 31 ->
  1 <= next_outgoing_sequence_ s -> next_outgoing_sequence_ s + Z.of_nat (length es) < 2 ^ 31 ->
  Forall (within bound) es ->
  let '(outs, takens, s') := session_run es s in run_ok s outs takens s'.
Proof.
  revert s bound. induction es as [|ev es IH]; intros s bound Hr He Hb Hn1 Hn2 Hw; [apply run_ok_refl|].
  apply Forall_cons in Hw as [Hw1 Hw2]. cbn [length] in *. rewrite Nat2Z.inj_succ in *.
  assert (Hstep : step_ok s (session_step ev s) (bound + 1)).
  { destruct ev; try (apply send_step_ok; [done|done|lia]).
    apply receive_step_ok; [lia|lia|]. intros n Hx. specialize (Hw1 n Hx). lia. }
  cbn [session_run]. destruct (session_step ev s) as [[out taken] s1].
  pose proof Hstep as ([Hends Hs] & _ & Hexp & _). cbn [fst snd] in *.
  assert (Hn : next_outgoing_sequence_ s <= next_outgoing_sequence_ s1 <= next_outgoing_sequence_ s + 1).
  { destruct out; [destruct Hs as [_ ->]; rewrite i32_small by lia|]; lia. }
  assert (Hr1 : reset_sequence_numbers_on_logon (config_ s1) = false).
  { unfold ends in Hends. by injection Hends as ? ? ->. }
  specialize (IH s1 (bound + 1) Hr1 ltac:(lia) ltac:(lia) ltac:(lia) ltac:(lia)).
  destruct (session_run es s1) as [[outs takens] s2].
  eapply run_ok_step; [exact Hstep|lia|lia|]. apply IH.
  eapply Forall_impl; [exact Hw2|]. intros [] Hx; try done. intros n Hy. specialize (Hx n Hy). lia.
Qed.

(** C16: however sends and receipts follow each other, on a session that does not
    reset its numbers on logon: the messages it sends carry consecutive numbers and
    its CompIDs; the messages it accepts come from its peer with strictly increasing
    numbers, so none is accepted twice, and orders and cancels only while it is
    active; it is logged on only by a Logon it accepted and never leaves the
    terminated state.  All numbers, also the NewSeqNo of each SequenceReset that
    arrives, stay below [2 ^ 31] with the events that follow. *)
Theorem session_numbers_messages es s bound outs takens s' :
  session_run es s = (outs, takens, s') ->
  reset_sequence_numbers_on_logon (config_ s) = false ->
  1 <= expected_incoming_sequence_ s <= bound -> bound + Z.of_nat (length es) < 2 ^ 31 ->
  1 <= next_outgoing_sequence_ s -> next_outgoing_sequence_ s + Z.of_nat (length es) < 2 ^ 31 ->
  Forall (within bound) es ->
  next_outgoing_sequence_ s' = next_outgoing_sequence_ s + Z.of_nat (length outs) /\
  (forall k m, outs !! k = Some m ->
     get 34 m = Some (print_integer (next_outgoing_sequence_ s + Z.of_nat k)) /\
     get 49 m = Some (sender_comp_id (config_ s)) /\ get 56 m = Some (target_comp_id (config_ s))) /\
  (exists ns, (fun p => sequence_number p.2) <$> takens = Some <$> ns /\ StronglySorted Z.lt ns /\
     Forall (fun n => expected_incoming_sequence_ s <= n < expected_incoming_sequence_ s') ns) /\
  Forall (fun p =>
    get 49 p.2 = Some (target_comp_id (config_ s)) /\ get 56 p.2 = Some (sender_comp_id (config_ s)) /\
    (is_application (message_type p.2) = true -> p.1 = Active)) takens /\
  (logged (state_ s) = false -> logged (state_ s') = true ->
     Exists (fun p => message_type p.2 = Logon) takens) /\
  (state_ s = Terminated -> state_ s' = Terminated).
Proof.
  intros E H1 H2 H3 H4 H5 H6. pose proof (session_run_ok es s bound H1 H2 H3 H4 H5 H6) as H.
  rewrite E in H. destruct H as [_ _ R3 R4 R5 R6 R7 R8]. by split_and!.
Qed.

(** ** A concrete run *)

Definition demo_client_message (ty : FixMessageType) (n : Z) : FixMessage := {|
  begin_string := lit "FIX.4.4"; body_length := 0; message_type := ty;
  fields := [ {| tag := 34; value := print_integer n |}; {| tag := 49; value := lit "CLIENT" |};
              {| tag := 56; value := lit "MINIMATCH" |}; {| tag := 108; value := lit "30" |};
              {| tag := 112; value := lit "x" |} ];
  checksum := 0 |}.

Definition demo_start : FixSession := {|
  config_ := FixSessionConfig0; state_ := Disconnected; expected_incoming_sequence_ := 1;
  next_outgoing_sequence_ := 1; last_received_time_ns_ := 0; last_sent_time_ns_ := 0 |}.

Definition demo_events : list session_event :=
  [ Receive (demo_client_message NewOrderSingle 7) 1; Receive (demo_client_message Logon 1) 2;
    Receive (demo_client_message NewOrderSingle 2) 3; Receive (demo_client_message NewOrderSingle 2) 4;
    Receive (demo_client_message TestRequest 3) 5; SendMessage (demo_client_message ExecutionReport 9) 6;
    Receive (demo_client_message Logout 4) 7; Receive (demo_client_message NewOrderSingle 5) 8 ].

Lemma session_numbers_messages_witness :
  let '(outs, takens, s') := session_run demo_events demo_start in
  length outs = 7%nat /\ length takens = 4%nat /\ state_ s' = Terminated /\
  next_outgoing_sequence_ s' = 8 /\
  exists ns, (fun p => sequence_number p.2) <$> takens = Some <$> ns /\ StronglySorted Z.lt ns.
Proof.
  destruct (session_run demo_events demo_start) as [[outs takens] s'] eqn:E.
  destruct (session_numbers_messages demo_events demo_start 1 outs takens s' E) as
    (H1 & _ & (ns & H2 & H3 & _) & _).
  - reflexivity.
  - cbn. lia.
  - reflexivity.
  - cbn. lia.
  - reflexivity.
  - repeat apply Forall_cons_2; try apply Forall_nil_2; try exact I; intros n; discriminate.
  - assert (Hv : length (session_run demo_events demo_start).1.1 = 7%nat /\
      length (session_run demo_events demo_start).1.2 = 4%nat /\
      state_ (session_run demo_events demo_start).2 = Terminated) by (vm_compute; done).
    rewrite E in Hv. destruct Hv as (V1 & V2 & V3). cbn [fst snd] in V1, V2, V3.
    split; [exact V1|]. split; [exact V2|]. split; [exact V3|].
    split; [rewrite H1, V1; reflexivity|]. exists ns. split; [exact H2 | exact H3].
Defined.

(** ** Two sessions *)

(** Each side sends what its session answers; the message in flight after
    [n] deliveries, if any, and the two sessions, the next receiver first. *)
Fixpoint converse (n : nat) (m : option FixMessage) (t : Z) (a b : FixSession)
    : option FixMessage * FixSession * FixSession :=
  match n, m with
  | S n, Some m => let (r, a) := receive m t a in converse n (response r) t b a
  | _, _ => (m, a, b)
  end.

(** Two ends of one connection, [m] on its way from [b] to [a]. *)
Definition in_flight (m : FixMessage) (a b : FixSession) : Prop :=
  sender_comp_id (config_ a) = target_comp_id (config_ b) /\
  target_comp_id (config_ a) = sender_comp_id (config_ b) /\
  get 49 m = Some (sender_comp_id (config_ b)) /\ get 56 m = Some (target_comp_id (config_ b)) /\
  get 34 m = Some (print_integer (expected_incoming_sequence_ a)) /\
  next_outgoing_sequence_ b = expected_incoming_sequence_ a + 1 /\
  expected_incoming_sequence_ b = next_outgoing_sequence_ a /\
  1 <= expected_incoming_sequence_ a /\ 1 <= next_outgoing_sequence_ a.

(** A session answers a Reject, which it does not support, with a Reject: two
    sessions that exchange one never stop. *)
Lemma rejects_never_end n : forall m t a b, in_flight m a b -> message_type m = Reject ->
  expected_incoming_sequence_ a + Z.of_nat n < 2 ^ 31 - 1 ->
  next_outgoing_sequence_ a + Z.of_nat n < 2 ^ 31 - 1 ->
  exists m', (converse n (Some m) t a b).1.1 = Some m' /\ message_type m' = Reject.
Proof.
  induction n as [|n IH]; intros m t a b Hf Hm H1 H2; [by exists m|].
  destruct Hf as (C1 & C2 & G1 & G2 & G3 & N1 & N2 & P1 & P2). cbn [converse].
  assert (Hin : in_sequence m a).
  { split.
    - unfold validate_comp_ids. rewrite G1, G2, C1, C2. by rewrite !bool_decide_eq_true_2.
    - unfold sequence_number, parse_positive_integer. rewrite G3. cbn [mbind option_bind].
      rewrite FixProps.parse_print by (unfold in_int; lia). by rewrite (proj2 (Z.leb_gt _ _)) by lia. }
  rewrite receive_in_sequence by done. unfold process. rewrite Hm.
  unfold reject. cbn [create_admin_message rejected response].
  apply IH; [|done|unfold sent, consume; cbn..].
  - unfold in_flight, sent, consume, addressed. cbn [config_ next_outgoing_sequence_ expected_incoming_sequence_].
    rewrite !i32_small by lia. rewrite N2.
    split_and!; try done; try lia; by repeat (rewrite get_set_eq || rewrite get_set_ne by lia).
  - lia.
  - lia.
Qed.

Definition demo_peer : FixSession := {|
  config_ := {| sender_comp_id := lit "CLIENT"; target_comp_id := lit "MINIMATCH";
                heartbeat_interval_seconds := 30; reset_sequence_numbers_on_logon := false |};
  state_ := Disconnected; expected_incoming_sequence_ := 1; next_outgoing_sequence_ := 1;
  last_received_time_ns_ := 0; last_sent_time_ns_ := 0 |}.

(** The logon of one session to another leads there: the answer to the Logon
    is a Logon, which is answered with a Logon again, and that is rejected. *)
Example logon_ends_in_rejects :
  match create_logon 1 demo_start with
  | (Ok m, initiator) =>
      let '(m3, a, b) := converse 3 (Some m) 1 demo_peer initiator in
      state_ a = Active /\ state_ b = Active /\
      exists r, m3 = Some r /\ message_type r = Reject /\ in_flight r a b
  | _ => False
  end.
Proof.
  vm_compute. split; [done|]. split; [done|]. eexists. split; [reflexivity|]. split; [reflexivity|].
  split_and!; done.
Qed.
