(* ===== verification/FixStream.v ===== *)
(** * The server's side of FIX ([fix_server.cpp])

    Messages cut out of a stream and the answer to a resend request; and the theorem
    that however the network cuts the bytes, the server handles the messages that
    were sent, in order. *)

From S2P Require Import Prelude.
From S2P Require Import Text.
From S2P Require Import Fix.
From S2P Require Import FixProps.
From S2P Require Import FixSession.

(** ** The stream *)

(** The message at the front of the buffer, if it is complete, and what is
    left in the buffer. *)
Definition extract_fix_message (buffer : list ascii) : option (list ascii) * list ascii :=
  match find_text (lit "8=FIX.") buffer with
  | None => (None, if 8192 <? Z.of_nat (length buffer) then [] else buffer)
  | Some begin =>
      let buffer := drop begin buffer in
      let checksum_marker := FIX_SOH :: lit "10=" in
      match find_text checksum_marker buffer with
      | None => (None, buffer)
      | Some checksum =>
          let checksum_value := (checksum + length checksum_marker)%nat in
          match find_from FIX_SOH checksum_value buffer with
          | None => (None, buffer)
          | Some message_end => (Some (take (S message_end) buffer), drop (S message_end) buffer)
          end
      end
  end.

(** The loop over the buffer: every round takes a message out of it, so its
    length bounds the rounds. *)
Fixpoint extract_loop (fuel : nat) (buffer : list ascii) : list (list ascii) * list ascii :=
  match fuel with
  | O => ([], buffer)
  | S fuel =>
      match extract_fix_message buffer with
      | (None, buffer) => ([], buffer)
      | (Some wire, buffer) =>
          let (wires, buffer) := extract_loop fuel buffer in (wire :: wires, buffer)
      end
  end.

Definition extract_all (buffer : list ascii) : list (list ascii) * list ascii :=
  extract_loop (S (length buffer)) buffer.

(** The loop of [handle_client] over what [read_some] returns: the messages in
    the order they are handled, and what is accumulated at the end. *)
Fixpoint read_stream (accumulated : list ascii) (reads : list (list ascii))
    : list (list ascii) * list ascii :=
  match reads with
  | [] => ([], accumulated)
  | bytes :: reads =>
      let (wires, accumulated) := extract_all (accumulated ++ bytes) in
      let (more, accumulated) := read_stream accumulated reads in
      (wires ++ more, accumulated)
  end.

(** ** Resending *)

Record StoredFixMessage := {
  sm_id : Z;
  sm_session_id : list ascii;
  sm_direction : list ascii;
  sm_sequence_number : Z;
  sm_message_type : list ascii;
  sm_wire_message : list ascii;
  sm_timestamp_ns : Z
}.

(** [boost::asio::write]: the messages written, in order. *)
Definition write (wire : list ascii) : ST (list (list ascii)) unit :=
  fun out => (Ok tt, out ++ [wire]).

Definition administrative (ty : FixMessageType) : bool :=
  match ty with
  | Logon | Logout | Heartbeat | TestRequest | ResendRequest | SequenceReset | Reject => true
  | NewOrderSingle | OrderCancelRequest | ExecutionReport | Unknown => false
  end.

Section resend.
Context (sender_comp_id target_comp_id : list ascii) (timestamp : Z).

(** The lambda [send_gap_fill] *)
Definition send_gap_fill (gap_begin gap_end : Z) : ST (list (list ascii)) unit :=
  if (gap_begin <=? 0) || (gap_end <? gap_begin) then mret tt
  else
    gap_fill ← lift (create_fix_gap_fill gap_begin (i32 (gap_end + 1)) sender_comp_id target_comp_id
                       timestamp);
    gap_wire ← lift (encode_fix_message gap_fill);
    write gap_wire.

(** The loop over the stored messages; it returns the pending gap. *)
Fixpoint resend_loop (end_sequence : Z) (stored : list StoredFixMessage) (pending : Z * Z)
    : ST (list (list ascii)) (Z * Z) :=
  match stored with
  | [] => mret pending
  | m :: stored =>
      if end_sequence <? sm_sequence_number m then mret pending
      else match parse_fix_message (sm_wire_message m) with
      | Invalid _ => resend_loop end_sequence stored pending
      | Valid parsed =>
          if administrative (message_type parsed) then
            let first := if pending.1 =? 0 then sm_sequence_number m else pending.1 in
            resend_loop end_sequence stored (first, sm_sequence_number m)
          else
            pending ← (if negb (pending.1 =? 0)
                       then _ ← send_gap_fill pending.1 pending.2; mret (0, 0)
                       else mret pending);
            resent ← lift (prepare_fix_resend parsed timestamp);
            resend_wire ← lift (encode_fix_message resent);
            _ ← write resend_wire;
            resend_loop end_sequence stored pending
      end
  end.

Definition resend_stored (end_sequence : Z) (stored : list StoredFixMessage)
    : ST (list (list ascii)) unit :=
  pending ← resend_loop end_sequence stored (0, 0);
  if negb (pending.1 =? 0) then send_gap_fill pending.1 pending.2 else mret tt.

End resend.

(** A string that was moved from: the libraries in use leave it empty. *)
Definition moved_from : list ascii := [].

(** What [handle_client] does with an accepted resend request.  Its parameters
    [sender_comp_id] and [target_comp_id] were moved into the configuration of
    the session when it was made. *)
Definition answer_resend_request (timestamp end_sequence : Z) (stored : list StoredFixMessage)
    : ST (list (list ascii)) unit :=
  resend_stored moved_from moved_from timestamp end_sequence stored.

(** ** Messages out of a stream *)

(** ** The checksum marker of an encoded message *)

Definition marker : list ascii := FIX_SOH :: lit "10=".

(** Only tag 10 prints as ["10"]. *)
Lemma text_not_checksum z v y : in_int z -> z <> 10 ->
  starts_with (lit "10=") (text (print_integer z) v ++ y) = false.
Proof.
  intros Hz Hn. unfold starts_with, text. apply bool_decide_eq_false_2. intros H.
  apply Hn. assert (Hp : print_integer z = lit "10").
  { pose proof (numeric_no equals_sign _ (print_numeric z) ltac:(by left)) as Hno.
    rewrite <- app_assoc in H. destruct (print_integer z) as [|a [|b [|c l]]]; cbn in H.
    - done.
    - by injection H.
    - by injection H as -> ->.
    - injection H as -> -> ->. by destruct Hno; do 2 right; left. }
  apply parse_print in Hz. rewrite Hp in Hz. vm_compute in Hz. by injection Hz.
Qed.

Lemma find_marker fs y :
  Forall (fun f => FIX_SOH ∉ f) fs ->
  Forall (fun f => forall y, starts_with (lit "10=") (f ++ y) = false) fs -> fs <> [] ->
  find_text marker (unsplit fs ++ lit "10=" ++ y) = Some (length (unsplit fs) - 1)%nat.
Proof.
  induction fs as [|f fs IH]; intros H1 H2 Hne; [done|].
  apply Forall_cons in H1 as [H1 H1']. apply Forall_cons in H2 as [_ H2'].
  rewrite unsplit_cons, <- app_assoc. cbn [app].
  unfold marker at 1. rewrite find_text_skip by done. fold marker.
  destruct fs as [|g fs].
  - rewrite find_text_here by apply (starts_with_prefix marker). cbn [fmap option_fmap option_map].
    f_equal. rewrite length_app. cbn. lia.
  - cbn [find_text].
    assert (E : starts_with marker (FIX_SOH :: unsplit (g :: fs) ++ lit "10=" ++ y) = false).
    { apply Forall_cons in H2' as [H2' _]. unfold marker, starts_with in *. rewrite unsplit_cons.
      specialize (H2' ((FIX_SOH :: unsplit fs) ++ lit "10=" ++ y)). breflect.
      apply bool_decide_eq_false_2. rewrite <- !app_assoc in *. intros E. by injection E. }
    rewrite E, IH by done. cbn [fmap option_fmap option_map]. f_equal.
    rewrite length_app. cbn [length]. rewrite (unsplit_cons g), length_app. cbn [length]. lia.
Qed.

(** What the server can find in a stream. *)
Definition streamed (m : FixMessage) : Prop :=
  well_formed m /\ starts_with (lit "FIX.") (begin_string m) = true.

Lemma prefix_not_checksum m : well_formed m ->
  Forall (fun f => forall y, starts_with (lit "10=") (f ++ y) = false) (prefix_texts m).
Proof.
  intros [_ Hf _]. unfold prefix_texts, body_texts.
  repeat apply Forall_cons_2; try (intros y).
  - apply (text_not_checksum 8); [unfold in_int|]; lia.
  - apply (text_not_checksum 9); [unfold in_int|]; lia.
  - apply (text_not_checksum 35); [unfold in_int|]; lia.
  - apply Forall_fmap, Forall_forall. intros f Hin y. rewrite Forall_forall in Hf.
    apply text_not_checksum; [by apply Hf|]. intros E.
    unfold carried in Hin. apply list_elem_of_In, filter_In in Hin as [_ Hin].
    by rewrite E in Hin.
Qed.

Lemma wire_marker m x : well_formed m ->
  find_text marker (wire_of m ++ x) = Some (length (encode_prefix m) - 1)%nat.
Proof.
  intros H. apply find_text_app. unfold wire_of. rewrite encode_prefix_texts.
  change (text (lit "10") (checksum_digits m) ++ [FIX_SOH])
    with (lit "10=" ++ checksum_digits m ++ [FIX_SOH]).
  apply find_marker; [|by apply prefix_not_checksum | done].
  eapply Forall_impl; [by apply prefix_texts_ok|]. by intros f [_ Hf].
Qed.

Lemma prefix_positive m : (0 < length (encode_prefix m))%nat.
Proof. rewrite encode_prefix_texts. unfold prefix_texts. rewrite unsplit_cons. cbn. lia. Qed.

Lemma length_wire m : length (wire_of m) = (length (encode_prefix m) + 7)%nat.
Proof.
  unfold wire_of, text. rewrite !length_app. cbn [length].
  destruct (checksum_text _ (checksum_range (encode_prefix m))) as (_ & _ & Hl & _).
  fold (checksum_digits m) in Hl. rewrite Hl. cbn. lia.
Qed.

Lemma wire_end m x :
  find_from FIX_SOH (length (encode_prefix m) + 3) (wire_of m ++ x) =
  Some (length (encode_prefix m) + 6)%nat.
Proof.
  unfold find_from, wire_of, text. rewrite <- !app_assoc, drop_app_ge by lia.
  replace (_ + 3 - _)%nat with 3%nat by lia. cbn [lit String.list_ascii_of_string app drop].
  rewrite drop_0. cbn [app].
  rewrite find_char_at by (apply digits_no_soh; by right).
  destruct (checksum_text _ (checksum_range (encode_prefix m))) as (_ & _ & Hl & _).
  fold (checksum_digits m) in Hl. rewrite Hl. cbn. f_equal. lia.
Qed.

Lemma begins_fix m x : starts_with (lit "FIX.") (begin_string m) = true ->
  starts_with (lit "8=FIX.") (wire_of m ++ x) = true.
Proof.
  intros H. unfold wire_of. rewrite encode_prefix_texts. unfold prefix_texts. rewrite unsplit_cons.
  unfold text at 1. rewrite <- !app_assoc. cbn [lit String.list_ascii_of_string app].
  apply (starts_with_app _ _ (FIX_SOH :: unsplit (text (lit "9") (length_text m) :: body_texts m) ++
    text (lit "10") (checksum_digits m) ++ [FIX_SOH] ++ x)) in H.
  unfold starts_with in *. breflect. apply bool_decide_eq_true_2.
  cbn [lit String.list_ascii_of_string length take app] in *. by rewrite H.
Qed.

Lemma extract_wire m x : streamed m -> extract_fix_message (wire_of m ++ x) = (Some (wire_of m), x).
Proof.
  intros [Hm Hb]. unfold extract_fix_message.
  rewrite find_text_here by by apply begins_fix. cbn [drop]. rewrite drop_0. fold marker.
  rewrite wire_marker by done. pose proof (prefix_positive m).
  replace (length (encode_prefix m) - 1 + length marker)%nat with (length (encode_prefix m) + 3)%nat
    by (cbn; lia).
  rewrite wire_end. replace (S (_ + 6)) with (length (wire_of m)) by (rewrite length_wire; lia).
  by rewrite take_app_length, drop_app_length.
Qed.

Lemma find_char_app c s t i : find_char c s = Some i -> find_char c (s ++ t) = Some i.
Proof.
  intros H. apply find_char_split in H as (s1 & s2 & -> & H & ->). rewrite <- app_assoc. cbn [app].
  by rewrite find_char_at.
Qed.

Lemma find_from_app c n s t i : (n <= length s)%nat ->
  find_from c n s = Some i -> find_from c n (s ++ t) = Some i.
Proof.
  unfold find_from. intros Hn H. destruct (find_char c (drop n s)) as [j|] eqn:E; [|done].
  injection H as <-. rewrite drop_app_le by done. by rewrite (find_char_app _ _ _ j).
Qed.

Lemma find_from_lt c n s i : find_from c n s = Some i -> (i < length s)%nat.
Proof.
  unfold find_from. intros H. destruct (find_char c (drop n s)) as [j|] eqn:E; [|done].
  injection H as <-. apply find_char_split in E as (s1 & s2 & E & _ & ->).
  apply (f_equal length) in E. rewrite length_drop, length_app in E. cbn in E. lia.
Qed.

(** An incomplete message stays in the buffer. *)
Lemma extract_part m b y : streamed m -> wire_of m = b ++ y -> y <> [] ->
  extract_fix_message b = (None, b).
Proof.
  intros [Hm Hb] Hw Hy. unfold extract_fix_message.
  pose proof (begins_fix m [] Hb) as Hb'. rewrite app_nil_r, Hw in Hb'.
  destruct (find_text (lit "8=FIX.") b) as [i|] eqn:E.
  - assert (i = O) as ->.
    { apply (find_text_app _ _ y) in E. rewrite (find_text_here _ _ Hb') in E. by injection E. }
    rewrite drop_0. fold marker. destruct (find_text marker b) as [k|] eqn:Ek; [|done].
    pose proof (find_text_length _ _ _ Ek) as Hk.
    apply (find_text_app _ _ y) in Ek. pose proof (wire_marker m [] Hm) as Hk'.
    rewrite app_nil_r, Hw, Ek in Hk'.
    assert (k = length (encode_prefix m) - 1)%nat as -> by congruence. pose proof (prefix_positive m).
    replace (_ - 1 + length marker)%nat with (length (encode_prefix m) + 3)%nat by (cbn; lia).
    destruct (find_from _ _ b) as [e|] eqn:Ee; [|done]. exfalso.
    pose proof (find_from_lt _ _ _ _ Ee) as He.
    apply (find_from_app _ _ _ y) in Ee; [|change (length marker) with 4%nat in Hk; lia].
    pose proof (wire_end m []) as He'. rewrite app_nil_r, Hw, Ee in He'.
    assert (e = length (encode_prefix m) + 6)%nat as -> by congruence.
    pose proof (length_wire m) as Hl. rewrite Hw, length_app in Hl. destruct y; [done|]. cbn [length] in Hl. lia.
  - assert (Hl : (length b <= 6)%nat).
    { destruct (le_lt_dec (length b) 6); [done|]. exfalso.
      assert (starts_with (lit "8=FIX.") b = true).
      { unfold starts_with in *. breflect. apply bool_decide_eq_true_2.
        change (length (lit "8=FIX.")) with 6%nat in *. by rewrite take_app_le in Hb' by lia. }
      by rewrite find_text_here in E. }
    by rewrite (proj2 (Z.ltb_ge _ _)) by lia.
Qed.

(** Taking messages out of a buffer that holds the start of a stream: whole
    messages come out, an incomplete one stays. *)
Lemma extract_loop_stream ms : Forall streamed ms -> forall fuel buffer tail,
  (length buffer < fuel)%nat -> buffer ++ tail = concat (wire_of <$> ms) ->
  exists done todo, ms = done ++ todo /\
    exists b, extract_loop fuel buffer = (wire_of <$> done, b) /\
      b ++ tail = concat (wire_of <$> todo) /\
      forall m, head todo = Some m -> (length b < length (wire_of m))%nat.
Proof.
  induction 1 as [|m ms Hm _ IH]; intros fuel buffer tail Hf Hb.
  - apply app_nil in Hb as [-> ->]. exists [], []. split; [done|]. exists [].
    split; [by destruct fuel|done].
  - cbn [fmap list_fmap concat] in Hb. destruct fuel as [|fuel]; [lia|]. cbn [extract_loop].
    destruct (le_lt_dec (length (wire_of m)) (length buffer)) as [Hl|Hl].
    + assert (exists x, buffer = wire_of m ++ x) as [x ->].
      { exists (drop (length (wire_of m)) buffer). rewrite <- (take_drop (length (wire_of m)) buffer) at 1.
        f_equal. apply (f_equal (take (length (wire_of m)))) in Hb.
        by rewrite take_app_le, take_app_length in Hb by lia. }
      rewrite extract_wire by done. rewrite <- app_assoc in Hb. apply app_inv_head in Hb.
      rewrite length_app, length_wire in Hf.
      destruct (IH fuel x tail ltac:(lia) Hb) as (done & todo & -> & b & H1 & H2 & H3).
      exists (m :: done), todo. split; [done|]. exists b. by rewrite H1.
    + exists [], (m :: ms). split; [done|]. exists buffer.
      assert (exists y, wire_of m = buffer ++ y /\ y <> []) as (y & Hy & Hne).
      { exists (drop (length buffer) (wire_of m)). split.
        - rewrite <- (take_drop (length buffer) (wire_of m)) at 1. f_equal.
          apply (f_equal (take (length buffer))) in Hb.
          by rewrite take_app_length, take_app_le in Hb by lia.
        - intros E. apply (f_equal length) in E. rewrite length_drop in E. cbn [length] in E. lia. }
      rewrite (extract_part m buffer y) by done. split; [done|]. split; [done|].
      intros ? [= <-]. lia.
Qed.

Lemma read_stream_ok reads : forall ms accumulated tail, Forall streamed ms ->
  accumulated ++ concat reads ++ tail = concat (wire_of <$> ms) ->
  (forall m, head ms = Some m -> (length accumulated < length (wire_of m))%nat) ->
  exists done todo, ms = done ++ todo /\
    exists b, read_stream accumulated reads = (wire_of <$> done, b) /\
      b ++ tail = concat (wire_of <$> todo) /\
      forall m, head todo = Some m -> (length b < length (wire_of m))%nat.
Proof.
  induction reads as [|bytes reads IH]; intros ms accumulated tail Hms Hb Hacc.
  - exists [], ms. split; [done|]. by exists accumulated.
  - cbn [concat read_stream] in *. unfold extract_all.
    destruct (extract_loop_stream ms Hms (S (length (accumulated ++ bytes))) (accumulated ++ bytes)
      (concat reads ++ tail)) as (done & todo & -> & b & H1 & H2 & H3); [lia|by rewrite <- Hb, <- !app_assoc|].
    rewrite H1. apply Forall_app in Hms as [_ Hms].
    destruct (IH todo b tail Hms H2 H3) as (done2 & todo2 & -> & b2 & H4 & H5 & H6).
    rewrite H4. exists (done ++ done2), todo2. split; [by rewrite app_assoc|]. exists b2.
    by rewrite fmap_app.
Qed.

(** C18: when the bytes of a stream of encoded messages arrive in pieces, cut
    anywhere, and [tail] is still to come, the server has taken out the
    messages that have arrived in full, in order, each as it was encoded, and
    it keeps less than one message; when all has arrived nothing is left.
    Every message taken out parses. *)
Theorem stream_is_reassembled ms reads tail :
  Forall (fun m => streamed m /\ message_type m <> Unknown) ms ->
  concat reads ++ tail = concat (wire_of <$> ms) ->
  exists done todo accumulated, ms = done ++ todo /\
    read_stream [] reads = (wire_of <$> done, accumulated) /\
    accumulated ++ tail = concat (wire_of <$> todo) /\
    (forall m, head todo = Some m -> (length accumulated < length (wire_of m))%nat) /\
    (tail = [] -> todo = [] /\ accumulated = []) /\
    Forall (fun m => encode_fix_message m = Ok (wire_of m) /\
                     parse_fix_message (wire_of m) = Valid (received m)) ms.
Proof.
  intros Hms Hb.
  assert (Hs : Forall streamed ms) by (eapply Forall_impl; [exact Hms|]; by intros m [H _]).
  destruct (read_stream_ok reads ms [] tail Hs Hb) as (done & todo & Hd & b & H1 & H2 & H3).
  { intros m _. rewrite length_wire. cbn. lia. }
  exists done, todo, b. split_and!; try done.
  - intros ->. rewrite app_nil_r in H2. destruct todo as [|m todo]; [done|].
    specialize (H3 m eq_refl). rewrite H2 in H3. cbn [fmap list_fmap concat] in H3.
    rewrite length_app in H3. lia.
  - eapply Forall_impl; [exact Hms|]. intros m [[H _] Ht]. split; [|by apply parse_wire].
    rewrite encode_wire. by rewrite bool_decide_eq_false_2.
Qed.

(** Two messages that arrive in three pieces. *)
Lemma stream_is_reassembled_witness :
  let w := wire_of demo_message in
  exists todo accumulated,
    read_stream [] [take 30 w; drop 30 w ++ take 9 w; drop 9 w] = ([w; w], accumulated) /\
    todo = @nil FixMessage /\ accumulated = [].
Proof.
  intros w.
  destruct (stream_is_reassembled [demo_message; demo_message]
    [take 30 w; drop 30 w ++ take 9 w; drop 9 w] []) as (done & todo & acc & H1 & H2 & _ & _ & H3 & _).
  - repeat apply Forall_cons_2; try apply Forall_nil_2;
      (split; [split; [exact demo_well_formed | reflexivity] | discriminate]).
  - vm_compute. reflexivity.
  - destruct (H3 eq_refl) as [-> ->]. exists [], []. split; [|split; reflexivity].
    rewrite H2. rewrite app_nil_r in H1. subst done. reflexivity.
Defined.
