(* ===== verification/FixResend.v ===== *)
(** * Recovering a gap

    The answer to a resend request brings the session that asked for it to the
    end of the range, whatever mixture of messages was stored. *)

From S2P Require Import Prelude.
From S2P Require Import Text.
From S2P Require Import Fix.
From S2P Require Import FixProps.
From S2P Require Import FixSession.
From S2P Require Import FixSessionProps.
From S2P Require Import FixStream.

(** A session reads the messages that arrive; one that does not parse is
    skipped. *)
Fixpoint deliver (wires : list (list ascii)) (t : Z) (s : FixSession) : FixSession :=
  match wires with
  | [] => s
  | w :: wires =>
      deliver wires t (match parse_fix_message w with
                       | Valid m => (receive m t s).2
                       | Invalid _ => s
                       end)
  end.

Lemma deliver_app ws vs t s : deliver (ws ++ vs) t s = deliver vs t (deliver ws t s).
Proof. revert s. induction ws as [|w ws IH]; intros s; [done|]. apply IH. Qed.

(** A session only looks at fields that the encoding keeps. *)
Lemma receive_received m t s : receive (received m) t s = receive m t s.
Proof.
  unfold receive, validate_comp_ids, sequence_number, process, process_logon, process_test_request,
    process_resend_request, process_sequence_reset.
  rewrite !get_received by done. done.
Qed.

Lemma deliver_wire m t s : well_formed m -> message_type m <> Unknown ->
  deliver [wire_of m] t s = (receive m t s).2.
Proof.
  intros H1 H2. cbn [deliver]. rewrite parse_wire by done. fold (received m).
  by rewrite receive_received.
Qed.

(** ** The size of a message *)

Lemma length_body m :
  length (encode_body m) =
  (length (encode_field (lit "35") (fix_message_code (message_type m))) +
   length (unsplit (field_text <$> carried m)))%nat.
Proof.
  rewrite encode_body_texts. unfold body_texts. rewrite unsplit_cons, encode_text, !length_app.
  cbn [length]. lia.
Qed.

Lemma length_field_text f :
  length (field_text f) = (length (print_integer (tag f)) + S (length (value f)))%nat.
Proof. unfold field_text, text. by rewrite length_app. Qed.

Lemma carried_set t v m :
  (length (unsplit (field_text <$> carried (set t v m))) <=
   length (unsplit (field_text <$> carried m)) + S (length (field_text {| tag := t; value := v |})))%nat.
Proof.
  unfold carried, set, with_fields. cbn [fields].
  induction (fields m) as [|f fs IH].
  - cbn [set_field List.filter tag]. destruct (negb (framing t)); [|cbn; lia].
    cbn [fmap list_fmap]. rewrite unsplit_cons, length_app. cbn. lia.
  - cbn [set_field]. destruct (tag f =? t) eqn:E.
    + apply Z.eqb_eq in E. cbn [List.filter tag]. rewrite E.
      destruct (negb (framing t)); [|lia]. cbn [fmap list_fmap].
      rewrite !unsplit_cons, !length_app. cbn [length]. lia.
    + cbn [List.filter]. destruct (negb (framing (tag f))); [|exact IH]. cbn [fmap list_fmap].
      rewrite !unsplit_cons, !length_app. cbn [length]. lia.
Qed.

Lemma length_digits fuel z : (length (digits fuel z) <= fuel)%nat.
Proof.
  revert z. induction fuel as [|fuel IH]; intros z; [done|]. cbn [digits].
  destruct (z <? 10); [cbn; lia|]. rewrite length_app. specialize (IH (z / 10)). cbn. lia.
Qed.

Lemma length_print z : (length (print_integer z) <= 21)%nat.
Proof.
  unfold print_integer. destruct (z <? 0); cbn [length].
  - pose proof (length_digits 20 (- z)). lia.
  - pose proof (length_digits 20 z). lia.
Qed.

(** Writing a field lengthens the body by no more than the field. *)
Lemma body_set t v m :
  (length (encode_body (set t v m)) <= length (encode_body m) + length v + 23)%nat.
Proof.
  rewrite !length_body. pose proof (carried_set t v m) as H. rewrite length_field_text in H.
  pose proof (length_print t). cbn [tag value message_type set with_fields] in *. lia.
Qed.

Lemma value_within t v m : get t m = Some v -> framing t = false ->
  (length v <= length (encode_body m))%nat.
Proof.
  intros H Ht. rewrite length_body. unfold get in H. unfold carried.
  enough (length v <= length (unsplit (field_text <$>
    List.filter (fun f => negb (framing (tag f))) (fields m))))%nat by lia.
  induction (fields m) as [|f fs IH]; [done|]. cbn [List.find List.filter] in *.
  destruct (tag f =? t) eqn:E.
  - apply Z.eqb_eq in E. rewrite E, Ht. injection H as <-. cbn [negb fmap list_fmap].
    rewrite unsplit_cons, length_app, length_field_text. lia.
  - destruct (negb (framing (tag f))); [|by apply IH]. cbn [fmap list_fmap].
    rewrite unsplit_cons, length_app. cbn [length]. specialize (IH H). lia.
Qed.

(** ** Messages that stay well formed *)

Definition small (bound : Z) (m : FixMessage) : Prop :=
  FIX_SOH ∉ begin_string m /\
  Forall (fun f => in_int (tag f) /\ FIX_SOH ∉ value f) (carried m) /\
  Z.of_nat (length (encode_body m)) <= bound.

Lemma small_well_formed bound m : bound < 2 ^ 31 -> small bound m -> well_formed m.
Proof. intros Hb (H1 & H2 & H3). split; [done|done|lia]. Qed.

Lemma small_set bound t v m : in_int t -> FIX_SOH ∉ v -> small bound m ->
  small (bound + Z.of_nat (length v) + 23) (set t v m).
Proof.
  intros Ht Hv (H1 & H2 & H3). split; [done|]. split.
  - clear H3. unfold carried, set, with_fields in *. cbn [fields].
    induction (fields m) as [|f fs IH]; cbn [set_field List.filter tag] in *.
    + destruct (negb (framing t)); [|done]. by apply Forall_singleton.
    + destruct (tag f =? t) eqn:E.
      * apply Z.eqb_eq in E. cbn [List.filter tag]. rewrite E in H2.
        destruct (negb (framing t)); [|done]. apply Forall_cons in H2 as [_ H2]. by constructor.
      * cbn [List.filter]. destruct (negb (framing (tag f))); [|by apply IH].
        apply Forall_cons in H2 as [H2 H2']. constructor; [done | by apply IH].
  - pose proof (body_set t v m). lia.
Qed.

Lemma small_mono b b' m : b <= b' -> small b m -> small b' m.
Proof. intros Hb (H1 & H2 & H3). split_and!; [done..|lia]. Qed.

Lemma print_no_soh z : FIX_SOH ∉ print_integer z.
Proof. apply numeric_no; [apply print_numeric | by right]. Qed.

Lemma get_no_soh t v m : framing t = false ->
  Forall (fun f => in_int (tag f) /\ FIX_SOH ∉ value f) (carried m) -> get t m = Some v ->
  FIX_SOH ∉ v.
Proof.
  intros Ht H Hg. rewrite <- get_received in Hg by done. unfold get, received in Hg. cbn [fields] in Hg.
  destruct (List.find _ _) as [f|] eqn:E; [|done]. injection Hg as <-.
  apply List.find_some in E as [[<- | Hin] E].
  - cbn [tag] in E. apply Z.eqb_eq in E as <-. done.
  - rewrite Forall_forall in H. by apply H, list_elem_of_In.
Qed.

(** ** Receiving the answer *)

Section recovery.
Context (sender target : list ascii) (timestamp t : Z).
Hypothesis sender_ok : sender <> [] /\ FIX_SOH ∉ sender /\ Z.of_nat (length sender) < 2 ^ 29.
Hypothesis target_ok : target <> [] /\ FIX_SOH ∉ target /\ Z.of_nat (length target) < 2 ^ 29.

(** A session that expects number [n] from the other end. *)
Definition expects (st : FixSessionState) (n : Z) (s : FixSession) : Prop :=
  target_comp_id (config_ s) = sender /\ sender_comp_id (config_ s) = target /\
  state_ s = st /\ expected_incoming_sequence_ s = n.

Lemma expects_in_sequence st n s m : expects st n s -> 1 <= n < 2 ^ 31 ->
  get 34 m = Some (print_integer n) -> get 49 m = Some sender -> get 56 m = Some target ->
  in_sequence m s.
Proof.
  intros (H1 & H2 & _ & H4) Hn G1 G2 G3. split.
  - unfold validate_comp_ids. rewrite G2, G3, H1, H2. by rewrite !bool_decide_eq_true_2.
  - unfold sequence_number, parse_positive_integer. rewrite G1, H4. cbn [mbind option_bind].
    rewrite parse_print by (unfold in_int; lia). by rewrite (proj2 (Z.leb_gt _ _)) by lia.
Qed.

(** A message of the application, resent or not, is the next in sequence; it
    need not be one the session supports. *)
Lemma expects_message st n s m : expects st n s -> 1 <= n < 2 ^ 31 - 1 ->
  get 34 m = Some (print_integer n) -> get 49 m = Some sender -> get 56 m = Some target ->
  administrative (message_type m) = false -> expects st (n + 1) (receive m t s).2.
Proof.
  intros He Hn G1 G2 G3 Ha.
  rewrite receive_in_sequence by (eapply expects_in_sequence; eauto; lia).
  destruct He as (H1 & H2 & H3 & H4). unfold process.
  assert (Hc : expects st (n + 1) (consume t s)).
  { unfold expects, consume. cbn. rewrite H4, i32_small by lia. done. }
  destruct (message_type m); try done; unfold expects in *; cbn; try (destruct (negb _)); by cbn.
Qed.

(** The message of [create_fix_gap_fill]. *)
Lemma gap_fill_ok gap_begin gap_end : 1 <= gap_begin <= gap_end -> gap_end < 2 ^ 31 - 1 ->
  exists g, create_fix_gap_fill gap_begin (i32 (gap_end + 1)) sender target timestamp = Ok g /\
    well_formed g /\ message_type g = SequenceReset /\
    get 34 g = Some (print_integer gap_begin) /\ get 36 g = Some (print_integer (gap_end + 1)) /\
    get 49 g = Some sender /\ get 56 g = Some target.
Proof.
  intros H1 H2. destruct sender_ok as (S1 & S2 & S3), target_ok as (T1 & T2 & T3).
  unfold create_fix_gap_fill. rewrite i32_small by lia.
  rewrite (proj2 (Z.leb_gt _ _)), (proj2 (Z.leb_gt _ _)) by lia. cbn [orb].
  rewrite !bool_decide_eq_false_2 by done. cbn [orb].
  eexists. split; [reflexivity|]. split.
  - pose proof (length_print gap_begin). pose proof (length_print (gap_end + 1)).
    pose proof (length_print timestamp).
    eapply small_well_formed; [|repeat (apply small_set;
      [unfold in_int; lia | first [apply print_no_soh | done | by apply find_char_absent]|])].
    2: { instantiate (1 := 5). split_and!; [by apply find_char_absent | constructor | by cbn]. }
    cbn [length lit String.list_ascii_of_string]. lia.
  - split; [done|]. split_and!; by repeat (rewrite get_set_eq || rewrite get_set_ne by lia).
Qed.

Lemma expects_gap_fill st n new s g : expects st n s -> 1 <= n < new -> new < 2 ^ 31 ->
  message_type g = SequenceReset -> get 34 g = Some (print_integer n) ->
  get 36 g = Some (print_integer new) -> get 49 g = Some sender -> get 56 g = Some target ->
  expects st new (receive g t s).2.
Proof.
  intros He H1 H2 Hty G1 G2 G3 G4.
  rewrite receive_in_sequence by (eapply expects_in_sequence; eauto; lia).
  destruct He as (E1 & E2 & E3 & E4). unfold process. rewrite Hty.
  unfold process_sequence_reset, parse_positive_integer. rewrite G2. cbn [mbind option_bind].
  rewrite parse_print by (unfold in_int; lia).
  rewrite (proj2 (Z.leb_gt _ _)) by lia. unfold consume. cbn [expected_incoming_sequence_].
  rewrite E4, i32_small by lia. rewrite (proj2 (Z.ltb_ge _ _)) by lia. done.
Qed.

(** [send_gap_fill] writes one message, which moves the receiver past the gap. *)
Lemma send_gap_fill_ok st gap_begin gap_end s out :
  expects st gap_begin s -> 1 <= gap_begin <= gap_end -> gap_end < 2 ^ 31 - 1 ->
  exists w, send_gap_fill sender target timestamp gap_begin gap_end out = (Ok tt, out ++ [w]) /\
    expects st (gap_end + 1) (deliver [w] t s).
Proof.
  intros He H1 H2. destruct (gap_fill_ok gap_begin gap_end H1 H2) as (g & Hg & Hw & Hty & G1 & G2 & G3 & G4).
  exists (wire_of g). unfold send_gap_fill.
  rewrite (proj2 (Z.leb_gt _ _)), (proj2 (Z.ltb_ge _ _)) by lia. cbn [orb].
  unfold mbind, st_bind, lift, write. rewrite Hg, encode_wire.
  rewrite bool_decide_eq_false_2 by congruence. split; [done|].
  rewrite deliver_wire by congruence. eapply expects_gap_fill; eauto; lia.
Qed.

(** A stored message is the encoded message number [n] of this side. *)
Record stored_as (n : Z) (row : StoredFixMessage) (m : FixMessage) : Prop := {
  sa_number : sm_sequence_number row = n;
  sa_wire : sm_wire_message row = wire_of m;
  sa_small : small (2 ^ 29) m;
  sa_type : message_type m <> Unknown;
  sa_34 : get 34 m = Some (print_integer n);
  sa_49 : get 49 m = Some sender;
  sa_56 : get 56 m = Some target;
  sa_52 : is_Some (get 52 m)
}.

Lemma small_received b m : small b m -> small b (received m).
Proof.
  intros (H1 & H2 & H3). split; [done|]. rewrite carried_received. split; [done|].
  rewrite encode_body_texts in *. unfold body_texts. rewrite carried_received. exact H3.
Qed.

Lemma resend_ok n row m : stored_as n row m ->
  exists r, prepare_fix_resend (received m) timestamp = Ok r /\ well_formed r /\
    message_type r = message_type m /\
    get 34 r = Some (print_integer n) /\ get 49 r = Some sender /\ get 56 r = Some target.
Proof.
  intros [_ _ Hs _ G1 G2 G3 [v G4]]. unfold prepare_fix_resend. rewrite get_received, G4 by done.
  eexists. split; [reflexivity|]. split.
  - pose proof (length_print timestamp). pose proof (value_within 52 v m G4 eq_refl).
    assert (FIX_SOH ∉ v) by (destruct Hs as (_ & Hs & _); by eapply (get_no_soh 52)).
    eapply small_well_formed; [|repeat (apply small_set;
      [unfold in_int; lia | first [apply print_no_soh | done | by apply find_char_absent]|])].
    2: { by apply small_received. }
    destruct Hs as (_ & _ & Hs). cbn [length lit String.list_ascii_of_string]. lia.
  - split; [done|].
    split_and!; repeat (rewrite get_set_eq || rewrite get_set_ne by lia); by rewrite get_received.
Qed.

(** The gap that the loop has not written yet ends before number [n]. *)
Definition pending_ok (st : FixSessionState) (n : Z) (pending : Z * Z) (s : FixSession) : Prop :=
  (pending = (0, 0) /\ expects st n s) \/
  (1 <= pending.1 <= pending.2 /\ pending.2 = n - 1 /\ expects st pending.1 s).

Lemma flush_ok st n pending s out : pending_ok st n pending s -> 1 <= n < 2 ^ 31 ->
  exists ws, (if negb (pending.1 =? 0)
              then _ ← send_gap_fill sender target timestamp pending.1 pending.2; mret (0, 0)
              else mret pending : ST (list (list ascii)) (Z * Z)) out = (Ok (0, 0), out ++ ws) /\
    expects st n (deliver ws t s).
Proof.
  intros [[-> He] | (H1 & H2 & He)] Hn.
  - exists []. cbn. by rewrite app_nil_r.
  - rewrite (proj2 (Z.eqb_neq _ _)) by lia. cbn [negb].
    destruct (send_gap_fill_ok st pending.1 pending.2 s out He H1 ltac:(lia)) as (w & Hw & Hd).
    exists [w]. unfold mbind, st_bind. rewrite Hw. split; [done|].
    by replace n with (pending.2 + 1) by lia.
Qed.

Lemma resend_loop_ok st end_sequence rows : forall ms n pending s out,
  Forall2 (fun row p => stored_as p.1 row p.2) rows ms ->
  fst <$> ms = seqZ n (Z.of_nat (length ms)) ->
  pending_ok st n pending s -> 1 <= n -> n + Z.of_nat (length ms) < 2 ^ 31 ->
  n <= end_sequence + 1 ->
  exists pending' ws, resend_loop sender target timestamp end_sequence rows pending out =
      (Ok pending', out ++ ws) /\
    pending_ok st (Z.min (end_sequence + 1) (n + Z.of_nat (length ms))) pending' (deliver ws t s).
Proof.
  induction rows as [|row rows IH]; intros ms n pending s out Hrows Hseq Hp Hn Hb Hend.
  - apply Forall2_nil_inv_l in Hrows as ->. exists pending, []. rewrite app_nil_r. split; [done|].
    cbn [length deliver]. by replace (Z.min _ _) with n by lia.
  - apply Forall2_cons_inv_l in Hrows as ([k m] & ms' & Hm & Hrows & ->). cbn [fst snd] in Hm.
    cbn [length fmap list_fmap fst] in *. rewrite Nat2Z.inj_succ in *. rewrite seqZ_cons in Hseq by lia.
    injection Hseq as -> Hseq. rewrite Z.pred_succ in Hseq.
    cbn [resend_loop]. rewrite (sa_number _ _ _ Hm).
    destruct (end_sequence <? n) eqn:E.
    { breflect. exists pending, []. rewrite app_nil_r. split; [done|]. cbn [deliver].
      by replace (Z.min _ _) with n by lia. }
    breflect. rewrite (sa_wire _ _ _ Hm), parse_wire
      by first [by apply (sa_type _ _ _ Hm) | eapply small_well_formed; [|by apply (sa_small _ _ _ Hm)]; lia].
    fold (received m). cbn [message_type received].
    replace (n + Z.succ (Z.of_nat (length ms'))) with (Z.succ n + Z.of_nat (length ms')) in * by lia.
    destruct (administrative (message_type m)) eqn:Ea.
    + apply IH; [done..| |lia|lia|lia]. right. cbn [fst snd].
      destruct Hp as [[-> He] | (H1 & H2 & He)]; cbn [fst snd].
      * split; [cbn; lia|]. split; [lia|done].
      * rewrite (proj2 (Z.eqb_neq _ _)) by lia. split; [lia|]. split; [lia|done].
    + destruct (flush_ok st n pending s out Hp ltac:(lia)) as (ws & Hws & Hd).
      unfold mbind at 1, st_bind at 1. rewrite Hws.
      destruct (resend_ok n row m Hm) as (r & Hr & Hwf & Hty & G1 & G2 & G3).
      assert (Hu : message_type r <> Unknown) by (rewrite Hty; apply (sa_type _ _ _ Hm)).
      unfold mbind at 1, st_bind at 1, lift at 1. rewrite Hr.
      unfold mbind at 1, st_bind at 1, lift at 1. rewrite encode_wire, bool_decide_eq_false_2 by done.
      unfold mbind at 1, st_bind at 1, write at 1. rewrite <- app_assoc.
      edestruct (IH ms' (Z.succ n) (0, 0) (deliver (ws ++ [wire_of r]) t s)
        (out ++ ws ++ [wire_of r])) as (p' & ws' & Hl & Hp'); [done|done| |lia|lia|lia|].
      * left. split; [done|]. rewrite deliver_app, deliver_wire by done.
        eapply expects_message; eauto; [lia | by rewrite Hty].
      * exists p', ((ws ++ [wire_of r]) ++ ws'). rewrite Hl, deliver_app. split; [|done].
        by rewrite <- !app_assoc.
Qed.

End recovery.

(** ** The whole exchange *)

(** A CompID that can be sent. *)
Definition comp_id_ok (id : list ascii) : Prop :=
  id <> [] /\ FIX_SOH ∉ id /\ Z.of_nat (length id) < 2 ^ 29.

(** [rows] are the stored messages of [sender], numbered from [n]. *)
Definition stored_from (sender target : list ascii) (n : Z) (rows : list StoredFixMessage)
    (ms : list (Z * FixMessage)) : Prop :=
  Forall2 (fun row p => stored_as sender target p.1 row p.2) rows ms /\
  fst <$> ms = seqZ n (Z.of_nat (length ms)).

Lemma resend_stored_ok sender target timestamp t st begin_sequence end_sequence rows ms s :
  comp_id_ok sender -> comp_id_ok target ->
  expects sender target st begin_sequence s -> 1 <= begin_sequence <= end_sequence ->
  stored_from sender target begin_sequence rows ms ->
  end_sequence < begin_sequence + Z.of_nat (length ms) < 2 ^ 31 ->
  exists out, resend_stored sender target timestamp end_sequence rows [] = (Ok tt, out) /\
    expects sender target st (end_sequence + 1) (deliver out t s).
Proof.
  intros Hs Ht He Hb [Hr1 Hr2] Hl. unfold resend_stored, mbind, st_bind.
  destruct (resend_loop_ok sender target timestamp t Hs Ht st end_sequence rows ms begin_sequence
    (0, 0) s []) as (p & ws & -> & Hp); [done|done|by left|lia|lia|lia|].
  rewrite Z.min_l in Hp by lia. cbn [app].
  destruct (flush_ok sender target timestamp t Hs Ht st _ p _ ws Hp ltac:(lia)) as (ws' & Hf & Hd).
  exists (ws ++ ws'). rewrite deliver_app. split; [|done].
  unfold mbind, st_bind, mret, st_ret in *. destruct (negb (p.1 =? 0)).
  - destruct (send_gap_fill _ _ _ _ _ _) as [[[]|e] out]; [|done]. congruence.
  - congruence.
Qed.

(** The request that a session answers a gap with, as the other end reads it. *)
Lemma request_accepted m t n a b :
  validate_comp_ids m a = true -> sequence_number m = Some n ->
  1 <= expected_incoming_sequence_ a < n -> n < 2 ^ 31 ->
  state_ b = Active -> sender_comp_id (config_ b) = target_comp_id (config_ a) ->
  target_comp_id (config_ b) = sender_comp_id (config_ a) ->
  expected_incoming_sequence_ b = next_outgoing_sequence_ a ->
  1 <= next_outgoing_sequence_ a < 2 ^ 31 ->
  exists q, response (receive m t a).1 = Some q /\ accepted (receive m t a).1 = false /\
    (receive m t a).2 = sent t a /\
    let rb := (receive q t b).1 in
    accepted rb = true /\ resend_begin_sequence rb = Some (expected_incoming_sequence_ a) /\
    resend_end_sequence rb = Some (n - 1).
Proof.
  intros Hv Hn He Hn' Hst Hc1 Hc2 Hx Hx'.
  assert (Hr : receive m t a = request_resend n t a).
  { unfold receive. rewrite Hv, Hn. cbn [negb]. by rewrite (proj2 (Z.ltb_lt _ _)) by lia. }
  rewrite Hr. unfold request_resend. cbn [create_admin_message fst snd response accepted].
  eexists. split; [reflexivity|]. split; [done|]. split; [done|].
  set (q := set 16 _ _).
  assert (Hq : in_sequence q b).
  { eapply (expects_in_sequence (target_comp_id (config_ b)) (sender_comp_id (config_ b)));
      [by split_and!|lia|..]; unfold q; rewrite ?Hx, ?Hc1, ?Hc2;
      repeat (rewrite get_set_ne by lia); unfold addressed;
      by repeat (rewrite get_set_eq || rewrite get_set_ne by lia). }
  rewrite receive_in_sequence by done. unfold process, process_resend_request.
  change (message_type q) with ResendRequest. cbv iota. cbn [consume state_].
  rewrite Hst, bool_decide_eq_true_2 by done. cbn [negb].
  assert (get 7 q = Some (print_integer (expected_incoming_sequence_ a))) as ->
    by (unfold q; by rewrite get_set_ne, get_set_eq by lia).
  assert (get 16 q = Some (print_integer (n - 1))) as -> by (unfold q; by rewrite get_set_eq).
  unfold parse_positive_integer. cbn [mbind option_bind].
  rewrite !parse_print by (unfold in_int; lia).
  rewrite !(proj2 (Z.leb_gt _ _)) by lia. rewrite (proj2 (Z.ltb_ge _ _)) by lia. done.
Qed.

(** ** The answer with the CompIDs that the server has *)

Definition no_comp_ids : exn := invalid_argument "FIX gap-fill CompIDs cannot be empty".

(** An administrative message up to number [end_sequence]. *)
Definition admin_until (end_sequence : Z) (ms : list (Z * FixMessage)) : bool :=
  existsb (fun p => (p.1 <=? end_sequence) && administrative (message_type p.2)) ms.

Lemma admin_until_later end_sequence ms : Forall (fun p => end_sequence < p.1) ms -> admin_until end_sequence ms = false.
Proof.
  unfold admin_until. induction 1 as [|p ms Hp _ IH]; [done|]. cbn. by rewrite (proj2 (Z.leb_gt _ _) Hp), IH.
Qed.

Lemma numbers_after n ms : fst <$> ms = seqZ n (Z.of_nat (length ms)) -> Forall (fun p : Z * FixMessage => n <= p.1) ms.
Proof.
  intros E. apply Forall_forall. intros p Hp. apply (list_elem_of_fmap_2 fst) in Hp. rewrite E in Hp.
  apply elem_of_seqZ in Hp. lia.
Qed.

Section moved.
Context (sender target : list ascii) (timestamp : Z).

Lemma moved_gap_fill gap_begin gap_end out : 1 <= gap_begin <= gap_end -> gap_end < 2 ^ 31 - 1 ->
  send_gap_fill moved_from moved_from timestamp gap_begin gap_end out = (Throw no_comp_ids, out).
Proof.
  intros H1 H2. unfold send_gap_fill. rewrite (proj2 (Z.leb_gt _ _)), (proj2 (Z.ltb_ge _ _)) by lia. cbn [orb].
  unfold mbind, st_bind, lift, create_fix_gap_fill. rewrite i32_small by lia.
  by rewrite !(proj2 (Z.leb_gt _ _)) by lia.
Qed.

(** What the loop and the gap fill after it do. *)
Definition answer_from (end_sequence : Z) (rows : list StoredFixMessage) (pending : Z * Z) : ST (list (list ascii)) unit :=
  pending ← resend_loop moved_from moved_from timestamp end_sequence rows pending;
  if negb (pending.1 =? 0) then send_gap_fill moved_from moved_from timestamp pending.1 pending.2 else mret tt.

Lemma stored_parses n row m : stored_as sender target n row m -> parse_fix_message (sm_wire_message row) = Valid (received m).
Proof.
  intros Hm. rewrite (sa_wire _ _ _ _ _ Hm), parse_wire; [done| |apply (sa_type _ _ _ _ _ Hm)].
  eapply small_well_formed; [|by apply (sa_small _ _ _ _ _ Hm)]; lia.
Qed.

Lemma moved_answer_throws end_sequence rows : forall ms n pending out,
  Forall2 (fun row p => stored_as sender target p.1 row p.2) rows ms ->
  fst <$> ms = seqZ n (Z.of_nat (length ms)) -> 1 <= n -> n + Z.of_nat (length ms) < 2 ^ 31 ->
  1 <= pending.1 <= pending.2 /\ pending.2 = n - 1 \/ pending = (0, 0) /\ admin_until end_sequence ms = true ->
  (answer_from end_sequence rows pending out).1 = Throw no_comp_ids.
Proof.
  unfold answer_from.
  assert (forall n pending out, 1 <= n < 2 ^ 31 -> 1 <= pending.1 <= pending.2 /\ pending.2 = n - 1 ->
    ((if negb (pending.1 =? 0) then send_gap_fill moved_from moved_from timestamp pending.1 pending.2 else mret tt) out).1
      = Throw no_comp_ids) as HT.
  { intros n pending out Hn [H1 H2]. rewrite (proj2 (Z.eqb_neq _ _)) by lia. cbn [negb]. by rewrite moved_gap_fill by lia. }
  induction rows as [|row rows IH]; intros ms n pending out Hrows Hseq Hn Hb Hp.
  - apply Forall2_nil_inv_l in Hrows as ->. destruct Hp as [Hp|[_ Hp]]; [|done]. cbn in Hb. apply (HT n); [lia|done].
  - pose proof (numbers_after _ _ Hseq) as HN. apply Forall2_cons_inv_l in Hrows as ([k m] & ms' & Hm & Hrows & ->).
    cbn [length fmap list_fmap fst snd] in *. rewrite Nat2Z.inj_succ in *. rewrite seqZ_cons in Hseq by lia.
    injection Hseq as -> Hseq. rewrite Z.pred_succ in Hseq. cbn [resend_loop]. rewrite (sa_number _ _ _ _ _ Hm).
    destruct (end_sequence <? n) eqn:E.
    { breflect. destruct Hp as [Hp|[_ Hp]]; [apply (HT n); [lia|done]|]. rewrite admin_until_later in Hp; [done|].
      eapply Forall_impl; [exact HN|]. cbn. lia. }
    breflect. rewrite (stored_parses _ _ _ Hm). cbn [message_type received].
    destruct (administrative (message_type m)) eqn:Ea.
    + eapply (IH ms' (Z.succ n)); [done|done|lia|lia|]. left. cbn [fst snd]. destruct Hp as [[H1 H2]|[-> _]].
      * rewrite (proj2 (Z.eqb_neq _ _)) by lia. lia.
      * cbn. lia.
    + destruct Hp as [[H1 H2]|[-> Hp]].
      * rewrite (proj2 (Z.eqb_neq _ _)) by lia. cbn [negb]. unfold mbind, st_bind. by rewrite moved_gap_fill by lia.
      * destruct (resend_ok sender target timestamp n row m Hm) as (r & Hr & _ & Hty & _).
        unfold mbind, st_bind, lift, write. cbn [fst Z.eqb negb mret st_ret]. unfold received in *. rewrite Hr, encode_wire.
        rewrite bool_decide_eq_false_2 by (rewrite Hty; apply (sa_type _ _ _ _ _ Hm)).
        eapply (IH ms' (Z.succ n)); [done|done|lia|lia|]. right. split; [done|].
        cbn in Hp. by rewrite Ea, andb_false_r in Hp.
Qed.

(** Without administrative messages the CompIDs do not matter. *)
Lemma moved_answer_same end_sequence rows : forall ms out,
  Forall2 (fun row p => stored_as sender target p.1 row p.2) rows ms -> admin_until end_sequence ms = false ->
  resend_loop moved_from moved_from timestamp end_sequence rows (0, 0) out =
    resend_loop sender target timestamp end_sequence rows (0, 0) out /\
  (forall p, (resend_loop sender target timestamp end_sequence rows (0, 0) out).1 = Ok p -> p = (0, 0)).
Proof.
  induction rows as [|row rows IH]; intros ms out Hrows Hp; [by split; [|intros p [= <-]]|].
  apply Forall2_cons_inv_l in Hrows as ([k m] & ms' & Hm & Hrows & ->). cbn [fst snd] in *.
  cbn [resend_loop]. rewrite (sa_number _ _ _ _ _ Hm). cbn in Hp. apply orb_false_iff in Hp as [Hp1 Hp2].
  destruct (end_sequence <? k) eqn:E; [by split; [|intros p [= <-]]|]. breflect.
  rewrite (proj2 (Z.leb_le _ _)) in Hp1 by lia. cbn [andb] in Hp1.
  rewrite (stored_parses _ _ _ Hm). cbn [message_type received]. rewrite Hp1.
  cbn [fst Z.eqb negb]. unfold mbind, st_bind, lift, write, mret, st_ret.
  destruct (prepare_fix_resend _ _) as [r|]; [|by split]. destruct (encode_fix_message r) as [w|]; [|by split].
  by eapply IH.
Qed.

(** The answer of the server as it runs. *)
Lemma answer_resend_request_ok begin_sequence end_sequence rows ms out :
  stored_from sender target begin_sequence rows ms -> 1 <= begin_sequence ->
  begin_sequence + Z.of_nat (length ms) < 2 ^ 31 ->
  resend_stored sender target timestamp end_sequence rows [] = (Ok tt, out) ->
  if admin_until end_sequence ms then (answer_resend_request timestamp end_sequence rows []).1 = Throw no_comp_ids
  else answer_resend_request timestamp end_sequence rows [] = (Ok tt, out).
Proof.
  intros [Hr1 Hr2] Hb Hl E. destruct (admin_until end_sequence ms) eqn:EA.
  - by apply (moved_answer_throws end_sequence rows ms begin_sequence (0, 0) []); [..|by right].
  - destruct (moved_answer_same end_sequence rows ms [] Hr1 EA) as [H1 H2].
    unfold answer_resend_request, resend_stored, mbind, st_bind in *. rewrite H1.
    destruct (resend_loop sender target timestamp end_sequence rows (0, 0) []) as [[p|e] o]; [|done].
    by rewrite (H2 p eq_refl) in *.
Qed.

End moved.

(** C17: recovery.  A session that receives number [n] while it expects an
    earlier one asks for what is missing; the other end, when it is active and
    in step, accepts the request and reads exactly that range from it; the
    answer with the CompIDs of that session from its stored messages, whatever
    mixture of administrative and other messages they are, does not throw, and when
    the first session has read it, it expects [n]: the message that revealed the gap,
    which it had dropped, is in sequence when it arrives again.  The server answers
    with CompIDs that were moved from: this is the same answer when no administrative
    message is in the range, and otherwise an exception. *)
Theorem gap_is_recovered m t timestamp n a b rows ms :
  comp_id_ok (sender_comp_id (config_ a)) -> comp_id_ok (target_comp_id (config_ a)) ->
  validate_comp_ids m a = true -> sequence_number m = Some n ->
  1 <= expected_incoming_sequence_ a < n -> n < 2 ^ 31 ->
  state_ b = Active -> sender_comp_id (config_ b) = target_comp_id (config_ a) ->
  target_comp_id (config_ b) = sender_comp_id (config_ a) ->
  expected_incoming_sequence_ b = next_outgoing_sequence_ a ->
  1 <= next_outgoing_sequence_ a < 2 ^ 31 ->
  stored_from (sender_comp_id (config_ b)) (target_comp_id (config_ b))
    (expected_incoming_sequence_ a) rows ms ->
  n <= expected_incoming_sequence_ a + Z.of_nat (length ms) < 2 ^ 31 ->
  let (ra, a1) := receive m t a in
  accepted ra = false /\ exists q out, response ra = Some q /\
    let rb := (receive q t b).1 in
    accepted rb = true /\ resend_begin_sequence rb = Some (expected_incoming_sequence_ a) /\
    resend_end_sequence rb = Some (n - 1) /\
    resend_stored (sender_comp_id (config_ b)) (target_comp_id (config_ b)) timestamp (n - 1) rows []
      = (Ok tt, out) /\
    in_sequence m (deliver out t a1) /\ state_ (deliver out t a1) = state_ a /\
    (if admin_until (n - 1) ms then (answer_resend_request timestamp (n - 1) rows []).1 = Throw no_comp_ids
     else answer_resend_request timestamp (n - 1) rows [] = (Ok tt, out)).
Proof.
  intros Hc1 Hc2 Hv Hn He Hn' Hst Hp1 Hp2 Hx Hx' Hrows Hl.
  destruct (request_accepted m t n a b) as (q & H1 & H2 & H3 & H4 & H5 & H6); try done.
  destruct (receive m t a) as [ra a1]. cbn [fst snd] in *. subst a1. split; [done|].
  rewrite Hp1, Hp2 in *.
  destruct (resend_stored_ok (target_comp_id (config_ a)) (sender_comp_id (config_ a)) timestamp t
    (state_ a) (expected_incoming_sequence_ a) (n - 1) rows ms (sent t a)) as (out & Ho & E1 & E2 & E3 & E4); [done|done|done|lia|done|lia|].
  exists q, out. split_and!; try done; [split|].
  - apply validate_fields in Hv as [V1 V2]. unfold validate_comp_ids.
    rewrite V1, V2, E1, E2. by rewrite !bool_decide_eq_true_2.
  - rewrite E4, Hn. f_equal. lia.
  - apply (answer_resend_request_ok (target_comp_id (config_ a)) (sender_comp_id (config_ a)) timestamp
      (expected_incoming_sequence_ a)); [done|lia|lia|done].
Qed.

(** ** The server as it runs *)

(** The answer is interrupted as soon as an administrative message is to be
    replaced by a gap fill: [create_fix_gap_fill] refuses the CompIDs, which
    were moved from, and the exception ends the connection.  Here the stored
    range is a Logon only. *)
Example answer_resend_request_throws :
  let logon := {| begin_string := lit "FIX.4.4"; body_length := 0; message_type := Logon;
                  fields := [ {| tag := 34; value := lit "1" |}; {| tag := 49; value := lit "MINIMATCH" |};
                              {| tag := 56; value := lit "CLIENT" |}; {| tag := 52; value := lit "5" |} ];
                  checksum := 0 |} in
  let row := {| sm_id := 1; sm_session_id := lit "MINIMATCH->CLIENT"; sm_direction := lit "OUT";
                sm_sequence_number := 1; sm_message_type := lit "A"; sm_wire_message := wire_of logon;
                sm_timestamp_ns := 5 |} in
  answer_resend_request 9 1 [row] [] =
    (Throw (invalid_argument "FIX gap-fill CompIDs cannot be empty"), []) /\
  exists w, resend_stored (lit "MINIMATCH") (lit "CLIENT") 9 1 [row] [] = (Ok tt, [w]).
Proof. split; [vm_compute; reflexivity | eexists; vm_compute; reflexivity]. Qed.

(** ** A concrete exchange *)

Definition demo_config (own other : list ascii) : FixSessionConfig := {|
  sender_comp_id := own; target_comp_id := other; heartbeat_interval_seconds := 30;
  reset_sequence_numbers_on_logon := false |}.

Definition demo_session (own other : list ascii) (incoming outgoing : Z) : FixSession := {|
  config_ := demo_config own other; state_ := Active; expected_incoming_sequence_ := incoming;
  next_outgoing_sequence_ := outgoing; last_received_time_ns_ := 0; last_sent_time_ns_ := 0 |}.

Definition demo_from_server (ty : FixMessageType) (n : Z) : FixMessage := {|
  begin_string := lit "FIX.4.4"; body_length := 0; message_type := ty;
  fields := [ {| tag := 34; value := print_integer n |}; {| tag := 49; value := lit "MINIMATCH" |};
              {| tag := 56; value := lit "CLIENT" |}; {| tag := 52; value := lit "5" |} ];
  checksum := 0 |}.

Definition demo_row (n : Z) (m : FixMessage) : StoredFixMessage := {|
  sm_id := n; sm_session_id := lit "MINIMATCH->CLIENT"; sm_direction := lit "OUT";
  sm_sequence_number := n; sm_message_type := fix_message_code (message_type m);
  sm_wire_message := wire_of m; sm_timestamp_ns := 5 |}.

Lemma demo_stored ty n : (n = 2 \/ n = 3 \/ n = 4) -> ty <> Unknown ->
  stored_as (lit "MINIMATCH") (lit "CLIENT") n (demo_row n (demo_from_server ty n))
    (demo_from_server ty n).
Proof.
  intros Hn Ht. split; try done. split_and!.
  - by apply find_char_absent.
  - repeat apply Forall_cons_2; try apply Forall_nil_2;
        (split; [unfold in_int; cbn; lia | cbn [value]; first [apply print_no_soh | by apply find_char_absent]]).
  - destruct Hn as [-> | [-> | ->]]; destruct ty; done.
Qed.

Definition demo_ms : list (Z * FixMessage) :=
  [(2, demo_from_server Heartbeat 2); (3, demo_from_server ExecutionReport 3);
   (4, demo_from_server Heartbeat 4)].

Lemma gap_is_recovered_witness :
  let a := demo_session (lit "CLIENT") (lit "MINIMATCH") 2 7 in
  let b := demo_session (lit "MINIMATCH") (lit "CLIENT") 7 5 in
  let (ra, a1) := receive (demo_from_server ExecutionReport 4) 10 a in
  exists q out, response ra = Some q /\
    resend_stored (lit "MINIMATCH") (lit "CLIENT") 11 3
      ((fun p => demo_row p.1 p.2) <$> demo_ms) [] = (Ok tt, out) /\
    in_sequence (demo_from_server ExecutionReport 4) (deliver out 10 a1) /\
    (answer_resend_request 11 3 ((fun p => demo_row p.1 p.2) <$> demo_ms) []).1 = Throw no_comp_ids.
Proof.
  intros a b.
  pose proof (gap_is_recovered (demo_from_server ExecutionReport 4) 10 11 4 a b
    ((fun p => demo_row p.1 p.2) <$> demo_ms) demo_ms) as H.
  destruct (receive (demo_from_server ExecutionReport 4) 10 a) as [ra a1].
  destruct H as (_ & q & out & H1 & _ & _ & _ & H2 & H3 & _ & H4); try reflexivity; try (cbn; lia).
  - split; [discriminate|]. split; [by apply find_char_absent | reflexivity].
  - split; [discriminate|]. split; [by apply find_char_absent | reflexivity].
  - split; [|reflexivity]. cbn [fmap list_fmap demo_ms].
    constructor; [by apply demo_stored; [lia|]|]. constructor; [by apply demo_stored; [lia|]|].
    constructor; [by apply demo_stored; [lia|]|]. constructor.
  - exists q, out. split; [exact H1|]. split; [exact H2|]. split; [exact H3 | exact H4].
Defined.
