(* ===== verification/MarketData.v ===== *)
(** * Level-2 market data ([market_data.hpp], [market_data.cpp])

    A book of price levels per venue and symbol, kept from a snapshot and
    numbered updates; a gap in the numbers is bridged by buffering updates
    until the next snapshot.  Prices and quantities are doubles. *)

From S2P Require Import Prelude.
From S2P Require Import Float.
From S2P Require Import SortedMap.

Inductive MarketDataSide := Bid | Ask.
Inductive MarketDataUpdateType := Snapshot | Upsert | Delete.

#[export] Instance MarketDataUpdateType_eq_dec : EqDecision MarketDataUpdateType.
Proof. solve_decision. Defined.

Record MarketDataLevel := { ml_price : double; ml_quantity : double }.

Record MarketDataUpdate := {
  mu_venue : string; mu_symbol : string; mu_sequence : Z; mu_timestamp_ns : Z;
  mu_side : MarketDataSide; mu_type : MarketDataUpdateType; mu_price : double; mu_quantity : double
}.

Record MarketDataSnapshot := {
  ms_venue : string; ms_symbol : string; ms_sequence : Z; ms_timestamp_ns : Z;
  ms_bids : list MarketDataLevel; ms_asks : list MarketDataLevel
}.

Record MarketDataDecision := {
  md_accepted : bool; md_sequence_gap : bool; md_expected_sequence : Z; md_received_sequence : Z;
  md_message : string
}.

Record BestBidOffer := {
  bbo_valid : bool;
  bbo_bid_price : double; bbo_bid_quantity : double; bbo_bid_venue : string;
  bbo_ask_price : double; bbo_ask_quantity : double; bbo_ask_venue : string;
  bbo_midpoint : double; bbo_spread : double; bbo_locked : bool; bbo_crossed : bool
}.

Definition BestBidOffer0 : BestBidOffer := {|
  bbo_valid := false; bbo_bid_price := dzero; bbo_bid_quantity := dzero; bbo_bid_venue := "";
  bbo_ask_price := dzero; bbo_ask_quantity := dzero; bbo_ask_venue := ""; bbo_midpoint := dzero;
  bbo_spread := dzero; bbo_locked := false; bbo_crossed := false |}.

(** [epsilon] *)
Definition level_epsilon : double := tiny.

Definition side_to_string (s : MarketDataSide) : string :=
  match s with Bid => "BID" | Ask => "ASK" end.

Definition update_type_to_string (t : MarketDataUpdateType) : string :=
  match t with Snapshot => "SNAPSHOT" | Upsert => "UPSERT" | Delete => "DELETE" end.

(** ** Checks *)

Definition validate_identity (venue symbol : string) : result unit :=
  _ ← guard_or (negb (bool_decide (venue = ""))) (invalid_argument "market-data venue cannot be empty");
  guard_or (negb (bool_decide (symbol = ""))) (invalid_argument "market-data symbol cannot be empty").

Definition validate_price (price : double) : result unit :=
  if negb (isfinite price) || dle price dzero
  then Throw (invalid_argument "market-data price must be positive") else Ok tt.

Definition validate_quantity (quantity : double) : result unit :=
  if negb (isfinite quantity) || dlt quantity dzero
  then Throw (invalid_argument "market-data quantity must be non-negative") else Ok tt.

(** ** The book of a venue and symbol *)

(** The comparators of [bids_] and [asks_]. *)
Definition before (side : MarketDataSide) : double -> double -> bool :=
  match side with Bid => dgt | Ask => dlt end.

Definition levels : Type := smap double double.

Record Level2Book := {
  bids_ : levels;
  asks_ : levels;
  sequence_ : Z;
  timestamp_ns_ : Z;
  synchronized_ : bool;
  recovery_buffer_ : smap Z MarketDataUpdate;
  missing_sequence_ : Z;
  sequence_gap_count_ : Z;
  recovery_count_ : Z
}.

Definition max_recovery_buffer_ : Z := 4096.

Definition Level2Book0 : Level2Book := {|
  bids_ := []; asks_ := []; sequence_ := 0; timestamp_ns_ := 0; synchronized_ := false;
  recovery_buffer_ := []; missing_sequence_ := 0; sequence_gap_count_ := 0; recovery_count_ := 0 |}.

(** The maps of a snapshot, or of an update, before they are taken over. *)
Definition side_of (side : MarketDataSide) (b : levels * levels) : levels :=
  match side with Bid => b.1 | Ask => b.2 end.

Definition set_side (side : MarketDataSide) (l : levels) (b : levels * levels) : levels * levels :=
  match side with Bid => (l, b.2) | Ask => (b.1, l) end.

(** The test of a crossed market on the best prices. *)
Definition crosses (b : levels * levels) : bool :=
  match b.1, b.2 with
  | (bid, _) :: _, (ask, _) :: _ => dge bid ask
  | _, _ => false
  end.

(** The loop over one side of a snapshot. *)
Fixpoint load_levels (side : MarketDataSide) (ls : list MarketDataLevel) (m : levels)
    : result levels :=
  match ls with
  | [] => Ok m
  | l :: ls =>
      _ ← validate_price (ml_price l);
      _ ← validate_quantity (ml_quantity l);
      load_levels side ls
        (if dgt (ml_quantity l) level_epsilon
         then sm_insert (before side) (ml_price l) (ml_quantity l) m else m)
  end.

(** What an update does to its side. *)
Definition change (u : MarketDataUpdate) (b : levels * levels) : levels * levels :=
  let remove := bool_decide (mu_type u = Delete) || dle (mu_quantity u) level_epsilon in
  let m := side_of (mu_side u) b in
  set_side (mu_side u)
    (if remove then sm_delete (before (mu_side u)) (mu_price u) m
     else sm_insert (before (mu_side u)) (mu_price u) (mu_quantity u) m) b.

Definition sides (b : Level2Book) : levels * levels := (bids_ b, asks_ b).

Definition decision (accepted gap : bool) (expected received : Z) (message : string)
    : MarketDataDecision := {|
  md_accepted := accepted; md_sequence_gap := gap; md_expected_sequence := expected;
  md_received_sequence := received; md_message := message |}.

Definition with_sides (s : levels * levels) (b : Level2Book) : Level2Book := {|
  bids_ := s.1; asks_ := s.2; sequence_ := sequence_ b; timestamp_ns_ := timestamp_ns_ b;
  synchronized_ := synchronized_ b; recovery_buffer_ := recovery_buffer_ b;
  missing_sequence_ := missing_sequence_ b; sequence_gap_count_ := sequence_gap_count_ b;
  recovery_count_ := recovery_count_ b |}.

Definition at_sequence (sequence timestamp : Z) (b : Level2Book) : Level2Book := {|
  bids_ := bids_ b; asks_ := asks_ b; sequence_ := sequence; timestamp_ns_ := timestamp;
  synchronized_ := synchronized_ b; recovery_buffer_ := recovery_buffer_ b;
  missing_sequence_ := missing_sequence_ b; sequence_gap_count_ := sequence_gap_count_ b;
  recovery_count_ := recovery_count_ b |}.

Definition desynchronized (b : Level2Book) : Level2Book := {|
  bids_ := bids_ b; asks_ := asks_ b; sequence_ := sequence_ b; timestamp_ns_ := timestamp_ns_ b;
  synchronized_ := false; recovery_buffer_ := recovery_buffer_ b;
  missing_sequence_ := missing_sequence_ b; sequence_gap_count_ := sequence_gap_count_ b;
  recovery_count_ := recovery_count_ b |}.

(** [recovery_buffer_.try_emplace(update.sequence, update)] *)
Definition buffer_update (u : MarketDataUpdate) (b : Level2Book) : Level2Book := {|
  bids_ := bids_ b; asks_ := asks_ b; sequence_ := sequence_ b; timestamp_ns_ := timestamp_ns_ b;
  synchronized_ := synchronized_ b;
  recovery_buffer_ :=
    match sm_lookup Z.ltb (mu_sequence u) (recovery_buffer_ b) with
    | Some _ => recovery_buffer_ b
    | None => sm_insert Z.ltb (mu_sequence u) u (recovery_buffer_ b)
    end;
  missing_sequence_ := missing_sequence_ b; sequence_gap_count_ := sequence_gap_count_ b;
  recovery_count_ := recovery_count_ b |}.

(** [synchronized_ = false; missing_sequence_ = expected; ++sequence_gap_count_] *)
Definition open_gap (expected : Z) (b : Level2Book) : Level2Book := {|
  bids_ := bids_ b; asks_ := asks_ b; sequence_ := sequence_ b; timestamp_ns_ := timestamp_ns_ b;
  synchronized_ := false; recovery_buffer_ := recovery_buffer_ b; missing_sequence_ := expected;
  sequence_gap_count_ := u64 (sequence_gap_count_ b + 1); recovery_count_ := recovery_count_ b |}.

(** [Level2Book::apply] *)
Definition check_update (u : MarketDataUpdate) : result unit :=
  _ ← validate_identity (mu_venue u) (mu_symbol u);
  _ ← validate_price (mu_price u);
  _ ← validate_quantity (mu_quantity u);
  guard_or (negb (mu_sequence u =? 0)) (invalid_argument "update sequence must be positive").

Definition apply (u : MarketDataUpdate) : ST Level2Book MarketDataDecision := fun b =>
  match check_update u with
  | Throw e => (Throw e, b)
  | Ok _ =>
  let expected := u64 (sequence_ b + 1) in
  if mu_sequence u <=? sequence_ b
  then (Ok (decision false false expected (mu_sequence u) "stale or duplicate update ignored"), b)
  else if negb (synchronized_ b) then
    if (max_recovery_buffer_ <=? Z.of_nat (length (recovery_buffer_ b))) &&
       bool_decide (sm_lookup Z.ltb (mu_sequence u) (recovery_buffer_ b) = None)
    then (Ok (decision false true (missing_sequence_ b) (mu_sequence u)
                "recovery buffer capacity exceeded"), b)
    else (Ok (decision false true (if negb (missing_sequence_ b =? 0) then missing_sequence_ b else expected)
                (mu_sequence u) "incremental buffered during recovery"),
          buffer_update u b)
  else if expected <? mu_sequence u
  then (Ok (decision false true expected (mu_sequence u) "market-data sequence gap detected"),
        buffer_update u (open_gap expected b))
  else
    let b := with_sides (change u (sides b)) b in
    if crosses (sides b)
    then (Ok (decision false false expected (mu_sequence u) "incremental update crossed the market"),
          desynchronized b)
    else (Ok (decision true false expected (mu_sequence u) "incremental update accepted"),
          at_sequence (mu_sequence u) (mu_timestamp_ns u) b)
  end.

(** The replay of the buffered updates after a snapshot. *)
Fixpoint replay (us : list MarketDataUpdate) : ST Level2Book unit :=
  match us with
  | [] => mret tt
  | u :: us => fun b =>
      if mu_sequence u <=? sequence_ b then replay us b
      else match apply u b with
           | (Ok _, b) => replay us b
           | (Throw e, b) => (Throw e, b)
           end
  end.

Definition snapshot_sides (s : MarketDataSnapshot) : result (levels * levels) :=
  _ ← validate_identity (ms_venue s) (ms_symbol s);
  next_bids ← load_levels Bid (ms_bids s) [];
  next_asks ← load_levels Ask (ms_asks s) [];
  if crosses (next_bids, next_asks)
  then Throw (invalid_argument "snapshot contains crossed market")
  else Ok (next_bids, next_asks).

(** The book of the snapshot, before the replay. *)
Definition from_snapshot (s : MarketDataSnapshot) (l : levels * levels) (b : Level2Book)
    : Level2Book := {|
  bids_ := l.1; asks_ := l.2; sequence_ := ms_sequence s; timestamp_ns_ := ms_timestamp_ns s;
  synchronized_ := true; recovery_buffer_ := []; missing_sequence_ := 0;
  sequence_gap_count_ := sequence_gap_count_ b; recovery_count_ := recovery_count_ b |}.

Definition count_recovery (b : Level2Book) : Level2Book := {|
  bids_ := bids_ b; asks_ := asks_ b; sequence_ := sequence_ b; timestamp_ns_ := timestamp_ns_ b;
  synchronized_ := synchronized_ b; recovery_buffer_ := recovery_buffer_ b;
  missing_sequence_ := missing_sequence_ b; sequence_gap_count_ := sequence_gap_count_ b;
  recovery_count_ := u64 (recovery_count_ b + 1) |}.

Definition apply_snapshot (s : MarketDataSnapshot) : ST Level2Book MarketDataDecision := fun b =>
  match snapshot_sides s with
  | Throw e => (Throw e, b)
  | Ok l =>
      let was_recovering :=
        negb (bool_decide (recovery_buffer_ b = [])) || negb (missing_sequence_ b =? 0) in
      let buffered_updates := (recovery_buffer_ b).*2 in
      match replay buffered_updates (from_snapshot s l b) with
      | (Throw e, b) => (Throw e, b)
      | (Ok _, b) =>
          let b := if was_recovering && synchronized_ b then count_recovery b else b in
          (Ok (decision true (negb (synchronized_ b))
                 (if synchronized_ b then u64 (sequence_ b + 1) else missing_sequence_ b)
                 (ms_sequence s)
                 (if synchronized_ b
                  then if was_recovering then "snapshot accepted and recovery completed"
                       else "snapshot accepted"
                  else "snapshot accepted but buffered replay still contains a gap")), b)
      end
  end.

(** [Level2Book::apply_batch] *)
Fixpoint batch_loop (first : MarketDataUpdate) (us : list MarketDataUpdate) (latest : Z)
    (l : levels * levels) : result (Z * (levels * levels)) :=
  match us with
  | [] => Ok (latest, l)
  | u :: us =>
      _ ← validate_identity (mu_venue u) (mu_symbol u);
      _ ← guard_or (bool_decide (mu_venue u = mu_venue first) && bool_decide (mu_symbol u = mu_symbol first))
            (invalid_argument "market-data batch mixes books");
      _ ← guard_or (mu_sequence u =? mu_sequence first)
            (invalid_argument "market-data batch mixes sequences");
      _ ← validate_price (mu_price u);
      _ ← validate_quantity (mu_quantity u);
      batch_loop first us (Z.max latest (mu_timestamp_ns u)) (change u l)
  end.

Definition apply_batch (us : list MarketDataUpdate) : ST Level2Book MarketDataDecision := fun b =>
  match us with
  | [] => (Ok (decision true false (sequence_ b) (sequence_ b) "empty update batch accepted"), b)
  | first :: _ =>
      match validate_identity (mu_venue first) (mu_symbol first) with
      | Throw e => (Throw e, b)
      | Ok _ =>
      let expected := u64 (sequence_ b + 1) in
      if negb (synchronized_ b)
      then (Ok (decision false true expected (mu_sequence first)
                  "snapshot required before incrementals"), b)
      else if negb (mu_sequence first =? expected)
      then (Ok (decision false true expected (mu_sequence first) "market-data sequence gap detected"),
            desynchronized b)
      else match batch_loop first us (mu_timestamp_ns first) (sides b) with
      | Throw e => (Throw e, b)
      | Ok (latest_timestamp, l) =>
          if crosses l
          then (Ok (decision false false expected (mu_sequence first)
                      "incremental batch crossed the market"), desynchronized b)
          else (Ok (decision true false expected (mu_sequence first) "incremental update batch accepted"),
                at_sequence (mu_sequence first) latest_timestamp (with_sides l b))
      end
      end
  end.

(** ** Queries *)

Definition level_of (e : double * double) : MarketDataLevel := {| ml_price := e.1; ml_quantity := e.2 |}.

Definition best_bid (b : Level2Book) : option MarketDataLevel := level_of <$> head (bids_ b).
Definition best_ask (b : Level2Book) : option MarketDataLevel := level_of <$> head (asks_ b).

Definition copy_depth (m : levels) (depth : nat) : list MarketDataLevel := level_of <$> take depth m.

Definition bids (depth : nat) (b : Level2Book) : list MarketDataLevel := copy_depth (bids_ b) depth.
Definition asks (depth : nat) (b : Level2Book) : list MarketDataLevel := copy_depth (asks_ b) depth.

Definition recovering (b : Level2Book) : bool :=
  negb (synchronized_ b) && negb (missing_sequence_ b =? 0).

Definition buffered_update_count (b : Level2Book) : nat := length (recovery_buffer_ b).

Definition clear (b : Level2Book) : Level2Book := Level2Book0.

(** ** All books *)

Definition ConsolidatedMarketData : Type := gmap string Level2Book.

Definition newline : string := String (Ascii.ascii_of_nat 10) EmptyString.

Definition key (venue symbol : string) : result string :=
  _ ← validate_identity venue symbol; Ok (venue +:+ newline +:+ symbol).

(** [books_\[key\]] makes an empty book when there is none; the operation then
    changes it. *)
Definition with_level2_book (venue symbol : string) (f : ST Level2Book MarketDataDecision)
    : ST ConsolidatedMarketData MarketDataDecision := fun books =>
  match key venue symbol with
  | Throw e => (Throw e, books)
  | Ok k =>
      let (r, b) := f (default Level2Book0 (books !! k)) in (r, <[k := b]> books)
  end.

Definition cmd_apply_snapshot (s : MarketDataSnapshot) : ST ConsolidatedMarketData MarketDataDecision :=
  with_level2_book (ms_venue s) (ms_symbol s) (apply_snapshot s).

Definition cmd_apply (u : MarketDataUpdate) : ST ConsolidatedMarketData MarketDataDecision :=
  with_level2_book (mu_venue u) (mu_symbol u) (apply u).

Definition cmd_apply_batch (us : list MarketDataUpdate)
    : ST ConsolidatedMarketData MarketDataDecision :=
  match us with
  | [] => fun books => (Ok (decision true false 0 0 "empty update batch accepted"), books)
  | first :: _ => with_level2_book (mu_venue first) (mu_symbol first) (apply_batch us)
  end.

Definition find_book (venue symbol : string) (books : ConsolidatedMarketData)
    : result (option Level2Book) :=
  k ← key venue symbol; Ok (books !! k).

(** [find('\n')] and the two [substr]: venue and symbol of a key. *)
Fixpoint split_key (k : string) : option (string * string) :=
  match k with
  | EmptyString => None
  | String c k' =>
      if bool_decide (c = Ascii.ascii_of_nat 10) then Some (EmptyString, k')
      else (fun p => (String c p.1, p.2)) <$> split_key k'
  end.

(** One round of [consolidated_bbo]. *)
Definition bbo_bid (venue : string) (b : Level2Book) (r : BestBidOffer) : BestBidOffer :=
  match best_bid b with
  | Some bid =>
      if bool_decide (bbo_bid_venue r = "") || dgt (ml_price bid) (bbo_bid_price r)
      then {| bbo_valid := bbo_valid r; bbo_bid_price := ml_price bid;
              bbo_bid_quantity := ml_quantity bid; bbo_bid_venue := venue;
              bbo_ask_price := bbo_ask_price r; bbo_ask_quantity := bbo_ask_quantity r;
              bbo_ask_venue := bbo_ask_venue r; bbo_midpoint := bbo_midpoint r;
              bbo_spread := bbo_spread r; bbo_locked := bbo_locked r; bbo_crossed := bbo_crossed r |}
      else r
  | None => r
  end.

Definition bbo_ask (venue : string) (b : Level2Book) (r : BestBidOffer) : BestBidOffer :=
  match best_ask b with
  | Some ask =>
      if bool_decide (bbo_ask_venue r = "") || dlt (ml_price ask) (bbo_ask_price r)
      then {| bbo_valid := bbo_valid r; bbo_bid_price := bbo_bid_price r;
              bbo_bid_quantity := bbo_bid_quantity r; bbo_bid_venue := bbo_bid_venue r;
              bbo_ask_price := ml_price ask; bbo_ask_quantity := ml_quantity ask;
              bbo_ask_venue := venue; bbo_midpoint := bbo_midpoint r;
              bbo_spread := bbo_spread r; bbo_locked := bbo_locked r; bbo_crossed := bbo_crossed r |}
      else r
  | None => r
  end.

Definition bbo_mark (r : BestBidOffer) : BestBidOffer := {|
  bbo_valid := negb (bool_decide (bbo_bid_venue r = "")) && negb (bool_decide (bbo_ask_venue r = ""));
  bbo_bid_price := bbo_bid_price r; bbo_bid_quantity := bbo_bid_quantity r;
  bbo_bid_venue := bbo_bid_venue r; bbo_ask_price := bbo_ask_price r;
  bbo_ask_quantity := bbo_ask_quantity r; bbo_ask_venue := bbo_ask_venue r;
  bbo_midpoint := bbo_midpoint r; bbo_spread := bbo_spread r; bbo_locked := bbo_locked r;
  bbo_crossed := bbo_crossed r |}.

Definition bbo_step (symbol : string) (e : string * Level2Book) (r : BestBidOffer) : BestBidOffer :=
  if negb (synchronized_ e.2) then r
  else match split_key e.1 with
  | None => r
  | Some (venue, stored_symbol) =>
      if negb (bool_decide (stored_symbol = symbol)) then r
      else bbo_mark (bbo_ask venue e.2 (bbo_bid venue e.2 r))
  end.

(** What follows the loop. *)
Definition bbo_finish (r : BestBidOffer) : BestBidOffer :=
  if negb (bbo_valid r) then r
  else
    let spread := dsub (bbo_ask_price r) (bbo_bid_price r) in
    let crossed := dlt spread dzero in
    {| bbo_valid := negb crossed; bbo_bid_price := bbo_bid_price r;
       bbo_bid_quantity := bbo_bid_quantity r; bbo_bid_venue := bbo_bid_venue r;
       bbo_ask_price := bbo_ask_price r; bbo_ask_quantity := bbo_ask_quantity r;
       bbo_ask_venue := bbo_ask_venue r;
       bbo_midpoint := if crossed then dzero
                       else ddiv (dadd (bbo_bid_price r) (bbo_ask_price r)) (dbl 2);
       bbo_spread := spread; bbo_locked := deq spread dzero; bbo_crossed := crossed |}.

(** [entries] are the books in the order in which the hash map visits them. *)
Definition consolidated_bbo (symbol : string) (entries : list (string * Level2Book)) : BestBidOffer :=
  bbo_finish (foldl (fun r e => bbo_step symbol e r) BestBidOffer0 entries).

Definition string_before (x y : string) : Prop := String.leb x y = true.

#[export] Instance string_before_dec x y : Decision (string_before x y).
Proof. unfold string_before. apply _. Defined.

Definition venues_for_symbol (symbol : string) (entries : list (string * Level2Book)) : list string :=
  merge_sort string_before
    (omap (fun e => match split_key e.1 with
                    | Some (venue, stored) => if bool_decide (stored = symbol) then Some venue else None
                    | None => None
                    end) entries).
