(* ===== verification/MarketDataProps.v ===== *)
(** * Properties of the level-2 books

    Books stay sorted, positive and uncrossed, and a book that was resynchronized
    is the book that lost nothing. *)

From S2P Require Import Prelude.
From S2P Require Import Float.
From S2P Require Import SortedMap.
From S2P Require Import MarketData.

(** ** Prices *)

Definition price_ok (p : double) : Prop := dpositive p = true.

Lemma dlt_trans_pos x y z : price_ok x -> price_ok y -> price_ok z ->
  dlt x y = true -> dlt y z = true -> dlt x z = true.
Proof.
  intros (m1 & e1 & ->)%dpositive_inv (m2 & e2 & ->)%dpositive_inv (m3 & e3 & ->)%dpositive_inv.
  unfold dlt, SFltb. cbn.
  change (Pos.compare_cont Eq m1 m2) with (Pos.compare m1 m2).
  change (Pos.compare_cont Eq m2 m3) with (Pos.compare m2 m3).
  change (Pos.compare_cont Eq m1 m3) with (Pos.compare m1 m3).
  destruct (Z.compare_spec e1 e2), (Z.compare_spec e2 e3), (Z.compare_spec e1 e3); try done; try lia;
    destruct (Pos.compare_spec m1 m2), (Pos.compare_spec m2 m3), (Pos.compare_spec m1 m3);
    try done; lia.
Qed.

Lemma dlt_total_pos x y : price_ok x -> price_ok y -> dlt x y = false -> dlt y x = false -> x = y.
Proof.
  intros (m1 & e1 & ->)%dpositive_inv (m2 & e2 & ->)%dpositive_inv.
  unfold dlt, SFltb. cbn.
  change (Pos.compare_cont Eq m1 m2) with (Pos.compare m1 m2).
  change (Pos.compare_cont Eq m2 m1) with (Pos.compare m2 m1).
  destruct (Z.compare_spec e1 e2), (Z.compare_spec e2 e1); try done; try lia;
    destruct (Pos.compare_spec m1 m2), (Pos.compare_spec m2 m1); intros; first [discriminate | lia | by subst | by repeat f_equal; lia].
Qed.

#[export] Instance price_order side : StrictOrderOn price_ok (before side).
Proof.
  destruct side; split; unfold before.
  - intros k _. apply dlt_irrefl.
  - intros i j k H1 H2 H3 H4 H5. by apply (dlt_trans_pos k j i).
  - intros i j H1 H2 H3 H4. by apply dlt_total_pos.
  - intros k _. apply dlt_irrefl.
  - intros i j k H1 H2 H3. by apply dlt_trans_pos.
  - intros i j H1 H2. by apply dlt_total_pos.
Qed.

#[export] Instance sequence_order : StrictOrderOn (fun _ : Z => True) Z.ltb.
Proof.
  split.
  - intros k _. apply Z.ltb_irrefl.
  - intros i j k _ _ _. rewrite !Z.ltb_lt. lia.
  - intros i j _ _. rewrite !Z.ltb_ge. lia.
Qed.

(** ** The invariant *)

Definition quantity_ok (q : double) : Prop := isfinite q = true /\ dgt q level_epsilon = true.

Record side_ok (side : MarketDataSide) (m : levels) : Prop := {
  sd_prices : sm_keys price_ok m;
  sd_sorted : sm_sorted (before side) m;
  sd_quantities : Forall (fun e => quantity_ok e.2) m
}.

Record sides_ok (l : levels * levels) : Prop := {
  so_bids : side_ok Bid l.1;
  so_asks : side_ok Ask l.2
}.

Lemma validate_price_ok p u : validate_price p = Ok u -> price_ok p.
Proof.
  unfold validate_price, price_ok, dpositive. destruct (isfinite p), (dle p dzero); done.
Qed.

Lemma validate_price_iff p : price_ok p -> validate_price p = Ok tt.
Proof.
  unfold validate_price, price_ok, dpositive. destruct (isfinite p), (dle p dzero); done.
Qed.

Lemma side_ok_insert side p q m : price_ok p -> quantity_ok q -> side_ok side m ->
  side_ok side (sm_insert (before side) p q m).
Proof.
  intros Hp Hq [H1 H2 H3]. split.
  - by apply sm_keys_insert.
  - by apply sm_sorted_insert.
  - apply Forall_forall. intros e He. apply sm_insert_elem in He as [-> | He]; [done| |done|done].
    rewrite Forall_forall in H3. by apply H3.
Qed.

Lemma side_ok_delete side p m : side_ok side m -> side_ok side (sm_delete (before side) p m).
Proof.
  intros [H1 H2 H3]. split.
  - by apply sm_keys_delete.
  - by apply sm_sorted_delete.
  - eapply Forall_forall. intros e He. apply sm_delete_elem in He.
    rewrite Forall_forall in H3. by apply H3.
Qed.

Lemma quantity_above q u : validate_quantity q = Ok u -> dgt q level_epsilon = true -> quantity_ok q.
Proof. unfold validate_quantity. intros H1 H2. split; [|done]. by destruct (isfinite q). Qed.

Lemma dle_false_gt q u : validate_quantity q = Ok u -> dle q level_epsilon = false ->
  dgt q level_epsilon = true.
Proof.
  unfold validate_quantity. intros H1 H2.
  assert (isnan q = false) by (apply isfinite_number; by destruct (isfinite q)).
  destruct (dgt q level_epsilon) eqn:E; [done|]. apply dlt_false_dle in E; [congruence|done|done].
Qed.

Lemma change_ok u l : sides_ok l -> price_ok (mu_price u) ->
  validate_quantity (mu_quantity u) = Ok tt -> sides_ok (change u l).
Proof.
  intros [H1 H2] Hp Hq. unfold change.
  assert (H : forall side m, side_ok side m -> side_ok side
    (if bool_decide (mu_type u = Delete) || dle (mu_quantity u) level_epsilon
     then sm_delete (before side) (mu_price u) m
     else sm_insert (before side) (mu_price u) (mu_quantity u) m)).
  { intros side m Hm. destruct (_ || _) eqn:E; [by apply side_ok_delete|]. breflect.
    apply side_ok_insert; [done| |done]. eapply quantity_above; [done|]. by eapply dle_false_gt. }
  destruct (mu_side u); cbn; split; cbn; auto.
Qed.

Lemma load_levels_ok side ls : forall m m', side_ok side m -> load_levels side ls m = Ok m' ->
  side_ok side m'.
Proof.
  induction ls as [|l ls IH]; intros m m' Hm H; cbn [load_levels] in H; [by injection H as <-|].
  destruct (validate_price (ml_price l)) as [[]|] eqn:Ep; [|done].
  destruct (validate_quantity (ml_quantity l)) as [[]|] eqn:Eq; [|done]. cbn in H.
  apply IH in H; [done|]. destruct (dgt _ _) eqn:E; [|done].
  apply side_ok_insert; [by eapply validate_price_ok | by eapply quantity_above | done].
Qed.

Lemma snapshot_sides_ok s l : snapshot_sides s = Ok l -> sides_ok l /\ crosses l = false.
Proof.
  unfold snapshot_sides. destruct (validate_identity _ _) as [[]|]; [|done]. cbn.
  destruct (load_levels Bid _ _) as [b|] eqn:Eb; [|done]. cbn.
  destruct (load_levels Ask _ _) as [a|] eqn:Ea; [|done]. cbn.
  destruct (crosses (b, a)) eqn:Ec; [done|]. intros [= <-].
  split; [|done]. split; cbn; eapply load_levels_ok; eauto;
    (split; [constructor|constructor|constructor]).
Qed.

Record book_ok (b : Level2Book) : Prop := {
  bk_sides : sides_ok (sides b);
  bk_buffer : Forall (fun e => e.1 = mu_sequence e.2 /\ check_update e.2 = Ok tt) (recovery_buffer_ b);
  bk_buffer_sorted : sm_sorted Z.ltb (recovery_buffer_ b);
  bk_capacity : Z.of_nat (length (recovery_buffer_ b)) <= max_recovery_buffer_;
  bk_synchronized : synchronized_ b = true ->
    crosses (sides b) = false /\ recovery_buffer_ b = [] /\ missing_sequence_ b = 0
}.

Lemma empty_side side : side_ok side [].
Proof. split; constructor. Qed.

Lemma book_ok_empty : book_ok Level2Book0.
Proof.
  split; try done; [split; apply empty_side | apply SSorted_nil].
Qed.

Lemma check_update_fields u : check_update u = Ok tt ->
  price_ok (mu_price u) /\ validate_quantity (mu_quantity u) = Ok tt.
Proof.
  unfold check_update. destruct (validate_identity _ _) as [[]|]; [|done]. cbn.
  destruct (validate_price _) as [[]|] eqn:Ep; [|done]. cbn.
  destruct (validate_quantity _) as [[]|] eqn:Eq; [|done]. intros _.
  split; [by eapply validate_price_ok | done].
Qed.

Lemma length_sm_insert {V} k (v : V) m : (length (sm_insert Z.ltb k v m) <= S (length m))%nat.
Proof. induction m as [|[k' v'] m IH]; cbn; [lia|]. repeat case_match; cbn; lia. Qed.

Lemma sequences_any {V} (m : smap Z V) : sm_keys (fun _ => True) m.
Proof. by apply Forall_forall. Qed.

Lemma buffer_update_ok u b : book_ok b -> check_update u = Ok tt -> synchronized_ b = false ->
  sm_lookup Z.ltb (mu_sequence u) (recovery_buffer_ b) <> None \/
  Z.of_nat (length (recovery_buffer_ b)) < max_recovery_buffer_ ->
  book_ok (buffer_update u b).
Proof.
  intros [H1 H2 H3 H4 _] Hu Hs Hc.
  destruct (sm_lookup Z.ltb (mu_sequence u) (recovery_buffer_ b)) eqn:E.
  - split; unfold buffer_update, sides; cbn; rewrite ?E; try done. by rewrite Hs.
  - destruct Hc as [Hc|Hc]; [done|]. split; unfold buffer_update, sides; cbn; rewrite ?E; try done.
    + apply Forall_forall. intros e He.
      apply (sm_insert_elem (P := fun _ => True)) in He as [-> | He]; [done| |done|apply sequences_any].
      rewrite Forall_forall in H2. by apply H2.
    + by apply (sm_sorted_insert (P := fun _ => True)); [|apply sequences_any|].
    + pose proof (length_sm_insert (mu_sequence u) u (recovery_buffer_ b)). lia.
    + by rewrite Hs.
Qed.

Lemma desynchronized_ok b l : book_ok b -> sides_ok l -> book_ok (desynchronized (with_sides l b)).
Proof. intros [H1 H2 H3 H4 _] Hl. destruct l. by split. Qed.

Lemma desynchronized_same b : book_ok b -> book_ok (desynchronized b).
Proof. intros [H1 H2 H3 H4 _]. by split. Qed.

Lemma apply_throws u b e b' : apply u b = (Throw e, b') -> b' = b /\ check_update u = Throw e.
Proof.
  unfold apply. destruct (check_update u); [|by intros [= <- <-]].
  repeat case_match; done.
Qed.

Lemma check_update_unit u x : check_update u = Ok x -> check_update u = Ok tt.
Proof. by destruct x. Qed.

Lemma apply_ok u b : book_ok b -> book_ok (apply u b).2.
Proof.
  intros Hb. pose proof Hb as [H1 H2 H3 H4 H5].
  unfold apply. destruct (check_update u) as [[]|] eqn:Eu; [|done].
  apply check_update_fields in Eu as Hu. destruct Hu as [Hp Hq].
  destruct (mu_sequence u <=? sequence_ b); [done|].
  destruct (synchronized_ b) eqn:Es; cbn [negb].
  - destruct (H5 eq_refl) as (C1 & C2 & C3). destruct (_ <? _); cbn [snd].
    + apply buffer_update_ok; [|done|done|right; unfold open_gap; cbn; rewrite C2; done].
      split; cbn; done.
    + pose proof (change_ok u _ H1 Hp Hq) as Hc.
      destruct (crosses (sides (with_sides _ _))) eqn:Ec; cbn [snd]; [by apply desynchronized_ok|].
      split; cbn; try done. all: try (by destruct (change u (sides b))); by rewrite C2, C3.
  - destruct (_ && _) eqn:E; cbn [snd]; [done|]. apply buffer_update_ok; try done.
    apply andb_false_iff in E as [E|E]; breflect; auto.
Qed.

Lemma replay_ok us : forall b, book_ok b -> Forall (fun u => check_update u = Ok tt) us ->
  exists b', replay us b = (Ok tt, b') /\ book_ok b'.
Proof.
  induction us as [|u us IH]; intros b Hb Hus; [by exists b|].
  apply Forall_cons in Hus as [Hu Hus]. cbn [replay]. destruct (_ <=? _); [by apply IH|].
  pose proof (apply_ok u b Hb) as Ho. destruct (apply u b) as [[d|e] b1] eqn:E; [by apply IH|].
  apply apply_throws in E as [_ E]. congruence.
Qed.

Lemma from_snapshot_ok s l b : snapshot_sides s = Ok l -> book_ok (from_snapshot s l b).
Proof.
  intros [Hl Hc]%snapshot_sides_ok. destruct l as [x y].
  by split; [|constructor|constructor|..].
Qed.

Lemma count_recovery_ok b : book_ok b -> book_ok (count_recovery b).
Proof. intros []. by split. Qed.

Lemma apply_snapshot_ok s b : book_ok b ->
  match snapshot_sides s with
  | Throw e => apply_snapshot s b = (Throw e, b)
  | Ok l => exists d b', apply_snapshot s b = (Ok d, b') /\ md_accepted d = true /\ book_ok b'
  end.
Proof.
  intros Hb. unfold apply_snapshot. destruct (snapshot_sides s) as [l|e] eqn:E; [|done].
  destruct (replay_ok ((recovery_buffer_ b).*2) (from_snapshot s l b)) as (b' & Hr & Hb').
  - by apply from_snapshot_ok.
  - apply Forall_fmap. eapply Forall_impl; [apply (bk_buffer b Hb)|]. by intros e' [_ He'].
  - cbv zeta. rewrite Hr. eexists _, _. split; [reflexivity|]. split; [done|].
    destruct (_ && synchronized_ b'); [by apply count_recovery_ok | done].
Qed.

Lemma batch_loop_ok first us : forall latest l latest' l', sides_ok l ->
  batch_loop first us latest l = Ok (latest', l') -> sides_ok l'.
Proof.
  induction us as [|u us IH]; intros latest l latest' l' Hl H; cbn [batch_loop] in H;
    [by injection H as <- <-|].
  destruct (validate_identity _ _) as [[]|]; [|done].
  destruct (guard_or (bool_decide (mu_venue u = _) && _) _) as [[]|]; [|done].
  destruct (guard_or (_ =? _) _) as [[]|]; [|done].
  destruct (validate_price _) as [[]|] eqn:Ep; [|done].
  destruct (validate_quantity _) as [[]|] eqn:Eq; [|done]. cbn in H.
  eapply IH; [|exact H]. apply change_ok; [done | by eapply validate_price_ok | done].
Qed.

Lemma apply_batch_ok us b : book_ok b -> book_ok (apply_batch us b).2.
Proof.
  intros Hb. pose proof Hb as [H1 H2 H3 H4 H5]. unfold apply_batch.
  destruct us as [|first us]; [done|]. destruct (validate_identity _ _) as [[]|]; [|done].
  destruct (synchronized_ b) eqn:Es; cbn [negb]; [|done].
  destruct (H5 eq_refl) as (C1 & C2 & C3).
  destruct (negb _); cbn [snd]; [by apply desynchronized_same|].
  destruct (batch_loop _ _ _ _) as [[latest l]|] eqn:E; [|done].
  pose proof (batch_loop_ok _ _ _ _ _ _ H1 E) as Hl.
  destruct (crosses l) eqn:Ec; cbn [snd]; [by apply desynchronized_same|].
  destruct l as [x y]. by split.
Qed.

(** ** Events *)

Inductive md_event :=
| FeedSnapshot (s : MarketDataSnapshot)
| FeedUpdate (u : MarketDataUpdate)
| FeedBatch (us : list MarketDataUpdate)
| FeedClear.

Definition md_step (b : Level2Book) (ev : md_event) : Level2Book :=
  match ev with
  | FeedSnapshot s => (apply_snapshot s b).2
  | FeedUpdate u => (apply u b).2
  | FeedBatch us => (apply_batch us b).2
  | FeedClear => clear b
  end.

Lemma md_step_ok b ev : book_ok b -> book_ok (md_step b ev).
Proof.
  intros Hb. destruct ev; cbn [md_step].
  - pose proof (apply_snapshot_ok s b Hb) as H. destruct (snapshot_sides s).
    + destruct H as (d & b' & -> & _ & H). done.
    + by rewrite H.
  - by apply apply_ok.
  - by apply apply_batch_ok.
  - apply book_ok_empty.
Qed.

Lemma md_run_ok evs : book_ok (foldl md_step Level2Book0 evs).
Proof.
  assert (H : forall b, book_ok b -> book_ok (foldl md_step b evs)); [|apply H, book_ok_empty].
  induction evs as [|ev evs IH]; intros b Hb; [done|]. by apply IH, md_step_ok.
Qed.

Lemma best_prices_ok b bid ask : book_ok b -> best_bid b = Some bid -> best_ask b = Some ask ->
  synchronized_ b = true -> dlt (ml_price bid) (ml_price ask) = true.
Proof.
  intros [[[K1 _ _] [K2 _ _]] _ _ _ H] H1 H2 Hs. destruct (H Hs) as (Hc & _).
  unfold best_bid, best_ask, crosses, sides, sm_keys in *. cbn [fst snd] in *.
  destruct (bids_ b) as [|[p q] bs]; [done|]. destruct (asks_ b) as [|[p' q'] as']; [done|].
  injection H1 as <-. injection H2 as <-. cbn. apply Forall_cons in K1 as [K1 _].
  apply Forall_cons in K2 as [K2 _]. cbn in *.
  destruct (dlt p p') eqn:E; [done|]. apply dlt_false_dle in E; [unfold dge in Hc; unfold dle in E; congruence|..];
    apply isfinite_number; [by apply dpositive_inv in K1 as (? & ? & ->) | by apply dpositive_inv in K2 as (? & ? & ->)].
Qed.

(** Whatever snapshots, updates and batches arrive, valid or not, the
    prices of each side are positive and strictly sorted, best first, the
    quantities exceed the tolerance; a synchronized book is not crossed or
    locked, has nothing buffered and misses nothing; the buffer is bounded; an
    update throws only for what is wrong with itself and then changes nothing,
    and a snapshot is refused only for its own contents: the replay of the
    buffered updates never throws. *)
Theorem level2_book_consistent evs b : b = foldl md_step Level2Book0 evs ->
  StronglySorted (fun p q => dgt p q = true) (bids_ b).*1 /\
  StronglySorted (fun p q => dlt p q = true) (asks_ b).*1 /\
  Forall (fun e => dpositive e.1 = true /\ dgt e.2 level_epsilon = true) (bids_ b ++ asks_ b) /\
  Z.of_nat (buffered_update_count b) <= max_recovery_buffer_ /\
  (synchronized_ b = true ->
     (forall bid ask, best_bid b = Some bid -> best_ask b = Some ask ->
        dlt (ml_price bid) (ml_price ask) = true) /\
     buffered_update_count b = O /\ missing_sequence_ b = 0) /\
  (forall u e b', apply u b = (Throw e, b') -> b' = b /\ check_update u = Throw e) /\
  (forall s, match snapshot_sides s with
             | Throw e => apply_snapshot s b = (Throw e, b)
             | Ok _ => exists d b', apply_snapshot s b = (Ok d, b') /\ md_accepted d = true
             end).
Proof.
  intros ->. pose proof (md_run_ok evs) as Hb. set (b := foldl _ _ _) in *.
  pose proof Hb as [[[K1 S1 Q1] [K2 S2 Q2]] _ _ H3 H4]. cbn [fst snd sides] in *.
  split_and!; try done.
  - apply Forall_app. unfold sm_keys in *. rewrite Forall_fmap in K1, K2.
    split; apply Forall_and; (split; [done|]); [eapply Forall_impl; [exact Q1|] | eapply Forall_impl; [exact Q2|]];
      by intros e [_ He].
  - intros Hs. destruct (H4 Hs) as (_ & E & Hm). unfold buffered_update_count. rewrite E.
    split_and!; try done. intros bid ask H1 H2. by apply (best_prices_ok b).
  - intros u e b'. apply apply_throws.
  - intros s. pose proof (apply_snapshot_ok s b Hb) as H. destruct (snapshot_sides s); [|done].
    destruct H as (d & b' & H1 & H2 & _). by exists d, b'.
Qed.

(** ** Recovery *)

Lemma sm_insert_last {K V} (P : K -> Prop) lt `{!StrictOrderOn P lt} k (v : V) m :
  P k -> sm_keys P m -> Forall (fun k' => lt k' k = true) m.*1 -> sm_insert lt k v m = m ++ [(k, v)].
Proof.
  unfold sm_keys. induction m as [|[k' v'] m IH]; intros Hk Hm H; [done|]. cbn in *.
  apply Forall_cons in Hm as [H1 Hm]. apply Forall_cons in H as [H2 H].
  rewrite (lt_asym (P := P) k' k) by done. rewrite H2. by rewrite IH.
Qed.

Lemma sorted_snoc {A} (R : A -> A -> Prop) l x k :
  StronglySorted R (l ++ x :: k) -> Forall (fun y => R y x) l.
Proof.
  induction l as [|y l IH]; intros H; [constructor|]. inversion H as [|? ? H1 H2]; subst.
  constructor; [|by apply IH]. rewrite Forall_app in H2. by destruct H2 as [_ [H2 _]%Forall_cons].
Qed.

Lemma load_sorted side m : forall acc, side_ok side (acc ++ m) ->
  load_levels side (level_of <$> m) acc = Ok (acc ++ m).
Proof.
  induction m as [|[p q] m IH]; intros acc [H1 H2 H3]; [by rewrite app_nil_r|].
  cbn [fmap list_fmap load_levels level_of ml_price ml_quantity fst snd].
  unfold sm_keys, sm_sorted in *. rewrite fmap_app in H1, H2. cbn [fmap list_fmap fst] in H1, H2.
  pose proof H1 as H1'. apply Forall_app in H1' as [Ha [Hp _]%Forall_cons].
  pose proof H3 as H3'. apply Forall_app in H3' as [_ [[Hf Hq] _]%Forall_cons]. cbn [snd] in *.
  rewrite validate_price_iff by done. unfold validate_quantity. rewrite Hf.
  assert (dlt q dzero = false) as ->.
  { destruct q as [[]|[]| |[] mm ee]; try done. }
  cbn [negb orb]. unfold mbind, result_bind. rewrite Hq.
  rewrite (sm_insert_last price_ok _ _ _ _ Hp Ha (sorted_snoc _ _ _ _ H2)).
  rewrite IH, <- app_assoc; [done|]. rewrite <- app_assoc.
  split; [by unfold sm_keys; rewrite fmap_app | by unfold sm_sorted; rewrite fmap_app | done].
Qed.

(** A feed without loss: every update is accepted. *)
Inductive feeds : Level2Book -> list MarketDataUpdate -> Level2Book -> Prop :=
| feeds_nil b : feeds b [] b
| feeds_cons b u us d b1 b2 :
    apply u b = (Ok d, b1) -> md_accepted d = true -> feeds b1 us b2 -> feeds b (u :: us) b2.

(** What an observer of the book sees. *)
Definition core (b : Level2Book) : levels * levels * Z * Z := (sides b, sequence_ b, timestamp_ns_ b).

Definition moved (u : MarketDataUpdate) (b : Level2Book) : Level2Book :=
  at_sequence (mu_sequence u) (mu_timestamp_ns u) (with_sides (change u (sides b)) b).

Lemma apply_accepted u b d b1 : apply u b = (Ok d, b1) -> md_accepted d = true ->
  0 <= sequence_ b < 2 ^ 64 - 1 ->
  check_update u = Ok tt /\ synchronized_ b = true /\ mu_sequence u = sequence_ b + 1 /\
  crosses (change u (sides b)) = false /\ b1 = moved u b.
Proof.
  unfold apply. intros H Hd Hs. destruct (check_update u) as [[]|] eqn:Eu; [|done].
  rewrite (u64_small (sequence_ b + 1)) in H by (unfold in_u64; lia).
  destruct (mu_sequence u <=? sequence_ b) eqn:E1; [by injection H as <- _|].
  destruct (synchronized_ b); cbn [negb] in H; [|by case_match; injection H as <- _].
  destruct (sequence_ b + 1 <? mu_sequence u) eqn:E2; [by injection H as <- _|].
  destruct (crosses (sides _)) eqn:E3; [by injection H as <- _|]. injection H as _ <-. breflect.
  split_and!; try done; [lia|..]; cbn in E3; by destruct (change u (sides b)).
Qed.

Lemma apply_next u b : check_update u = Ok tt -> synchronized_ b = true ->
  mu_sequence u = sequence_ b + 1 -> 0 <= sequence_ b < 2 ^ 64 - 1 ->
  crosses (change u (sides b)) = false ->
  exists d, apply u b = (Ok d, moved u b) /\ md_accepted d = true.
Proof.
  intros H1 H2 H3 H4 H5. unfold apply. rewrite H1, H2.
  rewrite (u64_small (sequence_ b + 1)) by (unfold in_u64; lia). cbn [negb].
  rewrite (proj2 (Z.leb_gt _ _)), (proj2 (Z.ltb_ge _ _)) by lia.
  assert (crosses (sides (with_sides (change u (sides b)) b)) = false) as ->.
  { cbn. by destruct (change u (sides b)). }
  by eexists.
Qed.

(** The numbers of a feed without loss. *)
Lemma feeds_numbers b us b' : feeds b us b' ->
  0 <= sequence_ b -> sequence_ b + Z.of_nat (length us) < 2 ^ 64 ->
  mu_sequence <$> us = seqZ (sequence_ b + 1) (Z.of_nat (length us)) /\
  sequence_ b' = sequence_ b + Z.of_nat (length us) /\
  Forall (fun u => check_update u = Ok tt) us.
Proof.
  induction 1 as [b|b u us d b1 b2 H1 H2 _ IH]; intros Hs Hl; [cbn; split_and!; [done|lia|constructor]|].
  cbn [length fmap list_fmap] in *. rewrite Nat2Z.inj_succ in *.
  destruct (apply_accepted _ _ _ _ H1 H2 ltac:(lia)) as (C1 & C2 & C3 & C4 & ->).
  cbn [moved at_sequence sequence_] in IH. destruct IH as (I1 & I2 & I3); [lia|lia|].
  rewrite seqZ_cons by lia. rewrite Z.pred_succ, I1, I2, C3. split_and!; [do 2 f_equal; lia|lia|by constructor].
Qed.

(** Two synchronized books with the same contents evolve alike. *)
Lemma feeds_core b us b' c : feeds b us b' -> core c = core b -> synchronized_ c = true ->
  0 <= sequence_ b -> sequence_ b + Z.of_nat (length us) < 2 ^ 64 ->
  exists c', feeds c us c' /\ core c' = core b' /\ synchronized_ c' = true /\
    recovery_buffer_ c' = recovery_buffer_ c /\ missing_sequence_ c' = missing_sequence_ c /\
    recovery_count_ c' = recovery_count_ c.
Proof.
  intros H. revert c. induction H as [b|b u us d b1 b2 H1 H2 _ IH]; intros c Hc Hsy Hs Hl.
  - exists c. split_and!; try done. constructor.
  - cbn [length] in Hl. rewrite Nat2Z.inj_succ in Hl.
    destruct (apply_accepted _ _ _ _ H1 H2 ltac:(lia)) as (C1 & C2 & C3 & C4 & ->).
    unfold core in Hc. assert (sides c = sides b /\ sequence_ c = sequence_ b) as [E1 E2] by (split; congruence).
    destruct (apply_next u c) as (d' & A1 & A2); [done|done|congruence|lia|congruence|].
    destruct (IH (moved u c)) as (c' & F & G); [| done| |cbn; lia|].
    + unfold core, moved, sides. cbn. unfold sides in E1. by rewrite E1.
    + cbn. lia.
    + exists c'. split; [by eapply feeds_cons|]. exact G.
Qed.

(** The replay after a snapshot skips what the snapshot contains. *)
Lemma replay_skip us : forall b vs, Forall (fun u => mu_sequence u <= sequence_ b) us ->
  replay (us ++ vs) b = replay vs b.
Proof.
  induction us as [|u us IH]; intros b vs H; [done|]. apply Forall_cons in H as [H1 H2].
  cbn [app replay]. rewrite (proj2 (Z.leb_le _ _)) by done. by apply IH.
Qed.

Lemma replay_feeds b us b' : feeds b us b' -> 0 <= sequence_ b ->
  sequence_ b + Z.of_nat (length us) < 2 ^ 64 -> replay us b = (Ok tt, b').
Proof.
  induction 1 as [b|b u us d b1 b2 H1 H2 _ IH]; intros Hs Hl; [done|].
  cbn [length] in Hl. rewrite Nat2Z.inj_succ in Hl. cbn [replay].
  destruct (apply_accepted _ _ _ _ H1 H2 ltac:(lia)) as (C1 & C2 & C3 & C4 & ->).
  rewrite (proj2 (Z.leb_gt _ _)) by lia. rewrite H1. apply IH; cbn; lia.
Qed.

(** Updates that are missed are followed by updates that are buffered. *)
Lemma sm_lookup_last {V} k (m : smap Z V) : Forall (fun k' => k' <? k = true) m.*1 ->
  sm_lookup Z.ltb k m = None.
Proof.
  induction m as [|[k' v] m IH]; intros H; [done|]. cbn in *. apply Forall_cons in H as [H1 H].
  rewrite H1. destruct (k <? k'); [done|]. by apply IH.
Qed.

Definition by_sequence (us : list MarketDataUpdate) : smap Z MarketDataUpdate :=
  (fun u => (mu_sequence u, u)) <$> us.

Lemma by_sequence_keys us : (by_sequence us).*1 = mu_sequence <$> us.
Proof. unfold by_sequence. by rewrite <- list_fmap_compose. Qed.

Lemma buffer_last b us u : recovery_buffer_ b = by_sequence us ->
  Forall (fun v => mu_sequence v < mu_sequence u) us ->
  recovery_buffer_ (buffer_update u b) = by_sequence (us ++ [u]).
Proof.
  intros Hb Hu. unfold buffer_update. cbn. rewrite Hb.
  assert (Hk : Forall (fun k' => k' <? mu_sequence u = true) (by_sequence us).*1).
  { rewrite by_sequence_keys. apply Forall_fmap. eapply Forall_impl; [exact Hu|].
    intros v Hv. by apply Z.ltb_lt. }
  rewrite sm_lookup_last by done.
  rewrite (sm_insert_last (fun _ : Z => True) Z.ltb _ _ _ I (sequences_any _) Hk).
  unfold by_sequence. by rewrite fmap_app.
Qed.

Lemma buffering us : forall b vs n,
  synchronized_ b = false -> recovery_buffer_ b = by_sequence vs ->
  Forall (fun u => check_update u = Ok tt) us -> sequence_ b < n ->
  mu_sequence <$> us = seqZ n (Z.of_nat (length us)) -> Forall (fun v => mu_sequence v < n) vs ->
  Z.of_nat (length vs + length us) <= max_recovery_buffer_ ->
  let b' := foldl (fun b u => (apply u b).2) b us in
  synchronized_ b' = false /\ recovery_buffer_ b' = by_sequence (vs ++ us) /\
  recovery_count_ b' = recovery_count_ b /\ missing_sequence_ b' = missing_sequence_ b.
Proof.
  induction us as [|u us IH]; intros b vs n Hs Hb Hc Hn Hseq Hvs Hl; [by rewrite app_nil_r|].
  cbn [foldl length fmap list_fmap] in *. rewrite Nat2Z.inj_succ, seqZ_cons in Hseq by lia.
  injection Hseq as Hu Hseq. rewrite Z.pred_succ in Hseq. apply Forall_cons in Hc as [Hc1 Hc].
  assert (Ha : (apply u b).2 = buffer_update u b).
  { unfold apply. rewrite Hc1, Hs. rewrite (proj2 (Z.leb_gt _ _)) by lia. cbn [negb].
    rewrite (proj2 (Z.leb_gt max_recovery_buffer_ _)); [done|]. rewrite Hb.
    unfold by_sequence. rewrite length_fmap. lia. }
  rewrite Ha, cons_middle, app_assoc. apply (IH (buffer_update u b) (vs ++ [u]) (Z.succ n)); try done.
  - apply buffer_last; [done|]. by rewrite Hu.
  - cbn. lia.
  - apply Forall_app. split; [|constructor; [lia|done]].
    eapply Forall_impl; [exact Hvs|]. cbn. lia.
  - rewrite length_app. cbn. lia.
Qed.

(** The snapshot that the venue publishes of a book. *)
Definition snapshot_of (venue symbol : string) (b : Level2Book) : MarketDataSnapshot := {|
  ms_venue := venue; ms_symbol := symbol; ms_sequence := sequence_ b;
  ms_timestamp_ns := timestamp_ns_ b; ms_bids := level_of <$> bids_ b;
  ms_asks := level_of <$> asks_ b |}.

Lemma snapshot_of_sides venue symbol b : venue <> ""%string -> symbol <> ""%string ->
  book_ok b -> synchronized_ b = true -> snapshot_sides (snapshot_of venue symbol b) = Ok (sides b).
Proof.
  intros Hv Hs [[H1 H2] _ _ _ H] Hsy. destruct (H Hsy) as [Hc _].
  unfold snapshot_sides, snapshot_of. cbn [ms_venue ms_symbol ms_bids ms_asks].
  unfold validate_identity, guard_or. rewrite !bool_decide_eq_false_2 by done.
  cbn [negb mbind result_bind]. rewrite (load_sorted Bid _ []), (load_sorted Ask _ []) by done.
  cbn [app]. unfold sides in *. cbn [mbind result_bind]. by rewrite Hc.
Qed.

Lemma feeds_ok b us b' : feeds b us b' -> book_ok b -> synchronized_ b = true ->
  0 <= sequence_ b -> sequence_ b + Z.of_nat (length us) < 2 ^ 64 ->
  book_ok b' /\ synchronized_ b' = true.
Proof.
  induction 1 as [b|b u us d b1 b2 H1 H2 _ IH]; intros Hb Hsy Hs Hl; [done|].
  cbn [length] in Hl. rewrite Nat2Z.inj_succ in Hl. pose proof (apply_ok u b Hb) as Ho.
  rewrite H1 in Ho. cbn [snd] in Ho.
  destruct (apply_accepted _ _ _ _ H1 H2 ltac:(lia)) as (C1 & C2 & C3 & C4 & ->).
  apply IH; try done; cbn; lia.
Qed.

(** The gap: what is missed makes everything that follows be buffered. *)
Lemma after_gap b n us : book_ok b -> synchronized_ b = true -> 0 <= sequence_ b ->
  sequence_ b + 1 < n -> n < 2 ^ 64 -> us <> [] ->
  mu_sequence <$> us = seqZ n (Z.of_nat (length us)) ->
  Forall (fun u => check_update u = Ok tt) us -> Z.of_nat (length us) <= max_recovery_buffer_ ->
  let b' := foldl (fun b u => (apply u b).2) b us in
  synchronized_ b' = false /\ recovery_buffer_ b' = by_sequence us /\
  recovery_count_ b' = recovery_count_ b /\ missing_sequence_ b' = sequence_ b + 1.
Proof.
  intros Hb Hsy Hs Hn Hn' Hne Hseq Hc Hl. destruct us as [|u us]; [done|].
  cbn [foldl length fmap list_fmap] in *. rewrite Nat2Z.inj_succ, seqZ_cons in Hseq by lia.
  injection Hseq as Hu Hseq. rewrite Z.pred_succ in Hseq. apply Forall_cons in Hc as [Hc1 Hc].
  destruct (bk_synchronized b Hb Hsy) as (_ & Hbuf & _).
  set (b1 := buffer_update u (open_gap (sequence_ b + 1) b)).
  assert (Ha : (apply u b).2 = b1).
  { unfold apply. rewrite Hc1, Hsy, (u64_small (sequence_ b + 1)) by (unfold in_u64; lia).
    rewrite (proj2 (Z.leb_gt _ _)), (proj2 (Z.ltb_lt _ _)) by lia. done. }
  rewrite Ha. apply (buffering us b1 [u] (Z.succ n)); try done.
  - apply (buffer_last _ []); [exact Hbuf | constructor].
  - cbn. lia.
  - constructor; [lia|done].
Qed.

(** C19: recovery is exact.  Take a synchronized book and a feed [lost ++ us1 ++
    us2] that a book without loss accepts whole, and a reader that misses
    [lost]: it buffers what follows, and when the snapshot of the book as it
    was after [us1] arrives, wherever that is, the reader has the same levels,
    sequence and time as the book that lost nothing, is synchronized and has
    counted one recovery. *)
Theorem recovered_book_is_exact venue symbol b lost us1 us2 bl bm bf :
  venue <> ""%string -> symbol <> ""%string -> book_ok b -> synchronized_ b = true ->
  feeds b lost bl -> feeds bl us1 bm -> feeds bm us2 bf -> lost <> [] -> us1 ++ us2 <> [] ->
  Z.of_nat (length (us1 ++ us2)) <= max_recovery_buffer_ ->
  0 <= sequence_ b -> sequence_ b + Z.of_nat (length (lost ++ us1 ++ us2)) < 2 ^ 64 ->
  let gap := foldl (fun b u => (apply u b).2) b (us1 ++ us2) in
  recovering gap = true /\ buffered_update_count gap = length (us1 ++ us2) /\
  exists d b', apply_snapshot (snapshot_of venue symbol bm) gap = (Ok d, b') /\
    md_accepted d = true /\ md_sequence_gap d = false /\
    sides b' = sides bf /\ sequence_ b' = sequence_ bf /\ timestamp_ns_ b' = timestamp_ns_ bf /\
    synchronized_ b' = true /\ buffered_update_count b' = O /\
    recovery_count_ b' = u64 (recovery_count_ b + 1).
Proof.
  intros Hv Hsym Hb Hsy F1 F2 F3 Hlost Hus Hcap Hs Hl gap. rewrite !length_app in *.
  assert (0 < length lost)%nat by (destruct lost; [done|cbn; lia]).
  assert (0 < length us1 + length us2)%nat
    by (rewrite <- length_app; destruct (us1 ++ us2); [done|cbn; lia]).
  destruct (feeds_numbers _ _ _ F1) as (N1 & S1 & C1); [lia|lia|].
  destruct (feeds_ok _ _ _ F1) as [B1 Y1]; [done|done|lia|lia|].
  destruct (feeds_numbers _ _ _ F2) as (N2 & S2 & C2); [lia|lia|].
  destruct (feeds_ok _ _ _ F2) as [B2 Y2]; [done|done|lia|lia|].
  destruct (feeds_numbers _ _ _ F3) as (N3 & S3 & C3); [lia|lia|].
  destruct (after_gap b (sequence_ bl + 1) (us1 ++ us2)) as (G1 & G2 & G3 & G4);
    [done|done|lia|lia|lia|done| |by apply Forall_app|by rewrite length_app|fold gap in G1, G2, G3, G4].
  { rewrite fmap_app, N2, N3, S2, length_app, Nat2Z.inj_add, seqZ_app by lia. do 2 f_equal; lia. }
  split; [unfold recovering; rewrite G1, G4; cbn; apply negb_true_iff, Z.eqb_neq; lia|].
  split; [unfold buffered_update_count; rewrite G2; unfold by_sequence; by rewrite length_fmap, length_app|].
  unfold apply_snapshot. rewrite snapshot_of_sides by done.
  set (c := from_snapshot _ _ _).
  assert (Hc : core c = core bm) by done.
  destruct (feeds_core _ _ _ c F3 Hc eq_refl) as (bf' & F4 & E1 & E2 & E3 & E4 & E5); [lia|lia|].
  assert (Hr : replay ((recovery_buffer_ gap).*2) c = (Ok tt, bf')).
  { rewrite G2. unfold by_sequence. rewrite <- list_fmap_compose. cbn. rewrite list_fmap_id.
    rewrite replay_skip.
    - apply replay_feeds; [done|cbn; lia|cbn; lia].
    - cbn. apply Forall_forall. intros u Hu. apply (list_elem_of_fmap_2 mu_sequence) in Hu.
      rewrite N2 in Hu. apply elem_of_seqZ in Hu. lia. }
  cbv zeta. rewrite Hr, E2, G2.
  assert (Hne : bool_decide (by_sequence (us1 ++ us2) = []) = false).
  { apply bool_decide_eq_false_2. unfold by_sequence. by intros ?%fmap_nil_inv. }
  rewrite Hne. cbn [negb orb andb]. eexists _, _. split; [reflexivity|].
  unfold core in E1. cbn [count_recovery md_accepted md_sequence_gap decision synchronized_ sides bids_ asks_
    sequence_ timestamp_ns_ recovery_count_ buffered_update_count recovery_buffer_].
  rewrite E2. split_and!; try done; try (unfold sides in *; congruence).
  - transitivity (sides bf'); [done | congruence].
  - transitivity (length (recovery_buffer_ bf')); [done|]. by rewrite E3.
  - transitivity (u64 (recovery_count_ bf' + 1)); [done|]. rewrite E5, <- G3. done.
Qed.

(** ** A concrete feed *)

Definition demo_update (n : Z) (side : MarketDataSide) (price quantity : Z) : MarketDataUpdate := {|
  mu_venue := "V"; mu_symbol := "S"; mu_sequence := n; mu_timestamp_ns := 100 + n; mu_side := side;
  mu_type := Upsert; mu_price := dbl price; mu_quantity := dbl quantity |}.

Definition demo_snapshot : MarketDataSnapshot := {|
  ms_venue := "V"; ms_symbol := "S"; ms_sequence := 10; ms_timestamp_ns := 5;
  ms_bids := [ {| ml_price := dbl 99; ml_quantity := dbl 5 |} ];
  ms_asks := [ {| ml_price := dbl 101; ml_quantity := dbl 7 |} ] |}.

Definition demo_book : Level2Book := foldl md_step Level2Book0 [FeedSnapshot demo_snapshot].

Lemma level2_book_consistent_witness :
  let b := foldl md_step Level2Book0 [FeedSnapshot demo_snapshot; FeedUpdate (demo_update 11 Ask 100 3)] in
  synchronized_ b = true /\ forall bid ask, best_bid b = Some bid -> best_ask b = Some ask ->
    dlt (ml_price bid) (ml_price ask) = true.
Proof.
  intros b. split; [vm_compute; reflexivity|].
  destruct (level2_book_consistent [FeedSnapshot demo_snapshot; FeedUpdate (demo_update 11 Ask 100 3)]
    b eq_refl) as (_ & _ & _ & _ & H & _).
  destruct H as [H _]; [vm_compute; reflexivity | exact H].
Defined.

Definition demo_feed (ns : list Z) : list MarketDataUpdate :=
  (fun n => demo_update n (if Z.even n then Bid else Ask) (if Z.even n then 90 + n - 10 else 100 + n) n) <$> ns.

(** Decides that a feed is accepted whole. *)
Fixpoint accepts_all (us : list MarketDataUpdate) (b : Level2Book) : bool :=
  match us with
  | [] => true
  | u :: us =>
      match apply u b with
      | (Ok d, b) => md_accepted d && accepts_all us b
      | (Throw _, _) => false
      end
  end.

Definition feed (us : list MarketDataUpdate) (b : Level2Book) : Level2Book :=
  foldl (fun b u => (apply u b).2) b us.

Lemma accepts_all_feeds us b : accepts_all us b = true -> feeds b us (feed us b).
Proof.
  revert b. induction us as [|u us IH]; intros b H; [constructor|]. unfold feed. cbn in *.
  destruct (apply u b) as [[d|e] b1] eqn:E; [|done]. apply andb_true_iff in H as [H1 H2].
  eapply feeds_cons; [exact E|exact H1|]. by apply IH.
Qed.

Lemma recovered_book_is_exact_witness :
  let bm := feed (demo_feed [13]) (feed (demo_feed [11; 12]) demo_book) in
  let gap := feed (demo_feed [13] ++ demo_feed [14; 15]) demo_book in
  recovering gap = true /\
  exists d b', apply_snapshot (snapshot_of "V" "S" bm) gap = (Ok d, b') /\
    sides b' = sides (feed (demo_feed [14; 15]) bm).
Proof.
  pose proof (accepts_all_feeds (demo_feed [11; 12]) demo_book ltac:(vm_compute; reflexivity)) as F1.
  pose proof (accepts_all_feeds (demo_feed [13]) (feed (demo_feed [11; 12]) demo_book)
    ltac:(vm_compute; reflexivity)) as F2.
  pose proof (accepts_all_feeds (demo_feed [14; 15])
    (feed (demo_feed [13]) (feed (demo_feed [11; 12]) demo_book)) ltac:(vm_compute; reflexivity)) as F3.
  assert (Hsy : synchronized_ demo_book = true) by (vm_compute; reflexivity).
  assert (Hs : 0 <= sequence_ demo_book) by (apply Z.leb_le; vm_compute; reflexivity).
  assert (Hl : sequence_ demo_book +
    Z.of_nat (length (demo_feed [11; 12] ++ demo_feed [13] ++ demo_feed [14; 15])) < 2 ^ 64)
    by (vm_compute; reflexivity).
  assert (Hc : Z.of_nat (length (demo_feed [13] ++ demo_feed [14; 15])) <= max_recovery_buffer_)
    by (vm_compute; discriminate).
  assert (H1 : demo_feed [11; 12] <> []) by discriminate.
  assert (H2 : demo_feed [13] ++ demo_feed [14; 15] <> []) by discriminate.
  assert (Hv : "V"%string <> ""%string) by discriminate.
  assert (Hy : "S"%string <> ""%string) by discriminate.
  destruct (recovered_book_is_exact _ _ _ _ _ _ _ _ _ Hv Hy (md_run_ok [FeedSnapshot demo_snapshot])
    Hsy F1 F2 F3 H1 H2 Hc Hs Hl) as (R1 & _ & d & b' & R2 & _ & _ & R3 & _).
  split; [exact R1|]. exists d, b'. split; [exact R2 | exact R3].
Defined.
