(* ===== verification/Consolidated.v ===== *)
(** * The consolidated best bid and offer

    The best prices over the venues do not depend on the order in which the
    hash map visits the books. *)

From S2P Require Import Prelude.
From S2P Require Import Float.
From S2P Require Import SortedMap.
From S2P Require Import MarketData.
From S2P Require Import MarketDataProps.

(** ** Events *)

Inductive cmd_event :=
| CmdSnapshot (s : MarketDataSnapshot)
| CmdUpdate (u : MarketDataUpdate)
| CmdBatch (us : list MarketDataUpdate).

Definition cmd_step (books : ConsolidatedMarketData) (ev : cmd_event) : ConsolidatedMarketData :=
  match ev with
  | CmdSnapshot s => (cmd_apply_snapshot s books).2
  | CmdUpdate u => (cmd_apply u books).2
  | CmdBatch us => (cmd_apply_batch us books).2
  end.

(** A venue name is one line. *)
Fixpoint one_line (s : string) : bool :=
  match s with
  | EmptyString => true
  | String c s => negb (bool_decide (c = Ascii.ascii_of_nat 10)) && one_line s
  end.

Definition event_venue_ok (ev : cmd_event) : Prop :=
  match ev with
  | CmdSnapshot s => one_line (ms_venue s) = true
  | CmdUpdate u => one_line (mu_venue u) = true
  | CmdBatch us => Forall (fun u => one_line (mu_venue u) = true) us
  end.

(** ** Keys *)

Lemma split_key_line venue symbol : one_line venue = true ->
  split_key (venue +:+ newline +:+ symbol) = Some (venue, symbol).
Proof.
  induction venue as [|c venue IH]; intros H.
  - done.
  - cbn [one_line] in H. apply andb_true_iff in H as [H1 H2]. breflect.
    change (split_key (String c (venue +:+ newline +:+ symbol)) = Some (String c venue, symbol)).
    cbn [split_key]. rewrite bool_decide_eq_false_2 by done. by rewrite IH.
Qed.

(** What every entry of the map satisfies. *)
Definition entry_ok (k : string) (b : Level2Book) : Prop :=
  book_ok b /\ exists venue symbol, split_key k = Some (venue, symbol) /\
    venue <> ""%string /\ symbol <> ""%string.

Lemma with_level2_book_ok venue symbol f books : one_line venue = true ->
  (forall b, book_ok b -> book_ok (f b).2) -> map_Forall entry_ok books ->
  map_Forall entry_ok (with_level2_book venue symbol f books).2.
Proof.
  intros Hv Hf Hb. unfold with_level2_book, key, validate_identity, guard_or.
  destruct (bool_decide (venue = "")) eqn:E1; [done|].
  destruct (bool_decide (symbol = "")) eqn:E2; [done|]. cbn.
  set (k := String.append venue (newline +:+ symbol)).
  assert (H : book_ok (default Level2Book0 (books !! k))).
  { destruct (books !! k) eqn:E; [apply (Hb k _ E) | apply book_ok_empty]. }
  specialize (Hf _ H). destruct (f _) as [r b]. cbn [snd] in *.
  apply map_Forall_insert_2; [|done]. split; [done|]. exists venue, symbol. breflect.
  by split; [apply split_key_line|].
Qed.

Lemma cmd_step_ok books ev : event_venue_ok ev -> map_Forall entry_ok books ->
  map_Forall entry_ok (cmd_step books ev).
Proof.
  intros Hv Hb. destruct ev as [s|u|[|u us]]; cbn [cmd_step event_venue_ok] in *.
  - apply with_level2_book_ok; try done. intros b H. apply (md_step_ok b (FeedSnapshot s) H).
  - apply with_level2_book_ok; try done. intros b H. by apply apply_ok.
  - done.
  - apply Forall_cons in Hv as [Hv _]. apply with_level2_book_ok; try done.
    intros b H. by apply apply_batch_ok.
Qed.

Lemma cmd_run_ok evs : forall books, Forall event_venue_ok evs -> map_Forall entry_ok books ->
  map_Forall entry_ok (foldl cmd_step books evs).
Proof.
  induction evs as [|ev evs IH]; intros books He Hb; [done|].
  apply Forall_cons in He as [He1 He2]. apply IH; [done|]. by apply cmd_step_ok.
Qed.

(** ** Best prices *)

Definition best (side : MarketDataSide) : Level2Book -> option MarketDataLevel :=
  match side with Bid => best_bid | Ask => best_ask end.

Definition bbo_price (side : MarketDataSide) : BestBidOffer -> double :=
  match side with Bid => bbo_bid_price | Ask => bbo_ask_price end.
Definition bbo_quantity (side : MarketDataSide) : BestBidOffer -> double :=
  match side with Bid => bbo_bid_quantity | Ask => bbo_ask_quantity end.
Definition bbo_venue (side : MarketDataSide) : BestBidOffer -> string :=
  match side with Bid => bbo_bid_venue | Ask => bbo_ask_venue end.

(** A synchronized book of the symbol quotes a level on a side. *)
Definition quotes (symbol : string) (side : MarketDataSide) (e : string * Level2Book)
    (venue : string) (l : MarketDataLevel) : Prop :=
  synchronized_ e.2 = true /\ split_key e.1 = Some (venue, symbol) /\ best side e.2 = Some l.

(** The side of the result after the entries [es]. *)
Definition bbo_ok (symbol : string) (es : list (string * Level2Book)) (side : MarketDataSide)
    (r : BestBidOffer) : Prop :=
  (bbo_venue side r = ""%string -> forall e venue l, e ∈ es -> ~ quotes symbol side e venue l) /\
  (bbo_venue side r <> ""%string ->
     (exists e, e ∈ es /\ quotes symbol side e (bbo_venue side r)
        {| ml_price := bbo_price side r; ml_quantity := bbo_quantity side r |}) /\
     forall e venue l, e ∈ es -> quotes symbol side e venue l ->
       before side (ml_price l) (bbo_price side r) = false).

Lemma best_price_ok side e l : book_ok e -> best side e = Some l -> price_ok (ml_price l).
Proof.
  intros [[[K1 _ _] [K2 _ _]] _ _ _ _] H. unfold sm_keys, sides in *. cbn in *.
  destruct side; cbn in H; unfold best_bid, best_ask in H;
    [destruct (bids_ e) as [|x xs] | destruct (asks_ e) as [|x xs]]; try done; injection H as <-; cbn.
  - by apply Forall_cons in K1 as [K1 _].
  - by apply Forall_cons in K2 as [K2 _].
Qed.

Lemma bbo_ok_skip symbol es side r e :
  (forall venue l, ~ quotes symbol side e venue l) -> bbo_ok symbol es side r ->
  bbo_ok symbol (es ++ [e]) side r.
Proof.
  intros He [H1 H2]. split.
  - intros Hv e' venue l [Hin | ->%list_elem_of_singleton]%elem_of_app; [by apply H1 | apply He].
  - intros Hv. destruct (H2 Hv) as [(e0 & H3 & H4) H5]. split.
    + exists e0. rewrite elem_of_app. auto.
    + intros e' venue l [Hin | ->%list_elem_of_singleton]%elem_of_app Hq; [by eapply H5|].
      by destruct (He venue l).
Qed.

(** The entry improves the side, or does not. *)
Lemma bbo_ok_take symbol es side r r' e venue l :
  Forall (fun e => entry_ok e.1 e.2) (es ++ [e]) ->
  quotes symbol side e venue l -> bbo_ok symbol es side r ->
  bbo_venue side r = ""%string \/ before side (ml_price l) (bbo_price side r) = true ->
  bbo_venue side r' = venue -> bbo_price side r' = ml_price l -> bbo_quantity side r' = ml_quantity l ->
  bbo_ok symbol (es ++ [e]) side r'.
Proof.
  intros Hes Hq [H1 H2] Hb V P Q. pose proof Hq as (Q1 & Q2 & Q3).
  apply Forall_app in Hes as [Hes [[He (v0 & s0 & E0 & Hne & _)] _]%Forall_cons].
  assert (Hv : venue <> ""%string) by congruence.
  split; [by rewrite V|]. intros _. rewrite V, P, Q. split.
  - exists e. split; [rewrite elem_of_app, list_elem_of_singleton; auto|]. by destruct l.
  - intros e' venue' l' [Hin | ->%list_elem_of_singleton]%elem_of_app Hq'.
    + destruct (decide (bbo_venue side r = ""%string)) as [Ev|Ev]; [by destruct (H1 Ev e' venue' l' Hin)|].
      destruct Hb as [Hb|Hb]; [done|]. destruct (H2 Ev) as [(e0 & H3 & H4) H5].
      specialize (H5 e' venue' l' Hin Hq').
      rewrite Forall_forall in Hes.
      assert (P' : price_ok (ml_price l')).
      { destruct Hq' as (_ & _ & Hq'). eapply best_price_ok; [|exact Hq']. by apply Hes. }
      assert (P0 : price_ok (bbo_price side r)).
      { destruct H4 as (_ & _ & H4). apply (best_price_ok _ _ _ (proj1 (Hes _ H3)) H4). }
      assert (P1 : price_ok (ml_price l)) by (eapply best_price_ok; eauto).
      destruct (before side (ml_price l') (ml_price l)) eqn:E; [|done].
      pose proof (so_trans _ _ _ P' P1 P0 E Hb). congruence.
    + destruct Hq' as (_ & _ & Hq'). rewrite Q3 in Hq'. injection Hq' as <-. apply so_irrefl.
      by eapply best_price_ok.
Qed.

Lemma bbo_ok_keep symbol es side r e venue l :
  quotes symbol side e venue l -> bbo_ok symbol es side r ->
  bbo_venue side r <> ""%string -> before side (ml_price l) (bbo_price side r) = false ->
  bbo_ok symbol (es ++ [e]) side r.
Proof.
  intros (_ & _ & Q3) [H1 H2] Hv Hb. split; [done|]. intros _.
  destruct (H2 Hv) as [(e0 & H3 & H4) H5]. split.
  - exists e0. rewrite elem_of_app. auto.
  - intros e' venue' l' [Hin | ->%list_elem_of_singleton]%elem_of_app Hq; [by eapply H5|].
    destruct Hq as (_ & _ & Hq). congruence.
Qed.

(** The fields of one side only. *)
Lemma bbo_ok_same symbol es side r r' :
  bbo_venue side r' = bbo_venue side r -> bbo_price side r' = bbo_price side r ->
  bbo_quantity side r' = bbo_quantity side r -> bbo_ok symbol es side r -> bbo_ok symbol es side r'.
Proof. intros V P Q. unfold bbo_ok. by rewrite V, P, Q. Qed.

Lemma best_none_skip symbol side e : best side e.2 = None ->
  forall venue l, ~ quotes symbol side e venue l.
Proof. intros H venue l (_ & _ & Hq). congruence. Qed.

Lemma bbo_bid_step symbol es r e venue : Forall (fun e => entry_ok e.1 e.2) (es ++ [e]) ->
  synchronized_ e.2 = true -> split_key e.1 = Some (venue, symbol) -> bbo_ok symbol es Bid r ->
  bbo_ok symbol (es ++ [e]) Bid (bbo_bid venue e.2 r).
Proof.
  intros Hes Hs Hk H. unfold bbo_bid. destruct (best_bid e.2) as [l|] eqn:E.
  2: { by apply bbo_ok_skip; [apply best_none_skip|]. }
  assert (Hq : quotes symbol Bid e venue l) by done.
  destruct (_ || _) eqn:Et.
  - eapply bbo_ok_take; try done. apply orb_true_iff in Et as [Et|Et]; breflect; auto.
  - breflect. by eapply bbo_ok_keep.
Qed.

Lemma bbo_ask_step symbol es r e venue : Forall (fun e => entry_ok e.1 e.2) (es ++ [e]) ->
  synchronized_ e.2 = true -> split_key e.1 = Some (venue, symbol) -> bbo_ok symbol es Ask r ->
  bbo_ok symbol (es ++ [e]) Ask (bbo_ask venue e.2 r).
Proof.
  intros Hes Hs Hk H. unfold bbo_ask. destruct (best_ask e.2) as [l|] eqn:E.
  2: { by apply bbo_ok_skip; [apply best_none_skip|]. }
  assert (Hq : quotes symbol Ask e venue l) by done.
  destruct (_ || _) eqn:Et.
  - eapply bbo_ok_take; try done. apply orb_true_iff in Et as [Et|Et]; breflect; auto.
  - breflect. by eapply bbo_ok_keep.
Qed.

Lemma bbo_bid_other venue b r : bbo_ask_venue (bbo_bid venue b r) = bbo_ask_venue r /\
  bbo_ask_price (bbo_bid venue b r) = bbo_ask_price r /\
  bbo_ask_quantity (bbo_bid venue b r) = bbo_ask_quantity r.
Proof. unfold bbo_bid. by repeat case_match. Qed.

Lemma bbo_ask_other venue b r : bbo_bid_venue (bbo_ask venue b r) = bbo_bid_venue r /\
  bbo_bid_price (bbo_ask venue b r) = bbo_bid_price r /\
  bbo_bid_quantity (bbo_ask venue b r) = bbo_bid_quantity r.
Proof. unfold bbo_ask. by repeat case_match. Qed.

(** The loop after the entries [es]. *)
Definition loop_ok (symbol : string) (es : list (string * Level2Book)) (r : BestBidOffer) : Prop :=
  bbo_ok symbol es Bid r /\ bbo_ok symbol es Ask r /\
  bbo_valid r = negb (bool_decide (bbo_bid_venue r = "")) && negb (bool_decide (bbo_ask_venue r = "")).

Lemma bbo_step_ok symbol es r e : Forall (fun e => entry_ok e.1 e.2) (es ++ [e]) ->
  loop_ok symbol es r -> loop_ok symbol (es ++ [e]) (bbo_step symbol e r).
Proof.
  intros Hes (H1 & H2 & H3).
  assert (Hskip : (forall side venue l, ~ quotes symbol side e venue l) -> loop_ok symbol (es ++ [e]) r).
  { intros Hn. split; [|split; [|done]]; apply bbo_ok_skip; auto. }
  unfold bbo_step. destruct (synchronized_ e.2) eqn:Es; cbn [negb].
  2: { apply Hskip. intros side venue l (Hq & _). congruence. }
  destruct (split_key e.1) as [[venue stored]|] eqn:Ek.
  2: { apply Hskip. intros side v l (_ & Hq & _). congruence. }
  destruct (bool_decide (stored = symbol)) eqn:Esym; cbn [negb]; breflect.
  2: { apply Hskip. intros side v l (_ & Hq & _). congruence. }
  subst stored. destruct (bbo_bid_other venue e.2 r) as (A1 & A2 & A3).
  destruct (bbo_ask_other venue e.2 (bbo_bid venue e.2 r)) as (B1 & B2 & B3). split; [|split; [|done]].
  - eapply (bbo_ok_same _ _ Bid (bbo_bid venue e.2 r)); try done. by apply bbo_bid_step.
  - apply (bbo_ok_same _ _ Ask (bbo_ask venue e.2 (bbo_bid venue e.2 r))); try done.
    apply bbo_ask_step; try done. by apply (bbo_ok_same _ _ Ask r).
Qed.

Lemma bbo_loop_ok symbol es : Forall (fun e => entry_ok e.1 e.2) es ->
  loop_ok symbol es (foldl (fun r e => bbo_step symbol e r) BestBidOffer0 es).
Proof.
  induction es as [|e es IH] using rev_ind; intros H.
  - split_and!; try done; (split; [intros _ e venue l []%elem_of_nil | done]).
  - rewrite foldl_app. cbn. apply bbo_step_ok; [done|]. apply IH.
    by apply Forall_app in H as [H _].
Qed.

(** The order of the entries does not matter for venues that quote and prices. *)
Lemma bbo_ok_perm symbol es es' side r : es ≡ₚ es' -> bbo_ok symbol es side r -> bbo_ok symbol es' side r.
Proof. intros Hp. unfold bbo_ok. by setoid_rewrite Hp. Qed.

Lemma bbo_price_unique symbol es side r r' : Forall (fun e => entry_ok e.1 e.2) es ->
  bbo_ok symbol es side r -> bbo_ok symbol es side r' ->
  (bbo_venue side r = ""%string <-> bbo_venue side r' = ""%string) /\
  (bbo_venue side r <> ""%string -> bbo_price side r = bbo_price side r').
Proof.
  intros He [H1 H2] [H3 H4]. rewrite Forall_forall in He.
  assert (Hv : bbo_venue side r = ""%string <-> bbo_venue side r' = ""%string).
  { split; intros E.
    - destruct (decide (bbo_venue side r' = ""%string)) as [|N]; [done|].
      destruct (H4 N) as [(e & Hin & Hq) _]. by destruct (H1 E e _ _ Hin Hq).
    - destruct (decide (bbo_venue side r = ""%string)) as [|N]; [done|].
      destruct (H2 N) as [(e & Hin & Hq) _]. by destruct (H3 E e _ _ Hin Hq). }
  split; [done|]. intros N. destruct (H2 N) as [(e & Hin & Hq) Hmax].
  destruct (H4 ltac:(tauto)) as [(e' & Hin' & Hq') Hmax'].
  pose proof (Hmax _ _ _ Hin' Hq') as L1. pose proof (Hmax' _ _ _ Hin Hq) as L2. cbn in L1, L2.
  eapply (so_total (P := price_ok)); [| |exact L2|exact L1].
  - destruct Hq as (_ & _ & Hq). apply (best_price_ok _ _ _ (proj1 (He _ Hin)) Hq).
  - destruct Hq' as (_ & _ & Hq'). apply (best_price_ok _ _ _ (proj1 (He _ Hin')) Hq').
Qed.

(** after any events over venues with one-line names, in whatever order the
    hash map visits the books: a valid result shows a bid and an ask that
    synchronized books of the symbol quote, no such book quotes a better one,
    the bid is not above the ask and midpoint and spread are theirs; the prices
    and the validity are the same for every order of the visit. *)
Theorem consolidated_bbo_is_best evs books entries symbol :
  Forall event_venue_ok evs -> books = foldl cmd_step ∅ evs -> entries ≡ₚ map_to_list books ->
  let r := consolidated_bbo symbol entries in
  (bbo_valid r = true ->
     (forall side, exists e, e ∈ entries /\ quotes symbol side e (bbo_venue side r)
        {| ml_price := bbo_price side r; ml_quantity := bbo_quantity side r |}) /\
     (forall side e venue l, e ∈ entries -> quotes symbol side e venue l ->
        before side (ml_price l) (bbo_price side r) = false) /\
     bbo_spread r = dsub (bbo_ask_price r) (bbo_bid_price r) /\ dlt (bbo_spread r) dzero = false /\
     bbo_midpoint r = ddiv (dadd (bbo_bid_price r) (bbo_ask_price r)) (dbl 2) /\
     bbo_locked r = deq (bbo_spread r) dzero) /\
  (forall entries', entries' ≡ₚ map_to_list books ->
     let r' := consolidated_bbo symbol entries' in
     bbo_valid r' = bbo_valid r /\
     (bbo_valid r = true -> bbo_bid_price r' = bbo_bid_price r /\ bbo_ask_price r' = bbo_ask_price r)).
Proof.
  intros Hev Hb Hp r.
  assert (Hall : map_Forall entry_ok books).
  { rewrite Hb. apply cmd_run_ok; [done|]. apply map_Forall_empty. }
  assert (He : forall es, es ≡ₚ map_to_list books -> Forall (fun e => entry_ok e.1 e.2) es).
  { intros es ->. apply Forall_forall. intros [k b] Hin%elem_of_map_to_list. by apply (Hall k b). }
  split.
  - subst r. unfold consolidated_bbo. pose proof (bbo_loop_ok symbol entries (He _ Hp)) as (L1 & L2 & L3).
    set (r0 := foldl (fun r e => bbo_step symbol e r) BestBidOffer0 entries) in *. unfold bbo_finish.
    destruct (bbo_valid r0) eqn:Ev; cbn [negb]; [|congruence]. cbn. intros Hc.
    symmetry in L3. breflect. rewrite Hc. split_and!; try done.
    + intros []; [apply L1 | apply L2]; done.
    + intros [] e venue l Hin Hq; [eapply L1 | eapply L2]; done.
  - intros entries' Hp' r'. subst r r'. unfold consolidated_bbo.
    pose proof (bbo_loop_ok symbol entries (He _ Hp)) as (L1 & L2 & L3).
    pose proof (bbo_loop_ok symbol entries' (He _ Hp')) as (M1 & M2 & M3).
    set (r := foldl _ _ entries) in *. set (r' := foldl _ _ entries') in *.
    apply (bbo_ok_perm _ _ entries) in M1, M2; [|by rewrite Hp, Hp'..].
    destruct (bbo_price_unique symbol entries Bid r r' (He _ Hp) L1 M1) as [V1 P1].
    destruct (bbo_price_unique symbol entries Ask r r' (He _ Hp) L2 M2) as [V2 P2].
    cbn [bbo_venue bbo_price] in *.
    assert (Hv : bbo_valid r' = bbo_valid r).
    { rewrite L3, M3. f_equal; f_equal; by apply bool_decide_ext. }
    unfold bbo_finish. rewrite Hv. destruct (bbo_valid r) eqn:E; cbn [negb]; [|by rewrite Hv, E].
    symmetry in L3. breflect. rewrite P1, P2 by done. done.
Qed.

(** ** Two venues *)

Definition demo_venue (venue : string) (bid ask : Z) : MarketDataSnapshot := {|
  ms_venue := venue; ms_symbol := "S"; ms_sequence := 1; ms_timestamp_ns := 1;
  ms_bids := [ {| ml_price := dbl bid; ml_quantity := dbl 1 |} ];
  ms_asks := [ {| ml_price := dbl ask; ml_quantity := dbl 1 |} ] |}.

Definition demo_venues : list cmd_event :=
  [CmdSnapshot (demo_venue "A" 99 103); CmdSnapshot (demo_venue "B" 98 101)].

Lemma consolidated_bbo_is_best_witness :
  let entries := map_to_list (foldl cmd_step ∅ demo_venues) in
  let r := consolidated_bbo "S" entries in
  bbo_valid r = true /\ dlt (bbo_spread r) dzero = false /\
  forall e venue l, e ∈ entries -> quotes "S" Ask e venue l -> dlt (ml_price l) (bbo_ask_price r) = false.
Proof.
  intros entries r.
  destruct (consolidated_bbo_is_best demo_venues (foldl cmd_step ∅ demo_venues) entries "S") as [H _].
  - repeat apply Forall_cons_2; try apply Forall_nil_2; reflexivity.
  - reflexivity.
  - reflexivity.
  - assert (Hv : bbo_valid r = true) by (vm_compute; reflexivity).
    destruct (H Hv) as (_ & H1 & _ & H2 & _). split; [exact Hv|]. split; [exact H2|].
    exact (H1 Ask).
Defined.
