(* ===== verification/ReplayControl.v ===== *)
(** * Replay control ([replay_control.hpp], [replay_control.cpp])

    The controller of a replay: a status, a speed and pending requests under a
    mutex, and a condition variable on which the replay thread sleeps while it
    is paused.  The members that change the state are atomic steps; a call that
    notifies does so after it has released the mutex, in a step of its own. *)

From S2P Require Import Prelude.
From S2P Require Import Float.

Inductive ReplayStatus := Ready | Running | Paused | Complete | Stopped.

#[export] Instance ReplayStatus_eq_dec : EqDecision ReplayStatus.
Proof. solve_decision. Defined.

Inductive ReplayCommandType := Play | Pause | SetSpeed | Restart | SeekRecord | SeekTimestamp | Stop.

Record ReplayCommand := {
  rc_type : ReplayCommandType; rc_speed : double; rc_record_index : Z; rc_timestamp_ns : Z
}.

Record ReplayController := {
  status_ : ReplayStatus;
  speed_ : double;
  current_record_ : Z;
  total_records_ : Z;
  generation_ : Z;
  restart_requested_ : bool;
  seek_record_ : option Z;
  seek_timestamp_ns_ : option Z
}.

Definition status_to_string (s : ReplayStatus) : string :=
  match s with
  | Ready => "ready" | Running => "running" | Paused => "paused" | Complete => "complete"
  | Stopped => "stopped"
  end.

Definition validate_speed (speed : double) : result unit :=
  if negb (isfinite speed) || dlt speed dzero
  then Throw (invalid_argument "replay speed must be non-negative") else Ok tt.

Definition new_controller (speed : double) : result ReplayController :=
  _ ← validate_speed speed;
  Ok {| status_ := Ready; speed_ := speed; current_record_ := 0; total_records_ := 0;
        generation_ := 0; restart_requested_ := false; seek_record_ := None;
        seek_timestamp_ns_ := None |}.

(** [status_ = status; ++generation_] *)
Definition enter (status : ReplayStatus) (c : ReplayController) : ReplayController := {|
  status_ := status; speed_ := speed_ c; current_record_ := current_record_ c;
  total_records_ := total_records_ c; generation_ := u64 (generation_ c + 1);
  restart_requested_ := restart_requested_ c; seek_record_ := seek_record_ c;
  seek_timestamp_ns_ := seek_timestamp_ns_ c |}.

(** A call: the new state and whether [notify_all] follows. *)
Definition call : Type := ReplayController -> ReplayController * bool.

Definition play : call := fun c =>
  if bool_decide (status_ c = Stopped) then (c, false) else (enter Running c, true).

Definition pause : call := fun c =>
  if bool_decide (status_ c = Stopped) || bool_decide (status_ c = Complete) then (c, false)
  else (enter Paused c, false).

Definition set_speed (speed : double) : ST (ReplayController * bool) unit := fun p =>
  match validate_speed speed with
  | Throw e => (Throw e, p)
  | Ok _ =>
      let c := p.1 in
      (Ok tt, ({| status_ := status_ c; speed_ := speed; current_record_ := current_record_ c;
                  total_records_ := total_records_ c; generation_ := u64 (generation_ c + 1);
                  restart_requested_ := restart_requested_ c; seek_record_ := seek_record_ c;
                  seek_timestamp_ns_ := seek_timestamp_ns_ c |}, true))
  end.

Definition request_restart : call := fun c =>
  if bool_decide (status_ c = Stopped) then (c, false)
  else ({| status_ := Running; speed_ := speed_ c; current_record_ := 0;
           total_records_ := total_records_ c; generation_ := u64 (generation_ c + 1);
           restart_requested_ := true; seek_record_ := None;
           seek_timestamp_ns_ := seek_timestamp_ns_ c |}, true).

Definition seek_record (index : Z) : call := fun c =>
  if bool_decide (status_ c = Stopped) then (c, false)
  else ({| status_ := status_ c; speed_ := speed_ c; current_record_ := index;
           total_records_ := total_records_ c; generation_ := u64 (generation_ c + 1);
           restart_requested_ := false; seek_record_ := Some index;
           seek_timestamp_ns_ := None |}, true).

Definition seek_timestamp (timestamp : Z) : call := fun c =>
  if bool_decide (status_ c = Stopped) then (c, false)
  else ({| status_ := status_ c; speed_ := speed_ c; current_record_ := current_record_ c;
           total_records_ := total_records_ c; generation_ := u64 (generation_ c + 1);
           restart_requested_ := false; seek_record_ := None;
           seek_timestamp_ns_ := Some timestamp |}, true).

Definition stop : call := fun c => (enter Stopped c, true).

Definition mark_running : call := fun c =>
  (if bool_decide (status_ c = Stopped) then c else enter Running c, true).

Definition mark_complete : call := fun c =>
  (if bool_decide (status_ c = Stopped) then c else enter Complete c, true).

Definition update_progress (current total : Z) : call := fun c =>
  ({| status_ := status_ c; speed_ := speed_ c; current_record_ := current; total_records_ := total;
      generation_ := generation_ c; restart_requested_ := restart_requested_ c;
      seek_record_ := seek_record_ c; seek_timestamp_ns_ := seek_timestamp_ns_ c |}, false).

(** [apply]: the result, the state and whether it notifies. *)
Definition apply (command : ReplayCommand) (c : ReplayController)
    : result unit * (ReplayController * bool) :=
  match rc_type command with
  | Play => (Ok tt, play c)
  | Pause => (Ok tt, pause c)
  | SetSpeed => set_speed (rc_speed command) (c, false)
  | Restart => (Ok tt, request_restart c)
  | SeekRecord => (Ok tt, seek_record (rc_record_index command) c)
  | SeekTimestamp => (Ok tt, seek_timestamp (rc_timestamp_ns command) c)
  | Stop => (Ok tt, stop c)
  end.

Definition consume_restart_request (c : ReplayController) : bool * ReplayController :=
  (restart_requested_ c,
   {| status_ := status_ c; speed_ := speed_ c; current_record_ := current_record_ c;
      total_records_ := total_records_ c; generation_ := generation_ c; restart_requested_ := false;
      seek_record_ := seek_record_ c; seek_timestamp_ns_ := seek_timestamp_ns_ c |}).

Definition consume_seek_request (c : ReplayController) : option Z * ReplayController :=
  (seek_record_ c,
   {| status_ := status_ c; speed_ := speed_ c; current_record_ := current_record_ c;
      total_records_ := total_records_ c; generation_ := generation_ c;
      restart_requested_ := restart_requested_ c; seek_record_ := None;
      seek_timestamp_ns_ := seek_timestamp_ns_ c |}).

Definition consume_timestamp_seek_request (c : ReplayController) : option Z * ReplayController :=
  (seek_timestamp_ns_ c,
   {| status_ := status_ c; speed_ := speed_ c; current_record_ := current_record_ c;
      total_records_ := total_records_ c; generation_ := generation_ c;
      restart_requested_ := restart_requested_ c; seek_record_ := seek_record_ c;
      seek_timestamp_ns_ := None |}).

Definition stopped (c : ReplayController) : bool := bool_decide (status_ c = Stopped).

(** The predicate of [wait_until_runnable]. *)
Definition runnable (c : ReplayController) : bool := negb (bool_decide (status_ c = Paused)).

(** ** The threads *)

(** Where the replay thread is: outside [wait_until_runnable], asleep on the
    condition variable, or woken and about to take the mutex again. *)
Inductive Waiter := Outside | Asleep | Woken.

#[export] Instance Waiter_eq_dec : EqDecision Waiter.
Proof. solve_decision. Defined.

Record ReplaySystem := {
  controller : ReplayController;
  waiter : Waiter;
  (** calls of other threads that have released the mutex and will notify *)
  pending_notifies : nat;
  (** how often [wait_until_runnable] has returned *)
  returns : nat
}.

(** Steps of the condition variable and of the replay thread: a notification is
    delivered, the thread wakes without one, or it takes the mutex in [wait]
    and reads the predicate, on entry and after every wake-up. *)
Inductive wake_step : ReplaySystem -> ReplaySystem -> Prop :=
| step_notify n s : pending_notifies s = S n ->
    wake_step s {| controller := controller s;
      waiter := match waiter s with Asleep => Woken | w => w end; pending_notifies := n;
      returns := returns s |}
| step_spurious s : waiter s = Asleep ->
    wake_step s {| controller := controller s; waiter := Woken;
      pending_notifies := pending_notifies s; returns := returns s |}
| step_wait s : waiter s = Outside \/ waiter s = Woken ->
    wake_step s {| controller := controller s;
      waiter := if runnable (controller s) then Outside else Asleep;
      pending_notifies := pending_notifies s;
      returns := returns s + (if runnable (controller s) then 1 else 0) |}.

(** Calls of the other threads and of the replay thread outside [wait]. *)
Inductive call_step : ReplaySystem -> ReplaySystem -> Prop :=
| step_command command s :
    let p := (apply command (controller s)).2 in
    call_step s {| controller := p.1; waiter := waiter s;
      pending_notifies := pending_notifies s + (if p.2 : bool then 1 else 0); returns := returns s |}
| step_mark f s : f = mark_running \/ f = mark_complete \/ (exists i n, f = update_progress i n) ->
    let p := f (controller s) in
    call_step s {| controller := p.1; waiter := waiter s;
      pending_notifies := pending_notifies s + (if p.2 : bool then 1 else 0); returns := returns s |}
| step_consume c s :
    c = (consume_restart_request (controller s)).2 \/ c = (consume_seek_request (controller s)).2 \/
    c = (consume_timestamp_seek_request (controller s)).2 ->
    call_step s {| controller := c; waiter := waiter s; pending_notifies := pending_notifies s;
      returns := returns s |}.

Definition replay_step (s s' : ReplaySystem) : Prop := call_step s s' \/ wake_step s s'.

Definition started (c : ReplayController) : ReplaySystem := {|
  controller := c; waiter := Outside; pending_notifies := 0; returns := 0 |}.

(** ** Properties *)

(** What every call keeps. *)
Record controller_ok (c : ReplayController) : Prop := {
  ct_speed : isfinite (speed_ c) = true /\ dlt (speed_ c) dzero = false;
  ct_one_seek : seek_record_ c = None \/ seek_timestamp_ns_ c = None;
  ct_restart : restart_requested_ c = true -> seek_record_ c = None
}.

(** A call that makes a paused controller runnable notifies; a stopped one
    stays stopped. *)
Definition call_ok (c : ReplayController) (p : ReplayController * bool) : Prop :=
  (controller_ok c -> controller_ok p.1) /\
  (runnable p.1 = true -> runnable c = true \/ p.2 = true) /\
  (status_ c = Stopped -> status_ p.1 = Stopped).

Lemma enter_ok status c : status_ c <> Stopped \/ status = Stopped -> call_ok c (enter status c, true).
Proof.
  intros H. split; [|split; [auto|]].
  - intros [H1 H2 H3]. by split.
  - intros E. by destruct H as [H|H].
Qed.

Lemma same_ok c b : call_ok c (c, b).
Proof. by split; [|split; [left|]]. Qed.

Lemma mark_ok f c : f = mark_running \/ f = mark_complete \/ (exists i n, f = update_progress i n) ->
  call_ok c (f c).
Proof.
  intros [-> | [-> | (i & n & ->)]].
  - unfold mark_running. case_bool_decide; [apply same_ok | by apply enter_ok; left].
  - unfold mark_complete. case_bool_decide; [apply same_ok | by apply enter_ok; left].
  - split; [by intros []|split; [by left|done]].
Qed.

Lemma apply_call_ok command c : call_ok c (apply command c).2.
Proof.
  unfold apply. destruct (rc_type command); cbn [snd].
  - unfold play. case_bool_decide; [apply same_ok | by apply enter_ok; left].
  - unfold pause. destruct (_ || _) eqn:E; [apply same_ok|]. breflect.
    split; [by intros []|split; [done|done]].
  - unfold set_speed, validate_speed. destruct (negb _ || _) eqn:E; [apply same_ok|]. breflect.
    split; [by intros []|split; [by left|done]].
  - unfold request_restart. case_bool_decide; [apply same_ok|].
    split; [|split; [by right|done]]. intros [H1 H2 H3]. by split; [|left|].
  - unfold seek_record. case_bool_decide; [apply same_ok|].
    split; [|split; [by right|done]]. intros [H1 H2 H3]. by split; [|right|].
  - unfold seek_timestamp. case_bool_decide; [apply same_ok|].
    split; [|split; [by right|done]]. intros [H1 H2 H3]. by split; [|left|].
  - unfold stop. by apply enter_ok; right.
Qed.

(** No wake-up is lost: when the replay thread sleeps although the controller
    is runnable, a notification is on its way. *)
Record system_ok (s : ReplaySystem) : Prop := {
  sy_controller : controller_ok (controller s);
  sy_wakeup : waiter s = Asleep -> runnable (controller s) = true -> (0 < pending_notifies s)%nat
}.

Lemma wake_step_ok s s' : system_ok s -> wake_step s s' -> system_ok s' /\ controller s' = controller s.
Proof.
  intros [H1 H2] H. destruct H as [n s Hn|s Hs|s Hs]; (split; [|done]); split; cbn; try done.
  - by destruct (waiter s).
  - by destruct (runnable (controller s)).
Qed.

Lemma replay_step_ok s s' : system_ok s -> replay_step s s' ->
  system_ok s' /\ (status_ (controller s) = Stopped -> status_ (controller s') = Stopped).
Proof.
  intros Hs [H|H].
  - destruct Hs as [H1 H2].
    assert (Hc : forall c p, controller_ok c -> call_ok c p -> forall k, c = controller k ->
      system_ok k -> system_ok {| controller := p.1; waiter := waiter k;
        pending_notifies := pending_notifies k + (if p.2 : bool then 1 else 0); returns := returns k |}).
    { intros c p _ (C1 & C2 & C3) k -> [K1 K2]. split; cbn; [by apply C1|]. intros Hw Hr.
      destruct (C2 Hr) as [Hr'|Hp]; [specialize (K2 Hw Hr'); lia | rewrite Hp; lia]. }
    destruct H as [command s|f s Hf|c s Hf]; cbn.
    + pose proof (apply_call_ok command (controller s)) as Ho. split; [|apply Ho].
      by apply (Hc (controller s) _ H1 Ho s).
    + pose proof (mark_ok f (controller s) Hf) as Ho. split; [|apply Ho].
      by apply (Hc (controller s) _ H1 Ho s).
    + split; [|by destruct Hf as [-> | [-> | ->]]]. destruct H1 as [S1 S2 S3].
      destruct Hf as [-> | [-> | ->]]; (split; cbn; [split; cbn; naive_solver|exact H2]).
  - destruct (wake_step_ok s s' Hs H) as [H1 H2]. by rewrite H2.
Qed.

(** Wake-up steps in which the replay thread does not return yet. *)
Definition still_waiting (s s' : ReplaySystem) : Prop :=
  wake_step s s' /\ returns s' = returns s.

Definition wait_measure (s : ReplaySystem) : nat :=
  (pending_notifies s + match waiter s with Asleep => 1 | _ => 0 end)%nat.

Lemma still_waiting_decreases s s' : waiter s <> Outside -> runnable (controller s) = true ->
  still_waiting s s' ->
  (wait_measure s' < wait_measure s)%nat /\ waiter s' <> Outside /\ controller s' = controller s.
Proof.
  intros Hw Hr [H Hret]. unfold wait_measure.
  destruct H as [n s Hn|s Hs|s Hs]; cbn in *.
  - rewrite Hn. split; [destruct (waiter s); cbn; lia|]. by destruct (waiter s).
  - rewrite Hs. split; [lia|done].
  - rewrite Hr in Hret. lia.
Qed.

Lemma waiting_bounded n s s' : waiter s <> Outside -> runnable (controller s) = true ->
  nsteps still_waiting n s s' ->
  (n + wait_measure s' <= wait_measure s)%nat /\ waiter s' <> Outside /\ controller s' = controller s.
Proof.
  intros Hw Hr H. induction H as [s|n s s1 s2 H1 _ IH]; [done|].
  destruct (still_waiting_decreases _ _ Hw Hr H1) as (D & Hw' & Hc). rewrite <- Hc in Hr.
  destruct (IH Hw' Hr) as (D' & Hw'' & Hc'). split; [lia|]. split; [done | congruence].
Qed.

(** C20: the replay thread is never left asleep.  In every reachable state, when
    it sleeps and the status is not paused a notification is on its way; once
    the other threads are quiet, it returns from [wait_until_runnable] after at
    most as many steps as there are notifications, plus two, whatever their
    order, and until then a step is always possible.  The controller keeps a
    finite non-negative speed, at most one pending seek and no record seek
    beside a restart; a stopped controller stays stopped. *)
Theorem replay_thread_wakes speed c s : new_controller speed = Ok c -> rtc replay_step (started c) s ->
  (waiter s = Asleep -> runnable (controller s) = true -> (0 < pending_notifies s)%nat) /\
  (waiter s <> Outside -> runnable (controller s) = true ->
     forall n s', nsteps still_waiting n s s' ->
       (n <= pending_notifies s + 1)%nat /\
       exists s'', wake_step s' s'' /\ (returns s'' = S (returns s) \/ still_waiting s' s'')) /\
  isfinite (speed_ (controller s)) = true /\ dlt (speed_ (controller s)) dzero = false /\
  (seek_record_ (controller s) = None \/ seek_timestamp_ns_ (controller s) = None) /\
  (restart_requested_ (controller s) = true -> seek_record_ (controller s) = None) /\
  (forall s', rtc replay_step s s' -> status_ (controller s) = Stopped ->
     status_ (controller s') = Stopped).
Proof.
  intros Hc Hs.
  assert (H0 : system_ok (started c)).
  { unfold new_controller in Hc. destruct (validate_speed speed) as [[]|] eqn:E; [|done].
    injection Hc as <-. unfold validate_speed in E. destruct (negb _ || _) eqn:E'; [done|]. breflect.
    split; [split; [done|by left|done]|done]. }
  assert (Hok : system_ok s).
  { clear Hc. induction Hs as [|x y z H _ IH]; [done|]. apply IH. by eapply replay_step_ok. }
  pose proof Hok as [[C1 C2 C3] Hw]. split_and!; try done; try apply C1.
  - intros Hwt Hr n s' Hn. destruct (waiting_bounded n s s' Hwt Hr Hn) as (D & W & E).
    assert (Hok' : system_ok s' /\ returns s' = returns s).
    { clear -Hn Hok. induction Hn as [|n x y z [H1 H2] _ IH]; [done|].
      destruct (wake_step_ok _ _ Hok H1) as [Hy _]. destruct (IH Hy). split; [done | congruence]. }
    destruct Hok' as [[_ Hw'] Hret]. split.
    { unfold wait_measure in D. destruct (waiter s); [done| |]; lia. }
    rewrite <- E in Hr. destruct (waiter s') eqn:Ew; [done| |].
    + specialize (Hw' eq_refl Hr). destruct (pending_notifies s') as [|k] eqn:Ek; [lia|].
      eexists. split; [by apply (step_notify k)|]. right. split; [by apply (step_notify k)|done].
    + eexists. split; [apply step_wait; by right|]. left. cbn. rewrite Hr. lia.
  - intros s' Hs' Hst. clear -Hok Hs' Hst. induction Hs' as [|x y z H _ IH]; [done|].
    destruct (replay_step_ok _ _ Hok H) as [Hy Hy']. apply IH; auto.
Qed.

(** Pause, sleep, play, notification, return. *)
Lemma replay_thread_wakes_witness :
  exists c s, new_controller (dbl 1) = Ok c /\ rtc replay_step (started c) s /\
    waiter s = Asleep /\ runnable (controller s) = true /\ (0 < pending_notifies s)%nat.
Proof.
  eexists. eexists {| controller := _; waiter := Asleep; pending_notifies := 1; returns := 0 |}.
  assert (Hr : rtc replay_step (started {| status_ := Ready; speed_ := dbl 1; current_record_ := 0;
      total_records_ := 0; generation_ := 0; restart_requested_ := false; seek_record_ := None;
      seek_timestamp_ns_ := None |})
    {| controller := {| status_ := Running; speed_ := dbl 1; current_record_ := 0;
      total_records_ := 0; generation_ := 2; restart_requested_ := false; seek_record_ := None;
      seek_timestamp_ns_ := None |}; waiter := Asleep; pending_notifies := 1; returns := 0 |}).
  { eapply rtc_l; [left; apply (step_command {| rc_type := Pause; rc_speed := dzero;
      rc_record_index := 0; rc_timestamp_ns := 0 |})|].
    eapply rtc_l; [right; apply step_wait; left; reflexivity|].
    eapply rtc_l; [left; apply (step_command {| rc_type := Play; rc_speed := dzero;
      rc_record_index := 0; rc_timestamp_ns := 0 |})|].
    apply rtc_refl. }
  destruct (replay_thread_wakes (dbl 1) _ _ eq_refl Hr) as [H _].
  split; [reflexivity|]. split; [exact Hr|]. split; [reflexivity|]. split; [reflexivity|].
  exact (H eq_refl eq_refl).
Defined.

(** A restart leaves a pending seek by time in place; the replay loop then
    restarts and jumps to that time at once. *)
Example restart_keeps_timestamp_seek c : status_ c <> Stopped ->
  let c' := (request_restart (seek_timestamp 5 c).1).1 in
  restart_requested_ c' = true /\ seek_timestamp_ns_ c' = Some 5.
Proof.
  intros H. unfold seek_timestamp. rewrite bool_decide_eq_false_2 by done. unfold request_restart. cbn.
  by rewrite bool_decide_eq_false_2.
Qed.
