(* ===== verification/RouteFeed.v ===== *)
(** * Routing over live books ([router_market_data.hpp], [router_market_data.cpp])

    The books of the market data become the quotes of the router, and the plan
    of the router is drawn from them. *)

From S2P Require Import Prelude.
From S2P Require Import Float.
From S2P Require Import SortedMap.
From S2P Require Import Oms.
From S2P Require Import Router.
From S2P Require Import MarketData.
From S2P Require Import MarketDataProps.
From S2P Require Import Consolidated.

(** The levels of a book that a quote shows. *)
Definition quote_depth : nat := 50.

Definition venue_level (l : MarketDataLevel) : VenueLevel := {|
  vl_price := ml_price l; vl_quantity := ml_quantity l |}.

Definition book_quote (venue : string) (b : Level2Book) (fee latency latency_cost : double)
    : VenueQuote := {|
  vq_venue := venue; vq_bids := venue_level <$> bids quote_depth b;
  vq_asks := venue_level <$> asks quote_depth b; vq_taker_fee_bps := fee; vq_latency_ms := latency;
  vq_latency_cost_bps_per_ms := latency_cost; vq_healthy := true |}.

(** The loop over the venues. *)
Fixpoint quotes_loop (books : ConsolidatedMarketData) (symbol : string)
    (fee latency latency_cost : double) (venues : list string) (quotes : list VenueQuote)
    : result (list VenueQuote) :=
  match venues with
  | [] => Ok quotes
  | venue :: venues =>
      book ← find_book venue symbol books;
      quotes_loop books symbol fee latency latency_cost venues
        match book with
        | Some b => if synchronized_ b then quotes ++ [book_quote venue b fee latency latency_cost]
                    else quotes
        | None => quotes
        end
  end.

(** [entries] are the books in the order in which the hash map visits them. *)
Definition market_data_to_quotes (books : ConsolidatedMarketData)
    (entries : list (string * Level2Book)) (symbol : string) (fee latency latency_cost : double)
    : result (list VenueQuote) :=
  quotes_loop books symbol fee latency latency_cost (venues_for_symbol symbol entries) [].

Definition build_market_route_plan (r : RouteRequest) (books : ConsolidatedMarketData)
    (entries : list (string * Level2Book)) (symbol : string) (fee latency latency_cost : double)
    : result RoutePlan :=
  quotes ← market_data_to_quotes books entries symbol fee latency latency_cost;
  build_route_plan r quotes.

(** ** The venues of a symbol *)

#[export] Instance string_before_trans : Transitive string_before.
Proof.
  intros x y z Hx Hy. unfold string_before in *. apply Is_true_true. apply Is_true_true in Hx, Hy.
  exact (transitivity (R := String.le) Hx Hy).
Qed.

#[export] Instance string_before_antisym : AntiSymm (=) string_before.
Proof. intros x y Hx Hy. by apply String.leb_antisym. Qed.

#[export] Instance string_before_total : Total string_before.
Proof. intros x y. apply String.leb_total. Qed.

Lemma split_key_inv k venue symbol : split_key k = Some (venue, symbol) ->
  k = venue +:+ newline +:+ symbol.
Proof.
  revert venue. induction k as [|c k IH]; intros venue; cbn [split_key]; [done|].
  case_bool_decide as Hc.
  - intros [= <- <-]. by subst.
  - destruct (split_key k) as [[v s]|]; [|done]. cbn. intros [= <- <-].
    change (String c k = String c (v +:+ newline +:+ s)). f_equal. by apply IH.
Qed.

Definition entry_venue (symbol : string) (e : string * Level2Book) : option string :=
  match split_key e.1 with
  | Some (venue, stored) => if bool_decide (stored = symbol) then Some venue else None
  | None => None
  end.

Lemma entry_venue_key symbol e venue : entry_venue symbol e = Some venue ->
  split_key e.1 = Some (venue, symbol) /\ e.1 = venue +:+ newline +:+ symbol.
Proof.
  unfold entry_venue. destruct (split_key e.1) as [[v s]|] eqn:E; [|done].
  case_bool_decide; [|done]. intros [= <-]. subst. split; [done|]. by apply split_key_inv.
Qed.

Lemma venues_perm symbol es es' : es ≡ₚ es' -> venues_for_symbol symbol es = venues_for_symbol symbol es'.
Proof.
  intros H. eapply (Sorted_unique string_before); [apply Sorted_merge_sort; apply _..|].
  unfold venues_for_symbol. rewrite !merge_sort_Permutation. by rewrite H.
Qed.

Lemma venues_elem symbol es venue : venue ∈ venues_for_symbol symbol es <->
  exists e, e ∈ es /\ entry_venue symbol e = Some venue.
Proof. unfold venues_for_symbol. rewrite merge_sort_Permutation. apply list_elem_of_omap. Qed.

Lemma venues_nodup symbol es : NoDup es.*1 -> NoDup (venues_for_symbol symbol es).
Proof.
  intros H. unfold venues_for_symbol. rewrite merge_sort_Permutation.
  induction es as [|e es IH]; [constructor|]. apply NoDup_cons in H as [He H]. specialize (IH H).
  cbn [omap list_omap]. fold (entry_venue symbol e).
  destruct (entry_venue symbol e) as [v|] eqn:E; [|done]. constructor; [|done].
  intros (e' & Hin & E')%list_elem_of_omap. apply He. apply entry_venue_key in E as [_ E].
  apply (entry_venue_key symbol e') in E' as [_ E']. rewrite E, <- E'. by apply list_elem_of_fmap_2.
Qed.

(** ** The quotes *)

(** A book that the quotes are drawn from. *)
Definition live_book (books : ConsolidatedMarketData) (venue symbol : string) (b : Level2Book) : Prop :=
  find_book venue symbol books = Ok (Some b) /\ synchronized_ b = true.

(** The loop, on venues whose books exist. *)
Lemma quotes_loop_ok books symbol fee latency latency_cost venues : forall quotes,
  (forall venue, venue ∈ venues -> exists b, find_book venue symbol books = Ok (Some b)) ->
  exists added,
    quotes_loop books symbol fee latency latency_cost venues quotes = Ok (quotes ++ added) /\
    (vq_venue <$> added) `sublist_of` venues /\
    forall q, q ∈ added <-> exists venue b, venue ∈ venues /\ live_book books venue symbol b /\
      q = book_quote venue b fee latency latency_cost.
Proof.
  induction venues as [|venue venues IH]; intros quotes Hv; cbn [quotes_loop].
  { exists []. rewrite app_nil_r. split_and!; [done|done|]. intros q.
    split; [by intros ?%elem_of_nil | by intros (v & b & ?%elem_of_nil & _)]. }
  destruct (Hv venue ltac:(left)) as [b Hb]. rewrite Hb. cbn [mbind result_bind].
  assert (Hv' : forall v, v ∈ venues -> exists b, find_book v symbol books = Ok (Some b)).
  { intros v ?. apply Hv. by right. }
  assert (Hlive : forall b', live_book books venue symbol b' -> b' = b /\ synchronized_ b = true).
  { intros b' [E S]. rewrite Hb in E. injection E as <-. done. }
  destruct (synchronized_ b) eqn:Es.
  - destruct (IH (quotes ++ [book_quote venue b fee latency latency_cost]) Hv') as (added & E & HS & HQ).
    exists (book_quote venue b fee latency latency_cost :: added). rewrite E, <- app_assoc. split_and!.
    + done.
    + cbn. by constructor.
    + intros q. rewrite elem_of_cons, HQ. setoid_rewrite elem_of_cons. split.
      * intros [-> | (v & b' & ? & ? & ->)]; eauto 10. exists venue, b. split; [by left|]. by split.
      * intros (v & b' & [-> | Hin] & HL & ->); [|right; eauto]. left. by destruct (Hlive b' HL) as [-> _].
  - destruct (IH quotes Hv') as (added & E & HS & HQ). exists added. split_and!; [done|by constructor|].
    intros q. rewrite HQ. setoid_rewrite elem_of_cons. split.
    + intros (v & b' & ? & ? & ->); eauto 10.
    + intros (v & b' & [-> | Hin] & HL & ->); [|eauto]. by destruct (Hlive b' HL).
Qed.

(** A market that events over venues with one-line names built. *)
Record market_of (evs : list cmd_event) (books : ConsolidatedMarketData)
    (entries : list (string * Level2Book)) : Prop := {
  mo_lines : Forall event_venue_ok evs;
  mo_books : books = foldl cmd_step ∅ evs;
  mo_entries : entries ≡ₚ map_to_list books
}.

Section market.
Context (evs : list cmd_event) (books : ConsolidatedMarketData) (entries : list (string * Level2Book)).
Context (Hmarket : market_of evs books entries).

Lemma market_entry k b : books !! k = Some b -> entry_ok k b.
Proof using Hmarket.
  destruct Hmarket as [Hev Hb _]. intros H. subst books.
  apply (cmd_run_ok evs ∅ Hev (map_Forall_empty _) k b H).
Qed.

(** An entry of the map can be found under its venue. *)
Lemma market_venue_found symbol venue : venue ∈ venues_for_symbol symbol entries ->
  exists b, find_book venue symbol books = Ok (Some b).
Proof using Hmarket.
  intros ([k b] & Hin & Hv)%venues_elem. pose proof Hmarket as [_ _ Hp]. rewrite Hp in Hin.
  apply elem_of_map_to_list in Hin. apply entry_venue_key in Hv as [Hk E]. cbn [fst] in Hk, E.
  destruct (market_entry _ _ Hin) as [_ (v & s & Hk' & Hv & Hs)]. rewrite Hk in Hk'.
  injection Hk' as -> ->. exists b. unfold find_book, key, validate_identity.
  rewrite !bool_decide_eq_false_2 by done.
  change (Ok (books !! (v +:+ newline +:+ s)) = Ok (Some b)). rewrite <- E. f_equal. exact Hin.
Qed.

Lemma market_keys_nodup : NoDup entries.*1.
Proof using Hmarket. pose proof Hmarket as [_ _ Hp]. rewrite Hp. apply NoDup_fst_map_to_list. Qed.

Lemma market_quotes_ok symbol fee latency latency_cost :
  exists quotes, market_data_to_quotes books entries symbol fee latency latency_cost = Ok quotes /\
    NoDup (vq_venue <$> quotes) /\
    forall q, q ∈ quotes <-> exists venue b, live_book books venue symbol b /\
      venue ∈ venues_for_symbol symbol entries /\ q = book_quote venue b fee latency latency_cost.
Proof using Hmarket.
  destruct (quotes_loop_ok books symbol fee latency latency_cost (venues_for_symbol symbol entries) [])
    as (quotes & E & HS & HQ); [intros venue; apply market_venue_found|].
  exists quotes. split_and!; [done| |].
  - eapply sublist_NoDup; [|exact HS]. apply venues_nodup, market_keys_nodup.
  - intros q. rewrite HQ. naive_solver.
Qed.

End market.

(** ** Plans *)

(** The side of the books that a request trades with. *)
Definition book_side (side : RouteSide) (b : Level2Book) : list MarketDataLevel :=
  match side with RouteBuy => asks quote_depth b | RouteSell => bids quote_depth b end.

(** A leg takes at most the quantity of a level that the synchronized book of
    its venue shows, at the price of that level. *)
Definition leg_in_book (r : RouteRequest) (books : ConsolidatedMarketData) (symbol : string)
    (leg : RouteLeg) : Prop :=
  exists b l, live_book books (leg_venue leg) symbol b /\
    book_side (rr_side r) b !! leg_level_index leg = Some l /\
    leg_price leg = ml_price l /\ dle (leg_quantity leg) (ml_quantity l) = true.

Lemma quote_side side venue b fee latency latency_cost :
  quote_levels side (book_quote venue b fee latency latency_cost) = venue_level <$> book_side side b.
Proof. by destruct side. Qed.

Lemma market_quotes_perm books es es' symbol fee latency latency_cost : es ≡ₚ es' ->
  market_data_to_quotes books es symbol fee latency latency_cost =
  market_data_to_quotes books es' symbol fee latency latency_cost.
Proof. intros H. unfold market_data_to_quotes. by rewrite (venues_perm symbol es es' H). Qed.

(** a plan over live books.  After any events over venues with one-line
    names the call throws exactly when it would refuse the request over no
    quotes at all, and it does not depend on the order in which the hash map
    visits the books.  Every leg of a plan takes a level among the first fifty
    on the other side of a synchronized book of its venue and the symbol, at the
    price of the level and within its quantity, and within the limit; no level
    is taken twice. *)
Theorem plan_takes_live_levels evs books entries r symbol fee latency latency_cost :
  market_of evs books entries -> 0 <= rr_max_venue_count r ->
  (forall e, build_market_route_plan r books entries symbol fee latency latency_cost = Throw e <->
     build_route_plan r [] = Throw e) /\
  (forall entries', entries' ≡ₚ entries ->
     build_market_route_plan r books entries' symbol fee latency latency_cost =
     build_market_route_plan r books entries symbol fee latency latency_cost) /\
  (forall p, build_market_route_plan r books entries symbol fee latency latency_cost = Ok p ->
     NoDup (leg_key <$> pl_legs p) /\
     forall leg, leg ∈ pl_legs p -> leg_in_book r books symbol leg /\
       (dgt (rr_limit_price r) dzero = true ->
          match rr_side r with
          | RouteBuy => dgt (leg_price leg) (rr_limit_price r)
          | RouteSell => dlt (leg_price leg) (rr_limit_price r)
          end = false)).
Proof.
  intros Hm Hc.
  destruct (market_quotes_ok evs books entries Hm symbol fee latency latency_cost) as (quotes & E & HN & HQ).
  unfold build_market_route_plan. rewrite E. cbn [mbind result_bind]. split_and!.
  - intros e. unfold build_route_plan. destruct (check_request r); [|done]. cbn [mbind result_bind].
    by destruct (sorted_candidates r quotes), (sorted_candidates r []).
  - intros entries' Hp. rewrite (market_quotes_perm books entries' entries) by done. by rewrite E.
  - intros p Hp. destruct (build_route_plan_ok r quotes p Hc Hp) as ([(cs & HS & HF)] & _).
    apply legs_candidates in HF as [HK HL]. split.
    + rewrite HK. eapply sublist_NoDup; [|by apply fmap_sublist]. unfold sorted_candidates.
      rewrite merge_sort_Permutation. by apply candidates_keys.
    + intros leg (c & Hin & HO)%HL. pose proof (sublist_subseteq _ _ HS c Hin) as Hin'.
      apply sorted_from_quote in Hin' as (q & level & Hq & _ & Hlev & _ & Ec).
      apply HQ in Hq as (venue & b & Hb & _ & ->). rewrite quote_side in Hlev.
      apply list_lookup_fmap_Some in Hlev as (l & -> & Hl). rewrite (lo_leg _ _ _ _ HO). split.
      * exists b, l. pose proof (lo_quantity _ _ _ _ HO) as Hle. set (i := cl_level_index c) in *.
        assert (cl_venue c = venue /\ cl_price c = ml_price l /\ cl_quantity c = ml_quantity l)
          as (E1 & E2 & E3) by (by rewrite Ec).
        split_and!; cbn; [by rewrite E1|done|done|by rewrite <- E3].
      * intros Hlim. pose proof (lo_limit _ _ _ _ HO) as Hv. unfold violates_limit in Hv.
        by rewrite Hlim in Hv.
Qed.

Definition demo_buy : RouteRequest := {|
  rr_side := RouteBuy; rr_quantity := dbl 2; rr_limit_price := dbl 110;
  rr_max_slippage_bps := dbl 1000; rr_max_venue_count := 2; rr_all_or_none := false |}.

Lemma plan_takes_live_levels_witness :
  let books := foldl cmd_step ∅ demo_venues in
  let entries := map_to_list books in
  exists p, build_market_route_plan demo_buy books entries "S" dzero dzero dzero = Ok p /\
    length (pl_legs p) = 2%nat /\ NoDup (leg_key <$> pl_legs p) /\
    forall leg, leg ∈ pl_legs p -> leg_in_book demo_buy books "S" leg.
Proof.
  intros books entries.
  assert (Hm : market_of demo_venues books entries).
  { split; [|reflexivity..]. repeat apply Forall_cons_2; try apply Forall_nil_2; reflexivity. }
  destruct (build_market_route_plan demo_buy books entries "S" dzero dzero dzero) as [p|e] eqn:Hp.
  2: { exfalso. revert Hp. vm_compute. discriminate. }
  exists p. split; [reflexivity|].
  destruct (plan_takes_live_levels demo_venues books entries demo_buy "S" dzero dzero dzero Hm ltac:(done))
    as (_ & _ & H).
  destruct (H p Hp) as [H1 H2]. split_and!; [|exact H1|intros leg Hl; by apply H2].
  assert (E : Ok (length (pl_legs p)) = Ok 2%nat).
  { transitivity (p' ← build_market_route_plan demo_buy books entries "S" dzero dzero dzero;
      Ok (length (pl_legs p'))); [by rewrite Hp|vm_compute; reflexivity]. }
  by injection E.
Defined.
