(* ===== verification/Schedule.v ===== *)
(** * Execution schedules ([execution_algo.hpp], [execution_algo.cpp],
    [execution.hpp], [execution.cpp])

    An order is cut into slices by one of five algorithms.  The definitions are
    over an arithmetic, with doubles for the program and rationals for the
    sums.  The simulators cut whole numbers of units with schedules of their own. *)

From S2P Require Import Prelude.
From S2P Require Import Float.
From S2P Require Import Arithmetic.
From S2P Require Import Oms.
From S2P Require Import Types.

Section schedule.
Context {N : Type} `{Arithmetic N}.

Record Slice := { sl_quantity : N; sl_delay_seconds : N }.

Record ExecutionScheduleRequest := {
  sr_algorithm : ExecutionAlgorithm; sr_quantity : N; sr_slices : Z; sr_duration_seconds : N;
  sr_volume_profile : list N; sr_participation_rate : N; sr_displayed_quantity : N
}.

(** [!std::isfinite(x) || x <= 0.0] and [!std::isfinite(x) || x < 0.0] *)
Definition not_positive (x : N) : bool := negb (nfinite x) || nle x nzero.
Definition negative (x : N) : bool := negb (nfinite x) || nlt x nzero.

Definition validate_common (r : ExecutionScheduleRequest) : result unit :=
  _ ← guard_or (negb (not_positive (sr_quantity r)))
        (invalid_argument "execution quantity must be positive");
  _ ← guard_or (negb (sr_slices r <=? 0)) (invalid_argument "slice count must be positive");
  guard_or (negb (negative (sr_duration_seconds r)))
    (invalid_argument "duration must be non-negative").

Definition interval_seconds (duration : N) (count : nat) : N :=
  if (count <=? 1)%nat then nzero else ndiv duration (nof (Z.of_nat count)).

Definition slice (quantity interval : N) (index : nat) : Slice := {|
  sl_quantity := quantity; sl_delay_seconds := nmul (nof (Z.of_nat index)) interval |}.

Definition build_market_schedule (r : ExecutionScheduleRequest) : list Slice :=
  [ {| sl_quantity := sr_quantity r; sl_delay_seconds := nzero |} ].

(** The loop of TWAP and VWAP: from [index] on, [todo] slices are still to come,
    the last takes what is not scheduled yet. *)
Fixpoint share_loop (total interval : N) (share : nat -> N) (count index : nat) (todo : nat)
    (scheduled : N) : list Slice :=
  match todo with
  | O => []
  | S todo =>
      let quantity := if (S index =? count)%nat then nsub total scheduled else share index in
      slice quantity interval index ::
      share_loop total interval share count (S index) todo (nadd scheduled quantity)
  end.

Definition build_twap_schedule (r : ExecutionScheduleRequest) : list Slice :=
  let count := Z.to_nat (sr_slices r) in
  let base_quantity := ndiv (sr_quantity r) (nof (Z.of_nat count)) in
  share_loop (sr_quantity r) (interval_seconds (sr_duration_seconds r) count)
    (fun _ => base_quantity) count 0 count nzero.

(** [std::accumulate] from zero. *)
Definition accumulate (l : list N) : N := foldl nadd nzero l.

Definition build_vwap_schedule (r : ExecutionScheduleRequest) : result (list Slice) :=
  let count := Z.to_nat (sr_slices r) in
  _ ← guard_or (length (sr_volume_profile r) =? count)%nat
        (invalid_argument "VWAP volume profile must match slice count");
  _ ← guard_or (forallb (fun w => negb (negative w)) (sr_volume_profile r))
        (invalid_argument "VWAP volume weights must be non-negative");
  let total_weight := accumulate (sr_volume_profile r) in
  _ ← guard_or (negb (nle total_weight ntiny))
        (invalid_argument "VWAP volume profile must have positive weight");
  Ok (share_loop (sr_quantity r) (interval_seconds (sr_duration_seconds r) count)
        (fun index => ndiv (nmul (sr_quantity r) (nth index (sr_volume_profile r) nzero)) total_weight)
        count 0 count nzero).

(** The loop of POV over the volumes from [index] on. *)
Fixpoint pov_loop (rate interval : N) (volumes : list N) (index : nat) (remaining : N) : list Slice :=
  match volumes with
  | [] => []
  | volume :: volumes =>
      if nle remaining ntiny then []
      else
        let quantity := nmin remaining (nmul volume rate) in
        if nle quantity ntiny then pov_loop rate interval volumes (S index) remaining
        else slice quantity interval index ::
             pov_loop rate interval volumes (S index) (nsub remaining quantity)
  end.

Definition build_pov_schedule (r : ExecutionScheduleRequest) : result (list Slice) :=
  let rate := sr_participation_rate r in
  _ ← guard_or (negb (not_positive rate || nlt (nof 1) rate))
        (invalid_argument "POV participation rate must be in (0, 1]");
  _ ← guard_or (negb (length (sr_volume_profile r) =? 0)%nat)
        (invalid_argument "POV requires an expected volume profile");
  _ ← guard_or (forallb (fun v => negb (negative v)) (sr_volume_profile r))
        (invalid_argument "POV market volume must be non-negative");
  Ok (pov_loop rate (interval_seconds (sr_duration_seconds r) (length (sr_volume_profile r)))
        (sr_volume_profile r) 0 (sr_quantity r)).

(** The loop of the iceberg, with [todo] slices to come. *)
Fixpoint iceberg_loop (displayed interval : N) (index todo : nat) (remaining : N) : list Slice :=
  match todo with
  | O => []
  | S todo =>
      let quantity := nmin remaining displayed in
      slice quantity interval index ::
      iceberg_loop displayed interval (S index) todo (nsub remaining quantity)
  end.

(** [static_cast<std::size_t>(std::ceil(x))] has no meaning outside the range of
    the type. *)
Definition ceil_to_size (x : N) : result nat :=
  let z := nceil x in
  if nfinite x && (0 <=? z) && (z <? 2 ^ 64) then Ok (Z.to_nat z)
  else Throw (undefined "conversion to std::size_t").

Definition build_iceberg_schedule (r : ExecutionScheduleRequest) : result (list Slice) :=
  let displayed := sr_displayed_quantity r in
  _ ← guard_or (negb (not_positive displayed))
        (invalid_argument "iceberg displayed quantity must be positive");
  count ← ceil_to_size (ndiv (sr_quantity r) displayed);
  Ok (iceberg_loop displayed (interval_seconds (sr_duration_seconds r) count) 0 count (sr_quantity r)).

Definition build_execution_schedule (r : ExecutionScheduleRequest) : result (list Slice) :=
  _ ← validate_common r;
  match sr_algorithm r with
  | AlgoMarket => Ok (build_market_schedule r)
  | TWAP => Ok (build_twap_schedule r)
  | VWAP => build_vwap_schedule r
  | POV => build_pov_schedule r
  | Iceberg => build_iceberg_schedule r
  end.

(** The overload with positional arguments; the participation rate is [0.1]. *)
Definition build_simple_schedule (algorithm : ExecutionAlgorithm) (quantity : N) (slices : Z)
    (duration : N) : result (list Slice) :=
  build_execution_schedule {|
    sr_algorithm := algorithm; sr_quantity := quantity; sr_slices := slices;
    sr_duration_seconds := duration; sr_volume_profile := [];
    sr_participation_rate := ndiv (nof 1) (nof 10);
    sr_displayed_quantity := nzero |}.

End schedule.
Arguments Slice N : clear implicits.
Arguments ExecutionScheduleRequest N : clear implicits.

(** ** The schedules of the simulators ([execution.cpp]) *)

Record ExecutionSlice := { es_interval : Z; es_quantity : Z; es_participation_rate : double }.

Definition twap_slice (base remainder : Z) (intervals i : Z) : ExecutionSlice := {|
  es_interval := i; es_quantity := u32 (base + (if i <? remainder then 1 else 0));
  es_participation_rate := ddiv (dbl 1) (dbl intervals) |}.

(** The divisor is the number of intervals as a [Quantity]. *)
Definition twap_schedule (total intervals : Z) : result (list ExecutionSlice) :=
  if (total =? 0) || (intervals =? 0) then Throw (invalid_argument "invalid TWAP inputs")
  else if u32 intervals =? 0 then Throw (undefined "division by zero")
  else Ok (twap_slice (total / u32 intervals) (total mod u32 intervals) intervals <$> seqZ 0 intervals).

(** [std::llround], half away from zero; outside the type the result is unspecified. *)
Definition llround (unspecified : double -> Z) (x : double) : Z :=
  let n := match x with
           | S754_finite s m e => cond_Zopp s ((2 * Z.pos m * 2 ^ Z.max e 0 + 2 ^ Z.max (- e) 0) / (2 * 2 ^ Z.max (- e) 0))
           | _ => 0
           end in
  if isfinite x && (- 2 ^ 63 <=? n) && (n <? 2 ^ 63) then n else unspecified x.

(** The loop from interval [i] on, and what it has allocated at the end. *)
Fixpoint vwap_loop (unspecified : double -> Z) (total : Z) (total_weight : double) (curve : list double) (i allocated : Z)
    : list ExecutionSlice * Z :=
  match curve with
  | [] => ([], allocated)
  | volume :: curve =>
      let weight := ddiv (dmax volume dzero) total_weight in
      let q := if bool_decide (curve = []) then u32 (total - allocated)
               else u32 (llround unspecified (dmul weight (dbl total))) in
      let q := Z.min q (u32 (total - allocated)) in
      let (out, allocated) := vwap_loop unspecified total total_weight curve (i + 1) (u32 (allocated + q)) in
      ({| es_interval := i; es_quantity := q; es_participation_rate := weight |} :: out, allocated)
  end.

(** [out.back().quantity += n] *)
Fixpoint add_to_last (n : Z) (out : list ExecutionSlice) : list ExecutionSlice :=
  match out with
  | [] => []
  | [x] => [{| es_interval := es_interval x; es_quantity := u32 (es_quantity x + n);
               es_participation_rate := es_participation_rate x |}]
  | x :: out => x :: add_to_last n out
  end.

Definition vwap_schedule (unspecified : double -> Z) (total : Z) (volume_curve : list double) : result (list ExecutionSlice) :=
  if (total =? 0) || bool_decide (volume_curve = []) then Throw (invalid_argument "invalid VWAP inputs")
  else
    let total_weight := foldl dadd dzero volume_curve in
    if dle total_weight dzero then Throw (invalid_argument "volume weights must be positive")
    else
      let (out, allocated) := vwap_loop unspecified total total_weight volume_curve 0 0 in
      Ok (if allocated <? total then add_to_last (u32 (total - allocated)) out else out).

Record ExecutionCost := {
  ec_arrival_price : double; ec_average_fill_price : double; ec_implementation_shortfall : double;
  ec_temporary_impact : double; ec_permanent_impact : double
}.

(** The sums of the loop. *)
Record CostSums := { cs_quantity : double; cs_weighted : double; cs_permanent : double; cs_temporary : double }.

Definition add_slice_cost (sign arrival daily_volume volatility temporary permanent : double) (c : CostSums) (x : ExecutionSlice)
    : CostSums :=
  let q := dbl (es_quantity x) in
  let participation := ddiv q daily_volume in
  let temp := dmul (dmul temporary volatility) (SFsqrt 53 1024 participation) in
  let perm := dadd (cs_permanent c) (dmul (dmul permanent volatility) participation) in
  let px := dmul arrival (dadd (dbl 1) (dmul sign (dadd temp perm))) in {|
  cs_quantity := dadd (cs_quantity c) q; cs_weighted := dadd (cs_weighted c) (dmul px q); cs_permanent := perm;
  cs_temporary := dadd (cs_temporary c) (dmul temp q) |}.

Definition simulate_execution_cost (side : Side) (arrival_price : Z) (schedule : list ExecutionSlice)
    (daily_volume volatility temporary permanent : double) : result ExecutionCost :=
  if bool_decide (schedule = []) || dle daily_volume dzero || dlt volatility dzero
  then Throw (invalid_argument "invalid execution cost inputs")
  else
    let sign := if decide (side = Buy) then dbl 1 else dbl (-1) in
    let arrival := dbl arrival_price in
    let c := foldl (add_slice_cost sign arrival daily_volume volatility temporary permanent)
               {| cs_quantity := dzero; cs_weighted := dzero; cs_permanent := dzero; cs_temporary := dzero |} schedule in
    let average := ddiv (cs_weighted c) (cs_quantity c) in
    Ok {| ec_arrival_price := arrival; ec_average_fill_price := average;
          ec_implementation_shortfall := dmul (dmul sign (dsub average arrival)) (cs_quantity c);
          ec_temporary_impact := ddiv (cs_temporary c) (cs_quantity c); ec_permanent_impact := cs_permanent c |}.

(** ** Schedules in exact arithmetic *)

#[local] Open Scope Q_scope.

Definition count_Q (n : nat) : Q := inject_Z (Z.of_nat n).

(** The slices of the periods of [n]: each at the start of its period, with
    a quantity as described. *)
Definition spread (n : nat) (duration : Q) (amount : nat -> Q -> Prop) : list nat -> list (Slice Q) -> Prop :=
  Forall2 (fun i x => (i < n)%nat /\ sl_delay_seconds x == count_Q i * duration / count_Q n /\
    amount i (sl_quantity x)).

Definition scheduled (s : list (Slice Q)) : Q := sumQ (sl_quantity <$> s).

(** What a request must satisfy, and what its schedule is. *)
Definition request_ok (r : ExecutionScheduleRequest Q) : Prop :=
  0 < sr_quantity r /\ (0 < sr_slices r)%Z /\ 0 <= sr_duration_seconds r /\
  match sr_algorithm r with
  | AlgoMarket | TWAP => True
  | VWAP => length (sr_volume_profile r) = Z.to_nat (sr_slices r) /\
      Forall (Qle 0) (sr_volume_profile r) /\ ntiny < sumQ (sr_volume_profile r)
  | POV => (0 < sr_participation_rate r /\ sr_participation_rate r <= 1) /\
      sr_volume_profile r <> [] /\ Forall (Qle 0) (sr_volume_profile r)
  | Iceberg => 0 < sr_displayed_quantity r /\
      (Qceiling (sr_quantity r / sr_displayed_quantity r) < 2 ^ 64)%Z
  end.

Definition schedule_ok (r : ExecutionScheduleRequest Q) (s : list (Slice Q)) : Prop :=
  let total := sr_quantity r in
  let spread n := spread n (sr_duration_seconds r) in
  match sr_algorithm r with
  | AlgoMarket => scheduled s == total /\ spread 1%nat (fun _ q => q == total) [0%nat] s
  | TWAP => let n := Z.to_nat (sr_slices r) in
      scheduled s == total /\ spread n (fun _ q => q == total / count_Q n) (seq 0 n) s
  | VWAP => let n := Z.to_nat (sr_slices r) in
      scheduled s == total /\
      spread n (fun i q => exists w, sr_volume_profile r !! i = Some w /\
        q == total * w / sumQ (sr_volume_profile r)) (seq 0 n) s
  | POV => let volumes := sr_volume_profile r in
      scheduled s <= total /\
      (total - scheduled s <= ntiny \/
       sr_participation_rate r * sumQ volumes <= scheduled s + ntiny * count_Q (length volumes)) /\
      exists periods, StronglySorted lt periods /\
        spread (length volumes) (fun i q => exists v, volumes !! i = Some v /\
          ntiny < q /\ q <= v * sr_participation_rate r) periods s
  | Iceberg =>
      let displayed := sr_displayed_quantity r in
      let n := Z.to_nat (Qceiling (total / displayed)) in
      scheduled s == total /\
      spread n (fun i q => 0 < q /\ q <= displayed /\ ((S i < n)%nat -> q == displayed)) (seq 0 n) s
  end.

Lemma not_positive_Q x : not_positive x = false <-> 0 < x.
Proof.
  unfold not_positive. cbn. split.
  - intros H. apply Qnot_le_lt. intros HL. apply Qle_bool_iff in HL. congruence.
  - intros H. destruct (Qle_bool x 0) eqn:E; [|done]. apply Qle_bool_iff in E. lra.
Qed.

Lemma negative_Q x : negative x = false <-> 0 <= x.
Proof. unfold negative. cbn. apply Q_lt_false. Qed.

Lemma count_Q_S n : count_Q (S n) == count_Q n + 1.
Proof. unfold count_Q. rewrite Nat2Z.inj_succ, <- Z.add_1_r, inject_Z_plus. reflexivity. Qed.

Lemma count_Q_nonneg n : 0 <= count_Q n.
Proof. unfold count_Q, Qle. cbn. lia. Qed.

Lemma count_Q_pos n : (0 < n)%nat -> 0 < count_Q n.
Proof. intros H. unfold count_Q, Qlt. cbn. lia. Qed.

Lemma interval_delay duration n i : (i < n)%nat ->
  nmul (nof (Z.of_nat i)) (interval_seconds duration n) == count_Q i * duration / count_Q n.
Proof.
  intros H. unfold interval_seconds. cbn [nmul nof ndiv nzero Q_arithmetic].
  change (inject_Z (Z.of_nat i)) with (count_Q i). change (inject_Z (Z.of_nat n)) with (count_Q n).
  pose proof (count_Q_pos n ltac:(lia)) as Hn. destruct (Nat.leb_spec n 1) as [Hle|Hlt].
  - replace i with 0%nat by lia. change (count_Q 0) with 0. field. lra.
  - field. lra.
Qed.

Lemma sumQ_Forall2 (periods : list nat) (s : list (Slice Q)) (f : nat -> Q) :
  Forall2 (fun i x => sl_quantity x == f i) periods s -> scheduled s == sumQ (f <$> periods).
Proof.
  unfold scheduled. induction 1 as [|i x periods s H _ IH]; [reflexivity|]. cbn. by rewrite H, IH.
Qed.

(** ** TWAP and VWAP *)

Lemma share_loop_ok total duration share n todo : forall index done_,
  (index + todo = n)%nat -> done_ + sumQ (share <$> seq index todo) == total ->
  spread n duration (fun i q => q == share i) (seq index todo)
    (share_loop total (interval_seconds duration n) share n index todo done_).
Proof.
  induction todo as [|todo IH]; intros index done_ Hn Hsum; [constructor|].
  change (seq index (S todo)) with (index :: seq (S index) todo) in *.
  rewrite fmap_cons, sumQ_cons in Hsum. cbn [share_loop]. set (q := if (S index =? n)%nat then _ else _).
  assert (Hq : q == share index).
  { unfold q. destruct (Nat.eqb_spec (S index) n) as [E|E]; [|reflexivity].
    replace todo with 0%nat in Hsum by lia. cbn in Hsum |- *. lra. }
  constructor; [|apply IH; [lia|]].
  - split; [lia|]. split; [by apply interval_delay; lia|done].
  - cbn [nadd Q_arithmetic]. lra.
Qed.

Lemma sumQ_const (q : Q) (l : list nat) : sumQ ((fun _ => q) <$> l) == count_Q (length l) * q.
Proof.
  induction l as [|i l IH]; [change (0 == 0 * q); ring|]. rewrite fmap_cons, sumQ_cons, IH. cbn [length].
  rewrite count_Q_S. ring.
Qed.

Lemma spread_mono n duration (P P' : nat -> Q -> Prop) periods s :
  (forall i q, (i < n)%nat -> P i q -> P' i q) -> spread n duration P periods s -> spread n duration P' periods s.
Proof. intros H Hs. eapply Forall2_impl; [exact Hs|]. intros i x (? & ? & ?). auto. Qed.

(** The schedule that spreads [total] by shares that add up to it. *)
Lemma shares_ok total duration share n :
  sumQ (share <$> seq 0 n) == total ->
  let s := share_loop total (interval_seconds duration n) share n 0 n nzero in
  scheduled s == total /\ spread n duration (fun i q => q == share i) (seq 0 n) s.
Proof.
  intros H s. assert (Hs : spread n duration (fun i q => q == share i) (seq 0 n) s).
  { apply share_loop_ok; [lia|]. cbn [nzero Q_arithmetic]. rewrite H. ring. }
  split; [|done]. rewrite <- H. apply sumQ_Forall2. eapply Forall2_impl; [exact Hs|]. by intros i x (_ & _ & ?).
Qed.

Lemma twap_ok r : sr_algorithm r = TWAP -> (0 < sr_slices r)%Z -> schedule_ok r (build_twap_schedule r).
Proof.
  intros HA Hn. unfold schedule_ok. rewrite HA. apply (shares_ok (sr_quantity r)).
  rewrite sumQ_const, length_seq. cbn [ndiv nof Q_arithmetic].
  change (inject_Z (Z.of_nat (Z.to_nat (sr_slices r)))) with (count_Q (Z.to_nat (sr_slices r))).
  pose proof (count_Q_pos (Z.to_nat (sr_slices r)) ltac:(lia)). field. lra.
Qed.

Lemma accumulate_Q l : accumulate l == sumQ l.
Proof.
  unfold accumulate. cbn [nzero nadd Q_arithmetic].
  assert (forall l a, foldl Qplus a l == a + sumQ l) as ->; [|ring].
  clear. induction l as [|x l IH]; intros a; cbn; [ring|]. rewrite IH. unfold sumQ. ring.
Qed.

(** The shares of the weights. *)
Lemma sumQ_weights total W (ws : list Q) : forall k (all : list Q), drop k all = ws ->
  sumQ ((fun i => total * nth i all 0 / W) <$> seq k (length ws)) == total * sumQ ws / W.
Proof.
  induction ws as [|w ws IH]; intros k all Hd.
  - cbn. unfold Qdiv. ring.
  - cbn [length seq]. rewrite fmap_cons, !sumQ_cons.
    assert (Hk : nth k all 0 = w).
    { rewrite nth_lookup. pose proof (lookup_drop all k 0) as HL. rewrite Hd, Nat.add_0_r in HL.
      by rewrite <- HL. }
    assert (Hd' : drop (S k) all = ws).
    { replace (S k) with (k + 1)%nat by lia. rewrite <- drop_drop, Hd. done. }
    rewrite (IH (S k) all Hd'), Hk. unfold Qdiv. ring.
Qed.

Lemma forallb_negative l : forallb (fun w => negb (negative w)) l = true <-> Forall (Qle 0) l.
Proof.
  rewrite List.forallb_forall, Forall_forall.
  setoid_rewrite negb_true_iff. setoid_rewrite negative_Q. setoid_rewrite list_elem_of_In. done.
Qed.

Lemma nle_tiny x : negb (nle x ntiny) = true <-> ntiny < x.
Proof. cbn. apply Q_lt_true. Qed.

Lemma vwap_ok r : sr_algorithm r = VWAP -> length (sr_volume_profile r) = Z.to_nat (sr_slices r) ->
  ntiny < sumQ (sr_volume_profile r) -> forall s, build_vwap_schedule r = Ok s -> schedule_ok r s.
Proof.
  intros HA HL HW s. unfold build_vwap_schedule, guard_or, schedule_ok. rewrite HA.
  set (n := Z.to_nat (sr_slices r)) in *. set (ws := sr_volume_profile r) in *.
  destruct (length ws =? n)%nat; [|done]. destruct (forallb _ _); [|done].
  destruct (negb _); [|done]. cbn [mbind result_bind]. intros [= <-].
  assert (HW' : 0 < sumQ ws) by (cbn in HW; lra).
  destruct (shares_ok (sr_quantity r) (sr_duration_seconds r)
    (fun i => ndiv (nmul (sr_quantity r) (nth i ws nzero)) (accumulate ws)) n) as [H1 H2].
  - cbn [ndiv nmul nzero Q_arithmetic]. rewrite <- HL.
    transitivity (sumQ ((fun i => sr_quantity r * nth i ws 0 / accumulate ws) <$> seq 0 (length ws)));
      [reflexivity|].
    rewrite (sumQ_weights (sr_quantity r) (accumulate ws) ws 0 ws) by done. rewrite accumulate_Q. field. lra.
  - split; [done|]. eapply spread_mono; [|exact H2]. cbn. intros i q Hi Hq.
    destruct (lookup_lt_is_Some_2 ws i ltac:(lia)) as [w Hw]. exists w. split; [done|].
    rewrite Hq, (nth_lookup_Some _ _ _ _ Hw), accumulate_Q. reflexivity.
Qed.

(** ** POV *)

Lemma nmin_Q a b : (nmin a b == a /\ a <= b) \/ (nmin a b == b /\ b < a).
Proof.
  unfold nmin. cbn [nlt Q_arithmetic]. qcase; [right|left]; (split; [reflexivity|done]).
Qed.

Lemma nle_Q x y : if nle x y then x <= y else y < x.
Proof.
  cbn. destruct (Qle_bool x y) eqn:E; [by apply Qle_bool_iff in E|]. apply Q_lt_true. unfold Q_lt.
  by rewrite E.
Qed.

Lemma pov_loop_ok rate duration all : 0 <= rate -> forall volumes index remaining,
  drop index all = volumes -> (index <= length all)%nat -> 0 <= remaining -> Forall (Qle 0) volumes ->
  let s := pov_loop rate (interval_seconds duration (length all)) volumes index remaining in
  0 <= scheduled s /\ scheduled s <= remaining /\
  (remaining - scheduled s <= ntiny \/
   rate * sumQ volumes <= scheduled s + ntiny * count_Q (length volumes)) /\
  exists periods, StronglySorted lt periods /\ Forall (fun i => index <= i)%nat periods /\
    spread (length all) duration (fun i q => exists v, all !! i = Some v /\ ntiny < q /\ q <= v * rate)
      periods s.
Proof.
  intros Hrate. induction volumes as [|v volumes IH]; intros index remaining Hd Hi Hr Hv; cbn [pov_loop].
  { split_and!; [apply Qle_refl|done| |].
    - right. change (rate * 0 <= 0 + (1 # 1000000000000) * 0). lra.
    - exists []. by repeat constructor. }
  pose proof (nle_Q remaining ntiny) as Hrem. destruct (nle remaining ntiny).
  { split_and!; [apply Qle_refl|done| |].
    - left. cbn [ntiny Q_arithmetic] in *. change (remaining - 0 <= 1 # 1000000000000). lra.
    - exists []. by repeat constructor. }
  apply Forall_cons in Hv as [Hv0 Hv]. pose proof (Qmult_le_0_compat v rate Hv0 Hrate) as Hvr.
  assert (Hlook : all !! index = Some v).
  { pose proof (lookup_drop all index 0) as HL. rewrite Hd, Nat.add_0_r in HL. by rewrite <- HL. }
  pose proof (lookup_lt_Some _ _ _ Hlook) as Hlt.
  assert (Hd' : drop (S index) all = volumes).
  { replace (S index) with (index + 1)%nat by lia. by rewrite <- drop_drop, Hd. }
  cbn [nmul Q_arithmetic]. set (q := nmin remaining (v * rate)).
  assert (Hq : q <= remaining /\ q <= v * rate /\ (q == remaining \/ q == v * rate) /\ 0 <= q).
  { unfold q. destruct (nmin_Q remaining (v * rate)) as [[-> ?]|[-> ?]]; split_and!; auto; lra. }
  destruct Hq as (Q1 & Q2 & Q3 & Q4). pose proof (nle_Q q ntiny) as Ht.
  rewrite sumQ_cons. cbn [length]. rewrite count_Q_S. destruct (nle q ntiny).
  - destruct (IH (S index) remaining Hd' ltac:(lia) Hr Hv) as (H1 & H2 & H3 & periods & P1 & P2 & P3).
    split_and!; [done|done| |].
    + destruct H3 as [H3|H3]; [by left|]. cbn [ntiny Q_arithmetic] in *.
      destruct Q3 as [Q3|Q3]; [left|right]; lra.
    + exists periods. split_and!; [done| |done]. eapply Forall_mono, P2. cbn. lia.
  - destruct (IH (S index) (nsub remaining q) Hd' ltac:(lia)) as (H1 & H2 & H3 & periods & P1 & P2 & P3);
      [cbn; lra|done|].
    cbn [nsub Q_arithmetic] in *. set (s := pov_loop _ _ _ _ _) in *.
    assert (E : scheduled (slice q (interval_seconds duration (length all)) index :: s) == q + scheduled s)
      by reflexivity.
    split_and!; [rewrite E; lra|rewrite E; lra| |].
    + rewrite E. destruct H3 as [H3|H3]; [left; lra|]. destruct Q3 as [Q3|Q3].
      * left. cbn [ntiny Q_arithmetic]. lra.
      * right. cbn [ntiny Q_arithmetic] in *. lra.
    + exists (index :: periods). split_and!.
      * constructor; [done|]. eapply Forall_mono, P2. cbn. lia.
      * constructor; [lia|]. eapply Forall_mono, P2. cbn. lia.
      * constructor; [|done]. split; [done|]. split; [by apply interval_delay|]. exists v. by split_and!.
Qed.

(** ** Iceberg *)

Lemma iceberg_loop_ok displayed duration n : 0 < displayed -> forall todo index remaining,
  (index + todo = n)%nat -> (0 < todo)%nat ->
  (count_Q todo - 1) * displayed < remaining -> remaining <= count_Q todo * displayed ->
  let s := iceberg_loop displayed (interval_seconds duration n) index todo remaining in
  scheduled s == remaining /\
  spread n duration (fun i q => 0 < q /\ q <= displayed /\ ((S i < n)%nat -> q == displayed))
    (seq index todo) s.
Proof.
  intros Hd. induction todo as [|todo IH]; intros index remaining Hn Ht H1 H2; [lia|].
  rewrite count_Q_S in H1, H2. pose proof (count_Q_nonneg todo) as Hc.
  cbn [iceberg_loop seq]. set (q := nmin remaining displayed).
  assert (Hr : 0 < remaining) by nra.
  assert (Hq : 0 < q /\ q <= displayed /\ q <= remaining /\ (q == displayed \/ q == remaining)).
  { unfold q. destruct (nmin_Q remaining displayed) as [[-> ?]|[-> ?]]; split_and!; auto; lra. }
  destruct Hq as (Q1 & Q2 & Q3 & Q4). cbn [nsub Q_arithmetic].
  assert (E : forall s, scheduled (slice q (interval_seconds duration n) index :: s) == q + scheduled s)
    by reflexivity.
  destruct todo as [|todo].
  - cbn [iceberg_loop seq]. assert (Hall : q == remaining).
    { destruct Q4 as [Q4|Q4]; [|done]. change (count_Q 0) with 0 in *. lra. }
    split; [rewrite E, Hall; change (scheduled []) with 0; ring|].
    constructor; [|constructor]. split; [lia|]. split; [by apply interval_delay; lia|].
    split_and!; [done|done|]. intros ?. lia.
  - rewrite count_Q_S in H1, H2. pose proof (count_Q_nonneg todo) as Hc'.
    assert (Hq : q == displayed) by (destruct Q4 as [Q4|Q4]; [done|nra]).
    destruct (IH (S index) (remaining - q)) as [S1 S2]; [lia|lia|rewrite count_Q_S, Hq; nra..|].
    split; [rewrite E, S1; ring|]. constructor; [|exact S2]. split; [lia|].
    split; [by apply interval_delay; lia|]. by split_and!.
Qed.

Lemma ceil_bounds x : 0 < x -> let n := Z.to_nat (Qceiling x) in
  (0 < n)%nat /\ count_Q n - 1 < x /\ x <= count_Q n /\ (0 <= Qceiling x)%Z.
Proof.
  intros Hx n. pose proof (Qle_ceiling x) as H1. pose proof (Qceiling_lt x) as H2.
  assert (Hz : (0 < Qceiling x)%Z).
  { rewrite Zlt_Qlt. change (inject_Z 0) with 0. lra. }
  assert (En : count_Q n = inject_Z (Qceiling x)).
  { unfold count_Q, n. by rewrite Z2Nat.id by lia. }
  rewrite En. split_and!; [lia| |done|lia].
  unfold Zminus in H2. rewrite inject_Z_plus, inject_Z_opp in H2.
  change (inject_Z 1) with 1 in H2. lra.
Qed.

Lemma iceberg_ok r : sr_algorithm r = Iceberg -> 0 < sr_quantity r -> 0 < sr_displayed_quantity r ->
  forall s, build_iceberg_schedule r = Ok s -> schedule_ok r s.
Proof.
  intros HA Hq Hd s. unfold build_iceberg_schedule, guard_or, ceil_to_size, schedule_ok. rewrite HA.
  cbn [ndiv nceil nfinite Q_arithmetic]. destruct (negb _); [|done]. cbn [mbind result_bind].
  set (x := sr_quantity r / sr_displayed_quantity r). destruct (_ && _); [|done].
  cbn [mbind result_bind]. intros [= <-].
  assert (Hx : 0 < x) by (by apply Qlt_shift_div_l; [|lra]).
  destruct (ceil_bounds x Hx) as (B1 & B2 & B3 & _). set (n := Z.to_nat (Qceiling x)) in *.
  assert (Ex : x * sr_displayed_quantity r == sr_quantity r) by (unfold x; field; lra).
  apply iceberg_loop_ok; try done; rewrite <- Ex; [by apply Qmult_lt_compat_r|].
  apply Qmult_le_compat_r; [done|lra].
Qed.

(** ** The schedules *)

Lemma validate_common_Q r : validate_common r = Ok tt <->
  0 < sr_quantity r /\ (0 < sr_slices r)%Z /\ 0 <= sr_duration_seconds r.
Proof.
  rewrite <- not_positive_Q, <- negative_Q. unfold validate_common, guard_or.
  destruct (not_positive (sr_quantity r)), (negative (sr_duration_seconds r)),
    (Z.leb_spec (sr_slices r) 0); cbn; naive_solver lia.
Qed.

Lemma schedule_accepted r : (exists s, build_execution_schedule r = Ok s) <-> request_ok r.
Proof.
  unfold build_execution_schedule, request_ok. pose proof (validate_common_Q r) as HV.
  destruct (validate_common r) as [[]|e].
  2: { split; [by intros [s Hs]|]. intros (H1 & H2 & H3 & _). by pose proof (proj2 HV (conj H1 (conj H2 H3))). }
  destruct (proj1 HV eq_refl) as (H1 & H2 & H3). cbn [mbind result_bind]. clear HV.
  destruct (sr_algorithm r); [naive_solver..| | |].
  - unfold build_vwap_schedule, guard_or. rewrite <- forallb_negative, <- nle_tiny, <- accumulate_Q.
    destruct (Nat.eqb_spec (length (sr_volume_profile r)) (Z.to_nat (sr_slices r))),
      (forallb _ _), (negb _); cbn; naive_solver.
  - unfold build_pov_schedule, guard_or. rewrite <- forallb_negative.
    pose proof (not_positive_Q (sr_participation_rate r)) as HP.
    pose proof (Q_lt_false 1 (sr_participation_rate r)) as HR.
    change (nlt (nof 1) (sr_participation_rate r)) with (Q_lt 1 (sr_participation_rate r)).
    destruct (not_positive (sr_participation_rate r)), (Q_lt 1 (sr_participation_rate r)),
      (sr_volume_profile r), (forallb _ _); cbn; naive_solver.
  - unfold build_iceberg_schedule, guard_or, ceil_to_size. cbn [nceil nfinite ndiv Q_arithmetic].
    pose proof (not_positive_Q (sr_displayed_quantity r)) as HP.
    destruct (not_positive (sr_displayed_quantity r)); cbn [negb mbind result_bind]; [naive_solver|].
    assert (Hx : 0 < sr_quantity r / sr_displayed_quantity r).
    { apply Qlt_shift_div_l; [by apply HP|lra]. }
    destruct (ceil_bounds _ Hx) as (_ & _ & _ & B). rewrite (proj2 (Z.leb_le _ _) B). cbn [andb].
    destruct (Z.ltb_spec (Qceiling (sr_quantity r / sr_displayed_quantity r)) (2 ^ 64)); cbn;
      [naive_solver|]. split; [naive_solver|]. intros (_ & _ & _ & _ & ?). lia.
Qed.

(** C21: schedules add up, in exact arithmetic.  A schedule is built exactly for
    the requests described by [request_ok].  Each slice starts a period of the
    duration.  Market, TWAP, VWAP and iceberg schedules add up to the quantity:
    TWAP in equal shares, VWAP in proportion to the weights, iceberg in slices of
    the displayed quantity but for the last, which is no larger.  POV takes no
    more than its rate of the volume of each period and either reaches the
    quantity up to the tolerance, or takes its rate of the whole volume up to
    the tolerance of a period each. *)
Theorem schedules_add_up r :
  ((exists s, build_execution_schedule r = Ok s) <-> request_ok r) /\
  (forall s, build_execution_schedule r = Ok s -> schedule_ok r s).
Proof.
  split; [apply schedule_accepted|]. intros s Hs.
  assert (Hr : request_ok r) by (apply schedule_accepted; by exists s).
  unfold build_execution_schedule in Hs. destruct (validate_common r) as [x|]; [|done].
  cbn [mbind result_bind] in Hs. destruct Hr as (H1 & H2 & H3 & H4).
  destruct (sr_algorithm r) eqn:HA.
  - injection Hs as <-. unfold schedule_ok. rewrite HA. split; [cbn; ring|].
    constructor; [|constructor]. split; [lia|]. split; [|reflexivity].
    change (0 == 0 * sr_duration_seconds r / 1). field.
  - injection Hs as <-. by apply twap_ok.
  - destruct H4 as (? & ? & ?). by eapply vwap_ok.
  - unfold schedule_ok. rewrite HA. unfold build_pov_schedule, guard_or in Hs.
    destruct (negb (_ || _)); [|done]. destruct (negb _); [|done]. destruct (forallb _ _); [|done].
    cbn [mbind result_bind] in Hs. injection Hs as <-. destruct H4 as ([R1 R2] & _ & H4).
    destruct (pov_loop_ok (sr_participation_rate r) (sr_duration_seconds r) (sr_volume_profile r)
      ltac:(lra) (sr_volume_profile r) 0 (sr_quantity r)) as (_ & P1 & P2 & periods & P3 & _ & P4);
      [done|lia|lra|done|]. split_and!; [done|done|by exists periods].
  - destruct H4 as [? _]. by eapply iceberg_ok.
Qed.

(** ** Witness *)

Definition demo_iceberg : ExecutionScheduleRequest Q := {|
  sr_algorithm := Iceberg; sr_quantity := 10; sr_slices := 1; sr_duration_seconds := 60;
  sr_volume_profile := []; sr_participation_rate := 1 # 10; sr_displayed_quantity := 3 |}.

Lemma schedules_add_up_witness :
  exists s, build_execution_schedule demo_iceberg = Ok s /\ schedule_ok demo_iceberg s /\
    scheduled s == 10 /\ length s = 4%nat.
Proof.
  destruct (schedules_add_up demo_iceberg) as [_ H].
  eexists. split; [vm_compute; reflexivity|]. split; [apply H; vm_compute; reflexivity|].
  split; [vm_compute; reflexivity|reflexivity].
Defined.

(** With doubles the last VWAP slice, which takes what the others left, can be
    negative: weights 1, 7, 1 and 0 of a quantity of 3. *)
Example last_share_can_be_negative :
  exists s, build_vwap_schedule {| sr_algorithm := VWAP; sr_quantity := dbl 3; sr_slices := 4;
      sr_duration_seconds := dbl 60; sr_volume_profile := [dbl 1; dbl 7; dbl 1; dbl 0];
      sr_participation_rate := ddiv (dbl 1) (dbl 10); sr_displayed_quantity := dzero |} = Ok s /\
    match last s with Some x => dlt (sl_quantity x) dzero | None => false end = true.
Proof. eexists. vm_compute. split; reflexivity. Qed.

(** ** The schedules of the simulators *)

#[local] Open Scope Z_scope.

Definition units (out : list ExecutionSlice) : Z := foldr Z.add 0 (es_quantity <$> out).

Lemma units_cons x out : units (x :: out) = es_quantity x + units out.
Proof. done. Qed.

Lemma twap_quantity total n i : in_u32 total -> 0 < n -> 0 <= i ->
  es_quantity (twap_slice (total / n) (total mod n) n i) = total / n + (if i <? total mod n then 1 else 0).
Proof.
  intros HT Hn Hi. apply u32_small. unfold in_u32 in *. pose proof (Z.div_mod total n ltac:(lia)).
  pose proof (Z.div_pos total n ltac:(lia) Hn). pose proof (Z.mod_pos_bound total n Hn).
  destruct (Z.ltb_spec i (total mod n)); nia.
Qed.

(** The first intervals get one unit more. *)
Lemma twap_units total n k a : in_u32 total -> 0 < n -> 0 <= a -> 0 <= k ->
  units (twap_slice (total / n) (total mod n) n <$> seqZ a k) =
    total / n * k + Z.max 0 (Z.min (a + k) (total mod n) - Z.min a (total mod n)).
Proof.
  intros HT Hn Ha Hk. revert a Ha. pattern k. apply natlike_ind; [|clear k Hk; intros k Hk IH a Ha|done].
  - intros a _. cbn [fmap list_fmap seqZ seq Z.to_nat units foldr]. change (units _) with 0. lia.
  - rewrite seqZ_cons by lia. rewrite fmap_cons, units_cons, Z.pred_succ, IH, twap_quantity by lia || done.
    destruct (Z.ltb_spec a (total mod n)); lia.
Qed.

(** What the loop leaves is allocated at its end: nothing is lost or added, whatever
    the weights are and whatever an unspecified rounding gives. *)
Lemma vwap_loop_units unspecified total W curve : forall i allocated, curve <> [] -> in_u32 total -> 0 <= allocated <= total ->
  let (out, allocated') := vwap_loop unspecified total W curve i allocated in
  allocated' = total /\ allocated + units out = total /\ Forall (fun x => in_u32 (es_quantity x)) out /\ length out = length curve.
Proof.
  induction curve as [|v curve IH]; intros i allocated Hn HT HA; [done|]. cbn [vwap_loop].
  set (q := Z.min _ _).
  assert (0 <= q <= total - allocated /\ (curve = [] -> q = total - allocated)) as [Hq Hlast].
  { unfold q. rewrite (u32_small (total - allocated)) by (unfold in_u32 in *; lia). split.
    - pose proof (u32_range (llround unspecified (dmul (ddiv (dmax v dzero) W) (dbl total)))) as [? _].
      case_bool_decide; lia.
    - intros ->. rewrite bool_decide_eq_true_2 by done. lia. }
  clearbody q. rewrite u32_small by (unfold in_u32 in *; lia). destruct (decide (curve = [])) as [->|Hne].
  - cbn. rewrite Hlast by done. split_and!; [lia|lia| |done]. repeat constructor; cbn; unfold in_u32 in *; lia.
  - specialize (IH (i + 1) (allocated + q) Hne HT ltac:(lia)).
    destruct (vwap_loop _ _ _ _ _ _) as [out a']. destruct IH as (-> & HU & HF & HL).
    rewrite units_cons. cbn [es_quantity length]. split_and!; [done|lia| |by f_equal].
    constructor; [cbn; unfold in_u32 in *; lia|done].
Qed.

(** The schedules of the simulators give every unit of the quantity to one slice:
    TWAP in shares that differ by one unit at most, VWAP whatever the curve holds. *)
Theorem simulator_schedules_add_up unspecified total intervals curve : in_u32 total ->
  (0 < intervals < 2 ^ 32 -> forall out, twap_schedule total intervals = Ok out ->
     units out = total /\ Z.of_nat (length out) = intervals /\
     Forall (fun x => total / intervals <= es_quantity x <= total / intervals + 1) out) /\
  (forall out, vwap_schedule unspecified total curve = Ok out -> units out = total /\ length out = length curve).
Proof.
  intros HT. split.
  - intros HI out. unfold twap_schedule. case_match; [done|]. rewrite u32_small by (unfold in_u32; lia).
    case_match; [done|]. intros [= <-]. unfold in_u32 in HT.
    pose proof (Z.div_mod total intervals ltac:(lia)). pose proof (Z.mod_pos_bound total intervals ltac:(lia)).
    split_and!.
    + rewrite twap_units by (done || lia). lia.
    + rewrite length_fmap, length_seqZ. lia.
    + apply Forall_fmap, Forall_forall. intros i Hi%elem_of_seqZ. cbn [compose]. rewrite twap_quantity by (done || lia).
      case_match; lia.
  - intros out. unfold vwap_schedule. case_match eqn:E; [done|]. case_match; [done|].
    apply orb_false_iff in E as [_ E]. apply bool_decide_eq_false in E.
    pose proof (vwap_loop_units unspecified total (foldl dadd dzero curve) curve 0 0 E HT ltac:(unfold in_u32 in HT; lia)) as H1.
    destruct (vwap_loop _ _ _ _ _ _) as [out' a']. destruct H1 as (-> & HU & _ & HL).
    rewrite (proj2 (Z.ltb_ge total total)) by lia. intros [= <-]. by split; [lia|].
Qed.

Definition tenths (n : Z) : double := ddiv (dbl n) (dbl 10).

Definition quantities (x : result (list ExecutionSlice)) : list Z :=
  match x with Ok out => es_quantity <$> out | Throw _ => [] end.

Example simulator_schedules :
  quantities (twap_schedule 101 8) = [13; 13; 13; 13; 13; 12; 12; 12] /\
  quantities (vwap_schedule (fun _ => 0) 101 [tenths 4; tenths 3; tenths 2; tenths 1]) = [40; 30; 20; 11].
Proof. by vm_compute. Qed.

(** Buying without impact costs the arrival price. *)
Example cost_without_impact :
  match twap_schedule 100 4 with
  | Ok out => simulate_execution_cost Buy 50 out (dbl 1000) (dbl 1) dzero dzero = Ok {|
      ec_arrival_price := dbl 50; ec_average_fill_price := dbl 50; ec_implementation_shortfall := dzero;
      ec_temporary_impact := dzero; ec_permanent_impact := dzero |}
  | Throw _ => False
  end.
Proof. vm_compute. reflexivity. Qed.
