(* ===== verification/ExecutionEngine.v ===== *)
(** * Simulated execution ([execution_engine.hpp], [execution_engine.cpp],
    [execution_replay.hpp], [execution_replay.cpp])

    [std::mt19937_64] as the C++ standard defines it, and the doubles that
    [std::uniform_real_distribution] makes of it, with the formula of libstdc++,
    which the standard leaves open.  Each leg of a plan becomes a child that is
    rejected or filled to a ratio, with pseudo-random latency and rejection.  A stored
    execution is told again as a list of events. *)

From S2P Require Import Prelude.
From S2P Require Import Float.
From S2P Require Import Oms.
From S2P Require Import Router.

(** The last 312 words of the sequence. *)
Definition Mt19937_64 : Type := list Z.

Definition mt_size : nat := 312.
Definition mt_middle : nat := 156.

(** The seed: each word from the one before it. *)
Fixpoint mt_seed_words (index : Z) (word : Z) (todo : nat) : list Z :=
  match todo with
  | O => []
  | S todo =>
      word :: mt_seed_words (index + 1)
        (u64 (6364136223846793005 * Z.lxor word (Z.shiftr word 62) + index)) todo
  end.

Definition mt_seed (seed : Z) : Mt19937_64 := mt_seed_words 1 (u64 seed) mt_size.

Definition mt_lower_mask : Z := 2 ^ 31 - 1.

(** The next word of the recurrence. *)
Definition mt_word (g : Mt19937_64) : Z :=
  let y := Z.lor (Z.land (nth 0 g 0) (2 ^ 64 - 1 - mt_lower_mask)) (Z.land (nth 1 g 0) mt_lower_mask) in
  Z.lxor (Z.lxor (nth mt_middle g 0) (Z.shiftr y 1))
    (if Z.odd y then 0xB5026F5AA96619E9 else 0).

Definition mt_temper (x : Z) : Z :=
  let x := Z.lxor x (Z.land (Z.shiftr x 29) 0x5555555555555555) in
  let x := Z.lxor x (Z.land (u64 (Z.shiftl x 17)) 0x71D67FFFEDA60000) in
  let x := Z.lxor x (Z.land (u64 (Z.shiftl x 37)) 0xFFF7EEE000000000) in
  Z.lxor x (Z.shiftr x 43).

Definition mt_next (g : Mt19937_64) : Z * Mt19937_64 :=
  let x := mt_word g in (mt_temper x, tail g ++ [x]).

(** The first numbers after the default seed. *)
Example mt_first_numbers :
  let g := mt_seed 5489 in
  (mt_next g).1 = 14514284786278117030 /\ (mt_next (mt_next g).2).1 = 4620546740167642908 /\
  (mt_next (mt_next (mt_next g).2).2).1 = 13109570281517897720.
Proof. vm_compute. by split_and!. Qed.

(** [std::generate_canonical<double, 53>]: one number, over 2{^64}, below one. *)
Definition below_one : double := S754_finite false 9007199254740991 (-53).

Definition generate_canonical (g : Mt19937_64) : double * Mt19937_64 :=
  let (x, g) := mt_next g in
  let r := ddiv (dbl x) (dbl (2 ^ 64)) in
  (if dge r (dbl 1) then below_one else r, g).

(** [std::uniform_real_distribution<double>(a, b)] *)
Definition uniform_real (a b : double) (g : Mt19937_64) : double * Mt19937_64 :=
  let (r, g) := generate_canonical g in (dadd (dmul r (dsub b a)) a, g).

(** ** Simulated execution ([execution_engine.hpp], [execution_engine.cpp]) *)

Inductive ChildExecutionStatus := ChildFilled | ChildPartiallyFilled | ChildRejected.

#[export] Instance ChildExecutionStatus_eq_dec : EqDecision ChildExecutionStatus.
Proof. solve_decision. Defined.

Record RoutedChildExecution := {
  rx_venue : string; rx_level_index : nat;
  rx_requested : double; rx_filled : double; rx_remaining : double;
  rx_price : double; rx_notional : double; rx_fee : double; rx_latency_ms : double;
  rx_status : ChildExecutionStatus
}.

Record RoutedExecutionSummary := {
  rs_complete : bool;
  rs_requested : double; rs_filled : double; rs_remaining : double;
  rs_average_price : double; rs_notional : double; rs_fees : double; rs_latency_ms : double;
  rs_children : list RoutedChildExecution
}.

Record ExecutionSimulationConfig := {
  sc_fill_ratio : double; sc_rejection_probability : double; sc_base_latency_ms : double;
  sc_latency_jitter_ms : double; sc_seed : Z
}.

Definition execution_status_to_string (s : ChildExecutionStatus) : string :=
  match s with
  | ChildFilled => "FILLED" | ChildPartiallyFilled => "PARTIALLY_FILLED" | ChildRejected => "REJECTED"
  end.

(** [std::clamp] *)
Definition dclamp (v low high : double) : double :=
  if dlt v low then low else if dlt high v then high else v.

Definition fraction (x : double) : bool :=
  isfinite x && negb (dlt x dzero) && negb (dgt x (dbl 1)).

Definition check_config (c : ExecutionSimulationConfig) : result unit :=
  _ ← guard_or (fraction (sc_fill_ratio c))
        (invalid_argument "fill ratio must be between zero and one");
  _ ← guard_or (fraction (sc_rejection_probability c))
        (invalid_argument "rejection probability must be between zero and one");
  _ ← guard_or (isfinite (sc_base_latency_ms c) && negb (dlt (sc_base_latency_ms c) dzero))
        (invalid_argument "base latency must be non-negative");
  guard_or (isfinite (sc_latency_jitter_ms c) && negb (dlt (sc_latency_jitter_ms c) dzero))
    (invalid_argument "latency jitter must be non-negative").

(** The child of a leg, given the drawn latency and whether it is rejected. *)
Definition rejected_child (leg : RouteLeg) (latency : double) : RoutedChildExecution := {|
  rx_venue := leg_venue leg; rx_level_index := leg_level_index leg;
  rx_requested := leg_quantity leg; rx_filled := dzero; rx_remaining := leg_quantity leg;
  rx_price := leg_price leg; rx_notional := dzero; rx_fee := dzero; rx_latency_ms := latency;
  rx_status := ChildRejected |}.

Definition executed_child (c : ExecutionSimulationConfig) (leg : RouteLeg) (latency : double)
    : RoutedChildExecution :=
  let filled := dclamp (dmul (leg_quantity leg) (sc_fill_ratio c)) dzero (leg_quantity leg) in
  let remaining := dsub (leg_quantity leg) filled in
  let notional := dmul filled (leg_price leg) in
  {| rx_venue := leg_venue leg; rx_level_index := leg_level_index leg;
     rx_requested := leg_quantity leg; rx_filled := filled; rx_remaining := remaining;
     rx_price := leg_price leg; rx_notional := notional;
     rx_fee := ddiv (dmul notional (leg_taker_fee_bps leg)) bps; rx_latency_ms := latency;
     rx_status := if dle filled tiny then ChildRejected
                  else if dle remaining tiny then ChildFilled else ChildPartiallyFilled |}.

Definition add_child (counted : bool) (x : RoutedChildExecution) (s : RoutedExecutionSummary)
    : RoutedExecutionSummary := {|
  rs_complete := rs_complete s; rs_requested := rs_requested s;
  rs_filled := if counted then dadd (rs_filled s) (rx_filled x) else rs_filled s;
  rs_remaining := rs_remaining s; rs_average_price := rs_average_price s;
  rs_notional := if counted then dadd (rs_notional s) (rx_notional x) else rs_notional s;
  rs_fees := if counted then dadd (rs_fees s) (rx_fee x) else rs_fees s;
  rs_latency_ms := dadd (rs_latency_ms s) (rx_latency_ms x);
  rs_children := rs_children s ++ [x] |}.

(** The loop over the legs; the generator draws the jitter, then the rejection. *)
Fixpoint simulate_loop (c : ExecutionSimulationConfig) (legs : list RouteLeg) (g : Mt19937_64)
    (s : RoutedExecutionSummary) : RoutedExecutionSummary :=
  match legs with
  | [] => s
  | leg :: legs =>
      let (jitter, g) := uniform_real dzero (sc_latency_jitter_ms c) g in
      let latency := dadd (dadd (leg_latency_ms leg) (sc_base_latency_ms c)) jitter in
      let (draw, g) := uniform_real dzero (dbl 1) g in
      simulate_loop c legs g
        (if dlt draw (sc_rejection_probability c) then add_child false (rejected_child leg latency) s
         else add_child true (executed_child c leg latency) s)
  end.

Definition empty_summary (requested : double) : RoutedExecutionSummary := {|
  rs_complete := false; rs_requested := requested; rs_filled := dzero; rs_remaining := dzero;
  rs_average_price := dzero; rs_notional := dzero; rs_fees := dzero; rs_latency_ms := dzero;
  rs_children := [] |}.

Definition finish_summary (s : RoutedExecutionSummary) : RoutedExecutionSummary :=
  let remaining := dmax dzero (dsub (rs_requested s) (rs_filled s)) in
  {| rs_complete := dle remaining tiny; rs_requested := rs_requested s; rs_filled := rs_filled s;
     rs_remaining := remaining;
     rs_average_price := if dgt (rs_filled s) dzero then ddiv (rs_notional s) (rs_filled s)
                         else rs_average_price s;
     rs_notional := rs_notional s; rs_fees := rs_fees s; rs_latency_ms := rs_latency_ms s;
     rs_children := rs_children s |}.

Definition simulate_route_execution (plan : RoutePlan) (c : ExecutionSimulationConfig)
    : result RoutedExecutionSummary :=
  _ ← check_config c;
  Ok (finish_summary
        (simulate_loop c (pl_legs plan) (mt_seed (sc_seed c)) (empty_summary (pl_requested plan)))).

(** ** The report of a stored execution *)

Inductive ReplayEventType :=
| EvParentStarted | EvChildSubmitted | EvChildFilled | EvChildPartiallyFilled | EvChildRejected
| EvParentCompleted | EvParentIncomplete.

Definition replay_type_to_string (t : ReplayEventType) : string :=
  match t with
  | EvParentStarted => "PARENT_STARTED" | EvChildSubmitted => "CHILD_SUBMITTED" | EvChildFilled => "CHILD_FILLED"
  | EvChildPartiallyFilled => "CHILD_PARTIALLY_FILLED" | EvChildRejected => "CHILD_REJECTED"
  | EvParentCompleted => "PARENT_COMPLETED" | EvParentIncomplete => "PARENT_INCOMPLETE"
  end.

(** What the report reads of a [StoredRouteExecution]. *)
Record StoredRouteExecution := {
  sx_id : Z; sx_symbol : string; sx_side : string; sx_requested : double; sx_filled : double; sx_remaining : double;
  sx_fees : double; sx_latency_ms : double; sx_complete : bool; sx_children : list RoutedChildExecution
}.

Record ReplayEvent := {
  re_sequence : nat; re_type : ReplayEventType; re_execution_id : Z; re_venue : string; re_level_index : nat;
  re_timestamp_ms : double; re_requested : double; re_filled : double; re_remaining : double; re_price : double;
  re_fee : double; re_description : string
}.

Record ExecutionReplay := {
  xr_execution_id : Z; xr_symbol : string; xr_side : string; xr_complete : bool; xr_requested : double;
  xr_filled : double; xr_remaining : double; xr_total_fees : double; xr_total_latency_ms : double;
  xr_events : list ReplayEvent
}.

Definition child_event_type (s : ChildExecutionStatus) : ReplayEventType :=
  match s with
  | ChildFilled => EvChildFilled | ChildPartiallyFilled => EvChildPartiallyFilled | ChildRejected => EvChildRejected
  end.

Section Report.

(** How a stream prints a double. *)
Context (show : double -> string).

Definition child_description (x : RoutedChildExecution) : string :=
  execution_status_to_string (rx_status x) +:+ " child on " +:+ rx_venue x +:+ " at " +:+ show (rx_price x) +:+
  " for " +:+ show (rx_filled x) +:+ " of " +:+ show (rx_requested x).

Definition parent_event (sequence : nat) (t : ReplayEventType) (e : StoredRouteExecution)
    (timestamp filled remaining : double) (description : string) : ReplayEvent := {|
  re_sequence := sequence; re_type := t; re_execution_id := sx_id e; re_venue := ""; re_level_index := 0;
  re_timestamp_ms := timestamp; re_requested := sx_requested e; re_filled := filled; re_remaining := remaining;
  re_price := dzero; re_fee := dzero; re_description := description |}.

Definition child_submitted (sequence : nat) (id : Z) (elapsed : double) (x : RoutedChildExecution) : ReplayEvent := {|
  re_sequence := sequence; re_type := EvChildSubmitted; re_execution_id := id; re_venue := rx_venue x;
  re_level_index := rx_level_index x; re_timestamp_ms := elapsed; re_requested := rx_requested x; re_filled := dzero;
  re_remaining := rx_requested x; re_price := rx_price x; re_fee := dzero;
  re_description := "Child order submitted to " +:+ rx_venue x |}.

Definition child_reported (sequence : nat) (id : Z) (elapsed : double) (x : RoutedChildExecution) : ReplayEvent := {|
  re_sequence := sequence; re_type := child_event_type (rx_status x); re_execution_id := id; re_venue := rx_venue x;
  re_level_index := rx_level_index x; re_timestamp_ms := elapsed; re_requested := rx_requested x;
  re_filled := rx_filled x; re_remaining := rx_remaining x; re_price := rx_price x; re_fee := rx_fee x;
  re_description := child_description x |}.

(** The loop over the children, and the last event with what it has counted. *)
Fixpoint replay_children (e : StoredRouteExecution) (children : list RoutedChildExecution) (sequence : nat)
    (elapsed filled : double) : list ReplayEvent :=
  match children with
  | [] =>
      [parent_event sequence (if sx_complete e then EvParentCompleted else EvParentIncomplete) e elapsed filled
         (dmax dzero (dsub (sx_requested e) filled))
         (if sx_complete e then "Parent execution completed" else "Parent execution incomplete")]
  | x :: children =>
      let elapsed' := dadd elapsed (rx_latency_ms x) in
      child_submitted sequence (sx_id e) elapsed x :: child_reported (S sequence) (sx_id e) elapsed' x ::
      replay_children e children (S (S sequence)) elapsed' (dadd filled (rx_filled x))
  end.

Definition build_execution_replay (e : StoredRouteExecution) : ExecutionReplay := {|
  xr_execution_id := sx_id e; xr_symbol := sx_symbol e; xr_side := sx_side e; xr_complete := sx_complete e;
  xr_requested := sx_requested e; xr_filled := sx_filled e; xr_remaining := sx_remaining e; xr_total_fees := sx_fees e;
  xr_total_latency_ms := sx_latency_ms e;
  xr_events := parent_event 0 EvParentStarted e dzero dzero (sx_requested e) "Parent execution started" ::
    replay_children e (sx_children e) 1 dzero dzero |}.

End Report.

(** ** The children of a simulation *)

(** A child stands for its leg. *)
Definition child_of (c : ExecutionSimulationConfig) (leg : RouteLeg) (x : RoutedChildExecution) : Prop :=
  exists latency, x = rejected_child leg latency \/ x = executed_child c leg latency.

Lemma simulate_loop_children c legs : forall g s, exists xs,
  rs_children (simulate_loop c legs g s) = rs_children s ++ xs /\ Forall2 (child_of c) legs xs.
Proof.
  induction legs as [|leg legs IH]; intros g s; cbn [simulate_loop].
  { exists []. by rewrite app_nil_r. }
  destruct (uniform_real _ (sc_latency_jitter_ms c) g) as [jitter g1].
  destruct (uniform_real _ (dbl 1) g1) as [draw g2]. set (latency := dadd _ jitter).
  assert (H : exists counted x, child_of c leg x /\
    (if dlt draw (sc_rejection_probability c) then add_child false (rejected_child leg latency) s
     else add_child true (executed_child c leg latency) s) = add_child counted x s).
  { case_if; eexists _, _; (split; [|reflexivity]); exists latency; auto. }
  destruct H as (counted & x & Hx & ->). destruct (IH g2 (add_child counted x s)) as (xs & -> & HF).
  exists (x :: xs). cbn [add_child rs_children]. rewrite <- app_assoc. split; [done|by constructor].
Qed.

Lemma simulate_children plan c s : simulate_route_execution plan c = Ok s ->
  isfinite (sc_fill_ratio c) = true /\ Forall2 (child_of c) (pl_legs plan) (rs_children s).
Proof.
  unfold simulate_route_execution, check_config, guard_or. destruct (fraction (sc_fill_ratio c)) eqn:E; [|done].
  destruct (fraction (sc_rejection_probability c)), (isfinite (sc_base_latency_ms c) && _),
    (isfinite (sc_latency_jitter_ms c) && _); try done. cbn [mbind result_bind]. intros [= <-].
  split; [unfold fraction in E; by breflect|]. cbn [finish_summary rs_children].
  destruct (simulate_loop_children c (pl_legs plan) (mt_seed (sc_seed c)) (empty_summary (pl_requested plan)))
    as (xs & -> & HF). done.
Qed.

(** An executed child is filled above the tolerance, at most to its quantity. *)
Lemma executed_child_filled c leg latency : let x := executed_child c leg latency in
  isfinite (sc_fill_ratio c) = true -> dpositive (leg_quantity leg) = true ->
  rx_status x <> ChildRejected -> dgt (rx_filled x) tiny = true.
Proof.
  intros x Hr Hq Hs. cbn in *. set (f := dclamp _ _ _) in *.
  destruct (dle f tiny) eqn:E; [done|]. destruct (dgt f tiny) eqn:Eg; [done|].
  rewrite (dlt_false_dle tiny f) in E; [done|done| |exact Eg].
  unfold f, dclamp. apply dpositive_inv in Hq as (m & e & Hq). rewrite Hq.
  case_if; [done|]. case_if; [done|]. by apply dmul_number.
Qed.

(** ** The report of a simulation *)

(** An execution that was stored as the simulation returned it. *)
Definition stores (e : StoredRouteExecution) (s : RoutedExecutionSummary) : Prop :=
  sx_requested e = rs_requested s /\ sx_complete e = rs_complete s /\ sx_children e = rs_children s.

Lemma replay_children_sequence show e children n elapsed filled :
  re_sequence <$> replay_children show e children n elapsed filled = seq n (S (2 * length children)).
Proof.
  revert n elapsed filled. induction children as [|x children IH]; intros n elapsed filled; [done|].
  cbn [replay_children fmap list_fmap length]. rewrite IH.
  replace (S (2 * S (length children))) with (S (S (S (2 * length children)))) by lia. done.
Qed.

Lemma replay_children_last show e children n elapsed filled : exists m,
  last (replay_children show e children n elapsed filled) =
    Some (parent_event m (if sx_complete e then EvParentCompleted else EvParentIncomplete) e
      (foldl (fun t x => dadd t (rx_latency_ms x)) elapsed children)
      (foldl (fun q x => dadd q (rx_filled x)) filled children)
      (dmax dzero (dsub (sx_requested e) (foldl (fun q x => dadd q (rx_filled x)) filled children)))
      (if sx_complete e then "Parent execution completed" else "Parent execution incomplete")).
Proof.
  revert n elapsed filled. induction children as [|x children IH]; intros n elapsed filled; [by eexists|].
  cbn [replay_children foldl].
  destruct (IH (S (S n)) (dadd elapsed (rx_latency_ms x)) (dadd filled (rx_filled x))) as [m E]. exists m.
  rewrite <- E. destruct children; done.
Qed.

Lemma dmul_nonneg x y : dpositive x = true -> dnonneg y -> dnonneg (dmul x y).
Proof.
  intros (m & e & ->)%dpositive_inv. destruct y as [[]|[]| |[] m' e']; try done. intros _.
  unfold dmul, SFmul. cbn [xorb]. destruct (binary_round_aux_shape false (Z.pos m * Z.pos m') (e + e')) as [H|[H|(? & ? & H)]]; [lia|..];
    change (Z.pos (m * m')) with (Z.pos m * Z.pos m'); by rewrite H.
Qed.

Lemma executed_child_nonneg c leg latency : dpositive (leg_quantity leg) = true -> dnonneg (sc_fill_ratio c) ->
  dnonneg (rx_filled (executed_child c leg latency)).
Proof.
  intros Hq Hr. pose proof (dpositive_nonneg _ Hq) as Hq'. cbn [executed_child rx_filled].
  unfold dclamp. case_match; [done|]. case_match; [done|]. by apply dmul_nonneg.
Qed.

(** The sums that the loop keeps are those of its children, the rejected ones
    included: they add zero. *)
Lemma simulate_loop_sums c legs : Forall (fun leg => dpositive (leg_quantity leg) = true) legs ->
  dnonneg (sc_fill_ratio c) -> forall g s, dnonneg (rs_filled s) ->
  let s' := simulate_loop c legs g s in exists xs, rs_children s' = rs_children s ++ xs /\
    rs_filled s' = foldl (fun q x => dadd q (rx_filled x)) (rs_filled s) xs /\
    rs_latency_ms s' = foldl (fun t x => dadd t (rx_latency_ms x)) (rs_latency_ms s) xs /\
    rs_requested s' = rs_requested s.
Proof.
  intros HL Hr. induction HL as [|leg legs Hq _ IH]; intros g s Hs; cbn [simulate_loop].
  { exists []. by rewrite app_nil_r. }
  destruct (uniform_real _ (sc_latency_jitter_ms c) g) as [jitter g1].
  destruct (uniform_real _ (dbl 1) g1) as [draw g2]. set (latency := dadd _ jitter).
  assert (H : exists counted x, dnonneg (dadd (rs_filled s) (rx_filled x)) /\
    rs_filled (add_child counted x s) = dadd (rs_filled s) (rx_filled x) /\
    (if dlt draw (sc_rejection_probability c) then add_child false (rejected_child leg latency) s
     else add_child true (executed_child c leg latency) s) = add_child counted x s).
  { case_if; eexists _, _; (split_and!; [| |reflexivity]); cbn [add_child rs_filled].
    - cbn [rejected_child rx_filled]. by rewrite dadd_zero_nonneg.
    - cbn [rejected_child rx_filled]. by rewrite dadd_zero_nonneg.
    - by apply dadd_nonneg, executed_child_nonneg.
    - done. }
  destruct H as (counted & x & Hx & Ef & ->).
  destruct (IH g2 (add_child counted x s) ltac:(by rewrite Ef)) as (xs & E1 & E2 & E3 & E4).
  exists (x :: xs). cbn [foldl]. rewrite E1, E2, E3, E4, Ef. cbn [add_child rs_children rs_latency_ms rs_requested].
  by rewrite <- app_assoc.
Qed.

(** The report of an execution that was stored as the simulation returned it tells
    the same story: two events for each child between a first and a last one,
    numbered from zero, and the last shows, to the last bit, the quantity filled, the
    quantity left and the latency of the simulation. *)
Theorem report_agrees show plan c s e : simulate_route_execution plan c = Ok s -> stores e s ->
  dnonneg (sc_fill_ratio c) -> Forall (fun leg => dpositive (leg_quantity leg) = true) (pl_legs plan) ->
  let events := xr_events (build_execution_replay show e) in
  re_sequence <$> events = seq 0 (2 + 2 * length (rs_children s)) /\
  exists final, last events = Some final /\
    re_filled final = rs_filled s /\ re_remaining final = rs_remaining s /\ re_timestamp_ms final = rs_latency_ms s /\
    re_type final = if rs_complete s then EvParentCompleted else EvParentIncomplete.
Proof.
  intros Hs (E1 & E2 & E3) Hr HL. cbn [build_execution_replay xr_events]. split.
  - rewrite fmap_cons, replay_children_sequence, E3. done.
  - destruct (replay_children_last show e (sx_children e) 1 dzero dzero) as [m EL].
    eexists. split; [rewrite last_cons, EL; reflexivity|]. cbn [parent_event re_filled re_remaining re_timestamp_ms re_type].
    rewrite E1, E2, E3. unfold simulate_route_execution in Hs. destruct (check_config c) as [x|]; [|done].
    cbn [mbind result_bind] in Hs. injection Hs as <-.
    destruct (simulate_loop_sums c _ HL Hr (mt_seed (sc_seed c)) (empty_summary (pl_requested plan)) I)
      as (xs & F1 & F2 & F3 & F4).
    cbn [finish_summary rs_filled rs_remaining rs_latency_ms rs_children rs_complete rs_requested].
    cbn [empty_summary rs_children rs_filled rs_latency_ms rs_requested app] in *. rewrite F1, F2, F3, F4. done.
Qed.

(** A route of one leg, half of which is filled. *)
Definition demo_route : RoutePlan := {|
  pl_complete := true; pl_requested := dbl 10; pl_routed := dbl 10; pl_notional := dbl 1000; pl_fees := dzero;
  pl_average_price := dbl 100; pl_legs := [{| leg_venue := "A"; leg_price := dbl 100; leg_quantity := dbl 10;
    leg_fee := dzero; leg_effective_price := dbl 100; leg_latency_ms := dbl 2; leg_taker_fee_bps := dzero;
    leg_latency_cost := dzero; leg_level_index := 0 |}] |}.

Definition demo_half : ExecutionSimulationConfig := {|
  sc_fill_ratio := ddiv (dbl 1) (dbl 2); sc_rejection_probability := dzero; sc_base_latency_ms := dbl 1;
  sc_latency_jitter_ms := dzero; sc_seed := 7 |}.

Definition demo_stored (s : RoutedExecutionSummary) : StoredRouteExecution := {|
  sx_id := 1; sx_symbol := "S"; sx_side := "BUY"; sx_requested := rs_requested s; sx_filled := rs_filled s;
  sx_remaining := rs_remaining s; sx_fees := rs_fees s; sx_latency_ms := rs_latency_ms s;
  sx_complete := rs_complete s; sx_children := rs_children s |}.

Example demo_report :
  match simulate_route_execution demo_route demo_half with
  | Ok s => (fun x => (re_type x, re_timestamp_ms x, re_filled x)) <$>
      xr_events (build_execution_replay (fun _ => "") (demo_stored s)) =
        [(EvParentStarted, dzero, dzero); (EvChildSubmitted, dzero, dzero); (EvChildPartiallyFilled, dbl 3, dbl 5);
         (EvParentIncomplete, dbl 3, dbl 5)]
  | Throw _ => False
  end.
Proof. vm_compute. reflexivity. Qed.
