(* ===== verification/LiveAlgo.v ===== *)
(** * The live execution of an algorithm ([live_algo_executor.hpp],
      [live_algo_executor.cpp])

    A schedule is worked slice by slice: each slice is routed over the quotes of
    the moment, its execution simulated, and every child order and fill entered
    into the order management system. *)

From S2P Require Import Prelude.
From S2P Require Import Float.
From S2P Require Import Arithmetic.
From S2P Require Import Oms.
From S2P Require Import Router.
From S2P Require Import Schedule.
From S2P Require Import ExecutionEngine.

Record LiveAlgoRequest := {
  la_symbol : string; la_side : RouteSide; la_quantity : double;
  la_schedule : ExecutionScheduleRequest double;
  la_limit_price : double; la_max_slippage_bps : double; la_max_venue_count : Z;
  la_all_or_none : bool; la_simulation : ExecutionSimulationConfig
}.

Record LiveAlgoSliceResult := {
  ls_index : nat; ls_requested : double; ls_routed : double; ls_filled : double;
  ls_notional : double; ls_fees : double; ls_child_count : nat
}.

Record LiveAlgoResult := {
  lr_parent_id : Z; lr_complete : bool;
  lr_requested : double; lr_filled : double; lr_remaining : double; lr_average_price : double;
  lr_notional : double; lr_fees : double;
  lr_accepted : nat; lr_rejected : nat; lr_slices : list LiveAlgoSliceResult
}.

(** The quotes that the provider returns, call by call. *)
Definition LiveQuoteProvider : Type := nat -> result (list VenueQuote).

(** [schedule_request] *)
Definition with_quantity (quantity : double) (r : ExecutionScheduleRequest double)
    : ExecutionScheduleRequest double := {|
  sr_algorithm := sr_algorithm r; sr_quantity := quantity; sr_slices := sr_slices r;
  sr_duration_seconds := sr_duration_seconds r; sr_volume_profile := sr_volume_profile r;
  sr_participation_rate := sr_participation_rate r;
  sr_displayed_quantity := sr_displayed_quantity r |}.

(** Changes of the result and of the slice result. *)
Definition count_rejected (r : LiveAlgoResult) : LiveAlgoResult := {|
  lr_parent_id := lr_parent_id r; lr_complete := lr_complete r; lr_requested := lr_requested r;
  lr_filled := lr_filled r; lr_remaining := lr_remaining r; lr_average_price := lr_average_price r;
  lr_notional := lr_notional r; lr_fees := lr_fees r; lr_accepted := lr_accepted r;
  lr_rejected := S (lr_rejected r); lr_slices := lr_slices r |}.

Definition count_accepted (r : LiveAlgoResult) : LiveAlgoResult := {|
  lr_parent_id := lr_parent_id r; lr_complete := lr_complete r; lr_requested := lr_requested r;
  lr_filled := lr_filled r; lr_remaining := lr_remaining r; lr_average_price := lr_average_price r;
  lr_notional := lr_notional r; lr_fees := lr_fees r; lr_accepted := S (lr_accepted r);
  lr_rejected := lr_rejected r; lr_slices := lr_slices r |}.

Definition count_child (sl : LiveAlgoSliceResult) : LiveAlgoSliceResult := {|
  ls_index := ls_index sl; ls_requested := ls_requested sl; ls_routed := ls_routed sl;
  ls_filled := ls_filled sl; ls_notional := ls_notional sl; ls_fees := ls_fees sl;
  ls_child_count := S (ls_child_count sl) |}.

Definition add_fill (x : RoutedChildExecution) (r : LiveAlgoResult) : LiveAlgoResult := {|
  lr_parent_id := lr_parent_id r; lr_complete := lr_complete r; lr_requested := lr_requested r;
  lr_filled := dadd (lr_filled r) (rx_filled x); lr_remaining := lr_remaining r;
  lr_average_price := lr_average_price r; lr_notional := dadd (lr_notional r) (rx_notional x);
  lr_fees := dadd (lr_fees r) (rx_fee x); lr_accepted := lr_accepted r;
  lr_rejected := lr_rejected r; lr_slices := lr_slices r |}.

Definition add_slice_fill (x : RoutedChildExecution) (sl : LiveAlgoSliceResult) : LiveAlgoSliceResult := {|
  ls_index := ls_index sl; ls_requested := ls_requested sl; ls_routed := ls_routed sl;
  ls_filled := dadd (ls_filled sl) (rx_filled x); ls_notional := dadd (ls_notional sl) (rx_notional x);
  ls_fees := dadd (ls_fees sl) (rx_fee x); ls_child_count := ls_child_count sl |}.

Definition end_slice (quantity : double) (sl : LiveAlgoSliceResult) (update : bool)
    (r : LiveAlgoResult) : LiveAlgoResult := {|
  lr_parent_id := lr_parent_id r; lr_complete := lr_complete r; lr_requested := lr_requested r;
  lr_filled := lr_filled r;
  lr_remaining := if update then dmax dzero (dsub quantity (lr_filled r)) else lr_remaining r;
  lr_average_price := lr_average_price r; lr_notional := lr_notional r; lr_fees := lr_fees r;
  lr_accepted := lr_accepted r; lr_rejected := lr_rejected r; lr_slices := lr_slices r ++ [sl] |}.

(** One child of an execution. *)
Definition work_child (parent_id timestamp : Z) (x : RoutedChildExecution)
    (p : LiveAlgoResult * LiveAlgoSliceResult) : ST Oms (LiveAlgoResult * LiveAlgoSliceResult) :=
  let (r, sl) := p in
  child_id ← create_child {| crq_parent_id := parent_id; crq_venue := rx_venue x;
                             crq_price := rx_price x; crq_quantity := rx_requested x;
                             crq_created := timestamp |};
  let sl := count_child sl in
  if bool_decide (rx_status x = ChildRejected) then
    _ ← reject_child child_id timestamp; mret (count_rejected r, sl)
  else
    _ ← mark_child_working child_id timestamp;
    let r := count_accepted r in
    p ← (if dgt (rx_filled x) epsilon then
           _ ← record_fill child_id (rx_price x) (rx_filled x) (rx_fee x) timestamp;
           mret (add_fill x r, add_slice_fill x sl)
         else mret (r, sl));
    _ ← (if dgt (rx_remaining x) epsilon then cancel_child child_id timestamp else mret false);
    mret p.

Fixpoint child_loop (parent_id timestamp : Z) (xs : list RoutedChildExecution)
    (p : LiveAlgoResult * LiveAlgoSliceResult) : ST Oms (LiveAlgoResult * LiveAlgoSliceResult) :=
  match xs with
  | [] => mret p
  | x :: xs => p ← work_child parent_id timestamp x p; child_loop parent_id timestamp xs p
  end.

Definition route_request (q : LiveAlgoRequest) (quantity : double) : RouteRequest := {|
  rr_side := la_side q; rr_quantity := quantity; rr_limit_price := la_limit_price q;
  rr_max_slippage_bps := la_max_slippage_bps q; rr_max_venue_count := la_max_venue_count q;
  rr_all_or_none := la_all_or_none q |}.

Definition new_slice (index : nat) (quantity routed : double) : LiveAlgoSliceResult := {|
  ls_index := index; ls_requested := quantity; ls_routed := routed; ls_filled := dzero;
  ls_notional := dzero; ls_fees := dzero; ls_child_count := 0 |}.

(** A slice of a quantity above the tolerance, on the quotes of the moment. *)
Definition work_slice (q : LiveAlgoRequest) (parent_id timestamp : Z) (index : nat)
    (quantity : double) (quotes : list VenueQuote) (r : LiveAlgoResult) : ST Oms LiveAlgoResult :=
  match quotes with
  | [] => mret (end_slice (la_quantity q) (new_slice index quantity dzero) false r)
  | _ =>
      plan ← lift (build_route_plan (route_request q quantity) quotes);
      let sl := new_slice index quantity (pl_routed plan) in
      match pl_legs plan with
      | [] => mret (end_slice (la_quantity q) sl false r)
      | _ =>
          execution ← lift (simulate_route_execution plan (la_simulation q));
          p ← child_loop parent_id timestamp (rs_children execution) (r, sl);
          mret (end_slice (la_quantity q) p.2 true p.1)
      end
  end.

(** The loop over the schedule; [calls] counts the calls of the provider. *)
Fixpoint slice_loop (q : LiveAlgoRequest) (quotes : LiveQuoteProvider) (parent_id timestamp : Z)
    (slices : list (Slice double)) (index calls : nat) (r : LiveAlgoResult) : ST Oms LiveAlgoResult :=
  match slices with
  | [] => mret r
  | slice :: slices =>
      if dle (lr_remaining r) epsilon then mret r
      else
        let requested := dmin (sl_quantity slice) (lr_remaining r) in
        if dle requested epsilon then slice_loop q quotes parent_id timestamp slices (S index) calls r
        else
          qs ← lift (quotes calls);
          r ← work_slice q parent_id timestamp index requested qs r;
          slice_loop q quotes parent_id timestamp slices (S index) (S calls) r
  end.

Definition new_result (parent_id : Z) (quantity : double) : LiveAlgoResult := {|
  lr_parent_id := parent_id; lr_complete := false; lr_requested := quantity; lr_filled := dzero;
  lr_remaining := quantity; lr_average_price := dzero; lr_notional := dzero; lr_fees := dzero;
  lr_accepted := 0; lr_rejected := 0; lr_slices := [] |}.

Definition finish_result (r : LiveAlgoResult) : LiveAlgoResult := {|
  lr_parent_id := lr_parent_id r; lr_complete := dle (lr_remaining r) epsilon;
  lr_requested := lr_requested r; lr_filled := lr_filled r; lr_remaining := lr_remaining r;
  lr_average_price := if dgt (lr_filled r) epsilon then ddiv (lr_notional r) (lr_filled r)
                      else lr_average_price r;
  lr_notional := lr_notional r; lr_fees := lr_fees r; lr_accepted := lr_accepted r;
  lr_rejected := lr_rejected r; lr_slices := lr_slices r |}.

Definition check_live_request (q : LiveAlgoRequest) : result (list (Slice double)) :=
  _ ← guard_or (negb (bool_decide (la_symbol q = ""))) (invalid_argument "live algo symbol cannot be empty");
  _ ← guard_or (isfinite (la_quantity q) && negb (dle (la_quantity q) dzero))
        (invalid_argument "live algo quantity must be positive");
  schedule ← build_execution_schedule (with_quantity (la_quantity q) (la_schedule q));
  _ ← guard_or (negb (length schedule =? 0)%nat) (runtime_error "execution schedule is empty");
  Ok schedule.

Definition execute_live_algorithm (q : LiveAlgoRequest) (quotes : LiveQuoteProvider) (timestamp : Z)
    : ST Oms LiveAlgoResult :=
  schedule ← lift (check_live_request q);
  parent_id ← create_parent {| prq_symbol := la_symbol q; prq_side := la_side q;
                               prq_quantity := la_quantity q;
                               prq_algorithm := sr_algorithm (la_schedule q) |} timestamp;
  r ← slice_loop q quotes parent_id timestamp schedule 0 0 (new_result parent_id (la_quantity q));
  let r := finish_result r in
  _ ← (if negb (lr_complete r) then cancel_parent parent_id timestamp else mret false);
  mret r.
