(* ===== verification/LiveAlgoProps.v ===== *)
(** * What a live execution leaves in the order management system

    Every step of an execution is a command of the system.  When it returns, its
    result and the books of the system agree exactly, and no order is left
    open. *)

From S2P Require Import Prelude.
From S2P Require Import Float.
From S2P Require Import Arithmetic.
From S2P Require Import Oms.
From S2P Require Import OmsProps.
From S2P Require Import Router.
From S2P Require Import Schedule.
From S2P Require Import ExecutionEngine.
From S2P Require Import LiveAlgo.

(** ** Computations on the system

    After at most [n] commands the system is in order, and if the computation
    returns, its result and the state satisfy [Q]. *)
Definition runs {A} (n : Z) (m : ST Oms A) (s : Oms) (Q : A -> Oms -> Prop) : Prop :=
  oms_inv n (m s).2 /\ forall a, (m s).1 = Ok a -> Q a (m s).2.

Lemma runs_bind {A B} n n' (m : ST Oms A) (k : A -> ST Oms B) s Q R : n <= n' ->
  runs n m s Q -> (forall a s', oms_inv n s' -> Q a s' -> runs n' (k a) s' R) ->
  runs n' (m ≫= k) s R.
Proof.
  intros Hn [H1 H2] Hk. unfold runs, mbind, st_bind. destruct (m s) as [[a|e] s'] eqn:E; cbn in *.
  - by apply Hk; auto.
  - split; [by eapply oms_inv_mono|done].
Qed.

Lemma runs_ret {A} n (a : A) s Q : oms_inv n s -> Q a s -> runs n (mret a) s Q.
Proof. intros H1 H2. split; [done|]. by intros a' [= <-]. Qed.

Lemma runs_lift {A} n (x : result A) s : oms_inv n s ->
  runs n (lift x) s (fun a s' => x = Ok a /\ s' = s).
Proof. by intros H. Qed.

Lemma runs_mono {A} n n' (m : ST Oms A) s (Q R : A -> Oms -> Prop) : n <= n' -> runs n m s Q ->
  (forall a s', oms_inv n s' -> Q a s' -> R a s') -> runs n' m s R.
Proof. intros Hn [H1 H2] H. split; [by eapply oms_inv_mono|]. auto. Qed.

(** ** The commands *)

Definition new_child (id : Z) (r : ChildOrderRequest) : ChildOrder := {|
  co_id := id; co_parent_id := crq_parent_id r; co_venue := crq_venue r; co_price := crq_price r;
  co_quantity := crq_quantity r; co_filled := dzero; co_remaining := crq_quantity r;
  co_status := New; co_created := crq_created r; co_updated := crq_created r |}.

(** The parent of a child when it is created. *)
Definition with_child (p : ParentOrder) (t id : Z) : ParentOrder :=
  parent_with p (po_filled p) (po_remaining p)
    (if bool_decide (po_status p = New) then Working else po_status p) t (po_child_ids p ++ [id]).

Lemma runs_create_child n s r : oms_inv n s -> n < 2 ^ 64 - 2 ->
  runs (n + 1) (create_child r) s (fun id s' => exists p,
    parents_ s !! crq_parent_id r = Some p /\ (exists x, check_child r p = Ok x) /\
    id = next_child_id_ s /\ children_ s' = <[id := new_child id r]> (children_ s) /\
    parents_ s' = <[crq_parent_id r := with_child p (crq_created r) id]> (parents_ s) /\
    execution_reports_ s' = execution_reports_ s).
Proof.
  intros I Hn. destruct (create_child_step n s r I Hn) as [HI _]. split.
  { revert HI. cbn [oms_exec]. unfold mbind, st_bind. by destruct (create_child r s) as [[]]. }
  intros id. unfold create_child. destruct (parents_ s !! crq_parent_id r) as [p|] eqn:Ep; [|done].
  destruct (check_child r p) as [x|e] eqn:EC; [|done].
  rewrite emplace_fresh by exact (fresh_child n s I).
  cbn [set_parents set_children set_next children_ next_parent_id_]. rewrite lookup_insert_eq.
  unfold mbind, st_bind, notify_mutation. cbn [set_parents set_children set_next parents_].
  rewrite lookup_insert_eq. cbn. intros [= <-]. exists p. split_and!; eauto.
Qed.

(** The parent of the child is refreshed after the child has changed. *)
Lemma runs_set_status n s f j t c p : oms_inv n s -> (forall c, f c <> Filled) ->
  children_ s !! j = Some c -> terminal_status (co_status c) = false ->
  parents_ s !! co_parent_id c = Some p ->
  let c' := child_with c (co_filled c) (co_remaining c) (f c) t in
  runs (n + 1) (set_child_status f j t) s (fun _ s' =>
    children_ s' = <[j := c']> (children_ s) /\
    parents_ s' = <[co_parent_id c := refreshed (<[j := c']> (children_ s)) t p]> (parents_ s) /\
    execution_reports_ s' = execution_reports_ s).
Proof.
  intros I Hf Ec Hc Ep c'. split; [by apply set_child_status_step|]. intros b.
  unfold set_child_status. rewrite Ec, Hc. fold c'. unfold refresh_parent, mbind, st_bind, notify_mutation.
  cbn [set_children parents_ children_]. change (co_parent_id c') with (co_parent_id c). rewrite Ep.
  cbn [set_parents parents_ children_]. rewrite lookup_insert_eq. by cbn.
Qed.

(** A child that is closed already stays as it is. *)
Lemma runs_set_status_closed n s f j t c : oms_inv n s -> children_ s !! j = Some c ->
  terminal_status (co_status c) = true -> runs n (set_child_status f j t) s (fun _ s' => s' = s).
Proof. intros I Ec Hc. unfold runs, set_child_status. rewrite Ec, Hc. done. Qed.

(** The report of a fill and the child it leaves. *)
Definition filled_child (c : ChildOrder) (quantity : double) (t : Z) : ChildOrder :=
  let filled := dadd (co_filled c) quantity in
  let remaining := dmax dzero (dsub (co_quantity c) filled) in
  child_with c filled remaining (if dle remaining epsilon then Filled else PartiallyFilled) t.

Definition fill_report (s : Oms) (c : ChildOrder) (price quantity fee : double) (t : Z)
    : OmsExecutionReport := {|
  xr_id := next_execution_report_id_ s; xr_parent_id := co_parent_id c; xr_child_id := co_id c;
  xr_venue := co_venue c; xr_price := price; xr_quantity := quantity;
  xr_notional := dmul price quantity; xr_fee := fee; xr_timestamp := t |}.

Lemma runs_record_fill n s j price quantity fee t c p : oms_inv n s -> n < 2 ^ 64 - 2 ->
  children_ s !! j = Some c -> parents_ s !! co_parent_id c = Some p ->
  let c' := filled_child c quantity t in
  runs (n + 1) (record_fill j price quantity fee t) s (fun rep s' =>
    rep = fill_report s c price quantity fee t /\ dpositive quantity = true /\ children_ s' = <[j := c']> (children_ s) /\
    parents_ s' = <[co_parent_id c := refreshed (<[j := c']> (children_ s)) t p]> (parents_ s) /\
    execution_reports_ s' = execution_reports_ s ++ [fill_report s c price quantity fee t]).
Proof.
  intros I Hn Ec Ep c'. destruct (record_fill_step n s j price quantity fee t I Hn) as [HI _]. split.
  { revert HI. cbn [oms_exec]. unfold mbind, st_bind. by destruct (record_fill _ _ _ _ _ s) as [[]]. }
  intros rep. unfold record_fill. rewrite Ec. destruct (check_fill c price quantity fee) as [x|e] eqn:EC; [|done].
  apply check_fill_spec in EC as (_ & _ & HQ).
  fold (filled_child c quantity t). fold c'. unfold refresh_parent, mbind, st_bind, notify_mutation.
  cbn [set_children push_report parents_ children_]. change (co_parent_id c') with (co_parent_id c). rewrite Ep.
  cbn [set_parents parents_ children_]. rewrite lookup_insert_eq. cbn. intros [= <-]. by split_and!.
Qed.

(** ** One child

    [s] is [s0] with the child [id] of [P] as [c] and its [fills]; the parent was
    [p0] before. *)
Record at_child (s0 : Oms) (P id : Z) (p0 : ParentOrder) (fills : list OmsExecutionReport)
    (c : ChildOrder) (s : Oms) : Prop := {
  ac_children : children_ s = <[id := c]> (children_ s0);
  ac_reports : execution_reports_ s = execution_reports_ s0 ++ fills;
  ac_owner : co_parent_id c = P;
  ac_parent : exists p, parents_ s = <[P := p]> (parents_ s0) /\ po_quantity p = po_quantity p0 /\
    po_child_ids p = po_child_ids p0 ++ [id] /\
    (terminal_status (co_status c) = false -> po_status p <> Cancelled)
}.

(** A parent with nothing left is not open. *)
Definition no_rest_open (p : ParentOrder) : Prop :=
  dle (po_remaining p) epsilon = true -> terminal_status (po_status p) = true.

(** The state after the parent has been refreshed. *)
Definition at_child_refreshed s0 P id p0 fills c s : Prop :=
  at_child s0 P id p0 fills c s /\ forall p, parents_ s !! P = Some p -> no_rest_open p.

Lemma refreshed_quantity cs t p : po_quantity (refreshed cs t p) = po_quantity p.
Proof. unfold refreshed. by case_bool_decide. Qed.

Lemma refreshed_open cs t p id c : po_status p <> Cancelled -> id ∈ po_child_ids p ->
  cs !! id = Some c -> terminal_status (co_status c) = false ->
  po_status (refreshed cs t p) <> Cancelled.
Proof.
  intros Hp Hid Hc Ht. unfold refreshed. rewrite bool_decide_eq_false_2 by done.
  cbn [parent_with po_status]. unfold refreshed_status.
  destruct (t_working (tally cs (po_child_ids p))) eqn:E; [by repeat case_if|].
  destruct (tally_spec cs (po_child_ids p)) as [_ HW]. rewrite (HW E id c Hid Hc) in Ht. done.
Qed.

Lemma refreshed_no_rest cs t p : po_status p <> Cancelled -> no_rest_open (refreshed cs t p).
Proof.
  intros Hp. unfold no_rest_open, refreshed. rewrite bool_decide_eq_false_2 by done.
  cbn [parent_with po_status po_remaining]. unfold refreshed_status. by intros ->.
Qed.

(** The child changes and the parent is refreshed. *)
Lemma at_child_change s0 P id p0 fills fills' c c' s s' t p : at_child s0 P id p0 fills c s ->
  terminal_status (co_status c) = false -> co_parent_id c' = P -> parents_ s !! P = Some p ->
  children_ s' = <[id := c']> (children_ s) ->
  parents_ s' = <[P := refreshed (<[id := c']> (children_ s)) t p]> (parents_ s) ->
  execution_reports_ s' = execution_reports_ s ++ fills' ->
  at_child_refreshed s0 P id p0 (fills ++ fills') c' s'.
Proof.
  intros [H1 H2 H3 (p1 & E1 & E2 & E3 & E4)] Hc Hc' Ep Ech Epa Er. rewrite E1, lookup_insert_eq in Ep.
  injection Ep as ->. rewrite H1, insert_insert_eq in Ech, Epa. rewrite E1, insert_insert_eq in Epa. split.
  - split; [done|by rewrite Er, H2, <- app_assoc|done|]. eexists. split; [exact Epa|].
    rewrite refreshed_quantity, refreshed_ids. split_and!; [done|done|]. intros Ho.
    apply (refreshed_open _ _ _ id c'); [by apply E4|rewrite E3; set_solver|by rewrite lookup_insert_eq|done].
  - rewrite Epa. intros p1. rewrite lookup_insert_eq. intros [= <-]. by apply refreshed_no_rest, E4.
Qed.

Lemma at_child_lookup s0 P id p0 fills c s : at_child s0 P id p0 fills c s ->
  children_ s !! id = Some c /\ exists p, parents_ s !! P = Some p.
Proof.
  intros [H1 _ _ (p & H2 & _)]. rewrite H1, H2, !lookup_insert_eq. eauto.
Qed.

(** A change of the status. *)
Lemma runs_child_status n s0 P id p0 fills c s f t : oms_inv n s ->
  (forall c, f c <> Filled) -> at_child s0 P id p0 fills c s -> terminal_status (co_status c) = false ->
  runs (n + 1) (set_child_status f id t) s (fun _ s' =>
    at_child_refreshed s0 P id p0 fills (child_with c (co_filled c) (co_remaining c) (f c) t) s').
Proof.
  intros I Hf Hc Ho. destruct (at_child_lookup _ _ _ _ _ _ _ Hc) as (E1 & p & E2).
  pose proof (ac_owner _ _ _ _ _ _ _ Hc) as HP. rewrite <- HP in E2.
  eapply runs_mono; [reflexivity|by eapply runs_set_status|]. intros b s' _ (F1 & F2 & F3).
  rewrite HP in *. rewrite <- (app_nil_r fills).
  eapply at_child_change; try done. by rewrite app_nil_r.
Qed.

(** A fill. *)
Lemma runs_child_fill n s0 P id p0 fills c s price quantity fee t : oms_inv n s -> n < 2 ^ 64 - 2 ->
  at_child s0 P id p0 fills c s -> terminal_status (co_status c) = false ->
  runs (n + 1) (record_fill id price quantity fee t) s (fun rep s' =>
    rep = fill_report s c price quantity fee t /\ dpositive quantity = true /\
    at_child_refreshed s0 P id p0 (fills ++ [fill_report s c price quantity fee t])
      (filled_child c quantity t) s').
Proof.
  intros I Hn Hc Ho. destruct (at_child_lookup _ _ _ _ _ _ _ Hc) as (E1 & p & E2).
  pose proof (ac_owner _ _ _ _ _ _ _ Hc) as HP. rewrite <- HP in E2.
  eapply runs_mono; [reflexivity|by eapply runs_record_fill|]. intros b s' _ (-> & F0 & F1 & F2 & F3).
  split; [done|]. split; [done|]. rewrite HP in *. by eapply at_child_change.
Qed.

(** What a child adds to the result, which the system has seen. *)
Record child_done (s0 : Oms) (P : Z) (p0 : ParentOrder) (r r' : LiveAlgoResult) (s : Oms)
    (fills : list OmsExecutionReport) (c : ChildOrder) : Prop := {
  cd_state : at_child_refreshed s0 P (next_child_id_ s0) p0 fills c s;
  cd_closed : terminal_status (co_status c) = true;
  cd_fills : fills = [] /\ co_filled c = dzero \/
    exists f, fills = [f] /\ xr_parent_id f = P /\ xr_quantity f = co_filled c;
  cd_filled : lr_filled r' = foldl dadd (lr_filled r) (xr_quantity <$> fills);
  cd_notional : lr_notional r' = foldl dadd (lr_notional r) (xr_notional <$> fills);
  cd_fees : lr_fees r' = foldl dadd (lr_fees r) (xr_fee <$> fills);
  cd_counts : (lr_accepted r' + lr_rejected r' = S (lr_accepted r + lr_rejected r))%nat;
  cd_parent : lr_parent_id r' = lr_parent_id r /\ lr_requested r' = lr_requested r
}.

Lemma rest_is_done x : isnan x = false -> dgt x epsilon = false -> dle (dmax dzero x) epsilon = true.
Proof.
  intros Hx H. unfold dmax. destruct (dlt dzero x); [|done]. by apply dlt_false_dle.
Qed.

(** The end of an executed child: what is left of it is cancelled. *)
Lemma runs_child_rest n s0 P id p0 fills c s rest t : oms_inv n s ->
  at_child_refreshed s0 P id p0 fills c s ->
  (dgt rest epsilon = false -> terminal_status (co_status c) = true) ->
  runs (n + 1) (if dgt rest epsilon then cancel_child id t else mret false) s (fun _ s' =>
    exists c', at_child_refreshed s0 P id p0 fills c' s' /\ terminal_status (co_status c') = true /\
      co_filled c' = co_filled c).
Proof.
  intros I Hc Hr. destruct (terminal_status (co_status c)) eqn:Ht.
  - destruct (at_child_lookup _ _ _ _ _ _ _ (proj1 Hc)) as (E1 & _).
    assert (runs n (cancel_child id t) s (fun _ s' => s' = s)) as HC by by eapply runs_set_status_closed.
    case_if.
    + eapply runs_mono; [|exact HC|]; [lia|]. intros b s' _ ->. eauto.
    + eapply runs_mono; [|apply (runs_ret n false s (fun _ s' => s' = s)); done|]; [lia|].
      intros b s' _ ->. eauto.
  - destruct (dgt rest epsilon); [|by specialize (Hr eq_refl)].
    eapply runs_mono; [reflexivity|by eapply runs_child_status; [done| |apply Hc|]|].
    intros b s' _ Hs'. eexists. split_and!; [exact Hs'|done|done].
Qed.

Lemma work_child_runs n s P t x r sl p0 cfg leg : oms_inv n s -> n + 4 < 2 ^ 64 - 2 ->
  parents_ s !! P = Some p0 -> isfinite (sc_fill_ratio cfg) = true -> child_of cfg leg x ->
  runs (n + 4) (work_child P t x (r, sl)) s (fun p' s' =>
    terminal_status (po_status p0) = false /\
    exists fills c, child_done s P p0 r p'.1 s' fills c).
Proof.
  intros I Hn Hp Hratio Hx. unfold work_child. set (req := {| crq_parent_id := P |}).
  apply (runs_bind (n + 1) (n + 4) _ _ _ _ _ ltac:(lia) (runs_create_child n s req I ltac:(lia))).
  intros id s1 I1 (p & Ep & (u & Echk) & -> & F1 & F2 & F3). cbn [req crq_parent_id] in Ep, F2.
  rewrite Hp in Ep. injection Ep as <-. apply check_child_spec in Echk as (Hopen & HQ & _).
  cbn [req crq_quantity] in HQ. set (id := next_child_id_ s) in *.
  assert (H1 : at_child s P id p0 [] (new_child id req) s1).
  { split; [done|by rewrite app_nil_r|done|]. eexists. split_and!; [exact F2|done|done|]. cbn. intros _.
    case_bool_decide; [done|]. by intros E; rewrite E in Hopen. }
  case_bool_decide as HR.
  - eapply (runs_bind (n + 2)); [lia|replace (n + 2) with (n + 1 + 1) by lia;
      by eapply runs_child_status|]. intros b s2 I2 H2.
    apply runs_ret; [by eapply oms_inv_mono, I2; lia|]. split; [done|]. exists []. eexists.
    split; [exact H2|done|by left|done|done|done|cbn; lia|done].
  - eapply (runs_bind (n + 2)); [lia|replace (n + 2) with (n + 1 + 1) by lia;
      eapply runs_child_status; [done| |exact H1|done]; intros c; by case_if|]. intros b s2 I2 H2.
    set (c1 := child_with _ _ _ _ _) in H2.
    destruct Hx as (latency & [-> | ->]); [done|]. set (x := executed_child cfg leg latency) in *.
    pose proof (executed_child_filled cfg leg latency Hratio HQ HR) as Hf. fold x in Hf.
    change (dgt (rx_filled x) epsilon = true) in Hf. rewrite Hf.
    eapply (runs_bind (n + 3)); [lia|eapply (runs_bind (n + 3)); [lia|
      replace (n + 3) with (n + 2 + 1) by lia; eapply runs_child_fill; [exact I2|lia|apply H2|done]|]|].
    + intros rep s3 I3 [_ H3]. apply (runs_ret _ _ _ (fun p' s' =>
        p' = (add_fill x (count_accepted r), add_slice_fill x (count_child sl)) /\
        dpositive (rx_filled x) = true /\
        at_child_refreshed s P id p0 [fill_report s2 c1 (rx_price x) (rx_filled x) (rx_fee x) t]
          (filled_child c1 (rx_filled x) t) s')); [done|].
      split; [done|exact H3].
    + intros p' s3 I3 (-> & Hpos & H3).
      eapply (runs_bind (n + 4)); [lia|replace (n + 4) with (n + 3 + 1) by lia;
        eapply runs_child_rest; [exact I3|exact H3|]|].
      * intros Hrest. cbn [c1 filled_child child_with co_status co_filled co_quantity new_child req].
        rewrite dadd_zero_l by done. rewrite rest_is_done; [done| |exact Hrest].
        apply dsub_number; [|by apply dpositive_inv in Hpos as (m & e & ->)].
        apply dpositive_inv in HQ as (m & e & HQ). change (isnan (rx_requested x) = false).
        by rewrite HQ.
      * intros b' s4 I4 (c' & H4 & Hc' & Hfc). apply runs_ret; [done|]. split; [done|].
        eexists _, c'. split; [exact H4|done| | | | | |done].
        -- right. eexists. split; [reflexivity|]. split; [done|]. rewrite Hfc. symmetry.
           exact (dadd_zero_l (rx_filled x) Hpos).
        -- done.
        -- cbn [fmap list_fmap foldl fill_report xr_notional]. by rewrite (dmul_comm (rx_price x)).
        -- done.
        -- cbn. lia.
Qed.

(** ** The loops *)

(** The result so far and the system agree: [s0] is the system before. *)
Record worked (s0 : Oms) (P : Z) (q : double) (r : LiveAlgoResult) (s : Oms) : Prop := {
  wk_parent : exists p, parents_ s !! P = Some p /\ po_quantity p = q /\
    children_filled (children_ s) (po_child_ids p) = lr_filled r /\
    length (po_child_ids p) = (lr_accepted r + lr_rejected r)%nat /\
    (po_child_ids p <> [] -> no_rest_open p) /\
    (forall id c, id ∈ po_child_ids p -> children_ s !! id = Some c ->
       terminal_status (co_status c) = true);
  wk_reports : exists fills, execution_reports_ s = execution_reports_ s0 ++ fills /\
    Forall (fun f => xr_parent_id f = P) fills /\
    lr_filled r = foldl dadd dzero (xr_quantity <$> fills) /\
    lr_notional r = foldl dadd dzero (xr_notional <$> fills) /\
    lr_fees r = foldl dadd dzero (xr_fee <$> fills);
  wk_parents : forall i, i <> P -> parents_ s !! i = parents_ s0 !! i;
  wk_children : forall j c, children_ s0 !! j = Some c -> children_ s !! j = Some c;
  wk_result : lr_parent_id r = P /\ lr_requested r = q
}.

Lemma children_filled_snoc (cs : gmap Z ChildOrder) ids id c : id ∉ ids ->
  children_filled (<[id := c]> cs) (ids ++ [id]) = dadd (children_filled cs ids) (co_filled c).
Proof.
  intros H. unfold children_filled at 1. rewrite foldl_app. cbn [foldl]. rewrite lookup_insert_eq.
  fold (children_filled (<[id := c]> cs) ids). f_equal. apply children_filled_ext.
  intros j Hj. rewrite lookup_insert_ne; [done|]. by intros <-.
Qed.

Lemma worked_child n s0 P q r s p0 r' s' fills c : oms_inv n s -> worked s0 P q r s ->
  parents_ s !! P = Some p0 -> child_done s P p0 r r' s' fills c -> worked s0 P q r' s'.
Proof.
  intros I [(p & E1 & E2 & E3 & E4 & E5 & E6) (old & R1 & R2 & R3 & R4 & R5) W3 W4 [W5 W6]] Ep
    [[[H1 H2 H3 (p' & F1 & F2 & F3 & F4)] Hrest] Hc Hf G1 G2 G3 Hn [K1 K2]].
  rewrite E1 in Ep. injection Ep as ->. pose proof (fresh_child n s I) as Hfresh.
  set (id := next_child_id_ s) in *.
  assert (Hid : id ∉ po_child_ids p0).
  { intros Hin. destruct (pk_children _ _ _ (oi_parents _ _ I _ _ E1) id Hin) as (d & Ed & _).
    congruence. }
  assert (Hnn : dnonneg (lr_filled r)).
  { rewrite <- E3. apply children_filled_nonneg. intros j d Ed. by eapply child_filled_nonneg. }
  split.
  - exists p'. rewrite F1, lookup_insert_eq, F2, F3, H1. split_and!; try done.
    + rewrite children_filled_snoc, E3 by done. rewrite G1.
      destruct Hf as [[-> ->]|(f & -> & _ & <-)]; [by apply dadd_zero_nonneg|done].
    + rewrite length_app. cbn. lia.
    + intros _. apply Hrest. by rewrite F1, lookup_insert_eq.
    + intros j d Hj. rewrite lookup_insert. case_decide as D; [by intros [= <-]|].
      apply elem_of_app in Hj as [Hj|Hj%list_elem_of_singleton]; [by apply E6|congruence].
  - exists (old ++ fills). rewrite H2, R1, <- app_assoc, !fmap_app, !foldl_app, <- R3, <- R4, <- R5.
    split_and!; try done. apply Forall_app. split; [done|].
    destruct Hf as [[-> _]|(f & -> & Hf & _)]; [constructor|by repeat constructor].
  - intros i Hi. rewrite F1, lookup_insert_ne by done. by apply W3.
  - intros j d Ed. apply W4 in Ed. rewrite H1, lookup_insert_ne; [done|]. congruence.
  - by rewrite K1, K2.
Qed.

Lemma worked_same s0 P q r r' s : worked s0 P q r s -> lr_filled r' = lr_filled r ->
  lr_notional r' = lr_notional r -> lr_fees r' = lr_fees r -> lr_accepted r' = lr_accepted r ->
  lr_rejected r' = lr_rejected r -> lr_parent_id r' = lr_parent_id r ->
  lr_requested r' = lr_requested r -> worked s0 P q r' s.
Proof.
  intros [H1 H2 H3 H4 H5] E1 E2 E3 E4 E5 E6 E7. split; rewrite ?E1, ?E2, ?E3, ?E4, ?E5, ?E6, ?E7; done.
Qed.

Lemma child_loop_runs s0 P q t cfg legs xs : isfinite (sc_fill_ratio cfg) = true ->
  Forall2 (child_of cfg) legs xs -> forall n s r sl, oms_inv n s ->
  n + 4 * Z.of_nat (length xs) < 2 ^ 64 - 2 -> worked s0 P q r s ->
  runs (n + 4 * Z.of_nat (length xs)) (child_loop P t xs (r, sl)) s (fun p' s' => worked s0 P q p'.1 s').
Proof.
  intros Hr. induction 1 as [|leg x legs xs Hx _ IH]; intros n s r sl I Hn W.
  { apply runs_ret; [by eapply oms_inv_mono, I; cbn; lia|done]. }
  cbn [child_loop length] in *. destruct (wk_parent _ _ _ _ _ W) as (p0 & Ep & _).
  eapply (runs_bind (n + 4)); [lia|eapply work_child_runs; try done; lia|].
  intros [r' sl'] s' I' (_ & fills & c & Hd).
  replace (n + 4 * Z.of_nat (S (length xs))) with (n + 4 + 4 * Z.of_nat (length xs)) by lia.
  apply IH; [done|lia|]. exact (worked_child n s0 P q r s p0 r' s' fills c I W Ep Hd).
Qed.

(** ** Slices *)

(** The levels that a provider's quotes show on the side of an order. *)
Definition level_count (side : RouteSide) (qs : list VenueQuote) : nat :=
  length (concat (quote_levels side <$> qs)).

Lemma quote_candidates_length side q k levels :
  (length (quote_candidates side q k levels) <= length levels)%nat.
Proof. revert k. induction levels as [|l levels IH]; intros k; cbn; [done|]. specialize (IH (S k)). case_if; cbn; lia. Qed.

Lemma candidates_length r qs : (length (candidates r qs) <= level_count (rr_side r) qs)%nat.
Proof.
  unfold candidates, level_count. induction qs as [|q qs IH]; [done|].
  rewrite !fmap_cons. cbn [concat]. rewrite !length_app.
  pose proof (quote_candidates_length (rr_side r) q 0 (quote_levels (rr_side r) q)).
  case_if; cbn; lia.
Qed.

Lemma plan_length r qs p : 0 <= rr_max_venue_count r -> build_route_plan r qs = Ok p ->
  (length (pl_legs p) <= level_count (rr_side r) qs)%nat.
Proof.
  intros Hm Hp. destruct (build_route_plan_ok r qs p Hm Hp) as ([(cs & HS & HF)] & _).
  apply Forall2_length in HF. apply sublist_length in HS. unfold sorted_candidates in HS.
  rewrite merge_sort_Permutation in HS. pose proof (candidates_length r qs). lia.
Qed.

(** The remaining quantity at the end of a slice. *)
Definition settled (q : double) (r : LiveAlgoResult) : Prop := lr_remaining r = remainder q (lr_filled r).

Section execution.
Context (q : LiveAlgoRequest) (quotes : LiveQuoteProvider) (t : Z) (levels : nat).
Context (Hlevels : forall k qs, quotes k = Ok qs -> (level_count (la_side q) qs <= levels)%nat).
Context (Hvenues : 0 <= la_max_venue_count q).

Lemma work_slice_runs n s0 P index quantity qs r s : oms_inv n s ->
  (level_count (la_side q) qs <= levels)%nat -> n + 4 * Z.of_nat levels < 2 ^ 64 - 2 ->
  worked s0 P (la_quantity q) r s -> settled (la_quantity q) r ->
  runs (n + 4 * Z.of_nat levels) (work_slice q P t index quantity qs r) s
    (fun r' s' => worked s0 P (la_quantity q) r' s' /\ settled (la_quantity q) r').
Proof using Hvenues.
  intros I Hl Hn W HS. assert (I' : oms_inv (n + 4 * Z.of_nat levels) s) by (eapply oms_inv_mono, I; lia).
  assert (Hend : forall sl, worked s0 P (la_quantity q) (end_slice (la_quantity q) sl false r) s /\
    settled (la_quantity q) (end_slice (la_quantity q) sl false r)).
  { intros sl. split; [by eapply worked_same|done]. }
  unfold work_slice. destruct qs as [|q0 qs]; [by apply runs_ret|].
  eapply (runs_bind n); [lia|by apply runs_lift|]. intros plan s1 _ [Hplan ->].
  assert (Hlegs : (length (pl_legs plan) <= levels)%nat).
  { pose proof (plan_length (route_request q quantity) (q0 :: qs) plan Hvenues Hplan). cbn in *. lia. }
  destruct (pl_legs plan) as [|leg legs] eqn:Elegs; [by apply runs_ret|].
  eapply (runs_bind n); [lia|by apply runs_lift|]. intros x s1 _ [Hx ->].
  destruct (simulate_children plan (la_simulation q) x Hx) as [Hr HF]. rewrite Elegs in HF.
  pose proof (Forall2_length _ _ _ HF) as HLen. cbn [length] in HLen, Hlegs.
  eapply (runs_bind (n + 4 * Z.of_nat (length (rs_children x)))); [lia| |].
  - eapply child_loop_runs; [exact Hr|exact HF|done|lia|exact W].
  - intros [r' sl'] s' I2 W'. apply runs_ret; [by eapply oms_inv_mono, I2; lia|].
    split; [by eapply worked_same|done].
Qed.

Lemma slice_loop_runs s0 P slices : forall n index calls r s, oms_inv n s ->
  n + 4 * Z.of_nat levels * Z.of_nat (length slices) < 2 ^ 64 - 2 ->
  worked s0 P (la_quantity q) r s -> settled (la_quantity q) r ->
  runs (n + 4 * Z.of_nat levels * Z.of_nat (length slices))
    (slice_loop q quotes P t slices index calls r) s
    (fun r' s' => worked s0 P (la_quantity q) r' s' /\ settled (la_quantity q) r').
Proof using Hvenues Hlevels.
  induction slices as [|sl slices IH]; intros n index calls r s I Hn W HS.
  { apply runs_ret; [by eapply oms_inv_mono, I; cbn; lia|done]. }
  cbn [slice_loop length] in *. set (m := n + _).
  assert (Hm : m = n + 4 * Z.of_nat levels + 4 * Z.of_nat levels * Z.of_nat (length slices)) by (unfold m; lia).
  case_if; [apply runs_ret; [by eapply oms_inv_mono, I; lia|done]|].
  case_if; [eapply runs_mono; [|apply IH; [exact I|lia|done|done]|done]; lia|].
  eapply (runs_bind n); [lia|by apply runs_lift|]. intros qs s1 _ [Hqs ->].
  eapply (runs_bind (n + 4 * Z.of_nat levels)); [lia|apply work_slice_runs; try done|].
  - by eapply Hlevels.
  - lia.
  - intros r' s' I' [W' HS']. rewrite Hm. apply IH; try done. lia.
Qed.

End execution.

(** ** The parent *)

Lemma runs_create_parent n s r t : oms_inv n s -> n < 2 ^ 64 - 2 ->
  runs (n + 1) (create_parent r t) s (fun id s' => parents_ s !! id = None /\
    children_ s' = children_ s /\ execution_reports_ s' = execution_reports_ s /\
    exists p, parents_ s' = <[id := p]> (parents_ s) /\ po_quantity p = prq_quantity r /\
      po_child_ids p = [] /\ dpositive (prq_quantity r) = true).
Proof.
  intros I Hn. destruct (create_parent_step n s r t I Hn) as [HI _]. split.
  { revert HI. cbn [oms_exec]. unfold mbind, st_bind. by destruct (create_parent r t s) as [[]]. }
  intros id. unfold create_parent. case_bool_decide; [done|]. rewrite validate_positive_spec.
  destruct (dpositive (prq_quantity r)) eqn:HQ; [|done].
  rewrite emplace_fresh by exact (fresh_parent n s I). unfold mbind, st_bind, notify_mutation.
  cbn [set_parents set_next parents_]. rewrite lookup_insert_eq. cbn. intros [= <-].
  split_and!; [by eapply fresh_parent|done|done|]. eexists. by split_and!.
Qed.

Lemma cancel_open_closed t (cs : gmap Z ChildOrder) ids :
  (forall id c, id ∈ ids -> cs !! id = Some c -> terminal_status (co_status c) = true) ->
  foldl (cancel_open t) cs ids = cs.
Proof.
  induction ids as [|id ids IH]; intros H; [done|]. cbn [foldl]. unfold cancel_open at 2.
  assert (IH' : foldl (cancel_open t) cs ids = cs) by (apply IH; set_solver).
  destruct (cs !! id) as [c|] eqn:E; [|done]. by rewrite (H id c ltac:(set_solver) E).
Qed.

(** Cancelling a parent whose children are closed. *)
Lemma runs_cancel_parent n s i t p : oms_inv n s -> parents_ s !! i = Some p ->
  (forall id c, id ∈ po_child_ids p -> children_ s !! id = Some c -> terminal_status (co_status c) = true) ->
  runs (n + 1) (cancel_parent i t) s (fun _ s' =>
    children_ s' = children_ s /\ execution_reports_ s' = execution_reports_ s /\
    exists p', parents_ s' = <[i := p']> (parents_ s) /\ terminal_status (po_status p') = true /\
      po_quantity p' = po_quantity p /\ po_filled p' = po_filled p /\ po_child_ids p' = po_child_ids p).
Proof.
  intros I Ep Hc. split; [by apply cancel_parent_step|]. intros b. unfold cancel_parent. rewrite Ep.
  destruct (terminal_status (po_status p)) eqn:Ht; cbn; intros _.
  - split_and!; try done. exists p. by rewrite insert_id.
  - rewrite cancel_open_closed by done. split_and!; try done. eexists. by split_and!.
Qed.

(** The remaining quantity of the parent, in terms of the result. *)
Lemma remainder_clamped q f : isfinite q = true ->
  remainder q (dmin q f) = (if dlt f q then remainder q f else dzero).
Proof.
  intros Hq. unfold dmin. destruct (dlt f q); [done|]. unfold remainder. by rewrite dsub_diag.
Qed.

(** What holds at the end. *)
Record executed (s : Oms) (q : LiveAlgoRequest) (r : LiveAlgoResult) (s' : Oms) : Prop := {
  ex_complete : lr_complete r = dle (lr_remaining r) epsilon;
  ex_remaining : lr_remaining r = remainder (la_quantity q) (lr_filled r);
  ex_new : find_parent (lr_parent_id r) s = None;
  ex_parent : exists p, find_parent (lr_parent_id r) s' = Some p /\
    po_quantity p = la_quantity q /\ po_filled p = dmin (la_quantity q) (lr_filled r) /\
    (dlt (lr_filled r) (la_quantity q) = true -> po_remaining p = lr_remaining r) /\
    (dle (la_quantity q) epsilon = false -> terminal_status (po_status p) = true);
  ex_children : forall c, c ∈ children_for_parent (lr_parent_id r) s' ->
    terminal_status (co_status c) = true;
  ex_counts : length (children_for_parent (lr_parent_id r) s') = (lr_accepted r + lr_rejected r)%nat;
  ex_fills : let fills := fills_for_parent (lr_parent_id r) s' in
    execution_reports_ s' = execution_reports_ s ++ fills /\
    lr_filled r = foldl dadd dzero (xr_quantity <$> fills) /\
    lr_notional r = foldl dadd dzero (xr_notional <$> fills) /\
    lr_fees r = foldl dadd dzero (xr_fee <$> fills);
  ex_others : (forall i, i <> lr_parent_id r -> find_parent i s' = find_parent i s) /\
    (forall j c, find_child j s = Some c -> find_child j s' = Some c)
}.

Lemma worked_start n s P s' p quantity : oms_inv n s -> parents_ s !! P = None ->
  children_ s' = children_ s -> execution_reports_ s' = execution_reports_ s ->
  parents_ s' = <[P := p]> (parents_ s) -> po_quantity p = quantity -> po_child_ids p = [] ->
  worked s P quantity (new_result P quantity) s'.
Proof.
  intros I HP Hc Hr Hp Hq Hids. split.
  - exists p. rewrite Hp, lookup_insert_eq, Hids. split_and!; try done. intros id c ?%elem_of_nil. done.
  - exists []. by rewrite app_nil_r.
  - intros i Hi. by rewrite Hp, lookup_insert_ne.
  - intros j c. by rewrite Hc.
  - done.
Qed.

(** The reports of a new parent are those that came with it. *)
Lemma new_reports n s s' P fills : oms_inv n s -> parents_ s !! P = None ->
  execution_reports_ s' = execution_reports_ s ++ fills -> Forall (fun f => xr_parent_id f = P) fills ->
  fills_for_parent P s' = fills.
Proof.
  intros I HP Hr HF. unfold fills_for_parent. rewrite Hr, filter_app, filter_none, filter_all; [done|done|].
  apply Forall_lookup. intros k f Hk Hf. apply (oi_reports _ _ I) in Hk as (_ & _ & _ & c & Hc & Ho & _).
  apply (oi_children _ _ I) in Hc as [_ (p & Hp & _) _ _ _ _]. congruence.
Qed.

Lemma children_list_closed s P p : find_parent P s = Some p ->
  (forall id c, id ∈ po_child_ids p -> children_ s !! id = Some c -> terminal_status (co_status c) = true) ->
  forall c, c ∈ children_for_parent P s -> terminal_status (co_status c) = true.
Proof.
  unfold find_parent, children_for_parent. intros -> H c (id & Hid & Hc)%list_elem_of_omap. by eapply H.
Qed.

Lemma children_list_length n s P p : oms_inv n s -> find_parent P s = Some p ->
  length (children_for_parent P s) = length (po_child_ids p).
Proof.
  unfold find_parent, children_for_parent. intros I Hp. rewrite Hp.
  pose proof (pk_children _ _ _ (oi_parents _ _ I _ _ Hp)) as Hc. clear Hp.
  induction (po_child_ids p) as [|id ids IH]; [done|]. cbn [omap list_omap].
  destruct (Hc id ltac:(left)) as (c & -> & _). cbn [length]. f_equal. apply IH. set_solver.
Qed.

(** The end of an execution, complete or with the parent cancelled. *)
Lemma executed_end n s q P r s' : oms_inv n s -> oms_inv n s' -> parents_ s !! P = None ->
  dpositive (la_quantity q) = true ->
  worked s P (la_quantity q) r s' -> settled (la_quantity q) r ->
  lr_complete r = dle (lr_remaining r) epsilon ->
  (lr_complete r = false -> exists p, parents_ s' !! P = Some p /\ terminal_status (po_status p) = true) ->
  executed s q r s'.
Proof.
  intros I I' HP HQ [(p & Ep & E2 & E3 & E4 & E5 & E6) (fills & R1 & R2 & R3 & R4 & R5) W3 W4 [W5 W6]] HS HC HT.
  assert (Hfin : isfinite (la_quantity q) = true) by (by apply dpositive_inv in HQ as (m & e & ->)).
  pose proof (oi_parents _ _ I' _ _ Ep) as [_ _ _ _ Hf Hr _ _]. rewrite E2, E3 in Hf. rewrite E2, Hf in Hr.
  rewrite remainder_clamped in Hr by done. pose proof (new_reports n s s' P fills I HP R1 R2) as HN.
  split; rewrite ?W5; try done.
  - exists p. split_and!; try done.
    + intros Hlt. by rewrite Hr, Hlt, HS.
    + intros Htiny. destruct (lr_complete r) eqn:Ec.
      2: { destruct (HT eq_refl) as (p' & Ep' & ?). congruence. }
      destruct (decide (po_child_ids p = [])) as [Hnil|Hne].
      * rewrite Hnil in E3. cbn in E3. rewrite HS, <- E3, remainder_zero in HC by done. congruence.
      * apply E5; [done|]. rewrite Hr. destruct (dlt (lr_filled r) (la_quantity q)); [|done]. by rewrite <- HS.
  - by apply (children_list_closed s' P p).
  - rewrite <- E4. by eapply children_list_length.
  - rewrite HN. by split_and!.
Qed.

(** Cancelling the parent changes nothing else. *)
Lemma worked_cancelled s0 P q r s s' p p' : worked s0 P q r s -> parents_ s !! P = Some p ->
  children_ s' = children_ s -> execution_reports_ s' = execution_reports_ s ->
  parents_ s' = <[P := p']> (parents_ s) -> terminal_status (po_status p') = true ->
  po_quantity p' = po_quantity p -> po_child_ids p' = po_child_ids p -> worked s0 P q r s'.
Proof.
  intros [(p1 & E1 & E2 & E3 & E4 & E5 & E6) W2 W3 W4 W5] Ep Hc Hr Hp Ht Hq Hi.
  rewrite E1 in Ep. injection Ep as ->. split; rewrite ?Hc, ?Hr; try done.
  - exists p'. rewrite Hp, lookup_insert_eq, Hq, Hi. split_and!; try done. by intros _ _.
  - intros i Hne. by rewrite Hp, lookup_insert_ne, W3.
Qed.

Lemma finish_runs n n0 s0 P t q r s : oms_inv n0 s0 -> n0 <= n -> oms_inv n s -> parents_ s0 !! P = None ->
  dpositive (la_quantity q) = true -> worked s0 P (la_quantity q) r s -> settled (la_quantity q) r ->
  let r := finish_result r in
  runs (n + 1) (_ ← (if negb (lr_complete r) then cancel_parent P t else mret false); mret r) s
    (fun r' s' => executed s0 q r' s').
Proof.
  intros I0 Hn I HP HQ W HS r'. assert (W' : worked s0 P (la_quantity q) r' s) by by eapply worked_same.
  assert (HS' : settled (la_quantity q) r') by done.
  assert (I0' : oms_inv (n + 1) s0) by (eapply oms_inv_mono, I0; lia).
  destruct (lr_complete r') eqn:Ec; cbn [negb].
  - eapply (runs_bind n); [lia|apply (runs_ret n false s (fun _ s' => s' = s)); done|].
    intros b s' _ ->. assert (I1 : oms_inv (n + 1) s) by (eapply oms_inv_mono, I; lia).
    apply runs_ret; [done|]. apply (executed_end (n + 1) s0 q P); try done. by rewrite Ec.
  - destruct (wk_parent _ _ _ _ _ W') as (p & Ep & _ & _ & _ & _ & Hcl).
    eapply (runs_bind (n + 1)); [lia|by eapply runs_cancel_parent|].
    intros b s' I1 (F1 & F2 & p' & F3 & F4 & F5 & F6 & F7). apply runs_ret; [done|].
    apply (executed_end (n + 1) s0 q P); try done; [by eapply worked_cancelled|].
    intros _. exists p'. by rewrite F3, lookup_insert_eq.
Qed.

Lemma execute_runs n s q quotes t levels : oms_inv n s ->
  (forall k qs, quotes k = Ok qs -> (level_count (la_side q) qs <= levels)%nat) ->
  0 <= la_max_venue_count q ->
  (forall slices, check_live_request q = Ok slices ->
     n + 4 * Z.of_nat levels * Z.of_nat (length slices) + 2 < 2 ^ 64 - 2) ->
  exists m, runs m (execute_live_algorithm q quotes t) s (fun r s' => executed s q r s').
Proof.
  intros I HL HV HN. unfold execute_live_algorithm. destruct (check_live_request q) as [slices|e] eqn:EC.
  2: { exists n. eapply (runs_bind n); [lia|by apply runs_lift|]. by intros a s' _ [? _]. }
  specialize (HN slices eq_refl). set (k := 4 * Z.of_nat levels * Z.of_nat (length slices)) in *.
  assert (Hk : 0 <= k) by (unfold k; lia).
  exists (n + 1 + k + 1). eapply (runs_bind n); [lia|by apply runs_lift|]. intros sl s1 _ [[= <-] ->].
  eapply (runs_bind (n + 1)); [lia|apply runs_create_parent; [done|lia]|].
  intros P s1 I1 (HP & H1 & H2 & p & H3 & H4 & H5 & HQ). cbn [prq_quantity] in *.
  eapply (runs_bind (n + 1 + k)); [lia|apply (slice_loop_runs q quotes t levels HL HV s P);
    [done|fold k; lia| |]|].
  - by eapply worked_start.
  - unfold settled. cbn [new_result lr_remaining lr_filled]. by rewrite remainder_zero.
  - intros r s' I' [W HS]. eapply finish_runs; try done. lia.
Qed.

(** C22: a live execution and the books of the order management system agree.
    From a system that any commands built, whether the execution returns or
    throws, the system stays in order.  When it returns: the parent is new;
    filled quantity, notional and fees of the result are the sums, in doubles
    and in order, over the execution reports of the parent, and no other report
    was added; filled and remaining quantity of the parent are those of the
    result unless it is overfilled; the children are as many as were accepted
    and rejected and none is open; the parent is closed too unless its quantity
    is below the tolerance; other parents and children are as before. *)
Theorem live_execution_matches_books cs q quotes t levels res s' : let s := run cs in
  (forall k qs, quotes k = Ok qs -> (level_count (la_side q) qs <= levels)%nat) ->
  0 <= la_max_venue_count q ->
  (forall slices, check_live_request q = Ok slices ->
     Z.of_nat (length cs) + 4 * Z.of_nat levels * Z.of_nat (length slices) + 2 < 2 ^ 64 - 2) ->
  Z.of_nat (length cs) < 2 ^ 64 - 1 ->
  execute_live_algorithm q quotes t s = (res, s') ->
  (exists m, oms_inv m s') /\ (forall r, res = Ok r -> executed s q r s').
Proof.
  intros s HL HV HN Hcs E.
  destruct (execute_runs (Z.of_nat (length cs)) s q quotes t levels (run_inv cs Hcs) HL HV HN) as (m & H1 & H2).
  rewrite E in H1, H2. split; [by exists m|]. exact H2.
Qed.

(** ** Examples *)

Definition demo_simulation (ratio rejection : double) (seed : Z) : ExecutionSimulationConfig := {|
  sc_fill_ratio := ratio; sc_rejection_probability := rejection; sc_base_latency_ms := dzero;
  sc_latency_jitter_ms := dzero; sc_seed := seed |}.

Definition demo_live (quantity : double) (simulation : ExecutionSimulationConfig) : LiveAlgoRequest := {|
  la_symbol := "S"; la_side := RouteBuy; la_quantity := quantity;
  la_schedule := {| sr_algorithm := TWAP; sr_quantity := dzero; sr_slices := 2;
    sr_duration_seconds := dbl 10; sr_volume_profile := [];
    sr_participation_rate := ddiv (dbl 1) (dbl 10); sr_displayed_quantity := dzero |};
  la_limit_price := dzero; la_max_slippage_bps := dbl 10000; la_max_venue_count := 100;
  la_all_or_none := false; la_simulation := simulation |}.

(** Half of every leg is filled. *)
Definition demo_half : LiveAlgoRequest := demo_live (dbl 8) (demo_simulation (ddiv (dbl 1) (dbl 2)) dzero 1).

Definition execution_of (q : LiveAlgoRequest) (qs : list VenueQuote) : result LiveAlgoResult * Oms :=
  execute_live_algorithm q (fun _ => Ok qs) 1 (run []).

Lemma live_execution_matches_books_witness :
  exists r, (execution_of demo_half demo_quotes).1 = Ok r /\ lr_filled r = dbl 4 /\
    executed (run []) demo_half r (execution_of demo_half demo_quotes).2.
Proof.
  destruct (execution_of demo_half demo_quotes) as [res s'] eqn:E.
  destruct (live_execution_matches_books [] demo_half (fun _ => Ok demo_quotes) 1 10 res s') as [_ H].
  - intros k qs. intros [= <-]. vm_compute. lia.
  - done.
  - intros slices Hs. assert (El : (length slices <= 2)%nat); [|cbn [length]; lia].
    assert (Hc : Ok (length slices) = Ok 2%nat).
    { transitivity (x ← check_live_request demo_half; Ok (length x)); [by rewrite Hs|vm_compute; reflexivity]. }
    injection Hc as ->. lia.
  - done.
  - exact E.
  - assert (Hr : (x ← (execution_of demo_half demo_quotes).1; Ok (lr_filled x)) = Ok (dbl 4))
      by (vm_compute; reflexivity).
    rewrite E in Hr. cbn [fst] in Hr. destruct res as [r|e]; [|discriminate Hr].
    exists r. split; [reflexivity|]. split; [by injection Hr|]. by apply H.
Defined.

(** A rejected first child makes the parent Rejected, which is final: the next
    child cannot be created and the execution throws, although the other levels
    would fill the order. *)
Example rejected_child_ends_execution :
  (execution_of (demo_live (dbl 8) (demo_simulation (dbl 1) (ddiv (dbl 1) (dbl 2)) 5)) demo_quotes).1 =
  Throw (logic_error "cannot create child for terminal parent").
Proof. vm_compute. reflexivity. Qed.

(** The tolerance is absolute: for 20000 units over levels of 6.1, 64.1 and more,
    the router's rest after two levels and the remaining quantity of the parent
    are rounded differently, and the third child is refused. *)
Definition rounding_quotes : list VenueQuote :=
  [{| vq_venue := "A"; vq_bids := [];
      vq_asks := [{| vl_price := dbl 100; vl_quantity := ddiv (dbl 61) (dbl 10) |};
        {| vl_price := dbl 101; vl_quantity := ddiv (dbl 641) (dbl 10) |};
        {| vl_price := dbl 102; vl_quantity := dbl 100000 |}];
      vq_taker_fee_bps := dzero; vq_latency_ms := dzero; vq_latency_cost_bps_per_ms := dzero;
      vq_healthy := true |}].

Definition demo_market : LiveAlgoRequest :=
  let q := demo_live (dbl 20000) (demo_simulation (dbl 1) dzero 1) in {|
  la_symbol := la_symbol q; la_side := la_side q; la_quantity := la_quantity q;
  la_schedule := {| sr_algorithm := AlgoMarket; sr_quantity := dzero; sr_slices := 1;
    sr_duration_seconds := dzero; sr_volume_profile := [];
    sr_participation_rate := ddiv (dbl 1) (dbl 10); sr_displayed_quantity := dzero |};
  la_limit_price := la_limit_price q; la_max_slippage_bps := la_max_slippage_bps q;
  la_max_venue_count := la_max_venue_count q; la_all_or_none := la_all_or_none q;
  la_simulation := la_simulation q |}.

Example tolerance_refuses_child :
  (execution_of demo_market rounding_quotes).1 =
  Throw (invalid_argument "child quantity exceeds parent remainder").
Proof. vm_compute. reflexivity. Qed.
