(* ===== verification/AlgoScheduler.v ===== *)
(** * The algorithm scheduler ([algo_scheduler.hpp], [algo_scheduler.cpp])

    Each submitted order is a job with a thread of its own that works the slices
    of its schedule at their times, can be cancelled, and reports its state to a
    callback, which saves it.  A job is modelled as the sequence of its own
    steps; what it reads from outside (clock, cancellation flag, quotes) is given
    reading by reading. *)

From S2P Require Import Prelude.
From S2P Require Import Float.
From S2P Require Import Arithmetic.
From S2P Require Import Oms.
From S2P Require Import Router.
From S2P Require Import Schedule.
From S2P Require Import ExecutionEngine.
From S2P Require Import LiveAlgo.

Inductive AlgoOrderStatus := AlgoRunning | AlgoCompleted | AlgoCancelled | AlgoFailed.

#[export] Instance AlgoOrderStatus_eq_dec : EqDecision AlgoOrderStatus.
Proof. solve_decision. Defined.

Definition algo_status_to_string (s : AlgoOrderStatus) : string :=
  match s with
  | AlgoRunning => "RUNNING" | AlgoCompleted => "COMPLETED" | AlgoCancelled => "CANCELLED"
  | AlgoFailed => "FAILED"
  end.

Record AlgoOrderState := {
  as_parent_id : Z; as_status : AlgoOrderStatus; as_symbol : string;
  as_algorithm : ExecutionAlgorithm; as_current_slice : nat; as_total_slices : nat;
  as_started : Z; as_next_slice : Z; as_completed : Z;
  as_requested : double; as_filled : double; as_remaining : double; as_arrival_price : double;
  as_recovered : bool; as_recovery_count : Z; as_last_recovered : Z; as_error : string
}.

(** A job without its thread and flag; the request is the default one for a job
    of the history. *)
Record Job := { jb_state : AlgoOrderState; jb_request : option LiveAlgoRequest }.

(** What the callers of the scheduler see: its jobs, the calls of the state
    callback, the jobs whose threads were started, and the jobs whose
    cancellation was requested. *)
Record Scheduler := {
  sd_oms : Oms; sd_jobs : gmap Z Job; sd_callback : bool; sd_saved : list AlgoOrderState;
  sd_started : list Z; sd_cancel_requested : gset Z
}.

Definition new_scheduler (oms : Oms) : Scheduler := {|
  sd_oms := oms; sd_jobs := ∅; sd_callback := false; sd_saved := []; sd_started := [];
  sd_cancel_requested := ∅ |}.

(** The fields of the state that a running job changes. *)
Definition algo_with (s : AlgoOrderState) (status : AlgoOrderStatus) (current : nat)
    (next_slice completed : Z) (filled remaining : double) (error : string) : AlgoOrderState := {|
  as_parent_id := as_parent_id s; as_status := status; as_symbol := as_symbol s;
  as_algorithm := as_algorithm s; as_current_slice := current; as_total_slices := as_total_slices s;
  as_started := as_started s; as_next_slice := next_slice; as_completed := completed;
  as_requested := as_requested s; as_filled := filled; as_remaining := remaining;
  as_arrival_price := as_arrival_price s; as_recovered := as_recovered s;
  as_recovery_count := as_recovery_count s; as_last_recovered := as_last_recovered s;
  as_error := error |}.

Definition with_next_slice (next : Z) (s : AlgoOrderState) : AlgoOrderState :=
  algo_with s (as_status s) (as_current_slice s) next (as_completed s) (as_filled s) (as_remaining s)
    (as_error s).

(** ** Submission *)

(** The best prices over the quotes, and the middle of them. *)
Definition better_quote (best : double * double) (q : VenueQuote) : double * double :=
  match vq_healthy q, vq_bids q, vq_asks q with
  | true, bid :: _, ask :: _ =>
      (if deq best.1 dzero || dgt (vl_price bid) best.1 then vl_price bid else best.1,
       if deq best.2 dzero || dlt (vl_price ask) best.2 then vl_price ask else best.2)
  | _, _, _ => best
  end.

Definition arrival_price (qs : list VenueQuote) : double :=
  let best := foldl better_quote (dzero, dzero) qs in
  if dgt best.1 dzero && dgt best.2 dzero then ddiv (dadd best.1 best.2) (dbl 2) else dzero.

(** The schedule of a request. *)
Definition job_schedule (r : LiveAlgoRequest) : result (list (Slice double)) :=
  build_execution_schedule (with_quantity (la_quantity r) (la_schedule r)).

Definition check_submit (r : LiveAlgoRequest) : result (list (Slice double)) :=
  _ ← guard_or (negb (bool_decide (la_symbol r = ""))) (invalid_argument "algo symbol cannot be empty");
  _ ← guard_or (isfinite (la_quantity r) && negb (dle (la_quantity r) dzero))
        (invalid_argument "algo quantity must be positive");
  schedule ← job_schedule r;
  _ ← guard_or (negb (length schedule =? 0)%nat) (invalid_argument "algo schedule cannot be empty");
  Ok schedule.

Definition new_state (r : LiveAlgoRequest) (id : Z) (total : nat) (now : Z) (arrival : double)
    : AlgoOrderState := {|
  as_parent_id := id; as_status := AlgoRunning; as_symbol := la_symbol r;
  as_algorithm := sr_algorithm (la_schedule r); as_current_slice := 0; as_total_slices := total;
  as_started := now; as_next_slice := 0; as_completed := 0; as_requested := la_quantity r;
  as_filled := dzero; as_remaining := la_quantity r; as_arrival_price := arrival;
  as_recovered := false; as_recovery_count := 0; as_last_recovered := 0; as_error := "" |}.

(** Calling the state callback, when there is one. *)
Definition saved_after (callback : bool) (saved : list AlgoOrderState) (s : AlgoOrderState)
    : list AlgoOrderState := if callback then saved ++ [s] else saved.

Definition submit (r : LiveAlgoRequest) (now : Z) (quotes : result (list VenueQuote))
    : ST Scheduler Z := fun sd =>
  match check_submit r, quotes with
  | Throw e, _ => (Throw e, sd)
  | Ok _, Throw e => (Throw e, sd)
  | Ok schedule, Ok qs =>
      let arrival := arrival_price qs in
      let (res, oms) := create_parent {| prq_symbol := la_symbol r; prq_side := la_side r;
          prq_quantity := la_quantity r; prq_algorithm := sr_algorithm (la_schedule r) |} now (sd_oms sd) in
      match res with
      | Throw e => (Throw e, {| sd_oms := oms; sd_jobs := sd_jobs sd; sd_callback := sd_callback sd;
                                sd_saved := sd_saved sd; sd_started := sd_started sd;
                                sd_cancel_requested := sd_cancel_requested sd |})
      | Ok id =>
          let job := {| jb_state := new_state r id (length schedule) now arrival; jb_request := Some r |} in
          (Ok id, {| sd_oms := oms; sd_jobs := emplace id job (sd_jobs sd);
                     sd_callback := sd_callback sd;
                     sd_saved := saved_after (sd_callback sd) (sd_saved sd) (jb_state job);
                     sd_started := sd_started sd ++ [id];
                     sd_cancel_requested := sd_cancel_requested sd |})
      end
  end.

(** ** The thread of a job

    What a job reads, in the order of its readings: the clock, the cancellation
    flag and the quotes; and how often it polls the flag while it waits. *)
Record Environment := {
  en_clock : nat -> Z;
  en_cancelled : nat -> bool;
  en_quotes : nat -> result (list VenueQuote);
  en_polls : nat -> nat
}.

Record Run := {
  rn_oms : Oms; rn_state : AlgoOrderState; rn_callback : bool; rn_saved : list AlgoOrderState;
  rn_clock : nat; rn_flag : nat; rn_quotes : nat; rn_waits : nat
}.

Definition set_state (f : AlgoOrderState -> AlgoOrderState) : ST Run unit := fun s =>
  (Ok tt, {| rn_oms := rn_oms s; rn_state := f (rn_state s); rn_callback := rn_callback s;
             rn_saved := rn_saved s; rn_clock := rn_clock s; rn_flag := rn_flag s;
             rn_quotes := rn_quotes s; rn_waits := rn_waits s |}).

(** [if (state_callback_) state_callback_(job->state)] *)
Definition save : ST Run unit := fun s =>
  (Ok tt, {| rn_oms := rn_oms s; rn_state := rn_state s; rn_callback := rn_callback s;
             rn_saved := saved_after (rn_callback s) (rn_saved s) (rn_state s);
             rn_clock := rn_clock s; rn_flag := rn_flag s; rn_quotes := rn_quotes s;
             rn_waits := rn_waits s |}).

Definition on_oms {A} (m : ST Oms A) : ST Run A := fun s =>
  let (r, oms) := m (rn_oms s) in
  (r, {| rn_oms := oms; rn_state := rn_state s; rn_callback := rn_callback s; rn_saved := rn_saved s;
         rn_clock := rn_clock s; rn_flag := rn_flag s; rn_quotes := rn_quotes s;
         rn_waits := rn_waits s |}).

Section job.
Context (env : Environment) (request : LiveAlgoRequest).

Definition timestamp : ST Run Z := fun s =>
  (Ok (en_clock env (rn_clock s)),
   {| rn_oms := rn_oms s; rn_state := rn_state s; rn_callback := rn_callback s; rn_saved := rn_saved s;
      rn_clock := S (rn_clock s); rn_flag := rn_flag s; rn_quotes := rn_quotes s;
      rn_waits := rn_waits s |}).

Definition cancelled : ST Run bool := fun s =>
  (Ok (en_cancelled env (rn_flag s)),
   {| rn_oms := rn_oms s; rn_state := rn_state s; rn_callback := rn_callback s; rn_saved := rn_saved s;
      rn_clock := rn_clock s; rn_flag := S (rn_flag s); rn_quotes := rn_quotes s;
      rn_waits := rn_waits s |}).

Definition ask_quotes : ST Run (list VenueQuote) := fun s =>
  (en_quotes env (rn_quotes s),
   {| rn_oms := rn_oms s; rn_state := rn_state s; rn_callback := rn_callback s; rn_saved := rn_saved s;
      rn_clock := rn_clock s; rn_flag := rn_flag s; rn_quotes := S (rn_quotes s);
      rn_waits := rn_waits s |}).

(** The polls of a wait, until the deadline or a cancellation. *)
Fixpoint poll (todo : nat) : ST Run unit :=
  match todo with
  | O => mret tt
  | S todo => c ← cancelled; if c : bool then mret tt else poll todo
  end.

Definition polls : ST Run nat := fun s =>
  (Ok (en_polls env (rn_waits s)),
   {| rn_oms := rn_oms s; rn_state := rn_state s; rn_callback := rn_callback s; rn_saved := rn_saved s;
      rn_clock := rn_clock s; rn_flag := rn_flag s; rn_quotes := rn_quotes s;
      rn_waits := S (rn_waits s) |}).

Definition wait : ST Run unit := n ← polls; poll n.

(** Waiting for the time of a slice; false when the job was cancelled. *)
Definition await_slice (delay : double) : ST Run bool :=
  if dgt delay dzero then
    now ← timestamp;
    s ← (fun s : Run => (Ok s, s));
    let next := as_next_slice (rn_state s) in
    _ ← (if (now <? next) || negb (next =? 0) then mret tt
         else
           ns ← lift (to_u64 (dmul delay (dbl 1000000000)));
           _ ← set_state (with_next_slice (u64 (now + ns))); save);
    _ ← wait;
    c ← cancelled;
    mret (negb c)
  else mret true.

(** One child of the execution of a slice; the result is the quantity filled so
    far. *)
Definition job_child (parent_id now : Z) (x : RoutedChildExecution) (filled : double) : ST Oms double :=
  child_id ← create_child {| crq_parent_id := parent_id; crq_venue := rx_venue x;
                             crq_price := rx_price x; crq_quantity := rx_requested x;
                             crq_created := now |};
  if bool_decide (rx_status x = ChildRejected) then
    _ ← reject_child child_id now; mret filled
  else
    _ ← mark_child_working child_id now;
    filled ← (if dgt (rx_filled x) epsilon then
                _ ← record_fill child_id (rx_price x) (rx_filled x) (rx_fee x) now;
                mret (dadd filled (rx_filled x))
              else mret filled);
    _ ← (if dgt (rx_remaining x) epsilon then cancel_child child_id now else mret false);
    mret filled.

Fixpoint job_children (parent_id : Z) (xs : list RoutedChildExecution) (filled : double)
    : ST Run double :=
  match xs with
  | [] => mret filled
  | x :: xs =>
      now ← timestamp;
      filled ← on_oms (job_child parent_id now x filled);
      job_children parent_id xs filled
  end.

(** The state after a slice. *)
Definition slice_done (index : nat) (filled : double) (s : AlgoOrderState) : AlgoOrderState :=
  let total := dadd (as_filled s) filled in
  algo_with s (as_status s) (S index) 0 (as_completed s) total
    (dmax dzero (dsub (as_requested s) total)) (as_error s).

(** What ends the loop over the slices: a [return], or its end or a [break]. *)
Inductive JobEnd := Returned | Finished.

(** The work on a slice whose time has come. *)
Definition job_slice (parent_id : Z) (index : nat) (quantity : double) : ST Run unit :=
  qs ← ask_quotes;
  match qs with
  | [] => mret tt
  | _ =>
      plan ← lift (build_route_plan (route_request request quantity) qs);
      match pl_legs plan with
      | [] => mret tt
      | _ =>
          execution ← lift (simulate_route_execution plan (la_simulation request));
          filled ← job_children parent_id (rs_children execution) dzero;
          _ ← set_state (slice_done index filled);
          save
      end
  end.

Fixpoint job_loop (parent_id : Z) (slices : list (Slice double)) (index : nat) : ST Run JobEnd :=
  match slices with
  | [] => mret Finished
  | slice :: slices =>
      c ← cancelled;
      if c : bool then
        now ← timestamp;
        _ ← on_oms (cancel_parent parent_id now);
        _ ← set_state (fun s => algo_with s AlgoCancelled (as_current_slice s) (as_next_slice s) now
                                  (as_filled s) (as_remaining s) (as_error s));
        mret Returned
      else
        go ← await_slice (sl_delay_seconds slice);
        if negb go then job_loop parent_id slices (S index)
        else
          s ← (fun s : Run => (Ok s, s));
          let remaining := as_remaining (rn_state s) in
          _ ← set_state (with_next_slice 0);
          if dle remaining epsilon then mret Finished
          else
            let quantity := dmin (sl_quantity slice) remaining in
            _ ← (if dle quantity epsilon then mret tt else job_slice parent_id index quantity);
            job_loop parent_id slices (S index)
  end.

(** What follows the loop. *)
Definition finish_job (parent_id : Z) : ST Run unit :=
  now ← timestamp;
  s ← (fun s : Run => (Ok s, s));
  status ← (if dle (as_remaining (rn_state s)) epsilon then mret AlgoCompleted
            else _ ← on_oms (cancel_parent parent_id now);
                 c ← cancelled; mret (if c : bool then AlgoCancelled else AlgoCompleted));
  _ ← set_state (fun s => algo_with s status (as_current_slice s) 0 now (as_filled s) (as_remaining s)
                            (as_error s));
  save.

Definition job_body (parent_id : Z) : ST Run unit :=
  schedule ← lift (job_schedule request);
  s ← (fun s : Run => (Ok s, s));
  let start := Nat.min (as_current_slice (rn_state s)) (length schedule) in
  e ← job_loop parent_id (drop start schedule) start;
  match e with Returned => mret tt | Finished => finish_job parent_id end.

(** The handler of exceptions; those of [cancel_parent] are ignored. *)
Definition fail_job (parent_id : Z) (e : exn) : ST Run unit :=
  now ← timestamp;
  _ ← (fun s : Run => (Ok tt, (on_oms (cancel_parent parent_id now) s).2));
  _ ← set_state (fun s => algo_with s AlgoFailed (as_current_slice s) (as_next_slice s) now
                            (as_filled s) (as_remaining s) (what e));
  save.

Definition run_job : ST Run unit := fun s =>
  let parent_id := as_parent_id (rn_state s) in
  match job_body parent_id s with
  | (Ok _, s') => (Ok tt, s')
  | (Throw e, s') => fail_job parent_id e s'
  end.

End job.

(** What the thread of a job starts with. *)
Definition job_thread (state : AlgoOrderState) (sd : Scheduler) : Run := {|
  rn_oms := sd_oms sd; rn_state := state; rn_callback := sd_callback sd; rn_saved := sd_saved sd;
  rn_clock := 0; rn_flag := 0; rn_quotes := 0; rn_waits := 0 |}.

(** ** The calls of other threads *)

Definition with_jobs (jobs : gmap Z Job) (saved : list AlgoOrderState) (started : list Z)
    (requested : gset Z) (sd : Scheduler) : Scheduler := {|
  sd_oms := sd_oms sd; sd_jobs := jobs; sd_callback := sd_callback sd; sd_saved := saved;
  sd_started := started; sd_cancel_requested := requested |}.

Definition cancel (id : Z) (sd : Scheduler) : bool * Scheduler :=
  match sd_jobs sd !! id with
  | None => (false, sd)
  | Some job =>
      if bool_decide (as_status (jb_state job) = AlgoRunning)
      then (true, with_jobs (sd_jobs sd) (sd_saved sd) (sd_started sd) ({[id]} ∪ sd_cancel_requested sd) sd)
      else (false, sd)
  end.

Definition find (id : Z) (sd : Scheduler) : option AlgoOrderState := jb_state <$> sd_jobs sd !! id.

#[export] Instance parent_id_le_dec : RelDecision (fun s t => as_parent_id s <= as_parent_id t).
Proof. intros s t. apply _. Defined.

Definition orders (sd : Scheduler) : list AlgoOrderState :=
  merge_sort (fun s t => as_parent_id s <= as_parent_id t) (jb_state <$> (map_to_list (sd_jobs sd)).*2).

Definition set_state_callback (callback : bool) (sd : Scheduler) : Scheduler := {|
  sd_oms := sd_oms sd; sd_jobs := sd_jobs sd; sd_callback := callback; sd_saved := sd_saved sd;
  sd_started := sd_started sd; sd_cancel_requested := sd_cancel_requested sd |}.

(** The destructor; it then joins the threads. *)
Definition shut_down (sd : Scheduler) : Scheduler :=
  with_jobs (sd_jobs sd) (sd_saved sd) (sd_started sd) (dom (sd_jobs sd) ∪ sd_cancel_requested sd) sd.

(** ** Recovery *)

Definition recovered_state (s : AlgoOrderState) (status : AlgoOrderStatus) (next : Z)
    (recovered : bool) (count last : Z) (error : string) : AlgoOrderState := {|
  as_parent_id := as_parent_id s; as_status := status; as_symbol := as_symbol s;
  as_algorithm := as_algorithm s; as_current_slice := as_current_slice s;
  as_total_slices := as_total_slices s; as_started := as_started s; as_next_slice := next;
  as_completed := as_completed s; as_requested := as_requested s; as_filled := as_filled s;
  as_remaining := as_remaining s; as_arrival_price := as_arrival_price s;
  as_recovered := recovered; as_recovery_count := count; as_last_recovered := last;
  as_error := error |}.

(** A persisted order: its state and, when it was saved with one, its request. *)
Definition PersistedAlgoOrder : Type := AlgoOrderState * option LiveAlgoRequest.

(** One order of [restore_recoverable]; the clock is read for a resumed job. *)
Definition restore_order (now : Z) (o : PersistedAlgoOrder) (sd : Scheduler) : Scheduler :=
  let (s, request) := o in
  let quiet := recovered_state s (as_status s) (as_next_slice s) false (as_recovery_count s)
                 (as_last_recovered s) (as_error s) in
  match as_status s, request with
  | AlgoRunning, None =>
      let failed := recovered_state s AlgoFailed 0 false (as_recovery_count s) (as_last_recovered s)
                      "missing persisted algo request" in
      with_jobs (<[as_parent_id s := {| jb_state := failed; jb_request := None |}]> (sd_jobs sd))
        (saved_after (sd_callback sd) (sd_saved sd) failed) (sd_started sd) (sd_cancel_requested sd) sd
  | AlgoRunning, Some r =>
      let resumed := recovered_state s AlgoRunning (as_next_slice s) true
                       (u64 (as_recovery_count s + 1)) now "" in
      with_jobs (<[as_parent_id s := {| jb_state := resumed; jb_request := Some r |}]> (sd_jobs sd))
        (saved_after (sd_callback sd) (sd_saved sd) resumed) (sd_started sd ++ [as_parent_id s])
        (sd_cancel_requested sd) sd
  | _, _ =>
      with_jobs (<[as_parent_id s := {| jb_state := quiet; jb_request := None |}]> (sd_jobs sd))
        (sd_saved sd) (sd_started sd) (sd_cancel_requested sd) sd
  end.

Definition restore_recoverable (clock : nat -> Z) (os : list PersistedAlgoOrder) (sd : Scheduler)
    : Scheduler := (foldl (fun p o => (S p.1, restore_order (clock p.1) o p.2)) (0%nat, sd) os).2.

Definition interrupted (s : AlgoOrderState) : AlgoOrderState :=
  if bool_decide (as_status s = AlgoRunning)
  then recovered_state s AlgoFailed 0 (as_recovered s) (as_recovery_count s) (as_last_recovered s)
         "interrupted by process restart"
  else s.

Definition restore_history (ss : list AlgoOrderState) (sd : Scheduler) : Scheduler :=
  with_jobs (foldl (fun m s => <[as_parent_id s := {| jb_state := interrupted s; jb_request := None |}]> m)
               (sd_jobs sd) ss) (sd_saved sd) (sd_started sd) (sd_cancel_requested sd) sd.
