(* ===== verification/AlgoSchedulerProps.v ===== *)
(** * Jobs of the scheduler

    Every job ends, whatever it reads: it leaves the order management system in
    order and its parent closed, and saves its progress without going back. *)

From S2P Require Import Prelude.
From S2P Require Import Float.
From S2P Require Import Arithmetic.
From S2P Require Import Oms.
From S2P Require Import OmsProps.
From S2P Require Import Router.
From S2P Require Import Schedule.
From S2P Require Import ExecutionEngine.
From S2P Require Import LiveAlgo.
From S2P Require Import LiveAlgoProps.
From S2P Require Import AlgoScheduler.

(** ** What the steps of a running job keep *)

Definition running (s : Run) : Prop := as_status (rn_state s) = AlgoRunning.

Definition rest_of (s : AlgoOrderState) : Prop := as_remaining s = remainder (as_requested s) (as_filled s).

(** Saved states from the progress [i] to the progress [j]. *)
Record progress (i j : nat) (saved : list AlgoOrderState) : Prop := {
  pg_le : (i <= j)%nat;
  pg_running : Forall (fun t => as_status t = AlgoRunning) saved;
  pg_between : Forall (fun t => (i <= as_current_slice t <= j)%nat) saved;
  pg_sorted : StronglySorted le (as_current_slice <$> saved)
}.

Record goes (s s' : Run) : Prop := {
  go_callback : rn_callback s' = rn_callback s;
  go_static : as_parent_id (rn_state s') = as_parent_id (rn_state s) /\
    as_requested (rn_state s') = as_requested (rn_state s);
  go_parents : forall i, is_Some (parents_ (rn_oms s) !! i) -> is_Some (parents_ (rn_oms s') !! i);
  go_rest : rest_of (rn_state s) -> rest_of (rn_state s');
  go_saved : exists saved, rn_saved s' = rn_saved s ++ saved /\
    progress (as_current_slice (rn_state s)) (as_current_slice (rn_state s')) saved
}.

Lemma progress_nil i j : (i <= j)%nat -> progress i j [].
Proof. split; [done|constructor..]. Qed.

Lemma progress_app i j k l l' : progress i j l -> progress j k l' -> progress i k (l ++ l').
Proof.
  intros [H1 H2 H3 H4] [K1 K2 K3 K4]. split; [lia|by apply Forall_app|apply Forall_app; split|].
  - eapply Forall_mono, H3. cbn. lia.
  - eapply Forall_mono, K3. cbn. lia.
  - rewrite fmap_app. apply StronglySorted_app. split_and!; [|done|done].
    intros x y (t & -> & Ht)%list_elem_of_fmap (u & -> & Hu)%list_elem_of_fmap.
    rewrite Forall_forall in H3. rewrite Forall_forall in K3. pose proof (H3 _ Ht). pose proof (K3 _ Hu). lia.
Qed.

Lemma goes_refl s : goes s s.
Proof. split; try done. exists []. rewrite app_nil_r. split; [done|by apply progress_nil]. Qed.

Lemma goes_trans s1 s2 s3 : goes s1 s2 -> goes s2 s3 -> goes s1 s3.
Proof.
  intros [H1 [H2 H3] H4 H5 (l & E & P)] [K1 [K2 K3] K4 K5 (l' & E' & P')]. split; try congruence; try tauto.
  - split; congruence.
  - auto.
  - exists (l ++ l'). rewrite E', E, app_assoc. split; [done|]. by eapply progress_app.
Qed.

(** After [m] from [s] the system is in order within [n] commands, the job has
    gone on, and if [m] returns, [Q] holds. *)
Definition does {A} (n : Z) (m : ST Run A) (s : Run) (Q : A -> Run -> Prop) : Prop :=
  oms_inv n (rn_oms (m s).2) /\ goes s (m s).2 /\ forall a, (m s).1 = Ok a -> Q a (m s).2.

Lemma does_bind {A B} n n' (m : ST Run A) (k : A -> ST Run B) s Q R : n <= n' ->
  does n m s Q -> (forall a s', oms_inv n (rn_oms s') -> Q a s' -> does n' (k a) s' R) ->
  does n' (m ≫= k) s R.
Proof.
  intros Hn (H1 & H2 & H3) Hk. unfold does, mbind, st_bind. destruct (m s) as [[a|e] s'] eqn:E; cbn in *.
  - destruct (Hk a s' H1 (H3 a eq_refl)) as (K1 & K2 & K3). split_and!; [done|by eapply goes_trans|done].
  - split_and!; [by eapply oms_inv_mono|done|done].
Qed.

Lemma does_ret {A} n (a : A) s (Q : A -> Run -> Prop) : oms_inv n (rn_oms s) -> Q a s -> does n (mret a) s Q.
Proof. intros H1 H2. split_and!; [done|apply goes_refl|]. by intros a' [= <-]. Qed.

Lemma does_lift {A} n (x : result A) s : oms_inv n (rn_oms s) ->
  does n (lift x) s (fun a s' => x = Ok a /\ s' = s).
Proof. intros H. split_and!; [done|apply goes_refl|done]. Qed.

Lemma does_read n s : oms_inv n (rn_oms s) ->
  does n (fun s : Run => (Ok s, s)) s (fun a s' => a = s /\ s' = s).
Proof. intros H. split_and!; [done|apply goes_refl|]. cbn. by intros a [= <-]. Qed.

Lemma does_mono {A} n n' (m : ST Run A) s (Q R : A -> Run -> Prop) : n <= n' -> does n m s Q ->
  (forall a s', Q a s' -> R a s') -> does n' m s R.
Proof. intros Hn (H1 & H2 & H3) H. split_and!; [by eapply oms_inv_mono|done|auto]. Qed.

(** Steps that change only the counters of the readings. *)
Definition same_job (s s' : Run) : Prop := rn_oms s' = rn_oms s /\ rn_state s' = rn_state s /\
  rn_callback s' = rn_callback s /\ rn_saved s' = rn_saved s.

Lemma same_goes s s' : same_job s s' -> goes s s'.
Proof.
  intros (E1 & E2 & E3 & E4). split; rewrite ?E1, ?E2; try done.
  exists []. rewrite app_nil_r. split; [done|by apply progress_nil].
Qed.

Lemma does_same {A} n (m : ST Run A) s (Q : A -> Run -> Prop) : oms_inv n (rn_oms s) ->
  same_job s (m s).2 -> (forall a, (m s).1 = Ok a -> Q a (m s).2) -> does n m s Q.
Proof. intros I Hs HQ. split_and!; [by rewrite (proj1 Hs)|by apply same_goes|done]. Qed.

(** ** The commands of the order management system *)

Definition keeps_parents {A} (m : ST Oms A) : Prop :=
  forall s i, is_Some (parents_ s !! i) -> is_Some (parents_ (m s).2 !! i).

Lemma keeps_bind {A B} (m : ST Oms A) (k : A -> ST Oms B) :
  keeps_parents m -> (forall a, keeps_parents (k a)) -> keeps_parents (m ≫= k).
Proof.
  intros Hm Hk s i Hs. unfold mbind, st_bind. specialize (Hm s i Hs).
  destruct (m s) as [[a|e] s']; cbn in *; [by apply Hk|done].
Qed.

Lemma keeps_ret {A} (a : A) : keeps_parents (mret a).
Proof. by intros s i. Qed.

Lemma insert_is_Some {A} (m : gmap Z A) k x i : is_Some (m !! i) -> is_Some (<[k := x]> m !! i).
Proof. intros H. rewrite lookup_insert. by case_decide. Qed.

Lemma keeps_notify ty p c f : keeps_parents (notify_mutation ty p c f).
Proof. intros s i Hs. unfold notify_mutation. by destruct (parents_ s !! p). Qed.

Lemma keeps_create_child r : keeps_parents (create_child r).
Proof.
  intros s i Hs. unfold create_child. destruct (parents_ s !! crq_parent_id r) as [p|] eqn:E; [|done].
  destruct (check_child r p); [|done]. cbn [set_parents set_children set_next children_].
  set (s1 := set_parents _ _). assert (H1 : is_Some (parents_ s1 !! i)) by by apply insert_is_Some.
  destruct (emplace _ _ _ !! _); [|done]. apply (keeps_bind (notify_mutation _ _ _ _)); [apply keeps_notify| |done].
  intros a'. apply keeps_ret.
Qed.

Lemma keeps_refresh p t s i : is_Some (parents_ s !! i) -> is_Some (parents_ (refresh_parent p t s) !! i).
Proof. intros Hs. unfold refresh_parent. destruct (parents_ s !! p); [by apply insert_is_Some|done]. Qed.

Lemma keeps_set_status f j t : keeps_parents (set_child_status f j t).
Proof.
  intros s i Hs. unfold set_child_status. destruct (children_ s !! j) as [c|]; [|done].
  destruct (terminal_status _); [done|]. apply (keeps_bind (notify_mutation _ _ _ _)); [apply keeps_notify| |].
  - intros a. apply keeps_ret.
  - by apply keeps_refresh.
Qed.

Lemma keeps_record_fill j p q f t : keeps_parents (record_fill j p q f t).
Proof.
  intros s i Hs. unfold record_fill. destruct (children_ s !! j) as [c|]; [|done].
  destruct (check_fill _ _ _ _); [|done]. apply (keeps_bind (notify_mutation _ _ _ _)); [apply keeps_notify| |].
  - intros a'. apply keeps_ret.
  - by apply keeps_refresh.
Qed.

Lemma keeps_cancel_parent p t : keeps_parents (cancel_parent p t).
Proof.
  intros s i Hs. unfold cancel_parent. destruct (parents_ s !! p) as [q|]; [|done].
  destruct (terminal_status _); [done|]. by apply insert_is_Some.
Qed.

Lemma keeps_if {A} (b : bool) (m m' : ST Oms A) : keeps_parents m -> keeps_parents m' ->
  keeps_parents (if b then m else m').
Proof. by destruct b. Qed.

Create HintDb keeps.
#[local] Hint Resolve keeps_ret keeps_create_child keeps_set_status keeps_record_fill keeps_cancel_parent : keeps.

Lemma keeps_job_child P now x a : keeps_parents (job_child P now x a).
Proof.
  unfold job_child. apply keeps_bind; [auto with keeps|]. intros id. apply keeps_if.
  { apply keeps_bind; [apply keeps_set_status|auto with keeps]. }
  apply keeps_bind; [apply keeps_set_status|]. intros _. apply keeps_bind.
  - apply keeps_if; [|auto with keeps]. apply keeps_bind; auto with keeps.
  - intros b. apply keeps_bind; [|auto with keeps]. apply keeps_if; [apply keeps_set_status|auto with keeps].
Qed.

(** Commands keep the system in order whatever their outcome. *)
Lemma in_order_child n s P now x a : oms_inv n s -> n + 4 < 2 ^ 64 - 2 ->
  runs (n + 4) (job_child P now x a) s (fun _ _ => True).
Proof.
  intros I Hn. unfold job_child.
  assert (Hset : forall m s f j t, oms_inv m s -> (forall c, f c <> Filled) ->
    runs (m + 1) (set_child_status f j t) s (fun _ _ => True)).
  { intros m s1 f j t I1 Hf. split; [by apply set_child_status_step|done]. }
  assert (Hwork : forall c, (if dgt (co_filled c) epsilon then PartiallyFilled else Working) <> Filled)
    by (intros c; by case_if).
  eapply (runs_bind (n + 1)); [lia|eapply (runs_mono (n + 1)); [lia|apply runs_create_child; [done|lia]|done]|].
  intros id s1 I1 _. case_if.
  { eapply (runs_bind (n + 2)); [lia|replace (n + 2) with (n + 1 + 1) by lia; by apply Hset|].
    intros b s2 I2 _. apply runs_ret; [|done]. eapply oms_inv_mono, I2. lia. }
  eapply (runs_bind (n + 2)); [lia|replace (n + 2) with (n + 1 + 1) by lia; by apply Hset|].
  intros b s2 I2 _. eapply (runs_bind (n + 3) _ _ _ _ (fun _ _ => True)); [lia| |].
  - case_if; [|apply runs_ret; [eapply oms_inv_mono, I2; lia|done]].
    eapply (runs_bind (n + 3)); [lia| |intros r s3 I3 _; by apply runs_ret].
    instantiate (1 := fun _ _ => True). split; [|done].
    destruct (record_fill_step (n + 2) s2 id (rx_price x) (rx_filled x) (rx_fee x) now I2 ltac:(lia)) as [HI _].
    replace (n + 3) with (n + 2 + 1) by lia. revert HI. cbn [oms_exec]. unfold mbind, st_bind.
    by destruct (record_fill _ _ _ _ _ s2) as [[]].
  - intros a' s3 I3 _. eapply (runs_bind (n + 4)); [lia| |intros b' s4 I4 _; by apply runs_ret].
    instantiate (1 := fun _ _ => True).
    case_if; [replace (n + 4) with (n + 3 + 1) by lia; by apply Hset|].
    apply runs_ret; [eapply oms_inv_mono, I3; lia|done].
Qed.

Lemma does_oms {A} n (m : ST Oms A) s : keeps_parents m -> runs n m (rn_oms s) (fun _ _ => True) ->
  does n (on_oms m) s (fun _ s' => rn_state s' = rn_state s).
Proof.
  intros Hk [H1 _]. specialize (Hk (rn_oms s)). unfold does, on_oms.
  destruct (m (rn_oms s)) as [r oms] eqn:E. cbn in *. split_and!; [done| |done].
  split; cbn; try done. exists []. rewrite app_nil_r. split; [done|by apply progress_nil].
Qed.

Lemma cancel_parent_in_order n s P t : oms_inv n s -> runs (n + 1) (cancel_parent P t) s (fun _ _ => True).
Proof. intros I. split; [by apply cancel_parent_step|done]. Qed.

(** After it the parent is closed. *)
Lemma cancel_parent_closes P t s p : parents_ (cancel_parent P t s).2 !! P = Some p ->
  terminal_status (po_status p) = true.
Proof.
  unfold cancel_parent. destruct (parents_ s !! P) as [q|] eqn:E; [|cbn; congruence].
  destruct (terminal_status (po_status q)) eqn:Ht.
  - cbn. rewrite E. congruence.
  - cbn. rewrite lookup_insert_eq. by intros [= <-].
Qed.

(** ** The steps of a job *)

Section job.
Context (env : Environment) (request : LiveAlgoRequest) (levels : nat).
Context (Hlevels : forall k qs, en_quotes env k = Ok qs -> (level_count (la_side request) qs <= levels)%nat).
Context (Hvenues : 0 <= la_max_venue_count request).

Notation same := (fun s _ s' => rn_state s' = rn_state s).

Lemma does_timestamp n s : oms_inv n (rn_oms s) -> does n (timestamp env) s (same s).
Proof using. intros I. by apply does_same. Qed.

Lemma does_cancelled n s : oms_inv n (rn_oms s) -> does n (cancelled env) s (same s).
Proof using. intros I. by apply does_same. Qed.

Lemma does_ask n s : oms_inv n (rn_oms s) ->
  does n (ask_quotes env) s (fun qs s' => rn_state s' = rn_state s /\ exists k, en_quotes env k = Ok qs).
Proof using. intros I. apply does_same; [done|done|]. cbn. eauto. Qed.

Lemma does_poll n todo : forall s, oms_inv n (rn_oms s) -> does n (poll env todo) s (same s).
Proof using.
  induction todo as [|todo IH]; intros s I; [by apply does_ret|].
  eapply (does_bind n); [done|by apply does_cancelled|]. intros c s' I' E. rewrite <- E.
  destruct c; [by apply does_ret|by apply IH].
Qed.

Lemma does_wait n s : oms_inv n (rn_oms s) -> does n (wait env) s (same s).
Proof using.
  intros I. eapply (does_bind n _ _ _ _ (same s)); [done|by apply does_same|].
  intros k s' I' E. rewrite <- E. by apply does_poll.
Qed.

(** A change of the state of a running job. *)
Lemma does_set n f s : oms_inv n (rn_oms s) ->
  as_parent_id (f (rn_state s)) = as_parent_id (rn_state s) /\
  as_requested (f (rn_state s)) = as_requested (rn_state s) ->
  (rest_of (rn_state s) -> rest_of (f (rn_state s))) ->
  (as_current_slice (rn_state s) <= as_current_slice (f (rn_state s)))%nat ->
  does n (set_state f) s (fun _ s' => rn_state s' = f (rn_state s) /\ rn_oms s' = rn_oms s).
Proof using.
  intros I H1 H2 H3. split_and!; [done| |by intros ? _]. split; cbn; try done.
  exists []. rewrite app_nil_r. split; [done|by apply progress_nil].
Qed.

(** Saving a running job. *)
Lemma does_save n s : oms_inv n (rn_oms s) -> running s -> does n save s (same s).
Proof using.
  intros I Hr. split_and!; [done| |done]. split; cbn; try done. unfold saved_after.
  destruct (rn_callback s).
  - exists [rn_state s]. split; [done|]. by split; [|repeat constructor..].
  - exists []. rewrite app_nil_r. split; [done|by apply progress_nil].
Qed.

(** The progress so far is not beyond [index]. *)
Definition upto (index : nat) (s : Run) : Prop :=
  running s /\ (as_current_slice (rn_state s) <= index)%nat.

Lemma upto_state index s s' : rn_state s' = rn_state s -> upto index s -> upto index s'.
Proof using. unfold upto, running. by intros ->. Qed.

Lemma does_await n delay index s : oms_inv n (rn_oms s) -> upto index s ->
  does n (await_slice env delay) s (fun _ s' => upto index s').
Proof using.
  intros I H. unfold await_slice. case_if; [|by apply does_ret].
  eapply (does_bind n); [done|by apply does_timestamp|]. intros now s1 I1 E1.
  eapply (does_bind n); [done|by apply does_read|]. intros s1' s1'' I1' [-> ->].
  apply (upto_state _ _ _ E1) in H.
  eapply (does_bind n _ _ _ _ (fun _ s' => upto index s')); [done| |].
  - case_if; [by apply does_ret|].
    eapply (does_bind n); [done|by apply does_lift|]. intros ns s2 I2 [_ ->].
    eapply (does_bind n); [done|by apply does_set|]. intros ? s3 I3 [E3 _].
    assert (H3 : upto index s3) by (unfold upto, running in *; by rewrite E3).
    eapply does_mono; [done|by apply does_save; [|apply H3]|]. intros ? s4 E4.
    exact (upto_state _ _ _ E4 H3).
  - intros ? s2 I2 H2. eapply (does_bind n); [done|by apply does_wait|]. intros ? s3 I3 E3.
    eapply (does_bind n); [done|by apply does_cancelled|]. intros c s4 I4 E4.
    apply does_ret; [done|].
    exact (upto_state _ _ _ E4 (upto_state _ _ _ E3 H2)).
Qed.

Lemma does_children P xs : forall n filled s, oms_inv n (rn_oms s) ->
  n + 4 * Z.of_nat (length xs) < 2 ^ 64 - 2 ->
  does (n + 4 * Z.of_nat (length xs)) (job_children env P xs filled) s (same s).
Proof using.
  induction xs as [|x xs IH]; intros n filled s I Hn.
  { apply does_ret; [by eapply oms_inv_mono, I; cbn; lia|done]. }
  cbn [job_children length] in *. eapply (does_bind n); [lia|by apply does_timestamp|].
  intros now s1 I1 E1. eapply (does_bind (n + 4)); [lia| |].
  - apply does_oms; [apply keeps_job_child|apply in_order_child; [done|lia]].
  - intros a s2 I2 E2. rewrite <- E1, <- E2.
    replace (n + 4 * Z.of_nat (S (length xs))) with (n + 4 + 4 * Z.of_nat (length xs)) by lia.
    apply IH; [done|lia].
Qed.

Lemma does_slice n P index quantity s : oms_inv n (rn_oms s) -> n + 4 * Z.of_nat levels < 2 ^ 64 - 2 ->
  upto index s ->
  does (n + 4 * Z.of_nat levels) (job_slice env request P index quantity) s (fun _ s' => upto (S index) s').
Proof using Hlevels Hvenues.
  intros I Hn H. unfold job_slice.
  assert (Hend : forall s', oms_inv n (rn_oms s') -> upto index s' ->
    does (n + 4 * Z.of_nat levels) (mret tt) s' (fun _ s' => upto (S index) s')).
  { intros s' I' [H1 H2]. apply does_ret; [eapply oms_inv_mono, I'; lia|]. split; [done|lia]. }
  eapply (does_bind n); [lia|by apply does_ask|]. intros qs s1 I1 [E1 [k Hk]].
  apply (upto_state _ _ _ E1) in H. destruct qs as [|q0 qs]; [by apply Hend|].
  eapply (does_bind n); [lia|by apply does_lift|]. intros plan s2 I2 [Hplan ->].
  assert (Hlegs : (length (pl_legs plan) <= levels)%nat).
  { pose proof (plan_length (route_request request quantity) (q0 :: qs) plan Hvenues Hplan).
    pose proof (Hlevels k _ Hk). cbn [route_request rr_side] in *. lia. }
  destruct (pl_legs plan) as [|leg legs] eqn:Elegs; [by apply Hend|].
  eapply (does_bind n); [lia|by apply does_lift|]. intros x s2 _ [Hx ->].
  destruct (simulate_children plan (la_simulation request) x Hx) as [_ HF]. rewrite Elegs in HF.
  pose proof (Forall2_length _ _ _ HF) as HLen. cbn [length] in HLen, Hlegs.
  eapply (does_bind (n + 4 * Z.of_nat (length (rs_children x)))); [lia|apply does_children; [done|lia]|].
  intros filled s3 I3 E3. pose proof (upto_state _ _ _ E3 H) as [R3 L3].
  eapply (does_bind (n + 4 * Z.of_nat (length (rs_children x)))); [lia|apply does_set; try done; cbn; lia|].
  intros ? s4 I4 [E4 _]. assert (R4 : upto (S index) s4).
  { unfold upto, running in *. rewrite E4. cbn. split; [done|lia]. }
  eapply does_mono; [|by apply does_save; [|apply R4]|]; [lia|]. intros ? s5 E5. exact (upto_state _ _ _ E5 R4).
Qed.

(** The parent is closed, when there is one. *)
Definition closed (P : Z) (s : Run) : Prop :=
  forall p, parents_ (rn_oms s) !! P = Some p -> terminal_status (po_status p) = true.

Lemma does_cancel n P now s : oms_inv n (rn_oms s) ->
  does (n + 1) (on_oms (cancel_parent P now)) s (fun _ s' => rn_state s' = rn_state s /\ closed P s').
Proof using.
  intros I. destruct (does_oms (n + 1) (cancel_parent P now) s) as (H1 & H2 & H3);
    [apply keeps_cancel_parent|by apply cancel_parent_in_order|].
  split_and!; [done|done|]. intros a Ha. split; [by eapply H3|]. intros p.
  unfold on_oms. pose proof (cancel_parent_closes P now (rn_oms s) p) as Hc.
  by destruct (cancel_parent P now (rn_oms s)).
Qed.

Definition loop_ended (P : Z) (total : nat) (e : JobEnd) (s : Run) : Prop :=
  match e with
  | Finished => upto total s
  | Returned => as_status (rn_state s) = AlgoCancelled /\ closed P s
  end.

Lemma does_loop P slices : forall n index s, oms_inv n (rn_oms s) ->
  n + 4 * Z.of_nat levels * Z.of_nat (length slices) + 1 < 2 ^ 64 - 2 -> upto index s ->
  does (n + 4 * Z.of_nat levels * Z.of_nat (length slices) + 1)
    (job_loop env request P slices index) s (loop_ended P (index + length slices)).
Proof using Hlevels Hvenues.
  induction slices as [|sl slices IH]; intros n index s I Hn H.
  { apply does_ret; [by eapply oms_inv_mono, I; cbn; lia|]. cbn. by rewrite Nat.add_0_r. }
  cbn [job_loop length] in *. set (m := 4 * Z.of_nat levels * Z.of_nat (length slices)) in *.
  assert (Hm : 4 * Z.of_nat levels * Z.of_nat (S (length slices)) = 4 * Z.of_nat levels + m) by (unfold m; lia).
  rewrite Hm in *. assert (0 <= m) by (unfold m; lia).
  assert (Hnext : forall n' s', oms_inv n' (rn_oms s') -> n' <= n + 4 * Z.of_nat levels -> upto (S index) s' ->
    does (n + (4 * Z.of_nat levels + m) + 1) (job_loop env request P slices (S index)) s'
      (loop_ended P (index + S (length slices)))).
  { intros n' s' I' Hn' H'. eapply does_mono; [|apply (IH n' (S index) s' I'); [lia|done]|]; [lia|].
    intros e s2. by rewrite Nat.add_succ_r. }
  assert (Hlast : forall s', oms_inv n (rn_oms s') -> upto index s' ->
    does (n + (4 * Z.of_nat levels + m) + 1) (mret Finished) s' (loop_ended P (index + S (length slices)))).
  { intros s' I' [H1 H2]. apply does_ret; [eapply oms_inv_mono, I'; lia|]. split; [done|lia]. }
  eapply (does_bind n); [lia|by apply does_cancelled|]. intros c s1 I1 E1.
  apply (upto_state _ _ _ E1) in H. destruct c.
  - eapply (does_bind n); [lia|by apply does_timestamp|]. intros now s2 I2 E2.
    eapply (does_bind (n + 1)); [lia|by apply does_cancel|]. intros b s3 I3 [E3 C3].
    eapply (does_bind (n + 1)); [lia|by apply does_set|]. intros ? s4 I4 [E4 F4].
    apply does_ret; [eapply oms_inv_mono, I4; lia|]. split; [by rewrite E4|].
    unfold closed. by rewrite F4.
  - eapply (does_bind n); [lia|by apply does_await|]. intros go s2 I2 H2.
    destruct go; cbn [negb].
    2: { apply (Hnext n); [done|lia|]. destruct H2. split; [done|lia]. }
    eapply (does_bind n); [lia|by apply does_read|]. intros ? ? _ [-> ->].
    eapply (does_bind n); [lia|by apply does_set|]. intros ? s3 I3 [E3 _].
    assert (H3 : upto index s3) by (unfold upto, running in *; by rewrite E3).
    case_if; [by apply Hlast|].
    eapply (does_bind (n + 4 * Z.of_nat levels) _ _ _ _ (fun _ s' => upto (S index) s')); [lia| |].
    + case_if; [|by apply does_slice; [|lia|]].
      apply does_ret; [eapply oms_inv_mono, I3; lia|]. destruct H3. split; [done|lia].
    + intros ? s4 I4 H4. by eapply Hnext.
Qed.

(** ** The end of a job *)

Lemma cancel_parent_returns P t s : exists b, (cancel_parent P t s).1 = Ok b.
Proof using.
  unfold cancel_parent. destruct (parents_ s !! P) as [p|]; [|by eexists].
  destruct (terminal_status (po_status p)); by eexists.
Qed.

(** What the last step of a job leaves: a final state, saved, and the parent
    closed unless nothing is left. *)
Record ended (P : Z) (s s' : Run) (final : AlgoOrderStatus -> Prop) : Prop := {
  ed_status : final (as_status (rn_state s'));
  ed_static : as_parent_id (rn_state s') = as_parent_id (rn_state s) /\
    as_requested (rn_state s') = as_requested (rn_state s) /\
    as_filled (rn_state s') = as_filled (rn_state s) /\
    as_remaining (rn_state s') = as_remaining (rn_state s) /\
    as_current_slice (rn_state s') = as_current_slice (rn_state s);
  ed_saved : rn_saved s' = saved_after (rn_callback s) (rn_saved s) (rn_state s');
  ed_parents : forall i, is_Some (parents_ (rn_oms s) !! i) -> is_Some (parents_ (rn_oms s') !! i);
  ed_closed : as_status (rn_state s') = AlgoCompleted -> dle (as_remaining (rn_state s)) epsilon = false ->
    closed P s';
  ed_closed' : as_status (rn_state s') <> AlgoCompleted -> closed P s'
}.

Lemma finish_job_ends n P s : oms_inv n (rn_oms s) ->
  (finish_job env P s).1 = Ok tt /\ oms_inv (n + 1) (rn_oms (finish_job env P s).2) /\
  ended P s (finish_job env P s).2 (fun t => t = AlgoCompleted \/ t = AlgoCancelled).
Proof using.
  intros I. unfold finish_job, timestamp, set_state, save, on_oms, cancelled, mbind, st_bind, mret, st_ret.
  cbn [rn_state]. destruct (dle (as_remaining (rn_state s)) epsilon) eqn:Er; cbn [rn_oms].
  - split_and!; [done|by eapply oms_inv_mono, I; lia|]. split; cbn; try done; [by left|congruence].
  - pose proof (cancel_parent_returns P (en_clock env (rn_clock s)) (rn_oms s)) as [b Hb].
    pose proof (cancel_parent_closes P (en_clock env (rn_clock s)) (rn_oms s)) as Hc.
    pose proof (keeps_cancel_parent P (en_clock env (rn_clock s)) (rn_oms s)) as Hk.
    pose proof (cancel_parent_in_order n (rn_oms s) P (en_clock env (rn_clock s)) I) as [Ho _].
    destruct (cancel_parent P (en_clock env (rn_clock s)) (rn_oms s)) as [r oms]. cbn in *. subst r. cbn.
    split_and!; [done|done|]. split; cbn; try done. case_if; auto.
Qed.

Lemma fail_job_ends n P e s : oms_inv n (rn_oms s) ->
  (fail_job env P e s).1 = Ok tt /\ oms_inv (n + 1) (rn_oms (fail_job env P e s).2) /\
  ended P s (fail_job env P e s).2 (fun t => t = AlgoFailed).
Proof using.
  intros I. unfold fail_job, timestamp, set_state, save, on_oms, mbind, st_bind. cbn [rn_oms rn_state snd].
  pose proof (cancel_parent_closes P (en_clock env (rn_clock s)) (rn_oms s)) as Hc.
  pose proof (keeps_cancel_parent P (en_clock env (rn_clock s)) (rn_oms s)) as Hk.
  pose proof (cancel_parent_in_order n (rn_oms s) P (en_clock env (rn_clock s)) I) as [Ho _].
  destruct (cancel_parent P (en_clock env (rn_clock s)) (rn_oms s)) as [r oms]. cbn in *.
  split_and!; [done|done|]. by split.
Qed.
(** What a thread leaves: the job ended, its parent closed unless nothing is
    left of it, and its progress saved. *)
Record job_left (n : Z) (s s' : Run) : Prop := {
  jl_inv : oms_inv n (rn_oms s');
  jl_status : as_status (rn_state s') <> AlgoRunning;
  jl_requested : as_requested (rn_state s') = as_requested (rn_state s);
  jl_rest : rest_of (rn_state s) -> rest_of (rn_state s');
  jl_closed : exists p, parents_ (rn_oms s') !! as_parent_id (rn_state s) = Some p /\
    (terminal_status (po_status p) = true \/
     as_status (rn_state s') = AlgoCompleted /\ dle (as_remaining (rn_state s')) epsilon = true);
  jl_saved : exists saved,
    progress (as_current_slice (rn_state s)) (as_current_slice (rn_state s')) saved /\
    (rn_saved s' = saved_after (rn_callback s) (rn_saved s ++ saved) (rn_state s') \/
     as_status (rn_state s') = AlgoCancelled /\ rn_saved s' = rn_saved s ++ saved)
}.

Lemma ended_left n P s s1 s' final : as_parent_id (rn_state s) = P ->
  is_Some (parents_ (rn_oms s) !! P) -> goes s s1 -> oms_inv n (rn_oms s') -> ended P s1 s' final ->
  ~ final AlgoRunning -> job_left n s s'.
Proof using.
  intros <- Hp [G1 [G2 G3] G4 G5 (l & El & Pl)] I [D1 (D2 & D3 & D4 & D5 & D6) D7 D8 D9 D10] Hf. split.
  - done.
  - intros E. apply Hf. by rewrite <- E.
  - congruence.
  - unfold rest_of in *. rewrite D3, D4, D5. exact G5.
  - destruct (D8 _ (G4 _ Hp)) as [p E]. exists p. split; [done|].
    destruct (decide (as_status (rn_state s') = AlgoCompleted)) as [Es|Es]; [|left; by apply D10].
    destruct (dle (as_remaining (rn_state s1)) epsilon) eqn:Er; [right; by rewrite D5|left; by apply D9].
  - exists l. rewrite D6. split; [done|]. left. by rewrite D7, G1, El.
Qed.

Lemma job_leaves n schedule s : oms_inv n (rn_oms s) -> running s -> job_schedule request = Ok schedule ->
  is_Some (parents_ (rn_oms s) !! as_parent_id (rn_state s)) ->
  (as_current_slice (rn_state s) <= length schedule)%nat ->
  n + 4 * Z.of_nat levels * Z.of_nat (length schedule) + 1 < 2 ^ 64 - 2 ->
  (run_job env request s).1 = Ok tt /\
  job_left (n + 4 * Z.of_nat levels * Z.of_nat (length schedule) + 2) s (run_job env request s).2.
Proof using Hlevels Hvenues.
  intros I Hr Hs Hp Hi Hn. set (P := as_parent_id (rn_state s)) in *.
  set (i := as_current_slice (rn_state s)) in *.
  destruct (does_loop P (drop i schedule) n i s) as (L1 & L2 & L3); [done|rewrite length_drop; nia|by split|].
  eapply (oms_inv_mono _ (n + 4 * Z.of_nat levels * Z.of_nat (length schedule) + 1)) in L1;
    [|rewrite length_drop; nia].
  unfold run_job, job_body. unfold mbind, st_bind. unfold lift. rewrite Hs. fold i P.
  rewrite (Nat.min_l i) by lia.
  replace (n + 4 * Z.of_nat levels * Z.of_nat (length schedule) + 2)
    with (n + 4 * Z.of_nat levels * Z.of_nat (length schedule) + 1 + 1) by lia.
  destruct (job_loop env request P (drop i schedule) i s) as [[[]|e] s1]; cbn in L1, L2, L3.
  - destruct (L3 _ eq_refl) as [S1 C1]. split; [done|].
    destruct L2 as [G1 [G2 G3] G4 G5 (l & El & Pl)]. cbn. split.
    + eapply oms_inv_mono, L1. lia.
    + congruence.
    + done.
    + done.
    + destruct (G4 _ Hp) as [p E]. exists p. split; [done|]. left. by apply C1.
    + exists l. split; [done|]. right. done.
  - destruct (finish_job_ends _ P s1 L1) as (F1 & F2 & F3).
    destruct (finish_job env P s1) as [r s2]. cbn in *. subst r. split; [done|].
    by eapply ended_left; [| | | |exact F3|intros []].
  - destruct (fail_job_ends _ P e s1 L1) as (F1 & F2 & F3). split; [done|].
    by eapply ended_left; [| | | |exact F3|].
Qed.

End job.

(** ** Submission *)

Lemma check_submit_spec r schedule : check_submit r = Ok schedule ->
  dpositive (la_quantity r) = true /\ job_schedule r = Ok schedule.
Proof.
  unfold check_submit, guard_or, dpositive. case_bool_decide; [done|].
  destruct (isfinite (la_quantity r) && negb (dle (la_quantity r) dzero)); [|done]. cbn.
  destruct (job_schedule r) as [l|e]; [|done]. cbn. destruct (length l); [done|]. by intros [= ->].
Qed.

(** A successful submission: the parent is in the system, and the new job is
    saved. *)
Lemma submit_starts n r now quotes sd id sd' : oms_inv n (sd_oms sd) -> n < 2 ^ 64 - 2 ->
  submit r now quotes sd = (Ok id, sd') ->
  exists schedule qs, job_schedule r = Ok schedule /\ quotes = Ok qs /\ dpositive (la_quantity r) = true /\
    oms_inv (n + 1) (sd_oms sd') /\ is_Some (parents_ (sd_oms sd') !! id) /\
    parents_ (sd_oms sd) !! id = None /\ sd_started sd' = sd_started sd ++ [id] /\
    sd_saved sd' = saved_after (sd_callback sd) (sd_saved sd)
      (new_state r id (length schedule) now (arrival_price qs)).
Proof.
  intros I Hn. unfold submit. destruct (check_submit r) as [schedule|e] eqn:Ec; [|done].
  destruct quotes as [qs|e]; [|done]. apply check_submit_spec in Ec as [Hq Hs].
  match goal with |- context [create_parent ?q now] => set (rq := q) end.
  destruct (runs_create_parent n (sd_oms sd) rq now I Hn) as [H1 H2].
  destruct (create_parent rq now (sd_oms sd)) as [[i|e] oms]; [|done]. cbn in H1, H2. intros [= <- <-].
  destruct (H2 i eq_refl) as (F1 & _ & _ & p & F2 & _). exists schedule, qs. cbn. split_and!; try done.
  rewrite F2, lookup_insert_eq. by eexists.
Qed.


(** ** Examples *)

(** A clock that counts, the same quotes always, and a cancellation before the
    given reading of the flag. *)
Definition demo_env (cancelled_from : nat) : Environment := {|
  en_clock := fun k => 100 + Z.of_nat k; en_cancelled := fun k => (cancelled_from <=? k)%nat;
  en_quotes := fun _ => Ok demo_quotes; en_polls := fun _ => 1%nat |}.

Definition demo_scheduler : Scheduler := set_state_callback true (new_scheduler (run [])).

Definition demo_submitted : Scheduler := (submit demo_half 7 (Ok demo_quotes) demo_scheduler).2.

Definition demo_state : AlgoOrderState := new_state demo_half 1 2 7 (arrival_price demo_quotes).

(** The thread of the job: what it returns, and the state, the saved states and
    the system it leaves. *)
Definition demo_job (cancelled_from : nat) : result unit * Run :=
  run_job (demo_env cancelled_from) demo_half (job_thread demo_state demo_submitted).

Definition outline (s : AlgoOrderState) : AlgoOrderStatus * nat * double :=
  (as_status s, as_current_slice s, as_remaining s).


Example demo_job_completes : outline <$> rn_saved (demo_job 100).2 =
  [(AlgoRunning, 0%nat, dbl 8); (AlgoRunning, 1%nat, dbl 6); (AlgoRunning, 1%nat, dbl 6);
   (AlgoRunning, 2%nat, dbl 4); (AlgoCompleted, 2%nat, dbl 4)].
Proof. vm_compute. reflexivity. Qed.

(** A cancellation seen at the start of a slice ends the job without saving it:
    the last saved state is a running one.  After a restart the job is resumed
    from there, although its parent was cancelled, and fails. *)
Example cancellation_not_saved :
  outline (rn_state (demo_job 1).2) = (AlgoCancelled, 1%nat, dbl 6) /\
  outline <$> last (rn_saved (demo_job 1).2) = Some (AlgoRunning, 1%nat, dbl 6) /\
  (po_status <$> parents_ (rn_oms (demo_job 1).2) !! 1) = Some Cancelled.
Proof. vm_compute. auto. Qed.

Definition demo_restarted : Scheduler :=
  restore_recoverable (fun _ => 200)
    (match last (rn_saved (demo_job 1).2) with Some s => [(s, Some demo_half)] | None => [] end)
    (set_state_callback true (new_scheduler (rn_oms (demo_job 1).2))).

Example resumed_after_cancellation : sd_started demo_restarted = [1] /\
  match find 1 demo_restarted with
  | Some s => let s' := rn_state (run_job (demo_env 100) demo_half (job_thread s demo_restarted)).2 in
      (as_status s', as_error s', as_recovered s') =
      (AlgoFailed, "cannot create child for terminal parent", true)
  | None => False
  end.
Proof. vm_compute. auto. Qed.
