(* ===== verification/ExecutionRisk.v ===== *)
(** * Execution risk ([execution_risk.hpp], [execution_risk.cpp])

    The limits that a child order has to keep: a kill switch, quantities,
    notional, participation in the market volume, and a price collar on the
    adverse side.  A limit of zero is no limit, except for the collar. *)

From S2P Require Import Prelude.
From S2P Require Import Float.
From S2P Require Import Oms.
From S2P Require Import Router.

Inductive ExecutionRiskRejectReason :=
| NoReject | KillSwitchActive | InvalidOrder | ChildQuantityExceeded | ParentQuantityExceeded
| NotionalExceeded | ParticipationExceeded | PriceCollarExceeded.

#[export] Instance ExecutionRiskRejectReason_eq_dec : EqDecision ExecutionRiskRejectReason.
Proof. solve_decision. Defined.

Definition reject_reason_to_string (r : ExecutionRiskRejectReason) : string :=
  match r with
  | NoReject => "NONE" | KillSwitchActive => "KILL_SWITCH_ACTIVE" | InvalidOrder => "INVALID_ORDER"
  | ChildQuantityExceeded => "CHILD_QUANTITY_EXCEEDED"
  | ParentQuantityExceeded => "PARENT_QUANTITY_EXCEEDED" | NotionalExceeded => "NOTIONAL_EXCEEDED"
  | ParticipationExceeded => "PARTICIPATION_EXCEEDED" | PriceCollarExceeded => "PRICE_COLLAR_EXCEEDED"
  end.

Record ExecutionRiskLimits := {
  kill_switch_active : bool; max_parent_quantity : double; max_child_quantity : double;
  max_order_notional : double; max_participation_rate : double; price_collar_bps : double
}.

(** The default limits: a collar of 100 % only. *)
Definition default_limits : ExecutionRiskLimits := {|
  kill_switch_active := false; max_parent_quantity := dzero; max_child_quantity := dzero;
  max_order_notional := dzero; max_participation_rate := dzero; price_collar_bps := dbl 10000 |}.

Record ExecutionRiskCheck := {
  rk_side : RouteSide; rk_parent_quantity : double; rk_child_quantity : double;
  rk_order_price : double; rk_reference_price : double; rk_market_volume : double
}.

Record ExecutionRiskDecision := {
  rd_accepted : bool; rd_reason : ExecutionRiskRejectReason; rd_message : string
}.

Definition reject (reason : ExecutionRiskRejectReason) (message : string) : ExecutionRiskDecision := {|
  rd_accepted := false; rd_reason := reason; rd_message := message |}.

Definition accept : ExecutionRiskDecision := {|
  rd_accepted := true; rd_reason := NoReject; rd_message := "accepted" |}.

Definition non_negative (value : double) : bool := isfinite value && dge value dzero.

Definition validate_limits (l : ExecutionRiskLimits) : result unit :=
  _ ← guard_or (non_negative (max_parent_quantity l))
        (invalid_argument "maximum parent quantity must be non-negative");
  _ ← guard_or (non_negative (max_child_quantity l))
        (invalid_argument "maximum child quantity must be non-negative");
  _ ← guard_or (non_negative (max_order_notional l))
        (invalid_argument "maximum order notional must be non-negative");
  _ ← guard_or (negb (negb (isfinite (max_participation_rate l)) ||
                      dlt (max_participation_rate l) dzero ||
                      dgt (max_participation_rate l) (dbl 1)))
        (invalid_argument "maximum participation rate must be in [0, 1]");
  guard_or (non_negative (price_collar_bps l)) (invalid_argument "price collar must be non-negative").

(** The object holds its limits only. *)
Definition ExecutionRiskManager := ExecutionRiskLimits.

Definition new_risk_manager (l : ExecutionRiskLimits) : result ExecutionRiskManager :=
  _ ← validate_limits l; Ok l.

Definition set_limits (l : ExecutionRiskLimits) : ST ExecutionRiskManager unit := fun m =>
  match validate_limits l with Throw e => (Throw e, m) | Ok _ => (Ok tt, l) end.

Definition with_kill_switch (active : bool) (m : ExecutionRiskManager) : ExecutionRiskManager := {|
  kill_switch_active := active; max_parent_quantity := max_parent_quantity m;
  max_child_quantity := max_child_quantity m; max_order_notional := max_order_notional m;
  max_participation_rate := max_participation_rate m; price_collar_bps := price_collar_bps m |}.

Definition activate_kill_switch : ExecutionRiskManager -> ExecutionRiskManager := with_kill_switch true.
Definition deactivate_kill_switch : ExecutionRiskManager -> ExecutionRiskManager := with_kill_switch false.

(** The values that no order may have. *)
Definition invalid_values (r : ExecutionRiskCheck) : bool :=
  negb (isfinite (rk_parent_quantity r)) || negb (isfinite (rk_child_quantity r)) ||
  negb (isfinite (rk_order_price r)) || negb (isfinite (rk_reference_price r)) ||
  negb (isfinite (rk_market_volume r)) || dle (rk_parent_quantity r) dzero ||
  dle (rk_child_quantity r) dzero || dle (rk_order_price r) dzero ||
  dle (rk_reference_price r) dzero || dlt (rk_market_volume r) dzero.

(** Beyond a limit that is set. *)
Definition exceeds (limit value : double) : bool :=
  dgt limit epsilon && dgt value (dadd limit epsilon).

Definition exceeds_participation (m : ExecutionRiskManager) (r : ExecutionRiskCheck) : bool :=
  dgt (max_participation_rate m) epsilon && dgt (rk_market_volume r) epsilon &&
  dgt (ddiv (rk_child_quantity r) (rk_market_volume r)) (dadd (max_participation_rate m) epsilon).

(** How far the price is on the wrong side of the reference, in basis points. *)
Definition price_distance_bps (r : ExecutionRiskCheck) : double :=
  let difference := match rk_side r with
                    | RouteBuy => dsub (rk_order_price r) (rk_reference_price r)
                    | RouteSell => dsub (rk_reference_price r) (rk_order_price r)
                    end in
  let adverse := if dgt difference dzero then difference else dzero in
  dmul (ddiv adverse (rk_reference_price r)) (dbl 10000).

Definition check (m : ExecutionRiskManager) (r : ExecutionRiskCheck) : ExecutionRiskDecision :=
  if kill_switch_active m then reject KillSwitchActive "execution kill switch is active"
  else if invalid_values r then reject InvalidOrder "execution risk request contains invalid values"
  else if exceeds (max_parent_quantity m) (rk_parent_quantity r)
  then reject ParentQuantityExceeded "parent quantity exceeds configured limit"
  else if exceeds (max_child_quantity m) (rk_child_quantity r)
  then reject ChildQuantityExceeded "child quantity exceeds configured limit"
  else if exceeds (max_order_notional m) (dmul (rk_child_quantity r) (rk_order_price r))
  then reject NotionalExceeded "child order notional exceeds configured limit"
  else if exceeds_participation m r
  then reject ParticipationExceeded "child order exceeds maximum participation rate"
  else if dgt (price_distance_bps r) (dadd (price_collar_bps m) epsilon)
  then reject PriceCollarExceeded "child order exceeds configured price collar"
  else accept.
