(* ===== verification/Rounding.v ===== *)
(** * Rounding and the bits of a double

    What rounding to double precision does to a positive number: the result is a
    canonical double, one of the two neighbours of the number on the grid of its
    binade.  Sums of positive doubles therefore do not shrink.  A [double] in memory
    is a 64-bit word: a sign bit, eleven bits of exponent and fifty-two of mantissa.
    There are many words for a NaN and one NaN here: the word that is written is
    that of the quiet NaN of the target. *)

From S2P Require Import Prelude.
From S2P Require Import Bytes.
From S2P Require Import Float.

Notation bits p := (Z.pos (digits2_pos p)).

(** The exponent of the grid for numbers below [2^d]. *)
Notation grid d := (fexp 53 1024 d).

Lemma grid_max d : grid d = Z.max (d - 53) (-1074).
Proof. done. Qed.

Lemma bits_bounds p : 2 ^ (bits p - 1) <= Z.pos p < 2 ^ bits p.
Proof.
  induction p as [p IH|p IH|]; cbn [digits2_pos]; rewrite ?Pos2Z.inj_succ; [| |done].
  all: replace (Z.succ (bits p) - 1) with (Z.succ (bits p - 1)) by lia; rewrite !Z.pow_succ_r by lia; lia.
Qed.

Lemma bits_unique p d : 0 < d -> 2 ^ (d - 1) <= Z.pos p < 2 ^ d -> bits p = d.
Proof.
  intros Hd H. pose proof (bits_bounds p) as B.
  destruct (Z.lt_trichotomy (bits p) d) as [Hl|[He|Hg]]; [|done|].
  - assert (2 ^ bits p <= 2 ^ (d - 1)) by (apply Z.pow_le_mono_r; lia). lia.
  - assert (2 ^ d <= 2 ^ (bits p - 1)) by (apply Z.pow_le_mono_r; lia). lia.
Qed.

(** ** Shifting *)

Lemma shr_1_floor r : 0 <= shr_m r -> shr_m (shr_1 r) = shr_m r / 2.
Proof.
  destruct r as [[|[p|p|]|p] b c]; cbn; intros H; try lia; try done.
  - rewrite (Pos2Z.inj_xI p). replace (2 * Z.pos p + 1) with (1 + Z.pos p * 2) by lia.
    by rewrite Z.div_add.
  - rewrite (Pos2Z.inj_xO p), Z.mul_comm. by rewrite Z.div_mul.
Qed.

Lemma pow_double p : 2 ^ Z.pos p~0 = 2 ^ Z.pos p * 2 ^ Z.pos p.
Proof. replace (Z.pos p~0) with (Z.pos p + Z.pos p) by lia. apply Z.pow_add_r; lia. Qed.

Lemma iter_floor n : forall r, 0 <= shr_m r -> shr_m (iter_pos shr_1 n r) = shr_m r / 2 ^ Z.pos n.
Proof.
  induction n as [n IH|n IH|]; intros r Hr; cbn [iter_pos].
  - assert (H1 : 0 <= shr_m (shr_1 r)) by (rewrite shr_1_floor by done; apply Z.div_pos; lia).
    assert (H2 : 0 <= shr_m (iter_pos shr_1 n (shr_1 r))) by (rewrite IH by done; apply Z.div_pos; lia).
    rewrite IH, IH, shr_1_floor by done. rewrite !Z.div_div by lia. f_equal.
    rewrite Pos2Z.inj_xI, Z.add_1_r, Z.pow_succ_r by lia. rewrite <- Pos2Z.inj_xO, pow_double. lia.
  - assert (H2 : 0 <= shr_m (iter_pos shr_1 n r)) by (rewrite IH by done; apply Z.div_pos; lia).
    rewrite IH, IH by done. rewrite Z.div_div by lia. by rewrite pow_double.
  - by apply shr_1_floor.
Qed.

(** A number at or above the exponent of the grid stays; else its digits below
    the grid are cut off. *)
Lemma shr_fexp_floor m e l : 0 <= m -> let k := Z.max 0 (grid (Zdigits2 m + e) - e) in
  shr_m (shr_fexp 53 1024 m e l).1 = m / 2 ^ k /\ (shr_fexp 53 1024 m e l).2 = e + k.
Proof.
  intros Hm k. unfold shr_fexp, shr. set (d := grid _ - e) in *.
  assert (Hl : shr_m (shr_record_of_loc m l) = m) by (by destruct l as [|[]]).
  destruct d as [|p|p] eqn:E; cbn [fst snd].
  - replace k with 0 by (unfold k; lia). rewrite Z.div_1_r. split; [done|lia].
  - replace k with (Z.pos p) by (unfold k; lia). rewrite iter_floor by (rewrite Hl; lia). by rewrite Hl.
  - replace k with 0 by (unfold k; lia). rewrite Z.div_1_r. split; [done|lia].
Qed.

Lemma round_nearest_even_near m l : m <= round_nearest_even m l <= m + 1.
Proof. unfold round_nearest_even. destruct l as [|[]]; [lia| |lia..]. case_if; lia. Qed.

(** ** The second step of rounding *)

Definition settle (s : bool) (m e : Z) : double :=
  let '(r, e') := shr_fexp 53 1024 m e loc_Exact in
  match shr_m r with
  | Z0 => S754_zero s
  | Zpos p => if e' <=? 971 then S754_finite s p e' else S754_infinity s
  | _ => S754_nan
  end.

Lemma binary_round_aux_settle s m e l : binary_round_aux 53 1024 s m e l =
  let '(r, e') := shr_fexp 53 1024 m e l in
  settle s (round_nearest_even (shr_m r) (loc_of_shr_record r)) e'.
Proof. done. Qed.

(** A mantissa within the grid of its exponent, or one step above. *)
Lemma settle_within s p e : -1074 <= e -> Z.pos p < 2 ^ 53 -> (e = -1074 \/ 2 ^ 52 <= Z.pos p) ->
  settle s (Z.pos p) e = if e <=? 971 then S754_finite s p e else S754_infinity s.
Proof.
  intros He Hp Hg. unfold settle. destruct (shr_fexp_floor (Z.pos p) e loc_Exact ltac:(lia)) as [H1 H2].
  destruct (shr_fexp 53 1024 (Z.pos p) e loc_Exact) as [r e']. cbn [fst snd] in *.
  assert (Hk : grid (Zdigits2 (Z.pos p) + e) = e).
  { cbn [Zdigits2]. rewrite grid_max. pose proof (bits_bounds p) as B. destruct Hg as [-> |Hg].
    - assert (bits p - 1 < 53); [|lia]. apply (Z.pow_lt_mono_r_iff 2); lia.
    - rewrite (bits_unique p 53) by lia. lia. }
  rewrite Hk, Z.sub_diag, Z.max_id in *. rewrite Z.div_1_r in H1. rewrite Z.add_0_r in H2. by rewrite H1, H2.
Qed.

Lemma settle_carry s e : -1074 <= e -> settle s (2 ^ 53) e =
  if e + 1 <=? 971 then S754_finite s 4503599627370496 (e + 1) else S754_infinity s.
Proof.
  intros He. unfold settle. destruct (shr_fexp_floor (2 ^ 53) e loc_Exact ltac:(lia)) as [H1 H2].
  destruct (shr_fexp 53 1024 (2 ^ 53) e loc_Exact) as [r e']. cbn [fst snd] in *.
  assert (Hk : grid (Zdigits2 (2 ^ 53) + e) - e = 1).
  { rewrite grid_max. change (Zdigits2 (2 ^ 53)) with 54. lia. }
  rewrite Hk in *. change (Z.max 0 1) with 1 in *. change (2 ^ 53 / 2 ^ 1) with 4503599627370496 in H1.
  by rewrite H1, H2.
Qed.

(** ** Canonical doubles *)

(** The representations that double precision has. *)
Definition canonical (x : double) : Prop :=
  match x with
  | S754_finite _ m e => -1074 <= e <= 971 /\ Z.pos m < 2 ^ 53 /\ (e = -1074 \/ 2 ^ 52 <= Z.pos m)
  | _ => True
  end.

Lemma canonical_grid s m e : canonical (S754_finite s m e) -> grid (bits m + e) = e.
Proof.
  intros (He & Hm & Hg). rewrite grid_max. pose proof (bits_bounds m) as B. destruct Hg as [-> |Hg].
  - assert (bits m - 1 < 53); [|lia]. apply (Z.pow_lt_mono_r_iff 2); lia.
  - rewrite (bits_unique m 53) by lia. lia.
Qed.

(** The result of rounding [m * 2^e], given with its inexact rest [l]: the first
    step takes the floor on the grid, or one more. *)
Lemma round_step s m e l : e <= grid (bits m + e) -> let E := grid (bits m + e) in
  exists m1, Z.pos m / 2 ^ (E - e) <= m1 <= Z.pos m / 2 ^ (E - e) + 1 /\ m1 <= 2 ^ 53 /\
    (E = -1074 \/ 2 ^ 52 <= m1) /\ binary_round_aux 53 1024 s (Z.pos m) e l = settle s m1 E.
Proof.
  intros He E. rewrite binary_round_aux_settle.
  destruct (shr_fexp_floor (Z.pos m) e l ltac:(lia)) as [H1 H2].
  destruct (shr_fexp 53 1024 (Z.pos m) e l) as [r e']. cbn [fst snd Zdigits2] in *. fold E in H1, H2, He.
  replace (Z.max 0 (E - e)) with (E - e) in * by lia. replace e' with E in * by lia.
  pose proof (round_nearest_even_near (shr_m r) (loc_of_shr_record r)) as Hn. 
  set (m1 := round_nearest_even _ _) in *. rewrite H1 in Hn. exists m1. split; [exact Hn|]. pose proof (bits_bounds m) as B.
  assert (HE : bits m + e - 53 <= E) by (unfold E; rewrite grid_max; lia).
  assert (Hlt : Z.pos m / 2 ^ (E - e) < 2 ^ 53).
  { apply Z.div_lt_upper_bound; [lia|]. rewrite <- Z.pow_add_r by lia. eapply Z.lt_le_trans; [apply B|].
    apply Z.pow_le_mono_r; lia. }
  split_and!; [lia| |done].
  destruct (Z.eq_dec E (-1074)) as [|Hne]; [by left|right]. etransitivity; [|apply Hn].
  assert (E = bits m + e - 53) as EE by (unfold E in *; rewrite grid_max in *; lia).
  apply Z.div_le_lower_bound; [lia|]. rewrite <- Z.pow_add_r by lia.
  replace (E - e + 52) with (bits m - 1) by lia. apply B.
Qed.

Lemma settle_canonical s m E : -1074 <= E -> 0 <= m <= 2 ^ 53 -> (E = -1074 \/ 2 ^ 52 <= m) ->
  canonical (settle s m E).
Proof.
  intros HE Hm Hg. destruct (Z.eq_dec m (2 ^ 53)) as [->|Hne].
  - rewrite settle_carry by done. destruct (Z.leb_spec (E + 1) 971); [|done]. cbn. lia.
  - destruct m as [|p|p]; [|rewrite settle_within by lia|lia].
    + destruct Hg as [->|]; [|lia]. done.
    + destruct (Z.leb_spec E 971); [|done]. cbn. lia.
Qed.

Lemma round_canonical s m e l : e <= grid (bits m + e) -> canonical (binary_round_aux 53 1024 s (Z.pos m) e l).
Proof.
  intros He. destruct (round_step s m e l He) as (m1 & Hn & Hle & Hg & ->). apply settle_canonical; [|split; [|done]|done].
  - rewrite grid_max. lia.
  - etransitivity; [|apply Hn]. apply Z.div_pos; lia.
Qed.

(** ** Alignment *)

Lemma iter_xO m d : Z.pos (Pos.iter xO m d) = Z.pos m * 2 ^ Z.pos d.
Proof.
  induction d as [|d IH] using Pos.peano_ind; [cbn [Pos.iter]; lia|].
  rewrite Pos.iter_succ, Pos2Z.inj_xO, IH, Pos2Z.inj_succ, Z.pow_succ_r by lia. lia.
Qed.

Lemma shl_align_spec m e e' : let (m', e2) := shl_align m e e' in
  e2 = Z.min e e' /\ Z.pos m' = Z.pos m * 2 ^ (e - e2) /\ bits m' + e2 = bits m + e.
Proof.
  assert (Hsame : e <= e' -> e = Z.min e e' /\ Z.pos m = Z.pos m * 2 ^ (e - e) /\ bits m + e = bits m + e).
  { intros H. rewrite Z.sub_diag. split_and!; lia. }
  unfold shl_align. destruct (e' - e) as [|d|d] eqn:E; [apply Hsame; lia..|].
  replace (e - e') with (Z.pos d) by lia. split_and!; [lia|apply iter_xO|].
  pose proof (bits_bounds m) as B. rewrite (bits_unique _ (bits m + Z.pos d)); [lia|lia|].
  rewrite iter_xO. replace (bits m + Z.pos d - 1) with (bits m - 1 + Z.pos d) by lia.
  rewrite !Z.pow_add_r by lia. assert (0 < 2 ^ Z.pos d) by lia. nia.
Qed.

Lemma binary_round_aligned s m e : exists m' e', binary_round 53 1024 s m e =
    binary_round_aux 53 1024 s (Z.pos m') e' loc_Exact /\ e' <= e /\ e' <= grid (bits m' + e') /\
  Z.pos m' = Z.pos m * 2 ^ (e - e').
Proof.
  unfold binary_round. pose proof (shl_align_spec m e (grid (bits m + e))) as H.
  destruct (shl_align m e _) as [m' e']. destruct H as (H1 & H2 & H3). exists m', e'. rewrite H3. split_and!; [done|lia..].
Qed.

Lemma binary_round_canonical s m e : canonical (binary_round 53 1024 s m e).
Proof. destruct (binary_round_aligned s m e) as (m' & e' & -> & _ & H & _). by apply round_canonical. Qed.

(** ** Order *)

Lemma dle_exponent m e m' e' : e < e' -> dle (S754_finite false m e) (S754_finite false m' e') = true.
Proof. intros H. unfold dle, SFleb, SFcompare. by rewrite (proj2 (Z.compare_lt_iff e e') H). Qed.

Lemma dle_mantissa m m' e : Z.pos m <= Z.pos m' -> dle (S754_finite false m e) (S754_finite false m' e) = true.
Proof.
  intros H. unfold dle, SFleb, SFcompare. rewrite Z.compare_refl.
  change (Pos.compare_cont Eq m m') with (Pos.compare m m'). by destruct (Pos.compare_spec m m'); [| |lia].
Qed.

(** Rounding does not go below a double that is below. *)
Lemma round_ge m e mz ez l : canonical (S754_finite false m e) -> ez <= e -> ez <= grid (bits mz + ez) ->
  Z.pos m * 2 ^ (e - ez) <= Z.pos mz ->
  dle (S754_finite false m e) (binary_round_aux 53 1024 false (Z.pos mz) ez l) = true.
Proof.
  intros (He & Hm & Hg) Hez Hgrid Hle. destruct (round_step false mz ez l Hgrid) as (m1 & [Hn _] & Hmax & Hg1 & ->).
  set (E := grid (bits mz + ez)) in *. assert (HE : -1074 <= E) by (unfold E; rewrite grid_max; lia).
  assert (H0 : 0 <= m1) by (etransitivity; [|exact Hn]; apply Z.div_pos; lia).
  destruct (Z.lt_ge_cases e E) as [Hlt|Hge].
  - destruct (Z.eq_dec m1 (2 ^ 53)) as [->|Hne].
    + rewrite settle_carry by done. case_if; [|done]. apply dle_exponent. lia.
    + destruct m1 as [|p|p]; [lia| |lia]. rewrite settle_within by lia. case_if; [|done]. by apply dle_exponent.
  - assert (Hm1 : Z.pos m * 2 ^ (e - E) <= m1).
    { etransitivity; [|exact Hn]. apply Z.div_le_lower_bound; [lia|].
      replace (2 ^ (E - ez) * (Z.pos m * 2 ^ (e - E))) with (Z.pos m * 2 ^ (e - ez)); [done|].
      replace (e - ez) with (e - E + (E - ez)) by lia. rewrite Z.pow_add_r by lia. ring. }
    destruct (Z.eq_dec m1 (2 ^ 53)) as [->|Hne].
    + rewrite settle_carry by done. destruct (Z.eq_dec e E) as [->|].
      * case_if; [|done]. apply dle_exponent. lia.
      * assert (e - E = 1) as Hd.
        { destruct (Z.le_gt_cases 2 (e - E)); [|lia].
          assert (2 ^ 2 <= 2 ^ (e - E)) by (apply Z.pow_le_mono_r; lia). nia. }
        rewrite Hd in Hm1. replace (E + 1) with e by lia. rewrite (proj2 (Z.leb_le e 971)) by lia.
        apply dle_mantissa. lia.
    + destruct (Z.eq_dec e E) as [->|].
      * rewrite Z.sub_diag in Hm1. destruct m1 as [|p|p]; [lia| |lia].
        rewrite settle_within by lia. rewrite (proj2 (Z.leb_le E 971)) by lia. apply dle_mantissa. lia.
      * assert (2 ^ 1 <= 2 ^ (e - E)) by (apply Z.pow_le_mono_r; lia). nia.
Qed.

(** A sum of positive numbers is not below its first term. *)
Lemma dadd_ge x y : canonical x -> dpositive x = true -> dpositive y = true -> dle x (dadd x y) = true.
Proof.
  intros Hc (m & e & ->)%dpositive_inv (my & ey & ->)%dpositive_inv. unfold dadd, SFadd.
  pose proof (shl_align_spec m e (Z.min e ey)) as H1. pose proof (shl_align_spec my ey (Z.min e ey)) as H2.
  destruct (shl_align m e _) as [m1 e1], (shl_align my ey _) as [m2 e2]. destruct H1 as (H1 & H3 & _).
  change (dle (S754_finite false m e) (binary_round 53 1024 false (m1 + m2) (Z.min e ey)) = true).
  replace e1 with (Z.min e ey) in * by lia.
  destruct (binary_round_aligned false (m1 + m2) (Z.min e ey)) as (mz & ez & -> & E1 & E2 & E3).
  apply round_ge; [done|lia|done|]. rewrite E3, Pos2Z.inj_add, H3.
  replace (e - ez) with (e - Z.min e ey + (Z.min e ey - ez)) by lia. rewrite Z.pow_add_r by lia.
  assert (0 <= 2 ^ (Z.min e ey - ez)) by lia. nia.
Qed.

Lemma dadd_not_less x y : canonical x -> dpositive x = true -> dpositive y = true -> dgt x (dadd x y) = false.
Proof. intros. unfold dgt. by apply dle_not_dlt, dadd_ge. Qed.

(** ** The bits of a double *)

Definition sign_bit (s : bool) : Z := if s then 2 ^ 63 else 0.

Definition double_bits (x : double) : Z :=
  match x with
  | S754_zero s => sign_bit s
  | S754_infinity s => sign_bit s + 2047 * 2 ^ 52
  | S754_nan => 2047 * 2 ^ 52 + 2 ^ 51
  | S754_finite s m e =>
      sign_bit s + (if Z.pos m <? 2 ^ 52 then Z.pos m else (e + 1075) * 2 ^ 52 + (Z.pos m - 2 ^ 52))
  end.

Definition double_of_bits (z : Z) : double :=
  let s := 2 ^ 63 <=? z in
  let exponent := z mod 2 ^ 63 / 2 ^ 52 in
  let fraction := z mod 2 ^ 52 in
  if exponent =? 2047 then if fraction =? 0 then S754_infinity s else S754_nan
  else if exponent =? 0 then
    match fraction with Zpos m => S754_finite s m (-1074) | _ => S754_zero s end
  else
    match fraction + 2 ^ 52 with Zpos m => S754_finite s m (exponent - 1075) | _ => S754_nan end.

(** The eight bytes of a double. *)
Definition double_bytes (x : double) : list Z := le 8 (double_bits x).

Example bits_of_numbers :
  double_bits (dbl 1) = 4607182418800017408 /\ double_bits (dbl (-2)) = 13835058055282163712 /\
  double_of_bits 4599075939470750515 = ddiv (dbl 3) (dbl 10) /\
  double_of_bits 1 = S754_finite false 1 (-1074) /\ double_of_bits (2 ^ 64 - 1) = S754_nan.
Proof. by vm_compute. Qed.

(** The fields of a word. *)
Lemma word_fields s exponent fraction : 0 <= exponent < 2048 -> 0 <= fraction < 2 ^ 52 ->
  let z := sign_bit s + (exponent * 2 ^ 52 + fraction) in
  in_u64 z /\ (2 ^ 63 <=? z) = s /\ z mod 2 ^ 63 / 2 ^ 52 = exponent /\ z mod 2 ^ 52 = fraction.
Proof.
  intros He Hf z. unfold z, in_u64.
  assert (Hb : 0 <= exponent * 2 ^ 52 + fraction < 2 ^ 63).
  { change (2 ^ 63) with (2048 * 2 ^ 52). nia. }
  assert (Hm : z mod 2 ^ 63 = exponent * 2 ^ 52 + fraction).
  { unfold z. destruct s; cbn [sign_bit]; [|by rewrite Z.add_0_l, Z.mod_small].
    rewrite <- (Z.mod_unique _ _ 1 (exponent * 2 ^ 52 + fraction)); lia. }
  split; [destruct s; cbn [sign_bit]; lia|].
  split; [destruct s; cbn [sign_bit]; [apply Z.leb_le|apply Z.leb_gt]; lia|].
  fold z. rewrite Hm. rewrite Z.div_add_l, Z.div_small, Z.add_0_r by lia. split; [done|].
  assert (z = (2048 * Z.b2z s + exponent) * 2 ^ 52 + fraction) as ->.
  { unfold z. destruct s; cbn [sign_bit Z.b2z]; lia. }
  rewrite Z.add_comm, Z_mod_plus_full. by apply Z.mod_small.
Qed.

Lemma word_of_fields x : canonical x -> exists s exponent fraction,
  0 <= exponent < 2048 /\ 0 <= fraction < 2 ^ 52 /\
  double_bits x = sign_bit s + (exponent * 2 ^ 52 + fraction) /\
  x = if exponent =? 2047 then if fraction =? 0 then S754_infinity s else S754_nan
      else if exponent =? 0 then
        match fraction with Zpos m => S754_finite s m (-1074) | _ => S754_zero s end
      else match fraction + 2 ^ 52 with Zpos m => S754_finite s m (exponent - 1075) | _ => S754_nan end.
Proof.
  destruct x as [s|s| |s m e]; cbn [canonical double_bits]; intros Hc.
  - exists s, 0, 0. repeat split; lia.
  - exists s, 2047, 0. repeat split; lia.
  - exists false, 2047, (2 ^ 51). repeat split; lia.
  - destruct Hc as (He & Hm & Hn). destruct (Z.ltb_spec (Z.pos m) (2 ^ 52)).
    + exists s, 0, (Z.pos m). replace e with (-1074) by lia. repeat split; lia.
    + exists s, (e + 1075), (Z.pos m - 2 ^ 52).
      rewrite (proj2 (Z.eqb_neq (e + 1075) 2047)), (proj2 (Z.eqb_neq (e + 1075) 0)) by lia.
      replace (Z.pos m - 2 ^ 52 + 2 ^ 52) with (Z.pos m) by lia.
      replace (e + 1075 - 1075) with e by lia. repeat split; lia.
Qed.

Lemma double_bits_range x : canonical x -> in_u64 (double_bits x).
Proof.
  intros (s & ex & f & H1 & H2 & -> & _)%word_of_fields. by apply word_fields.
Qed.

(** The word of a double gives it back. *)
Lemma double_of_bits_bits x : canonical x -> double_of_bits (double_bits x) = x.
Proof.
  intros (s & ex & f & H1 & H2 & -> & ->)%word_of_fields. unfold double_of_bits.
  by destruct (word_fields s ex f H1 H2) as (_ & -> & -> & ->).
Qed.

Lemma length_double_bytes x : length (double_bytes x) = 8%nat.
Proof. apply length_le. Qed.

Lemma of_double_bytes x : canonical x -> double_of_bits (of_le (double_bytes x)) = x.
Proof.
  intros H. unfold double_bytes. rewrite of_le_le by (by apply double_bits_range).
  by apply double_of_bits_bits.
Qed.

(** Every word is a canonical double. *)
Lemma double_of_bits_canonical z : in_u64 z -> canonical (double_of_bits z).
Proof.
  intros Hz. unfold double_of_bits. set (ex := z mod 2 ^ 63 / 2 ^ 52). set (f := z mod 2 ^ 52).
  assert (0 <= f < 2 ^ 52) by (by apply Z.mod_pos_bound).
  assert (0 <= ex < 2048).
  { pose proof (Z.mod_pos_bound z (2 ^ 63) eq_refl). split; [apply Z.div_pos; lia|].
    apply Z.div_lt_upper_bound; lia. }
  destruct (Z.eqb_spec ex 2047); [by case_if|]. destruct (Z.eqb_spec ex 0).
  - destruct f eqn:E; cbn [canonical]; [done|lia|done].
  - destruct (f + 2 ^ 52) eqn:E; cbn [canonical]; [done|lia|done].
Qed.

(** Every word but that of a NaN is that of its double. *)
Lemma double_bits_of_bits z : in_u64 z -> double_of_bits z <> S754_nan -> double_bits (double_of_bits z) = z.
Proof.
  intros Hz. unfold double_of_bits. set (ex := z mod 2 ^ 63 / 2 ^ 52). set (f := z mod 2 ^ 52).
  assert (0 <= f < 2 ^ 52) by (by apply Z.mod_pos_bound).
  pose proof (Z.mod_pos_bound z (2 ^ 63) eq_refl).
  assert (0 <= ex < 2048).
  { split; [apply Z.div_pos; lia|]. apply Z.div_lt_upper_bound; lia. }
  assert (z mod 2 ^ 63 = ex * 2 ^ 52 + f) as E1.
  { unfold ex, f. rewrite (Z.div_mod (z mod 2 ^ 63) (2 ^ 52)) at 1 by lia.
    rewrite (Z.mod_mod_divide z (2 ^ 63) (2 ^ 52)) by (by exists (2 ^ 11)). lia. }
  assert (z = sign_bit (2 ^ 63 <=? z) + (ex * 2 ^ 52 + f)) as E2.
  { rewrite <- E1. unfold in_u64 in Hz. destruct (Z.leb_spec (2 ^ 63) z); cbn [sign_bit].
    - rewrite <- (Z.mod_unique z (2 ^ 63) 1 (z - 2 ^ 63)); lia.
    - rewrite Z.mod_small; lia. }
  clearbody ex f. revert E2. generalize (2 ^ 63 <=? z) as s. intros s E2.
  destruct (Z.eqb_spec ex 2047); [case_if; [|done]|destruct (Z.eqb_spec ex 0)]; cbn [double_bits]; intros _.
  - breflect. subst. lia.
  - destruct f eqn:E; cbn [double_bits]; [subst; lia| |lia].
    rewrite (proj2 (Z.ltb_lt _ _)) by lia. subst. lia.
  - destruct (f + 2 ^ 52) eqn:E; cbn [double_bits]; [lia| |lia].
    rewrite (proj2 (Z.ltb_ge _ _)) by lia. rewrite <- E. lia.
Qed.
