(* ===== verification/Decimal.v ===== *)
(** * Decimal texts of numbers

    [std::stod], [std::stoull] and [std::to_string(double)] of the standard
    library in the "C" locale: the number that a text denotes is computed exactly
    and rounded once, to nearest with ties to even.  As in glibc a result too
    small for the normal range is out of range unless it is exact. *)

From S2P Require Import Prelude.
From S2P Require Import Text.
From S2P Require Import Float.
From S2P Require Import Rounding.

(** ** Reading *)

Definition code (c : ascii) : Z := Z.of_nat (nat_of_ascii c).

Definition is_space (c : ascii) : bool := (code c =? 32) || ((9 <=? code c) && (code c <=? 13)).

Fixpoint skip_space (s : str) : str :=
  match s with c :: s' => if is_space c then skip_space s' else s | [] => [] end.

Definition lower (c : ascii) : ascii :=
  if (65 <=? code c) && (code c <=? 90) then ascii_of_nat (nat_of_ascii c + 32) else c.

(** The text after a word in letters of either case. *)
Fixpoint after_word (word s : str) : option str :=
  match word, s with
  | [], _ => Some s
  | w :: word, c :: s => if bool_decide (lower c = w) then after_word word s else None
  | _, [] => None
  end.

(** An optional sign: whether it is a minus, and the rest. *)
Definition read_sign (s : str) : bool * str :=
  match s with
  | c :: s' => if bool_decide (c = "-"%char) then (true, s')
               else if bool_decide (c = "+"%char) then (false, s') else (false, s)
  | [] => (false, s)
  end.

Definition hex_value (c : ascii) : option Z :=
  match digit_value c with
  | Some d => Some d
  | None => let n := code (lower c) in if (97 <=? n) && (n <=? 102) then Some (n - 87) else None
  end.

(** The longest prefix of digits, and the rest. *)
Fixpoint span_digits (value : ascii -> option Z) (s : str) : list Z * str :=
  match s with
  | [] => ([], [])
  | c :: s' =>
      match value c with
      | None => ([], s)
      | Some d => let (ds, rest) := span_digits value s' in (d :: ds, rest)
      end
  end.

Definition number (base : Z) (ds : list Z) : Z := foldl (fun a d => base * a + d) 0 ds.

(** Digits with an optional point among them: their number, how many follow the
    point, and the rest. *)
Definition read_mantissa (base : Z) (value : ascii -> option Z) (s : str) : option (Z * nat * str) :=
  let (ip, s1) := span_digits value s in
  let whole := match ip with [] => None | _ => Some (number base ip, 0%nat, s1) end in
  match s1 with
  | c :: s2 =>
      if bool_decide (c = "."%char) then
        let (fp, s3) := span_digits value s2 in
        match ip ++ fp with [] => None | ds => Some (number base ds, length fp, s3) end
      else whole
  | [] => whole
  end.

(** An exponent after [marker], when there is one. *)
Definition read_exponent (marker : ascii) (s : str) : Z * str :=
  match s with
  | c :: s1 =>
      if bool_decide (lower c = marker) then
        let (negative, s2) := read_sign s1 in
        match span_digits digit_value s2 with
        | ([], _) => (0, s)
        | (ds, s3) => (if negative then - number 10 ds else number 10 ds, s3)
        end
      else (0, s)
  | [] => (0, s)
  end.

(** [num / den * 2^e2], rounded. *)
Definition rounded (emax : Z) (negative : bool) (num den e2 : Z) : double :=
  if num =? 0 then S754_zero negative
  else let '(q, e, l) := SFdiv_core_binary 53 emax num e2 den 0 in
       binary_round_aux 53 emax negative q e l.

(** Whether a rounded number is the number. *)
Definition is_exact (x : double) (num den e2 : Z) : bool :=
  match x with
  | S754_zero _ => num =? 0
  | S754_finite _ m e =>
      Z.pos m * den * 2 ^ Z.max (e - e2) 0 =? num * 2 ^ Z.max (e2 - e) 0
  | _ => false
  end.

(** Below the normal range, with an exponent range that does not matter. *)
Definition is_tiny (num den e2 : Z) : bool :=
  match rounded (2 ^ 30) false num den e2 with
  | S754_finite _ m e => Z.pos (digits2_pos m) + e <=? -1022
  | S754_zero _ => true
  | _ => false
  end.

(** What [strtod] finds: a number or a range error, and the rest of the text. *)
Inductive strtod_value := Number (x : double) | RangeError.

Definition in_range (negative : bool) (num den e2 : Z) : strtod_value :=
  let x := rounded 1024 negative num den e2 in
  if isfinite x && ((num =? 0) || negb (is_tiny num den e2) || is_exact x num den e2)
  then Number x else RangeError.

(** [D * 10^e] and [D * 2^e]. *)
Definition decimal_value (negative : bool) (d e : Z) : strtod_value :=
  in_range negative (d * 10 ^ Z.max e 0) (10 ^ Z.max (- e) 0) 0.

Definition hex_number (negative : bool) (d e : Z) : strtod_value := in_range negative d 1 e.

(** The text after [nan], which may carry characters in parentheses. *)
Fixpoint nan_payload (s : str) : option str :=
  match s with
  | [] => None
  | c :: s' =>
      if bool_decide (c = ")"%char) then Some s'
      else match hex_value c, (97 <=? code (lower c)) && (code (lower c) <=? 122) || (code c =? 95) with
           | None, false => None
           | _, _ => nan_payload s'
           end
  end.

Definition after_nan (s : str) : str :=
  match s with
  | c :: s' => if bool_decide (c = "("%char) then default s (nan_payload s') else s
  | [] => s
  end.

Definition read_decimal (negative : bool) (s : str) : option (strtod_value * str) :=
  match read_mantissa 10 digit_value s with
  | None => None
  | Some (d, places, s1) =>
      let (e, s2) := read_exponent "e" s1 in
      Some (decimal_value negative d (e - Z.of_nat places), s2)
  end.

Definition read_hex (negative : bool) (s : str) : option (strtod_value * str) :=
  match read_mantissa 16 hex_value s with
  | None => None
  | Some (d, places, s1) =>
      let (e, s2) := read_exponent "p" s1 in
      Some (hex_number negative d (e - 4 * Z.of_nat places), s2)
  end.

Definition strtod (s : str) : option (strtod_value * str) :=
  let (negative, s1) := read_sign (skip_space s) in
  match after_word (lit "infinity") s1, after_word (lit "inf") s1, after_word (lit "nan") s1,
        after_word (lit "0x") s1 ≫= read_hex negative with
  | Some s2, _, _, _ | None, Some s2, _, _ => Some (Number (S754_infinity negative), s2)
  | _, _, Some s2, _ => Some (Number S754_nan, after_nan s2)
  | _, _, _, Some r => Some r
  | _, _, _, None => read_decimal negative s1
  end.

(** The number and how many characters it took. *)
Definition stod (s : str) : result (double * nat) :=
  match strtod s with
  | None => Throw (invalid_argument "stod")
  | Some (RangeError, _) => Throw (out_of_range "stod")
  | Some (Number x, rest) => Ok (x, (length s - length rest)%nat)
  end.

(** With a minus the result is negated in the unsigned type. *)
Definition stoull (s : str) : result (Z * nat) :=
  let (negative, s1) := read_sign (skip_space s) in
  match span_digits digit_value s1 with
  | ([], _) => Throw (invalid_argument "stoull")
  | (ds, rest) =>
      let n := number 10 ds in
      if 2 ^ 64 <=? n then Throw (out_of_range "stoull")
      else Ok (u64 (if negative then - n else n), (length s - length rest)%nat)
  end.

(** ** Printing *)

(** The nearest integer to a fraction, the even one of two. *)
Definition round_even (num den : Z) : Z :=
  let q := num / den in
  match (2 * (num mod den)) ?= den with
  | Lt => q
  | Gt => q + 1
  | Eq => if Z.even q then q else q + 1
  end.

(** At least [n] characters, zeros on the left. *)
Definition zero_pad (n : nat) (s : str) : str := replicate (n - length s) "0"%char ++ s.

(** A number of millionths; 310 digits are enough for every double. *)
Definition print_millionths (negative : bool) (n : Z) : str :=
  (if negative then lit "-" else []) ++ digits 310 (n / 10 ^ 6) ++ lit "." ++
  zero_pad 6 (digits 310 (n mod 10 ^ 6)).

(** [std::to_string(double)], six places. *)
Definition double_to_string (x : double) : str :=
  match x with
  | S754_nan => lit "nan"
  | S754_infinity s => if s then lit "-inf" else lit "inf"
  | S754_zero s => print_millionths s 0
  | S754_finite s m e =>
      print_millionths s (round_even (Z.pos m * 10 ^ 6 * 2 ^ Z.max e 0) (2 ^ Z.max (- e) 0))
  end.

(** ** Numbers read are doubles *)

Lemma digit_value_nonneg c d : digit_value c = Some d -> 0 <= d.
Proof. unfold digit_value. case_if; [|done]. intros [= <-]. breflect. lia. Qed.

Lemma hex_value_nonneg c d : hex_value c = Some d -> 0 <= d.
Proof.
  unfold hex_value. destruct (digit_value c) eqn:E; [intros [= <-]; by eapply digit_value_nonneg|].
  case_if; [|done]. intros [= <-]. breflect. lia.
Qed.

Lemma span_digits_nonneg value s : (forall c d, value c = Some d -> 0 <= d) ->
  Forall (fun d => 0 <= d) (span_digits value s).1.
Proof.
  intros Hv. induction s as [|c s IH]; cbn; [constructor|]. destruct (value c) eqn:E; [|constructor].
  destruct (span_digits value s). cbn in *. constructor; [by eapply Hv|done].
Qed.

Lemma number_nonneg base ds : 0 <= base -> Forall (fun d => 0 <= d) ds -> 0 <= number base ds.
Proof.
  intros Hb. unfold number. assert (H : forall a, 0 <= a -> Forall (fun d => 0 <= d) ds ->
    0 <= foldl (fun a d => base * a + d) a ds); [|by apply H].
  induction ds as [|d ds IH]; intros a Ha HF; [done|]. apply Forall_cons in HF as [Hd HF]. apply IH; [nia|done].
Qed.

Lemma read_mantissa_nonneg base value s d places rest : 0 <= base ->
  (forall c d, value c = Some d -> 0 <= d) -> read_mantissa base value s = Some (d, places, rest) -> 0 <= d.
Proof.
  intros Hb Hv. unfold read_mantissa. pose proof (span_digits_nonneg value s Hv) as H1.
  destruct (span_digits value s) as [ip s1]. cbn [fst] in H1.
  assert (Hw : match ip with [] => None | _ => Some (number base ip, 0%nat, s1) end = Some (d, places, rest) -> 0 <= d).
  { destruct ip; [done|]. intros [= <- _ _]. by apply number_nonneg. }
  destruct s1 as [|c s2]; [done|]. case_bool_decide; [|done].
  pose proof (span_digits_nonneg value s2 Hv) as H2. destruct (span_digits value s2) as [fp s3]. cbn [fst] in H2.
  assert (H3 : Forall (fun d => 0 <= d) (ip ++ fp)) by by apply Forall_app.
  destruct (ip ++ fp); [done|]. intros [= <- _ _]. by apply number_nonneg.
Qed.

Lemma Zdigits2_bits z : 0 < z -> exists p, z = Z.pos p /\ Zdigits2 z = bits p.
Proof. destruct z as [|p|]; try lia. eauto. Qed.

(** The quotient of [rounded] has digits down to the grid. *)
Lemma quotient_bits p den k q : 0 < den -> 0 <= k -> Z.pos p * 2 ^ k / den = Z.pos q ->
  bits p + k - Zdigits2 den <= bits q.
Proof.
  intros Hd Hk Hq. destruct (Zdigits2_bits den Hd) as (dp & -> & ->).
  pose proof (bits_bounds p) as Bp. pose proof (bits_bounds dp) as Bd. pose proof (bits_bounds q) as Bq.
  destruct (Z.le_gt_cases (bits p + k - bits dp) (bits q)) as [|Hlt]; [done|exfalso].
  assert (Hge : 2 ^ bits q <= Z.pos q).
  { rewrite <- Hq. apply Z.div_le_lower_bound; [lia|].
    transitivity (2 ^ (bits p - 1 + k)).
    - transitivity (2 ^ (bits dp + bits q)); [|apply Z.pow_le_mono_r; lia].
      rewrite Z.pow_add_r by lia. apply Z.mul_le_mono_nonneg_r; lia.
    - rewrite Z.pow_add_r by lia. apply Z.mul_le_mono_nonneg_r; lia. }
  lia.
Qed.

Lemma rounded_canonical negative num den e2 : 0 <= num -> 0 < den -> canonical (rounded 1024 negative num den e2).
Proof.
  intros Hn Hd. unfold rounded. destruct (Z.eqb_spec num 0) as [|Hne]; [done|].
  destruct (Zdigits2_bits num ltac:(lia)) as (p & -> & Hp). unfold SFdiv_core_binary.
  rewrite Hp, Z.add_0_r, Z.sub_0_r. set (D := bits p + e2 - Zdigits2 den).
  set (e' := Z.min (grid D) e2). set (k := e2 - e').
  assert (Hk : 0 <= k) by (unfold k, e'; lia).
  assert (Hm : match k with Z0 => Z.pos p | Zpos _ => Z.shiftl (Z.pos p) k | Zneg _ => 0 end = Z.pos p * 2 ^ k).
  { destruct k eqn:Ek; [lia|by rewrite Z.shiftl_mul_pow2 by lia|lia]. }
  replace (e2 - e') with k by done. rewrite Hm.
  destruct (Z.div_eucl (Z.pos p * 2 ^ k) den) as [q r] eqn:Eq.
  assert (Hq : Z.pos p * 2 ^ k / den = q) by (unfold Z.div; by rewrite Eq).
  destruct q as [|q|q].
  - rewrite binary_round_aux_settle. destruct (shr_fexp_floor 0 e' (new_location den r) ltac:(lia)) as [H1 H2].
    destruct (shr_fexp 53 1024 0 e' _) as [rr E]. cbn [fst snd] in H1, H2. rewrite Z.div_0_l in H1 by lia.
    pose proof (round_nearest_even_near (shr_m rr) (loc_of_shr_record rr)) as Hn'. rewrite H1 in *.
    assert (HD : grid D = -1074).
    { apply Z.div_small_iff in Hq as [Hq|Hq]; [|lia|lia]. destruct (Z.eq_dec (grid D) (-1074)) as [|Hg]; [done|].
      exfalso. rewrite grid_max in Hg. assert (53 <= bits p + k - Zdigits2 den) as Hb.
      { unfold k, e'. rewrite grid_max. unfold D in *. lia. }
      destruct (Zdigits2_bits den Hd) as (dp & -> & Hdp). rewrite Hdp in Hb.
      pose proof (bits_bounds p) as Bp. pose proof (bits_bounds dp) as Bd.
      assert (2 ^ (bits p - 1 + k) <= Z.pos p * 2 ^ k) by (rewrite Z.pow_add_r by lia; apply Z.mul_le_mono_nonneg_r; lia).
      assert (2 ^ bits dp <= 2 ^ (bits p - 1 + k)) by (apply Z.pow_le_mono_r; lia). lia. }
    assert (HE : E = -1074).
    { rewrite H2. cbn [Zdigits2]. rewrite !grid_max in *. unfold e'. rewrite !grid_max. lia. }
    apply settle_canonical; [lia|lia|by left].
  - apply round_canonical. pose proof (quotient_bits p den k q Hd Hk Hq) as Hb.
    assert (D <= bits q + e') by (unfold D, k in *; lia). unfold e' in *. rewrite !grid_max in *. lia.
  - exfalso. assert (0 <= Z.pos p * 2 ^ k / den) by (apply Z.div_pos; [|lia]; assert (0 < 2 ^ k) by lia; lia). lia.
Qed.

Definition canonical_number (v : strtod_value) : Prop :=
  match v with Number x => canonical x | RangeError => True end.

Lemma in_range_canonical negative num den e2 : 0 <= num -> 0 < den ->
  canonical_number (in_range negative num den e2).
Proof. intros Hn Hd. unfold in_range. case_if; [|done]. by apply rounded_canonical. Qed.

Lemma read_decimal_canonical negative s v rest : read_decimal negative s = Some (v, rest) -> canonical_number v.
Proof.
  unfold read_decimal. destruct (read_mantissa _ _ s) as [[[d places] s1]|] eqn:E; [|done].
  apply read_mantissa_nonneg in E; [|lia|apply digit_value_nonneg].
  destruct (read_exponent _ s1) as [e s2]. intros [= <- _]. apply in_range_canonical; [|lia].
  assert (0 < 10 ^ Z.max (e - Z.of_nat places) 0) by lia. nia.
Qed.

Lemma read_hex_canonical negative s v rest : read_hex negative s = Some (v, rest) -> canonical_number v.
Proof.
  unfold read_hex. destruct (read_mantissa _ _ s) as [[[d places] s1]|] eqn:E; [|done].
  apply read_mantissa_nonneg in E; [|lia|apply hex_value_nonneg].
  destruct (read_exponent _ s1) as [e s2]. intros [= <- _]. by apply in_range_canonical.
Qed.

Lemma stod_canonical s x n : stod s = Ok (x, n) -> canonical x.
Proof.
  unfold stod. enough (H : forall v rest, strtod s = Some (v, rest) -> canonical_number v).
  { destruct (strtod s) as [[[y|] rest]|]; [|done..]. intros [= <- _]. by eapply (H (Number y)). }
  intros v rest. unfold strtod. destruct (read_sign (skip_space s)) as [negative s1].
  destruct (after_word (lit "infinity") s1); [by intros [= <- _]|].
  destruct (after_word (lit "inf") s1); [by intros [= <- _]|].
  destruct (after_word (lit "nan") s1); [by intros [= <- _]|].
  destruct (after_word (lit "0x") s1 ≫= read_hex negative) as [[v' rest']|] eqn:E.
  - intros [= <- _]. apply bind_Some in E as (s2 & _ & E). by eapply read_hex_canonical.
  - apply read_decimal_canonical.
Qed.

(** ** Examples *)

Example stod_values :
  stod (lit "0.1") = Ok (ddiv (dbl 1) (dbl 10), 3%nat) /\
  stod (lit " -12.5e1x") = Ok (dneg (dbl 125), 8%nat) /\
  stod (lit "0x1.8p1") = Ok (dbl 3, 7%nat) /\ stod (lit "0xg") = Ok (dzero, 1%nat) /\
  stod (lit "1e400") = Throw (out_of_range "stod") /\
  stod (lit "4.9e-324") = Throw (out_of_range "stod") /\
  stod (lit "0x1p-1074") = Ok (S754_finite false 1 (-1074), 9%nat) /\
  stod (lit ".") = Throw (invalid_argument "stod") /\ stod (lit "-INF") = Ok (S754_infinity true, 4%nat) /\
  stod (lit "1e+") = Ok (dbl 1, 1%nat) /\
  stod (lit "9007199254740993") = Ok (dbl 9007199254740992, 16%nat).
Proof. vm_compute. tauto. Qed.

Example stoull_values :
  stoull (lit "42 ") = Ok (42, 2%nat) /\ stoull (lit "-1") = Ok (2 ^ 64 - 1, 2%nat) /\
  stoull (lit "18446744073709551616") = Throw (out_of_range "stoull").
Proof. vm_compute. tauto. Qed.

Example double_texts :
  double_to_string (dbl 100) = lit "100.000000" /\
  double_to_string (dadd (ddiv (dbl 1) (dbl 10)) (ddiv (dbl 2) (dbl 10))) = lit "0.300000" /\
  double_to_string (dneg (ddiv (dbl 1) (dbl 2 ))) = lit "-0.500000" /\
  double_to_string (ddiv (dbl 1) (dbl (10 ^ 7))) = lit "0.000000" /\
  double_to_string (dbl (10 ^ 22)) = lit "10000000000000000000000.000000".
Proof. vm_compute. tauto. Qed.
