(* ===== verification/MarketReplay.v ===== *)
(** * Recorded market data ([market_replay.hpp], [market_replay.cpp])

    Quotes and trades in the order of time, with a position to read them from.
    The constructor validates and sorts them; [from_csv] reads them from a file. *)

From S2P Require Import Prelude.
From S2P Require Import Float.
From S2P Require Import Text.
From S2P Require Import Decimal.

Inductive MarketEventType := QuoteEvent | TradeEvent.

#[export] Instance MarketEventType_eq_dec : EqDecision MarketEventType.
Proof. solve_decision. Defined.

Definition event_type_to_string (t : MarketEventType) : string :=
  match t with QuoteEvent => "QUOTE" | TradeEvent => "TRADE" end.

Record MarketReplayEvent := {
  me_timestamp : Z; me_type : MarketEventType; me_symbol : string; me_venue : string;
  me_bid_price : double; me_bid_quantity : double; me_ask_price : double; me_ask_quantity : double;
  me_trade_price : double; me_trade_quantity : double
}.

Record MarketReplayStats := {
  st_event_count : nat; st_quote_count : nat; st_trade_count : nat; st_first_timestamp : Z;
  st_last_timestamp : Z
}.

Record MarketReplay := {
  rp_events : list MarketReplayEvent; rp_position : nat; rp_stats : MarketReplayStats
}.

Definition no_stats : MarketReplayStats := {|
  st_event_count := 0; st_quote_count := 0; st_trade_count := 0; st_first_timestamp := 0;
  st_last_timestamp := 0 |}.

(** [MarketReplay()] *)
Definition empty_replay : MarketReplay := {| rp_events := []; rp_position := 0; rp_stats := no_stats |}.

Definition invalid_quote (e : MarketReplayEvent) : bool :=
  negb (isfinite (me_bid_price e)) || negb (isfinite (me_ask_price e)) ||
  negb (isfinite (me_bid_quantity e)) || negb (isfinite (me_ask_quantity e)) ||
  dle (me_bid_price e) dzero || dle (me_ask_price e) dzero || dlt (me_bid_quantity e) dzero ||
  dlt (me_ask_quantity e) dzero || dlt (me_ask_price e) (me_bid_price e).

Definition invalid_trade (e : MarketReplayEvent) : bool :=
  negb (isfinite (me_trade_price e)) || negb (isfinite (me_trade_quantity e)) ||
  dle (me_trade_price e) dzero || dle (me_trade_quantity e) dzero.

Definition validate_event (e : MarketReplayEvent) : result unit :=
  _ ← guard_or (negb (me_timestamp e =? 0)) (invalid_argument "market event timestamp must be positive");
  _ ← guard_or (negb (bool_decide (me_symbol e = ""))) (invalid_argument "market event symbol cannot be empty");
  _ ← guard_or (negb (bool_decide (me_venue e = ""))) (invalid_argument "market event venue cannot be empty");
  match me_type e with
  | QuoteEvent => guard_or (negb (invalid_quote e)) (invalid_argument "invalid quote event")
  | TradeEvent => guard_or (negb (invalid_trade e)) (invalid_argument "invalid trade event")
  end.

Fixpoint validate_all (es : list MarketReplayEvent) : result unit :=
  match es with [] => Ok tt | e :: es => _ ← validate_event e; validate_all es end.

(** Not later in time. *)
Definition not_later (e f : MarketReplayEvent) : Prop := me_timestamp e <= me_timestamp f.

(** The loop over the events. *)
Definition count_event (s : nat * nat) (e : MarketReplayEvent) : nat * nat :=
  if bool_decide (me_type e = QuoteEvent) then (S s.1, s.2) else (s.1, S s.2).

Definition calculate_stats (es : list MarketReplayEvent) : MarketReplayStats :=
  let counts := foldl count_event (0%nat, 0%nat) es in {|
  st_event_count := length es; st_quote_count := counts.1; st_trade_count := counts.2;
  st_first_timestamp := match head es with Some e => me_timestamp e | None => 0 end;
  st_last_timestamp := match last es with Some e => me_timestamp e | None => 0 end |}.

Definition normalize (es : list MarketReplayEvent) : result MarketReplay :=
  _ ← validate_all es;
  let sorted := stable_sort me_timestamp es in
  Ok {| rp_events := sorted; rp_position := 0; rp_stats := calculate_stats sorted |}.

(** [MarketReplay(events)] *)
Definition new_replay : list MarketReplayEvent -> result MarketReplay := normalize.

Definition finished (r : MarketReplay) : bool := (length (rp_events r) <=? rp_position r)%nat.

Definition replay_empty (r : MarketReplay) : bool := (length (rp_events r) =? 0)%nat.

Definition peek (r : MarketReplay) : option MarketReplayEvent :=
  if finished r then None else rp_events r !! rp_position r.

Definition at_position (position : nat) (r : MarketReplay) : MarketReplay := {|
  rp_events := rp_events r; rp_position := position; rp_stats := rp_stats r |}.

Definition next (r : MarketReplay) : option MarketReplayEvent * MarketReplay :=
  if finished r then (None, r)
  else (rp_events r !! rp_position r, at_position (S (rp_position r)) r).

Definition reset : MarketReplay -> MarketReplay := at_position 0.

Definition seek_index (index : nat) (r : MarketReplay) : bool * MarketReplay :=
  if (length (rp_events r) <? index)%nat then (false, r) else (true, at_position index r).

(** [std::lower_bound]: the first event that is not before the time, or the end. *)
Fixpoint lower_bound (timestamp : Z) (es : list MarketReplayEvent) : nat :=
  match es with
  | [] => 0
  | e :: es => if me_timestamp e <? timestamp then S (lower_bound timestamp es) else 0
  end.

Definition seek_timestamp (timestamp : Z) (r : MarketReplay) : bool * MarketReplay :=
  let i := lower_bound timestamp (rp_events r) in
  if (i =? length (rp_events r))%nat then (false, at_position (length (rp_events r)) r)
  else (true, at_position i r).

(** ** Reading a file *)

Notation text s := (String.string_of_list_ascii s) (only parsing).

Definition newline : ascii := ascii_of_nat 10.

(** What [std::getline] gives, one line after the other. *)
Fixpoint file_lines (s : str) : list str :=
  match s with
  | [] => []
  | c :: s =>
      if bool_decide (c = newline) then [] :: file_lines s
      else match file_lines s with [] => [[c]] | l :: ls => (c :: l) :: ls end
  end.

(** The loop of [split_csv_line], in [field]. *)
Fixpoint split_fields (quoted : bool) (field s : str) : list str :=
  match s with
  | [] => [field]
  | c :: s1 =>
      if bool_decide (c = quote_char) then
        match s1 with
        | d :: s2 =>
            if quoted && bool_decide (d = quote_char) then split_fields quoted (field ++ [quote_char]) s2
            else split_fields (negb quoted) field s1
        | [] => split_fields (negb quoted) field s1
        end
      else if bool_decide (c = ","%char) && negb quoted then field :: split_fields quoted [] s1
      else split_fields quoted (field ++ [c]) s1
  end.

Definition split_csv_line (line : str) : list str := split_fields false [] line.

Definition parse_double (value : str) (field_name : string) : result double :=
  let invalid := Throw (runtime_error ("invalid " +:+ field_name +:+ ": " +:+ text value)) in
  match stod value with
  | Ok (x, consumed) => if negb (consumed =? length value)%nat || negb (isfinite x) then invalid else Ok x
  | Throw _ => invalid
  end.

Definition parse_timestamp (value : str) : result Z :=
  let invalid := Throw (runtime_error ("invalid timestamp_ns: " +:+ text value)) in
  match stoull value with
  | Ok (n, consumed) => if negb (consumed =? length value)%nat then invalid else Ok n
  | Throw _ => invalid
  end.

Definition parse_event_type (value : str) : result MarketEventType :=
  if bool_decide (value = lit "QUOTE") || bool_decide (value = lit "quote") then Ok QuoteEvent
  else if bool_decide (value = lit "TRADE") || bool_decide (value = lit "trade") then Ok TradeEvent
  else Throw (runtime_error ("unsupported market event type: " +:+ text value)).

(** An empty field is zero. *)
Definition optional_double (value : str) (field_name : string) : result double :=
  if bool_decide (value = []) then Ok dzero else parse_double value field_name.

Definition parse_event (line_number : Z) (fields : list str) : result MarketReplayEvent :=
  match fields with
  | [timestamp; type; symbol; venue; bid; bid_size; ask; ask_size; trade; trade_size] =>
      timestamp ← parse_timestamp timestamp; type ← parse_event_type type;
      bid ← optional_double bid "bid_price"; bid_size ← optional_double bid_size "bid_quantity";
      ask ← optional_double ask "ask_price"; ask_size ← optional_double ask_size "ask_quantity";
      trade ← optional_double trade "trade_price"; trade_size ← optional_double trade_size "trade_quantity";
      Ok {| me_timestamp := timestamp; me_type := type; me_symbol := text symbol; me_venue := text venue;
            me_bid_price := bid; me_bid_quantity := bid_size; me_ask_price := ask; me_ask_quantity := ask_size;
            me_trade_price := trade; me_trade_quantity := trade_size |}
  | _ => Throw (runtime_error ("invalid CSV field count on line " +:+ text (print_integer line_number)))
  end.

Definition read_event (line_number : Z) (line : str) : result MarketReplayEvent :=
  e ← parse_event line_number (split_csv_line line);
  match validate_event e with
  | Ok _ => Ok e
  | Throw x => Throw (runtime_error ("invalid market replay event on line " +:+
                 text (print_integer line_number) +:+ ": " +:+ what x))
  end.

Fixpoint read_events (line_number : Z) (lines : list str) : result (list MarketReplayEvent) :=
  match lines with
  | [] => Ok []
  | line :: lines =>
      if bool_decide (line = []) then read_events (line_number + 1) lines
      else e ← read_event line_number line; es ← read_events (line_number + 1) lines; Ok (e :: es)
  end.

Definition csv_header : string :=
  "timestamp_ns,type,symbol,venue,bid_price,bid_quantity,ask_price,ask_quantity,trade_price,trade_quantity".

(** [from_csv] of a file's content, [None] when it cannot be opened. *)
Definition from_csv (path : string) (file : option str) : result MarketReplay :=
  match file with
  | None => Throw (runtime_error ("could not open market replay file: " +:+ path))
  | Some s =>
      match file_lines s with
      | [] => Throw (runtime_error "market replay CSV is empty")
      | header :: lines =>
          if bool_decide (header <> lit csv_header) then Throw (runtime_error "unexpected market replay CSV header")
          else es ← read_events 2 lines; new_replay es
      end
  end.

(** ** What a replay plays *)

(** The events as given, in the order of time; those of one time stay as they
    are. *)
Record replay_ok (es : list MarketReplayEvent) (r : MarketReplay) : Prop := {
  rk_perm : rp_events r ≡ₚ es;
  rk_sorted : StronglySorted not_later (rp_events r);
  rk_stable : forall t, filter (fun e => me_timestamp e = t) (rp_events r) =
    filter (fun e => me_timestamp e = t) es;
  rk_valid : Forall (fun e => validate_event e = Ok tt) (rp_events r);
  rk_stats : rp_stats r = calculate_stats (rp_events r)
}.

Lemma validate_all_ok es x : validate_all es = Ok x -> Forall (fun e => validate_event e = Ok tt) es.
Proof.
  induction es as [|e es IH]; cbn; [by constructor|]. destruct (validate_event e) as [[]|] eqn:E; [|done].
  cbn. intros H. constructor; [done|by apply IH].
Qed.

Lemma normalize_ok es r : normalize es = Ok r -> replay_ok es r.
Proof.
  unfold normalize. destruct (validate_all es) as [x|] eqn:E; [|done]. cbn. intros [= <-].
  apply validate_all_ok in E. split; cbn.
  - apply stable_sort_perm.
  - apply stable_sort_sorted.
  - intros t. apply stable_sort_stable.
  - by rewrite stable_sort_perm.
  - done.
Qed.

Lemma lower_bound_spec timestamp es : let i := lower_bound timestamp es in
  Forall (fun e => me_timestamp e < timestamp) (take i es) /\
  (forall e, es !! i = Some e -> timestamp <= me_timestamp e) /\ (i <= length es)%nat.
Proof.
  induction es as [|e es (H1 & H2 & H3)]; cbn; [by split_and!; [constructor| |lia]|].
  destruct (Z.ltb_spec (me_timestamp e) timestamp); cbn.
  - split_and!; [by constructor|done|lia].
  - split_and!; [constructor|by intros ? [= <-]|lia].
Qed.

(** ** Files read back

    A cell is written as it is or between quotes, with the quotes in it doubled. *)

Definition Cell : Type := bool * str.

Definition doubled (s : str) : str := s ≫= fun c => if bool_decide (c = quote_char) then [c; c] else [c].

Definition cell_text (c : Cell) : str := if c.1 then quote_char :: doubled c.2 ++ [quote_char] else c.2.

Definition cell_ok (c : Cell) : Prop :=
  newline ∉ c.2 /\ (c.1 = false -> quote_char ∉ c.2 /\ ","%char ∉ c.2).

Fixpoint row_text (cells : list Cell) : str :=
  match cells with
  | [] => []
  | [c] => cell_text c
  | c :: cells => cell_text c ++ ","%char :: row_text cells
  end.

Definition csv_text (rows : list (list Cell)) : str :=
  lit csv_header ++ newline :: (rows ≫= fun r => row_text r ++ [newline]).

(** A row stands for an event. *)
Definition row_event (r : list Cell) (e : MarketReplayEvent) : Prop :=
  parse_event 0 (snd <$> r) = Ok e /\ validate_event e = Ok tt.

Lemma split_plain f s rest : quote_char ∉ s -> ","%char ∉ s ->
  split_fields false f (s ++ rest) = split_fields false (f ++ s) rest.
Proof.
  revert f. induction s as [|c s IH]; intros f Hq Hc; [by rewrite app_nil_r|].
  apply not_elem_of_cons in Hq as [Hq1 Hq2]. apply not_elem_of_cons in Hc as [Hc1 Hc2]. cbn [app split_fields].
  rewrite !bool_decide_eq_false_2 by congruence. cbn [andb]. rewrite IH by done. by rewrite <- app_assoc.
Qed.

(** The character after the closing quote is not a quote. *)
Definition closes (rest : str) : Prop := match rest with [] => True | d :: _ => d <> quote_char end.

Lemma split_quoted f s rest : closes rest ->
  split_fields true f (doubled s ++ quote_char :: rest) = split_fields false (f ++ s) rest.
Proof.
  intros HC. revert f. induction s as [|c s IH]; intros f.
  - rewrite app_nil_r. cbn [doubled mbind list_bind app split_fields]. rewrite bool_decide_eq_true_2 by done.
    destruct rest as [|d rest]; [done|]. cbn [closes] in HC. by rewrite (bool_decide_eq_false_2 (d = _)).
  - change (doubled (c :: s)) with ((if bool_decide (c = quote_char) then [c; c] else [c]) ++ doubled s).
    destruct (decide (c = quote_char)) as [->|Hc].
    + rewrite bool_decide_eq_true_2 by done. cbn [app split_fields]. rewrite bool_decide_eq_true_2 by done.
      cbn [andb]. rewrite IH. by rewrite <- app_assoc.
    + rewrite bool_decide_eq_false_2 by done. cbn [app split_fields]. rewrite bool_decide_eq_false_2 by done.
      cbn [negb]. rewrite andb_false_r, IH. by rewrite <- app_assoc.
Qed.

Lemma split_cell c rest : cell_ok c -> closes rest ->
  split_fields false [] (cell_text c ++ rest) = split_fields false c.2 rest.
Proof.
  destruct c as [[] s]; intros [_ H] HC; unfold cell_text; cbn [fst snd] in *.
  - cbn [app split_fields]. rewrite bool_decide_eq_true_2 by done. rewrite <- app_assoc. cbn [app andb negb].
    destruct (doubled s ++ quote_char :: rest) as [|d r] eqn:E; [by destruct (doubled s)|].
    cbn [andb negb]. rewrite <- E. by apply (split_quoted []).
  - destruct (H eq_refl). by apply (split_plain []).
Qed.

Lemma split_row r : r <> [] -> Forall cell_ok r -> split_csv_line (row_text r) = snd <$> r.
Proof.
  intros Hn HF. unfold split_csv_line. induction HF as [|c r Hc HF IH]; [done|]. destruct r as [|c' r].
  - cbn [row_text]. rewrite <- (app_nil_r (cell_text c)). by rewrite split_cell.
  - change (row_text (c :: c' :: r)) with (cell_text c ++ ","%char :: row_text (c' :: r)).
    rewrite split_cell by done. cbn [split_fields]. rewrite bool_decide_eq_false_2 by done.
    rewrite bool_decide_eq_true_2 by done. cbn [andb negb]. rewrite IH by done. done.
Qed.

Lemma file_lines_line l rest : newline ∉ l -> file_lines (l ++ newline :: rest) = l :: file_lines rest.
Proof.
  induction l as [|c l IH]; intros H; cbn [app file_lines]; [by rewrite bool_decide_eq_true_2|].
  apply not_elem_of_cons in H as [H1 H2]. rewrite bool_decide_eq_false_2 by congruence. by rewrite IH.
Qed.

Lemma doubled_plain c s : c <> quote_char -> c ∉ s -> c ∉ doubled s.
Proof.
  intros Hc Hs Hin. apply list_elem_of_bind in Hin as (d & Hd & Hin). apply Hs.
  case_bool_decide; set_solver.
Qed.

Lemma row_text_line r : Forall cell_ok r -> newline ∉ row_text r.
Proof.
  assert (forall c, cell_ok c -> newline ∉ cell_text c) as HC.
  { intros [[] s] [H _]; unfold cell_text; cbn [fst snd] in *; [|done].
    rewrite not_elem_of_cons, not_elem_of_app, list_elem_of_singleton. split_and!; [done| |done].
    by apply doubled_plain. }
  induction 1 as [|c r Hc HF IH]; [apply not_elem_of_nil|]. destruct r as [|c' r]; [by apply HC|].
  change (row_text (c :: c' :: r)) with (cell_text c ++ ","%char :: row_text (c' :: r)).
  rewrite not_elem_of_app, not_elem_of_cons. split_and!; [by apply HC|done|done].
Qed.

Lemma csv_lines rows : Forall (Forall cell_ok) rows ->
  file_lines (csv_text rows) = lit csv_header :: (row_text <$> rows).
Proof.
  intros HF. unfold csv_text. rewrite file_lines_line by (apply (bool_decide_unpack _); vm_compute; exact I). f_equal.
  induction HF as [|r rows Hr _ IH]; [done|]. cbn [mbind list_bind fmap list_fmap].
  rewrite <- app_assoc. cbn [app]. rewrite file_lines_line by by apply row_text_line. f_equal. exact IH.
Qed.

Lemma parse_event_line n m fields e : parse_event n fields = Ok e -> parse_event m fields = Ok e.
Proof. by do 11 (destruct fields as [|? fields]; [done|]). Qed.

Lemma row_event_not_blank r e : Forall cell_ok r -> row_event r e -> row_text r <> [] /\ r <> [].
Proof.
  intros _ [HP _]. destruct r as [|c [|c' r]]; [done|by destruct c|]. split; [|done].
  change (row_text (c :: c' :: r)) with (cell_text c ++ ","%char :: row_text (c' :: r)). by destruct (cell_text c).
Qed.

Lemma read_event_row n r e : Forall cell_ok r -> r <> [] ->
  read_event n (row_text r) = Ok e <-> row_event r e.
Proof.
  intros HF Hn. unfold read_event, row_event. rewrite split_row by done. unfold mbind, result_bind. split.
  - destruct (parse_event n (snd <$> r)) as [e'|] eqn:E; [|done]. apply (parse_event_line n 0) in E.
    destruct (validate_event e') as [[]|] eqn:EV; [|done]. intros [= <-]. by split.
  - intros [E EV]. apply (parse_event_line 0 n) in E. rewrite E, EV. done.
Qed.

Lemma read_events_rows n rows es : Forall (Forall cell_ok) rows -> Forall (fun r => row_text r <> []) rows ->
  read_events n (row_text <$> rows) = Ok es <-> Forall2 row_event rows es.
Proof.
  intros HF HB. revert n es. induction HF as [|r rows Hr _ IH]; intros n es.
  - split; [by intros [= <-]|intros H; by inversion H].
  - apply Forall_cons in HB as [Hb HB]. specialize (IH HB).
    assert (r <> []) as Hn by by intros ->. cbn [fmap list_fmap read_events].
    rewrite bool_decide_eq_false_2 by done. unfold mbind, result_bind. split.
    + destruct (read_event n (row_text r)) as [e|] eqn:E; [|done]. destruct (read_events (n + 1) _) as [l|] eqn:El; [|done].
      intros [= <-]. constructor; [by eapply read_event_row|by eapply IH].
    + intros H. inversion H as [|? e ? l He Hl]; subst. rewrite (proj2 (read_event_row n r e Hr Hn) He).
      by rewrite (proj2 (IH (n + 1) l) Hl).
Qed.

Lemma validate_all_valid es : Forall (fun e => validate_event e = Ok tt) es -> validate_all es = Ok tt.
Proof. induction 1 as [|e es He _ IH]; [done|]. cbn [validate_all]. unfold mbind, result_bind. by rewrite He. Qed.

(** A file of rows whose cells are written plainly or between quotes is read exactly
    if every row stands for a valid event; the replay then plays those events, each
    once, in the order of time.  Blank rows count for nothing and are left out here. *)
Theorem csv_reads_back path rows :
  Forall (Forall cell_ok) rows -> Forall (fun r => row_text r <> []) rows ->
  (forall es, Forall2 row_event rows es -> exists r, from_csv path (Some (csv_text rows)) = Ok r /\ replay_ok es r) /\
  (forall r, from_csv path (Some (csv_text rows)) = Ok r -> exists es, Forall2 row_event rows es /\ replay_ok es r).
Proof.
  intros HF HB. unfold from_csv. rewrite csv_lines by done. rewrite bool_decide_eq_false_2 by naive_solver.
  unfold mbind, result_bind. split.
  - intros es HE. rewrite (proj2 (read_events_rows 2 rows es HF HB) HE). unfold new_replay.
    assert (exists r, normalize es = Ok r) as [r E].
    { unfold normalize, mbind, result_bind. rewrite validate_all_valid; [by eexists|].
      clear HF HB. induction HE as [|row e rows es [_ H] _ IH]; by constructor. }
    exists r. split; [done|by apply normalize_ok].
  - intros r. destruct (read_events 2 _) as [es|] eqn:E; [|done]. intros Hr. exists es.
    split; [by eapply read_events_rows|by apply normalize_ok].
Qed.

(** Quotes and commas in a cell. *)
Example quoted_cells_split :
  split_csv_line (row_text [(false, lit "1"); (true, lit "a,b"); (true, [quote_char]); (false, [])]) =
    [lit "1"; lit "a,b"; [quote_char]; []].
Proof. vm_compute. reflexivity. Qed.

(** A file with the line ends of Windows is refused. *)
Example windows_header_refused :
  from_csv "f" (Some (lit csv_header ++ [ascii_of_nat 13; newline])) = Throw (runtime_error "unexpected market replay CSV header").
Proof. vm_compute. reflexivity. Qed.
