(* ===== verification/Backtest.v ===== *)
(** * Historical backtests ([backtest_engine.hpp], [backtest_engine.cpp])

    A schedule is worked on recorded quotes: each slice takes the first quote at
    or after its time, as a child order of the order management system that has
    to pass the risk check. *)

From S2P Require Import Prelude.
From S2P Require Import Float.
From S2P Require Import Arithmetic.
From S2P Require Import Oms.
From S2P Require Import Router.
From S2P Require Import Schedule.
From S2P Require Import LiveAlgo.
From S2P Require Import ExecutionRisk.
From S2P Require Import MarketReplay.

Record BacktestRequest := {
  bq_symbol : string; bq_side : RouteSide; bq_quantity : double;
  bq_schedule : ExecutionScheduleRequest double; bq_taker_fee_bps : double;
  bq_latency_ms : double; bq_latency_cost : double; bq_risk_limits : ExecutionRiskLimits
}.

Record BacktestFill := {
  bf_slice_index : nat; bf_parent_id : Z; bf_child_id : Z; bf_report_id : Z; bf_timestamp : Z;
  bf_requested : double; bf_filled : double; bf_remaining : double; bf_price : double;
  bf_notional : double; bf_fee : double; bf_risk_accepted : bool;
  bf_reason : ExecutionRiskRejectReason
}.

Record BacktestResult := {
  br_complete : bool; br_parent_id : Z; br_parent_status : OrderStatus; br_requested : double;
  br_filled : double; br_remaining : double; br_arrival_price : double; br_average_price : double;
  br_market_vwap : double; br_shortfall_bps : double; br_vwap_slippage_bps : double;
  br_notional : double; br_fees : double; br_accepted : nat; br_rejected : nat;
  br_fills : list BacktestFill
}.

Definition quote_price (e : MarketReplayEvent) (side : RouteSide) : double :=
  match side with RouteBuy => me_ask_price e | RouteSell => me_bid_price e end.

Definition quote_quantity (e : MarketReplayEvent) (side : RouteSide) : double :=
  match side with RouteBuy => me_ask_quantity e | RouteSell => me_bid_quantity e end.

(** The quotes of a symbol, and the quantity and notional of its trades. *)
Definition is_quote (symbol : string) (e : MarketReplayEvent) : Prop :=
  me_symbol e = symbol /\ me_type e = QuoteEvent.

Definition matching_quotes (symbol : string) (es : list MarketReplayEvent) : list MarketReplayEvent :=
  filter (is_quote symbol) es.

(** Traded notional and quantity. *)
Definition add_trade (symbol : string) (p : double * double) (e : MarketReplayEvent) : double * double :=
  if bool_decide (me_symbol e = symbol) && bool_decide (me_type e = TradeEvent)
  then (dadd p.1 (dmul (me_trade_price e) (me_trade_quantity e)), dadd p.2 (me_trade_quantity e))
  else p.

Definition traded (symbol : string) (es : list MarketReplayEvent) : double * double :=
  foldl (add_trade symbol) (dzero, dzero) es.

Definition with_fills (r : BacktestResult) (filled notional fees : double) (accepted rejected : nat)
    (fill : BacktestFill) : BacktestResult := {|
  br_complete := br_complete r; br_parent_id := br_parent_id r;
  br_parent_status := br_parent_status r; br_requested := br_requested r;
  br_filled := filled; br_remaining := br_remaining r; br_arrival_price := br_arrival_price r;
  br_average_price := br_average_price r; br_market_vwap := br_market_vwap r;
  br_shortfall_bps := br_shortfall_bps r; br_vwap_slippage_bps := br_vwap_slippage_bps r;
  br_notional := notional; br_fees := fees; br_accepted := accepted; br_rejected := rejected;
  br_fills := br_fills r ++ [fill] |}.

Definition rejected_fill (q : MarketReplayEvent) (index : nat) (parent_id child_id : Z)
    (requested price : double) (reason : ExecutionRiskRejectReason) : BacktestFill := {|
  bf_slice_index := index; bf_parent_id := parent_id; bf_child_id := child_id; bf_report_id := 0;
  bf_timestamp := me_timestamp q; bf_requested := requested; bf_filled := dzero;
  bf_remaining := requested; bf_price := price; bf_notional := dzero; bf_fee := dzero;
  bf_risk_accepted := false; bf_reason := reason |}.

Definition accepted_fill (q : MarketReplayEvent) (index : nat) (parent_id child_id report_id : Z)
    (requested filled price notional fee : double) : BacktestFill := {|
  bf_slice_index := index; bf_parent_id := parent_id; bf_child_id := child_id;
  bf_report_id := report_id; bf_timestamp := me_timestamp q; bf_requested := requested;
  bf_filled := filled; bf_remaining := dsub requested filled; bf_price := price;
  bf_notional := notional; bf_fee := fee; bf_risk_accepted := true; bf_reason := NoReject |}.

Definition add_rejected (r : BacktestResult) (fill : BacktestFill) : BacktestResult :=
  with_fills r (br_filled r) (br_notional r) (br_fees r) (br_accepted r) (S (br_rejected r)) fill.

Definition add_accepted (r : BacktestResult) (fill : BacktestFill) : BacktestResult :=
  with_fills r (dadd (br_filled r) (bf_filled fill)) (dadd (br_notional r) (bf_notional fill))
    (dadd (br_fees r) (bf_fee fill)) (S (br_accepted r)) (br_rejected r) fill.

(** The time of a slice. *)
Definition slice_time (first : Z) (slice : Slice double) : result Z :=
  ns ← to_u64 (dmul (sl_delay_seconds slice) (dbl 1000000000)); Ok (u64 (first + ns)).

(** The first quote that is not before a time. *)
Definition select_quote (target : Z) (quotes : list MarketReplayEvent) : option MarketReplayEvent :=
  snd <$> list_find (fun q => target <= me_timestamp q) quotes.

Section backtest.
Context (request : BacktestRequest) (manager : ExecutionRiskManager) (first : Z)
  (quotes : list MarketReplayEvent).

Definition risk_request (requested price reference available : double) : ExecutionRiskCheck := {|
  rk_side := bq_side request; rk_parent_quantity := bq_quantity request;
  rk_child_quantity := requested; rk_order_price := price; rk_reference_price := reference;
  rk_market_volume := available |}.

(** The fee of a notional. *)
Definition taker_fee (notional : double) : double :=
  ddiv (dmul notional (bq_taker_fee_bps request)) (dbl 10000).

(** A child that passed the check. *)
Definition work_accepted (q : MarketReplayEvent) (index : nat) (child_id : Z)
    (requested filled price : double) (r : BacktestResult) : ST Oms BacktestResult :=
  let notional := dmul filled price in
  let fee := taker_fee notional in
  _ ← mark_child_working child_id (me_timestamp q);
  report_id ← (if dgt filled epsilon then
                 report ← record_fill child_id price filled fee (me_timestamp q);
                 mret (xr_id report)
               else mret 0);
  _ ← (if dlt (dadd filled epsilon) requested then cancel_child child_id (me_timestamp q)
       else mret false);
  mret (add_accepted r (accepted_fill q index (br_parent_id r) child_id report_id requested filled
                          price notional fee)).

(** A slice on its quote; the result is the new result and what remains of the
    parent. *)
Definition work_quote (q : MarketReplayEvent) (index : nat) (slice : Slice double) (remaining : double)
    (r : BacktestResult) : ST Oms (BacktestResult * double) :=
  let available := quote_quantity q (bq_side request) in
  let requested := dmin (sl_quantity slice) remaining in
  let filled := dmin requested available in
  let price := quote_price q (bq_side request) in
  child_id ← create_child {| crq_parent_id := br_parent_id r; crq_venue := me_venue q;
                             crq_price := price; crq_quantity := requested;
                             crq_created := me_timestamp q |};
  let decision := check manager (risk_request requested price (br_arrival_price r) available) in
  if rd_accepted decision then
    r ← work_accepted q index child_id requested filled price r;
    mret (r, dsub remaining filled)
  else
    _ ← reject_child child_id (me_timestamp q);
    mret (add_rejected r (rejected_fill q index (br_parent_id r) child_id requested price
                            (rd_reason decision)), remaining).

(** The loop over the schedule. *)
Fixpoint backtest_loop (slices : list (Slice double)) (index : nat) (remaining : double)
    (r : BacktestResult) : ST Oms BacktestResult :=
  match slices with
  | [] => mret r
  | slice :: slices =>
      if dle remaining epsilon then mret r
      else
        target ← lift (slice_time first slice);
        match select_quote target quotes with
        | None => mret r
        | Some q =>
            p ← work_quote q index slice remaining r;
            backtest_loop slices (S index) p.2 p.1
        end
  end.

End backtest.

Definition new_backtest (parent_id : Z) (quantity arrival : double) : BacktestResult := {|
  br_complete := false; br_parent_id := parent_id; br_parent_status := New;
  br_requested := quantity; br_filled := dzero; br_remaining := dzero;
  br_arrival_price := arrival; br_average_price := dzero; br_market_vwap := dzero;
  br_shortfall_bps := dzero; br_vwap_slippage_bps := dzero; br_notional := dzero;
  br_fees := dzero; br_accepted := 0; br_rejected := 0; br_fills := [] |}.

(** The difference of the average price to a reference, in basis points of it. *)
Definition slippage_bps (side : RouteSide) (average reference : double) : double :=
  if dgt reference epsilon && dgt average epsilon then
    dmul (ddiv (match side with
                | RouteBuy => dsub average reference
                | RouteSell => dsub reference average
                end) reference) (dbl 10000)
  else dzero.

(** The figures after the loop; the status is that of the parent afterwards. *)
Definition finish_backtest (request : BacktestRequest) (trades : double * double) (status : OrderStatus)
    (r : BacktestResult) : BacktestResult :=
  let remaining := dmax dzero (dsub (bq_quantity request) (br_filled r)) in
  let average := if dgt (br_filled r) epsilon then ddiv (br_notional r) (br_filled r) else dzero in
  let vwap := if dgt trades.2 epsilon then ddiv trades.1 trades.2 else dzero in {|
  br_complete := dle remaining epsilon; br_parent_id := br_parent_id r;
  br_parent_status := status; br_requested := br_requested r; br_filled := br_filled r;
  br_remaining := remaining; br_arrival_price := br_arrival_price r; br_average_price := average;
  br_market_vwap := vwap;
  br_shortfall_bps := slippage_bps (bq_side request) average (br_arrival_price r);
  br_vwap_slippage_bps := slippage_bps (bq_side request) average vwap;
  br_notional := br_notional r; br_fees := br_fees r; br_accepted := br_accepted r;
  br_rejected := br_rejected r; br_fills := br_fills r |}.

Definition check_backtest (request : BacktestRequest) : result (list (Slice double) * ExecutionRiskManager) :=
  _ ← guard_or (negb (bool_decide (bq_symbol request = ""))) (invalid_argument "backtest symbol cannot be empty");
  _ ← guard_or (isfinite (bq_quantity request) && negb (dle (bq_quantity request) dzero))
        (invalid_argument "backtest quantity must be positive");
  schedule ← build_execution_schedule (bq_schedule request);
  manager ← new_risk_manager (bq_risk_limits request);
  Ok (schedule, manager).

(** With the caller's system or, when it gives none, a new one. *)
Definition run_historical_backtest (request : BacktestRequest) (replay : MarketReplay)
    : ST Oms BacktestResult :=
  p ← lift (check_backtest request);
  let first := st_first_timestamp (rp_stats replay) in
  parent_id ← create_parent {| prq_symbol := bq_symbol request; prq_side := bq_side request;
                               prq_quantity := bq_quantity request;
                               prq_algorithm := sr_algorithm (bq_schedule request) |} first;
  let quotes := matching_quotes (bq_symbol request) (rp_events replay) in
  match quotes with
  | [] => throw (runtime_error "no matching quote events in replay")
  | quote :: _ =>
      r ← backtest_loop request p.2 first quotes p.1 0 (bq_quantity request)
            (new_backtest parent_id (bq_quantity request) (quote_price quote (bq_side request)));
      let remaining := dmax dzero (dsub (bq_quantity request) (br_filled r)) in
      _ ← (if negb (dle remaining epsilon)
           then cancel_parent parent_id (st_last_timestamp (rp_stats replay)) else mret false);
      s ← get;
      let status := match find_parent parent_id s with Some p => po_status p | None => New end in
      mret (finish_backtest request (traded (bq_symbol request) (rp_events replay)) status r)
  end.
