(* ===== verification/BacktestProps.v ===== *)
(** * Backtests and their records

    Every fill of a backtest is explained by a slice, the quote of its time and
    the risk check, and the reports of the order management system are those
    fills. *)

From S2P Require Import Prelude.
From S2P Require Import Float.
From S2P Require Import Arithmetic.
From S2P Require Import Oms.
From S2P Require Import OmsProps.
From S2P Require Import Router.
From S2P Require Import Schedule.
From S2P Require Import LiveAlgo.
From S2P Require Import LiveAlgoProps.
From S2P Require Import ExecutionRisk.
From S2P Require Import MarketReplay.
From S2P Require Import Backtest.

(** ** Fills *)

Definition accepted (fs : list BacktestFill) : list BacktestFill :=
  filter (fun f => bf_risk_accepted f = true) fs.

(** What remains of a quantity after some fills. *)
Definition remaining_after (quantity : double) (fs : list BacktestFill) : double :=
  foldl dsub quantity (bf_filled <$> accepted fs).

Section backtest.
Context (request : BacktestRequest) (manager : ExecutionRiskManager) (first : Z)
  (quotes : list MarketReplayEvent) (arrival : double) (P : Z).

(** The fill [f] of the slice with number [k] on the quote [q], with [remaining]
    to do. *)
Record fill_of (k : nat) (slice : Slice double) (q : MarketReplayEvent) (remaining : double)
    (f : BacktestFill) : Prop := {
  fo_index : bf_slice_index f = k;
  fo_parent : bf_parent_id f = P;
  fo_time : bf_timestamp f = me_timestamp q;
  fo_price : bf_price f = quote_price q (bq_side request);
  fo_requested : bf_requested f = dmin (sl_quantity slice) remaining;
  fo_risk : let d := check manager (risk_request request (bf_requested f) (bf_price f) arrival
                                      (quote_quantity q (bq_side request))) in
    bf_risk_accepted f = rd_accepted d /\ bf_reason f = (if rd_accepted d then NoReject else rd_reason d);
  fo_filled : bf_filled f = (if bf_risk_accepted f
                             then dmin (bf_requested f) (quote_quantity q (bq_side request)) else dzero);
  fo_notional : bf_notional f = (if bf_risk_accepted f then dmul (bf_filled f) (bf_price f) else dzero);
  fo_fee : bf_fee f = (if bf_risk_accepted f then taker_fee request (bf_notional f) else dzero);
  fo_rest : bf_remaining f = (if bf_risk_accepted f then dsub (bf_requested f) (bf_filled f)
                              else bf_requested f)
}.

(** The slice with number [k] is played with [remaining] to do. *)
Definition slice_played (schedule : list (Slice double)) (k : nat) (remaining : double)
    (f : BacktestFill) : Prop :=
  exists slice target q, schedule !! k = Some slice /\ slice_time first slice = Ok target /\
    select_quote target quotes = Some q /\ dle remaining epsilon = false /\
    fill_of k slice q remaining f.

(** The report that a fill leaves. *)
Record reported_fill (f : BacktestFill) (x : OmsExecutionReport) : Prop := {
  rf_id : xr_id x = bf_report_id f;
  rf_parent : xr_parent_id x = P;
  rf_child : xr_child_id x = bf_child_id f;
  rf_price : xr_price x = bf_price f;
  rf_quantity : xr_quantity x = bf_filled f;
  rf_notional : xr_notional x = bf_notional f;
  rf_fee : xr_fee x = bf_fee f;
  rf_time : xr_timestamp x = bf_timestamp f
}.

(** Fills that the system is told. *)
Definition told (fs : list BacktestFill) : list BacktestFill :=
  filter (fun f => dgt (bf_filled f) epsilon = true) (accepted fs).

(** The system after the fills [fs]; [s0] is the system before. *)
Record told_oms (s0 : Oms) (fs : list BacktestFill) (s : Oms) : Prop := {
  to_parent : exists p, parents_ s !! P = Some p /\ po_quantity p = bq_quantity request /\
    po_child_ids p = bf_child_id <$> fs;
  to_reports : exists xs, execution_reports_ s = execution_reports_ s0 ++ xs /\
    Forall2 reported_fill (told fs) xs;
  to_parents : forall i, i <> P -> parents_ s !! i = parents_ s0 !! i;
  to_children : forall j c, children_ s0 !! j = Some c -> children_ s !! j = Some c;
  to_fresh : forall f, f ∈ fs -> children_ s0 !! bf_child_id f = None
}.

(** The result after some slices. *)
Record played (schedule : list (Slice double)) (r : BacktestResult) : Prop := {
  py_parent : br_parent_id r = P;
  py_arrival : br_arrival_price r = arrival;
  py_requested : br_requested r = bq_quantity request;
  py_fills : forall k f, br_fills r !! k = Some f ->
    slice_played schedule k (remaining_after (bq_quantity request) (take k (br_fills r))) f;
  py_filled : br_filled r = foldl dadd dzero (bf_filled <$> accepted (br_fills r));
  py_notional : br_notional r = foldl dadd dzero (bf_notional <$> accepted (br_fills r));
  py_fees : br_fees r = foldl dadd dzero (bf_fee <$> accepted (br_fills r));
  py_accepted : br_accepted r = length (accepted (br_fills r));
  py_rejected : (br_accepted r + br_rejected r = length (br_fills r))%nat
}.

(** The next fill. *)
Definition add_played (r : BacktestResult) (f : BacktestFill) : BacktestResult :=
  if bf_risk_accepted f then add_accepted r f else add_rejected r f.

Lemma accepted_snoc fs f : accepted (fs ++ [f]) = if bf_risk_accepted f then accepted fs ++ [f] else accepted fs.
Proof using.
  unfold accepted. rewrite filter_app, filter_cons. destruct (bf_risk_accepted f).
  - done.
  - rewrite decide_False by done. by rewrite app_nil_r.
Qed.

Lemma remaining_snoc quantity fs f : remaining_after quantity (fs ++ [f]) =
  if bf_risk_accepted f then dsub (remaining_after quantity fs) (bf_filled f) else remaining_after quantity fs.
Proof using.
  unfold remaining_after. rewrite accepted_snoc. destruct (bf_risk_accepted f); [|done].
  by rewrite fmap_app, foldl_app.
Qed.

Lemma played_snoc schedule r f : played schedule r ->
  slice_played schedule (length (br_fills r)) (remaining_after (bq_quantity request) (br_fills r)) f ->
  played schedule (add_played r f).
Proof using.
  intros [H1 H2 H3 H4 H5 H6 H7 H8 H9] Hf.
  assert (Ef : br_fills (add_played r f) = br_fills r ++ [f]) by (unfold add_played; by case_if).
  split; rewrite ?Ef.
  1-3: unfold add_played; by case_if.
  - intros k g Hg. apply lookup_app_Some in Hg as [Hg|[Hk Hg]].
    + rewrite take_app_le by (apply lookup_lt_Some in Hg; lia). by apply H4.
    + apply list_lookup_singleton_Some in Hg as [Hk' ->]. replace k with (length (br_fills r)) by lia.
      by rewrite take_app_length.
  - rewrite accepted_snoc. unfold add_played. case_if; [|done]. by rewrite fmap_app, foldl_app, <- H5.
  - rewrite accepted_snoc. unfold add_played. case_if; [|done]. by rewrite fmap_app, foldl_app, <- H6.
  - rewrite accepted_snoc. unfold add_played. case_if; [|done]. by rewrite fmap_app, foldl_app, <- H7.
  - rewrite accepted_snoc. unfold add_played. case_if; [|done]. rewrite length_app, <- H8. cbn. lia.
  - rewrite length_app. unfold add_played. case_if; cbn; lia.
Qed.

(** ** Working a quote *)

(** A new child and its reports. *)
Lemma told_child n s0 s fs f p0 xs c s' : oms_inv n s -> told_oms s0 fs s -> parents_ s !! P = Some p0 ->
  at_child s P (next_child_id_ s) p0 xs c s' -> bf_child_id f = next_child_id_ s ->
  Forall2 reported_fill (told [f]) xs -> told_oms s0 (fs ++ [f]) s'.
Proof using.
  intros I [(p & E1 & E2 & E3) (ys & R1 & R2) T3 T4 T5] Ep [H1 H2 _ (p' & F1 & F2 & F3 & _)] Hid Hxs.
  rewrite E1 in Ep. injection Ep as ->. pose proof (fresh_child n s I) as Hfresh. split.
  - exists p'. rewrite F1, lookup_insert_eq, F2, F3, E3, fmap_app. cbn. by rewrite Hid.
  - exists (ys ++ xs). rewrite H2, R1, <- app_assoc. split; [done|].
    unfold told, accepted in *. rewrite !filter_app. by apply Forall2_app.
  - intros i Hi. rewrite F1, lookup_insert_ne by done. by apply T3.
  - intros j d Ed. apply T4 in Ed. rewrite H1, lookup_insert_ne; [done|]. congruence.
  - intros g [Hg|Hg%list_elem_of_singleton]%elem_of_app; [by apply T5|]. subst g. rewrite Hid.
    destruct (children_ s0 !! _) as [d|] eqn:Ed; [|done]. apply T4 in Ed. congruence.
Qed.

(** Cancelling what is left of a child, or not. *)
Lemma runs_child_cancel n s0 id p0 xs c s (b : bool) t : oms_inv n s -> at_child s0 P id p0 xs c s ->
  runs (n + 1) (if b then cancel_child id t else mret false) s (fun _ s' =>
    exists c', at_child s0 P id p0 xs c' s').
Proof using.
  intros I Hc. assert (I' : oms_inv (n + 1) s) by (eapply oms_inv_mono, I; lia).
  destruct b; [|apply runs_ret; eauto].
  destruct (terminal_status (co_status c)) eqn:Ht.
  - destruct (at_child_lookup _ _ _ _ _ _ _ Hc) as (E1 & _).
    eapply runs_mono; [reflexivity|by eapply runs_set_status_closed|]. intros a s' _ ->. eauto.
  - eapply runs_mono; [reflexivity|by eapply runs_child_status|]. intros a s' _ [H _]. eauto.
Qed.

(** The fill of a child, when there is one to report. *)
Lemma runs_child_report n s0 id p0 c s price filled fee t : oms_inv n s -> n < 2 ^ 64 - 2 ->
  at_child s0 P id p0 [] c s -> terminal_status (co_status c) = false -> co_id c = id ->
  runs (n + 1) (if dgt filled epsilon then
                  report ← record_fill id price filled fee t; mret (xr_id report)
                else mret 0) s (fun rid s' => exists c' xs, at_child s0 P id p0 xs c' s' /\
    (forall f, bf_risk_accepted f = true -> bf_parent_id f = P -> bf_child_id f = id ->
       bf_report_id f = rid -> bf_filled f = filled -> bf_price f = price ->
       bf_notional f = dmul filled price -> bf_fee f = fee -> bf_timestamp f = t ->
       Forall2 reported_fill (told [f]) xs)).
Proof using.
  intros I Hn Hc Ho Hid. pose proof (ac_owner _ _ _ _ _ _ _ Hc) as HP. destruct (dgt filled epsilon) eqn:Hf.
  - eapply (runs_bind (n + 1)); [lia|by eapply runs_child_fill|]. intros rep s' I' (-> & _ & [Hc' _]).
    apply runs_ret; [done|]. eexists _, _. split; [exact Hc'|].
    intros f F1 F2 F3 F4 F5 F6 F7 F8 F9. unfold told, accepted.
    rewrite filter_cons_True, filter_nil, filter_cons_True, filter_nil by (by rewrite ?F5).
    constructor; [|constructor].
    split; cbn [fill_report xr_id xr_parent_id xr_child_id xr_price xr_quantity xr_notional xr_fee xr_timestamp];
      try congruence; [by rewrite F4|]. rewrite F7. apply dmul_comm.
  - apply runs_ret; [eapply oms_inv_mono, I; lia|]. exists c, []. split; [done|].
    intros f F1 _ _ _ F5 _ _ _ _. unfold told, accepted. rewrite filter_cons_True, filter_nil by done.
    rewrite filter_cons_False; [constructor|]. rewrite F5, Hf. done.
Qed.

Lemma runs_work_quote n s0 r q k slice remaining s : oms_inv n s -> n + 4 < 2 ^ 64 - 2 ->
  told_oms s0 (br_fills r) s -> br_parent_id r = P -> br_arrival_price r = arrival ->
  runs (n + 4) (work_quote request manager q k slice remaining r) s (fun p s' => exists f,
    p.1 = add_played r f /\
    p.2 = (if bf_risk_accepted f then dsub remaining (bf_filled f) else remaining) /\
    fill_of k slice q remaining f /\ told_oms s0 (br_fills r ++ [f]) s').
Proof using.
  intros I Hn HT HP HA. unfold work_quote. rewrite HP, HA. set (requested := dmin _ _).
  set (price := quote_price _ _). set (available := quote_quantity _ _).
  match goal with |- context [create_child ?x] => set (req := x) end.
  destruct (to_parent _ _ _ HT) as (p0 & Hp & _).
  apply (runs_bind (n + 1) (n + 4) _ _ _ _ _ ltac:(lia) (runs_create_child n s req I ltac:(lia))).
  intros id s1 I1 (p & Ep & (u & Echk) & -> & F1 & F2 & F3). cbn [req crq_parent_id] in Ep, F2.
  rewrite Hp in Ep. injection Ep as <-. apply check_child_spec in Echk as (Hopen & _ & _).
  set (id := next_child_id_ s) in *.
  assert (H1 : at_child s P id p0 [] (new_child id req) s1).
  { split; [done|by rewrite app_nil_r|done|]. eexists. split_and!; [exact F2|done|done|]. cbn. intros _.
    case_bool_decide; [done|]. by intros E; rewrite E in Hopen. }
  destruct (rd_accepted _) eqn:Ha.
  - unfold work_accepted. eapply (runs_bind (n + 4)); [lia| |].
    + eapply (runs_bind (n + 2)); [lia|replace (n + 2) with (n + 1 + 1) by lia;
        eapply runs_child_status; [done| |exact H1|done]; intros c; by case_if|]. intros b s2 I2 [H2 _].
      eapply (runs_bind (n + 3)); [lia|replace (n + 3) with (n + 2 + 1) by lia;
        eapply runs_child_report; [exact I2|lia|exact H2|done|done]|].
      intros rid s3 I3 (c' & xs & H3 & Hxs). eapply (runs_bind (n + 4)); [lia|
        replace (n + 4) with (n + 3 + 1) by lia; by eapply runs_child_cancel|].
      intros b' s4 I4 (c4 & H4). eapply (runs_ret _ _ _ (fun r' s' => exists f, r' = add_accepted r f /\
        bf_risk_accepted f = true /\ bf_filled f = dmin requested available /\
        fill_of k slice q remaining f /\ told_oms s0 (br_fills r ++ [f]) s')); [done|].
      eexists. split; [reflexivity|]. split_and!; [done|done| |].
      * split; [done..| |done|done|done|done].
        cbn [accepted_fill bf_requested bf_price bf_risk_accepted bf_reason]. fold available. by rewrite Ha.
      * eapply told_child; [exact I|exact HT|exact Hp|exact H4|done|]. by apply Hxs.
    + intros r' s' I' (f & -> & F4 & F5 & F6 & F7). apply runs_ret; [done|]. exists f.
      unfold add_played. rewrite F4, F5. by split_and!.
  - eapply (runs_bind (n + 2)); [lia|replace (n + 2) with (n + 1 + 1) by lia;
      by eapply runs_child_status|]. intros b s2 I2 [H2 _].
    apply runs_ret; [by eapply oms_inv_mono, I2; lia|].
    match goal with |- context [add_rejected r ?f] => exists f end. split_and!; [done|done| |].
    + split; [done..| |done|done|done|done].
      cbn [rejected_fill bf_requested bf_price bf_risk_accepted bf_reason]. fold available. by rewrite Ha.
    + eapply told_child; [exact I|exact HT|exact Hp|exact H2|done|]. constructor.
Qed.

(** ** The loop *)

(** Why the loop has ended. *)
Definition loop_over (schedule : list (Slice double)) (r : BacktestResult) : Prop :=
  length (br_fills r) = length schedule \/
  dle (remaining_after (bq_quantity request) (br_fills r)) epsilon = true \/
  exists slice target, schedule !! length (br_fills r) = Some slice /\
    slice_time first slice = Ok target /\ select_quote target quotes = None.

Lemma runs_backtest_loop schedule s0 slices : forall n k r s, oms_inv n s ->
  n + 4 * Z.of_nat (length slices) < 2 ^ 64 - 2 -> slices = drop k schedule -> k = length (br_fills r) ->
  (k <= length schedule)%nat -> played schedule r -> told_oms s0 (br_fills r) s ->
  runs (n + 4 * Z.of_nat (length slices))
    (backtest_loop request manager first quotes slices k
       (remaining_after (bq_quantity request) (br_fills r)) r) s
    (fun r' s' => played schedule r' /\ loop_over schedule r' /\ told_oms s0 (br_fills r') s').
Proof using.
  induction slices as [|slice slices IH]; intros n k r s I Hn Hs Hk Hlen Hpl HT; cbn [backtest_loop length] in *.
  { apply runs_ret; [by eapply oms_inv_mono, I; lia|]. split_and!; [done| |done]. left.
    apply (f_equal length) in Hs. rewrite length_drop in Hs. cbn in Hs. lia. }
  destruct (dle _ epsilon) eqn:Hr.
  { apply runs_ret; [by eapply oms_inv_mono, I; lia|]. split_and!; [done| |done]. by right; left. }
  assert (Hk' : schedule !! k = Some slice).
  { rewrite <- (Nat.add_0_r k), <- lookup_drop, <- Hs. done. }
  eapply (runs_bind n); [lia|by apply runs_lift|]. intros target s1 _ [Ht ->].
  destruct (select_quote target quotes) as [q|] eqn:Hq.
  2: { apply runs_ret; [by eapply oms_inv_mono, I; lia|]. split_and!; [done| |done]. right; right.
    exists slice, target. by rewrite <- Hk. }
  eapply (runs_bind (n + 4)); [lia|apply runs_work_quote; [done|lia|exact HT|apply Hpl|apply Hpl]|].
  intros [r' remaining'] s' I' (f & E1 & E2 & Hf & HT'). cbn [fst snd] in *. subst r' remaining'.
  assert (Ef : br_fills (add_played r f) = br_fills r ++ [f]) by (unfold add_played; by case_if).
  rewrite <- Ef in HT'. rewrite <- remaining_snoc, <- Ef.
  replace (n + 4 * Z.of_nat (S (length slices))) with (n + 4 + 4 * Z.of_nat (length slices)) by lia.
  apply IH; [done|lia| | | | |done].
  - by rewrite (drop_S _ _ _ Hk') in Hs; injection Hs.
  - rewrite Ef, length_app. cbn. lia.
  - apply lookup_lt_Some in Hk'. lia.
  - apply played_snoc; [done|]. rewrite <- Hk. exists slice, target, q. by split_and!.
Qed.

(** ** The end *)

Lemma told_cancelled n s0 fs s t : oms_inv n s -> told_oms s0 fs s ->
  runs (n + 1) (cancel_parent P t) s (fun _ s' => told_oms s0 fs s' /\
    exists p, parents_ s' !! P = Some p /\ terminal_status (po_status p) = true).
Proof using.
  intros I HT. split; [by apply cancel_parent_step|]. intros b.
  destruct HT as [(p & E1 & E2 & E3) T2 T3 T4 T5]. unfold cancel_parent. rewrite E1.
  destruct (terminal_status (po_status p)) eqn:Hp; cbn; intros _.
  { split; [|by exists p]. split; try done. by exists p. }
  split; [|eexists; rewrite lookup_insert_eq; by split]. split; cbn.
  - eexists. rewrite lookup_insert_eq. by split_and!.
  - done.
  - intros i Hi. rewrite lookup_insert_ne by done. by apply T3.
  - intros j c Hc. rewrite cancel_all_lookup, (T4 _ _ Hc). rewrite decide_False; [done|].
    rewrite E3. intros (f & -> & Hf)%list_elem_of_fmap. specialize (T5 f Hf). congruence.
  - done.
Qed.

End backtest.

(** The first quote of a symbol at or after a time. *)
Record first_quote (symbol : string) (es : list MarketReplayEvent) (target : Z) (q : MarketReplayEvent)
    : Prop := {
  fq_recorded : q ∈ es /\ me_symbol q = symbol /\ me_type q = QuoteEvent;
  fq_time : target <= me_timestamp q;
  fq_first : forall e, e ∈ es -> me_symbol e = symbol -> me_type e = QuoteEvent ->
    target <= me_timestamp e -> me_timestamp q <= me_timestamp e
}.

Lemma select_quote_first es replay symbol target q : new_replay es = Ok replay ->
  select_quote target (matching_quotes symbol (rp_events replay)) = Some q ->
  first_quote symbol es target q.
Proof.
  intros [Hp HS _ _ _]%normalize_ok. unfold select_quote.
  destruct (list_find _ _) as [[i q']|] eqn:E; [|done]. cbn. intros [= ->].
  apply list_find_Some in E as (Hi & Ht & Hbefore).
  assert (Hin : q ∈ matching_quotes symbol (rp_events replay)) by (by eapply list_elem_of_lookup_2).
  apply list_elem_of_filter in Hin as [[Hs Hq] Hin]. rewrite Hp in Hin. split; [by split_and!|done|].
  intros e He E1 E2 E3.
  assert (He' : e ∈ matching_quotes symbol (rp_events replay)).
  { apply list_elem_of_filter. split; [done|]. by rewrite Hp. }
  apply list_elem_of_lookup_1 in He' as [j Hj].
  destruct (decide (j < i)%nat) as [Hlt|Hge]; [by destruct (Hbefore _ _ Hj Hlt)|].
  destruct (decide (j = i)) as [->|Hne]; [by simplify_eq|].
  assert (HS' : StronglySorted not_later (matching_quotes symbol (rp_events replay))).
  { by eapply StronglySorted_sublist, HS; apply sublist_filter. }
  change (not_later q e). eapply (StronglySorted_at _ _ i j); [exact HS'|lia|done|done].
Qed.

(** What a backtest that returns has done. *)
Record backtested (request : BacktestRequest) (es : list MarketReplayEvent) (replay : MarketReplay)
    (s : Oms) (r : BacktestResult) (s' : Oms) : Prop := {
  bt_inputs : exists schedule manager first arrival, check_backtest request = Ok (schedule, manager) /\
    first_quote (bq_symbol request) es (st_first_timestamp (rp_stats replay)) first /\
    arrival = quote_price first (bq_side request) /\
    (forall k f, br_fills r !! k = Some f -> exists slice target q, schedule !! k = Some slice /\
       slice_time (st_first_timestamp (rp_stats replay)) slice = Ok target /\
       first_quote (bq_symbol request) es target q /\
       let remaining := remaining_after (bq_quantity request) (take k (br_fills r)) in
       dle remaining epsilon = false /\
       fill_of request manager arrival (br_parent_id r) k slice q remaining f) /\
    (length (br_fills r) = length schedule \/
     dle (remaining_after (bq_quantity request) (br_fills r)) epsilon = true \/
     exists slice target, schedule !! length (br_fills r) = Some slice /\
       slice_time (st_first_timestamp (rp_stats replay)) slice = Ok target /\
       forall e, e ∈ es -> me_symbol e = bq_symbol request -> me_type e = QuoteEvent ->
         me_timestamp e < target);
  bt_filled : br_filled r = foldl dadd dzero (bf_filled <$> accepted (br_fills r));
  bt_notional : br_notional r = foldl dadd dzero (bf_notional <$> accepted (br_fills r));
  bt_fees : br_fees r = foldl dadd dzero (bf_fee <$> accepted (br_fills r));
  bt_remaining : br_remaining r = dmax dzero (dsub (bq_quantity request) (br_filled r));
  bt_complete : br_complete r = dle (br_remaining r) epsilon;
  bt_counts : br_accepted r = length (accepted (br_fills r)) /\
    (br_accepted r + br_rejected r = length (br_fills r))%nat;
  bt_new : find_parent (br_parent_id r) s = None;
  bt_books : told_oms request (br_parent_id r) s (br_fills r) s';
  bt_status : exists p, find_parent (br_parent_id r) s' = Some p /\ po_status p = br_parent_status r /\
    (br_complete r = false -> terminal_status (po_status p) = true)
}.

Lemma no_quote_left es replay symbol target : new_replay es = Ok replay ->
  select_quote target (matching_quotes symbol (rp_events replay)) = None ->
  forall e, e ∈ es -> me_symbol e = symbol -> me_type e = QuoteEvent -> me_timestamp e < target.
Proof.
  intros [Hp _ _ _ _]%normalize_ok. unfold select_quote.
  destruct (list_find _ _) as [|] eqn:E; [done|]. intros _ e He E1 E2.
  rewrite list_find_None, Forall_forall in E. destruct (Z.lt_ge_cases (me_timestamp e) target); [done|].
  exfalso. apply (E e); [|done]. apply list_elem_of_filter. split; [done|]. by rewrite Hp.
Qed.

(** The first matching quote is the first one since the replay began. *)
Lemma first_matching es replay symbol q qs : new_replay es = Ok replay ->
  matching_quotes symbol (rp_events replay) = q :: qs ->
  first_quote symbol es (st_first_timestamp (rp_stats replay)) q.
Proof.
  intros Hr Hq. apply (select_quote_first es replay); [done|]. unfold select_quote. rewrite Hq.
  cbn [list_find]. rewrite decide_True; [done|].
  destruct (normalize_ok _ _ Hr) as [_ HS _ _ Hst]. rewrite Hst. unfold calculate_stats. cbn [st_first_timestamp].
  assert (Hin : q ∈ matching_quotes symbol (rp_events replay)) by (rewrite Hq; left).
  apply list_elem_of_filter in Hin as [_ Hin]. destruct HS as [|e l _ HF]; [by apply elem_of_nil in Hin|].
  cbn. apply elem_of_cons in Hin as [->|Hin]; [done|]. rewrite Forall_forall in HF. by apply HF.
Qed.

Lemma runs_get n s : oms_inv n s -> runs n get s (fun t s' => t = s /\ s' = s).
Proof. intros I. split; [done|]. by intros t [= <-]. Qed.

Lemma told_start n request s P s' p : oms_inv n s -> parents_ s !! P = None ->
  children_ s' = children_ s -> execution_reports_ s' = execution_reports_ s ->
  parents_ s' = <[P := p]> (parents_ s) -> po_quantity p = bq_quantity request -> po_child_ids p = [] ->
  told_oms request P s [] s'.
Proof.
  intros I HP Hc Hr Hp Hq Hids. split.
  - exists p. by rewrite Hp, lookup_insert_eq.
  - exists []. rewrite app_nil_r. by split; [|constructor].
  - intros i Hi. by rewrite Hp, lookup_insert_ne.
  - intros j c. by rewrite Hc.
  - intros f []%elem_of_nil.
Qed.

Lemma played_start request manager first quotes arrival P schedule :
  played request manager first quotes arrival P schedule (new_backtest P (bq_quantity request) arrival).
Proof. by split. Qed.

(** The end of a backtest, with the parent cancelled or not. *)
Lemma backtest_finish n request es replay s P r s' trades schedule manager first qs :
  new_replay es = Ok replay -> check_backtest request = Ok (schedule, manager) ->
  matching_quotes (bq_symbol request) (rp_events replay) = first :: qs -> parents_ s !! P = None ->
  let quotes := matching_quotes (bq_symbol request) (rp_events replay) in
  let start := st_first_timestamp (rp_stats replay) in
  let arrival := quote_price first (bq_side request) in
  oms_inv n s' -> played request manager start quotes arrival P schedule r ->
  loop_over request start quotes schedule r -> told_oms request P s (br_fills r) s' ->
  let remaining := dmax dzero (dsub (bq_quantity request) (br_filled r)) in
  runs (n + 1)
    (_ ← (if negb (dle remaining epsilon)
          then cancel_parent P (st_last_timestamp (rp_stats replay)) else mret false);
     t ← get;
     let status := match find_parent P t with Some p => po_status p | None => New end in
     mret (finish_backtest request trades status r)) s'
    (backtested request es replay s).
Proof.
  intros Hr Hc Hq HP quotes start arrival I Hpl Hover HT remaining.
  destruct Hpl as [H1 H2 H3 H4 H5 H6 H7 H8 H9].
  eapply (runs_bind (n + 1) _ _ _ _ (fun _ s2 => told_oms request P s (br_fills r) s2 /\
    (dle remaining epsilon = false ->
     exists p, parents_ s2 !! P = Some p /\ terminal_status (po_status p) = true))); [lia| |].
  { destruct (dle remaining epsilon); cbn [negb].
    - apply runs_ret; [eapply oms_inv_mono, I; lia|by split].
    - eapply runs_mono; [reflexivity|by apply told_cancelled|]. intros b s2 _ [? ?]. by split. }
  intros b s2 I2 [HT2 Hclosed]. eapply (runs_bind (n + 1)); [lia|by apply runs_get|].
  intros t s3 _ [-> ->]. apply runs_ret; [done|].
  destruct (to_parent _ _ _ _ _ HT2) as (p & Ep & _). unfold find_parent. rewrite Ep.
  split; cbn [finish_backtest br_fills br_parent_id br_filled br_notional br_fees br_remaining br_complete
    br_accepted br_rejected br_parent_status]; rewrite ?H1; try done.
  - exists schedule, manager, first, arrival. split_and!; [done|by eapply first_matching|done| |].
    + intros k f Hf. destruct (H4 k f Hf) as (slice & target & q & F1 & F2 & F3 & F4 & F5).
      exists slice, target, q. split_and!; [done|done|by eapply select_quote_first|done|done].
    + destruct Hover as [Ho|[Ho|(slice & target & F1 & F2 & F3)]]; [by left|by right; left|].
      right; right. exists slice, target. split_and!; [done|done|by eapply no_quote_left].
  - exists p. split_and!; [done|done|]. intros Hf. destruct (Hclosed Hf) as (p' & Ep' & ?). congruence.
Qed.

(** C24: a backtest plays the record.  From a system that any commands built,
    whether it returns or throws, the system stays in order.  When it returns:
    its fills are those of the first slices of the schedule, one each, until
    nothing is left, the schedule ends or no quote is left; each is at the price
    of the first quote of the symbol at or after the time of its slice, for the
    smallest of slice, remaining and quoted quantity, and accepted exactly when
    the risk check accepts it against the first quote of the record, else it is
    empty; filled quantity, notional and fees are the sums, in doubles, over the
    accepted fills; the new parent has a child for every fill and a report for
    every accepted fill above the tolerance, with its identifier, price,
    quantity, fee and time, and nothing else of the system has changed; the
    status is that of the parent, which is closed unless the backtest is
    complete. *)
Theorem backtest_plays_record cs request es replay res s' : let s := run cs in
  new_replay es = Ok replay ->
  (forall p, check_backtest request = Ok p ->
     Z.of_nat (length cs) + 4 * Z.of_nat (length p.1) + 2 < 2 ^ 64 - 2) ->
  Z.of_nat (length cs) < 2 ^ 64 - 1 ->
  run_historical_backtest request replay s = (res, s') ->
  (exists m, oms_inv m s') /\ (forall r, res = Ok r -> backtested request es replay s r s').
Proof.
  intros s Hr Hn Hcs E. set (n := Z.of_nat (length cs)) in *. pose proof (run_inv cs Hcs) as I. fold s n in I.
  enough (exists m, runs m (run_historical_backtest request replay) s (backtested request es replay s))
    as (m & H1 & H2) by (rewrite E in H1, H2; split; [by exists m|exact H2]).
  unfold run_historical_backtest. destruct (check_backtest request) as [[schedule manager]|e] eqn:EC.
  2: { exists n. eapply (runs_bind n); [lia|by apply runs_lift|]. by intros a ? _ [? _]. }
  specialize (Hn _ eq_refl). cbn [fst] in Hn. set (k := 4 * Z.of_nat (length schedule)) in *.
  assert (0 <= k) by (unfold k; lia). exists (n + 1 + k + 1).
  eapply (runs_bind n); [lia|by apply runs_lift|]. intros p s1 _ [[= <-] ->]. cbn [fst snd].
  eapply (runs_bind (n + 1)); [lia|apply runs_create_parent; [done|lia]|].
  intros P s1 I1 (HP & H1 & H2 & p & H3 & H4 & H5 & HQ). cbn [prq_quantity] in *.
  destruct (matching_quotes (bq_symbol request) (rp_events replay)) as [|first qs] eqn:Eq.
  { split; [|done]. eapply oms_inv_mono, I1. lia. }
  rewrite <- Eq. set (quotes := matching_quotes _ _). set (start := st_first_timestamp _).
  set (arrival := quote_price first _).
  eapply (runs_bind (n + 1 + k)); [lia| |].
  - apply (runs_backtest_loop request manager start quotes arrival P schedule s schedule (n + 1) 0
      (new_backtest P (bq_quantity request) arrival)); try done; [fold k; lia|lia|].
    by eapply told_start.
  - intros r s2 I2 (Hpl & Hover & HT). eapply backtest_finish; try done.
Qed.

(** ** Examples *)

Definition demo_quote (seconds bid ask quantity : Z) : MarketReplayEvent := {|
  me_timestamp := seconds * 10 ^ 9; me_type := QuoteEvent; me_symbol := "btcusd"; me_venue := "coinbase";
  me_bid_price := dbl bid; me_bid_quantity := dbl quantity; me_ask_price := dbl ask;
  me_ask_quantity := dbl quantity; me_trade_price := dzero; me_trade_quantity := dzero |}.

(** Given out of order. *)
Definition demo_events (quantity : Z) : list MarketReplayEvent :=
  [demo_quote 3 100 101 2; demo_quote 1 99 100 quantity; demo_quote 2 99 100 2].

Definition demo_replay (quantity : Z) : MarketReplay :=
  match new_replay (demo_events quantity) with Ok r => r | Throw _ => empty_replay end.

(** Four units in two slices, one second apart. *)
Definition demo_backtest (limits : ExecutionRiskLimits) : BacktestRequest := {|
  bq_symbol := "btcusd"; bq_side := RouteBuy; bq_quantity := dbl 4;
  bq_schedule := {| sr_algorithm := TWAP; sr_quantity := dbl 4; sr_slices := 2;
    sr_duration_seconds := dbl 4; sr_volume_profile := [];
    sr_participation_rate := dzero; sr_displayed_quantity := dzero |};
  bq_taker_fee_bps := dbl 10; bq_latency_ms := dzero; bq_latency_cost := dzero;
  bq_risk_limits := limits |}.

Lemma backtest_plays_record_witness : exists r s',
  run_historical_backtest (demo_backtest default_limits) (demo_replay 1) (run []) = (Ok r, s') /\
  (br_filled r, br_notional r, bf_price <$> br_fills r) = (dbl 3, dbl 302, [dbl 100; dbl 101]) /\
  backtested (demo_backtest default_limits) (demo_events 1) (demo_replay 1) (run []) r s'.
Proof.
  destruct (run_historical_backtest (demo_backtest default_limits) (demo_replay 1) (run [])) as [res s'] eqn:E.
  destruct (backtest_plays_record [] (demo_backtest default_limits) (demo_events 1) (demo_replay 1) res s')
    as [_ H]; [by vm_compute| |done|exact E|].
  - intros p Hp. assert (Hc : Ok (length p.1) = Ok 2%nat); [|injection Hc as ->; cbn [length]; lia].
    transitivity (x ← check_backtest (demo_backtest default_limits); Ok (length x.1));
      [by rewrite Hp|vm_compute; reflexivity].
  - assert (Hr : (r ← (run_historical_backtest (demo_backtest default_limits) (demo_replay 1) (run [])).1;
        Ok (br_filled r, br_notional r, bf_price <$> br_fills r)) =
      Ok (dbl 3, dbl 302, [dbl 100; dbl 101])) by (vm_compute; reflexivity).
    rewrite E in Hr. cbn [fst] in Hr. destruct res as [r|e]; [|discriminate Hr].
    cbn [mbind result_bind] in Hr. apply (inj Ok) in Hr.
    exists r, s'. split; [reflexivity|]. split; [exact Hr|by apply H].
Defined.

(** A first quote without quantity closes the parent with its child: the next
    slice throws, although its quote could be taken. *)
Example empty_quote_ends_backtest :
  (run_historical_backtest (demo_backtest default_limits) (demo_replay 0) (run [])).1 =
  Throw (logic_error "cannot create child for terminal parent").
Proof. vm_compute. reflexivity. Qed.

(** So does a first child that the risk check refuses. *)
Example refused_child_ends_backtest :
  let limits := {| kill_switch_active := true; max_parent_quantity := dzero; max_child_quantity := dzero;
    max_order_notional := dzero; max_participation_rate := dzero; price_collar_bps := dzero |} in
  (run_historical_backtest (demo_backtest limits) (demo_replay 1) (run [])).1 =
  Throw (logic_error "cannot create child for terminal parent").
Proof. vm_compute. reflexivity. Qed.

(** A backtest that throws leaves its parent in the system, open when no quote
    matches. *)
Example failed_backtest_leaves_parent :
  po_status <$> find_parent 1 (run_historical_backtest (demo_backtest default_limits) empty_replay (run [])).2 =
  Some New.
Proof. vm_compute. reflexivity. Qed.
