(* ===== verification/FixGateway.v ===== *)
(** * The FIX gateway ([fix_gateway.hpp], [fix_gateway.cpp])

    Orders and cancellations of FIX clients become a parent with one child in the
    order management system; two maps remember them by the identifiers of the
    clients.  Any exception becomes a reject. *)

From S2P Require Import Prelude.
From S2P Require Import Float.
From S2P Require Import Oms.
From S2P Require Import OmsProps.
From S2P Require Import Text.
From S2P Require Import Fix.
From S2P Require Import LiveAlgo.
From S2P Require Import LiveAlgoProps.
From S2P Require Import Decimal.
From S2P Require Import Rounding.

Record FixGatewayResult := {
  gr_accepted : bool; gr_message : string; gr_response : FixMessage; gr_parent_id : Z; gr_child_id : Z
}.

Record FixOrderGateway := {
  gw_oms : Oms; parent_by_client_order_id_ : gmap str Z; child_by_client_order_id_ : gmap str Z
}.

Definition new_gateway (oms : Oms) : FixOrderGateway := {|
  gw_oms := oms; parent_by_client_order_id_ := ∅; child_by_client_order_id_ := ∅ |}.

Definition on_gateway_oms {A} (m : ST Oms A) : ST FixOrderGateway A := fun g =>
  let (r, oms) := m (gw_oms g) in
  (r, {| gw_oms := oms; parent_by_client_order_id_ := parent_by_client_order_id_ g;
         child_by_client_order_id_ := child_by_client_order_id_ g |}).

Definition required_field (m : FixMessage) (tag : Z) (name : string) : result str :=
  match get tag m with
  | Some (c :: v) => Ok (c :: v)
  | _ => Throw (invalid_argument ("missing required FIX field: " +:+ name))
  end.

Definition required_double (m : FixMessage) (tag : Z) (name : string) : result double :=
  text ← required_field m tag name;
  parsed ← stod text;
  if negb (parsed.2 =? length text)%nat || negb (isfinite parsed.1) || dle parsed.1 dzero
  then Throw (invalid_argument ("invalid FIX field: " +:+ name))
  else Ok parsed.1.

Definition parse_side (side : str) : result RouteSide :=
  if bool_decide (side = lit "1") then Ok RouteBuy
  else if bool_decide (side = lit "2") then Ok RouteSell
  else Throw (invalid_argument "unsupported FIX Side").

Definition empty_message (t : FixMessageType) : FixMessage := {|
  begin_string := begin_string FixMessage0; body_length := 0; message_type := t; fields := [];
  checksum := 0 |}.

Definition execution_report (client_order_id execution_id execution_type order_status : str)
    (order_quantity cumulative_quantity leaves_quantity price : double) (text : str) : FixMessage :=
  let report := set 151 (double_to_string leaves_quantity) (set 14 (double_to_string cumulative_quantity)
    (set 38 (double_to_string order_quantity) (set 39 order_status (set 150 execution_type
    (set 17 execution_id (set 11 client_order_id (empty_message ExecutionReport))))))) in
  let report := if dgt price dzero then set 44 (double_to_string price) report else report in
  match text with [] => report | _ => set 58 text report end.

Definition reject_message (text : string) : FixMessage := set 58 (lit text) (empty_message Reject).

(** The fields of a new order, in the order of the checks. *)
Record NewOrder := {
  no_id : str; no_symbol : str; no_side : RouteSide; no_quantity : double; no_price : double
}.

Definition parse_price (m : FixMessage) (order_type : str) : result double :=
  if bool_decide (order_type = lit "2") then required_double m 44 "Price"
  else if bool_decide (order_type = lit "1") then Ok (dbl 1)
  else Throw (invalid_argument "only market and limit FIX orders are supported").

Definition parse_new_order (m : FixMessage) (known : gmap str Z) : result NewOrder :=
  id ← required_field m 11 "ClOrdID";
  _ ← guard_or (bool_decide (known !! id = None)) (invalid_argument "duplicate ClOrdID");
  symbol ← required_field m 55 "Symbol";
  text ← required_field m 54 "Side";
  side ← parse_side text;
  quantity ← required_double m 38 "OrderQty";
  order_type ← required_field m 40 "OrdType";
  price ← parse_price m order_type;
  Ok {| no_id := id; no_symbol := symbol; no_side := side; no_quantity := quantity; no_price := price |}.

(** [map[client] = id] for both maps. *)
Definition remember (client : str) (parent_id child_id : Z) : ST FixOrderGateway unit := fun g =>
  (Ok tt, {| gw_oms := gw_oms g;
             parent_by_client_order_id_ := <[client := parent_id]> (parent_by_client_order_id_ g);
             child_by_client_order_id_ := <[client := child_id]> (child_by_client_order_id_ g) |}).

Definition handle_new_order (m : FixMessage) (timestamp : Z) : ST FixOrderGateway FixGatewayResult :=
  g ← Prelude.get;
  o ← lift (parse_new_order m (parent_by_client_order_id_ g));
  parent_id ← on_gateway_oms (create_parent {| prq_symbol := String.string_of_list_ascii (no_symbol o);
    prq_side := no_side o; prq_quantity := no_quantity o; prq_algorithm := AlgoMarket |} timestamp);
  child_id ← on_gateway_oms (create_child {| crq_parent_id := parent_id; crq_venue := "MINIMATCH";
    crq_price := no_price o; crq_quantity := no_quantity o; crq_created := timestamp |});
  _ ← on_gateway_oms (mark_child_working child_id timestamp);
  _ ← remember (no_id o) parent_id child_id;
  mret {| gr_accepted := true; gr_message := "order accepted";
          gr_response := execution_report (no_id o) (lit "ACK-" ++ print_integer child_id) (lit "0")
            (lit "0") (no_quantity o) dzero (no_quantity o) (no_price o) [];
          gr_parent_id := parent_id; gr_child_id := child_id |}.

Definition handle_cancel (m : FixMessage) (timestamp : Z) : ST FixOrderGateway FixGatewayResult :=
  cancel_id ← lift (required_field m 11 "ClOrdID");
  original_id ← lift (required_field m 41 "OrigClOrdID");
  g ← Prelude.get;
  match child_by_client_order_id_ g !! original_id, parent_by_client_order_id_ g !! original_id with
  | Some child_id, Some parent_id =>
      cancelled ← on_gateway_oms (cancel_child child_id timestamp);
      if negb cancelled then throw (logic_error "order cannot be cancelled")
      else
        _ ← on_gateway_oms (cancel_parent parent_id timestamp);
        g ← Prelude.get;
        match find_parent parent_id (gw_oms g) with
        | None => throw (logic_error "parent order disappeared")
        | Some parent =>
            _ ← remember cancel_id parent_id child_id;
            mret {| gr_accepted := true; gr_message := "order cancelled";
                    gr_response := execution_report cancel_id (lit "CXL-" ++ print_integer child_id)
                      (lit "4") (lit "4") (po_quantity parent) (po_filled parent) (po_remaining parent)
                      dzero [];
                    gr_parent_id := parent_id; gr_child_id := child_id |}
        end
  | _, _ => throw (invalid_argument "unknown OrigClOrdID")
  end.

Definition rejected (message : string) : FixGatewayResult := {|
  gr_accepted := false; gr_message := message; gr_response := reject_message message;
  gr_parent_id := 0; gr_child_id := 0 |}.

Definition handle (m : FixMessage) (timestamp : Z) (g : FixOrderGateway) : FixGatewayResult * FixOrderGateway :=
  let handler :=
    if bool_decide (message_type m = NewOrderSingle) then handle_new_order m timestamp
    else if bool_decide (message_type m = OrderCancelRequest) then handle_cancel m timestamp
    else mret (rejected "unsupported FIX application message") in
  match handler g with
  | (Ok r, g') => (r, g')
  | (Throw e, g') => (rejected (what e), g')
  end.

Definition parent_id_for_client_order (client : str) (g : FixOrderGateway) : option Z :=
  parent_by_client_order_id_ g !! client.

Definition child_id_for_client_order (client : str) (g : FixOrderGateway) : option Z :=
  child_by_client_order_id_ g !! client.

(** ** The gateway does all or nothing *)

(** ** Commands that return *)

Lemma create_parent_returns n s r t : oms_inv n s -> n < 2 ^ 64 - 2 -> prq_symbol r <> "" ->
  dpositive (prq_quantity r) = true -> let id := next_parent_id_ s in
  (create_parent r t s).1 = Ok id /\ let s' := (create_parent r t s).2 in
  oms_inv (n + 1) s' /\ children_ s' = children_ s /\ execution_reports_ s' = execution_reports_ s /\
  next_child_id_ s' = next_child_id_ s /\
  parents_ s' = <[id := {| po_id := id; po_symbol := prq_symbol r; po_side := prq_side r;
    po_algorithm := prq_algorithm r; po_quantity := prq_quantity r; po_filled := dzero;
    po_remaining := prq_quantity r; po_status := New; po_created := t; po_updated := t;
    po_child_ids := [] |}]> (parents_ s).
Proof.
  intros I Hn Hs Hq id. destruct (runs_create_parent n s r t I Hn) as [HI _]. revert HI.
  unfold create_parent. rewrite bool_decide_eq_false_2 by done. rewrite validate_positive_spec, Hq.
  rewrite emplace_fresh by exact (fresh_parent n s I). unfold mbind, st_bind, notify_mutation.
  cbn [set_parents set_next parents_]. rewrite lookup_insert_eq. cbn. by intros HI.
Qed.

Lemma create_child_returns n s r p : oms_inv n s -> parents_ s !! crq_parent_id r = Some p ->
  check_child r p = Ok tt -> (create_child r s).1 = Ok (next_child_id_ s).
Proof.
  intros I Ep Hc. unfold create_child. rewrite Ep, Hc. rewrite emplace_fresh by exact (fresh_child n s I).
  cbn [set_parents set_children set_next children_ next_parent_id_]. rewrite lookup_insert_eq.
  unfold mbind, st_bind, notify_mutation. cbn [set_parents set_children set_next parents_].
  by rewrite lookup_insert_eq.
Qed.

(** An open child is always changed, a closed one never. *)
Lemma set_child_status_returns s f j t c p : children_ s !! j = Some c ->
  parents_ s !! co_parent_id c = Some p ->
  (set_child_status f j t s).1 = Ok (negb (terminal_status (co_status c))).
Proof.
  intros Ec Ep. unfold set_child_status. rewrite Ec. destruct (terminal_status (co_status c)); [done|].
  unfold refresh_parent, mbind, st_bind, notify_mutation. cbn [set_children parents_ children_ child_with co_parent_id].
  rewrite Ep. cbn [set_parents parents_]. by rewrite lookup_insert_eq.
Qed.

Lemma check_child_ok p P t price : terminal_status (po_status p) = false -> dpositive price = true ->
  dpositive (po_quantity p) = true -> canonical (po_quantity p) -> po_remaining p = po_quantity p ->
  check_child {| crq_parent_id := P; crq_venue := "MINIMATCH"; crq_price := price;
                 crq_quantity := po_quantity p; crq_created := t |} p = Ok tt.
Proof.
  intros Ht Hp Hq Hc Hr. unfold check_child, guard_or. cbn [crq_venue crq_price crq_quantity mbind result_bind].
  rewrite Ht, !validate_positive_spec, Hp, Hq, Hr, dadd_not_less by done. done.
Qed.

(** ** Fields *)

Lemma required_double_spec m t name x : required_double m t name = Ok x -> dpositive x = true /\ canonical x.
Proof.
  unfold required_double. destruct (required_field m t name) as [text|]; [|done]. cbn [mbind result_bind].
  destruct (stod text) as [[y k]|] eqn:E; [|done]. cbn [mbind result_bind fst snd].
  destruct (negb _ || _ || _) eqn:Eb; [done|]. intros [= <-].
  apply orb_false_iff in Eb as [[_ Hf]%orb_false_iff Hl]. apply negb_false_iff in Hf.
  split; [unfold dpositive; by rewrite Hf, Hl|by eapply stod_canonical].
Qed.

Lemma required_field_nonempty m t name v : required_field m t name = Ok v -> v <> [].
Proof. unfold required_field. destruct (get t m) as [[]|]; try done. by intros [= <-]. Qed.

(** What the checks of a new order leave. *)
Lemma parse_new_order_spec m known o : parse_new_order m known = Ok o ->
  get 11 m = Some (no_id o) /\ known !! no_id o = None /\ String.string_of_list_ascii (no_symbol o) <> "" /\
  dpositive (no_quantity o) = true /\ canonical (no_quantity o) /\ dpositive (no_price o) = true.
Proof.
  unfold parse_new_order, guard_or. destruct (required_field m 11 "ClOrdID") as [id|] eqn:E1; [|done].
  cbn [mbind result_bind]. case_bool_decide as Hk; [|done]. cbn [mbind result_bind].
  destruct (required_field m 55 "Symbol") as [symbol|] eqn:E2; [|done]. cbn [mbind result_bind].
  destruct (required_field m 54 "Side") as [text|]; [|done]. cbn [mbind result_bind].
  destruct (parse_side text) as [side|]; [|done]. cbn [mbind result_bind].
  destruct (required_double m 38 "OrderQty") as [q|] eqn:E3; [|done]. cbn [mbind result_bind].
  destruct (required_field m 40 "OrdType") as [ty|]; [|done]. cbn [mbind result_bind].
  destruct (parse_price m ty) as [price|] eqn:E4; [|done]. cbn [mbind result_bind]. intros [= <-].
  cbn [no_id no_symbol no_quantity no_price]. apply required_double_spec in E3 as [H3 H4]. split_and!; try done.
  - revert E1. unfold required_field. destruct (get 11 m) as [[]|]; try done. by intros [= <-].
  - apply required_field_nonempty in E2. by destruct symbol.
  - revert E4. unfold parse_price. case_bool_decide; [|case_bool_decide; [|done]].
    + by intros [Hp _]%required_double_spec.
    + by intros [= <-].
Qed.

(** ** What a message does *)

(** The parent and the child of an accepted order. *)
Definition entered_child (P C : Z) (o : NewOrder) (t : Z) : ChildOrder := {|
  co_id := C; co_parent_id := P; co_venue := "MINIMATCH"; co_price := no_price o;
  co_quantity := no_quantity o; co_filled := dzero; co_remaining := no_quantity o;
  co_status := Working; co_created := t; co_updated := t |}.

Definition entered_parent (P C : Z) (o : NewOrder) (t : Z) : ParentOrder := {|
  po_id := P; po_symbol := String.string_of_list_ascii (no_symbol o); po_side := no_side o;
  po_algorithm := AlgoMarket; po_quantity := no_quantity o; po_filled := dzero;
  po_remaining := no_quantity o;
  po_status := if dle (no_quantity o) epsilon then Filled else Working;
  po_created := t; po_updated := t; po_child_ids := [C] |}.

Record order_entered (t : Z) (g : FixOrderGateway) (o : NewOrder) (r : FixGatewayResult)
    (g' : FixOrderGateway) : Prop := {
  oe_new : parents_ (gw_oms g) !! gr_parent_id r = None /\ children_ (gw_oms g) !! gr_child_id r = None;
  oe_parents : parents_ (gw_oms g') =
    <[gr_parent_id r := entered_parent (gr_parent_id r) (gr_child_id r) o t]> (parents_ (gw_oms g));
  oe_children : children_ (gw_oms g') =
    <[gr_child_id r := entered_child (gr_parent_id r) (gr_child_id r) o t]> (children_ (gw_oms g));
  oe_reports : execution_reports_ (gw_oms g') = execution_reports_ (gw_oms g);
  oe_parent_ids : parent_by_client_order_id_ g' =
    <[no_id o := gr_parent_id r]> (parent_by_client_order_id_ g);
  oe_child_ids : child_by_client_order_id_ g' = <[no_id o := gr_child_id r]> (child_by_client_order_id_ g);
  oe_reply : gr_accepted r = true /\ gr_message r = "order accepted" /\
    gr_response r = execution_report (no_id o) (lit "ACK-" ++ print_integer (gr_child_id r)) (lit "0")
      (lit "0") (no_quantity o) dzero (no_quantity o) (no_price o) []
}.

(** The order that a cancellation means: its identifiers and its open child. *)
Record Target := { tg_id : str; tg_parent : Z; tg_child : Z; tg_order : ChildOrder }.

Definition cancel_target (m : FixMessage) (g : FixOrderGateway) : result Target :=
  id ← required_field m 11 "ClOrdID";
  original ← required_field m 41 "OrigClOrdID";
  match child_by_client_order_id_ g !! original, parent_by_client_order_id_ g !! original with
  | Some C, Some P =>
      match children_ (gw_oms g) !! C with
      | Some c => if terminal_status (co_status c) then Throw (logic_error "order cannot be cancelled")
                  else Ok {| tg_id := id; tg_parent := P; tg_child := C; tg_order := c |}
      | None => Throw (logic_error "order cannot be cancelled")
      end
  | _, _ => Throw (invalid_argument "unknown OrigClOrdID")
  end.

Record order_cancelled (t : Z) (g : FixOrderGateway) (x : Target) (r : FixGatewayResult)
    (g' : FixOrderGateway) : Prop := {
  oc_ids : gr_parent_id r = tg_parent x /\ gr_child_id r = tg_child x;
  oc_children : children_ (gw_oms g') = <[tg_child x :=
    child_with (tg_order x) (co_filled (tg_order x)) (co_remaining (tg_order x)) Cancelled t]>
    (children_ (gw_oms g));
  oc_parent : exists p p', parents_ (gw_oms g) !! tg_parent x = Some p /\
    parents_ (gw_oms g') = <[tg_parent x := p']> (parents_ (gw_oms g)) /\
    terminal_status (po_status p') = true /\ po_quantity p' = po_quantity p /\
    po_filled p' = po_filled p /\ po_remaining p' = po_remaining p /\ po_child_ids p' = po_child_ids p /\
    gr_response r = execution_report (tg_id x) (lit "CXL-" ++ print_integer (tg_child x)) (lit "4")
      (lit "4") (po_quantity p) (po_filled p) (po_remaining p) dzero [];
  oc_reports : execution_reports_ (gw_oms g') = execution_reports_ (gw_oms g);
  oc_parent_ids : parent_by_client_order_id_ g' = <[tg_id x := tg_parent x]> (parent_by_client_order_id_ g);
  oc_child_ids : child_by_client_order_id_ g' = <[tg_id x := tg_child x]> (child_by_client_order_id_ g);
  oc_reply : gr_accepted r = true /\ gr_message r = "order cancelled"
}.

(** A rejected message changes nothing. *)
Definition message_rejected (g : FixOrderGateway) (text : string) (r : FixGatewayResult)
    (g' : FixOrderGateway) : Prop := r = rejected text /\ g' = g.

(** The effect that a message has to have. *)
Definition handled (m : FixMessage) (t : Z) (g : FixOrderGateway) (r : FixGatewayResult)
    (g' : FixOrderGateway) : Prop :=
  match message_type m with
  | NewOrderSingle =>
      match parse_new_order m (parent_by_client_order_id_ g) with
      | Ok o => order_entered t g o r g'
      | Throw e => message_rejected g (what e) r g'
      end
  | OrderCancelRequest =>
      match cancel_target m g with
      | Ok x => order_cancelled t g x r g'
      | Throw e => message_rejected g (what e) r g'
      end
  | _ => message_rejected g "unsupported FIX application message" r g'
  end.

(** ** The invariant *)

(** Both maps know the same clients, with a parent and its only child. *)
Record gateway_ok (n : Z) (g : FixOrderGateway) : Prop := {
  gk_oms : oms_inv n (gw_oms g);
  gk_parents : forall client P, parent_by_client_order_id_ g !! client = Some P ->
    exists C p, child_by_client_order_id_ g !! client = Some C /\
      parents_ (gw_oms g) !! P = Some p /\ po_child_ids p = [C];
  gk_children : forall client, is_Some (child_by_client_order_id_ g !! client) ->
    is_Some (parent_by_client_order_id_ g !! client)
}.

Lemma gateway_ok_mono n n' g : n <= n' -> gateway_ok n g -> gateway_ok n' g.
Proof. intros Hn []. split; try done. by eapply oms_inv_mono. Qed.

(** A parent and a child come in or stay as they are up to their fields. *)
Lemma gateway_ok_step n n' g g' client P C p : gateway_ok n g -> oms_inv n' (gw_oms g') ->
  parents_ (gw_oms g') = <[P := p]> (parents_ (gw_oms g)) -> po_child_ids p = [C] ->
  (forall q, parents_ (gw_oms g) !! P = Some q -> po_child_ids q = [C]) ->
  parent_by_client_order_id_ g' = <[client := P]> (parent_by_client_order_id_ g) ->
  child_by_client_order_id_ g' = <[client := C]> (child_by_client_order_id_ g) -> gateway_ok n' g'.
Proof.
  intros [_ H2 H3] I Hp Hids Hold E1 E2. split; [done| |].
  - intros k Q. rewrite E1, E2, Hp, (lookup_insert _ client), (lookup_insert _ client). case_decide as D.
    + intros [= <-]. exists C, p. by rewrite lookup_insert_eq.
    + intros (D' & q & F1 & F2 & F3)%H2. destruct (decide (P = Q)) as [<-|Hne].
      * exists D', p. rewrite lookup_insert_eq. split_and!; [done|done|]. specialize (Hold q F2). congruence.
      * exists D', q. by rewrite lookup_insert_ne.
  - intros k. rewrite E1, E2, (lookup_insert _ client), (lookup_insert _ client). case_decide; [done|apply H3].
Qed.

(** ** New orders *)

Lemma entered_refreshed P C o t cs p : dpositive (no_quantity o) = true ->
  p = parent_with (entered_parent P C o t) dzero (no_quantity o) Working t [C] ->
  refreshed (<[C := entered_child P C o t]> cs) t p = entered_parent P C o t.
Proof.
  intros Hq ->. unfold refreshed. rewrite bool_decide_eq_false_2 by done.
  cbn [parent_with po_child_ids po_quantity entered_parent]. unfold tally. cbn [foldl]. rewrite lookup_insert_eq.
  unfold tally_child. cbn [entered_child co_filled co_status t_filled t_working t_rejected t_cancelled].
  change (dadd dzero dzero) with dzero. assert (Hm : dmin (no_quantity o) dzero = dzero).
  { by apply dpositive_inv in Hq as (m & e & ->). }
  rewrite Hm, dsub_zero_r, dmax_zero_l by done. unfold refreshed_status, entered_parent, parent_with. cbn. done.
Qed.

Lemma new_order_ok n g m t o : gateway_ok n g -> n + 3 < 2 ^ 64 - 2 ->
  parse_new_order m (parent_by_client_order_id_ g) = Ok o ->
  exists r g', handle_new_order m t g = (Ok r, g') /\ order_entered t g o r g' /\ gateway_ok (n + 3) g'.
Proof.
  intros Hg Hn Ho. pose proof (gk_oms _ _ Hg) as I. set (s := gw_oms g) in *.
  destruct (parse_new_order_spec _ _ _ Ho) as (_ & Hnew & Hs & Hq & Hcan & Hp).
  set (prq := {| prq_symbol := String.string_of_list_ascii (no_symbol o); prq_side := no_side o;
                 prq_quantity := no_quantity o; prq_algorithm := AlgoMarket |}).
  destruct (create_parent_returns n s prq t I ltac:(lia) Hs Hq) as (A1 & I1 & A2 & A3 & A4 & A5).
  destruct (create_parent prq t s) as [r1 s1] eqn:E1. cbn [fst snd] in *. subst r1.
  set (P := next_parent_id_ s) in *. set (C := next_child_id_ s) in *.
  set (crq := {| crq_parent_id := P; crq_venue := "MINIMATCH"; crq_price := no_price o;
                 crq_quantity := no_quantity o; crq_created := t |}).
  match type of A5 with _ = <[_ := ?x]> _ => set (p0 := x) in * end.
  assert (Ep0 : parents_ s1 !! P = Some p0) by (by rewrite A5, lookup_insert_eq).
  assert (B1 : (create_child crq s1).1 = Ok C).
  { rewrite (create_child_returns (n + 1) s1 crq p0 I1 Ep0); [by rewrite A4|]. by apply check_child_ok. }
  destruct (runs_create_child (n + 1) s1 crq I1 ltac:(lia)) as [I2 B2]. specialize (B2 C B1).
  destruct (create_child crq s1) as [r2 s2] eqn:E2. cbn [fst snd] in *. subst r2.
  destruct B2 as (p & Ep & _ & _ & B2 & B3 & B4). cbn [crq crq_parent_id] in Ep. rewrite Ep0 in Ep. injection Ep as <-.
  assert (EC : children_ s2 !! C = Some (new_child C crq)) by (by rewrite B2, lookup_insert_eq).
  assert (EP : parents_ s2 !! P = Some (with_child p0 t C)) by (by rewrite B3, lookup_insert_eq).
  pose proof (set_child_status_returns s2 (fun c => if dgt (co_filled c) epsilon then PartiallyFilled else Working)
    C t (new_child C crq) _ EC EP) as D1.
  destruct (runs_set_status (n + 1 + 1) s2 (fun c => if dgt (co_filled c) epsilon then PartiallyFilled else Working)
    C t (new_child C crq) (with_child p0 t C) I2) as [I3 D2]; [intros c; by case_if|done|done|done|].
  specialize (D2 _ D1). fold mark_child_working in *.
  destruct (mark_child_working C t s2) as [r3 s3] eqn:E3. cbn [fst snd] in *. subst r3.
  destruct D2 as (D2 & D3 & D4).
  unfold handle_new_order, on_gateway_oms, remember, mbind, st_bind, lift, Prelude.get. rewrite Ho.
  cbn [gw_oms]. fold s. fold prq. rewrite E1. cbn [gw_oms]. fold crq. rewrite E2. cbn [gw_oms]. rewrite E3.
  eexists _, _. split; [reflexivity|].
  assert (Hchild : <[C := entered_child P C o t]> (children_ s) = children_ s3).
  { rewrite D2, B2, insert_insert_eq, A2. done. }
  assert (Hparent : <[P := entered_parent P C o t]> (parents_ s) = parents_ s3).
  { rewrite D3. cbn [new_child crq co_parent_id crq_parent_id]. rewrite B3, insert_insert_eq, A5, insert_insert_eq.
    f_equal. rewrite B2, insert_insert_eq. symmetry. by apply entered_refreshed. }
  split.
  - split; cbn [gr_parent_id gr_child_id gw_oms parent_by_client_order_id_ child_by_client_order_id_]; try done.
    + split; [exact (fresh_parent n s I)|exact (fresh_child n s I)].
    + by rewrite D4, B4, A3.
  - apply (gateway_ok_step n (n + 3) g _ (no_id o) P C (entered_parent P C o t)); try done.
    + by replace (n + 3) with (n + 1 + 1 + 1) by lia.
    + intros q Eq. pose proof (fresh_parent n s I) as Hf. fold s P in Eq, Hf. congruence.
Qed.

(** ** Cancellations *)

Lemma cancel_target_spec n m g x : gateway_ok n g -> cancel_target m g = Ok x ->
  required_field m 11 "ClOrdID" = Ok (tg_id x) /\ (exists original, required_field m 41 "OrigClOrdID" = Ok original /\
    child_by_client_order_id_ g !! original = Some (tg_child x) /\
    parent_by_client_order_id_ g !! original = Some (tg_parent x)) /\
  (exists p, parents_ (gw_oms g) !! tg_parent x = Some p /\ po_child_ids p = [tg_child x]) /\
  children_ (gw_oms g) !! tg_child x = Some (tg_order x) /\ terminal_status (co_status (tg_order x)) = false /\
  co_parent_id (tg_order x) = tg_parent x.
Proof.
  intros Hg. unfold cancel_target. destruct (required_field m 11 "ClOrdID") as [id|]; [|done].
  cbn [mbind result_bind]. destruct (required_field m 41 "OrigClOrdID") as [original|]; [|done].
  cbn [mbind result_bind]. destruct (child_by_client_order_id_ g !! original) as [C|] eqn:EC; [|done].
  destruct (parent_by_client_order_id_ g !! original) as [P|] eqn:EP; [|done].
  destruct (children_ (gw_oms g) !! C) as [c|] eqn:Ec; [|done].
  destruct (terminal_status (co_status c)) eqn:Ht; [done|]. intros [= <-]. cbn.
  destruct (gk_parents _ _ Hg _ _ EP) as (C' & p & F1 & F2 & F3). rewrite EC in F1. injection F1 as <-.
  split_and!; try done; [by exists original|by exists p|].
  destruct (pk_children _ _ _ (oi_parents _ _ (gk_oms _ _ Hg) _ _ F2) C) as (c' & F4 & F5); [by rewrite F3; left|].
  congruence.
Qed.

(** The filled quantity of a parent with one child. *)
Lemma parent_filled n s P p C c : oms_inv n s -> parents_ s !! P = Some p -> po_child_ids p = [C] ->
  children_ s !! C = Some c -> po_filled p = dmin (po_quantity p) (dadd dzero (co_filled c)) /\
  po_remaining p = remainder (po_quantity p) (po_filled p).
Proof.
  intros I Ep Hids Ec. destruct (oi_parents _ _ I _ _ Ep) as [_ _ _ _ Hf Hr _ _]. split; [|done].
  rewrite Hf, Hids. unfold children_filled. cbn [foldl]. by rewrite Ec.
Qed.

Lemma cancel_parent_ok s P t : exists b, (cancel_parent P t s).1 = Ok b.
Proof. unfold cancel_parent. destruct (parents_ s !! P); [|eauto]. case_if; eauto. Qed.

Lemma cancellation_ok n g m t x : gateway_ok n g -> n + 3 < 2 ^ 64 - 2 -> cancel_target m g = Ok x ->
  exists r g', handle_cancel m t g = (Ok r, g') /\ order_cancelled t g x r g' /\ gateway_ok (n + 3) g'.
Proof.
  intros Hg Hn Hx. pose proof (gk_oms _ _ Hg) as I. set (s := gw_oms g) in *.
  destruct (cancel_target_spec _ _ _ _ Hg Hx) as (F1 & (original & F2 & F3 & F4) & (p & F5 & F6) & F7 & F8 & F9).
  fold s in F5, F7. destruct x as [id P C c]. cbn [tg_id tg_parent tg_child tg_order] in *.
  rewrite <- F9 in F5. pose proof (set_child_status_returns s (fun _ => Cancelled) C t c p F7 F5) as A1.
  destruct (runs_set_status n s (fun _ => Cancelled) C t c p I) as [I1 A2]; [done..|]. specialize (A2 _ A1).
  rewrite F8 in A1. fold cancel_child in *. destruct (cancel_child C t s) as [r1 s1] eqn:E1.
  cbn [fst snd negb] in *. subst r1. destruct A2 as (A2 & A3 & A4). rewrite F9 in *.
  set (c' := child_with c (co_filled c) (co_remaining c) Cancelled t) in *. set (p1 := refreshed _ t p) in *.
  assert (Ep1 : parents_ s1 !! P = Some p1) by (by rewrite A3, lookup_insert_eq).
  assert (Hids1 : po_child_ids p1 = [C]) by (unfold p1; by rewrite refreshed_ids).
  destruct (cancel_parent_ok s1 P t) as [b B1].
  destruct (runs_cancel_parent (n + 1) s1 P t p1 I1 Ep1) as [I2 B2].
  { intros j d Hj Hd. rewrite Hids1, list_elem_of_singleton in Hj. subst j.
    rewrite A2, lookup_insert_eq in Hd. by injection Hd as <-. }
  specialize (B2 b B1). destruct (cancel_parent P t s1) as [r2 s2] eqn:E2. cbn [fst snd] in *. subst r2.
  destruct B2 as (B2 & B3 & p' & B4 & B5 & B6 & B7 & B8).
  assert (Ep' : parents_ s2 !! P = Some p') by (by rewrite B4, lookup_insert_eq).
  assert (Hq : po_quantity p' = po_quantity p) by (rewrite B6; unfold p1; by rewrite refreshed_quantity).
  destruct (parent_filled n s P p C c I F5 F6 F7) as [G1 G2].
  destruct (parent_filled (n + 1 + 1) s2 P p' C c' I2 Ep') as [G3 G4];
    [by rewrite B8|by rewrite B2, A2, lookup_insert_eq|].
  change (co_filled c') with (co_filled c) in G3.
  assert (Hf : po_filled p' = po_filled p) by congruence. assert (Hr : po_remaining p' = po_remaining p) by congruence.
  unfold handle_cancel, on_gateway_oms, remember, mbind, st_bind, lift, Prelude.get. rewrite F1, F2, F3, F4.
  fold s. rewrite E1. cbn [gw_oms negb]. rewrite E2. cbn [gw_oms]. unfold find_parent. rewrite Ep'.
  eexists _, _. split; [reflexivity|]. split.
  - split; cbn [gr_parent_id gr_child_id gw_oms parent_by_client_order_id_ child_by_client_order_id_
      tg_id tg_parent tg_child tg_order]; try done.
    + by rewrite B2, A2.
    + exists p, p'. split_and!; try done; [by rewrite B4, A3, insert_insert_eq|congruence|].
      cbn [gr_response]. by rewrite Hq, Hf, Hr.
    + by rewrite B3, A4.
  - apply (gateway_ok_step n (n + 3) g _ id P C p'); try done.
    + eapply oms_inv_mono, I2. lia.
    + cbn [gw_oms]. by rewrite B4, A3, insert_insert_eq.
    + congruence.
    + intros q Eq. fold s in Eq. congruence.
Qed.

(** A cancellation without a target throws and changes nothing. *)
Lemma cancel_refused n g m t e : gateway_ok n g -> cancel_target m g = Throw e ->
  exists e', handle_cancel m t g = (Throw e', g) /\ what e' = what e.
Proof.
  intros Hg. unfold cancel_target, handle_cancel, mbind, st_bind, lift, Prelude.get.
  destruct (required_field m 11 "ClOrdID") as [id|e1]; [|intros [= <-]; by exists e1]. cbn [result_bind].
  destruct (required_field m 41 "OrigClOrdID") as [original|e1]; [|intros [= <-]; by exists e1].
  cbn [result_bind]. destruct (child_by_client_order_id_ g !! original) as [C|] eqn:EC; [|intros [= <-]; by eexists].
  destruct (parent_by_client_order_id_ g !! original) as [P|] eqn:EP; [|intros [= <-]; by eexists].
  destruct (gk_parents _ _ Hg _ _ EP) as (C' & p & F1 & F2 & F3). rewrite EC in F1. injection F1 as <-.
  destruct (pk_children _ _ _ (oi_parents _ _ (gk_oms _ _ Hg) _ _ F2) C) as (c & F4 & _); [by rewrite F3; left|].
  rewrite F4. destruct (terminal_status (co_status c)) eqn:Ht; [|done]. intros [= <-].
  unfold on_gateway_oms, cancel_child, set_child_status. rewrite F4, Ht. cbn [negb].
  exists (logic_error "order cannot be cancelled"). split; [|done]. by destruct g.
Qed.

(** ** The gateway *)

Lemma handle_ok n g m t : gateway_ok n g -> n + 3 < 2 ^ 64 - 2 ->
  let p := handle m t g in handled m t g p.1 p.2 /\ gateway_ok (n + 3) p.2.
Proof.
  intros Hg Hn. assert (Hstay : gateway_ok (n + 3) g) by (eapply gateway_ok_mono, Hg; lia).
  unfold handle, handled. destruct (message_type m); try (split; [by split|done]).
  - rewrite bool_decide_eq_true_2 by done.
    destruct (parse_new_order m (parent_by_client_order_id_ g)) as [o|e] eqn:Ho.
    + destruct (new_order_ok n g m t o Hg Hn Ho) as (r & g' & -> & H1 & H2). by split.
    + unfold handle_new_order, mbind, st_bind, lift, Prelude.get. rewrite Ho. by split; [split|].
  - rewrite bool_decide_eq_false_2 by done. rewrite bool_decide_eq_true_2 by done.
    destruct (cancel_target m g) as [x|e] eqn:Hx.
    + destruct (cancellation_ok n g m t x Hg Hn Hx) as (r & g' & -> & H1 & H2). by split.
    + destruct (cancel_refused n g m t e Hg Hx) as (e' & -> & He). split; [|done].
      split; [|done]. cbn [fst]. by rewrite He.
Qed.

(** The gateway after some messages, each with its time. *)
Definition serve (ms : list (FixMessage * Z)) (g : FixOrderGateway) : FixOrderGateway :=
  foldl (fun g p => (handle p.1 p.2 g).2) g ms.

Lemma serve_ok n ms : forall g, gateway_ok n g -> n + 3 * Z.of_nat (length ms) < 2 ^ 64 - 2 ->
  gateway_ok (n + 3 * Z.of_nat (length ms)) (serve ms g).
Proof.
  revert n. induction ms as [|[m t] ms IH]; intros n g Hg Hn; cbn [length] in *.
  { by replace (n + 3 * Z.of_nat 0) with n by lia. }
  replace (n + 3 * Z.of_nat (S (length ms))) with (n + 3 + 3 * Z.of_nat (length ms)) by lia.
  apply (IH (n + 3)); [|lia]. by apply handle_ok; [|lia].
Qed.

Lemma new_gateway_ok n s : oms_inv n s -> gateway_ok n (new_gateway s).
Proof.
  intros I. split; [done|intros client P|intros client [P H]; revert H];
    cbn [new_gateway parent_by_client_order_id_ child_by_client_order_id_]; by rewrite lookup_empty.
Qed.

(** C25: the gateway does all or nothing.  After any commands on the order
    management system and then any messages: a new order whose fields are right
    and whose identifier is new is always accepted, and a parent with one working
    child of its quantity and price is all that it adds (the parent is filled at
    once when the quantity is within the tolerance); a cancellation of a known
    order with an open child is always accepted, cancels the child, closes the
    parent and reports its quantities; every other message is rejected with the
    text of the first check that fails, and changes nothing. *)
Theorem gateway_all_or_nothing cs ms m t : let g := serve ms (new_gateway (run cs)) in
  Z.of_nat (length cs) + 3 * Z.of_nat (length ms) + 3 < 2 ^ 64 - 2 ->
  let p := handle m t g in handled m t g p.1 p.2.
Proof.
  intros g Hn. apply (handle_ok (Z.of_nat (length cs) + 3 * Z.of_nat (length ms))); [|lia].
  apply serve_ok; [|lia]. apply new_gateway_ok, run_inv. lia.
Qed.

(** ** Examples *)

Definition demo_order (id quantity price : string) : FixMessage :=
  set 44 (lit price) (set 40 (lit "2") (set 38 (lit quantity) (set 54 (lit "1") (set 55 (lit "BTC")
    (set 11 (lit id) (empty_message NewOrderSingle)))))).

Definition demo_cancel (id original : string) : FixMessage :=
  set 41 (lit original) (set 11 (lit id) (empty_message OrderCancelRequest)).

Definition demo_gateway : FixOrderGateway :=
  serve [(demo_order "A" "0.1" "100.5", 1); (demo_order "B" "2" "99", 2)] (new_gateway (run [])).

Lemma gateway_all_or_nothing_witness :
  let p := handle (demo_cancel "C" "A") 3 demo_gateway in
  gr_accepted p.1 = true /\ get 38 (gr_response p.1) = Some (lit "0.100000") /\
  handled (demo_cancel "C" "A") 3 demo_gateway p.1 p.2.
Proof.
  split; [vm_compute; reflexivity|]. split; [vm_compute; reflexivity|].
  apply (gateway_all_or_nothing [] [(demo_order "A" "0.1" "100.5", 1); (demo_order "B" "2" "99", 2)]).
  cbn [length]. lia.
Defined.

(** The identifier of a cancellation is not compared with those of the orders: a
    cancellation of [A] that calls itself [B] hides the order [B], which stays
    open and cannot be cancelled any more. *)
Example cancellation_hides_order :
  let g := serve [(demo_cancel "B" "A", 3)] demo_gateway in
  gr_message (handle (demo_cancel "D" "B") 4 g).1 = "order cannot be cancelled" /\
  (co_status <$> find_child 2 (gw_oms g)) = Some Working.
Proof. vm_compute. auto. Qed.

(** Six places are not enough for every quantity: the reply to an order of a
    tenth of a millionth says zero. *)
Example reply_loses_quantity :
  let p := handle (demo_order "E" "0.0000001" "100") 5 demo_gateway in
  gr_accepted p.1 = true /\ get 38 (gr_response p.1) = Some (lit "0.000000").
Proof. vm_compute. auto. Qed.

(** The text of a number that is none is the name of a function. *)
Example bad_quantity_text :
  gr_message (handle (demo_order "F" "many" "100") 6 demo_gateway).1 = "stod".
Proof. vm_compute. reflexivity. Qed.
