(* ===== verification/Recording.v ===== *)
(** * Recordings of market data ([market_recorder.hpp], [market_recorder.cpp])

    A binary file of snapshots and batches of updates: a header of twelve bytes,
    then records of sixteen bytes and a payload.  A file is its list of bytes; the
    reader has the bytes of the file and those it has not read yet. *)

From S2P Require Import Prelude.
From S2P Require Import Bytes.
From S2P Require Import Float.
From S2P Require Import Rounding.
From S2P Require Import SortedMap.
From S2P Require Import MarketData.

(** [file_magic], "MMDATA01" *)
Definition file_magic : list Z := [77; 77; 68; 65; 84; 65; 48; 49].
Definition file_version : Z := 1.
Definition maximum_string_size : Z := 1024 * 1024.
Definition maximum_level_count : Z := 10000000.

(** ** Payloads: writing *)

Definition char_bytes (s : string) : list Z :=
  (fun c => Z.of_nat (Ascii.nat_of_ascii c)) <$> String.list_ascii_of_string s.

Definition bytes_string (bs : list Z) : string :=
  String.string_of_list_ascii ((fun b => Ascii.ascii_of_nat (Z.to_nat b)) <$> bs).

Definition append_string (s : string) : result (list Z) :=
  let size := Z.of_nat (length (char_bytes s)) in
  if maximum_string_size <? size
  then Throw (invalid_argument "market-data string exceeds maximum size")
  else Ok (le 4 size ++ char_bytes s).

Definition append_level (l : MarketDataLevel) : list Z :=
  double_bytes (ml_price l) ++ double_bytes (ml_quantity l).

Definition append_levels (ls : list MarketDataLevel) : result (list Z) :=
  let count := Z.of_nat (length ls) in
  if maximum_level_count <? count
  then Throw (invalid_argument "market-data level count exceeds maximum")
  else Ok (le 4 count ++ concat (append_level <$> ls)).

Definition side_code (s : MarketDataSide) : Z := match s with Bid => 0 | Ask => 1 end.
Definition update_type_code (t : MarketDataUpdateType) : Z :=
  match t with Snapshot => 0 | Upsert => 1 | Delete => 2 end.

Definition append_update (u : MarketDataUpdate) : result (list Z) :=
  venue ← append_string (mu_venue u);
  symbol ← append_string (mu_symbol u);
  Ok (venue ++ symbol ++ le 8 (mu_sequence u) ++ le 8 (mu_timestamp_ns u) ++
      le 1 (side_code (mu_side u)) ++ le 1 (update_type_code (mu_type u)) ++
      double_bytes (mu_price u) ++ double_bytes (mu_quantity u)).

Definition encode_snapshot (s : MarketDataSnapshot) : result (list Z) :=
  venue ← append_string (ms_venue s);
  symbol ← append_string (ms_symbol s);
  bids ← append_levels (ms_bids s);
  asks ← append_levels (ms_asks s);
  Ok (venue ++ symbol ++ le 8 (ms_sequence s) ++ le 8 (ms_timestamp_ns s) ++ bids ++ asks).

Fixpoint append_updates (us : list MarketDataUpdate) : result (list Z) :=
  match us with
  | [] => Ok []
  | u :: us => bs ← append_update u; rest ← append_updates us; Ok (bs ++ rest)
  end.

Definition encode_update_batch (us : list MarketDataUpdate) : result (list Z) :=
  _ ← guard_or (negb (bool_decide (us = []))) (invalid_argument "cannot record an empty market-data batch");
  let count := Z.of_nat (length us) in
  _ ← guard_or (negb (maximum_level_count <? count))
        (invalid_argument "market-data batch exceeds maximum size");
  payload ← append_updates us;
  Ok (le 4 count ++ payload).

(** ** Payloads: reading

    The state is what the payload has left behind [offset]. *)

Definition read_scalar (size : nat) : ST (list Z) Z := fun s =>
  match read_bytes size s with
  | Some (v, rest) => (Ok (of_le v), rest)
  | None => (Throw (runtime_error "truncated market-data payload"), s)
  end.

Definition read_double : ST (list Z) double := z ← read_scalar 8; mret (double_of_bits z).

Definition read_string : ST (list Z) string :=
  size ← read_scalar 4;
  rest ← Prelude.get;
  if (maximum_string_size <? size) || (Z.of_nat (length rest) <? size)
  then throw (runtime_error "invalid market-data string length")
  else fun rest => (Ok (bytes_string (take (Z.to_nat size) rest)), drop (Z.to_nat size) rest).

(** The loops over a count. *)
Fixpoint read_many {A} (one : ST (list Z) A) (count : nat) : ST (list Z) (list A) :=
  match count with
  | O => mret []
  | S count => x ← one; xs ← read_many one count; mret (x :: xs)
  end.

Definition read_level : ST (list Z) MarketDataLevel :=
  price ← read_double;
  quantity ← read_double;
  mret {| ml_price := price; ml_quantity := quantity |}.

Definition read_levels : ST (list Z) (list MarketDataLevel) :=
  count ← read_scalar 4;
  if maximum_level_count <? count
  then throw (runtime_error "invalid market-data level count")
  else read_many read_level (Z.to_nat count).

Definition side_of_value (z : Z) : ST (list Z) MarketDataSide :=
  if 1 <? z then throw (runtime_error "invalid market-data side")
  else mret (if z =? 0 then Bid else Ask).

Definition type_of_value (z : Z) : ST (list Z) MarketDataUpdateType :=
  if 2 <? z then throw (runtime_error "invalid market-data update type")
  else mret (if z =? 0 then Snapshot else if z =? 1 then Upsert else Delete).

Definition read_update : ST (list Z) MarketDataUpdate :=
  venue ← read_string;
  symbol ← read_string;
  sequence ← read_scalar 8;
  timestamp ← read_scalar 8;
  side_value ← read_scalar 1;
  type_value ← read_scalar 1;
  side ← side_of_value side_value;
  type ← type_of_value type_value;
  price ← read_double;
  quantity ← read_double;
  mret {| mu_venue := venue; mu_symbol := symbol; mu_sequence := sequence; mu_timestamp_ns := timestamp;
          mu_side := side; mu_type := type; mu_price := price; mu_quantity := quantity |}.

(** [offset != payload.size()] *)
Definition at_end (message : string) : ST (list Z) unit := fun s =>
  (guard_or (bool_decide (s = [])) (runtime_error message), s).

Definition decode_snapshot (payload : list Z) : result MarketDataSnapshot :=
  fst ((venue ← read_string;
   symbol ← read_string;
   sequence ← read_scalar 8;
   timestamp ← read_scalar 8;
   bids ← read_levels;
   asks ← read_levels;
   _ ← at_end "snapshot payload has trailing bytes";
   mret {| ms_venue := venue; ms_symbol := symbol; ms_sequence := sequence; ms_timestamp_ns := timestamp;
           ms_bids := bids; ms_asks := asks |}) payload).

Definition decode_update_batch (payload : list Z) : result (list MarketDataUpdate) :=
  fst ((count ← read_scalar 4;
   if (count =? 0) || (maximum_level_count <? count)
   then throw (runtime_error "invalid update-batch count")
   else
     updates ← read_many read_update (Z.to_nat count);
     _ ← at_end "update payload has trailing bytes";
     mret updates) payload).

(** ** The recorder *)

Inductive MarketRecordType := RecordSnapshot | RecordUpdateBatch.

#[export] Instance MarketRecordType_eq_dec : EqDecision MarketRecordType.
Proof. solve_decision. Defined.

Definition record_type_code (t : MarketRecordType) : Z :=
  match t with RecordSnapshot => 1 | RecordUpdateBatch => 2 end.

Record MarketRecord := {
  mr_type : MarketRecordType; mr_timestamp : Z; mr_snapshot : MarketDataSnapshot;
  mr_updates : list MarketDataUpdate
}.

Definition empty_snapshot : MarketDataSnapshot := {|
  ms_venue := ""; ms_symbol := ""; ms_sequence := 0; ms_timestamp_ns := 0; ms_bids := []; ms_asks := [] |}.

(** [output_] is what the file holds and whether the stream is good: the
    operating system can spoil it. *)
Record MarketRecorder := {
  rec_file : list Z; rec_good : bool; records_written_ : Z; bytes_written_ : Z
}.

Definition wrote (bytes : list Z) (records : Z) (w : MarketRecorder) : MarketRecorder := {|
  rec_file := rec_file w ++ bytes; rec_good := rec_good w;
  records_written_ := u64 (records_written_ w + records);
  bytes_written_ := u64 (bytes_written_ w + Z.of_nat (length bytes)) |}.

Definition file_header : list Z := file_magic ++ le 2 file_version ++ le 2 0.

Definition write_file_header : ST MarketRecorder unit := fun w =>
  if rec_good w then (Ok tt, wrote file_header 0 w)
  else (Throw (runtime_error "failed writing market-data recording"), w).

(** [content] is what the file at the path holds, [None] when it cannot be
    opened for writing.  A stream opened for appending is at its end. *)
Definition new_recorder (path : string) (append : bool) (content : option (list Z)) : result MarketRecorder :=
  _ ← guard_or (negb (bool_decide (path = "")))
        (invalid_argument "market recording path cannot be empty");
  match content with
  | None => Throw (runtime_error ("cannot open market recording: " +:+ path))
  | Some bytes =>
      let kept := if append then bytes else [] in
      let w := {| rec_file := kept; rec_good := true; records_written_ := 0; bytes_written_ := 0 |} in
      match kept with
      | [] => match write_file_header w with (Ok _, w) => Ok w | (Throw e, _) => Throw e end
      | _ => Ok w
      end
  end.

Definition record_header (type : MarketRecordType) (timestamp : Z) (payload : list Z) : list Z :=
  le 1 (record_type_code type) ++ [0; 0; 0] ++ le 8 timestamp ++ le 4 (Z.of_nat (length payload)).

Definition write_record (type : MarketRecordType) (timestamp : Z) (payload : list Z)
    : ST MarketRecorder unit := fun w =>
  if 2 ^ 32 - 1 <? Z.of_nat (length payload)
  then (Throw (invalid_argument "market-data record payload is too large"), w)
  else if negb (rec_good w) then (Throw (runtime_error "failed writing market-data recording"), w)
  else (Ok tt, wrote (record_header type timestamp payload ++ payload) 1 w).

(** The timestamp of a record; [now] is what the clock shows. *)
Definition recorded_at (timestamp own now : Z) : Z :=
  if timestamp =? 0 then if negb (own =? 0) then own else now else timestamp.

Definition write_snapshot (s : MarketDataSnapshot) (timestamp now : Z) : ST MarketRecorder unit :=
  let timestamp := recorded_at timestamp (ms_timestamp_ns s) now in
  payload ← lift (encode_snapshot s);
  write_record RecordSnapshot timestamp payload.

Definition write_update_batch (us : list MarketDataUpdate) (timestamp now : Z) : ST MarketRecorder unit :=
  match us with
  | [] => throw (invalid_argument "cannot record empty market-data batch")
  | first :: _ =>
      let timestamp := recorded_at timestamp (mu_timestamp_ns first) now in
      payload ← lift (encode_update_batch us);
      write_record RecordUpdateBatch timestamp payload
  end.

Definition write_update (us : list MarketDataUpdate) (now : Z) : ST MarketRecorder unit :=
  write_update_batch us 0 now.

Definition flush : ST MarketRecorder unit := fun w =>
  (guard_or (rec_good w) (runtime_error "failed flushing market recording"), w).

(** ** The reader *)

Record MarketRecordReader := { rd_file : list Z; rd_rest : list Z; records_read_ : Z }.

Definition rest_at (rest : list Z) (r : MarketRecordReader) : MarketRecordReader := {|
  rd_file := rd_file r; rd_rest := rest; records_read_ := records_read_ r |}.

(** [input_.read]: a read past the end takes what is there and fails.  After
    that the stream has nothing more to give, whether it was cleared or not. *)
Definition input_read (size : Z) : ST MarketRecordReader (option (list Z)) := fun r =>
  if Z.of_nat (length (rd_rest r)) <? size then (Ok None, rest_at [] r)
  else (Ok (Some (take (Z.to_nat size) (rd_rest r))), rest_at (drop (Z.to_nat size) (rd_rest r)) r).

Definition read_or (message : string) (size : Z) : ST MarketRecordReader (list Z) :=
  bytes ← input_read size;
  match bytes with Some bytes => mret bytes | None => throw (runtime_error message) end.

Definition read_stream_value (size : Z) : ST MarketRecordReader Z :=
  bytes ← read_or "truncated market-data recording" size; mret (of_le bytes).

Definition read_file_header : ST MarketRecordReader unit :=
  magic ← read_or "invalid market recording header" 8;
  if negb (bool_decide (magic = file_magic))
  then throw (runtime_error "invalid market recording header")
  else
    version ← read_stream_value 2;
    _ ← read_stream_value 2;
    if negb (version =? file_version)
    then throw (runtime_error "unsupported market recording version")
    else mret tt.

Definition new_reader (path : string) (content : option (list Z)) : result MarketRecordReader :=
  _ ← guard_or (negb (bool_decide (path = "")))
        (invalid_argument "market recording path cannot be empty");
  match content with
  | None => Throw (runtime_error ("cannot open market recording: " +:+ path))
  | Some bytes =>
      match read_file_header {| rd_file := bytes; rd_rest := bytes; records_read_ := 0 |} with
      | (Ok _, r) => Ok r
      | (Throw e, _) => Throw e
      end
  end.

Definition decode_record (type timestamp : Z) (payload : list Z) : result MarketRecord :=
  if type =? record_type_code RecordSnapshot then
    s ← decode_snapshot payload;
    Ok {| mr_type := RecordSnapshot; mr_timestamp := timestamp; mr_snapshot := s; mr_updates := [] |}
  else if type =? record_type_code RecordUpdateBatch then
    us ← decode_update_batch payload;
    Ok {| mr_type := RecordUpdateBatch; mr_timestamp := timestamp; mr_snapshot := empty_snapshot;
          mr_updates := us |}
  else Throw (runtime_error "unsupported market-data record type").

Definition count_record : ST MarketRecordReader unit := modify (fun r => {|
  rd_file := rd_file r; rd_rest := rd_rest r; records_read_ := u64 (records_read_ r + 1) |}).

(** [Some record] where the code stores [record] and returns [true]. *)
Definition next : ST MarketRecordReader (option MarketRecord) :=
  r ← Prelude.get;
  match rd_rest r with
  | [] => mret None
  | _ =>
      type ← read_stream_value 1;
      _ ← read_or "truncated market-data record header" 3;
      timestamp ← read_stream_value 8;
      size ← read_stream_value 4;
      payload ← input_read size;
      match payload with
      | None => mret None
      | Some payload =>
          record ← lift (decode_record type timestamp payload);
          _ ← count_record;
          mret (Some record)
      end
  end.

Definition rewind : ST MarketRecordReader unit :=
  _ ← modify (fun r => {| rd_file := rd_file r; rd_rest := rd_file r; records_read_ := 0 |});
  read_file_header.
