(* ===== verification/RecordingProps.v ===== *)
(** * Recordings read back

    The payloads decode to what was encoded; the records of any number of sessions
    on a file come back in order, also when the last one was cut in its payload. *)

From S2P Require Import Prelude.
From S2P Require Import Bytes.
From S2P Require Import Float.
From S2P Require Import Rounding.
From S2P Require Import SortedMap.
From S2P Require Import MarketData.
From S2P Require Import Recording.

(** ** Readers of payloads *)

(** The reader takes exactly these bytes and returns the value. *)
Definition reads {A} (p : ST (list Z) A) (bytes : list Z) (x : A) : Prop :=
  forall rest, p (bytes ++ rest) = (Ok x, rest).

Lemma reads_ret {A} (x : A) : reads (mret x) [] x.
Proof. done. Qed.

Lemma reads_bind {A B} (p : ST (list Z) A) (k : A -> ST (list Z) B) a b x y :
  reads p a x -> reads (k x) b y -> reads (p ≫= k) (a ++ b) y.
Proof. intros H1 H2 rest. unfold mbind, st_bind. by rewrite <- app_assoc, H1, H2. Qed.

Lemma reads_last {A B} (p : ST (list Z) A) (k : A -> ST (list Z) B) a x y :
  reads p a x -> reads (k x) [] y -> reads (p ≫= k) a y.
Proof. intros H1 H2. rewrite <- (app_nil_r a). by eapply reads_bind. Qed.

Lemma reads_scalar n z : 0 <= z < 256 ^ Z.of_nat n -> reads (read_scalar n) (le n z) z.
Proof.
  intros Hz rest. unfold read_scalar. rewrite read_bytes_app by apply length_le. by rewrite of_le_le.
Qed.

Lemma reads_u64 z : in_u64 z -> reads (read_scalar 8) (le 8 z) z.
Proof. apply (reads_scalar 8). Qed.

Lemma reads_double x : canonical x -> reads read_double (double_bytes x) x.
Proof.
  intros H. eapply reads_last; [apply (reads_u64 (double_bits x)); by apply double_bits_range|].
  rewrite double_of_bits_bits by done. apply reads_ret.
Qed.

Lemma bytes_string_chars s : bytes_string (char_bytes s) = s.
Proof.
  unfold bytes_string, char_bytes. rewrite <- list_fmap_compose.
  rewrite <- (String.string_of_list_ascii_of_string s) at 2. f_equal.
  induction (String.list_ascii_of_string s) as [|c l IH]; [done|]. cbn. f_equal; [|done].
  by rewrite Nat2Z.id, Ascii.ascii_nat_embedding.
Qed.

Lemma append_string_spec s bytes : append_string s = Ok bytes ->
  Z.of_nat (length (char_bytes s)) <= maximum_string_size /\
  bytes = le 4 (Z.of_nat (length (char_bytes s))) ++ char_bytes s.
Proof. unfold append_string. case_if; [done|]. intros <-%(inj Ok). breflect. done. Qed.

Lemma reads_string s bytes : append_string s = Ok bytes -> reads read_string bytes s.
Proof.
  intros [Hs ->]%append_string_spec. unfold maximum_string_size in Hs. eapply reads_bind.
  { apply reads_scalar. change (256 ^ Z.of_nat 4) with (2 ^ 32). lia. }
  intros rest. unfold mbind, st_bind, Prelude.get. unfold maximum_string_size. rewrite length_app.
  rewrite (proj2 (Z.ltb_ge _ _)) by lia. rewrite (proj2 (Z.ltb_ge _ _)) by lia. cbn [orb].
  by rewrite Nat2Z.id, take_app_length, drop_app_length, bytes_string_chars.
Qed.

Lemma reads_many {A} (one : ST (list Z) A) (encode : A -> list Z) xs :
  Forall (fun x => reads one (encode x) x) xs -> reads (read_many one (length xs)) (concat (encode <$> xs)) xs.
Proof.
  induction 1 as [|x xs Hx Hxs IH]; [apply reads_ret|]. cbn [length read_many fmap list_fmap concat].
  eapply reads_bind; [exact Hx|]. by eapply reads_last.
Qed.

(** ** Snapshots and batches *)

Definition level_ok (l : MarketDataLevel) : Prop := canonical (ml_price l) /\ canonical (ml_quantity l).

Definition snapshot_ok (s : MarketDataSnapshot) : Prop :=
  in_u64 (ms_sequence s) /\ in_u64 (ms_timestamp_ns s) /\ Forall level_ok (ms_bids s) /\ Forall level_ok (ms_asks s).

Definition update_ok (u : MarketDataUpdate) : Prop :=
  in_u64 (mu_sequence u) /\ in_u64 (mu_timestamp_ns u) /\ canonical (mu_price u) /\ canonical (mu_quantity u).

Lemma reads_level l : level_ok l -> reads read_level (append_level l) l.
Proof.
  intros [H1 H2]. eapply reads_bind; [by apply reads_double|].
  eapply reads_last; [by apply reads_double|]. destruct l. apply reads_ret.
Qed.

Lemma reads_levels ls bytes : Forall level_ok ls -> append_levels ls = Ok bytes -> reads read_levels bytes ls.
Proof.
  intros Hl. unfold append_levels, read_levels. case_if; [done|]. intros <-%(inj Ok). breflect.
  pose proof E as E'. unfold maximum_level_count in E'. eapply reads_bind.
  { apply reads_scalar. change (256 ^ Z.of_nat 4) with (2 ^ 32). lia. }
  rewrite (proj2 (Z.ltb_ge _ _)) by lia. rewrite Nat2Z.id. apply reads_many.
  eapply Forall_impl; [exact Hl|]. apply reads_level.
Qed.

Lemma reads_side side : reads (side_of_value (side_code side)) [] side.
Proof. by destruct side. Qed.

Lemma reads_type type : reads (type_of_value (update_type_code type)) [] type.
Proof. by destruct type. Qed.

Lemma reads_update u bytes : update_ok u -> append_update u = Ok bytes -> reads read_update bytes u.
Proof.
  intros (H1 & H2 & H3 & H4). unfold append_update. destruct (append_string (mu_venue u)) as [venue|] eqn:V; [|done].
  cbn [mbind result_bind]. destruct (append_string (mu_symbol u)) as [symbol|] eqn:S; [|done].
  cbn [mbind result_bind]. intros <-%(inj Ok). unfold read_update.
  eapply reads_bind; [by apply reads_string|]. eapply reads_bind; [by apply reads_string|].
  eapply reads_bind; [by apply reads_u64|]. eapply reads_bind; [by apply reads_u64|].
  eapply reads_bind; [apply reads_scalar; by destruct (mu_side u)|].
  eapply reads_bind; [apply reads_scalar; by destruct (mu_type u)|].
  rewrite <- (app_nil_l (_ ++ _)). eapply reads_bind; [apply reads_side|].
  rewrite <- (app_nil_l (_ ++ _)). eapply reads_bind; [apply reads_type|].
  eapply reads_bind; [by apply reads_double|]. eapply reads_last; [by apply reads_double|].
  destruct u. apply reads_ret.
Qed.

Lemma reads_updates us : forall bytes, Forall update_ok us -> append_updates us = Ok bytes ->
  reads (read_many read_update (length us)) bytes us.
Proof.
  induction us as [|u us IH]; intros bytes Hu He.
  - apply (inj Ok) in He as <-. apply reads_ret.
  - apply Forall_cons in Hu as [Hu Hus]. cbn [append_updates] in He.
    destruct (append_update u) as [b|] eqn:E1; [|done]. cbn [mbind result_bind] in He.
    destruct (append_updates us) as [bs|] eqn:E2; [|done]. cbn [mbind result_bind] in He.
    apply (inj Ok) in He as <-. cbn [length read_many]. eapply reads_bind; [by apply reads_update|].
    eapply reads_last; [by apply IH|]. apply reads_ret.
Qed.

(** Reading to the end of the payload. *)
Lemma at_end_ok {A} message (x : A) : (_ ← at_end message; mret x) [] = (Ok x, []).
Proof. done. Qed.

Lemma reads_whole {A B} (p : ST (list Z) A) (k : A -> ST (list Z) B) bytes x y :
  reads p bytes x -> k x [] = (Ok y, []) -> (p ≫= k) bytes = (Ok y, []).
Proof. intros H1 H2. unfold mbind, st_bind. by rewrite <- (app_nil_r bytes), H1. Qed.

Lemma reads_then {A B} (p : ST (list Z) A) (k : A -> ST (list Z) B) a b x r :
  reads p a x -> k x b = r -> (p ≫= k) (a ++ b) = r.
Proof. intros H1 H2. unfold mbind, st_bind. by rewrite H1. Qed.

Lemma decodes {A} (p : ST (list Z) A) bytes x : p bytes = (Ok x, []) -> fst (p bytes) = Ok x.
Proof. by intros ->. Qed.

Lemma decode_snapshot_encode s bytes : snapshot_ok s -> encode_snapshot s = Ok bytes ->
  decode_snapshot bytes = Ok s.
Proof.
  intros (H1 & H2 & H3 & H4). unfold encode_snapshot.
  destruct (append_string (ms_venue s)) as [venue|] eqn:V; [|done]. cbn [mbind result_bind].
  destruct (append_string (ms_symbol s)) as [symbol|] eqn:S; [|done]. cbn [mbind result_bind].
  destruct (append_levels (ms_bids s)) as [bids|] eqn:B; [|done]. cbn [mbind result_bind].
  destruct (append_levels (ms_asks s)) as [asks|] eqn:A; [|done]. cbn [mbind result_bind].
  intros <-%(inj Ok). apply decodes. eapply reads_then; [by apply reads_string|].
  eapply reads_then; [by apply reads_string|]. eapply reads_then; [by apply reads_u64|].
  eapply reads_then; [by apply reads_u64|]. eapply reads_then; [by apply (reads_levels (ms_bids s))|].
  eapply reads_whole; [by apply (reads_levels (ms_asks s))|]. destruct s. apply at_end_ok.
Qed.

Lemma decode_batch_encode us bytes : Forall update_ok us -> encode_update_batch us = Ok bytes ->
  decode_update_batch bytes = Ok us.
Proof.
  intros Hu. unfold encode_update_batch, guard_or. destruct (bool_decide (us = [])) eqn:E; [done|].
  cbn [negb mbind result_bind]. destruct (maximum_level_count <? _) eqn:E0; [done|].
  cbn [negb mbind result_bind]. destruct (append_updates us) as [payload|] eqn:P; [|done].
  cbn [mbind result_bind]. intros <-%(inj Ok). breflect. pose proof E0 as E1. unfold maximum_level_count in E1.
  assert (length us <> 0%nat) by (by destruct us).
  apply decodes. eapply reads_then.
  { apply reads_scalar. change (256 ^ Z.of_nat 4) with (2 ^ 32). lia. }
  rewrite (proj2 (Z.eqb_neq _ _)) by lia. rewrite (proj2 (Z.ltb_ge _ _)) by lia. cbn [orb].
  rewrite Nat2Z.id. eapply reads_whole; [by apply reads_updates|]. apply at_end_ok.
Qed.

(** ** Records *)

Inductive Event := EventSnapshot (s : MarketDataSnapshot) | EventBatch (us : list MarketDataUpdate).

(** What is recorded: the event, the timestamp given and the clock. *)
Record Entry := { en_event : Event; en_timestamp : Z; en_now : Z }.

Definition write_entry (e : Entry) : ST MarketRecorder unit :=
  match en_event e with
  | EventSnapshot s => write_snapshot s (en_timestamp e) (en_now e)
  | EventBatch us => write_update_batch us (en_timestamp e) (en_now e)
  end.

Definition event_time (v : Event) : Z :=
  match v with EventSnapshot s => ms_timestamp_ns s | EventBatch us => default 0 (mu_timestamp_ns <$> head us) end.

Definition entry_time (e : Entry) : Z := recorded_at (en_timestamp e) (event_time (en_event e)) (en_now e).

Definition entry_type (e : Entry) : MarketRecordType :=
  match en_event e with EventSnapshot _ => RecordSnapshot | EventBatch _ => RecordUpdateBatch end.

Definition entry_payload (e : Entry) : result (list Z) :=
  match en_event e with EventSnapshot s => encode_snapshot s | EventBatch us => encode_update_batch us end.

(** The record that the reader has to return. *)
Definition entry_record (e : Entry) : MarketRecord := {|
  mr_type := entry_type e; mr_timestamp := entry_time e;
  mr_snapshot := match en_event e with EventSnapshot s => s | _ => empty_snapshot end;
  mr_updates := match en_event e with EventBatch us => us | _ => [] end |}.

(** The values are those of their C++ types. *)
Definition entry_ok (e : Entry) : Prop :=
  in_u64 (en_timestamp e) /\ in_u64 (en_now e) /\
  match en_event e with EventSnapshot s => snapshot_ok s | EventBatch us => Forall update_ok us end.

Definition record_bytes (e : Entry) : list Z :=
  match entry_payload e with
  | Ok p => record_header (entry_type e) (entry_time e) p ++ p
  | Throw _ => []
  end.

(** The recorder takes the entry. *)
Definition writable (e : Entry) : Prop :=
  exists p, entry_payload e = Ok p /\ Z.of_nat (length p) < 2 ^ 32.

Lemma entry_time_range e : entry_ok e -> in_u64 (entry_time e).
Proof.
  intros (H1 & H2 & H3). unfold entry_time, recorded_at. case_if; [|done]. case_if; [|done].
  unfold event_time. destruct (en_event e) as [s|[|u us]]; [apply H3|done|].
  apply Forall_cons in H3 as [H3 _]. apply H3.
Qed.

Lemma write_record_ok type t p w w' : write_record type t p w = (Ok tt, w') ->
  Z.of_nat (length p) < 2 ^ 32 /\ w' = wrote (record_header type t p ++ p) 1 w.
Proof. unfold write_record. case_if; [done|]. case_if; [done|]. intros [= <-]. breflect. split; [lia|done]. Qed.

Lemma lift_bind {S A B} (r : result A) (k : A -> ST S B) s b s' :
  (lift r ≫= k) s = (Ok b, s') -> exists a, r = Ok a /\ k a s = (Ok b, s').
Proof. unfold mbind, st_bind, lift. destruct r; [|done]. eauto. Qed.

Lemma write_entry_ok e w w' : write_entry e w = (Ok tt, w') ->
  writable e /\ w' = wrote (record_bytes e) 1 w.
Proof.
  unfold write_entry, writable, record_bytes, entry_payload, entry_time, entry_type.
  destruct (en_event e) as [s|[|u us]] eqn:E; [| done |]; intros (p & -> & [H ->]%write_record_ok)%lift_bind;
    (split; [by exists p|done]).
Qed.

(** ** Reading records *)

Lemma input_read_app n a r : length a = Z.to_nat n -> 0 <= n -> forall rest, rd_rest r = a ++ rest ->
  input_read n r = (Ok (Some a), rest_at rest r).
Proof.
  intros Ha Hn rest Hr. unfold input_read. rewrite Hr, length_app, (proj2 (Z.ltb_ge _ _)) by lia.
  by rewrite <- Ha, take_app_length, drop_app_length.
Qed.

Lemma input_read_short n r : Z.of_nat (length (rd_rest r)) < n -> input_read n r = (Ok None, rest_at [] r).
Proof. intros H. unfold input_read. by rewrite (proj2 (Z.ltb_lt _ _)). Qed.

Lemma read_or_app m n a r : length a = Z.to_nat n -> 0 <= n -> forall rest, rd_rest r = a ++ rest ->
  read_or m n r = (Ok a, rest_at rest r).
Proof. intros Ha Hn rest Hr. unfold read_or, mbind, st_bind. by rewrite (input_read_app n a) with (rest := rest). Qed.

Lemma read_or_short m n r : Z.of_nat (length (rd_rest r)) < n ->
  read_or m n r = (Throw (runtime_error m), rest_at [] r).
Proof. intros H. unfold read_or, mbind, st_bind. by rewrite input_read_short. Qed.

Lemma read_value_app n z r : 0 <= z < 256 ^ Z.of_nat n -> forall rest, rd_rest r = le n z ++ rest ->
  read_stream_value (Z.of_nat n) r = (Ok z, rest_at rest r).
Proof.
  intros Hz rest Hr. unfold read_stream_value, mbind, st_bind.
  rewrite (read_or_app _ _ (le n z)) with (rest := rest); [|by rewrite length_le, Nat2Z.id|lia|done].
  cbn. by rewrite of_le_le.
Qed.

Lemma read_value_short n r : Z.of_nat (length (rd_rest r)) < n ->
  read_stream_value n r = (Throw (runtime_error "truncated market-data recording"), rest_at [] r).
Proof. intros H. unfold read_stream_value, mbind, st_bind. by rewrite read_or_short. Qed.

Lemma rest_at_twice a b r : rest_at a (rest_at b r) = rest_at a r.
Proof. done. Qed.

Lemma decode_entry e p : entry_ok e -> entry_payload e = Ok p ->
  decode_record (record_type_code (entry_type e)) (entry_time e) p = Ok (entry_record e).
Proof.
  intros (_ & _ & He) Hp. unfold decode_record, entry_record, entry_payload, entry_type in *.
  destruct (en_event e) as [s|us]; cbn [record_type_code Z.eqb Pos.eqb].
  - by rewrite (decode_snapshot_encode s).
  - by rewrite (decode_batch_encode us).
Qed.

Lemma le_1 z : 0 <= z < 256 -> [z] = le 1 z.
Proof. intros H. cbn. by rewrite Z.mod_small. Qed.

(** Past the bytes of a header. *)
Lemma next_header e p r rest : entry_ok e -> Z.of_nat (length p) < 2 ^ 32 ->
  rd_rest r = record_header (entry_type e) (entry_time e) p ++ rest ->
  next r = (payload ← input_read (Z.of_nat (length p));
            match payload with
            | None => mret None
            | Some payload =>
                record ← lift (decode_record (record_type_code (entry_type e)) (entry_time e) payload);
                _ ← count_record;
                mret (Some record)
            end) (rest_at rest r).
Proof.
  intros He Hp Hr. pose proof (entry_time_range e He) as Ht. unfold next, mbind at 1, st_bind at 1, Prelude.get.
  rewrite Hr. unfold record_header. rewrite <- !app_assoc in *. cbn [le app] in *.
  unfold mbind at 1, st_bind at 1.
  rewrite (read_value_app 1 (record_type_code (entry_type e))) with (rest := [0; 0; 0] ++ le 8 (entry_time e) ++
    le 4 (Z.of_nat (length p)) ++ rest); [|by destruct (entry_type e)|done].
  unfold mbind at 1, st_bind at 1. rewrite (read_or_app _ 3 [0; 0; 0]) with (rest := le 8 (entry_time e) ++
    le 4 (Z.of_nat (length p)) ++ rest); [|done..].
  unfold mbind at 1, st_bind at 1. rewrite (read_value_app 8 (entry_time e)) with
    (rest := le 4 (Z.of_nat (length p)) ++ rest); [|done..].
  unfold mbind at 1, st_bind at 1. rewrite (read_value_app 4 (Z.of_nat (length p))) with (rest := rest);
    [by rewrite !rest_at_twice| |done].
  change (256 ^ Z.of_nat 4) with (2 ^ 32). lia.
Qed.

Lemma next_recorded e r rest : entry_ok e -> writable e -> rd_rest r = record_bytes e ++ rest ->
  next r = (Ok (Some (entry_record e)),
            {| rd_file := rd_file r; rd_rest := rest; records_read_ := u64 (records_read_ r + 1) |}).
Proof.
  intros He (p & Hp & Hl) Hr. unfold record_bytes in Hr. rewrite Hp, <- app_assoc in Hr.
  rewrite (next_header e p r (p ++ rest)) by done. unfold mbind at 1, st_bind at 1.
  rewrite (input_read_app _ p) with (rest := rest); [|by rewrite Nat2Z.id|lia|done].
  unfold mbind, st_bind, lift. by rewrite decode_entry.
Qed.

Lemma next_end r : rd_rest r = [] -> next r = (Ok None, r).
Proof. intros Hr. unfold next, mbind, st_bind, Prelude.get. by rewrite Hr. Qed.

Definition record_header_size : nat := 16.

Lemma length_record_header t time p : length (record_header t time p) = record_header_size.
Proof. unfold record_header. by rewrite !length_app, !length_le. Qed.

(** What the reader makes of the first [k] bytes of a record: the end of the
    recording when nothing or the header at least is there. *)
Definition cut_result (k : nat) : result (option MarketRecord) :=
  if bool_decide (k = 0%nat) || bool_decide (record_header_size <= k)%nat then Ok None
  else if bool_decide (k <= 3)%nat then Throw (runtime_error "truncated market-data record header")
  else Throw (runtime_error "truncated market-data recording").

Lemma next_short l file n : l <> [] -> (length l < record_header_size)%nat -> exists r,
  next {| rd_file := file; rd_rest := l; records_read_ := n |} = (cut_result (length l), r).
Proof.
  intros Hne Hl. do 16 (destruct l as [|? l]; [try done; eexists; reflexivity|]).
  unfold record_header_size in Hl. cbn [length] in Hl. lia.
Qed.

Lemma next_recorded_cut e (k : nat) r : entry_ok e -> writable e -> (k < length (record_bytes e))%nat ->
  rd_rest r = take k (record_bytes e) -> exists r', next r = (cut_result k, r').
Proof.
  intros He (p & Hp & Hl) Hk Hr. unfold record_bytes in *. rewrite Hp, length_app, length_record_header in *.
  destruct (decide (k < record_header_size)%nat) as [Hs|Hs].
  - destruct r as [file rest n]. cbn [rd_rest] in Hr. subst rest.
    set (bytes := record_header _ _ _ ++ p) in *.
    assert (length (take k bytes) = k) as Hlen.
    { rewrite length_take. unfold bytes. rewrite length_app, length_record_header. lia. }
    destruct k as [|k]; [by eexists|].
    destruct (next_short (take (S k) bytes) file n) as [r ->]; [|by rewrite Hlen|rewrite Hlen; eauto].
    intros Hn. by rewrite Hn in Hlen.
  - rewrite take_app, length_record_header, (take_ge (record_header _ _ _)) in Hr by (rewrite length_record_header; lia).
    rewrite (next_header e p r (take (k - record_header_size) p)) by done.
    unfold mbind, st_bind, cut_result.
    rewrite input_read_short by (cbn [rest_at rd_rest]; rewrite length_take; lia).
    rewrite orb_comm, bool_decide_eq_true_2 by lia. by eexists.
Qed.

(** ** Sessions *)

(** [while (reader.next(record))]: the records and how the loop ends. *)
Fixpoint read_all (fuel : nat) (r : MarketRecordReader) : list MarketRecord * result unit :=
  match fuel with
  | O => ([], Throw out_of_fuel)
  | S fuel =>
      match next r with
      | (Ok (Some record), r) => let (records, e) := read_all fuel r in (record :: records, e)
      | (Ok None, _) => ([], Ok tt)
      | (Throw e, _) => ([], Throw e)
      end
  end.

Definition session_bytes (es : list Entry) : list Z := concat (record_bytes <$> es).

(** The records of some entries, then what follows them. *)
Lemma read_all_app es : forall r fuel rest records e,
  Forall entry_ok es -> Forall writable es -> rd_rest r = session_bytes es ++ rest ->
  (forall r, rd_rest r = rest -> read_all fuel r = (records, e)) ->
  read_all (length es + fuel) r = ((entry_record <$> es) ++ records, e).
Proof.
  induction es as [|x es IH]; intros r fuel rest records e Ho Hw Hr Hrest.
  - by apply Hrest.
  - apply Forall_cons in Ho as [Hx Ho]. apply Forall_cons in Hw as [Wx Hw].
    unfold session_bytes in Hr. cbn [fmap list_fmap concat] in Hr. rewrite <- app_assoc in Hr.
    cbn [length Nat.add read_all]. rewrite (next_recorded x r (session_bytes es ++ rest)) by done.
    by rewrite (IH _ fuel rest records e).
Qed.

(** A session: the recorder is opened on the file and writes its entries. *)
Fixpoint write_entries (es : list Entry) : ST MarketRecorder unit :=
  match es with
  | [] => mret tt
  | e :: es => _ ← write_entry e; write_entries es
  end.

Definition session (path : string) (append : bool) (content : list Z) (es : list Entry) : result MarketRecorder :=
  w ← new_recorder path append (Some content);
  let (r, w) := write_entries es w in
  _ ← r; Ok w.

Lemma write_entries_ok es : forall w w', write_entries es w = (Ok tt, w') ->
  Forall writable es /\ rec_file w' = rec_file w ++ session_bytes es.
Proof.
  induction es as [|e es IH]; intros w w'; cbn [write_entries].
  - intros [= <-]. by rewrite app_nil_r.
  - unfold mbind, st_bind. destruct (write_entry e w) as [[[]|] w1] eqn:E; [|done].
    apply write_entry_ok in E as [He ->]. intros [Hes ->]%IH. split; [by constructor|].
    cbn [wrote rec_file]. unfold session_bytes. cbn [fmap list_fmap concat]. by rewrite <- app_assoc.
Qed.

(** The file after a session. *)
Lemma session_spec path app content es w : session path app content es = Ok w ->
  Forall writable es /\
  rec_file w = (match (if app then content else []) with [] => file_header | kept => kept end) ++ session_bytes es.
Proof.
  unfold session, new_recorder, guard_or. destruct (bool_decide (path = "")); [done|].
  cbn [negb mbind result_bind]. set (kept := if app then content else []).
  assert (forall w0, (let (r, w) := write_entries es w0 in _ ← r; Ok w) = Ok w ->
    Forall writable es /\ rec_file w = rec_file w0 ++ session_bytes es) as H.
  { intros w0. destruct (write_entries es w0) as [[[]|] w'] eqn:E; [|done].
    cbn [mbind result_bind]. intros <-%(inj Ok). by apply write_entries_ok in E. }
  destruct kept as [|b0 kept0]; cbn [write_file_header rec_good result_bind]; apply H.
Qed.

Lemma session_appends path x es w : session path true (file_header ++ x) es = Ok w ->
  Forall writable es /\ rec_file w = file_header ++ x ++ session_bytes es.
Proof. intros [H ->]%session_spec. by rewrite app_assoc. Qed.

Lemma session_bytes_one e : session_bytes [e] = record_bytes e.
Proof. unfold session_bytes. cbn [fmap list_fmap concat]. apply app_nil_r. Qed.

(** The file after some sessions: the first replaces what was there, the others
    append. *)
Inductive recorded (path : string) : list Entry -> list Z -> Prop :=
| recorded_first content es w : session path false content es = Ok w -> recorded path es (rec_file w)
| recorded_more all bytes es w : recorded path all bytes -> session path true bytes es = Ok w ->
    recorded path (all ++ es) (rec_file w).

Lemma session_bytes_app es es' : session_bytes (es ++ es') = session_bytes es ++ session_bytes es'.
Proof. unfold session_bytes. by rewrite fmap_app, concat_app. Qed.

Lemma recorded_bytes path es bytes : recorded path es bytes ->
  Forall writable es /\ bytes = file_header ++ session_bytes es.
Proof.
  induction 1 as [content es w [H ->]%session_spec|all bytes es w _ [H1 ->] [H2 ->]%session_spec].
  - split; [done|]. by destruct content.
  - split; [by apply Forall_app|]. by rewrite session_bytes_app, app_assoc.
Qed.

Lemma new_reader_header path rest : path <> ""%string -> new_reader path (Some (file_header ++ rest)) =
  Ok {| rd_file := file_header ++ rest; rd_rest := rest; records_read_ := 0 |}.
Proof.
  intros Hp. unfold new_reader, guard_or. rewrite bool_decide_eq_false_2 by done. cbn [negb mbind result_bind].
  unfold read_file_header, mbind at 1, st_bind at 1.
  rewrite (read_or_app _ 8 file_magic) with (rest := le 2 1 ++ le 2 0 ++ rest) by done.
  change (bool_decide (file_magic = file_magic)) with true. unfold mbind at 1, st_bind at 1. cbn [negb].
  rewrite (read_value_app 2 1) with (rest := le 2 0 ++ rest) by done. unfold mbind, st_bind.
  by rewrite (read_value_app 2 0) with (rest := rest) by done.
Qed.

Lemma new_reader_short path l : path <> ""%string -> (length l < length file_header)%nat ->
  exists e, new_reader path (Some l) = Throw e.
Proof.
  intros Hp Hl. unfold new_reader, guard_or. rewrite bool_decide_eq_false_2 by done. cbn [negb mbind result_bind].
  do 8 (destruct l as [|? l]; [by eexists|]).
  cbn in Hl. unfold read_file_header, mbind, st_bind.
  rewrite (read_or_app _ 8 [z; z0; z1; z2; z3; z4; z5; z6]) with (rest := l) by done.
  case_if; [by eexists|]. clear E. do 4 (destruct l as [|? l]; [by eexists|]). cbn in Hl. lia.
Qed.

Lemma recorded_path path es bytes : recorded path es bytes -> path <> ""%string.
Proof. induction 1 as [content es w H|]; [|done]. by intros ->. Qed.

(** How the loop over a recording ends that was cut after [k] bytes of a record. *)
Definition cut_end (k : nat) : result unit := _ ← cut_result k; Ok tt.

Lemma read_all_end fuel r : rd_rest r = [] -> read_all (S fuel) r = ([], Ok tt).
Proof. intros Hr. cbn [read_all]. by rewrite next_end. Qed.

(** C26: what is recorded is read back.  The records that any sessions on a file
    wrote come out in order and unchanged, with the timestamps that were recorded,
    and then the end.  When the file is cut at any byte of a further record, as a
    crash leaves it, the records before it still come out, and the cut one never:
    a cut in its payload reads as the end of the recording, a cut in its header as
    an error after the records.  A file that is cut in its own header is refused. *)
Theorem recording_reads_back path es bytes fuel :
  recorded path es bytes -> Forall entry_ok es -> (length es < fuel)%nat ->
  (exists r, new_reader path (Some bytes) = Ok r /\ read_all fuel r = (entry_record <$> es, Ok tt)) /\
  (forall e w k, entry_ok e -> session path true bytes [e] = Ok w ->
     (length bytes <= k < length (rec_file w))%nat ->
     exists r, new_reader path (Some (take k (rec_file w))) = Ok r /\
       read_all fuel r = (entry_record <$> es, cut_end (k - length bytes))) /\
  (forall k, (k < length file_header)%nat -> exists e, new_reader path (Some (take k bytes)) = Throw e).
Proof.
  intros Hr Ho Hf. pose proof (recorded_path path es bytes Hr) as Hp.
  assert (fuel = length es + S (fuel - S (length es)))%nat as -> by lia.
  generalize (fuel - S (length es))%nat. intros n. clear Hf.
  apply recorded_bytes in Hr as [Hw ->]. split; [|split].
  - rewrite new_reader_header by done. eexists. split; [done|]. rewrite <- (app_nil_r (_ <$> es)).
    apply read_all_app with (rest := []); [done|done|by rewrite app_nil_r|]. intros r. apply read_all_end.
  - intros e w k He [[We _]%Forall_cons ->]%session_appends Hk. rewrite app_assoc in *.
    rewrite session_bytes_one in *. set (bytes := file_header ++ session_bytes es) in *.
    rewrite length_app in Hk. rewrite take_app, take_ge by lia. set (cut := (k - length bytes)%nat).
    unfold bytes. rewrite <- app_assoc, new_reader_header by done.
    eexists. split; [done|]. rewrite <- (app_nil_r (_ <$> es)). eapply read_all_app; [done|done|done|].
    intros r Hr. destruct (next_recorded_cut e cut r) as [r' H]; [done|done|unfold cut; lia|done|].
    cbn [read_all]. rewrite H. unfold cut_end, cut_result. by repeat case_if.
  - intros k Hk. apply new_reader_short; [done|]. rewrite length_take. lia.
Qed.

(** ** Examples *)

Definition demo_snapshot : MarketDataSnapshot := {|
  ms_venue := "V"; ms_symbol := "BTC"; ms_sequence := 1; ms_timestamp_ns := 100;
  ms_bids := [{| ml_price := dbl 99; ml_quantity := dbl 2 |}];
  ms_asks := [{| ml_price := dbl 101; ml_quantity := dbl 3 |}] |}.

Definition demo_update (sequence time : Z) (price quantity : double) : MarketDataUpdate := {|
  mu_venue := "V"; mu_symbol := "BTC"; mu_sequence := sequence; mu_timestamp_ns := time; mu_side := Bid;
  mu_type := Upsert; mu_price := price; mu_quantity := quantity |}.

Definition demo_entries : list Entry := [
  {| en_event := EventSnapshot demo_snapshot; en_timestamp := 0; en_now := 7 |};
  {| en_event := EventBatch [demo_update 2 110 (dbl 98) (ddiv (dbl 1) (dbl 10))]; en_timestamp := 120; en_now := 7 |}].

Definition demo_last : Entry :=
  {| en_event := EventBatch [demo_update 3 130 (dbl 97) (dbl 5)]; en_timestamp := 0; en_now := 7 |}.

Definition file_of (path : string) (append : bool) (content : list Z) (es : list Entry) : list Z :=
  match session path append content es with Ok w => rec_file w | Throw _ => [] end.

Lemma demo_recorded : recorded "a" demo_entries (file_of "a" false [] demo_entries).
Proof. eapply (recorded_first _ []). vm_compute. reflexivity. Qed.

Lemma demo_level_ok p q : canonical (dbl p) -> canonical (dbl q) ->
  level_ok {| ml_price := dbl p; ml_quantity := dbl q |}.
Proof. done. Qed.

Ltac solve_canonical := vm_compute; split_and!; try discriminate; try done; by right.

Lemma demo_update_ok sequence time p q : in_u64 sequence -> in_u64 time -> canonical p -> canonical q ->
  update_ok (demo_update sequence time p q).
Proof. done. Qed.

Lemma demo_entries_ok : Forall entry_ok demo_entries.
Proof.
  apply Forall_cons; split; [|apply Forall_cons; split; [|done]]; split_and!; try done.
  - split_and!; try done; (apply Forall_cons; split; [|done]); apply demo_level_ok; solve_canonical.
  - apply Forall_cons; split; [|done]. apply demo_update_ok; [by split|by split|solve_canonical..].
Qed.

Lemma demo_last_ok : entry_ok demo_last.
Proof.
  split_and!; try done. apply Forall_cons; split; [|done]. apply demo_update_ok; [by split|by split|solve_canonical..].
Qed.

Lemma session_file path app content es w : session path app content es = Ok w ->
  rec_file w = file_of path app content es.
Proof. unfold file_of. by intros ->. Qed.

Lemma demo_session : exists w, session "a" true (file_of "a" false [] demo_entries) [demo_last] = Ok w.
Proof. eexists. vm_compute. reflexivity. Qed.

Lemma demo_lengths : length (file_of "a" false [] demo_entries) = 162%nat /\
  length (file_of "a" true (file_of "a" false [] demo_entries) [demo_last]) = 228%nat.
Proof. split; vm_compute; reflexivity. Qed.

Lemma recording_reads_back_witness : exists w r,
  new_reader "a" (Some (take 225 (rec_file w))) = Ok r /\
  read_all 3 r = (entry_record <$> demo_entries, cut_end 63).
Proof.
  destruct demo_session as [w E]. exists w. pose proof demo_lengths as [L1 L2].
  rewrite <- (session_file _ _ _ _ _ E) in L2. change 63%nat with (225 - 162)%nat. rewrite <- L1.
  eapply recording_reads_back; [apply demo_recorded|apply demo_entries_ok|simpl; lia|apply demo_last_ok|exact E|lia].
Defined.

(** A recorder that opens a recording whose last payload was cut appends behind the
    cut: the reader takes the new record for the rest of the payload, and what was
    recorded after the crash is lost. *)
Example append_after_crash :
  let bytes := file_of "a" false [] demo_entries in
  let file := file_of "a" true (take 140 bytes) [demo_last; demo_last] in
  exists r, new_reader "a" (Some file) = Ok r /\
    (read_all 5 r).1 <> entry_record <$> [demo_last; demo_last] /\
    length (read_all 5 r).1 = 1%nat /\ exists e, (read_all 5 r).2 = Throw e.
Proof. eexists. split; [vm_compute; reflexivity|]. split; [vm_compute; discriminate|]. split; [vm_compute; reflexivity|]. eexists. vm_compute. reflexivity. Qed.
