(* ===== verification/RecordingTypes.v ===== *)
(** * Reading any file

    Whatever bytes a file holds, the reader ends, and the records that it returns
    are what the file holds: written again they give the bytes that were read. *)

From S2P Require Import Prelude.
From S2P Require Import Bytes.
From S2P Require Import Float.
From S2P Require Import Rounding.
From S2P Require Import SortedMap.
From S2P Require Import MarketData.
From S2P Require Import Recording.
From S2P Require Import RecordingProps.

Lemma of_le_range bs : Forall is_byte bs -> 0 <= of_le bs < 256 ^ Z.of_nat (length bs).
Proof.
  induction 1 as [|b bs Hb Hbs IH]; [done|]. cbn [of_le length]. unfold is_byte in Hb.
  rewrite Nat2Z.inj_succ, Z.pow_succ_r by lia. lia.
Qed.

(** The bytes of a number are those it was read from. *)
Lemma le_of_le bs : Forall is_byte bs -> le (length bs) (of_le bs) = bs.
Proof.
  induction 1 as [|b bs Hb _ IH]; [done|]. cbn [length of_le le]. unfold is_byte in Hb.
  rewrite (Z.mul_comm 256), Z.div_add, (Z.div_small b), Z.add_0_l, IH by lia.
  by rewrite Z.add_mod, Z.mod_mul, Z.add_0_r, Z.mod_mod, Z.mod_small by lia.
Qed.

(** ** Equal bytes

    The bytes of a NaN count as equal: a NaN has many words and is written with one
    of them. *)
Inductive same_bytes : list Z -> list Z -> Prop :=
| same_nil : same_bytes [] []
| same_byte b s t : same_bytes s t -> same_bytes (b :: s) (b :: t)
| same_nan w s t : length w = 8%nat -> double_of_bits (of_le w) = S754_nan -> same_bytes s t ->
    same_bytes (w ++ s) (double_bytes S754_nan ++ t).

Lemma same_refl s : same_bytes s s.
Proof. induction s; by constructor. Qed.

Lemma same_app s t s' t' : same_bytes s t -> same_bytes s' t' -> same_bytes (s ++ s') (t ++ t').
Proof.
  intros H H'. induction H as [|b s t _ IH|w s t Hl Hw _ IH]; [done|by apply same_byte|].
  rewrite <- !app_assoc. by apply same_nan.
Qed.

Lemma same_length s t : same_bytes s t -> length s = length t.
Proof. induction 1 as [| |w s t Hl _ _ IH]; cbn [length]; rewrite ?length_app, ?length_double_bytes; congruence. Qed.

Lemma same_double w : Forall is_byte w -> length w = 8%nat -> same_bytes w (double_bytes (double_of_bits (of_le w))).
Proof.
  intros Hb Hl. pose proof (of_le_range w Hb) as Hr. rewrite Hl in Hr.
  destruct (decide (double_of_bits (of_le w) = S754_nan)) as [E|E].
  - rewrite E. rewrite <- (app_nil_r w), <- (app_nil_r (double_bytes _)). by apply same_nan; [| |constructor].
  - unfold double_bytes. rewrite double_bits_of_bits by done. rewrite <- Hl, le_of_le by done. apply same_refl.
Qed.

#[local] Hint Resolve same_refl same_app : mm.

(** ** Decoders *)

(** What a decoder takes from bytes is well typed, and encoding it gives the bytes
    that were taken; its exceptions are those of the code. *)
Record decodes_typed {A} (p : ST (list Z) A) (encode : A -> result (list Z)) (P : A -> Prop) : Prop := {
  dt_typed s x rest : Forall is_byte s -> p s = (Ok x, rest) ->
    P x /\ Forall is_byte rest /\ exists used b, s = used ++ rest /\ encode x = Ok b /\ same_bytes used b;
  dt_total s : (p s).1 <> Throw out_of_fuel
}.

Lemma bind_inv {S A B} (m : ST S A) (k : A -> ST S B) s y s' : (m ≫= k) s = (Ok y, s') ->
  exists x s1, m s = (Ok x, s1) /\ k x s1 = (Ok y, s').
Proof. unfold mbind, st_bind. destruct (m s) as [[x|e] s1]; [|done]. eauto. Qed.

Lemma bind_total {S A B} (m : ST S A) (k : A -> ST S B) : (forall s, (m s).1 <> Throw out_of_fuel) ->
  (forall x s, (k x s).1 <> Throw out_of_fuel) -> forall s, ((m ≫= k) s).1 <> Throw out_of_fuel.
Proof.
  intros Hm Hk s. unfold mbind, st_bind. specialize (Hm s). destruct (m s) as [[x|e] s1]; [apply Hk|].
  cbn in *. congruence.
Qed.

Lemma scalar_typed n : decodes_typed (read_scalar n) (fun z => Ok (le n z)) (fun z => 0 <= z < 256 ^ Z.of_nat n).
Proof.
  split; unfold read_scalar, read_bytes.
  - intros s x rest Hs. case_bool_decide as Hn; [|done]. intros [= <- <-].
    assert (Forall is_byte (take n s)) as HB by by apply Forall_take.
    assert (length (take n s) = n) as HL by (rewrite length_take; lia). split; [|split].
    + pose proof (of_le_range _ HB) as H. by rewrite HL in H.
    + by apply Forall_drop.
    + exists (take n s). eexists. split; [by rewrite take_drop|]. split; [done|].
      rewrite <- HL at 2. rewrite le_of_le by done. apply same_refl.
  - intros s. by case_bool_decide.
Qed.

Lemma double_typed : decodes_typed read_double (fun x => Ok (double_bytes x)) canonical.
Proof.
  split.
  - intros s x rest Hs (z & s1 & H1 & [= <- <-])%bind_inv. unfold read_scalar, read_bytes in H1.
    case_bool_decide as Hn; [|done]. injection H1 as <- <-.
    assert (Forall is_byte (take 8 s)) as HB by by apply Forall_take.
    assert (length (take 8 s) = 8%nat) as HL by (rewrite length_take; lia).
    pose proof (of_le_range _ HB) as H. rewrite HL in H.
    split_and!; [by apply double_of_bits_canonical|by apply Forall_drop|].
    exists (take 8 s). eexists. split; [by rewrite take_drop|]. split; [done|]. by apply same_double.
  - apply bind_total; [apply scalar_typed|]. done.
Qed.

Lemma char_bytes_string s : Forall is_byte s -> char_bytes (bytes_string s) = s.
Proof.
  intros H. unfold char_bytes, bytes_string. rewrite String.list_ascii_of_string_of_list_ascii, <- list_fmap_compose.
  rewrite <- (list_fmap_id s) at 2. apply list_fmap_ext. intros i b Hb. cbn.
  pose proof (Forall_lookup_1 _ _ _ _ H Hb) as Hr. unfold is_byte in Hr. rewrite Ascii.nat_ascii_embedding; lia.
Qed.

Lemma string_typed : decodes_typed read_string append_string (fun _ => True).
Proof.
  destruct (scalar_typed 4) as [T1 T2]. split.
  - intros s x rest Hs (size & s1 & H1 & (r & s2 & [= <- <-] & H2)%bind_inv)%bind_inv.
    destruct (T1 _ _ _ Hs H1) as (R1 & R2 & u & b & -> & <-%(inj Ok) & S1).
    destruct (_ || _) eqn:E; [done|]. breflect. injection H2 as <- <-. split_and!; [done|by apply Forall_drop|].
    unfold append_string. assert (length (take (Z.to_nat size) s1) = Z.to_nat size) as L by (rewrite length_take; lia).
    rewrite char_bytes_string, L, (proj2 (Z.ltb_ge _ _)) by (try lia; by apply Forall_take).
    exists (u ++ take (Z.to_nat size) s1). eexists. split; [by rewrite <- app_assoc, take_drop|]. split; [done|].
    rewrite Z2Nat.id by lia. auto with mm.
  - apply bind_total; [done|]. intros size. apply bind_total; [done|]. intros r s. by destruct (_ || _).
Qed.

Lemma level_typed : decodes_typed read_level (fun l => Ok (append_level l)) level_ok.
Proof.
  destruct double_typed as [T1 T2]. split.
  - intros s x rest Hs (p & s1 & H1 & (q & s2 & H2 & [= <- <-])%bind_inv)%bind_inv.
    destruct (T1 _ _ _ Hs H1) as (R1 & R2 & u & b & -> & <-%(inj Ok) & S1).
    destruct (T1 _ _ _ R2 H2) as (R4 & R5 & u' & b' & -> & <-%(inj Ok) & S2).
    split_and!; [done|done|]. exists (u ++ u'). eexists. split; [by rewrite <- app_assoc|]. split; [done|].
    unfold append_level. cbn [ml_price ml_quantity]. auto with mm.
  - apply bind_total; [done|]. intros p. apply bind_total; done.
Qed.

(** The loops. *)
Fixpoint encode_all {A} (encode : A -> result (list Z)) (xs : list A) : result (list Z) :=
  match xs with
  | [] => Ok []
  | x :: xs => b ← encode x; bs ← encode_all encode xs; Ok (b ++ bs)
  end.

Lemma many_typed {A} (one : ST (list Z) A) encode P count : decodes_typed one encode P ->
  decodes_typed (read_many one count) (encode_all encode) (fun xs => Forall P xs /\ length xs = count).
Proof.
  intros [T1 T2]. induction count as [|count [I1 I2]]; cbn [read_many]; split.
  - intros s x rest Hs [= <- <-]. split_and!; try done. exists [], []. split_and!; [done..|constructor].
  - done.
  - intros s x rest Hs (y & s1 & H1 & (ys & s2 & H2 & [= <- <-])%bind_inv)%bind_inv.
    destruct (T1 _ _ _ Hs H1) as (R1 & R2 & u & b & -> & E1 & S1).
    destruct (I1 _ _ _ R2 H2) as ([R4 R5] & R6 & us & bs & -> & E2 & S2).
    split_and!; [by constructor|cbn; lia|done|]. exists (u ++ us), (b ++ bs). cbn [encode_all]. rewrite E1.
    cbn [mbind result_bind]. rewrite E2. split_and!; [by rewrite <- app_assoc|done|auto with mm].
  - apply bind_total; [done|]. intros x. apply bind_total; done.
Qed.

Lemma encode_levels ls : encode_all (fun l => Ok (append_level l)) ls = Ok (concat (append_level <$> ls)).
Proof. induction ls as [|l ls IH]; [done|]. cbn [encode_all mbind result_bind]. by rewrite IH. Qed.

Lemma encode_updates us : encode_all append_update us = append_updates us.
Proof. induction us as [|u us IH]; [done|]. cbn [encode_all append_updates]. by rewrite IH. Qed.

Lemma levels_typed : decodes_typed read_levels append_levels (Forall level_ok).
Proof.
  destruct (scalar_typed 4) as [T1 T2]. split.
  - intros s x rest Hs (count & s1 & H1 & H2)%bind_inv.
    destruct (T1 _ _ _ Hs H1) as (R1 & R2 & u & b & -> & <-%(inj Ok) & S1). case_if_in H2; [done|]. breflect.
    destruct (dt_typed _ _ _ (many_typed _ _ _ (Z.to_nat count) level_typed) _ _ _ R2 H2)
      as ([R4 R5] & R6 & us & bs & -> & E1 & S2).
    rewrite encode_levels in E1. apply (inj Ok) in E1 as <-. split_and!; [done|done|].
    unfold append_levels. rewrite R5, Z2Nat.id, (proj2 (Z.ltb_ge _ _)) by lia.
    exists (u ++ us). eexists. split; [by rewrite <- app_assoc|]. split; [done|auto with mm].
  - apply bind_total; [done|]. intros count s. case_if; [done|]. apply (dt_total _ _ _ (many_typed _ _ _ _ level_typed)).
Qed.

(** ** Updates, snapshots and batches *)

Lemma side_value_inv z s side s' : 0 <= z -> side_of_value z s = (Ok side, s') -> s' = s /\ z = side_code side.
Proof. intros Hz. unfold side_of_value. case_if; [done|]. breflect. intros [= <- <-]. split; [done|]. case_if; breflect; cbn; lia. Qed.

Lemma type_value_inv z s type s' : 0 <= z -> type_of_value z s = (Ok type, s') -> s' = s /\ z = update_type_code type.
Proof.
  intros Hz. unfold type_of_value. case_if; [done|]. breflect. intros [= <- <-]. split; [done|].
  repeat (case_if; breflect); cbn; lia.
Qed.

Lemma side_value_total z s : (side_of_value z s).1 <> Throw out_of_fuel.
Proof. unfold side_of_value. by case_if. Qed.

Lemma type_value_total z s : (type_of_value z s).1 <> Throw out_of_fuel.
Proof. unfold type_of_value. by case_if. Qed.

(** Apply what is known of a decoder that has run. *)
Ltac ran T H :=
  let R1 := fresh "R" in let R2 := fresh "R" in let u := fresh "u" in let b := fresh "b" in let Eu := fresh "Eu" in
  let E := fresh "E" in let S := fresh "S" in
  destruct (dt_typed _ _ _ T _ _ _ ltac:(eassumption) H) as (R1 & R2 & u & b & Eu & E & S); clear H; try apply (inj Ok) in E as <-.

Lemma update_typed : decodes_typed read_update append_update update_ok.
Proof.
  split.
  - intros s x rest Hs (venue & s1 & H1 & (symbol & s2 & H2 & (seq & s3 & H3 & (time & s4 & H4 &
      (sv & s5 & H5 & (tv & s6 & H6 & (side & s7 & H7 & (type & s8 & H8 & (p & s9 & H9 & (q & s10 & H10 &
      [= <- <-])%bind_inv)%bind_inv)%bind_inv)%bind_inv)%bind_inv)%bind_inv)%bind_inv)%bind_inv)%bind_inv)%bind_inv.
    ran string_typed H1. ran string_typed H2. ran (scalar_typed 8) H3. ran (scalar_typed 8) H4.
    ran (scalar_typed 1) H5. ran (scalar_typed 1) H6.
    apply side_value_inv in H7 as [-> ->]; [|lia]. apply type_value_inv in H8 as [-> ->]; [|lia].
    ran double_typed H9. ran double_typed H10.
    split; [|split; [done|]]; [done|]. unfold append_update. cbn [mu_venue mu_symbol mu_sequence mu_timestamp_ns mu_side mu_type mu_price mu_quantity].
    rewrite E, E0. cbn [mbind result_bind]. subst. rewrite !app_assoc. do 2 eexists. split; [reflexivity|]. split; [done|].
    rewrite <- !app_assoc. auto 20 with mm.
  - apply bind_total; [apply string_typed|]. intros ?. apply bind_total; [apply string_typed|]. intros ?.
    apply bind_total; [apply scalar_typed|]. intros ?. apply bind_total; [apply scalar_typed|]. intros ?.
    apply bind_total; [apply scalar_typed|]. intros ?. apply bind_total; [apply scalar_typed|]. intros ?.
    apply bind_total; [apply side_value_total|]. intros ?. apply bind_total; [apply type_value_total|]. intros ?.
    apply bind_total; [apply double_typed|]. intros ?. by apply bind_total; [apply double_typed|].
Qed.

Lemma decode_snapshot_typed payload s : Forall is_byte payload -> decode_snapshot payload = Ok s ->
  snapshot_ok s /\ exists b, encode_snapshot s = Ok b /\ same_bytes payload b.
Proof.
  intros Hp Hd. unfold decode_snapshot in Hd. set (m := mbind _ _) in Hd. destruct (m payload) as [r rest] eqn:H.
  cbn [fst] in Hd. subst r m.
  apply bind_inv in H as (venue & s1 & H1 & (symbol & s2 & H2 & (seq & s3 & H3 & (time & s4 & H4 &
    (bids & s5 & H5 & (asks & s6 & H6 & (u & s7 & H7 & Hs)%bind_inv)%bind_inv)%bind_inv)%bind_inv)%bind_inv)%bind_inv).
  unfold at_end, guard_or in H7. case_bool_decide; [|done]. injection H7 as <- <-. apply (f_equal fst) in Hs.
  cbn in Hs. apply (inj Ok) in Hs as <-. subst s6.
  ran string_typed H1. ran string_typed H2. ran (scalar_typed 8) H3. ran (scalar_typed 8) H4.
  ran levels_typed H5. ran levels_typed H6.
  split; [done|]. unfold encode_snapshot. cbn [ms_venue ms_symbol ms_sequence ms_timestamp_ns ms_bids ms_asks].
  rewrite E, E0, E1, E2. cbn [mbind result_bind]. eexists. split; [done|]. subst. rewrite app_nil_r. auto 20 with mm.
Qed.

Lemma decode_batch_typed payload us : Forall is_byte payload -> decode_update_batch payload = Ok us ->
  Forall update_ok us /\ exists b, encode_update_batch us = Ok b /\ same_bytes payload b.
Proof.
  intros Hp Hd. unfold decode_update_batch in Hd. set (m := mbind _ _) in Hd. destruct (m payload) as [r rest] eqn:H.
  cbn [fst] in Hd. subst r m. apply bind_inv in H as (count & s1 & H1 & H). ran (scalar_typed 4) H1.
  destruct (_ || _) eqn:C; [done|]. breflect.
  apply bind_inv in H as (xs & s2 & H2 & (u' & s3 & H3 & Hs)%bind_inv).
  unfold at_end, guard_or in H3. case_bool_decide; [|done]. injection H3 as <- <-. apply (f_equal fst) in Hs.
  cbn in Hs. apply (inj Ok) in Hs as ->. subst s2.
  ran (many_typed _ _ _ (Z.to_nat count) update_typed) H2. destruct R1 as [R1 R5].
  rewrite encode_updates in E.
  split; [done|]. unfold encode_update_batch, guard_or. rewrite bool_decide_eq_false_2 by (intros ->; cbn in R5; lia).
  cbn [negb mbind result_bind]. rewrite R5, Z2Nat.id, (proj2 (Z.ltb_ge _ _)) by lia. cbn [negb mbind result_bind]. rewrite E.
  cbn [mbind result_bind]. eexists. split; [done|]. subst. rewrite app_nil_r. auto with mm.
Qed.

Lemma decode_snapshot_total payload : decode_snapshot payload <> Throw out_of_fuel.
Proof.
  unfold decode_snapshot.
  apply bind_total; [apply string_typed|]. intros ?. apply bind_total; [apply string_typed|]. intros ?.
  apply bind_total; [apply scalar_typed|]. intros ?. apply bind_total; [apply scalar_typed|]. intros ?.
  apply bind_total; [apply levels_typed|]. intros ?. apply bind_total; [apply levels_typed|]. intros ?.
  apply bind_total; [|done]. intros s. unfold at_end, guard_or. cbn. by case_if.
Qed.

Lemma decode_batch_total payload : decode_update_batch payload <> Throw out_of_fuel.
Proof.
  unfold decode_update_batch. apply bind_total; [apply scalar_typed|]. intros count s.
  destruct (_ || _); [done|]. revert s. apply bind_total; [apply (many_typed _ _ _ _ update_typed)|]. intros us.
  apply bind_total; [|done]. intros s. unfold at_end, guard_or. cbn. by case_if.
Qed.

(** ** The reader *)

(** The payload that the recorder writes for a record. *)
Definition record_payload (x : MarketRecord) : result (list Z) :=
  match mr_type x with
  | RecordSnapshot => encode_snapshot (mr_snapshot x)
  | RecordUpdateBatch => encode_update_batch (mr_updates x)
  end.

(** The integers of a record are in range, its doubles are doubles, and only the part
    of its type is set. *)
Definition record_typed (x : MarketRecord) : Prop :=
  in_u64 (mr_timestamp x) /\
  match mr_type x with
  | RecordSnapshot => mr_updates x = [] /\ snapshot_ok (mr_snapshot x)
  | RecordUpdateBatch => mr_snapshot x = empty_snapshot /\ Forall update_ok (mr_updates x)
  end.

(** The bytes of a file that hold a record: the header, with three reserved bytes,
    and the payload, which is what the recorder writes for the record. *)
Definition holds_record (x : MarketRecord) (chunk : list Z) : Prop :=
  exists reserved payload b, length reserved = 3%nat /\
    chunk = le 1 (record_type_code (mr_type x)) ++ reserved ++ le 8 (mr_timestamp x) ++
            le 4 (Z.of_nat (length payload)) ++ payload /\
    record_payload x = Ok b /\ same_bytes payload b.

(** What is left when a recording ends: nothing, or a header with too short a payload. *)
Definition unfinished (rest : list Z) : Prop :=
  rest = [] \/ exists header payload, rest = header ++ payload /\ length header = 16%nat /\
    Z.of_nat (length payload) < of_le (drop 12 header).

Lemma input_read_inv n r a r' : 0 <= n -> input_read n r = (Ok (Some a), r') ->
  rd_rest r = a ++ rd_rest r' /\ Z.of_nat (length a) = n.
Proof.
  unfold input_read. case_if; [done|]. breflect. intros Hn [= <- <-]. cbn. rewrite take_drop, length_take. split; [done|lia].
Qed.

Lemma read_or_inv m n r a r' : 0 <= n -> read_or m n r = (Ok a, r') ->
  rd_rest r = a ++ rd_rest r' /\ Z.of_nat (length a) = n.
Proof.
  intros Hn (x & r1 & H1 & H2)%bind_inv. destruct x as [x|]; [|done]. injection H2 as <- <-. by apply input_read_inv.
Qed.

Lemma read_value_inv n r z r' : 0 <= n -> read_stream_value n r = (Ok z, r') -> Forall is_byte (rd_rest r) ->
  0 <= z < 256 ^ n /\ Forall is_byte (rd_rest r') /\ rd_rest r = le (Z.to_nat n) z ++ rd_rest r'.
Proof.
  intros Hn (a & r1 & H1 & [= <- <-])%bind_inv Hb. apply read_or_inv in H1 as [H1 H2]; [|done].
  rewrite H1, Forall_app in *. destruct Hb as [B1 B2]. pose proof (of_le_range a B1) as H. rewrite H2 in H.
  split; [done|]. split; [done|]. f_equal. replace (Z.to_nat n) with (length a) by lia. by rewrite le_of_le.
Qed.

Lemma decode_record_typed type time payload x : in_u64 time -> Forall is_byte payload ->
  decode_record type time payload = Ok x ->
  record_typed x /\ mr_timestamp x = time /\ type = record_type_code (mr_type x) /\
  exists b, record_payload x = Ok b /\ same_bytes payload b.
Proof.
  intros Ht Hp. unfold decode_record. case_if; [|case_if; [|done]]; breflect.
  - destruct (decode_snapshot payload) as [s|] eqn:D; [|done]. intros <-%(inj Ok).
    by apply decode_snapshot_typed in D as (D1 & D2).
  - destruct (decode_update_batch payload) as [us|] eqn:D; [|done]. intros <-%(inj Ok).
    by apply decode_batch_typed in D as (D1 & D2).
Qed.

(** One call of [next]. *)
Lemma next_typed r o r' : Forall is_byte (rd_rest r) -> next r = (Ok o, r') ->
  match o with
  | Some x => record_typed x /\ Forall is_byte (rd_rest r') /\
      exists chunk, rd_rest r = chunk ++ rd_rest r' /\ holds_record x chunk
  | None => unfinished (rd_rest r)
  end.
Proof.
  intros Hb (r0 & r1 & [= <- <-] & H)%bind_inv. destruct (rd_rest r) as [|b rest] eqn:E.
  { injection H as <- <-. by left. }
  rewrite <- E in *. clear b rest E.
  apply bind_inv in H as (type & r1 & H1 & (res & r2 & H2 & (time & r3 & H3 & (size & r4 & H4 & (p & r5 & H5 & H)%bind_inv)%bind_inv)%bind_inv)%bind_inv).
  apply read_value_inv in H1 as (_ & B1 & E1); [|done..]. apply read_or_inv in H2 as [E2 L2]; [|done].
  rewrite E2, Forall_app in B1. destruct B1 as [_ B2].
  apply read_value_inv in H3 as (Ht & B3 & E3); [|done..]. apply read_value_inv in H4 as (Hs & B4 & E4); [|done..].
  assert (rd_rest r = (le 1 type ++ res ++ le 8 time ++ le 4 size) ++ rd_rest r4) as ER
    by (rewrite E1, E2, E3, E4, <- !app_assoc; done).
  destruct p as [p|].
  - apply input_read_inv in H5 as [E5 L5]; [|lia]. rewrite E5, Forall_app in B4. destruct B4 as [B4 B5].
    apply bind_inv in H as (y & r6 & H6 & H). unfold lift in H6. injection H6 as H6 <-. cbn in H. injection H as <- <-.
    destruct (decode_record_typed type time p y Ht B4 H6) as (T & ET & EC & b & E6 & S). split; [done|]. split; [done|].
    exists (le 1 type ++ res ++ le 8 time ++ le 4 size ++ p). split; [by rewrite ER, E5, <- !app_assoc|].
    exists res, p, b. rewrite L5, <- ET, <- EC. split_and!; [lia|done..].
  - injection H as <- <-. right. exists (le 1 type ++ res ++ le 8 time ++ le 4 size), (rd_rest r4). split; [done|].
    rewrite !length_app, !length_le. split; [lia|]. unfold input_read in H5. case_if_in H5; [|done]. breflect.
    rewrite !app_assoc, drop_app_length' by (rewrite !length_app, !length_le; lia). rewrite of_le_le by exact Hs. lia.
Qed.

Lemma input_read_total n r : (input_read n r).1 <> Throw out_of_fuel.
Proof. unfold input_read. by case_if. Qed.

Lemma read_or_total m n r : (read_or m n r).1 <> Throw out_of_fuel.
Proof. revert r. apply bind_total; [apply input_read_total|]. by intros [a|]. Qed.

Lemma read_value_total n r : (read_stream_value n r).1 <> Throw out_of_fuel.
Proof. revert r. apply bind_total; [apply read_or_total|done]. Qed.

Lemma decode_record_total type time payload : decode_record type time payload <> Throw out_of_fuel.
Proof.
  unfold decode_record. pose proof (decode_snapshot_total payload) as H1. pose proof (decode_batch_total payload) as H2.
  case_if; [destruct (decode_snapshot payload)|case_if; [destruct (decode_update_batch payload)|done]]; cbn; congruence.
Qed.

Lemma next_total r : (next r).1 <> Throw out_of_fuel.
Proof.
  revert r. apply bind_total; [done|]. intros r0 r. destruct (rd_rest r0); [done|]. revert r.
  apply bind_total; [apply read_value_total|]. intros ?. apply bind_total; [apply read_or_total|]. intros ?.
  apply bind_total; [apply read_value_total|]. intros ?. apply bind_total; [apply read_value_total|]. intros ?.
  apply bind_total; [apply input_read_total|]. intros [p|] r; [|done]. revert r.
  apply bind_total; [|done]. intros r. apply decode_record_total.
Qed.

Lemma holds_record_length x chunk : holds_record x chunk -> (16 <= length chunk)%nat.
Proof. intros (res & p & b & Hl & -> & _). rewrite !length_app, !length_le. lia. Qed.

Lemma read_all_typed fuel : forall r, Forall is_byte (rd_rest r) ->
  let (records, outcome) := read_all fuel r in
  Forall record_typed records /\ ((length (rd_rest r) < fuel)%nat -> outcome <> Throw out_of_fuel) /\
  exists chunks rest, rd_rest r = concat chunks ++ rest /\ Forall2 holds_record records chunks /\
    (outcome = Ok tt -> unfinished rest).
Proof.
  induction fuel as [|fuel IH]; intros r Hb; cbn [read_all].
  { split; [constructor|]. split; [lia|]. by exists [], (rd_rest r). }
  pose proof (next_total r) as Ht. destruct (next r) as [[[x|]|e] r'] eqn:E; cbn in Ht.
  - destruct (next_typed r _ r' Hb E) as (H1 & H2 & chunk & H3 & H4). specialize (IH r' H2).
    destruct (read_all fuel r') as [xs z]. destruct IH as (I1 & I2 & chunks & rest & I3 & I4 & I5).
    pose proof (holds_record_length _ _ H4). split; [by constructor|]. split.
    { intros Hf. apply I2. rewrite H3, length_app in Hf. lia. }
    exists (chunk :: chunks), rest. cbn [concat]. rewrite H3, I3, <- app_assoc. split_and!; [done|by constructor|done].
  - pose proof (next_typed r _ r' Hb E) as H. split; [constructor|]. split; [done|]. by exists [], (rd_rest r).
  - split; [constructor|]. split; [congruence|]. by exists [], (rd_rest r).
Qed.

Lemma opened_header path bytes r : new_reader path (Some bytes) = Ok r -> Forall is_byte bytes ->
  exists flags, bytes = file_magic ++ le 2 file_version ++ flags ++ rd_rest r /\ length flags = 2%nat.
Proof.
  unfold new_reader, guard_or. destruct (bool_decide (path = "")); [done|]. cbn [negb mbind result_bind].
  set (r0 := {| rd_file := bytes |}). intros H Hb. change bytes with (rd_rest r0) in Hb |- * .
  destruct (read_file_header r0) as [[u|] r1] eqn:E; [|done]. apply (inj Ok) in H as <-.
  apply bind_inv in E as (magic & r2 & H1 & E). apply read_or_inv in H1 as [E1 _]; [|done].
  case_if_in E; [done|]. breflect. subst magic. rewrite E1, Forall_app in Hb. destruct Hb as [_ Hb].
  apply bind_inv in E as (v & r3 & H2 & E). apply read_value_inv in H2 as (_ & B2 & E2); [|done..].
  apply bind_inv in E as (w & r4 & H3 & E). apply read_value_inv in H3 as (_ & B3 & E3); [|done..].
  case_if_in E; [done|]. breflect. subst v. injection E as _ <-. exists (le 2 w). rewrite length_le. split; [|done].
  rewrite E1, E2, E3. done.
Qed.

(** C27: the reader returns what the file holds.  Whatever bytes a file holds, if
    the reader opens it, the file is the header of the format, the records that
    the reader returns, in order, and a rest; each record, well typed, stands for the
    bytes in its place: its type, its timestamp, and a payload that is what the
    recorder writes for it, up to the words that a NaN can have.  So a side, an update type, a
    length or a count that the format does not allow is never returned as something
    else.  The loop over the records always ends, and when it ends without an exception the
    rest is empty or a header with too short a payload. *)
Theorem returned_records_are_held path bytes r fuel : Forall is_byte bytes ->
  new_reader path (Some bytes) = Ok r -> (length bytes < fuel)%nat ->
  let (records, outcome) := read_all fuel r in
  outcome <> Throw out_of_fuel /\ Forall record_typed records /\
  exists flags chunks rest, length flags = 2%nat /\
    bytes = file_magic ++ le 2 file_version ++ flags ++ concat chunks ++ rest /\
    Forall2 holds_record records chunks /\ (outcome = Ok tt -> unfinished rest).
Proof.
  intros Hb Hr Hf. destruct (opened_header path bytes r Hr Hb) as (flags & E & HL).
  assert (Forall is_byte (rd_rest r)) as HB by (rewrite E, !Forall_app in Hb; apply Hb).
  pose proof (read_all_typed fuel r HB) as H. destruct (read_all fuel r) as [records outcome].
  destruct H as (H1 & H2 & chunks & rest & H3 & H4 & H5). rewrite H3 in E.
  split; [|split; [done|by exists flags, chunks, rest]].
  apply H2. rewrite H3, length_app. rewrite E, !length_app in Hf. lia.
Qed.

(** ** Example *)

Definition demo_update : MarketDataUpdate := {|
  mu_venue := "V"; mu_symbol := "S"; mu_sequence := 5; mu_timestamp_ns := 6; mu_side := Ask; mu_type := Upsert;
  mu_price := dbl 101; mu_quantity := S754_nan |}.

(** The payload of a batch with one update whose quantity is a NaN of another word,
    with a given byte for the side. *)
Definition demo_payload (side : Z) : list Z :=
  le 4 1 ++ le 4 1 ++ char_bytes "V" ++ le 4 1 ++ char_bytes "S" ++ le 8 5 ++ le 8 6 ++ [side; 1] ++
  double_bytes (dbl 101) ++ le 8 (2 ^ 64 - 1).

Definition demo_record (side : Z) : list Z := record_header RecordUpdateBatch 9 (demo_payload side) ++ demo_payload side.

(** A file with a good record, one whose side is 2, and a good one behind it. *)
Definition foreign_file : list Z := file_header ++ demo_record 1 ++ demo_record 2 ++ demo_record 1.

Definition demo_records : list MarketRecord := [
  {| mr_type := RecordUpdateBatch; mr_timestamp := 9; mr_snapshot := empty_snapshot; mr_updates := [demo_update] |}].

Lemma returned_records_are_held_witness : exists r, new_reader "a" (Some foreign_file) = Ok r /\
  read_all 400 r = (demo_records, Throw (runtime_error "invalid market-data side")) /\
  exists flags chunks rest, foreign_file = file_magic ++ le 2 file_version ++ flags ++ concat chunks ++ rest /\
    Forall2 holds_record demo_records chunks.
Proof.
  exists {| rd_file := foreign_file; rd_rest := demo_record 1 ++ demo_record 2 ++ demo_record 1; records_read_ := 0 |}.
  set (r := {| rd_file := _ |}).
  assert (new_reader "a" (Some foreign_file) = Ok r) as E by (vm_compute; reflexivity).
  assert (Forall is_byte foreign_file) as HB.
  { apply Forall_forall. intros b Hb. assert (forallb (fun b => (0 <=? b) && (b <? 256)) foreign_file = true) as H by (vm_compute; reflexivity).
    rewrite forallb_forall in H. apply list_elem_of_In in Hb. specialize (H b Hb). clear -H. breflect. unfold is_byte. lia. }
  pose proof (returned_records_are_held "a" foreign_file r 400 HB E ltac:(vm_compute; lia)) as H.
  assert (read_all 400 r = (demo_records, Throw (runtime_error "invalid market-data side"))) as ER by (vm_compute; reflexivity).
  rewrite ER in H. split; [exact E|]. split; [exact ER|].
  destruct H as (_ & _ & flags & chunks & rest & _ & EB & HF & _). exists flags, chunks, rest. split; [exact EB|exact HF].
Defined.
