(* ===== verification/RecordingReplay.v ===== *)
(** * Replaying a recording ([market_recorder.cpp], [apps/market_replay_ws.cpp])

    [replay_market_records] reads record after record and applies it to the market;
    [market_state_checksum] condenses the books of a symbol.  Replaying a recording
    applies the recorded events in order, those in the window of the options, as the
    live session did. *)

From S2P Require Import Prelude.
From S2P Require Import SortedMap.
From S2P Require Import Bytes.
From S2P Require Import Float.
From S2P Require Import MarketData.
From S2P Require Import RouteFeed.
From S2P Require Import Rounding.
From S2P Require Import Recording.
From S2P Require Import RecordingProps.

Record MarketReplayOptions := {
  op_speed : double; op_start : option Z; op_end : option Z; op_maximum : Z
}.

Definition default_options : MarketReplayOptions := {|
  op_speed := dzero; op_start := None; op_end := None; op_maximum := 0 |}.

Record MarketReplayResult := {
  rr_read : Z; rr_applied : Z; rr_snapshots : Z; rr_batches : Z; rr_rejected : Z;
  rr_first : Z; rr_last : Z; rr_elapsed : Z; rr_per_second : double
}.

Definition no_result : MarketReplayResult := {|
  rr_read := 0; rr_applied := 0; rr_snapshots := 0; rr_batches := 0; rr_rejected := 0;
  rr_first := 0; rr_last := 0; rr_elapsed := 0; rr_per_second := dzero |}.

(** The variables of the loop, and the pauses it made. *)
Record Replay := {
  rp_reader : MarketRecordReader; rp_market : ConsolidatedMarketData; rp_result : MarketReplayResult;
  rp_previous : Z; rp_pauses : list Z
}.

Definition on_reader {A} (m : ST MarketRecordReader A) : ST Replay A := fun p =>
  let (r, reader) := m (rp_reader p) in
  (r, {| rp_reader := reader; rp_market := rp_market p; rp_result := rp_result p;
         rp_previous := rp_previous p; rp_pauses := rp_pauses p |}).

Definition on_market {A} (m : ST ConsolidatedMarketData A) : ST Replay A := fun p =>
  let (r, market) := m (rp_market p) in
  (r, {| rp_reader := rp_reader p; rp_market := market; rp_result := rp_result p;
         rp_previous := rp_previous p; rp_pauses := rp_pauses p |}).

Definition on_result (f : MarketReplayResult -> MarketReplayResult) : ST Replay unit := modify (fun p => {|
  rp_reader := rp_reader p; rp_market := rp_market p; rp_result := f (rp_result p);
  rp_previous := rp_previous p; rp_pauses := rp_pauses p |}).

Definition count_read (r : MarketReplayResult) : MarketReplayResult := {|
  rr_read := u64 (rr_read r + 1); rr_applied := rr_applied r; rr_snapshots := rr_snapshots r;
  rr_batches := rr_batches r; rr_rejected := rr_rejected r; rr_first := rr_first r;
  rr_last := rr_last r; rr_elapsed := rr_elapsed r; rr_per_second := rr_per_second r |}.

(** The counters after a record was applied or rejected. *)
Definition count_decision (accepted : bool) (record : MarketRecord) (r : MarketReplayResult)
    : MarketReplayResult :=
  let one (t : MarketRecordType) := if accepted && bool_decide (mr_type record = t) then 1 else 0 in {|
  rr_read := rr_read r;
  rr_applied := u64 (rr_applied r + if accepted then 1 else 0);
  rr_snapshots := u64 (rr_snapshots r + one RecordSnapshot);
  rr_batches := u64 (rr_batches r + one RecordUpdateBatch);
  rr_rejected := u64 (rr_rejected r + if accepted then 0 else 1);
  rr_first := if accepted && (rr_first r =? 0) then mr_timestamp record else rr_first r;
  rr_last := if accepted then mr_timestamp record else rr_last r;
  rr_elapsed := rr_elapsed r; rr_per_second := rr_per_second r |}.

Definition apply_record (record : MarketRecord) : ST ConsolidatedMarketData MarketDataDecision :=
  if bool_decide (mr_type record = RecordSnapshot) then cmd_apply_snapshot (mr_snapshot record)
  else cmd_apply_batch (mr_updates record).

(** The pause before a record. *)
Definition pause_before (speed : double) (previous timestamp : Z) : result (list Z) :=
  if dgt speed dzero && (0 <? previous) && (previous <? timestamp)
  then scaled ← to_u64 (ddiv (dbl (timestamp - previous)) speed); Ok [scaled]
  else Ok [].

Definition pause (speed : double) (timestamp : Z) : ST Replay unit := fun p =>
  match pause_before speed (rp_previous p) timestamp with
  | Throw e => (Throw e, p)
  | Ok pauses =>
      (Ok tt, {| rp_reader := rp_reader p; rp_market := rp_market p; rp_result := rp_result p;
                 rp_previous := rp_previous p; rp_pauses := rp_pauses p ++ pauses |})
  end.

Definition set_previous (timestamp : Z) : ST Replay unit := modify (fun p => {|
  rp_reader := rp_reader p; rp_market := rp_market p; rp_result := rp_result p;
  rp_previous := timestamp; rp_pauses := rp_pauses p |}).

(** What the guards at the head of the loop say of a record. *)
Inductive Guard := Skip | Finish | Apply.

Definition guard_record (o : MarketReplayOptions) (timestamp applied : Z) : Guard :=
  if match op_start o with Some start => timestamp <? start | None => false end then Skip
  else if match op_end o with Some stop => stop <? timestamp | None => false end then Finish
  else if (0 <? op_maximum o) && (op_maximum o <=? applied) then Finish
  else Apply.

(** One round with a record: whether the loop goes on. *)
Definition replay_record (o : MarketReplayOptions) (record : MarketRecord) : ST Replay bool :=
  _ ← on_result count_read;
  p ← Prelude.get;
  match guard_record o (mr_timestamp record) (rr_applied (rp_result p)) with
  | Skip => mret true
  | Finish => mret false
  | Apply =>
      _ ← pause (op_speed o) (mr_timestamp record);
      d ← on_market (apply_record record);
      _ ← on_result (count_decision (md_accepted d) record);
      _ ← set_previous (mr_timestamp record);
      mret true
  end.

Fixpoint replay_loop (o : MarketReplayOptions) (fuel : nat) : ST Replay unit :=
  match fuel with
  | O => throw out_of_fuel
  | S fuel =>
      record ← on_reader next;
      match record with
      | None => mret tt
      | Some record =>
          continue ← replay_record o record;
          if (continue : bool) then replay_loop o fuel else mret tt
      end
  end.

(** The wall clock at the end. *)
Definition finish_result (elapsed : Z) (r : MarketReplayResult) : MarketReplayResult := {|
  rr_read := rr_read r; rr_applied := rr_applied r; rr_snapshots := rr_snapshots r;
  rr_batches := rr_batches r; rr_rejected := rr_rejected r; rr_first := rr_first r;
  rr_last := rr_last r; rr_elapsed := elapsed;
  rr_per_second :=
    if 0 <? elapsed
    then ddiv (dbl (rr_applied r)) (ddiv (dbl elapsed) (dbl 1000000000)) else dzero |}.

(** Every round reads a byte at least: the loop has the length of the file as
    fuel. *)
Definition replay_market_records (o : MarketReplayOptions) (elapsed : Z) (reader : MarketRecordReader)
    (market : ConsolidatedMarketData) : result MarketReplayResult * Replay :=
  let start := {| rp_reader := reader; rp_market := market; rp_result := no_result; rp_previous := 0;
                  rp_pauses := [] |} in
  (_ ← lift (guard_or (isfinite (op_speed o) && negb (dlt (op_speed o) dzero))
               (invalid_argument "replay speed must be non-negative"));
   _ ← replay_loop o (S (length (rd_rest reader)));
   p ← Prelude.get;
   mret (finish_result elapsed (rp_result p))) start.

(** ** The checksum of a market *)

(** [14695981039346656037]; the prime is that of the other hashes. *)
Definition offset_basis : Z := 14695981039346656037.

Definition hash_bytes (bytes : list Z) (hash : Z) : Z := foldl fnv_step hash bytes.

Definition hash_levels (side : Z) (ls : list MarketDataLevel) (hash : Z) : Z :=
  foldl (fun h l => hash_bytes ([side] ++ double_bytes (ml_price l) ++ double_bytes (ml_quantity l)) h) hash ls.

Definition hash_book (depth : nat) (b : Level2Book) (hash : Z) : Z :=
  let hash := hash_bytes (le 8 (sequence_ b)) hash in
  let hash := hash_bytes (le 8 (timestamp_ns_ b)) hash in
  let hash := hash_bytes [if synchronized_ b then 1 else 0] hash in
  hash_levels 1 (asks depth b) (hash_levels 0 (bids depth b) hash).

Fixpoint hash_venues (market : ConsolidatedMarketData) (symbol : string) (depth : nat)
    (venues : list string) (hash : Z) : result Z :=
  match venues with
  | [] => Ok hash
  | venue :: venues =>
      let hash := hash_bytes (char_bytes symbol) (hash_bytes (char_bytes venue) hash) in
      book ← find_book venue symbol market;
      hash_venues market symbol depth venues
        match book with Some b => hash_book depth b hash | None => hash end
  end.

(** [entries] are the books in the order in which the hash map visits them. *)
Definition market_state_checksum (market : ConsolidatedMarketData) (entries : list (string * Level2Book))
    (symbol : string) (depth : nat) : result Z :=
  hash_venues market symbol depth (venues_for_symbol symbol entries) offset_basis.

(** ** A replay is the recorded session again *)

(** ** The live session *)

Definition apply_event (v : Event) : ST ConsolidatedMarketData MarketDataDecision :=
  match v with EventSnapshot s => cmd_apply_snapshot s | EventBatch us => cmd_apply_batch us end.

(** A live market receives the entries until [maximum] of them are accepted; the
    result says which were. *)
Fixpoint feed (maximum applied : Z) (es : list Entry) : ST ConsolidatedMarketData (list (Entry * bool)) :=
  match es with
  | [] => mret []
  | e :: es =>
      if (0 <? maximum) && (maximum <=? applied) then mret []
      else
        d ← apply_event (en_event e);
        rest ← feed maximum (applied + if md_accepted d then 1 else 0) es;
        mret ((e, md_accepted d) :: rest)
  end.

Definition too_early (o : MarketReplayOptions) (e : Entry) : bool :=
  match op_start o with Some start => entry_time e <? start | None => false end.
Definition too_late (o : MarketReplayOptions) (e : Entry) : bool :=
  match op_end o with Some stop => stop <? entry_time e | None => false end.

(** The entries from the start to the first one behind the end. *)
Fixpoint window (o : MarketReplayOptions) (es : list Entry) : list Entry :=
  match es with
  | [] => []
  | e :: es => if too_early o e then window o es else if too_late o e then [] else e :: window o es
  end.

Definition within (o : MarketReplayOptions) (e : Entry) : Prop :=
  too_early o e = false /\ too_late o e = false.

#[export] Instance within_dec o e : Decision (within o e).
Proof. unfold within. apply _. Defined.

Definition in_order (es : list Entry) : Prop := StronglySorted (fun a b => entry_time a <= entry_time b) es.

(** In order of time, the window is what lies between start and end. *)
Lemma window_in_order o es : in_order es -> window o es = filter (within o) es.
Proof.
  induction 1 as [|e es Hs IH Hle]; [done|]. cbn [window]. rewrite filter_cons.
  destruct (too_early o e) eqn:E1.
  { rewrite decide_False; [done|]. unfold within. by rewrite E1; intros []. }
  destruct (too_late o e) eqn:E2.
  - rewrite decide_False by (unfold within; rewrite E2; by intros []). symmetry. apply filter_none.
    eapply Forall_impl; [exact Hle|]. intros x Hx [_ H]. unfold too_late in *.
    destruct (op_end o); [|done]. breflect. lia.
  - rewrite decide_True by done. by rewrite IH.
Qed.

(** ** Counting *)

(** What a result has counted, the records read aside. *)
Record counted (ds : list (Entry * bool)) (before after : MarketReplayResult) : Prop := {
  cn_applied : rr_applied after = rr_applied before + Z.of_nat (length (filter (fun x => x.2 = true) ds));
  cn_rejected : rr_rejected after = rr_rejected before + Z.of_nat (length (filter (fun x => x.2 = false) ds));
  cn_snapshots : rr_snapshots after = rr_snapshots before +
    Z.of_nat (length (filter (fun x => x.2 = true /\ entry_type x.1 = RecordSnapshot) ds));
  cn_batches : rr_batches after = rr_batches before +
    Z.of_nat (length (filter (fun x => x.2 = true /\ entry_type x.1 = RecordUpdateBatch) ds));
  cn_last : rr_last after = default (rr_last before) (last ((entry_time ∘ fst) <$> filter (fun x => x.2 = true) ds))
}.

(** The counters stay below [n]. *)
Definition counts_below (n : Z) (r : MarketReplayResult) : Prop :=
  0 <= rr_applied r < n /\ 0 <= rr_rejected r < n /\ 0 <= rr_snapshots r < n /\ 0 <= rr_batches r < n.

Lemma counted_nil r : counted [] r r.
Proof. split; cbn; lia || done. Qed.

Lemma counted_read r : counted [] r (count_read r).
Proof. split; cbn; lia || done. Qed.

Lemma counted_trans ds ds' r1 r2 r3 : counted ds r1 r2 -> counted ds' r2 r3 -> counted (ds ++ ds') r1 r3.
Proof.
  intros [A1 A2 A3 A4 A5] [B1 B2 B3 B4 B5].
  split; rewrite ?filter_app, ?length_app, ?fmap_app; try lia.
  rewrite B5, A5, last_app. by destruct (last ((entry_time ∘ fst) <$> filter _ ds')).
Qed.

Lemma counted_decision n e accepted r : counts_below n r -> n < 2 ^ 64 ->
  let r' := count_decision accepted (entry_record e) r in counted [(e, accepted)] r r' /\ counts_below (n + 1) r'.
Proof.
  intros (H1 & H2 & H3 & H4) Hn. cbn.
  assert (forall z, z = 0 \/ z = 1 -> forall x, 0 <= x < n -> u64 (x + z) = x + z) as Hu.
  { intros z Hz x Hx. apply u64_small. unfold in_u64. lia. }
  unfold counts_below, count_decision, entry_record. cbn.
  destruct accepted, (entry_type e) eqn:T.
  all: split; [split|]. all: cbn; rewrite ?Hu by auto; rewrite ?T; try done; try lia.
  all: repeat case_if; lia.
Qed.

(** ** The loop *)

(** After these bytes the reader is at its end. *)
Definition ends (tail : list Z) : Prop := forall r, rd_rest r = tail -> exists r', next r = (Ok None, r').

Definition with_reader (reader : MarketRecordReader) (p : Replay) : Replay := {|
  rp_reader := reader; rp_market := rp_market p; rp_result := rp_result p; rp_previous := rp_previous p;
  rp_pauses := rp_pauses p |}.

Lemma apply_record_entry e : apply_record (entry_record e) = apply_event (en_event e).
Proof. unfold apply_record, apply_event, entry_record, entry_type. by destruct (en_event e). Qed.

(** What a round does with an entry. *)
Definition round_spec (o : MarketReplayOptions) (e : Entry) (p p' : Replay) (r : result bool) : Prop :=
  rp_reader p' = rp_reader p /\ rp_pauses p' = rp_pauses p /\
  if too_early o e then r = Ok true /\ rp_market p' = rp_market p /\ counted [] (rp_result p) (rp_result p')
  else if too_late o e || ((0 <? op_maximum o) && (op_maximum o <=? rr_applied (rp_result p)))
  then r = Ok false /\ rp_market p' = rp_market p /\ counted [] (rp_result p) (rp_result p')
  else match apply_event (en_event e) (rp_market p) with
  | (Throw x, m) => r = Throw x /\ rp_market p' = m
  | (Ok d, m) => r = Ok true /\ rp_market p' = m /\ counted [(e, md_accepted d)] (rp_result p) (rp_result p')
  end.

Lemma replay_record_ok n o e p : op_speed o = dzero -> counts_below n (rp_result p) -> n < 2 ^ 64 ->
  let (r, p') := replay_record o (entry_record e) p in
  round_spec o e p p' r /\ counts_below (n + 1) (rp_result p') .
Proof.
  intros Hs Hc Hn. assert (counts_below (n + 1) (count_read (rp_result p))) as Hr.
  { destruct Hc as (H1 & H2 & H3 & H4). unfold counts_below. cbn. lia. }
  unfold replay_record, mbind at 1, st_bind at 1, on_result, modify, Prelude.get, mbind at 1, st_bind at 1.
  cbn [rp_result]. unfold guard_record. change (mr_timestamp (entry_record e)) with (entry_time e).
  change (rr_applied (count_read (rp_result p))) with (rr_applied (rp_result p)).
  unfold round_spec, too_early, too_late.
  destruct (match op_start o with Some start => entry_time e <? start | None => false end).
  { cbn. split; [|done]. split_and!; try done; apply counted_read. }
  destruct (match op_end o with Some stop => stop <? entry_time e | None => false end); cbn [orb].
  { cbn. split; [|done]. split_and!; try done; apply counted_read. }
  destruct (_ && _).
  { cbn. split; [|done]. split_and!; try done; apply counted_read. }
  unfold mbind at 1, st_bind at 1, pause, pause_before. rewrite Hs. cbn [dgt dzero SFltb SFcompare andb rp_previous].
  unfold mbind at 1, st_bind at 1, on_market. cbn [rp_market rp_reader rp_result rp_pauses rp_previous].
  rewrite apply_record_entry. destruct (apply_event (en_event e) (rp_market p)) as [[d|x] m].
  - cbn. rewrite app_nil_r.
    destruct (counted_decision n e (md_accepted d) (count_read (rp_result p))) as [H1 H2]; [|done|].
    { destruct Hc as (K1 & K2 & K3 & K4). unfold counts_below. done. }
    split; [|done]. split_and!; try done. eapply (counted_trans []); [apply counted_read|done].
  - cbn. rewrite app_nil_r. done.
Qed.

Lemma replay_loop_step o fuel p e r' :
  next (rp_reader p) = (Ok (Some (entry_record e)), r') ->
  replay_loop o (S fuel) p =
    match replay_record o (entry_record e) (with_reader r' p) with
    | (Ok true, p') => replay_loop o fuel p'
    | (Ok false, p') => (Ok tt, p')
    | (Throw x, p') => (Throw x, p')
    end.
Proof.
  intros H. cbn [replay_loop]. unfold mbind at 1, st_bind at 1, on_reader. rewrite H.
  unfold mbind, st_bind. change {| rp_reader := r'; rp_market := _; rp_result := _; rp_previous := _; rp_pauses := _ |}
    with (with_reader r' p). destruct (replay_record _ _ _) as [[[]|] ?]; done.
Qed.

Lemma counted_none_applied r r' : counted [] r r' -> rr_applied r' = rr_applied r.
Proof. intros [H _ _ _ _]. cbn in H. lia. Qed.

Lemma counted_one_applied e b r r' : counted [(e, b)] r r' -> rr_applied r' = rr_applied r + if b then 1 else 0.
Proof. intros [-> _ _ _ _]. by destruct b. Qed.

(** What the loop has to do with the rest of the entries. *)
Definition loop_spec (o : MarketReplayOptions) (es : list Entry) (p p' : Replay) (res : result unit) : Prop :=
  let (fed, market) := feed (op_maximum o) (rr_applied (rp_result p)) (window o es) (rp_market p) in
  rp_market p' = market /\ rp_pauses p' = rp_pauses p /\
  match fed with
  | Throw x => res = Throw x
  | Ok ds => res = Ok tt /\ counted ds (rp_result p) (rp_result p')
  end.

Lemma replay_loop_ok o tail es : op_speed o = dzero -> ends tail -> forall fuel p n,
  Forall entry_ok es -> Forall writable es -> rd_rest (rp_reader p) = session_bytes es ++ tail ->
  (length es < fuel)%nat -> counts_below n (rp_result p) -> n + Z.of_nat (length es) < 2 ^ 64 ->
  let (res, p') := replay_loop o fuel p in loop_spec o es p p' res.
Proof.
  intros Hs Ht. induction es as [|e es IH]; intros fuel p n Ho Hw Hr Hf Hc Hn; destruct fuel as [|fuel];
    cbn [length] in *; try lia.
  - destruct (Ht (rp_reader p) Hr) as [r' H]. cbn [replay_loop]. unfold mbind, st_bind, on_reader. rewrite H.
    cbn. split_and!; try done. apply counted_nil.
  - apply Forall_cons in Ho as [He Ho]. apply Forall_cons in Hw as [We Hw].
    unfold session_bytes in Hr. cbn [fmap list_fmap concat] in Hr. rewrite <- app_assoc in Hr.
    erewrite replay_loop_step; [|by apply next_recorded]. set (p1 := with_reader _ p).
    pose proof (replay_record_ok n o e p1 Hs Hc ltac:(lia)) as H1.
    destruct (replay_record o (entry_record e) p1) as [res p2]. destruct H1 as [(R1 & R2 & R3) Hc2].
    assert (Hgo : res = Ok true -> let (res, p') := replay_loop o fuel p2 in loop_spec o es p2 p' res).
    { intros _. apply (IH fuel p2 (n + 1)); try done; try lia. by rewrite R1. }
    unfold loop_spec in *. cbn [window]. change (rp_market p1) with (rp_market p) in *.
    change (rp_result p1) with (rp_result p) in *. change (rp_pauses p1) with (rp_pauses p) in *.
    destruct (too_early o e).
    { destruct R3 as (-> & M & C). specialize (Hgo eq_refl). destruct (replay_loop o fuel p2) as [res p'].
      rewrite <- (counted_none_applied _ _ C), <- M, <- R2. destruct (feed _ _ _ _) as [[ds|] m]; [|done].
      destruct Hgo as (G1 & G2 & G3 & G4). split_and!; try done. by apply (counted_trans [] ds _ (rp_result p2)). }
    destruct (too_late o e); cbn [orb] in R3.
    { destruct R3 as (-> & M & C). cbn. done. }
    cbn [feed]. destruct (_ && _).
    { destruct R3 as (-> & M & C). cbn. done. }
    unfold mbind at 1, st_bind at 1. destruct (apply_event (en_event e) (rp_market p)) as [[d|x] m].
    + destruct R3 as (-> & M & C). specialize (Hgo eq_refl). destruct (replay_loop o fuel p2) as [res p'].
      unfold mbind, st_bind. rewrite <- (counted_one_applied _ _ _ _ C), <- M, <- R2.
      destruct (feed _ _ _ _) as [[ds|] m']; [|done]. cbn.
      destruct Hgo as (G1 & G2 & G3 & G4). split_and!; try done. by apply (counted_trans [(e, md_accepted d)] ds _ (rp_result p2)).
    + destruct R3 as (-> & M). done.
Qed.

(** ** Recordings *)

(** What a recording may look like when it is replayed: whole, or with a last
    record that was cut in its payload. *)
Inductive recording (path : string) (es : list Entry) : list Z -> Prop :=
| recording_whole bytes : recorded path es bytes -> recording path es bytes
| recording_cut bytes e w k : recorded path es bytes -> entry_ok e -> session path true bytes [e] = Ok w ->
    (length bytes + record_header_size <= k < length (rec_file w))%nat -> recording path es (take k (rec_file w)).

Lemma recording_reader path es bytes r : recording path es bytes -> new_reader path (Some bytes) = Ok r ->
  Forall writable es /\ exists tail, rd_rest r = session_bytes es ++ tail /\ ends tail.
Proof.
  intros H Hn. destruct H as [bytes H|bytes e w k H He Hw Hk]; pose proof (recorded_path _ _ _ H) as Hp;
    apply recorded_bytes in H as [Hes ->]; (split; [done|]).
  - rewrite new_reader_header in Hn by done. apply (inj Ok) in Hn as <-. exists []. rewrite app_nil_r.
    split; [done|]. intros r Hr. exists r. by apply next_end.
  - apply session_appends in Hw as [[We _]%Forall_cons Hw]. rewrite Hw, app_assoc, session_bytes_one in *.
    set (bytes := file_header ++ session_bytes es) in *. rewrite length_app in Hk.
    rewrite take_app, take_ge in Hn by lia. unfold bytes in Hn at 1. rewrite <- app_assoc, new_reader_header in Hn by done.
    apply (inj Ok) in Hn as <-. eexists. split; [done|]. intros r Hr.
    destruct (next_recorded_cut e (k - length bytes) r) as [r' ->]; [done|done|lia|done|].
    exists r'. f_equal. unfold cut_result. by rewrite orb_comm, bool_decide_eq_true_2 by lia.
Qed.

Lemma record_bytes_nonempty e : writable e -> (1 <= length (record_bytes e))%nat.
Proof.
  intros (p & Hp & _). unfold record_bytes. rewrite Hp, length_app, length_record_header.
  unfold record_header_size. lia.
Qed.

Lemma session_bytes_length es : Forall writable es -> (length es <= length (session_bytes es))%nat.
Proof.
  induction 1 as [|e es He Hes IH]; [done|]. unfold session_bytes in *.
  cbn [fmap list_fmap concat length]. rewrite length_app. pose proof (record_bytes_nonempty e He). lia.
Qed.

(** C28: a replay is the recorded session again.  Replaying a recording at full
    speed, whole or with a last record cut in its payload, does to any market what
    feeding it the recorded events does: in order, from the start to the end of the
    options and until the maximum of accepted ones; the counters and the last
    timestamp are those of its decisions, and a replay fails exactly where the
    events fail.  With timestamps in order those are the events of the window. *)
Theorem replay_repeats_session path es bytes r o elapsed market :
  recording path es bytes -> Forall entry_ok es -> new_reader path (Some bytes) = Ok r ->
  op_speed o = dzero -> Z.of_nat (length es) < 2 ^ 64 - 1 ->
  let (res, p) := replay_market_records o elapsed r market in
  let (fed, market') := feed (op_maximum o) 0 (window o es) market in
  rp_market p = market' /\ rp_pauses p = [] /\
  match fed with
  | Throw e => res = Throw e
  | Ok ds => exists rr, res = Ok rr /\ counted ds no_result rr /\ rr_elapsed rr = elapsed
  end /\
  (in_order es -> window o es = filter (within o) es).
Proof.
  intros Hb Ho Hr Hs Hn. destruct (recording_reader path es bytes r Hb Hr) as (Hw & tail & Hrest & Ht).
  unfold replay_market_records, mbind at 1, st_bind at 1, lift. rewrite Hs. cbn [isfinite dzero dlt SFltb SFcompare andb negb guard_or].
  set (p0 := {| rp_reader := r; rp_market := market; rp_result := no_result; rp_previous := 0; rp_pauses := [] |}).
  assert (Hlen : (length es < S (length (rd_rest r)))%nat).
  { rewrite Hrest, length_app. pose proof (session_bytes_length es Hw). lia. }
  pose proof (replay_loop_ok o tail es Hs Ht _ p0 1 Ho Hw Hrest Hlen) as H.
  specialize (H ltac:(unfold counts_below; cbn; lia) ltac:(lia)).
  unfold mbind, st_bind, Prelude.get. destruct (replay_loop o _ p0) as [res p]. unfold loop_spec in H.
  change (rr_applied (rp_result p0)) with 0 in H. change (rp_market p0) with market in H.
  destruct (feed (op_maximum o) 0 (window o es) market) as [[ds|x] m]; destruct H as (M & P & H).
  - destruct H as [-> [C1 C2 C3 C4 C5]]. cbn. split_and!; try done; [|apply window_in_order].
    eexists. split; [done|]. split; [by split|done].
  - subst res. split_and!; try done. apply window_in_order.
Qed.

(** ** The checksum *)

(** The checksum does not depend on the order of the hash map. *)
Lemma checksum_any_order market entries entries' symbol depth : entries ≡ₚ entries' ->
  market_state_checksum market entries symbol depth = market_state_checksum market entries' symbol depth.
Proof. intros H. unfold market_state_checksum. by rewrite (venues_perm symbol entries entries'). Qed.

(** ** Examples *)

Definition demo_bytes : list Z := file_of "a" false [] demo_entries.

Definition demo_reader : MarketRecordReader :=
  {| rd_file := demo_bytes; rd_rest := drop 12 demo_bytes; records_read_ := 0 |}.

Lemma demo_new_reader : new_reader "a" (Some demo_bytes) = Ok demo_reader.
Proof. vm_compute. reflexivity. Qed.

Lemma demo_feed : exists m, feed 0 0 demo_entries ∅ = (Ok ((fun e => (e, true)) <$> demo_entries), m).
Proof. eexists. vm_compute. reflexivity. Qed.

Lemma replay_repeats_session_witness :
  exists rr p, replay_market_records default_options 50 demo_reader ∅ = (Ok rr, p) /\ rr_applied rr = 2 /\
    rr_last rr = 120.
Proof.
  pose proof (replay_repeats_session "a" demo_entries demo_bytes demo_reader default_options 50 ∅
    (recording_whole _ _ _ demo_recorded) demo_entries_ok demo_new_reader eq_refl ltac:(cbn; lia)) as H.
  change (window default_options demo_entries) with demo_entries in H. destruct demo_feed as [m E].
  change (op_maximum default_options) with 0 in H. rewrite E in H.
  destruct (replay_market_records default_options 50 demo_reader ∅) as [res p].
  destruct H as (_ & _ & (rr & -> & [C1 _ _ _ C5] & _) & _). exists rr, p. split; [done|].
  rewrite C1, C5. split; reflexivity.
Defined.
