(* ===== verification/ReplayServer.v ===== *)
(** * The replay server ([apps/market_replay_ws.cpp])

    A server loads a recording and plays it to a client, whose commands reach the
    controller from a second thread.  Every access of the playing thread to the
    controller is one atomic step, before which the other thread may have handed
    over any commands: a schedule lists them access by access. *)

From S2P Require Import Prelude.
From S2P Require Import Float.
From S2P Require Import MarketData.
From S2P Require Import ReplayControl.
From S2P Require Import Recording.
From S2P Require Import RecordingReplay.

(** ** Recordings in memory *)

Fixpoint load_records (fuel : nat) : ST MarketRecordReader (list MarketRecord) :=
  match fuel with
  | O => throw out_of_fuel
  | S fuel =>
      record ← next;
      match record with
      | None => mret []
      | Some record => records ← load_records fuel; mret (record :: records)
      end
  end.

(** Every round reads a byte at least. *)
Definition load_recording (path : string) (content : option (list Z)) : result (list MarketRecord) :=
  reader ← new_reader path content;
  records ← (load_records (S (length (rd_rest reader))) reader).1;
  match records with
  | [] => Throw (runtime_error "market recording contains no records")
  | _ => Ok records
  end.

(** [std::lower_bound], which halves the range. *)
Fixpoint lower_bound_loop (records : list MarketRecord) (timestamp : Z) (fuel first count : nat) : nat :=
  match fuel with
  | O => first
  | S fuel =>
      match count with
      | O => first
      | _ =>
          let half := Nat.div2 count in
          match records !! (first + half)%nat with
          | Some r =>
              if mr_timestamp r <? timestamp
              then lower_bound_loop records timestamp fuel (first + half + 1) (count - half - 1)
              else lower_bound_loop records timestamp fuel first half
          | None => first
          end
      end
  end.

Definition find_record_for_timestamp (records : list MarketRecord) (timestamp : Z) : nat :=
  lower_bound_loop records timestamp (length records) 0 (length records).

(** ** The state of a connection *)

(** What the thread of the commands does: it applies a command, or ends with the
    connection, which an exception of a command also does. *)
Inductive ClientEvent := ClientCommand (c : ReplayCommand) | ClientGone.

(** What [market_json] shows. *)
Record Message := {
  msg_market : ConsolidatedMarketData; msg_timestamp : Z; msg_control : ReplayController; msg_rejected : Z
}.

Record Server := {
  sv_controller : ReplayController; sv_connected : bool;
  sv_market : ConsolidatedMarketData; sv_current : nat; sv_rejected : Z; sv_previous : Z; sv_latest : Z;
  sv_sent : list Message;
  sv_schedule : list (list ClientEvent)
}.

Definition with_control (c : ReplayController) (connected : bool) (schedule : list (list ClientEvent))
    (s : Server) : Server := {|
  sv_controller := c; sv_connected := connected; sv_market := sv_market s; sv_current := sv_current s;
  sv_rejected := sv_rejected s; sv_previous := sv_previous s; sv_latest := sv_latest s;
  sv_sent := sv_sent s; sv_schedule := schedule |}.

Definition client_event (c : ReplayController * bool) (v : ClientEvent) : ReplayController * bool :=
  let gone := ((stop c.1).1, false) in
  if negb c.2 then c
  else match v with
  | ClientGone => gone
  | ClientCommand command =>
      match ReplayControl.apply command c.1 with (Ok _, p) => (p.1, true) | (Throw _, _) => gone end
  end.

(** The commands that come before an access. *)
Definition client_events (vs : list ClientEvent) (s : Server) : Server :=
  let p := foldl client_event (sv_controller s, sv_connected s) vs in
  with_control p.1 p.2 (tail (sv_schedule s)) s.

Definition access {A} (f : ReplayController -> A * ReplayController) : ST Server A := fun s =>
  let s := client_events (default [] (head (sv_schedule s))) s in
  let (a, c) := f (sv_controller s) in
  (Ok a, with_control c (sv_connected s) (sv_schedule s) s).

Definition look {A} (f : ReplayController -> A) : ST Server A := access (fun c => (f c, c)).
Definition act (f : call) : ST Server unit := access (fun c => (tt, (f c).1)).

Definition set_position (market : ConsolidatedMarketData) (current : nat) (rejected previous latest : Z)
    : ST Server unit := modify (fun s => {|
  sv_controller := sv_controller s; sv_connected := sv_connected s; sv_market := market;
  sv_current := current; sv_rejected := rejected; sv_previous := previous; sv_latest := latest;
  sv_sent := sv_sent s; sv_schedule := sv_schedule s |}).

(** ** Moving in the recording *)

Definition apply_accepted (record : MarketRecord) : ST ConsolidatedMarketData bool :=
  d ← apply_record record; mret (md_accepted d).

(** The loop of [rebuild_to_record] over the first records. *)
Fixpoint rebuild_loop (records : list MarketRecord) (rejected : Z) : ST ConsolidatedMarketData Z :=
  match records with
  | [] => mret rejected
  | r :: records =>
      accepted ← apply_accepted r;
      rebuild_loop records (if (accepted : bool) then rejected else u64 (rejected + 1))
  end.

Definition rebuild_to_record (records : list MarketRecord) (target : nat)
    : result Z * ConsolidatedMarketData :=
  rebuild_loop (take (Nat.min target (length records)) records) 0 ∅.

Definition previous_of (records : list MarketRecord) (current : nat) : Z :=
  match current with
  | O => 0
  | S n => default 0 (mr_timestamp <$> records !! n)
  end.

(** [current_record = target] and what follows in all three cases. *)
Definition move_to (records : list MarketRecord) (target : nat) : ST Server unit :=
  s ← Prelude.get;
  let time := previous_of records target in
  let (rejected, market) := rebuild_to_record records target in
  match rejected with
  | Throw e => _ ← set_position market target (sv_rejected s) (sv_previous s) (sv_latest s); throw e
  | Ok rejected =>
      _ ← set_position market target rejected time time;
      act (update_progress (Z.of_nat target) (Z.of_nat (length records)))
  end.

Definition handle_requests (records : list MarketRecord) : ST Server unit :=
  restart ← access consume_restart_request;
  _ ← (if (restart : bool) then move_to records 0 else mret tt);
  seek ← access consume_seek_request;
  _ ← match seek with
      | Some target => move_to records (Z.to_nat (Z.min target (Z.of_nat (length records))))
      | None => mret tt
      end;
  timestamp_seek ← access consume_timestamp_seek_request;
  match timestamp_seek with
  | Some timestamp => move_to records (find_record_for_timestamp records timestamp)
  | None => mret tt
  end.

(** ** Pausing between records *)

Definition interrupts (c : ReplayController) : bool :=
  bool_decide (status_ c = Paused) || restart_requested_ c || bool_decide (is_Some (seek_record_ c)) ||
  bool_decide (is_Some (seek_timestamp_ns_ c)).

Definition chunk_ns : Z := 10000000.

Fixpoint sleep_loop (fuel : nat) (remaining : Z) : ST Server unit :=
  match fuel with
  | O => throw out_of_fuel
  | S fuel =>
      if 0 <? remaining then
        current ← look id;
        if interrupts current then mret tt
        else
          stop ← look stopped;
          if (stop : bool) then mret tt else sleep_loop fuel (remaining - Z.min remaining chunk_ns)
      else mret tt
  end.

Definition sleep_interruptibly (delta : Z) : ST Server unit :=
  state ← look id;
  if dle (speed_ state) dzero || (delta =? 0) then mret tt
  else
    scaled ← lift (to_u64 (ddiv (dbl delta) (speed_ state)));
    sleep_loop (S (Z.to_nat (scaled / chunk_ns + 1))) scaled.

(** ** The loop *)

(** [market_json] and [stream.write]. *)
Definition send (control : ReplayController) : ST Server unit := modify (fun s => {|
  sv_controller := sv_controller s; sv_connected := sv_connected s; sv_market := sv_market s;
  sv_current := sv_current s; sv_rejected := sv_rejected s; sv_previous := sv_previous s;
  sv_latest := sv_latest s;
  sv_sent := sv_sent s ++ [{| msg_market := sv_market s; msg_timestamp := sv_latest s;
                              msg_control := control; msg_rejected := sv_rejected s |}];
  sv_schedule := sv_schedule s |}).

(** At the end of the recording. *)
Definition complete : ST Server unit :=
  _ ← act mark_complete;
  state ← look id;
  _ ← send state;
  act ReplayControl.pause.

Definition apply_next (records : list MarketRecord) (record : MarketRecord) : ST Server unit := fun s =>
  match apply_accepted record (sv_market s) with
  | (Throw e, market) =>
      (_ ← set_position market (sv_current s) (sv_rejected s) (sv_previous s) (sv_latest s); throw e) s
  | (Ok accepted, market) =>
      let rejected := if (accepted : bool) then sv_rejected s else u64 (sv_rejected s + 1) in
      (_ ← set_position market (S (sv_current s)) rejected (mr_timestamp record) (mr_timestamp record);
       _ ← act (update_progress (Z.of_nat (S (sv_current s))) (Z.of_nat (length records)));
       state ← look id;
       send state) s
  end.

Definition play_record (records : list MarketRecord) (record : MarketRecord) : ST Server unit :=
  s ← Prelude.get;
  _ ← (if (0 <? sv_previous s) && (sv_previous s <? mr_timestamp record)
       then sleep_interruptibly (mr_timestamp record - sv_previous s) else mret tt);
  before_apply ← look id;
  if interrupts before_apply then mret tt else apply_next records record.

(** How a round ends. *)
Inductive Round := GoOn | Leave | Blocked.

(** [wait_until_runnable]: it returns in an access that finds the status not
    paused; [false] when the schedule ends before. *)
Fixpoint wait_loop (schedule : list (list ClientEvent)) : ST Server bool :=
  match schedule with
  | [] => look runnable
  | _ :: schedule =>
      go ← look runnable;
      if (go : bool) then mret true else wait_loop schedule
  end.

Definition wait_until_runnable : ST Server bool := fun s => wait_loop (sv_schedule s) s.

Definition round (records : list MarketRecord) : ST Server Round :=
  s ← Prelude.get;
  stop ← (if sv_connected s then look stopped else mret true);
  if (stop : bool) then mret Leave
  else
    go ← wait_until_runnable;
    if negb go then mret Blocked
    else
      stop ← look stopped;
      if (stop : bool) then mret Leave
      else
        _ ← handle_requests records;
        s ← Prelude.get;
        match records !! sv_current s with
        | None => _ ← complete; mret GoOn
        | Some record => _ ← play_record records record; mret GoOn
        end.

(** Some rounds, until the loop is left; an exception leaves it too. *)
Fixpoint rounds (records : list MarketRecord) (n : nat) (s : Server) : Server :=
  match n with
  | O => s
  | S n =>
      match round records s with
      | (Ok GoOn, s) => rounds records n s
      | (_, s) => s
      end
  end.

(** [handle_client] before the loop. *)
Definition connect (records : list MarketRecord) (initial_speed : double)
    (schedule : list (list ClientEvent)) : result Server :=
  c ← new_controller initial_speed;
  let c := (update_progress 0 (Z.of_nat (length records)) c).1 in
  Ok {| sv_controller := (play c).1; sv_connected := true; sv_market := ∅; sv_current := 0; sv_rejected := 0;
        sv_previous := 0; sv_latest := 0; sv_sent := []; sv_schedule := schedule |}.

(** After the loop. *)
Definition disconnect (s : Server) : Server :=
  with_control (stop (sv_controller s)).1 false (sv_schedule s) s.
