(* ===== verification/ReplayServerProps.v ===== *)
(** * The replay server shows what was recorded

    Whatever the client commands and whenever its commands arrive, every message
    shows the market as it is after a number of records from the start. *)

From S2P Require Import Prelude.
From S2P Require Import Float.
From S2P Require Import MarketData.
From S2P Require Import ReplayControl.
From S2P Require Import Recording.
From S2P Require Import RecordingReplay.
From S2P Require Import RecordingProps.
From S2P Require Import ReplayServer.

(** ** Places in a recording *)

Section Server.
Context (records : list MarketRecord).

(** The market after the first [n] records, with what was rejected and the time. *)
Definition place (n : nat) (market : ConsolidatedMarketData) (rejected time : Z) : Prop :=
  (n <= length records)%nat /\ rebuild_to_record records n = (Ok rejected, market) /\ time = previous_of records n.

Definition shows_at (n : nat) (m : Message) : Prop := place n (msg_market m) (msg_rejected m) (msg_timestamp m).

Definition shows (m : Message) : Prop := exists n, shows_at n m.

(** The thread is in place between its steps. *)
Record in_place (s : Server) : Prop := {
  ip_place : place (sv_current s) (sv_market s) (sv_rejected s) (sv_latest s);
  ip_previous : sv_previous s = sv_latest s;
  ip_sent : Forall shows (sv_sent s)
}.

(** Steps that only touch the controller. *)
Record same_place (s s' : Server) : Prop := {
  sp_market : sv_market s' = sv_market s; sp_current : sv_current s' = sv_current s;
  sp_rejected : sv_rejected s' = sv_rejected s; sp_previous : sv_previous s' = sv_previous s;
  sp_latest : sv_latest s' = sv_latest s; sp_sent : sv_sent s' = sv_sent s
}.

Lemma same_place_refl s : same_place s s.
Proof using. by split. Qed.

Lemma same_place_trans s1 s2 s3 : same_place s1 s2 -> same_place s2 s3 -> same_place s1 s3.
Proof using. intros [] []. split; congruence. Qed.

Lemma same_place_in s s' : same_place s s' -> in_place s -> in_place s'.
Proof using. intros [E1 E2 E3 E4 E5 E6] [H1 H2 H3]. split; by rewrite ?E1, ?E2, ?E3, ?E4, ?E5, ?E6. Qed.

(** ** Computations of the thread *)

Definition plays {A} (m : ST Server A) (s : Server) (Q : A -> Server -> Prop) : Prop :=
  Forall shows (sv_sent (m s).2) /\ forall a, (m s).1 = Ok a -> Q a (m s).2.

Lemma plays_bind {A B} (m : ST Server A) (k : A -> ST Server B) s Q R :
  plays m s Q -> (forall a s', Q a s' -> plays (k a) s' R) -> plays (m ≫= k) s R.
Proof using.
  intros [H1 H2] Hk. unfold plays, mbind, st_bind in *. destruct (m s) as [[a|e] s']; cbn in *; [|done].
  by apply Hk, H2.
Qed.

Lemma plays_ret {A} (a : A) s (Q : A -> Server -> Prop) : in_place s -> Q a s -> plays (mret a) s Q.
Proof using. intros [_ _ H] HQ. split; [done|]. by intros ? [= <-]. Qed.

Lemma plays_get s : in_place s -> plays Prelude.get s (fun a s' => a = s /\ s' = s).
Proof using. intros [_ _ H]. split; [done|]. by intros ? [= <-]. Qed.

Lemma plays_mono {A} (m : ST Server A) s (Q R : A -> Server -> Prop) :
  plays m s Q -> (forall a s', Q a s' -> R a s') -> plays m s R.
Proof using. intros [H1 H2] H. split; auto. Qed.

Lemma client_events_same vs s : same_place s (client_events vs s).
Proof using. by split. Qed.

Lemma access_same {A} (f : ReplayController -> A * ReplayController) s :
  same_place s (access f s).2 /\ exists a, (access f s).1 = Ok a.
Proof using. unfold access. destruct (f _) as [a c]. split; [by split|eauto]. Qed.

Lemma plays_access {A} (f : ReplayController -> A * ReplayController) s :
  in_place s -> plays (access f) s (fun _ s' => same_place s s' /\ in_place s').
Proof using.
  intros H. destruct (access_same f s) as [Hs _]. pose proof (same_place_in _ _ Hs H) as H'.
  split; [apply H'|done].
Qed.

Lemma plays_look {A} (f : ReplayController -> A) s :
  in_place s -> plays (look f) s (fun _ s' => same_place s s' /\ in_place s').
Proof using. apply plays_access. Qed.

Lemma plays_act f s : in_place s -> plays (act f) s (fun _ s' => same_place s s' /\ in_place s').
Proof using. apply plays_access. Qed.

Lemma plays_modify f s (Q : unit -> Server -> Prop) : Forall shows (sv_sent (f s)) -> Q tt (f s) -> plays (modify f) s Q.
Proof using. intros H1 H2. split; [done|]. by intros [] _. Qed.

(** ** Moving *)

Lemma plays_move target s : (target <= length records)%nat -> in_place s ->
  plays (move_to records target) s (fun _ s' => in_place s').
Proof using.
  intros Ht Hs. pose proof Hs as [H1 H2 H3]. eapply plays_bind; [by apply plays_get|]. intros s0 s1 [-> ->].
  destruct (rebuild_to_record records target) as [[rejected|e] market] eqn:E; [|by split].
  eapply (plays_bind _ _ _ (fun _ s' => in_place s')); [by apply plays_modify|].
  intros _ s' Hs'. eapply plays_mono; [by apply plays_act|]. by intros _ s2 [].
Qed.

Lemma lower_bound_bounds timestamp fuel : forall first count, (first + count <= length records)%nat ->
  (first <= lower_bound_loop records timestamp fuel first count <= first + count)%nat.
Proof using.
  induction fuel as [|fuel IH]; intros first count H; cbn [lower_bound_loop]; [lia|].
  destruct count as [|count]; [lia|]. set (half := Nat.div2 (S count)).
  assert (half < S count)%nat as Hh by (apply Nat.lt_div2; lia). clearbody half.
  destruct (records !! (first + half)%nat) as [r|]; [|lia]. case_if.
  - specialize (IH (first + half + 1)%nat (S count - half - 1)%nat ltac:(lia)). lia.
  - specialize (IH first half ltac:(lia)). lia.
Qed.

Lemma find_record_bounds timestamp : (find_record_for_timestamp records timestamp <= length records)%nat.
Proof using.
  unfold find_record_for_timestamp. pose proof (lower_bound_bounds timestamp (length records) 0 (length records) ltac:(lia)). lia.
Qed.

Lemma plays_requests s : in_place s -> plays (handle_requests records) s (fun _ s' => in_place s').
Proof using.
  intros Hs. eapply plays_bind; [by apply plays_access|]. intros restart s1 [_ H1].
  eapply (plays_bind _ _ _ (fun _ s' => in_place s')).
  { destruct restart; [apply plays_move; [lia|done]|by apply plays_ret]. }
  intros _ s2 H2. eapply plays_bind; [by apply plays_access|]. intros seek s3 [_ H3].
  eapply (plays_bind _ _ _ (fun _ s' => in_place s')).
  { destruct seek as [target|]; [apply plays_move; [lia|done]|by apply plays_ret]. }
  intros _ s4 H4. eapply plays_bind; [by apply plays_access|]. intros ts s5 [_ H5].
  destruct ts as [timestamp|]; [apply plays_move; [apply find_record_bounds|done]|by apply plays_ret].
Qed.

(** ** Pausing *)

Notation stays s := (fun _ s' => same_place s s' /\ in_place s').

Lemma plays_stay {A B} (m : ST Server A) (k : A -> ST Server B) s : plays m s (stays s) ->
  (forall a s', in_place s' -> plays (k a) s' (stays s')) -> plays (m ≫= k) s (stays s).
Proof using.
  intros H Hk. eapply plays_bind; [exact H|]. intros a s' [H1 H2]. eapply plays_mono; [by apply Hk|].
  intros b s'' [H3 H4]. split; [by eapply same_place_trans|done].
Qed.

Lemma plays_skip {A} (a : A) s : in_place s -> plays (mret a) s (stays s).
Proof using. intros H. apply plays_ret; [done|]. by split; [apply same_place_refl|]. Qed.

Lemma plays_sleep_loop fuel : forall remaining s, in_place s -> plays (sleep_loop fuel remaining) s (stays s).
Proof using.
  induction fuel as [|fuel IH]; intros remaining s Hs; cbn [sleep_loop]; [by split; [apply Hs|]|].
  case_if; [|by apply plays_skip]. eapply plays_stay; [by apply plays_look|]. intros c s1 H1.
  case_if; [by apply plays_skip|]. eapply plays_stay; [by apply plays_look|]. intros stop s2 H2.
  destruct stop; [by apply plays_skip|by apply IH].
Qed.

Lemma plays_sleep delta s : in_place s -> plays (sleep_interruptibly delta) s (stays s).
Proof using.
  intros Hs. eapply plays_stay; [by apply plays_look|]. intros c s1 H1. case_if; [by apply plays_skip|].
  eapply plays_stay; [|intros scaled s2 H2; by apply plays_sleep_loop].
  split; [apply H1|]. intros a _. by split; [apply same_place_refl|].
Qed.

(** ** Playing *)

Lemma plays_send c s : in_place s -> plays (send c) s (fun _ s' => in_place s').
Proof using.
  intros [H1 H2 H3]. assert (Forall shows (sv_sent (send c s).2)) as H.
  { cbn. apply Forall_app. split; [done|]. repeat constructor. by exists (sv_current s). }
  split; [exact H|]. intros [] _. by split.
Qed.

(** One record further. *)
Lemma rebuild_loop_app rs r rejected : forall market, rebuild_loop (rs ++ [r]) rejected market =
  match rebuild_loop rs rejected market with
  | (Ok n, m) => rebuild_loop [r] n m
  | (Throw e, m) => (Throw e, m)
  end.
Proof using.
  revert rejected. induction rs as [|x rs IH]; intros rejected market; [done|].
  cbn [app rebuild_loop]. unfold mbind, st_bind. destruct (apply_accepted x market) as [[a|e] m]; [|done].
  apply IH.
Qed.

Lemma rebuild_next n record : records !! n = Some record -> rebuild_to_record records (S n) =
  match rebuild_to_record records n with
  | (Ok k, m) => rebuild_loop [record] k m
  | (Throw e, m) => (Throw e, m)
  end.
Proof using.
  intros H. pose proof (lookup_lt_Some _ _ _ H). unfold rebuild_to_record.
  rewrite !Nat.min_l by lia. rewrite (take_S_r _ _ _ H). apply rebuild_loop_app.
Qed.

Lemma place_next n record market rejected time accepted market' :
  records !! n = Some record -> place n market rejected time ->
  apply_accepted record market = (Ok accepted, market') ->
  place (S n) market' (if (accepted : bool) then rejected else u64 (rejected + 1)) (mr_timestamp record).
Proof using.
  intros H (H1 & H2 & H3) Ha. pose proof (lookup_lt_Some _ _ _ H). split; [lia|].
  rewrite (rebuild_next n record), H2 by done. cbn [rebuild_loop]. unfold mbind, st_bind. rewrite Ha.
  split; [done|]. cbn [previous_of]. by rewrite H.
Qed.

Lemma plays_next record s : records !! sv_current s = Some record -> in_place s ->
  plays (apply_next records record) s (fun _ s' => in_place s').
Proof using.
  intros Hr [H1 H2 H3]. unfold plays at 1, apply_next.
  destruct (apply_accepted record (sv_market s)) as [[accepted|e] market] eqn:E; [|done].
  pose proof (place_next _ _ _ _ _ _ _ Hr H1 E) as Hp. set (m := mbind _ _).
  apply (plays_bind _ _ _ (fun _ s' => in_place s')); [by apply plays_modify|].
  intros _ s1 I1. eapply plays_bind; [by apply plays_act|]. intros _ s2 [_ I2].
  eapply plays_bind; [by apply plays_look|]. intros c s3 [_ I3]. by apply plays_send.
Qed.

Lemma plays_record record s : records !! sv_current s = Some record -> in_place s ->
  plays (play_record records record) s (fun _ s' => in_place s').
Proof using.
  intros Hr Hs. eapply plays_bind; [by apply plays_get|]. intros s0 s1 [-> ->].
  eapply (plays_bind _ _ _ (stays s)); [case_if; [by apply plays_sleep|by apply plays_skip]|].
  intros _ s2 [E2 I2]. eapply plays_bind; [by apply plays_look|]. intros c s3 [E3 I3].
  case_if; [by apply plays_ret|]. apply plays_next; [|done].
  by rewrite (sp_current _ _ E3), (sp_current _ _ E2).
Qed.

Lemma plays_complete s : in_place s -> plays complete s (fun _ s' => in_place s').
Proof using.
  intros Hs. eapply plays_bind; [by apply plays_act|]. intros _ s1 [_ I1].
  eapply plays_bind; [by apply plays_look|]. intros c s2 [_ I2].
  eapply plays_bind; [by apply plays_send|]. intros [] s3 I3.
  eapply plays_mono; [by apply plays_act|]. by intros _ s4 [].
Qed.

Lemma plays_wait schedule : forall s, in_place s -> plays (wait_loop schedule) s (stays s).
Proof using.
  induction schedule as [|vs schedule IH]; intros s Hs; cbn [wait_loop]; [by apply plays_look|].
  eapply plays_stay; [by apply plays_look|]. intros go s1 I1. destruct go; [by apply plays_skip|by apply IH].
Qed.

Lemma plays_round s : in_place s -> plays (round records) s (fun _ s' => in_place s').
Proof using.
  intros Hs. eapply plays_bind; [by apply plays_get|]. intros s0 s1 [-> ->].
  eapply (plays_bind _ _ _ (stays s)); [destruct (sv_connected s); [by apply plays_look|by apply plays_skip]|].
  intros stop s1 [_ I1]. destruct stop; [by apply plays_ret|].
  eapply plays_bind; [by apply plays_wait|]. intros go s2 [_ I2]. destruct go; cbn [negb]; [|by apply plays_ret].
  eapply plays_bind; [by apply plays_look|]. intros stop s3 [_ I3]. destruct stop; [by apply plays_ret|].
  eapply plays_bind; [by apply plays_requests|]. intros [] s4 I4.
  eapply plays_bind; [by apply plays_get|]. intros s5 s6 [-> ->].
  destruct (records !! sv_current s4) as [record|] eqn:E.
  - eapply plays_bind; [by apply plays_record|]. intros [] s7 I7. by apply plays_ret.
  - eapply plays_bind; [by apply plays_complete|]. intros [] s7 I7. by apply plays_ret.
Qed.

Lemma rounds_show n : forall s, in_place s -> Forall shows (sv_sent (rounds records n s)).
Proof using.
  induction n as [|n IH]; intros s Hs; cbn [rounds]; [apply Hs|].
  destruct (plays_round s Hs) as [H1 H2]. destruct (round records s) as [[[]|] s']; try done.
  apply IH. by apply (H2 GoOn).
Qed.

Lemma connect_in_place speed schedule s : connect records speed schedule = Ok s -> in_place s.
Proof using.
  unfold connect. destruct (new_controller speed); [|done]. cbn [mbind result_bind]. intros <-%(inj Ok).
  split; [|done|constructor]. split; [cbn; lia|done].
Qed.

(** ** Without commands *)

(** The pauses between the records, at a given speed, are numbers of nanoseconds
    that fit 64 bits; out of that range the conversion in the code is not defined. *)
Definition pauses_fit (speed : double) : Prop :=
  dle speed dzero = true \/
  forall n record, records !! n = Some record -> 0 < previous_of records n < mr_timestamp record ->
    exists z, to_u64 (ddiv (dbl (mr_timestamp record - previous_of records n)) speed) = Ok z.

(** A server that plays and gets no commands. *)
Definition quiet (speed : double) (status : ReplayStatus) (index generation : Z) (market : ConsolidatedMarketData)
    (current : nat) (rejected time : Z) (sent : list Message) : Server := {|
  sv_controller := {| status_ := status; speed_ := speed; current_record_ := index;
    total_records_ := Z.of_nat (length records); generation_ := generation; restart_requested_ := false;
    seek_record_ := None; seek_timestamp_ns_ := None |};
  sv_connected := true; sv_market := market; sv_current := current; sv_rejected := rejected;
  sv_previous := time; sv_latest := time; sv_sent := sent; sv_schedule := [] |}.

Lemma st_bind_ok {S A B} (m : ST S A) (k : A -> ST S B) s a s' : m s = (Ok a, s') -> (m ≫= k) s = k a s'.
Proof using. intros H. unfold mbind, st_bind. by rewrite H. Qed.

Ltac one_step := erewrite st_bind_ok; [|reflexivity]; cbn beta iota.

(** A round without commands up to the record. *)
Lemma quiet_round speed status index generation market n rejected time sent : status = Running \/ status = Complete ->
  let s := quiet speed status index generation market n rejected time sent in
  round records s =
    match records !! n with
    | None => (_ ← complete; mret GoOn) s
    | Some record => (_ ← play_record records record; mret GoOn) s
    end.
Proof using.
  intros Hs s. assert (stopped (sv_controller s) = false) as E1 by (by destruct Hs as [-> | ->]).
  assert (runnable (sv_controller s) = true) as E2 by (by destruct Hs as [-> | ->]).
  unfold round. one_step. unfold s at 1. cbn [quiet sv_connected].
  erewrite (st_bind_ok (look stopped) _ s false s) by (by rewrite <- E1). cbn beta iota.
  erewrite (st_bind_ok wait_until_runnable _ s true s) by (by rewrite <- E2). cbn [negb].
  erewrite (st_bind_ok (look stopped) _ s false s) by (by rewrite <- E1). cbn beta iota.
  erewrite (st_bind_ok (handle_requests records) _ s tt s) by done. one_step. unfold s at 1. cbn [quiet sv_current].
  by destruct (records !! n).
Qed.

Lemma quiet_sleep speed index generation market n rejected time sent fuel : forall remaining,
  remaining <= (Z.of_nat fuel - 1) * chunk_ns -> (0 < fuel)%nat ->
  let s := quiet speed Running index generation market n rejected time sent in
  sleep_loop fuel remaining s = (Ok tt, s).
Proof using.
  induction fuel as [|fuel IH]; intros remaining Hr Hf s; [lia|]. cbn [sleep_loop].
  destruct (0 <? remaining) eqn:E; [|done]. apply Z.ltb_lt in E.
  erewrite (st_bind_ok (look id) _ s (sv_controller s) s) by done. change (interrupts _) with false. cbn beta iota.
  erewrite (st_bind_ok (look stopped) _ s false s) by done. cbn beta iota. unfold chunk_ns in *. apply IH; lia.
Qed.

Lemma quiet_pause speed index generation market n rejected time sent delta :
  dle speed dzero = true \/ (exists z, to_u64 (ddiv (dbl delta) speed) = Ok z) ->
  let s := quiet speed Running index generation market n rejected time sent in
  sleep_interruptibly delta s = (Ok tt, s).
Proof using.
  intros Hs s. unfold sleep_interruptibly. erewrite (st_bind_ok (look id) _ s (sv_controller s) s) by done.
  change (speed_ (sv_controller s)) with speed. destruct Hs as [-> |[z Hz]]; [done|].
  destruct (_ || _); [done|]. unfold lift. rewrite Hz. erewrite (st_bind_ok _ _ s z s) by done.
  apply quiet_sleep; [|lia]. unfold chunk_ns. pose proof (Z.mod_pos_bound z 10000000 ltac:(lia)).
  pose proof (Z.div_mod z 10000000 ltac:(lia)). lia.
Qed.

Lemma quiet_record speed index generation market n rejected time sent record accepted market' :
  pauses_fit speed -> time = previous_of records n ->
  records !! n = Some record -> apply_accepted record market = (Ok accepted, market') ->
  let rejected' := if (accepted : bool) then rejected else u64 (rejected + 1) in
  exists c, round records (quiet speed Running index generation market n rejected time sent) =
    (Ok GoOn, quiet speed Running (Z.of_nat (S n)) generation market' (S n) rejected' (mr_timestamp record)
       (sent ++ [{| msg_market := market'; msg_timestamp := mr_timestamp record; msg_control := c;
                    msg_rejected := rejected' |}])).
Proof using.
  intros Hp Ht Hr Ha rejected'. eexists. rewrite quiet_round by auto. rewrite Hr. unfold play_record.
  set (s := quiet _ _ _ _ _ _ _ _ _). erewrite st_bind_ok; [reflexivity|]. one_step.
  erewrite (st_bind_ok _ _ s tt s).
  2: { destruct (_ && _) eqn:E; [|done]. apply andb_true_iff in E as [E1%Z.ltb_lt E2%Z.ltb_lt].
       change (sv_previous s) with time in *. apply quiet_pause. destruct Hp as [Hp|Hp]; [by left|right].
       rewrite Ht in *. by apply Hp. }
  erewrite (st_bind_ok (look id) _ s (sv_controller s) s) by done. change (interrupts _) with false.
  cbn beta iota. unfold apply_next. change (sv_market s) with market. rewrite Ha. reflexivity.
Qed.

Lemma quiet_complete speed status index generation market n rejected time sent : status = Running \/ status = Complete ->
  records !! n = None -> exists c,
  round records (quiet speed status index generation market n rejected time sent) =
    (Ok GoOn, quiet speed Complete index (u64 (generation + 1)) market n rejected time
       (sent ++ [{| msg_market := market; msg_timestamp := time; msg_control := c; msg_rejected := rejected |}])).
Proof using.
  intros Hs Hr. eexists. rewrite quiet_round by done. rewrite Hr.
  destruct Hs as [-> | ->]; reflexivity.
Qed.

Lemma rebuild_ok_before n k : (n <= k)%nat -> (k <= length records)%nat ->
  (exists r, (rebuild_to_record records k).1 = Ok r) -> exists r, (rebuild_to_record records n).1 = Ok r.
Proof using.
  intros Hn. induction Hn as [|k Hn IH]; [done|]. intros Hk [r Hr]. apply IH; [lia|].
  destruct (lookup_lt_is_Some_2 records k) as [record E]; [lia|].
  rewrite (rebuild_next k record E) in Hr. destruct (rebuild_to_record records k) as [[]]; [by eexists|done].
Qed.

Lemma applied_next n record market rejected time : records !! n = Some record -> place n market rejected time ->
  (exists r, (rebuild_to_record records (length records)).1 = Ok r) ->
  exists accepted market', apply_accepted record market = (Ok accepted, market').
Proof using.
  intros Hr (H1 & H2 & _) Hall. pose proof (lookup_lt_Some _ _ _ Hr).
  destruct (rebuild_ok_before (S n) (length records)) as [r H3]; [lia|lia|done|].
  rewrite (rebuild_next n record Hr), H2 in H3. cbn [rebuild_loop] in H3. unfold mbind, st_bind in H3.
  destruct (apply_accepted record market) as [[]]; [by eauto|done].
Qed.

(** The messages up to now, in order. *)
Definition shown (sent : list Message) : Prop :=
  forall i m, sent !! i = Some m -> shows_at (Nat.min (S i) (length records)) m.

Lemma shown_snoc sent m : shown sent -> shows_at (Nat.min (S (length sent)) (length records)) m -> shown (sent ++ [m]).
Proof using.
  intros H Hm i x. rewrite lookup_app_Some. intros [Hi|[Hi Hx]]; [by apply H|].
  destruct (i - length sent)%nat eqn:E; [|done]. injection Hx as <-. by replace i with (length sent) by lia.
Qed.

Lemma quiet_rounds speed k : pauses_fit speed -> (exists r, (rebuild_to_record records (length records)).1 = Ok r) ->
  forall status index generation market rejected time sent,
  let n := Nat.min (length sent) (length records) in
  status = Running \/ status = Complete /\ n = length records -> place n market rejected time -> shown sent ->
  let s := rounds records k (quiet speed status index generation market n rejected time sent) in
  length (sv_sent s) = (length sent + k)%nat /\ shown (sv_sent s) /\ sv_connected s = true.
Proof using.
  intros Hfit Hall. induction k as [|k IH]; intros status index generation market rejected time sent n Hs Hp Hsent; cbn [rounds].
  { cbn. by rewrite Nat.add_0_r. }
  destruct (records !! n) as [record|] eqn:Hr.
  - pose proof (lookup_lt_Some _ _ _ Hr) as Hlt. destruct Hs as [-> |[_ Hs]]; [|lia].
    destruct (applied_next n record market rejected time Hr Hp Hall) as (accepted & market' & Ha).
    destruct (quiet_record speed index generation market n rejected time sent record accepted market' Hfit) as [c ->];
      [by destruct Hp as (_ & _ & ->)|done|done|].
    pose proof (place_next _ _ _ _ _ _ _ Hr Hp Ha) as Hp'. set (m := {| msg_market := market' |}).
    assert (S n = Nat.min (length (sent ++ [m])) (length records)) as E by (rewrite length_app; cbn; lia).
    rewrite E. edestruct IH as (H1 & H2 & H3); [by left|by rewrite <- E| |].
    { apply shown_snoc; [done|]. replace (Nat.min (S (length sent)) (length records)) with (S n) by lia. exact Hp'. }
    split; [|by split]. rewrite H1, length_app. cbn. lia.
  - apply lookup_ge_None in Hr. assert (n = length records) as Hn by lia.
    destruct (quiet_complete speed status index generation market n rejected time sent) as [c ->];
      [destruct Hs as [|[]]; auto|by apply lookup_ge_None|].
    set (m := {| msg_market := market |}).
    assert (n = Nat.min (length (sent ++ [m])) (length records)) as E by (rewrite length_app; cbn; lia).
    rewrite E. destruct (IH Complete index (u64 (generation + 1)) market rejected time (sent ++ [m])) as (H1 & H2 & H3);
      [right; split; [done|lia]|by rewrite <- E| |].
    { apply shown_snoc; [done|]. replace (Nat.min (S (length sent)) (length records)) with n by lia. exact Hp. }
    split; [|by split]. rewrite H1, length_app. cbn. lia.
Qed.
End Server.

(** C29: the server shows what was recorded.  Whatever the client commands and
    whenever its commands arrive, every message shows the market as it is after
    some number of records from the start, with the rejections among them and the
    time of the last.  Without commands, at any speed whose pauses fit 64 bits and if
    every record applies without an exception, the [i]-th message shows the market
    after [i] records, one message a round; and the rounds do not stop at the end,
    where the last message is sent again and again. *)
Theorem server_shows_recording records speed schedule n s : connect records speed schedule = Ok s ->
  let s' := rounds records n s in
  Forall (shows records) (sv_sent s') /\
  (schedule = [] -> pauses_fit records speed -> (exists r, (rebuild_to_record records (length records)).1 = Ok r) ->
   length (sv_sent s') = n /\
   forall i m, sv_sent s' !! i = Some m -> shows_at records (Nat.min (S i) (length records)) m).
Proof.
  intros Hc s'. split; [by eapply rounds_show, connect_in_place|]. intros -> Hfit Hall. unfold connect, new_controller in Hc.
  destruct (validate_speed speed); [|done]. apply (inj Ok) in Hc as <-.
  destruct (quiet_rounds records speed n Hfit Hall Running 0 1 ∅ 0 0 []) as (H1 & H2 & _); [by left|split; [cbn; lia|done]|by intros i m ?|].
  split; [exact H1|exact H2].
Qed.

(** ** Examples *)

Definition demo_records : list MarketRecord := entry_record <$> demo_entries ++ [demo_last].

(** The client goes back by time in the third round and to the end in the fourth. *)
Definition demo_schedule : list (list ClientEvent) :=
  let seek t i := ClientCommand {| rc_type := t; rc_speed := dzero; rc_record_index := i; rc_timestamp_ns := 120 |} in
  replicate 19 [] ++ [[seek SeekTimestamp 0]] ++ replicate 10 [] ++ [[seek SeekRecord 9]].

(** At the speed that the server starts with. *)
Lemma demo_pauses_fit : pauses_fit demo_records (dbl 1).
Proof.
  right. intros n record Hr Hp. pose proof (lookup_lt_Some _ _ _ Hr) as Hn.
  assert (forallb (fun n => match demo_records !! n with
    | Some r => match to_u64 (ddiv (dbl (mr_timestamp r - previous_of demo_records n)) (dbl 1)) with Ok _ => true | Throw _ => false end
    | None => false end) (seq 0 (length demo_records)) = true) as HF by (vm_compute; reflexivity).
  rewrite forallb_forall in HF. specialize (HF n ltac:(apply in_seq; lia)). rewrite Hr in HF.
  destruct (to_u64 _) as [z|]; [by exists z|done].
Qed.

Lemma server_shows_recording_witness :
  exists s, connect demo_records (dbl 1) [] = Ok s /\ length (sv_sent (rounds demo_records 5 s)) = 5%nat.
Proof.
  destruct (connect demo_records (dbl 1) []) as [s|e] eqn:E; [|vm_compute in E; discriminate].
  exists s. split; [done|]. eapply (server_shows_recording demo_records (dbl 1) [] 5 s E); [done|exact demo_pauses_fit|].
  eexists. vm_compute. reflexivity.
Defined.

Example seeks_show_prefixes : exists s, connect demo_records dzero demo_schedule = Ok s /\
  msg_timestamp <$> sv_sent (rounds demo_records 4 s) = [100; 120; 120; 130].
Proof. eexists. split; [vm_compute; reflexivity|]. vm_compute. reflexivity. Qed.
