(* ===== verification/Tca.v ===== *)
(** * Transaction cost analysis ([tca.hpp], [tca.cpp], [execution_analytics.cpp])

    What an execution cost against its arrival price, in total and by venue.  The
    definitions are written over any arithmetic: the instance for doubles is the
    program, the one for rationals the reference in which costs add up. *)

From S2P Require Import Prelude.
From S2P Require Import SortedMap.
From S2P Require Import Float.
From S2P Require Import Arithmetic.
From S2P Require Import Oms.
From S2P Require Import Router.

(** [std::less<std::string>] *)
Definition string_lt : string -> string -> bool := String.ltb.

Section Tca.
Context {N : Type} `{Arithmetic N}.

(** The parts of a request and of a plan that the analysis reads. *)
Record TcaRequest := { tr_side : RouteSide; tr_quantity : N }.
Record PlannedLeg := { lg_effective : N; lg_quantity : N }.

Record ExecutionFill := {
  ef_order_id : Z; ef_venue : string; ef_price : N; ef_quantity : N; ef_fee : N; ef_timestamp : Z
}.

Record VenueTca := {
  vt_venue : string; vt_filled : N; vt_notional : N; vt_fees : N; vt_average : N;
  vt_arrival_slippage : N; vt_vwap_slippage : N
}.

Record TcaReport := {
  tc_side : RouteSide; tc_ordered : N; tc_filled : N; tc_unfilled : N; tc_fill_rate : N;
  tc_average : N; tc_arrival : N; tc_vwap : N; tc_ending : N; tc_notional : N; tc_fees : N;
  tc_arrival_slippage : N; tc_vwap_slippage : N; tc_realized : N; tc_opportunity : N;
  tc_shortfall : N; tc_shortfall_bps : N; tc_regret : N; tc_regret_bps : N; tc_venues : list VenueTca
}.

Record VenueAccumulator := { va_quantity : N; va_notional : N; va_fees : N }.

Definition require_positive_finite (value : N) (name : string) : result unit :=
  guard_or (nfinite value && negb (nle value nzero))
    (invalid_argument (name +:+ " must be positive and finite")).

Definition price_difference (side : RouteSide) (actual reference : N) : N :=
  match side with RouteBuy => nsub actual reference | RouteSell => nsub reference actual end.

Definition signed_price_cost (side : RouteSide) (actual reference quantity : N) : N :=
  nmul (price_difference side actual reference) quantity.

Definition signed_slippage_bps (side : RouteSide) (actual reference : N) : N :=
  if nle reference nzero then nzero
  else nmul (ndiv (price_difference side actual reference) reference) (nof 10000).

(** ** The loop over the fills *)

Definition empty_accumulator : VenueAccumulator := {| va_quantity := nzero; va_notional := nzero; va_fees := nzero |}.

Definition accumulate (f : ExecutionFill) (a : VenueAccumulator) : VenueAccumulator := {|
  va_quantity := nadd (va_quantity a) (ef_quantity f);
  va_notional := nadd (va_notional a) (nmul (ef_price f) (ef_quantity f));
  va_fees := nadd (va_fees a) (ef_fee f) |}.

Definition check_fill (ordered filled : N) (f : ExecutionFill) : result unit :=
  _ ← require_positive_finite (ef_price f) "fill price";
  _ ← require_positive_finite (ef_quantity f) "fill quantity";
  _ ← guard_or (nfinite (ef_fee f) && negb (nlt (ef_fee f) nzero))
        (invalid_argument "fill fee must be non-negative and finite");
  _ ← guard_or (negb (bool_decide (ef_venue f = "")))
        (invalid_argument "fill venue must not be empty");
  guard_or (negb (nlt (nadd ordered ntiny) (nadd filled (ef_quantity f))))
    (invalid_argument "filled quantity exceeds ordered quantity").

(** The totals are an accumulator of their own. *)
Fixpoint fills_loop (ordered : N) (fs : list ExecutionFill) (total : VenueAccumulator)
    (venues : smap string VenueAccumulator) : result (VenueAccumulator * smap string VenueAccumulator) :=
  match fs with
  | [] => Ok (total, venues)
  | f :: fs =>
      _ ← check_fill ordered (va_quantity total) f;
      let venue := default empty_accumulator (sm_lookup string_lt (ef_venue f) venues) in
      fills_loop ordered fs (accumulate f total) (sm_insert string_lt (ef_venue f) (accumulate f venue) venues)
  end.

(** ** The report *)

(** The planned notional and quantity. *)
Definition planned (legs : list PlannedLeg) : N * N :=
  foldl (fun p leg =>
    if negb (nfinite (lg_quantity leg)) || nle (lg_quantity leg) nzero ||
       negb (nfinite (lg_effective leg)) || nle (lg_effective leg) nzero
    then p
    else (nadd p.1 (nmul (lg_effective leg) (lg_quantity leg)), nadd p.2 (lg_quantity leg)))
    (nzero, nzero) legs.

Definition routing_regret (side : RouteSide) (legs : list PlannedLeg) (average filled fees : N) : N * N :=
  let (notional, quantity) := planned legs in
  if nlt ntiny quantity && nlt ntiny filled
  then
    let planned_average := ndiv notional quantity in
    let regret := nadd (signed_price_cost side average planned_average filled) fees in
    (regret, nmul (ndiv regret (nmul planned_average filled)) (nof 10000))
  else (nzero, nzero).

Definition venue_report (side : RouteSide) (arrival vwap : N) (e : string * VenueAccumulator) : VenueTca :=
  let average := ndiv (va_notional e.2) (va_quantity e.2) in {|
  vt_venue := e.1; vt_filled := va_quantity e.2; vt_notional := va_notional e.2; vt_fees := va_fees e.2;
  vt_average := average; vt_arrival_slippage := signed_slippage_bps side average arrival;
  vt_vwap_slippage := signed_slippage_bps side average vwap |}.

Definition tca_report (r : TcaRequest) (legs : list PlannedLeg) (arrival vwap ending : N)
    (total : VenueAccumulator) (venues : smap string VenueAccumulator) : TcaReport :=
  let side := tr_side r in
  let filled := va_quantity total in
  let unfilled := nmax nzero (nsub (tr_quantity r) filled) in
  let some := nlt ntiny filled in
  let average := if some then ndiv (va_notional total) filled else nzero in
  let realized := nadd (signed_price_cost side average arrival filled) (va_fees total) in
  let opportunity := signed_price_cost side ending arrival unfilled in
  let shortfall := nadd realized opportunity in
  let regret := routing_regret side legs average filled (va_fees total) in {|
  tc_side := side; tc_ordered := tr_quantity r; tc_filled := filled; tc_unfilled := unfilled;
  tc_fill_rate := ndiv filled (tr_quantity r); tc_average := average; tc_arrival := arrival;
  tc_vwap := vwap; tc_ending := ending; tc_notional := va_notional total; tc_fees := va_fees total;
  tc_arrival_slippage := if some then signed_slippage_bps side average arrival else nzero;
  tc_vwap_slippage := if some then signed_slippage_bps side average vwap else nzero;
  tc_realized := realized; tc_opportunity := opportunity; tc_shortfall := shortfall;
  tc_shortfall_bps := nmul (ndiv shortfall (nmul (tr_quantity r) arrival)) (nof 10000);
  tc_regret := regret.1; tc_regret_bps := regret.2;
  tc_venues := venue_report side arrival vwap <$> venues |}.

Definition analyze_execution (r : TcaRequest) (legs : list PlannedLeg) (fs : list ExecutionFill)
    (arrival vwap ending : N) : result TcaReport :=
  _ ← require_positive_finite (tr_quantity r) "ordered quantity";
  _ ← require_positive_finite arrival "arrival price";
  _ ← require_positive_finite vwap "market VWAP";
  _ ← require_positive_finite ending "ending price";
  t ← fills_loop (tr_quantity r) fs empty_accumulator [];
  Ok (tca_report r legs arrival vwap ending t.1 t.2).

End Tca.
Arguments ExecutionFill N : clear implicits.
Arguments TcaRequest N : clear implicits.
Arguments PlannedLeg N : clear implicits.
Arguments TcaReport N : clear implicits.
Arguments VenueAccumulator N : clear implicits.
Arguments VenueTca N : clear implicits.

(** ** The quality of a parent order *)

Record ExecutionQuality := {
  eq_parent_id : Z; eq_symbol : string; eq_report : TcaReport double; eq_adjusted_bps : double
}.

Definition tca_fill (r : OmsExecutionReport) : ExecutionFill double := {|
  ef_order_id := xr_child_id r; ef_venue := xr_venue r; ef_price := xr_price r; ef_quantity := xr_quantity r;
  ef_fee := xr_fee r; ef_timestamp := xr_timestamp r |}.

Definition plan_legs (legs : list RouteLeg) : list (PlannedLeg double) :=
  (fun l => {| lg_effective := leg_effective_price l; lg_quantity := leg_quantity l |}) <$> legs.

Definition analyze (parent : ParentOrder) (legs : list RouteLeg) (fills : list OmsExecutionReport)
    (arrival vwap ending : double) : result ExecutionQuality :=
  tca ← analyze_execution {| tr_side := po_side parent; tr_quantity := po_quantity parent |} (plan_legs legs)
          (tca_fill <$> fills) arrival vwap ending;
  Ok {| eq_parent_id := po_id parent; eq_symbol := po_symbol parent; eq_report := tca;
        eq_adjusted_bps := tc_shortfall_bps tca |}.

(** The price of the first fill where there is no arrival price. *)
Definition reference_price (arrival : double) (fills : list OmsExecutionReport) : double :=
  let price :=
    if dle arrival dzero
    then default arrival (xr_price <$> head (filter (fun f => dgt (xr_price f) dzero = true) fills))
    else arrival in
  if dle price dzero then dbl 1 else price.

Definition analyze_parent (parent : ParentOrder) (fills : list OmsExecutionReport) (arrival : double)
    : result ExecutionQuality :=
  let price := reference_price arrival fills in analyze parent [] fills price price price.

(** ** Costs add up *)

(** ** The order of strings *)

Lemma string_lt_spec x y : string_lt x y = true <-> String.leb x y = true /\ x <> y.
Proof.
  unfold string_lt, String.ltb, String.leb. destruct (String.compare x y) eqn:E.
  - apply String.compare_eq_iff in E as ->. naive_solver.
  - split; [|done]. intros _. split; [done|]. intros ->.
    pose proof (String.compare_antisym y y) as F. by rewrite E in F.
  - naive_solver.
Qed.

#[export] Instance string_order : StrictOrderOn (fun _ => True) string_lt.
Proof.
  split.
  - intros k _. destruct (string_lt k k) eqn:E; [|done]. apply string_lt_spec in E as []. done.
  - intros i j k _ _ _ [H1 N1]%string_lt_spec [H2 N2]%string_lt_spec. apply string_lt_spec.
    assert (String.leb i k = true) as H3.
    { apply Is_true_true. exact (transitivity (R := String.le) (proj2 (Is_true_true _) H1) (proj2 (Is_true_true _) H2)). }
    split; [done|]. intros ->. apply N2. by apply String.leb_antisym.
  - intros i j _ _ H1 H2. destruct (decide (i = j)) as [|Hne]; [done|].
    destruct (String.leb_total i j) as [H|H].
    + assert (string_lt i j = true) by (by apply string_lt_spec). congruence.
    + assert (string_lt j i = true) by (apply string_lt_spec; split; congruence). congruence.
Qed.

(** ** Totals *)

Notation Fill := (ExecutionFill Q).

Definition notional_of (f : Fill) : Q := (ef_price f * ef_quantity f)%Q.

(** An accumulator holds the sums over some fills. *)
Definition sums (fs : list Fill) (a : VenueAccumulator Q) : Prop :=
  (va_quantity a == sumQ (ef_quantity <$> fs))%Q /\ (va_notional a == sumQ (notional_of <$> fs))%Q /\
  (va_fees a == sumQ (ef_fee <$> fs))%Q.

Lemma sums_accumulate fs f a : sums fs a -> sums (fs ++ [f]) (accumulate f a).
Proof.
  intros (H1 & H2 & H3). unfold sums, accumulate. cbn [va_quantity va_notional va_fees nadd nmul Q_arithmetic].
  rewrite !fmap_app. cbn [fmap list_fmap]. rewrite !sumQ_snoc, H1, H2, H3. done.
Qed.

Lemma sums_empty : sums [] empty_accumulator.
Proof. done. Qed.

Definition at_venue (v : string) (fs : list Fill) : list Fill := filter (fun f => ef_venue f = v) fs.

Lemma at_venue_snoc v fs f : at_venue v (fs ++ [f]) = at_venue v fs ++ if decide (ef_venue f = v) then [f] else [].
Proof. unfold at_venue. by rewrite filter_app. Qed.

Lemma all_keys {V} (m : smap string V) : sm_keys (fun _ => True) m.
Proof. unfold sm_keys. by apply Forall_true. Qed.

(** The map has the sums of each venue that occurs, in order of the names. *)
Record venues_ok (fs : list Fill) (m : smap string (VenueAccumulator Q)) : Prop := {
  vo_sorted : sm_sorted string_lt m;
  vo_lookup v : match sm_lookup string_lt v m with
                | Some a => at_venue v fs <> [] /\ sums (at_venue v fs) a
                | None => at_venue v fs = []
                end
}.

Lemma venues_ok_step fs f m : venues_ok fs m ->
  venues_ok (fs ++ [f]) (sm_insert string_lt (ef_venue f)
    (accumulate f (default empty_accumulator (sm_lookup string_lt (ef_venue f) m))) m).
Proof.
  intros [H1 H2]. pose proof (all_keys m) as Hk. split.
  { eapply (sm_sorted_insert (P := fun _ => True)); [done|done|done]. }
  intros v. rewrite at_venue_snoc. destruct (decide (ef_venue f = v)) as [<-|Hne].
  - rewrite (sm_lookup_insert_eq (P := fun _ => True)) by done. split; [by destruct (at_venue _ fs)|].
    apply sums_accumulate. specialize (H2 (ef_venue f)).
    destruct (sm_lookup string_lt (ef_venue f) m); cbn; [apply H2|]. rewrite H2. apply sums_empty.
  - rewrite (sm_lookup_insert_ne (P := fun _ => True)) by done. rewrite app_nil_r. apply H2.
Qed.

(** A sum over the entries of a map. *)
Definition map_sum {V} (g : V -> Q) (m : smap string V) : Q := sumQ (g <$> m.*2).

Lemma map_sum_cons {V} (g : V -> Q) e (m : smap string V) : map_sum g (e :: m) = (g e.2 + map_sum g m)%Q.
Proof. done. Qed.

Lemma map_sum_insert {V} (g : V -> Q) k v zero (m : smap string V) : sm_sorted string_lt m -> (g zero == 0)%Q ->
  (map_sum g (sm_insert string_lt k v m) == map_sum g m + (g v - g (default zero (sm_lookup string_lt k m))))%Q.
Proof.
  intros _ Hz. induction m as [|[k' v'] m IH]; cbn [sm_insert sm_lookup].
  - rewrite map_sum_cons. cbn. rewrite Hz. ring.
  - destruct (string_lt k k'); [rewrite !map_sum_cons; cbn; rewrite Hz; ring|].
    destruct (string_lt k' k); rewrite !map_sum_cons; cbn [snd].
    + rewrite IH. ring.
    + cbn. ring.
Qed.

(** The venues share the totals. *)
Definition shared (total : VenueAccumulator Q) (m : smap string (VenueAccumulator Q)) : Prop :=
  (map_sum va_quantity m == va_quantity total)%Q /\ (map_sum va_notional m == va_notional total)%Q /\
  (map_sum va_fees m == va_fees total)%Q.

Lemma shared_step f total m : sm_sorted string_lt m -> shared total m ->
  shared (accumulate f total) (sm_insert string_lt (ef_venue f)
    (accumulate f (default empty_accumulator (sm_lookup string_lt (ef_venue f) m))) m).
Proof.
  intros Hs (H1 & H2 & H3). unfold shared. rewrite !(map_sum_insert _ _ _ empty_accumulator) by done.
  rewrite H1, H2, H3. unfold accumulate. cbn [va_quantity va_notional va_fees nadd nmul Q_arithmetic].
  split_and!; ring.
Qed.

(** ** The loop *)

(** What the checks of a fill leave. *)
Definition fill_ok (f : Fill) : Prop :=
  (0 < ef_price f)%Q /\ (0 < ef_quantity f)%Q /\ (0 <= ef_fee f)%Q /\ ef_venue f <> ""%string.

Lemma guard_ok b e u : guard_or b e = Ok u -> b = true.
Proof. unfold guard_or. by destruct b. Qed.

Lemma guard_bind {A} b e (k : unit -> result A) x : (guard_or b e ≫= k) = Ok x -> b = true /\ k tt = Ok x.
Proof. unfold guard_or. by destruct b. Qed.

Lemma positive_ok (x : Q) : nfinite x && negb (nle x nzero) = true -> (0 < x)%Q.
Proof.
  cbn. intros H. apply Qnot_le_lt. intros Hle%Qle_bool_iff. by rewrite Hle in H.
Qed.

Lemma check_fill_ok ordered filled f u : check_fill ordered filled f = Ok u ->
  fill_ok f /\ (filled + ef_quantity f <= ordered + ntiny)%Q.
Proof.
  unfold check_fill, require_positive_finite. intros [H1%positive_ok H]%guard_bind.
  apply guard_bind in H as [H2%positive_ok H]. apply guard_bind in H as [H3 H].
  apply guard_bind in H as [H4 H%guard_ok]. cbn in H3. rewrite negb_true_iff in H3, H4, H.
  apply Q_lt_false in H3, H. apply bool_decide_eq_false_1 in H4. done.
Qed.

Lemma fills_loop_ok ordered gs : forall fs total m total' m',
  fills_loop ordered gs total m = Ok (total', m') -> sums fs total -> venues_ok fs m -> shared total m ->
  Forall fill_ok gs /\ sums (fs ++ gs) total' /\ venues_ok (fs ++ gs) m' /\ shared total' m' /\
  (va_quantity total <= ordered + ntiny -> va_quantity total' <= ordered + ntiny)%Q.
Proof.
  induction gs as [|f gs IH]; intros fs total m total' m'; cbn [fills_loop].
  - intros [= <- <-] H1 H2 H3. rewrite app_nil_r. done.
  - intros H Hs Hv Hm. destruct (check_fill ordered (va_quantity total) f) as [u|] eqn:E; [|done].
    apply check_fill_ok in E as [F1 F2]. cbn [mbind result_bind] in H.
    apply (IH (fs ++ [f])) in H as (H1 & H2 & H3 & H4 & H5);
      [|by apply sums_accumulate|by apply venues_ok_step|apply shared_step; [apply Hv|done]].
    rewrite <- app_assoc in *. split; [by constructor|]. split; [done|]. split; [done|]. split; [done|].
    intros _. by apply H5.
Qed.

(** ** The analysis *)

(** The costs of an execution in cash: what was paid, or received, and what the
    rest is worth at the end, against the value of the order at its arrival. *)
Definition paid (side : RouteSide) (fs : list Fill) (unfilled ending : Q) : Q :=
  match side with
  | RouteBuy => sumQ (notional_of <$> fs) + sumQ (ef_fee <$> fs) + ending * unfilled
  | RouteSell => - sumQ (notional_of <$> fs) + sumQ (ef_fee <$> fs) - ending * unfilled
  end.

Definition worth (side : RouteSide) (ordered arrival : Q) : Q :=
  match side with RouteBuy => arrival * ordered | RouteSell => - (arrival * ordered) end.

Lemma report_costs (r : TcaRequest Q) legs fs arrival vwap ending total m : sums fs total ->
  (sumQ (ef_quantity <$> fs) <= tr_quantity r)%Q -> (ntiny < sumQ (ef_quantity <$> fs))%Q \/ fs = [] ->
  let t := tca_report r legs arrival vwap ending total m in
  (tc_shortfall t == paid (tr_side r) fs (tc_unfilled t) ending - worth (tr_side r) (tr_quantity r) arrival)%Q /\
  (tc_unfilled t == tr_quantity r - sumQ (ef_quantity <$> fs))%Q.
Proof.
  intros (H1 & H2 & H3) Hle Hf t.
  assert (tc_unfilled t == tr_quantity r - sumQ (ef_quantity <$> fs))%Q as Hu.
  { unfold t, tca_report, nmax. cbn. qcase; rewrite ?H1; lra. }
  split; [|exact Hu]. unfold t, tca_report in *. cbn [tc_shortfall tc_unfilled] in *.
  set (u := nmax _ _) in *. clearbody u. unfold signed_price_cost, price_difference, paid, worth.
  cbn [nadd nsub nmul ndiv nlt nzero ntiny Q_arithmetic] in *.
  destruct Hf as [Hf| ->].
  - rewrite (proj2 (Q_lt_true _ _)) by (by rewrite H1). rewrite <- H1 in Hu, Hf.
    assert (~ va_quantity total == 0)%Q by lra.
    destruct (tr_side r); rewrite <- H2, <- H3, Hu; field; done.
  - cbn in H1, H2, H3, Hu. rewrite (proj2 (Q_lt_false _ _)) by (rewrite H1; done).
    destruct (tr_side r); rewrite H1, H3, Hu; cbn; ring.
Qed.

(** The part of a venue: the sums over its fills, at their average price. *)
Definition venue_part (fs : list Fill) (v : VenueTca Q) : Prop :=
  let part := at_venue (vt_venue v) fs in
  part <> [] /\ (vt_filled v == sumQ (ef_quantity <$> part))%Q /\ (vt_notional v == sumQ (notional_of <$> part))%Q /\
  (vt_fees v == sumQ (ef_fee <$> part))%Q /\ (vt_average v * vt_filled v == vt_notional v)%Q.

Lemma sumQ_positive (l : list Q) : l <> [] -> Forall (fun x => 0 < x)%Q l -> (0 < sumQ l)%Q.
Proof.
  intros Hne H. destruct H as [|x l Hx Hl]; [done|]. rewrite sumQ_cons.
  assert (0 <= sumQ l)%Q; [|lra]. clear Hne. induction Hl as [|y l Hy Hl IH]; [done|]. rewrite sumQ_cons. lra.
Qed.

Lemma venue_report_part side arrival vwap fs m e : Forall fill_ok fs -> venues_ok fs m -> e ∈ m ->
  venue_part fs (venue_report side arrival vwap e).
Proof.
  intros Hf [H1 H2] He. destruct e as [v a]. specialize (H2 v).
  rewrite (sm_elem_lookup (P := fun _ => True) v a) in H2 by (done || apply all_keys). destruct H2 as [Hne (S1 & S2 & S3)].
  unfold venue_part, venue_report. cbn [vt_venue vt_filled vt_notional vt_fees vt_average fst snd ndiv Q_arithmetic].
  split_and!; try done. field. rewrite S1.
  assert (0 < sumQ (ef_quantity <$> at_venue v fs))%Q; [|lra]. apply sumQ_positive; [by destruct (at_venue v fs)|].
  apply Forall_fmap, Forall_forall. intros f Hin. unfold at_venue in Hin. apply list_elem_of_filter in Hin as [_ Hin].
  rewrite Forall_forall in Hf. apply (Hf f Hin).
Qed.

(** C30: costs add up, in exact arithmetic.  When an analysis returns, every fill
    was valid and the fills are within the order; its totals are the sums over the
    fills; the venues, in order of their names, are those of the fills, each with
    its own sums and average price, and share the totals; and the implementation
    shortfall is what the execution cost in cash, fees and the rest at the ending
    price included, beyond the value of the order at the arrival price. *)
Theorem costs_add_up (r : TcaRequest Q) legs fs arrival vwap ending t :
  analyze_execution r legs fs arrival vwap ending = Ok t ->
  let filled := sumQ (ef_quantity <$> fs) in
  Forall fill_ok fs /\ (filled <= tr_quantity r + ntiny)%Q /\
  (tc_filled t == filled /\ tc_notional t == sumQ (notional_of <$> fs) /\ tc_fees t == sumQ (ef_fee <$> fs))%Q /\
  StronglySorted (fun v w => string_lt (vt_venue v) (vt_venue w) = true) (tc_venues t) /\
  Forall (venue_part fs) (tc_venues t) /\
  (forall f, f ∈ fs -> exists v, v ∈ tc_venues t /\ vt_venue v = ef_venue f) /\
  (sumQ (vt_filled <$> tc_venues t) == filled /\ sumQ (vt_notional <$> tc_venues t) == tc_notional t /\
   sumQ (vt_fees <$> tc_venues t) == tc_fees t)%Q /\
  ((filled <= tr_quantity r)%Q -> (ntiny < filled)%Q \/ fs = [] ->
   (tc_unfilled t == tr_quantity r - filled)%Q /\
   (tc_shortfall t == paid (tr_side r) fs (tc_unfilled t) ending - worth (tr_side r) (tr_quantity r) arrival)%Q).
Proof.
  unfold analyze_execution, require_positive_finite. intros H.
  apply guard_bind in H as [Hq%positive_ok H]. do 3 apply guard_bind in H as [_ H].
  destruct (fills_loop (tr_quantity r) fs empty_accumulator []) as [[total m]|] eqn:E; [|done].
  cbn [mbind result_bind fst snd] in H. apply (inj Ok) in H as <-.
  apply (fills_loop_ok _ _ []) in E as (H1 & H2 & H3 & H4 & H5); [|done|by split; [constructor|]|done].
  cbn [app] in *. pose proof H2 as (S1 & S2 & S3). pose proof H4 as (M1 & M2 & M3).
  unfold map_sum in M1, M2, M3. rewrite <- !list_fmap_compose in M1, M2, M3.
  cbn [tca_report tc_filled tc_notional tc_fees tc_venues] in *. rewrite <- !list_fmap_compose.
  split; [done|]. split; [rewrite <- S1; apply H5; cbn in *; lra|]. split; [done|].
  split; [|split; [|split; [|split]]].
  - pose proof (vo_sorted _ _ H3) as Hs. unfold sm_sorted in Hs. clear -Hs. induction m as [|e m IH]; [constructor|].
    cbn in *. apply StronglySorted_inv in Hs as [Hs He]. constructor; [by apply IH|].
    apply Forall_fmap. apply Forall_fmap in He. exact He.
  - apply Forall_fmap, Forall_forall. intros e He. by eapply venue_report_part.
  - intros f Hf. pose proof (vo_lookup _ _ H3 (ef_venue f)) as Hv.
    destruct (sm_lookup string_lt (ef_venue f) m) as [a|] eqn:L.
    + apply (sm_lookup_elem (P := fun _ => True)) in L; [|done|apply all_keys].
      eexists. split; [by apply list_elem_of_fmap_2|done].
    + exfalso. assert (f ∈ at_venue (ef_venue f) fs) as Hin by by apply list_elem_of_filter.
      rewrite Hv in Hin. by apply elem_of_nil in Hin.
  - split; [by rewrite <- S1|]. by split.
  - intros Hle Hne. by apply and_comm, report_costs.
Qed.

(** ** Example *)

Definition demo_fills : list Fill :=
  let fill v p q f := {| ef_order_id := 1; ef_venue := v; ef_price := p; ef_quantity := q; ef_fee := f; ef_timestamp := 1 |} in
  [fill "B" 101 2 (1 # 10); fill "A" 102 3 (2 # 10); fill "B" 100 1 0]%Q.

Lemma costs_add_up_witness : exists t : TcaReport Q,
  analyze_execution {| tr_side := RouteBuy; tr_quantity := 10%Q |} [] demo_fills 100%Q 100%Q 103%Q = Ok t /\
  (tc_shortfall t == (202 + 306 + 100) + (3 # 10) + 103 * 4 - 1000)%Q.
Proof.
  destruct (analyze_execution {| tr_side := RouteBuy; tr_quantity := 10%Q |} [] demo_fills 100%Q 100%Q 103%Q) as [t|] eqn:E;
    [|vm_compute in E; discriminate].
  exists t. split; [done|]. destruct (costs_add_up _ _ _ _ _ _ _ E) as (_ & _ & _ & _ & _ & _ & _ & H).
  destruct H as [H1 H2]; [by vm_compute|left; by vm_compute|]. rewrite H2. unfold paid, worth. cbn [tr_side tr_quantity].
  rewrite H1. by vm_compute.
Defined.
