(* ===== verification/DropCopy.v ===== *)
(** * Drop copy ([drop_copy.hpp], [drop_copy.cpp])

    Every event is inserted in a table of SQLite and kept, newest first, in a
    bounded cache with an index by order.  SQLite is a parameter: the class
    [EventTable] holds the four statements the code executes, [EventTableLaws]
    what its documentation says of them. *)

From stdpp Require Import gmap.
From S2P Require Import Prelude.

(** ** The rows of the table *)

Record DropCopyEvent := {
  dc_id : Z; dc_timestamp : Z; dc_order_id : Z; dc_symbol : Z; dc_type : string; dc_status : string;
  dc_remaining : Z; dc_reason : Z
}.

Record Row := {
  row_id : Z; row_timestamp : Z; row_order : Z; row_symbol : Z; row_type : string; row_status : string;
  row_remaining : Z; row_reason : Z
}.

(** [static_cast<sqlite3_int64>] *)
Definition to_int64 (z : Z) : Z := (z + 2 ^ 63) mod 2 ^ 64 - 2 ^ 63.

(** A text bound with length -1 ends before its first zero byte. *)
Fixpoint c_text (s : string) : string :=
  match s with
  | EmptyString => EmptyString
  | String c s => if Ascii.eqb c Ascii.zero then EmptyString else String c (c_text s)
  end.

Definition bind_event (e : DropCopyEvent) : Row := {|
  row_id := to_int64 (dc_id e); row_timestamp := to_int64 (dc_timestamp e);
  row_order := to_int64 (dc_order_id e); row_symbol := to_int64 (dc_symbol e);
  row_type := c_text (dc_type e); row_status := c_text (dc_status e);
  row_remaining := to_int64 (dc_remaining e); row_reason := dc_reason e |}.

Definition column_event (r : Row) : DropCopyEvent := {|
  dc_id := u64 (row_id r); dc_timestamp := u64 (row_timestamp r); dc_order_id := u64 (row_order r);
  dc_symbol := u32 (row_symbol r); dc_type := row_type r; dc_status := row_status r;
  dc_remaining := u32 (row_remaining r); dc_reason := u8 (row_reason r) |}.

(** ** The statements

    A failure carries the message of SQLite; an insertion can fail when it is
    prepared and when it is executed. *)

Inductive InsertFailure := AtPrepare (message : string) | AtStep (message : string).

Class EventTable (DB : Type) := {
  create_schema : DB -> string + DB;
  insert_row : Row -> DB -> InsertFailure + DB;
  (** [ORDER BY id DESC LIMIT ?] *)
  newest_rows : Z -> DB -> string + list Row;
  (** [WHERE order_id = ? ORDER BY id ASC] *)
  order_rows : Z -> DB -> string + list Row
}.

(** The rows of a table by ascending id, and the statements in terms of them. *)
Class EventTableLaws (DB : Type) `{EventTable DB} := {
  rows : DB -> list Row;
  create_schema_rows db db' : create_schema db = inr db' -> rows db' = rows db;
  insert_row_rows r db db' : insert_row r db = inr db' ->
    Forall (fun r' => row_id r' < row_id r) (rows db) -> rows db' = rows db ++ [r];
  newest_rows_rows n db rs : 0 <= n -> newest_rows n db = inr rs ->
    rs = take (Z.to_nat n) (reverse (rows db));
  order_rows_rows order db rs : order_rows order db = inr rs ->
    rs = filter (fun r => row_order r = order) (rows db)
}.

Section DropCopy.
Context {DB : Type} `{EventTable DB}.

(** ** The store *)

Record DropCopyStore := {
  capacity_ : Z;
  events_ : list DropCopyEvent;
  events_by_order_ : gmap Z (list DropCopyEvent);
  incomplete_order_history_ : gset Z;
  next_id_ : Z;
  database_ : DB
}.

Definition set_cache (events : list DropCopyEvent) (index : gmap Z (list DropCopyEvent))
    (incomplete : gset Z) (s : DropCopyStore) : DropCopyStore := {|
  capacity_ := capacity_ s; events_ := events; events_by_order_ := index;
  incomplete_order_history_ := incomplete; next_id_ := next_id_ s; database_ := database_ s |}.

Definition set_next_id (id : Z) (s : DropCopyStore) : DropCopyStore := {|
  capacity_ := capacity_ s; events_ := events_ s; events_by_order_ := events_by_order_ s;
  incomplete_order_history_ := incomplete_order_history_ s; next_id_ := id; database_ := database_ s |}.

Definition set_database (db : DB) (s : DropCopyStore) : DropCopyStore := {|
  capacity_ := capacity_ s; events_ := events_ s; events_by_order_ := events_by_order_ s;
  incomplete_order_history_ := incomplete_order_history_ s; next_id_ := next_id_ s; database_ := db |}.

(** [events_by_order_\[event.order_id\].push_back(event)] *)
Definition push_order_event (e : DropCopyEvent) (index : gmap Z (list DropCopyEvent)) :
    gmap Z (list DropCopyEvent) :=
  <[dc_order_id e := default [] (index !! dc_order_id e) ++ [e]]> index.

(** ** Opening *)

Definition load_events (events : list DropCopyEvent) (s : DropCopyStore) : DropCopyStore :=
  let max_id := foldl (fun m e => Z.max m (dc_id e)) 0 events in
  let index := foldr push_order_event ∅ events in
  let incomplete := if capacity_ s <=? Z.of_nat (length events) then dom index else ∅ in
  set_cache events index incomplete (set_next_id (u64 (max_id + 1)) s).

Definition load_recent (s : DropCopyStore) : result DropCopyStore :=
  match newest_rows (to_int64 (capacity_ s)) (database_ s) with
  | inl message => Throw (runtime_error ("prepare drop-copy load: " +:+ message))
  | inr rs => Ok (load_events (column_event <$> rs) s)
  end.

Definition new_store (db : DB) (capacity : Z) : result DropCopyStore :=
  match create_schema db with
  | inl message => Throw (runtime_error message)
  | inr db =>
      load_recent {| capacity_ := Z.max 1 capacity; events_ := []; events_by_order_ := ∅;
                     incomplete_order_history_ := ∅; next_id_ := 1; database_ := db |}
  end.

(** ** Publishing *)

Definition persist (e : DropCopyEvent) : ST DropCopyStore unit := fun s =>
  match insert_row (bind_event e) (database_ s) with
  | inl (AtPrepare message) => (Throw (runtime_error ("prepare drop-copy insert: " +:+ message)), s)
  | inl (AtStep message) => (Throw (runtime_error ("insert drop-copy event: " +:+ message)), s)
  | inr db => (Ok tt, set_database db s)
  end.

(** [erase(begin())] or the erasure of what [find_if] finds. *)
Definition erase_event (id : Z) (es : list DropCopyEvent) : list DropCopyEvent :=
  match es with
  | e :: es' =>
      if dc_id e =? id then es'
      else match list_find (fun e => dc_id e = id) es with
           | Some (i, _) => delete i es
           | None => es
           end
  | [] => []
  end.

Definition erase_indexed (evicted : DropCopyEvent) (index : gmap Z (list DropCopyEvent)) :
    gmap Z (list DropCopyEvent) :=
  match index !! dc_order_id evicted with
  | None => index
  | Some es =>
      match erase_event (dc_id evicted) es with
      | [] => delete (dc_order_id evicted) index
      | es' => <[dc_order_id evicted := es']> index
      end
  end.

(** One turn of the loop: the last event leaves. *)
Definition evict (evicted : DropCopyEvent) (s : DropCopyStore) : DropCopyStore :=
  set_cache (removelast (events_ s)) (erase_indexed evicted (events_by_order_ s))
    ({[dc_order_id evicted]} ∪ incomplete_order_history_ s) s.

(** Each turn shortens the cache. *)
Fixpoint evict_loop (fuel : nat) (s : DropCopyStore) : DropCopyStore :=
  match fuel with
  | O => s
  | S fuel =>
      if capacity_ s <? Z.of_nat (length (events_ s))
      then match last (events_ s) with
           | Some evicted => evict_loop fuel (evict evicted s)
           | None => s
           end
      else s
  end.

Definition with_id (id : Z) (e : DropCopyEvent) : DropCopyEvent := {|
  dc_id := id; dc_timestamp := dc_timestamp e; dc_order_id := dc_order_id e; dc_symbol := dc_symbol e;
  dc_type := dc_type e; dc_status := dc_status e; dc_remaining := dc_remaining e; dc_reason := dc_reason e |}.

Definition remember (e : DropCopyEvent) (s : DropCopyStore) : DropCopyStore :=
  let s := set_cache (e :: events_ s) (push_order_event e (events_by_order_ s))
             (incomplete_order_history_ s) s in
  evict_loop (length (events_ s)) s.

Definition publish (e : DropCopyEvent) : ST DropCopyStore unit := fun s =>
  let e := with_id (next_id_ s) e in
  let s := set_next_id (u64 (next_id_ s + 1)) s in
  (_ ← persist e; modify (remember e)) s.

(** ** Reading *)

Definition recent (limit : Z) (s : DropCopyStore) : list DropCopyEvent :=
  take (Nat.min (Z.to_nat limit) (length (events_ s))) (events_ s).

Definition stored_events (order_id : Z) (s : DropCopyStore) : result (list DropCopyEvent) :=
  match order_rows (to_int64 order_id) (database_ s) with
  | inl message => Throw (runtime_error ("prepare drop-copy order lookup: " +:+ message))
  | inr rs => Ok (column_event <$> rs)
  end.

Definition events_for_order (order_id : Z) (s : DropCopyStore) : result (list DropCopyEvent) :=
  match events_by_order_ s !! order_id with
  | Some es =>
      if bool_decide (order_id ∈ incomplete_order_history_ s) then stored_events order_id s else Ok es
  | None => stored_events order_id s
  end.

End DropCopy.
Arguments DropCopyStore DB : clear implicits.
