(* ===== verification/DropCopyProps.v ===== *)
(** * The drop copy keeps every event

    The bounded cache answers as the table would: an invariant relates it to the
    history of the published events. *)

From stdpp Require Import gmap.
From S2P Require Import Prelude.
From S2P Require Import DropCopy.

(** ** Events in the table *)

(** The fields within their types, texts without zero bytes. *)
Record event_ok (e : DropCopyEvent) : Prop := {
  eo_id : 0 <= dc_id e < 2 ^ 63; eo_timestamp : in_u64 (dc_timestamp e); eo_order : in_u64 (dc_order_id e);
  eo_symbol : in_u32 (dc_symbol e); eo_remaining : in_u32 (dc_remaining e); eo_reason : 0 <= dc_reason e < 256;
  eo_type : c_text (dc_type e) = dc_type e; eo_status : c_text (dc_status e) = dc_status e
}.

Lemma u64_to_int64 z : in_u64 z -> u64 (to_int64 z) = z.
Proof.
  unfold in_u64, u64, to_int64. intros H. rewrite Zminus_mod_idemp_l.
  rewrite Z.add_simpl_r. by apply Z.mod_small.
Qed.

Lemma to_int64_inj x y : in_u64 x -> in_u64 y -> to_int64 x = to_int64 y -> x = y.
Proof. intros Hx Hy E. by rewrite <- (u64_to_int64 x), <- (u64_to_int64 y), E. Qed.

Lemma to_int64_small z : - 2 ^ 63 <= z < 2 ^ 63 -> to_int64 z = z.
Proof. intros H. unfold to_int64. rewrite Z.mod_small by lia. lia. Qed.

Lemma u32_to_int64 z : in_u32 z -> u32 (to_int64 z) = z.
Proof. unfold in_u32. intros H. rewrite to_int64_small by lia. by apply u32_small. Qed.

Lemma column_bind e : event_ok e -> column_event (bind_event e) = e.
Proof.
  intros [Hi Ht Ho Hs Hr Hc E1 E2]. unfold column_event, bind_event. destruct e. cbn in *.
  rewrite !u64_to_int64, !u32_to_int64, E1, E2 by (done || (unfold in_u64; lia)).
  f_equal. unfold u8. apply Z.mod_small. lia.
Qed.

Lemma column_bind_list es : Forall event_ok es -> column_event <$> (bind_event <$> es) = es.
Proof. induction 1 as [|e es He _ IH]; [done|]. cbn. by rewrite column_bind, IH. Qed.

(** The events of an order. *)
Definition of_order (order : Z) (es : list DropCopyEvent) : list DropCopyEvent :=
  filter (fun e => dc_order_id e = order) es.

Lemma of_order_app o l k : of_order o (l ++ k) = of_order o l ++ of_order o k.
Proof. apply filter_app. Qed.

Lemma of_order_cons o e l : of_order o (e :: l) = if decide (dc_order_id e = o) then e :: of_order o l else of_order o l.
Proof. unfold of_order. by rewrite filter_cons. Qed.

Lemma order_rows_of o es : in_u64 o -> Forall event_ok es ->
  column_event <$> filter (fun r => row_order r = to_int64 o) (bind_event <$> es) = of_order o es.
Proof.
  intros Ho. induction 1 as [|e es He _ IH]; [done|]. rewrite of_order_cons. cbn [fmap list_fmap].
  rewrite filter_cons. cbn [row_order bind_event]. destruct (decide (dc_order_id e = o)) as [<-|Hne].
  - rewrite decide_True by done. cbn [fmap list_fmap]. by rewrite column_bind, IH.
  - rewrite decide_False; [done|]. intros E. apply Hne. apply to_int64_inj; [apply He|done|done].
Qed.

(** ** The index *)

Definition index_ok (w : list DropCopyEvent) (index : gmap Z (list DropCopyEvent)) : Prop :=
  forall o, index !! o = match of_order o w with [] => None | l => Some l end.

Lemma index_default w index o : index_ok w index -> default [] (index !! o) = of_order o w.
Proof. intros H. rewrite H. by destruct (of_order o w). Qed.

Lemma index_push w index e : index_ok w index -> index_ok (w ++ [e]) (push_order_event e index).
Proof.
  intros H o. unfold push_order_event. rewrite (index_default w) by done.
  rewrite of_order_app, of_order_cons. cbn [of_order filter list_filter]. destruct (decide (dc_order_id e = o)) as [<-|Hne].
  - rewrite lookup_insert_eq. by destruct (of_order (dc_order_id e) w).
  - rewrite lookup_insert_ne, app_nil_r by done. apply H.
Qed.

Lemma index_loaded w : index_ok w (foldr push_order_event ∅ (reverse w)).
Proof.
  induction w as [|e w IH] using rev_ind; [by intros o|].
  rewrite reverse_app. cbn [reverse rev_append app foldr]. by apply index_push.
Qed.

Lemma index_evict x w index : index_ok (x :: w) index -> index_ok w (erase_indexed x index).
Proof.
  intros H o. unfold erase_indexed. pose proof (H (dc_order_id x)) as Hx.
  rewrite of_order_cons, decide_True in Hx by done. rewrite Hx. cbn [erase_event]. rewrite Z.eqb_refl.
  pose proof (H o) as Hh. rewrite of_order_cons in Hh. destruct (decide (dc_order_id x = o)) as [<-|Hne].
  - destruct (of_order (dc_order_id x) w) eqn:E; [apply lookup_delete_eq|apply lookup_insert_eq].
  - destruct (of_order (dc_order_id x) w); [by rewrite lookup_delete_ne|by rewrite lookup_insert_ne].
Qed.

Lemma index_dom w index o : index_ok w index -> o ∉ dom index -> of_order o w = [].
Proof. intros H Ho. apply not_elem_of_dom in Ho. rewrite H in Ho. by destruct (of_order o w). Qed.

(** ** The invariant *)

Section Props.
Context {DB : Type} `{EventTableLaws DB}.

(** What has left the cache of [n] events, and what is in it. *)
Definition left_cache (n : Z) (history : list DropCopyEvent) : list DropCopyEvent :=
  take (length history - Z.to_nat n) history.
Definition window (n : Z) (history : list DropCopyEvent) : list DropCopyEvent :=
  drop (length history - Z.to_nat n) history.

Lemma left_window n history : left_cache n history ++ window n history = history.
Proof. apply take_drop. Qed.

(** Every order of the history has an event in the cache. *)
Definition orders_cached (n : Z) (history : list DropCopyEvent) : Prop :=
  forall o, of_order o (window n history) = [] -> of_order o history = [].

Definition increasing (history : list DropCopyEvent) : Prop :=
  StronglySorted (fun e f => dc_id e < dc_id f) history.

Record store_ok (n : Z) (history : list DropCopyEvent) (s : DropCopyStore DB) : Prop := {
  so_capacity : capacity_ s = n /\ 1 <= n;
  so_rows : rows (database_ s) = bind_event <$> history;
  so_events : events_ s = reverse (window n history);
  so_index : index_ok (window n history) (events_by_order_ s);
  so_incomplete o : o ∉ incomplete_order_history_ s -> of_order o (left_cache n history) = [];
  so_ids : increasing history /\ Forall (fun e => dc_id e < next_id_ s) history /\ 0 <= next_id_ s;
  so_ok : Forall event_ok history
}.

Lemma events_for_order_ok n history s o : store_ok n history s -> in_u64 o ->
  events_for_order o s = Ok (of_order o history) \/ exists m, order_rows (to_int64 o) (database_ s) = inl m.
Proof.
  intros I Ho. unfold events_for_order.
  assert (stored_events o s = Ok (of_order o history) \/ exists m, order_rows (to_int64 o) (database_ s) = inl m) as HS.
  { unfold stored_events. destruct (order_rows (to_int64 o) (database_ s)) as [m|rs] eqn:E; [by right; exists m|].
    left. apply order_rows_rows in E as ->. rewrite (so_rows _ _ _ I), order_rows_of; [done..|apply I]. }
  rewrite (so_index _ _ _ I o). destruct (of_order o (window n history)) eqn:E; [done|].
  case_bool_decide as Hin; [done|]. left. f_equal. rewrite <- (left_window n history) at 1.
  by rewrite of_order_app, (so_incomplete _ _ _ I), E.
Qed.

Lemma recent_ok n history s limit : store_ok n history s ->
  recent limit s = take (Z.to_nat (limit `min` n)) (reverse history).
Proof.
  intros I. destruct (so_capacity _ _ _ I) as [_ Hn]. unfold recent. rewrite (so_events _ _ _ I).
  unfold window. rewrite <- take_reverse, take_take, length_take, length_reverse.
  destruct (decide (Z.to_nat (limit `min` n) <= length history)%nat); [f_equal; lia|].
  by rewrite !take_ge by (rewrite length_reverse; lia).
Qed.

(** ** Opening *)

Lemma max_id_spec (l : list DropCopyEvent) m : let m' := foldl (fun m e => Z.max m (dc_id e)) m l in
  m <= m' /\ Forall (fun e => dc_id e <= m') l /\ (m' = m \/ exists e, e ∈ l /\ m' = dc_id e).
Proof.
  revert m. induction l as [|e l IH]; intros m; cbn [foldl]; [by repeat split; [lia|constructor|left]|].
  destruct (IH (Z.max m (dc_id e))) as (H1 & H2 & H3). split; [lia|]. split; [constructor; [lia|done]|].
  destruct H3 as [->|(f & Hf & ->)].
  - destruct (Z.max_spec m (dc_id e)) as [[_ ->]|[_ ->]]; [right; exists e; split; [by constructor|done]|by left].
  - right. exists f. split; [by constructor|done].
Qed.

Lemma below_window n history m : 1 <= n -> increasing history ->
  Forall (fun e => dc_id e <= m) (window n history) -> Forall (fun e => dc_id e <= m) history.
Proof.
  intros Hn Hs Hw. rewrite <- (left_window n history). apply Forall_app. split; [|done].
  destruct (decide (length history - Z.to_nat n = 0)%nat) as [E|E].
  - unfold left_cache. by rewrite E, take_0.
  - destruct (window n history) as [|w ws] eqn:EW.
    { apply (f_equal length) in EW. unfold window in EW. rewrite length_drop in EW. cbn in EW. lia. }
    apply Forall_cons in Hw as [Hw _]. unfold increasing in Hs. rewrite <- (left_window n history), EW in Hs.
    apply Forall_forall. intros e He.
    pose proof (StronglySorted_app_1_elem_of _ _ _ e w Hs He ltac:(by constructor)). cbn in *. lia.
Qed.

Lemma load_events_ok n history s : capacity_ s = n -> 1 <= n -> rows (database_ s) = bind_event <$> history ->
  Forall event_ok history -> increasing history -> Forall (fun e => dc_id e + 1 < 2 ^ 63) history ->
  orders_cached n history ->
  store_ok n history (load_events (reverse (window n history)) s).
Proof.
  intros Hc Hn Hr Hok Hs Hb Hcached. pose proof (max_id_spec (reverse (window n history)) 0) as HM.
  unfold load_events. set (m := foldl _ _ _) in *. destruct HM as (H1 & H2 & H3).
  assert (u64 (m + 1) = m + 1) as Hu.
  { apply u64_small. unfold in_u64. destruct H3 as [->|(e & He & E)]; [lia|]. rewrite elem_of_reverse in He.
    pose proof (Forall_drop _ (length history - Z.to_nat n) _ Hb) as HW. rewrite Forall_forall in HW.
    specialize (HW e He). cbn in HW. lia. }
  pose proof (index_loaded (window n history)) as HI.
  constructor; cbn [set_cache set_next_id capacity_ database_ events_ events_by_order_ incomplete_order_history_ next_id_];
    try done.
  - intros o Ho. rewrite Hc, length_reverse in Ho. pose proof (left_window n history) as HL.
    assert (of_order o (window n history) = [] -> of_order o (left_cache n history) = []) as HW.
    { intros HW. specialize (Hcached o HW). rewrite <- HL, of_order_app in Hcached. by apply app_eq_nil in Hcached as [? _]. }
    destruct (n <=? Z.of_nat (length (window n history))) eqn:E.
    + apply HW. by eapply index_dom.
    + unfold left_cache. unfold window in E. rewrite length_drop in E.
      apply Z.leb_gt in E. replace (length history - Z.to_nat n)%nat with 0%nat by lia. done.
  - split; [done|]. rewrite Hu. split; [|lia]. rewrite Forall_reverse in H2.
    apply (below_window n _ m Hn Hs) in H2. eapply Forall_impl; [apply H2|]. cbn. intros e He. lia.
Qed.

Lemma new_store_ok capacity history db s : 0 <= capacity < 2 ^ 63 -> rows db = bind_event <$> history ->
  Forall event_ok history -> increasing history -> Forall (fun e => dc_id e + 1 < 2 ^ 63) history ->
  orders_cached (1 `max` capacity) history -> new_store db capacity = Ok s ->
  store_ok (1 `max` capacity) history s.
Proof.
  intros Hc Hr Hok Hs Hb Ho. unfold new_store. destruct (create_schema db) as [|db'] eqn:E; [done|].
  apply create_schema_rows in E. rewrite Hr in E. unfold load_recent. cbn [capacity_ database_].
  destruct (newest_rows _ db') as [|rs] eqn:EN; [done|]. intros <-%(inj Ok).
  rewrite to_int64_small in EN by lia. apply newest_rows_rows in EN; [|lia].
  rewrite EN, E, <- fmap_reverse, <- fmap_take, column_bind_list, take_reverse.
  - apply load_events_ok; try done. lia.
  - by apply Forall_take, Forall_reverse.
Qed.

(** ** Publishing *)

Lemma remember_ok n history (s : DropCopyStore DB) e : capacity_ s = n -> 1 <= n ->
  events_ s = reverse (window n history) -> index_ok (window n history) (events_by_order_ s) ->
  (forall o, o ∉ incomplete_order_history_ s -> of_order o (left_cache n history) = []) ->
  let s' := remember e s in let history' := history ++ [e] in
  capacity_ s' = n /\ database_ s' = database_ s /\ next_id_ s' = next_id_ s /\
  events_ s' = reverse (window n history') /\ index_ok (window n history') (events_by_order_ s') /\
  (forall o, o ∉ incomplete_order_history_ s' -> of_order o (left_cache n history') = []).
Proof.
  intros Hc Hn He Hi Ho s' history'. subst s'. unfold remember.
  apply (index_push _ _ e) in Hi. cbn [events_ set_cache length]. rewrite He. cbn [evict_loop capacity_ set_cache events_ length].
  rewrite length_reverse, Hc. unfold window, left_cache in *. subst history'. rewrite length_app. cbn [length].
  destruct (decide (Z.of_nat (length history) < n)) as [Hl|Hl].
  - replace (length history - Z.to_nat n)%nat with 0%nat in * by lia.
    replace (length history + 1 - Z.to_nat n)%nat with 0%nat by lia. rewrite !drop_0 in *.
    rewrite (proj2 (Z.ltb_ge n _)) by lia. cbn. by rewrite reverse_snoc, take_0.
  - set (k := (length history - Z.to_nat n)%nat) in *.
    replace (length history + 1 - Z.to_nat n)%nat with (S k) by lia. rewrite length_drop.
    rewrite (proj2 (Z.ltb_lt n _)) by lia.
    destruct (drop k history) as [|x w] eqn:EW.
    { apply (f_equal length) in EW. rewrite length_drop in EW. cbn in EW. lia. }
    assert (history !! k = Some x) as Hx by (by rewrite <- (Nat.add_0_r k), <- lookup_drop, EW).
    assert (drop (S k) history = w) as EW' by (by rewrite <- (Nat.add_1_r k), <- drop_drop, EW).
    assert (k < length history)%nat as Hk by (by apply lookup_lt_Some in Hx).
    rewrite reverse_cons, app_comm_cons, last_snoc. unfold evict. cbn [events_ set_cache events_by_order_].
    assert (forall f t, capacity_ t = n -> Z.of_nat (length (events_ t)) <= n -> @evict_loop DB f t = t) as HE.
    { intros [|f] t Ht Hlt; [done|]. cbn [evict_loop]. rewrite Ht. by rewrite (proj2 (Z.ltb_ge n _)) by lia. }
    rewrite removelast_last, HE; cbn [capacity_ events_ set_cache];
      [|done|rewrite <- EW', length_cons, length_reverse, length_drop; lia].
    cbn [database_ next_id_ events_by_order_ incomplete_order_history_].
    rewrite drop_app_le, take_app_le, EW', reverse_snoc by lia. split_and!; try done.
    + by apply index_evict.
    + cbn [incomplete_order_history_ set_cache]. intros o Hno. apply not_elem_of_union in Hno as [Hx1 Hx2].
      rewrite (take_S_r _ _ x) by done. rewrite of_order_app, Ho by done.
      rewrite of_order_cons, decide_False; [done|]. set_solver.
Qed.

Lemma publish_ok n history s e : store_ok n history s -> event_ok e -> next_id_ s + 1 < 2 ^ 63 ->
  match publish e s with
  | (Ok _, s') => store_ok n (history ++ [with_id (next_id_ s) e]) s'
  | (Throw _, s') => store_ok n history s'
  end /\ next_id_ (publish e s).2 = next_id_ s + 1.
Proof.
  intros I He Hb. pose proof (so_ids _ _ _ I) as (H1 & H2 & H3). pose proof (so_capacity _ _ _ I) as [Hc Hn].
  unfold publish. rewrite u64_small by (unfold in_u64; lia). set (e' := with_id (next_id_ s) e).
  assert (event_ok e') as He' by (destruct He; constructor; try done; cbn; lia).
  assert (Forall (fun e => dc_id e < next_id_ s + 1) history) as H2' by (eapply Forall_impl; [apply H2|cbn; lia]).
  unfold mbind, st_bind, persist. cbn [database_ set_next_id].
  destruct (insert_row (bind_event e') (database_ s)) as [[m|m]|db'] eqn:E; cbn [modify snd].
  1, 2: split; [|done]; destruct I; constructor; try done; cbn; split; [done|split; [done|lia]].
  apply insert_row_rows in E; [|rewrite (so_rows _ _ _ I)].
  - destruct (remember_ok n history (set_database db' (set_next_id (next_id_ s + 1) s)) e') as (R1 & R2 & R3 & R4 & R5 & R6);
      try apply I; try done.
    cbn [database_ set_database next_id_ set_next_id] in R2, R3. split; [|done]. constructor; try done.
    + rewrite R2, E, (so_rows _ _ _ I), fmap_app. done.
    + rewrite R3. split; [|split; [|lia]].
      * apply StronglySorted_app. split; [|split; [done|by repeat constructor]].
        intros x y Hx [->|[]%not_elem_of_nil]%elem_of_cons. rewrite Forall_forall in H2. apply (H2 x Hx).
      * apply Forall_app. split; [done|]. repeat constructor. cbn. lia.
    + apply Forall_app. split; [apply I|by apply Forall_singleton].
  - apply Forall_fmap. pose proof (so_ok _ _ _ I) as Hok. rewrite Forall_forall in *. intros x Hx.
    cbn. rewrite !to_int64_small; [apply (H2 x Hx)|cbn; lia|].
    pose proof (eo_id _ (Hok x Hx)). lia.
Qed.

(** Publishing events one after the other: those that were stored, with the ids
    they were given. *)
Definition publish_next (x : list DropCopyEvent * DropCopyStore DB) (e : DropCopyEvent) :
    list DropCopyEvent * DropCopyStore DB :=
  match publish e x.2 with
  | (Ok _, s) => (x.1 ++ [with_id (next_id_ x.2) e], s)
  | (Throw _, s) => (x.1, s)
  end.

Lemma publish_all_ok n history es x : store_ok n (history ++ x.1) x.2 -> Forall event_ok es ->
  next_id_ x.2 + Z.of_nat (length es) < 2 ^ 63 ->
  store_ok n (history ++ (foldl publish_next x es).1) (foldl publish_next x es).2.
Proof.
  intros I Hok. revert x I. induction Hok as [|e es He _ IH]; intros x I; [done|].
  cbn [length foldl]. intros Hb. destruct (publish_ok _ _ _ e I He) as [HP HN]; [lia|].
  apply IH; unfold publish_next; destruct (publish e x.2) as [[u|ex] s'] eqn:EP; cbn [fst snd] in *.
  - by rewrite app_assoc.
  - done.
  - lia.
  - lia.
Qed.

(** C31: the drop copy forgets nothing.  A store is opened on a table that holds
    a history in which every order has one of its events among the newest that
    fit in the cache, and any events are published, of which some may fail to be
    stored.  Then the table holds the history and the stored events in order,
    with increasing ids; the events of any order are all of them, whether they
    come from the cache or from the table (unless that cannot be read); and the
    recent events are the newest ones, up to the capacity. *)
Theorem drop_copy_forgets_nothing capacity history db s es :
  0 <= capacity < 2 ^ 63 -> rows db = bind_event <$> history -> Forall event_ok history -> increasing history ->
  orders_cached (1 `max` capacity) history -> new_store db capacity = Ok s ->
  Forall event_ok es -> Forall (fun e => dc_id e + 1 < 2 ^ 63) history ->
  next_id_ s + Z.of_nat (length es) < 2 ^ 63 ->
  let (stored, s') := foldl publish_next ([], s) es in
  let all := history ++ stored in
  rows (database_ s') = bind_event <$> all /\ increasing all /\
  (forall o, in_u64 o -> events_for_order o s' = Ok (of_order o all) \/
     exists m, order_rows (to_int64 o) (database_ s') = inl m) /\
  (forall limit, recent limit s' = take (Z.to_nat (limit `min` (1 `max` capacity))) (reverse all)).
Proof.
  intros Hc Hr Hok Hs Ho HN Hes Hb Hbound. eapply new_store_ok in HN; [|done..].
  pose proof (publish_all_ok (1 `max` capacity) history es ([], s)) as HP. cbn [fst snd] in HP.
  rewrite app_nil_r in HP. specialize (HP HN Hes Hbound).
  destruct (foldl publish_next ([], s) es) as [stored s']. cbn [fst snd] in HP.
  split; [apply HP|]. split; [apply HP|]. split.
  - intros o Hu. by eapply events_for_order_ok.
  - intros limit. by apply recent_ok.
Qed.

End Props.

(** ** Examples *)

(** A table of at most six rows. *)
#[export] Instance demo_table : EventTable (list Row) := {|
  create_schema := inr;
  insert_row r db :=
    if bool_decide (row_id r ∈ row_id <$> db) then inl (AtStep "UNIQUE constraint failed")
    else if bool_decide (length db < 6)%nat
    then inr (filter (fun r' => row_id r' < row_id r) db ++ [r] ++ filter (fun r' => row_id r < row_id r') db)
    else inl (AtStep "database or disk is full");
  newest_rows n db := inr (take (Z.to_nat n) (reverse db));
  order_rows o db := inr (filter (fun r => row_order r = o) db)
|}.

#[export] Instance demo_table_laws : EventTableLaws (list Row).
Proof.
  apply (Build_EventTableLaws _ _ id).
  - by intros db db' [= ->].
  - intros r db db' H Hall. cbn in H. case_bool_decide; [done|]. case_bool_decide; [|done].
    injection H as <-. unfold id in *. f_equal.
    + clear -Hall. induction Hall as [|x l Hx _ IH]; [done|]. rewrite filter_cons, decide_True by exact Hx.
      by f_equal.
    + f_equal. clear -Hall. induction Hall as [|x l Hx _ IH]; [done|]. cbn in Hx. by rewrite filter_cons, decide_False by lia.
  - by intros n db rs _ [= <-].
  - by intros o db rs [= <-].
Defined.

Definition demo_event (order : Z) : DropCopyEvent := {|
  dc_id := 0; dc_timestamp := 7; dc_order_id := order; dc_symbol := 1; dc_type := "OMS_FILL"; dc_status := "FILLED";
  dc_remaining := 0; dc_reason := 0 |}.

(** A fresh store with room for two events and a table with room for six. *)
Lemma demo_event_ok order : 0 <= order < 2 ^ 64 -> event_ok (demo_event order).
Proof. intros H. unfold demo_event. constructor; cbn; unfold in_u64, in_u32; lia || reflexivity. Qed.

Definition demo_store : DropCopyStore (list Row) :=
  load_events [] {| capacity_ := 2; events_ := []; events_by_order_ := ∅; incomplete_order_history_ := ∅;
                    next_id_ := 1; database_ := [] |}.

Lemma drop_copy_forgets_nothing_witness :
  new_store [] 2 = Ok demo_store /\
  let (stored, s) := foldl publish_next ([], demo_store) (demo_event <$> [1; 2; 1; 2; 3; 3; 1]) in
  length stored = 6%nat /\ events_for_order 1 s = Ok (of_order 1 stored) /\ recent 5 s = take 2 (reverse stored).
Proof.
  assert (new_store [] 2 = Ok demo_store) as HN by done. split; [done|].
  pose proof (drop_copy_forgets_nothing 2 [] [] demo_store (demo_event <$> [1; 2; 1; 2; 3; 3; 1])) as H.
  assert (length (foldl publish_next ([], demo_store) (demo_event <$> [1; 2; 1; 2; 3; 3; 1])).1 = 6%nat) as HL
    by (vm_compute; reflexivity).
  destruct (foldl publish_next _ _) as [stored s]. cbn [fst app] in H, HL.
  destruct H as (_ & _ & H3 & H4); [lia|reflexivity|constructor|constructor|by intros o|done| |constructor|done|].
  - repeat (apply Forall_cons; split; [apply demo_event_ok; lia|]). constructor.
  - split; [done|]. split; [|by rewrite H4].
    destruct (H3 1) as [->|[m Hm]]; done.
Defined.

(** After a restart with a full table the invariant can fail: order 1 has its
    only event outside the cache, and the next one hides it. *)
Example restart_hides_events :
  let table := bind_event <$> [with_id 1 (demo_event 1); with_id 2 (demo_event 2); with_id 3 (demo_event 2)] in
  match new_store table 2 with
  | Ok s => match publish (demo_event 1) s with
            | (Ok _, s) => events_for_order 1 s = Ok [with_id 4 (demo_event 1)]
            | _ => False
            end
  | Throw _ => False
  end.
Proof. vm_compute. reflexivity. Qed.
