(* ===== verification/Reconciliation.v ===== *)
(** * Reconciliation ([reconciliation.hpp], [reconciliation.cpp], [api.cpp])

    The positions are recomputed from the fills and compared with those of the
    position manager; the parents are compared with their fills, their children
    and the drop copy.  The arithmetic of the recomputation is a parameter, as in
    Position. *)

From stdpp Require Import gmap.
From S2P Require Import Prelude.
From S2P Require Import Float.
From S2P Require Import Arithmetic.
From S2P Require Import Oms.
From S2P Require Import Router.
From S2P Require Import Position.
From S2P Require Import DropCopy.
From S2P Require Import Tca.

(** ** Positions *)

Section positions.
Context {N : Type} `{Arithmetic N}.

Record PositionFillInput := { fi_side : RouteSide; fi_quantity : N; fi_price : N; fi_fee : N }.

Record PositionReconciliationInput := {
  ri_symbol : string; ri_fills : list PositionFillInput; ri_actual : PositionState N
}.

Record PositionReconciliationResult := {
  rc_symbol : string;
  expected_net_quantity : N; actual_net_quantity : N; quantity_difference : N;
  expected_average_cost : N; actual_average_cost : N; average_cost_difference : N;
  expected_realized_pnl : N; actual_realized_pnl : N; realized_pnl_difference : N;
  rc_mark_price : N;
  expected_unrealized_pnl : N; actual_unrealized_pnl : N; unrealized_pnl_difference : N;
  expected_total_pnl : N; actual_total_pnl : N; total_pnl_difference : N;
  quantity_consistent : bool; average_cost_consistent : bool; realized_pnl_consistent : bool;
  unrealized_pnl_consistent : bool; total_pnl_consistent : bool; consistent : bool
}.

(** The three local variables of the loop. *)
Record Expected := { xp_net : N; xp_average : N; xp_realized : N }.

Definition nothing_expected : Expected := {| xp_net := nzero; xp_average := nzero; xp_realized := nzero |}.

Definition extends (old signed : N) : bool :=
  nlt (nabs old) ntiny || (nlt nzero old && nlt nzero signed) || (nlt old nzero && nlt signed nzero).

Definition extend (x : Expected) (signed price : N) : N :=
  let old_notional := nmul (nabs (xp_net x)) (xp_average x) in
  let new_notional := nmul (nabs signed) price in
  let total_quantity := nadd (nabs (xp_net x)) (nabs signed) in
  if nlt ntiny total_quantity then ndiv (nadd old_notional new_notional) total_quantity else xp_average x.

(** The average cost and the realized profit after a fill against the position. *)
Definition reduce (x : Expected) (signed price : N) : N * N :=
  let old := xp_net x in
  let closing_quantity := nmin (nabs old) (nabs signed) in
  let realized :=
    if nlt nzero old then nadd (xp_realized x) (nmul (nsub price (xp_average x)) closing_quantity)
    else nadd (xp_realized x) (nmul (nsub (xp_average x) price) closing_quantity) in
  let average := if nlt (nabs old) (nabs signed) then price else xp_average x in
  (if nlt (nabs (nadd old signed)) ntiny then nzero else average, realized).

Definition expect_fill (x : Expected) (f : PositionFillInput) : Expected :=
  let signed := match fi_side f with RouteBuy => fi_quantity f | RouteSell => nopp (fi_quantity f) end in
  let (average, realized) :=
    if extends (xp_net x) signed then (extend x signed (fi_price f), xp_realized x)
    else reduce x signed (fi_price f) in
  {| xp_net := nadd (xp_net x) signed; xp_average := average; xp_realized := nsub realized (fi_fee f) |}.

Definition expected (fills : list PositionFillInput) : Expected := foldl expect_fill nothing_expected fills.

Definition compare_position (epsilon : N) (input : PositionReconciliationInput) : PositionReconciliationResult :=
  let x := expected (ri_fills input) in
  let actual := ri_actual input in
  let expected_unrealized := nmul (nsub (mark_price actual) (xp_average x)) (xp_net x) in
  let expected_total := nadd (xp_realized x) expected_unrealized in
  let actual_total := nadd (realized_pnl actual) (unrealized_pnl actual) in
  let close := fun difference => nle (nabs difference) epsilon in
  let dq := nsub (net_quantity actual) (xp_net x) in
  let da := nsub (average_cost actual) (xp_average x) in
  let dr := nsub (realized_pnl actual) (xp_realized x) in
  let du := nsub (unrealized_pnl actual) expected_unrealized in
  let dt := nsub actual_total expected_total in
  {| rc_symbol := ri_symbol input;
     expected_net_quantity := xp_net x; actual_net_quantity := net_quantity actual; quantity_difference := dq;
     expected_average_cost := xp_average x; actual_average_cost := average_cost actual;
     average_cost_difference := da;
     expected_realized_pnl := xp_realized x; actual_realized_pnl := realized_pnl actual;
     realized_pnl_difference := dr;
     rc_mark_price := mark_price actual;
     expected_unrealized_pnl := expected_unrealized; actual_unrealized_pnl := unrealized_pnl actual;
     unrealized_pnl_difference := du;
     expected_total_pnl := expected_total; actual_total_pnl := actual_total; total_pnl_difference := dt;
     quantity_consistent := close dq; average_cost_consistent := close da; realized_pnl_consistent := close dr;
     unrealized_pnl_consistent := close du; total_pnl_consistent := close dt;
     consistent := close dq && close da && close dr && close du && close dt |}.

(** [std::sort] by symbol; the callers have one input for each symbol. *)
Definition symbol_before (x y : PositionReconciliationResult) : Prop :=
  String.leb (rc_symbol x) (rc_symbol y) = true.

#[export] Instance symbol_before_dec : RelDecision symbol_before.
Proof. intros x y. unfold symbol_before. apply _. Defined.

Definition reconcile_positions (inputs : list PositionReconciliationInput) (epsilon : N) :
    list PositionReconciliationResult :=
  merge_sort symbol_before (compare_position epsilon <$> inputs).

End positions.
Arguments PositionFillInput N : clear implicits.
Arguments PositionReconciliationInput N : clear implicits.
Arguments PositionReconciliationResult N : clear implicits.
Arguments Expected N : clear implicits.

(** ** Parents *)

Inductive ReconciliationClassification := Consistent | LegacyUnverifiable | Inconsistent.

#[export] Instance classification_eq_dec : EqDecision ReconciliationClassification.
Proof. solve_decision. Defined.

Record ParentReconciliationInput := { pi_parent_id : Z; pi_classification : ReconciliationClassification }.

Record GlobalParentReconciliationResult := {
  parent_count_ : nat;
  consistent_parents : nat; legacy_unverifiable_parents : nat; inconsistent_parents : nat;
  legacy_unverifiable_ids : list Z; inconsistent_ids : list Z;
  all_verifiable_consistent : bool
}.

Definition count_parent (r : GlobalParentReconciliationResult) (p : ParentReconciliationInput) :
    GlobalParentReconciliationResult :=
  match pi_classification p with
  | Consistent => {|
      parent_count_ := parent_count_ r; consistent_parents := S (consistent_parents r);
      legacy_unverifiable_parents := legacy_unverifiable_parents r; inconsistent_parents := inconsistent_parents r;
      legacy_unverifiable_ids := legacy_unverifiable_ids r; inconsistent_ids := inconsistent_ids r;
      all_verifiable_consistent := all_verifiable_consistent r |}
  | LegacyUnverifiable => {|
      parent_count_ := parent_count_ r; consistent_parents := consistent_parents r;
      legacy_unverifiable_parents := S (legacy_unverifiable_parents r); inconsistent_parents := inconsistent_parents r;
      legacy_unverifiable_ids := legacy_unverifiable_ids r ++ [pi_parent_id p]; inconsistent_ids := inconsistent_ids r;
      all_verifiable_consistent := all_verifiable_consistent r |}
  | Inconsistent => {|
      parent_count_ := parent_count_ r; consistent_parents := consistent_parents r;
      legacy_unverifiable_parents := legacy_unverifiable_parents r; inconsistent_parents := S (inconsistent_parents r);
      legacy_unverifiable_ids := legacy_unverifiable_ids r; inconsistent_ids := inconsistent_ids r ++ [pi_parent_id p];
      all_verifiable_consistent := all_verifiable_consistent r |}
  end.

Definition no_parents (count : nat) : GlobalParentReconciliationResult := {|
  parent_count_ := count; consistent_parents := 0; legacy_unverifiable_parents := 0; inconsistent_parents := 0;
  legacy_unverifiable_ids := []; inconsistent_ids := []; all_verifiable_consistent := true |}.

Definition reconcile_parents (parents : list ParentReconciliationInput) : GlobalParentReconciliationResult :=
  let r := foldl count_parent (no_parents (length parents)) parents in
  {| parent_count_ := parent_count_ r; consistent_parents := consistent_parents r;
     legacy_unverifiable_parents := legacy_unverifiable_parents r; inconsistent_parents := inconsistent_parents r;
     legacy_unverifiable_ids := legacy_unverifiable_ids r; inconsistent_ids := inconsistent_ids r;
     all_verifiable_consistent := (inconsistent_parents r =? 0)%nat |}.

(** ** The callers in [api.cpp] *)

(** [1e-9] *)
Definition reconciliation_epsilon : double := S754_finite false 4835703278458517 (-82).

Definition fill_input (parent : ParentOrder) (r : OmsExecutionReport) : PositionFillInput double := {|
  fi_side := po_side parent; fi_quantity := xr_quantity r; fi_price := xr_price r; fi_fee := xr_fee r |}.

(** [inputs_by_symbol], without the positions: the fills, parent by parent. *)
Definition gather (s : Oms) : gmap string (list (PositionFillInput double)) :=
  foldl (fun inputs parent =>
    let fills := fill_input parent <$> fills_for_parent (po_id parent) s in
    <[po_symbol parent := default [] (inputs !! po_symbol parent) ++ fills]> inputs) ∅ (parents s).

(** The best prices of the healthy quotes; 0 stands for none yet. *)
Definition best_price (better : double -> double -> bool) (best price : double) : double :=
  if deq best dzero || better price best then price else best.

Definition best_prices (quotes : list VenueQuote) : double * double :=
  foldl (fun best quote =>
    match vq_healthy quote, vq_bids quote, vq_asks quote with
    | true, bid :: _, ask :: _ => (best_price dgt best.1 (vl_price bid), best_price dlt best.2 (vl_price ask))
    | _, _, _ => best
    end) (dzero, dzero) quotes.

Definition mark_to_market (symbol : string) (quotes : list VenueQuote) (m : PositionManager) : PositionManager :=
  let (best_bid, best_ask) := best_prices quotes in
  if dgt best_bid dzero && dgt best_ask dzero
  then mark symbol (ddiv (dadd best_bid best_ask) (dbl 2)) m
  else m.

(** One symbol of the second loop. *)
Definition reconcile_symbol (quotes : string -> list VenueQuote) (symbol : string)
    (fills : list (PositionFillInput double)) (m : PositionManager) :
    PositionReconciliationInput double * PositionManager :=
  let m := mark_to_market symbol (quotes symbol) m in
  ({| ri_symbol := symbol; ri_fills := fills; ri_actual := position symbol m |}, m).

(** The order of the symbols is that of an unordered map: any order. *)
Definition reconcile_all_positions (quotes : string -> list VenueQuote) (s : Oms) (m : PositionManager) :
    list (PositionReconciliationResult double) * PositionManager :=
  let x := foldl (fun x input =>
    let y := reconcile_symbol quotes input.1 input.2 x.2 in (x.1 ++ [y.1], y.2))
    ([], m) (map_to_list (gather s)) in
  (reconcile_positions x.1 reconciliation_epsilon, x.2).

Definition positions_consistent (quotes : string -> list VenueQuote) (s : Oms) (m : PositionManager) : bool :=
  forallb consistent (reconcile_all_positions quotes s m).1.

Section parents.
Context {DB : Type} `{EventTable DB}.

Definition sum_of {A} (f : A -> double) (l : list A) : double := foldl (fun x a => dadd x (f a)) dzero l.

Definition is_fill_event (e : DropCopyEvent) : bool := bool_decide (dc_type e = "OMS_FILL").

(** The children with a fill in the drop copy: the loop stops at the first. *)
Fixpoint drop_copy_fill_count (children : list ChildOrder) (dc : DropCopyStore DB) : result nat :=
  match children with
  | [] => Ok 0%nat
  | child :: children =>
      events ← events_for_order (co_id child) dc;
      count ← drop_copy_fill_count children dc;
      Ok (if existsb is_fill_event events then S count else count)
  end.

Definition within (x y : double) : bool := dle (dabs (dsub x y)) reconciliation_epsilon.

Definition parent_agrees (parent : ParentOrder) (fills : list OmsExecutionReport) (children : list ChildOrder)
    (quality : ExecutionQuality) : bool :=
  let fill_quantity := sum_of xr_quantity fills in
  within (po_filled parent) fill_quantity &&
  within (po_filled parent) (sum_of co_filled children) &&
  within (tc_filled (eq_report quality)) fill_quantity &&
  within (tc_notional (eq_report quality)) (sum_of xr_notional fills) &&
  within (tc_fees (eq_report quality)) (sum_of xr_fee fills).

Definition classify (agrees : bool) (fills : nat) (copied : nat) : ReconciliationClassification :=
  if negb agrees then Inconsistent
  else if (copied =? fills)%nat then Consistent
  else if negb (fills =? 0)%nat && (copied =? 0)%nat then LegacyUnverifiable
  else Inconsistent.

(** [arrival] is the arrival price of the live algorithm of the parent, if it has one. *)
Definition parent_reconciliation_status (arrival : Z -> option double) (s : Oms) (dc : DropCopyStore DB)
    (parent_id : Z) : result ReconciliationClassification :=
  match find_parent parent_id s with
  | None => Ok Inconsistent
  | Some parent =>
      let fills := fills_for_parent parent_id s in
      let children := children_for_parent parent_id s in
      copied ← drop_copy_fill_count children dc;
      quality ← analyze_parent parent fills (default dzero (arrival parent_id));
      Ok (classify (parent_agrees parent fills children quality) (length fills) copied)
  end.

Fixpoint classify_parents (arrival : Z -> option double) (s : Oms) (dc : DropCopyStore DB) (ps : list ParentOrder) :
    result (list ParentReconciliationInput) :=
  match ps with
  | [] => Ok []
  | parent :: ps =>
      classification ← parent_reconciliation_status arrival s dc (po_id parent);
      rest ← classify_parents arrival s dc ps;
      Ok ({| pi_parent_id := po_id parent; pi_classification := classification |} :: rest)
  end.

Definition reconcile_all_parents (arrival : Z -> option double) (s : Oms) (dc : DropCopyStore DB) :
    result GlobalParentReconciliationResult :=
  inputs ← classify_parents arrival s dc (parents s);
  Ok (reconcile_parents inputs).

End parents.
