(* ===== verification/ReconciliationProps.v ===== *)
(** * The positions that reconciliation expects

    Recomputing a position from the fills in the order in which the manager
    applied them repeats its arithmetic, so nothing differs, to the last bit; in
    exact arithmetic any order of the fills gives the same quantity and profit. *)

From stdpp Require Import gmap.
From S2P Require Import Prelude.
From S2P Require Import Float.
From S2P Require Import Arithmetic.
From S2P Require Import Oms.
From S2P Require Import OmsProps.
From S2P Require Import Router.
From S2P Require Import DropCopy.
From S2P Require Import DropCopyProps.
From S2P Require Import Tca.
From S2P Require Import Position.
From S2P Require Import Reconciliation.

(** ** The loop repeats the manager *)

Section any.
Context {N : Type} `{Arithmetic N}.

Definition of_position (p : PositionState N) : Expected N :=
  {| xp_net := net_quantity p; xp_average := average_cost p; xp_realized := realized_pnl p |}.

Lemma expect_fill_position (p : PositionState N) symbol side price quantity fee :
  expect_fill (of_position p) {| fi_side := side; fi_quantity := quantity; fi_price := price; fi_fee := fee |} =
  of_position (fill_position symbol side price quantity fee p).
Proof.
  unfold expect_fill, fill_position, extends, increases, extend, reduce, opened, closed, of_position.
  cbn [fi_side fi_quantity fi_price fi_fee xp_net xp_average xp_realized]. fold (signed_quantity side quantity).
  by destruct (nlt (nabs (net_quantity p)) ntiny || _ || _)%bool, (nlt nzero (net_quantity p)).
Qed.

End any.

(** ** The manager *)

Inductive ManagerEvent :=
| FillApplied (parent : ParentOrder) (r : OmsExecutionReport)
| MarkSet (symbol : string) (price : double).

Definition manager_step (m : PositionManager) (e : ManagerEvent) : PositionManager :=
  match e with
  | FillApplied parent r => apply_fill parent r m
  | MarkSet symbol price => mark symbol price m
  end.

Definition fills_of (symbol : string) (events : list ManagerEvent) : list (PositionFillInput double) :=
  omap (fun e => match e with
    | FillApplied parent r => if decide (po_symbol parent = symbol) then Some (fill_input parent r) else None
    | MarkSet _ _ => None
    end) events.

(** The unrealized profit follows from the mark, once there is one. *)
Definition marked (p : PositionState double) : Prop :=
  dlt dzero (mark_price p) = true ->
  unrealized_pnl p = dmul (dsub (mark_price p) (average_cost p)) (net_quantity p).

Lemma marked_fill symbol side price quantity fee p : marked (fill_position symbol side price quantity fee p).
Proof.
  unfold marked, fill_position. set (signed := signed_quantity side quantity).
  destruct (if increases (net_quantity p) signed then opened p signed price else closed p signed price) as [a q].
  cbn [mark_price unrealized_pnl net_quantity average_cost nlt nzero double_arithmetic]. by intros ->.
Qed.

Lemma position_insert symbol s p (m : gmap string (PositionState double)) : position symbol (<[s := p]> m) = if decide (s = symbol) then p else position symbol m.
Proof.
  unfold position, PositionManager. case_decide as E; [by rewrite E, lookup_insert_eq|by rewrite lookup_insert_ne].
Qed.

Lemma slot_of_position symbol m :
  of_position (slot symbol m) = of_position (position symbol m) /\ (marked (position symbol m) -> marked (slot symbol m)).
Proof. unfold slot, position. by destruct (m !! symbol). Qed.

Lemma manager_ok events symbol : let p := position symbol (foldl manager_step ∅ events) in
  of_position p = expected (fills_of symbol events) /\ marked p.
Proof.
  cbv zeta. induction events as [|e events [IH1 IH2]] using rev_ind; [done|].
  rewrite foldl_app. cbn [foldl]. set (m := foldl manager_step ∅ events) in *.
  unfold fills_of, expected. rewrite omap_app, foldl_app. fold (fills_of symbol events). fold (expected (fills_of symbol events)).
  destruct (slot_of_position symbol m) as [S1 S2].
  destruct e as [parent r|s price]; cbn [manager_step omap list_omap]; unfold apply_fill, mark; rewrite position_insert.
  - case_decide as E; [|done]. cbn [foldl]. rewrite <- IH1, <- S1, E. split.
    + symmetry. unfold fill_input. apply expect_fill_position.
    + apply marked_fill.
  - cbn [foldl]. case_decide as E; [|done]. subst s. split; [|done]. rewrite <- IH1, <- S1. done.
Qed.

(** ** The comparison *)

Lemma within_self epsilon x : isfinite x = true -> dle dzero epsilon = true -> dle (dabs (dsub x x)) epsilon = true.
Proof. intros Hx He. by rewrite dsub_diag. Qed.

(** What is reported of a symbol when nothing differs. *)
Definition agrees_with (p : PositionState double) (r : PositionReconciliationResult double) : Prop :=
  (expected_net_quantity r = net_quantity p /\ expected_average_cost r = average_cost p /\
   expected_realized_pnl r = realized_pnl p) /\
  (actual_net_quantity r = net_quantity p /\ actual_average_cost r = average_cost p /\
   actual_realized_pnl r = realized_pnl p /\ actual_unrealized_pnl r = unrealized_pnl p) /\
  (dlt dzero (mark_price p) = true ->
   expected_unrealized_pnl r = unrealized_pnl p /\ expected_total_pnl r = actual_total_pnl r /\
   (forallb isfinite [net_quantity p; average_cost p; realized_pnl p; unrealized_pnl p; actual_total_pnl r] = true ->
    consistent r = true)).

Lemma compare_agrees epsilon symbol fills p : of_position p = expected fills -> marked p -> dle dzero epsilon = true ->
  agrees_with p (compare_position epsilon {| ri_symbol := symbol; ri_fills := fills; ri_actual := p |}).
Proof.
  intros E M He. unfold agrees_with, compare_position. cbn [ri_fills ri_actual]. rewrite <- E.
  cbn -[dsub dmul dadd dle dlt dabs isfinite forallb]. split; [done|]. split; [done|].
  intros Hm. rewrite <- (M Hm). split; [done|]. split; [done|].
  intros HF. cbn [forallb] in HF. repeat apply andb_true_iff in HF as [? HF].
  by rewrite !within_self.
Qed.

(** ** The fills of an order management system *)

(** The fills of a symbol in the order in which they were recorded. *)
Definition recorded_fills (symbol : string) (s : Oms) : list (PositionFillInput double) :=
  omap (fun r => match find_parent (xr_parent_id r) s with
    | Some parent => if decide (po_symbol parent = symbol) then Some (fill_input parent r) else None
    | None => None
    end) (execution_reports_ s).

Definition symbol_fills (symbol : string) (s : Oms) (parent : ParentOrder) : list (PositionFillInput double) :=
  if decide (po_symbol parent = symbol) then fill_input parent <$> fills_for_parent (po_id parent) s else [].

Lemma gather_concat s symbol : default [] (gather s !! symbol) = concat (symbol_fills symbol s <$> parents s).
Proof.
  unfold gather. generalize (parents s). induction l as [|p ps IH] using rev_ind; [done|].
  rewrite foldl_app, fmap_app, concat_app, <- IH. cbn [foldl fmap list_fmap concat]. rewrite app_nil_r.
  unfold symbol_fills. case_decide as E.
  - by rewrite E, lookup_insert_eq.
  - by rewrite lookup_insert_ne, app_nil_r.
Qed.

(** The parents of a system are kept under their ids. *)
Definition parents_keyed (s : Oms) : Prop := forall i p, parents_ s !! i = Some p -> po_id p = i.

Lemma parents_elem s p : parents_keyed s -> p ∈ parents s <-> find_parent (po_id p) s = Some p.
Proof.
  intros HK. unfold parents. rewrite merge_sort_Permutation, list_elem_of_fmap. split.
  - intros ([i q] & -> & Hin). apply elem_of_map_to_list in Hin. cbn. unfold find_parent. by rewrite (HK i q Hin).
  - intros Hp. exists (po_id p, p). split; [done|]. by apply elem_of_map_to_list.
Qed.

Lemma parents_nodup s : parents_keyed s -> NoDup (po_id <$> parents s).
Proof.
  intros HK. unfold parents. rewrite merge_sort_Permutation, <- list_fmap_compose.
  rewrite (list_fmap_ext _ fst); [apply NoDup_fst_map_to_list|].
  intros k [i q] Hin. cbn. apply HK. apply elem_of_map_to_list. by eapply list_elem_of_lookup_2.
Qed.

Lemma concat_none {A B} (f : A -> list B) l : (forall y, y ∈ l -> f y = []) -> concat (f <$> l) = [].
Proof.
  induction l as [|y l IH]; intros Hf; [done|]. cbn. rewrite Hf by constructor. apply IH.
  intros z Hz. apply Hf. by constructor.
Qed.

Lemma concat_single {A B} (f : A -> list B) l x : NoDup l -> x ∈ l -> (forall y, y ∈ l -> y <> x -> f y = []) ->
  concat (f <$> l) = f x.
Proof.
  induction 1 as [|y l Hy Hl IH]; [by intros []%not_elem_of_nil|]. intros Hx Hf. cbn [fmap list_fmap concat].
  apply elem_of_cons in Hx as [->|Hx].
  - rewrite concat_none; [apply app_nil_r|]. intros z Hz. apply Hf; [by constructor|]. by intros ->.
  - rewrite Hf by (constructor || by intros ->). cbn. apply IH; [done|]. intros z Hz. apply Hf. by constructor.
Qed.

(** The fills of a symbol belong to one parent. *)
Definition one_parent (symbol : string) (s : Oms) : Prop := forall r r' p p',
  r ∈ execution_reports_ s -> r' ∈ execution_reports_ s ->
  find_parent (xr_parent_id r) s = Some p -> find_parent (xr_parent_id r') s = Some p' ->
  po_symbol p = symbol -> po_symbol p' = symbol -> xr_parent_id r = xr_parent_id r'.

Lemma recorded_one_parent s symbol p : find_parent (po_id p) s = Some p -> po_symbol p = symbol ->
  (forall r q, r ∈ execution_reports_ s -> find_parent (xr_parent_id r) s = Some q -> po_symbol q = symbol ->
    xr_parent_id r = po_id p) ->
  recorded_fills symbol s = fill_input p <$> fills_for_parent (po_id p) s.
Proof.
  intros Hp Hs. unfold recorded_fills, fills_for_parent. induction (execution_reports_ s) as [|r rs IH]; [done|].
  intros Hq. cbn [omap list_omap]. rewrite filter_cons, IH by (intros r' q Hr; apply Hq; by constructor).
  case_decide as E.
  - rewrite E, Hp, decide_True by done. done.
  - destruct (find_parent (xr_parent_id r) s) as [q|] eqn:EQ; [|done].
    case_decide as E'; [|done]. destruct E. apply (Hq r q); [by constructor|done|done].
Qed.

Definition is_about (symbol : string) (s : Oms) (r : OmsExecutionReport) : bool :=
  match find_parent (xr_parent_id r) s with Some p => bool_decide (po_symbol p = symbol) | None => false end.

Lemma is_about_true symbol s r : is_about symbol s r = true <->
  exists p, find_parent (xr_parent_id r) s = Some p /\ po_symbol p = symbol.
Proof.
  unfold is_about. destruct (find_parent (xr_parent_id r) s) as [p|]; [|by split; [|intros (? & ? & _)]].
  rewrite bool_decide_eq_true. split; [by exists p|by intros (q & [= <-] & Hq)].
Qed.

Lemma symbol_fills_nil s symbol p : parents_keyed s -> p ∈ parents s ->
  (forall r, r ∈ execution_reports_ s -> is_about symbol s r = true -> xr_parent_id r <> po_id p) ->
  symbol_fills symbol s p = [].
Proof.
  intros HK Hp H. unfold symbol_fills. case_decide as E; [|done].
  destruct (fills_for_parent (po_id p) s) as [|r rs] eqn:EF; [done|exfalso].
  assert (r ∈ fills_for_parent (po_id p) s) as Hr by (rewrite EF; constructor).
  apply list_elem_of_filter in Hr as [Hi Hr]. apply (H r Hr); [|done].
  apply is_about_true. exists p. split; [|done]. rewrite Hi. by apply parents_elem.
Qed.

Lemma recorded_nil s symbol : (forall r, r ∈ execution_reports_ s -> is_about symbol s r <> true) ->
  recorded_fills symbol s = [].
Proof.
  unfold recorded_fills, is_about. induction (execution_reports_ s) as [|r rs IH]; intros H; [done|].
  cbn [omap list_omap]. rewrite IH by (intros r' Hr; apply H; by constructor). specialize (H r ltac:(by constructor)).
  destruct (find_parent (xr_parent_id r) s) as [q|]; [|done]. case_bool_decide; [done|by rewrite decide_False].
Qed.

Lemma gathered_in_order s symbol : parents_keyed s -> one_parent symbol s ->
  default [] (gather s !! symbol) = recorded_fills symbol s.
Proof.
  intros HK HO. rewrite gather_concat.
  destruct (decide (Exists (fun r => is_about symbol s r = true) (execution_reports_ s))) as [HE|HE].
  - apply Exists_exists in HE as (r & Hr & (p & Hp & Hs)%is_about_true).
    assert (xr_parent_id r = po_id p) as Hi by (symmetry; by apply HK).
    assert (forall r' q, r' ∈ execution_reports_ s -> find_parent (xr_parent_id r') s = Some q -> po_symbol q = symbol ->
      xr_parent_id r' = po_id p) as HO' by (intros r' q Hr' Hq Hs'; rewrite <- Hi; by apply (HO r' r q p)).
    rewrite (concat_single _ _ p).
    + unfold symbol_fills. rewrite decide_True by done. symmetry. apply recorded_one_parent; [by rewrite <- Hi|done..].
    + by apply (NoDup_fmap_1 po_id), parents_nodup.
    + apply parents_elem; [done|]. by rewrite <- Hi.
    + intros y Hy Hne. apply symbol_fills_nil; [done..|]. intros r' Hr' (q & Hq & Hs')%is_about_true E. apply Hne.
      apply parents_elem in Hy; [|done]. rewrite <- E, (HO' r' q), <- Hi, Hp in Hy by done. by injection Hy.
  - rewrite recorded_nil.
    + apply concat_none. intros p Hp. apply symbol_fills_nil; [done..|]. intros r Hr Ha. destruct HE.
      apply Exists_exists. by exists r.
    + intros r Hr Ha. destruct HE. apply Exists_exists. by exists r.
Qed.

(** ** The whole reconciliation *)

Definition mark_event (symbol : string) (quotes : list VenueQuote) : list ManagerEvent :=
  let (best_bid, best_ask) := best_prices quotes in
  if dgt best_bid dzero && dgt best_ask dzero then [MarkSet symbol (ddiv (dadd best_bid best_ask) (dbl 2))] else [].

Lemma mark_to_market_events symbol quotes events :
  mark_to_market symbol quotes (foldl manager_step ∅ events) =
  foldl manager_step ∅ (events ++ mark_event symbol quotes).
Proof.
  unfold mark_to_market, mark_event. destruct (best_prices quotes) as [bid ask]. rewrite foldl_app. by case_if.
Qed.

Lemma fills_of_app symbol e1 e2 : fills_of symbol (e1 ++ e2) = fills_of symbol e1 ++ fills_of symbol e2.
Proof. apply omap_app. Qed.

Lemma fills_of_mark symbol s quotes : fills_of symbol (mark_event s quotes) = [].
Proof. unfold mark_event. destruct (best_prices quotes). by case_if. Qed.

Lemma mark_to_market_other symbol s quotes m : s <> symbol -> position symbol (mark_to_market s quotes m) = position symbol m.
Proof.
  intros Hne. unfold mark_to_market. destruct (best_prices quotes). case_if; [|done].
  unfold mark. by rewrite position_insert, decide_False.
Qed.

(** The inputs of the second loop carry the positions at its end. *)
Lemma second_loop_ok quotes (l : list (string * list (PositionFillInput double))) events : NoDup l.*1 ->
  let x := foldl (fun x input => let y := reconcile_symbol quotes input.1 input.2 x.2 in (x.1 ++ [y.1], y.2))
    ([], foldl manager_step ∅ events) l in
  (exists marks, x.2 = foldl manager_step ∅ (events ++ marks) /\ forall symbol, fills_of symbol marks = []) /\
  x.1 = (fun input => {| ri_symbol := input.1; ri_fills := input.2; ri_actual := position input.1 x.2 |}) <$> l.
Proof.
  cbv zeta. induction l as [|[s fills] l IH] using rev_ind; intros HN.
  - split; [|done]. exists []. by rewrite app_nil_r.
  - rewrite fmap_app in HN. apply NoDup_app in HN as (HN & Hs & _). rewrite foldl_app, fmap_app. cbn [foldl].
    destruct (IH HN) as [(marks & E & Hm) E1]. set (x := foldl _ _ l) in *. unfold reconcile_symbol. cbn [fst snd].
    split.
    + exists (marks ++ mark_event s (quotes s)). rewrite E, mark_to_market_events, <- app_assoc. split; [done|].
      intros symbol. by rewrite fills_of_app, Hm, fills_of_mark.
    + rewrite E1 at 1. f_equal. apply list_fmap_ext. intros i [s' fills'] Hi. cbn. f_equal. symmetry.
      apply mark_to_market_other. intros ->. apply (Hs s'); [|by constructor].
      apply list_elem_of_lookup_2 in Hi. by apply (list_elem_of_fmap_2 fst) in Hi.
Qed.

(** C32: reconciliation finds no difference where there is none.  If the position
    manager was given the fills in the order in which they were recorded (and
    marks at any time), and the fills of each symbol belong to one parent, then
    the reconciliation of the server expects of every symbol, to the last bit,
    the quantity, cost and realized profit that the manager holds; once a symbol
    has a mark its unrealized and total profit agree too, and unless a number
    has overflowed it is reported consistent. *)
Theorem reconciliation_agrees quotes s events :
  parents_keyed s -> (forall symbol, one_parent symbol s) ->
  (forall symbol, fills_of symbol events = recorded_fills symbol s) ->
  let (results, m) := reconcile_all_positions quotes s (foldl manager_step ∅ events) in
  rc_symbol <$> results ≡ₚ (map_to_list (gather s)).*1 /\
  Forall (fun r => agrees_with (position (rc_symbol r) m) r) results.
Proof.
  intros HK HO HF. unfold reconcile_all_positions, reconcile_positions.
  pose proof (second_loop_ok quotes (map_to_list (gather s)) events (NoDup_fst_map_to_list _)) as [(marks & E & Hm) E1].
  set (x := foldl _ _ _) in *. rewrite E1. rewrite <- list_fmap_compose. unfold compose. split.
  - rewrite merge_sort_Permutation, <- list_fmap_compose. done.
  - rewrite merge_sort_Permutation. apply Forall_fmap, Forall_forall. intros [symbol fills] Hin. cbn [fst snd].
    cbn [compare_position rc_symbol ri_symbol]. apply compare_agrees; [|rewrite E; apply manager_ok|done].
    rewrite E. etransitivity; [apply (manager_ok (events ++ marks) symbol)|]. rewrite fills_of_app, Hm, app_nil_r, HF.
    rewrite <- gathered_in_order by done. apply elem_of_map_to_list in Hin. by rewrite Hin.
Qed.

(** ** Any order of the fills *)

Definition event_of (f : PositionFillInput Q) : PositionEvent := Fill (fi_side f) (fi_price f) (fi_quantity f) (fi_fee f).

Lemma expected_run symbol (fs : list (PositionFillInput Q)) :
  expected fs = of_position (foldl position_step (PositionState0 symbol) (event_of <$> fs)) /\
  ps_symbol (foldl position_step (PositionState0 symbol) (event_of <$> fs)) = symbol.
Proof.
  unfold expected. induction fs as [|f fs [IH1 IH2]] using rev_ind; [done|].
  rewrite fmap_app, !foldl_app. cbn [fmap list_fmap foldl]. rewrite IH1. split.
  - destruct f as [side q p fee]. rewrite (expect_fill_position _ symbol). cbn [event_of position_step fi_side fi_price fi_quantity fi_fee].
    by rewrite IH2.
  - cbn [event_of position_step]. unfold fill_position. by destruct (if increases _ _ then _ else _).
Qed.

Lemma sumQ_perm l k : l ≡ₚ k -> (sumQ l == sumQ k)%Q.
Proof.
  induction 1 as [|x l k _ IH|x y l|l k k' _ IH1 _ IH2]; [reflexivity| | |by rewrite IH1].
  - by rewrite !sumQ_cons, IH.
  - rewrite !sumQ_cons. ring.
Qed.

(** In exact arithmetic the order of the fills does not matter for what a
    position is worth: whatever order the fills in whole lots of a marked
    position are gathered in, the quantity and the total profit that the
    reconciliation expects are those of the position. *)
Theorem order_of_fills_keeps_worth symbol lot epsilon (fills : list (PositionFillInput Q)) es price :
  (1 # 1000000000000 < lot)%Q -> Forall (event_ok lot) es -> (0 < price)%Q ->
  event_of <$> fills ≡ₚ es ->
  let p := foldl position_step (PositionState0 symbol) (es ++ [Mark price]) in
  let r := compare_position epsilon {| ri_symbol := symbol; ri_fills := fills; ri_actual := p |} in
  (quantity_difference r == 0)%Q /\ (total_pnl_difference r == 0)%Q.
Proof.
  intros HL HE Hp HP p r.
  assert (Forall (event_ok lot) (event_of <$> fills)) as HE' by by rewrite HP.
  assert (Forall (event_ok lot) (es ++ [Mark price])) as HE'' by (apply Forall_app; by split; [|repeat constructor]).
  destruct (position_run_inv symbol lot _ HL HE') as [_ N1 C1 _ _].
  destruct (position_run_inv symbol lot _ HL HE'') as [_ N2 C2 _ M2]. fold p in N2, C2, M2.
  unfold r, compare_position. cbn [ri_fills ri_actual quantity_difference total_pnl_difference].
  rewrite (proj1 (expected_run symbol fills)). set (p' := foldl position_step (PositionState0 symbol) (event_of <$> fills)) in *.
  assert (mark_price p = price) as Hm by (unfold p; by rewrite foldl_app).
  assert (traded <$> (event_of <$> fills) ≡ₚ traded <$> es) as PT by by rewrite HP.
  assert (cash_flow <$> (event_of <$> fills) ≡ₚ cash_flow <$> es) as PC by by rewrite HP.
  apply sumQ_perm in PT, PC. rewrite Hm in M2. specialize (M2 Hp).
  assert (forall f, f (Mark price) = 0%Q -> sumQ (f <$> es ++ [Mark price]) == sumQ (f <$> es))%Q as HS.
  { intros f Hf. rewrite fmap_app. cbn [fmap list_fmap]. rewrite Hf, sumQ_snoc. ring. }
  rewrite HS in N2 by done. rewrite HS in C2 by done.
  cbn [of_position xp_net xp_average xp_realized nsub nadd nmul Q_arithmetic]. rewrite Hm.
  split; [rewrite N1, N2, PT; ring|]. rewrite M2, C1, C2, N1, N2, PT, PC. ring.
Qed.

(** ** Parents *)

Section parents.
Context {DB : Type} `{EventTable DB}.

(** The drop copy holds a fill event for a child exactly when the child has one. *)
Definition fills_copied (s : Oms) (dc : DropCopyStore DB) : Prop := forall child, is_Some (find_child child s) ->
  exists es, events_for_order child dc = Ok es /\
    (existsb is_fill_event es = true <-> exists r, r ∈ execution_reports_ s /\ xr_child_id r = child).

Definition copied (dc : DropCopyStore DB) (child : ChildOrder) : bool :=
  match events_for_order (co_id child) dc with Ok es => existsb is_fill_event es | Throw _ => false end.

Lemma drop_copy_fill_count_ok children (dc : DropCopyStore DB) :
  (forall c, c ∈ children -> exists es, events_for_order (co_id c) dc = Ok es) ->
  drop_copy_fill_count children dc = Ok (length (filter (fun c => copied dc c = true) children)).
Proof.
  induction children as [|c cs IH]; intros HC; [done|]. cbn [drop_copy_fill_count].
  destruct (HC c ltac:(by constructor)) as [es E]. rewrite E. cbn [mbind result_bind].
  rewrite IH by (intros c' Hc'; apply HC; by constructor). cbn [mbind result_bind].
  assert (copied dc c = existsb is_fill_event es) as Hc by (unfold copied; by rewrite E).
  rewrite filter_cons, Hc. by destruct (existsb is_fill_event es).
Qed.

Lemma children_ids n s p : oms_inv n s -> find_parent (po_id p) s = Some p ->
  co_id <$> children_for_parent (po_id p) s = po_child_ids p /\
  forall c, c ∈ children_for_parent (po_id p) s -> find_child (co_id c) s = Some c.
Proof.
  intros I Hp. unfold children_for_parent, find_parent in *. rewrite Hp.
  pose proof (pk_children _ _ _ (oi_parents _ _ I _ _ Hp)) as HC. induction (po_child_ids p) as [|id ids IH].
  - split; [done|]. by intros c []%not_elem_of_nil.
  - destruct (HC id ltac:(by constructor)) as (c & Ec & _). pose proof (ck_id _ _ _ _ (oi_children _ _ I _ _ Ec)) as Hid.
    cbn [omap list_omap]. rewrite Ec. destruct IH as [IH1 IH2]; [intros i Hi; apply HC; by constructor|]. split.
    + cbn. by rewrite Hid, IH1.
    + intros c' [->|Hc']%elem_of_cons; [by rewrite Hid|by apply IH2].
Qed.

(** A parent is only reported consistent when every child has at most one fill:
    a child filled in two parts makes its parent inconsistent. *)
Theorem consistent_parents_fill_once n s (dc : DropCopyStore DB) arrival i r r' :
  oms_inv n s -> fills_copied s dc -> parent_reconciliation_status arrival s dc i = Ok Consistent ->
  r ∈ fills_for_parent i s -> r' ∈ fills_for_parent i s -> xr_child_id r = xr_child_id r' -> r = r'.
Proof.
  intros I HD. unfold parent_reconciliation_status. destruct (find_parent i s) as [p|] eqn:EP; [|done].
  pose proof (pk_id _ _ _ (oi_parents _ _ I _ _ EP)) as Hi. rewrite <- Hi in EP |- *.
  destruct (children_ids n s p I EP) as [HI HC].
  rewrite drop_copy_fill_count_ok.
  2: { intros c Hc. destruct (HD (co_id c)) as (es & E & _); [by rewrite (HC c Hc)|by exists es]. }
  cbn [mbind result_bind]. destruct (analyze_parent _ _ _) as [quality|]; [|done]. cbn [mbind result_bind].
  intros E%(inj Ok). unfold classify in E. destruct (negb _); [done|].
  destruct (_ =? _)%nat eqn:EL in E; [apply Nat.eqb_eq in EL|by destruct (_ && _)%bool in E].
  set (fills := fills_for_parent (po_id p) s) in *. set (cs := children_for_parent (po_id p) s) in *.
  assert (NoDup (xr_child_id <$> fills)) as HN.
  { apply NoDup_ListNoDup. apply (@List.NoDup_incl_NoDup Z (co_id <$> filter (fun c : ChildOrder => copied dc c = true) cs)).
    - apply NoDup_ListNoDup. eapply sublist_NoDup; [|apply fmap_sublist, sublist_filter].
      rewrite HI. apply (oi_parents _ _ I _ _ EP).
    - by rewrite !length_fmap, EL.
    - intros id Hid%list_elem_of_In. apply list_elem_of_In. apply list_elem_of_fmap in Hid as (c & -> & [Hcop Hc]%list_elem_of_filter).
      destruct (HD (co_id c)) as (es & Ees & Hes); [by rewrite (HC c Hc)|]. unfold copied in Hcop. rewrite Ees in Hcop.
      apply Hes in Hcop as (x & Hx & Hxc). apply list_elem_of_fmap. exists x. split; [done|].
      apply list_elem_of_filter. split; [|done]. apply list_elem_of_lookup_1 in Hx as [k Hk].
      destruct (oi_reports _ _ I _ _ Hk) as (_ & _ & _ & c' & Hc' & Hp' & _). rewrite Hxc in Hc'.
      pose proof (HC c Hc) as Hcc. unfold find_child in Hcc. rewrite Hcc in Hc'. injection Hc' as <-. rewrite <- Hp'.
      assert (co_id c ∈ po_child_ids p) as Hin by (rewrite <- HI; by apply list_elem_of_fmap_2).
      destruct (pk_children _ _ _ (oi_parents _ _ I _ _ EP) _ Hin) as (c' & Hc' & Hpp). by simplify_eq. }
  intros Hr Hr' Heq. apply list_elem_of_lookup_1 in Hr as [a Ha], Hr' as [b Hb].
  assert (a = b) as ->; [|by simplify_eq].
  eapply NoDup_lookup; [apply HN| |]; rewrite list_lookup_fmap; [by rewrite Ha|by rewrite Hb, Heq].
Qed.

End parents.

(** The summary counts every parent once and lists the others. *)
Definition with_class (c : ReconciliationClassification) (ps : list ParentReconciliationInput) : list Z :=
  pi_parent_id <$> filter (fun p => pi_classification p = c) ps.

Lemma with_class_snoc c ps p : with_class c (ps ++ [p]) =
  with_class c ps ++ (if decide (pi_classification p = c) then [pi_parent_id p] else []).
Proof. unfold with_class. rewrite filter_app, fmap_app, filter_cons. by case_decide. Qed.

Lemma count_parents n ps : let r := foldl count_parent (no_parents n) ps in
  parent_count_ r = n /\
  (consistent_parents r + legacy_unverifiable_parents r + inconsistent_parents r = length ps)%nat /\
  legacy_unverifiable_ids r = with_class LegacyUnverifiable ps /\ inconsistent_ids r = with_class Inconsistent ps /\
  length (legacy_unverifiable_ids r) = legacy_unverifiable_parents r /\
  length (inconsistent_ids r) = inconsistent_parents r.
Proof.
  cbv zeta. induction ps as [|p ps (H1 & H2 & H3 & H4 & H5 & H6)] using rev_ind; [done|].
  rewrite foldl_app, !with_class_snoc, <- H3, <- H4, length_app. cbn [foldl length]. set (r := foldl _ _ ps) in *. clearbody r.
  unfold count_parent. destruct (pi_classification p); cbn; rewrite ?app_nil_r, ?length_app; cbn; repeat split; done || lia.
Qed.

Lemma reconcile_parents_partition ps : let r := reconcile_parents ps in
  parent_count_ r = length ps /\
  (consistent_parents r + legacy_unverifiable_parents r + inconsistent_parents r = length ps)%nat /\
  legacy_unverifiable_ids r = with_class LegacyUnverifiable ps /\ inconsistent_ids r = with_class Inconsistent ps /\
  (all_verifiable_consistent r = true <-> Forall (fun p => pi_classification p <> Inconsistent) ps).
Proof.
  destruct (count_parents (length ps) ps) as (H1 & H2 & H3 & H4 & _ & H6). unfold reconcile_parents. cbn -[foldl with_class].
  split; [done|]. split; [done|]. split; [done|]. split; [done|].
  rewrite Nat.eqb_eq, <- H6, H4. unfold with_class. rewrite length_fmap, Forall_forall. split.
  - intros E p Hp Hc. apply length_zero_iff_nil in E.
    assert (p ∈ filter (fun p => pi_classification p = Inconsistent) ps) as Hin by by apply list_elem_of_filter.
    rewrite E in Hin. by apply elem_of_nil in Hin.
  - intros HA. destruct (filter _ ps) as [|p l] eqn:E; [done|]. exfalso.
    assert (p ∈ filter (fun p => pi_classification p = Inconsistent) ps) as Hin by (rewrite E; constructor).
    apply list_elem_of_filter in Hin as [Hc Hp]. by apply (HA p).
Qed.

(** ** Examples *)

(** The manager is given every report with its parent. *)
Definition recorded_events (s : Oms) : list ManagerEvent :=
  omap (fun r => (fun p => FillApplied p r) <$> find_parent (xr_parent_id r) s) (execution_reports_ s).

Lemma recorded_events_fills symbol s : fills_of symbol (recorded_events s) = recorded_fills symbol s.
Proof.
  unfold recorded_events, recorded_fills, fills_of. induction (execution_reports_ s) as [|r rs IH]; [done|].
  cbn [omap list_omap]. destruct (find_parent (xr_parent_id r) s) as [p|]; cbn [fmap option_fmap option_map]; [|done].
  cbn [omap list_omap]. by rewrite IH.
Qed.

Lemma one_parent_distinct symbol s : parents_keyed s -> NoDup (po_symbol <$> parents s) -> one_parent symbol s.
Proof.
  intros HK HN r r' p p' _ _ Hp Hp' Hs Hs'.
  assert (po_id p = xr_parent_id r /\ po_id p' = xr_parent_id r') as [E E'] by (split; by apply HK).
  assert (p ∈ parents s /\ p' ∈ parents s) as [Hin Hin'] by (split; (apply parents_elem; [done|]); by rewrite ?E, ?E').
  apply list_elem_of_lookup_1 in Hin as [i Hi], Hin' as [j Hj].
  assert (i = j) as ->; [|congruence].
  apply (NoDup_lookup _ _ _ symbol HN); rewrite list_lookup_fmap; [rewrite Hi|rewrite Hj]; cbn; by f_equal.
Qed.

Definition parent_request (symbol : string) (side : RouteSide) (quantity : Z) : OmsCommand :=
  OCreateParent {| prq_symbol := symbol; prq_side := side; prq_quantity := dbl quantity; prq_algorithm := AlgoMarket |} 1.
Definition child_request (parent quantity : Z) : OmsCommand :=
  OCreateChild {| crq_parent_id := parent; crq_venue := "kraken"; crq_price := dbl 100; crq_quantity := dbl quantity;
                  crq_created := 1 |}.
Definition fill (child price quantity : Z) : OmsCommand := OFill child (dbl price) (dbl quantity) (dbl 1) 2.

Definition demo_quotes (symbol : string) : list VenueQuote :=
  let level p := {| vl_price := dbl p; vl_quantity := dbl 1 |} in
  [{| vq_venue := "kraken"; vq_bids := [level 99]; vq_asks := [level 102]; vq_taker_fee_bps := dzero;
      vq_latency_ms := dzero; vq_latency_cost_bps_per_ms := dzero; vq_healthy := true |}].

(** A buyer of BTC and a seller of ETH. *)
Definition demo_orders : Oms := run [
  parent_request "BTC" RouteBuy 5; child_request 1 5; parent_request "ETH" RouteSell 2; child_request 2 2;
  fill 1 100 2; fill 2 90 1; fill 1 103 3; fill 2 91 1].

Lemma demo_keyed cs : Z.of_nat (length cs) < 2 ^ 64 - 1 -> parents_keyed (run cs).
Proof. intros H i p E. apply (pk_id _ _ _ (oi_parents _ _ (run_inv cs H) _ _ E)). Qed.

Lemma reconciliation_agrees_witness :
  let (results, m) := reconcile_all_positions demo_quotes demo_orders (foldl manager_step ∅ (recorded_events demo_orders)) in
  rc_symbol <$> results ≡ₚ ["BTC"; "ETH"] /\ Forall (fun r => agrees_with (position (rc_symbol r) m) r) results.
Proof.
  pose proof (reconciliation_agrees demo_quotes demo_orders (recorded_events demo_orders)) as H.
  destruct (reconcile_all_positions _ _ _) as [results m]. destruct H as [H1 H2].
  - by apply demo_keyed.
  - intros symbol. apply one_parent_distinct; [by apply demo_keyed|].
    apply (bool_decide_unpack (NoDup (po_symbol <$> parents demo_orders))). by vm_compute.
  - intros symbol. apply recorded_events_fills.
  - split; [|done]. rewrite H1. replace ((map_to_list (gather demo_orders)).*1) with ["ETH"; "BTC"] by (by vm_compute). apply Permutation_swap.
Defined.

Definition reconciles (quotes : string -> list VenueQuote) (cs : list OmsCommand) : bool :=
  positions_consistent quotes (run cs) (foldl manager_step ∅ (recorded_events (run cs))).

(** Two parents of a symbol whose fills interleave: the fills are gathered parent
    by parent, which gives another average cost than the manager's. *)
Example interleaved_parents_reported :
  let parents := [parent_request "BTC" RouteBuy 4; child_request 1 4; parent_request "BTC" RouteSell 1; child_request 2 1] in
  reconciles demo_quotes (parents ++ [fill 1 100 2; fill 1 110 2; fill 2 120 1]) = true /\
  reconciles demo_quotes (parents ++ [fill 1 100 2; fill 2 120 1; fill 1 110 2]) = false.
Proof. by vm_compute. Qed.

(** A position that was never marked. *)
Example unmarked_position_reported :
  reconciles (fun _ => []) [parent_request "BTC" RouteBuy 4; child_request 1 4; fill 1 100 2] = false.
Proof. by vm_compute. Qed.

Definition demo_copy (children : list Z) : DropCopyStore (list Row) :=
  foldl (fun s child => (publish {| dc_id := 0; dc_timestamp := 2; dc_order_id := child; dc_symbol := 1;
    dc_type := "OMS_FILL"; dc_status := "FILLED"; dc_remaining := 0; dc_reason := 0 |} s).2)
    (load_events [] {| capacity_ := 100; events_ := []; events_by_order_ := ∅; incomplete_order_history_ := ∅;
                       next_id_ := 1; database_ := [] |}) children.

(** A child filled at once and a child filled in two parts, every fill copied. *)
Example split_fill_reported :
  let parent := [parent_request "BTC" RouteBuy 4; child_request 1 4] in
  parent_reconciliation_status (fun _ => None) (run (parent ++ [fill 1 100 4])) (demo_copy [1]) 1 = Ok Consistent /\
  parent_reconciliation_status (fun _ => None) (run (parent ++ [fill 1 100 2; fill 1 100 2])) (demo_copy [1; 1]) 1 =
    Ok Inconsistent.
Proof. by vm_compute. Qed.
