(* ===== verification/VenueHealth.v ===== *)
(** * Health of the venues ([venue_health.hpp], [venue_health.cpp])

    The state of a venue is a function of the commands about it: the newest
    timestamp, the numbers of messages and incidents, the last word on its
    synchronization; its status and whether it takes orders follow. *)

From stdpp Require Import gmap.
From S2P Require Import Prelude.
From S2P Require Import Float.

Inductive VenueHealthStatus := UnknownHealth | Healthy | Delayed | Stale | Disconnected.

#[export] Instance health_eq_dec : EqDecision VenueHealthStatus.
Proof. solve_decision. Defined.

Definition health_string (status : VenueHealthStatus) : string :=
  match status with
  | UnknownHealth => "unknown" | Healthy => "healthy" | Delayed => "delayed" | Stale => "stale"
  | Disconnected => "disconnected"
  end.

Record VenueHealthConfig := {
  delayed_after_ns : Z; stale_after_ns : Z; disconnected_after_ns : Z; rate_window_ns : Z
}.

Definition default_config : VenueHealthConfig := {|
  delayed_after_ns := 500000000; stale_after_ns := 2000000000; disconnected_after_ns := 10000000000;
  rate_window_ns := 1000000000 |}.

Record VenueHealthSnapshot := {
  vh_venue : string; vh_status : VenueHealthStatus; vh_synchronized : bool; vh_last_message : Z; vh_quote_age : Z;
  vh_messages : Z; vh_snapshots : Z; vh_updates : Z; vh_reconnects : Z; vh_rejected : Z; vh_gaps : Z;
  vh_checksum_errors : Z; vh_rate : double
}.

Record VenueState := {
  synchronized : bool; first_window_message : Z; window_message_count : Z; last_message : Z; message_count : Z;
  snapshot_count : Z; update_count : Z; reconnect_count : Z; rejected_count : Z; sequence_gap_count : Z;
  checksum_error_count : Z
}.

Definition VenueState0 : VenueState := {|
  synchronized := false; first_window_message := 0; window_message_count := 0; last_message := 0; message_count := 0;
  snapshot_count := 0; update_count := 0; reconnect_count := 0; rejected_count := 0; sequence_gap_count := 0;
  checksum_error_count := 0 |}.

Record VenueHealthMonitor := { config_ : VenueHealthConfig; states_ : gmap string VenueState }.

Definition valid_config (c : VenueHealthConfig) : bool :=
  negb ((delayed_after_ns c =? 0) || (stale_after_ns c <? delayed_after_ns c) ||
        (disconnected_after_ns c <? stale_after_ns c) || (rate_window_ns c =? 0)).

Definition new_monitor (c : VenueHealthConfig) : result VenueHealthMonitor :=
  _ ← guard_or (valid_config c) (invalid_argument "invalid venue health configuration");
  Ok {| config_ := c; states_ := ∅ |}.

(** [states_\[venue\]], changed in place. *)
Definition with_state (venue : string) (f : VenueState -> VenueState) (m : VenueHealthMonitor) : VenueHealthMonitor :=
  {| config_ := config_ m; states_ := <[venue := f (default VenueState0 (states_ m !! venue))]> (states_ m) |}.

(** ** Recording *)

Definition new_window (c : VenueHealthConfig) (timestamp : Z) (s : VenueState) : bool :=
  (first_window_message s =? 0) || (timestamp <? first_window_message s) ||
  (rate_window_ns c <? u64 (timestamp - first_window_message s)).

Definition count_message (c : VenueHealthConfig) (timestamp : Z) (snapshot : bool) (s : VenueState) : VenueState :=
  let fresh := new_window c timestamp s in {|
  synchronized := synchronized s;
  first_window_message := if fresh then timestamp else first_window_message s;
  window_message_count := u64 ((if fresh then 0 else window_message_count s) + 1);
  last_message := Z.max (last_message s) timestamp;
  message_count := u64 (message_count s + 1);
  snapshot_count := if snapshot then u64 (snapshot_count s + 1) else snapshot_count s;
  update_count := if snapshot then update_count s else u64 (update_count s + 1);
  reconnect_count := reconnect_count s; rejected_count := rejected_count s;
  sequence_gap_count := sequence_gap_count s; checksum_error_count := checksum_error_count s |}.

Definition record_message (venue : string) (timestamp : Z) (snapshot : bool) : ST VenueHealthMonitor unit := fun m =>
  if bool_decide (venue = "") || (timestamp =? 0)
  then throw (invalid_argument "venue and timestamp are required") m
  else modify (fun m => with_state venue (count_message (config_ m) timestamp snapshot) m) m.

Definition record_snapshot (venue : string) (timestamp : Z) : ST VenueHealthMonitor unit :=
  record_message venue timestamp true.
Definition record_update (venue : string) (timestamp : Z) : ST VenueHealthMonitor unit :=
  record_message venue timestamp false.

(** The four counters of incidents. *)
Inductive Incident := Reconnect | Rejection | SequenceGap | ChecksumError.

#[export] Instance incident_eq_dec : EqDecision Incident.
Proof. solve_decision. Defined.

Definition incident_count (i : Incident) (s : VenueState) : Z :=
  match i with
  | Reconnect => reconnect_count s | Rejection => rejected_count s | SequenceGap => sequence_gap_count s
  | ChecksumError => checksum_error_count s
  end.

Definition count_incident (i : Incident) (s : VenueState) : VenueState :=
  let add j := if decide (i = j) then u64 (incident_count j s + 1) else incident_count j s in {|
  synchronized := synchronized s; first_window_message := first_window_message s;
  window_message_count := window_message_count s; last_message := last_message s; message_count := message_count s;
  snapshot_count := snapshot_count s; update_count := update_count s;
  reconnect_count := add Reconnect; rejected_count := add Rejection;
  sequence_gap_count := add SequenceGap; checksum_error_count := add ChecksumError |}.

Definition record_incident (i : Incident) (venue : string) : ST VenueHealthMonitor unit :=
  modify (with_state venue (count_incident i)).

Definition record_reconnect : string -> ST VenueHealthMonitor unit := record_incident Reconnect.
Definition record_rejection : string -> ST VenueHealthMonitor unit := record_incident Rejection.
Definition record_sequence_gap : string -> ST VenueHealthMonitor unit := record_incident SequenceGap.
Definition record_checksum_error : string -> ST VenueHealthMonitor unit := record_incident ChecksumError.

Definition synchronize (b : bool) (s : VenueState) : VenueState := {|
  synchronized := b; first_window_message := first_window_message s;
  window_message_count := window_message_count s; last_message := last_message s; message_count := message_count s;
  snapshot_count := snapshot_count s; update_count := update_count s; reconnect_count := reconnect_count s;
  rejected_count := rejected_count s; sequence_gap_count := sequence_gap_count s;
  checksum_error_count := checksum_error_count s |}.

Definition set_synchronized (venue : string) (b : bool) : ST VenueHealthMonitor unit :=
  modify (with_state venue (synchronize b)).

(** ** Snapshots *)

Definition quote_age (s : VenueState) (now : Z) : Z :=
  if (last_message s =? 0) || (now <? last_message s) then 0 else now - last_message s.

Definition status_at (c : VenueHealthConfig) (s : VenueState) (now : Z) : VenueHealthStatus :=
  let age := quote_age s now in
  if last_message s =? 0 then UnknownHealth
  else if negb (synchronized s) || (disconnected_after_ns c <=? age) then Disconnected
  else if stale_after_ns c <=? age then Stale
  else if delayed_after_ns c <=? age then Delayed
  else Healthy.

Definition message_rate (s : VenueState) (now : Z) : double :=
  if negb (first_window_message s =? 0) && (first_window_message s <? now)
  then
    let elapsed := ddiv (dbl (now - first_window_message s)) (dbl 1000000000) in
    if dgt elapsed dzero then ddiv (dbl (window_message_count s)) elapsed else dzero
  else dzero.

Definition build_snapshot (c : VenueHealthConfig) (venue : string) (s : VenueState) (now : Z) : VenueHealthSnapshot := {|
  vh_venue := venue; vh_status := status_at c s now; vh_synchronized := synchronized s;
  vh_last_message := last_message s; vh_quote_age := quote_age s now; vh_messages := message_count s;
  vh_snapshots := snapshot_count s; vh_updates := update_count s; vh_reconnects := reconnect_count s;
  vh_rejected := rejected_count s; vh_gaps := sequence_gap_count s; vh_checksum_errors := checksum_error_count s;
  vh_rate := message_rate s now |}.

Definition no_snapshot (venue : string) : VenueHealthSnapshot := {|
  vh_venue := venue; vh_status := UnknownHealth; vh_synchronized := false; vh_last_message := 0; vh_quote_age := 0;
  vh_messages := 0; vh_snapshots := 0; vh_updates := 0; vh_reconnects := 0; vh_rejected := 0; vh_gaps := 0;
  vh_checksum_errors := 0; vh_rate := dzero |}.

Definition snapshot (venue : string) (now : Z) (m : VenueHealthMonitor) : VenueHealthSnapshot :=
  match states_ m !! venue with
  | None => no_snapshot venue
  | Some s => build_snapshot (config_ m) venue s now
  end.

Definition by_venue (x y : VenueHealthSnapshot) : Prop := String.leb (vh_venue x) (vh_venue y) = true.

#[export] Instance by_venue_dec : RelDecision by_venue.
Proof. intros x y. unfold by_venue. apply _. Defined.

Definition snapshots (now : Z) (m : VenueHealthMonitor) : list VenueHealthSnapshot :=
  merge_sort by_venue ((fun e => build_snapshot (config_ m) e.1 e.2 now) <$> map_to_list (states_ m)).

Definition routable (venue : string) (now : Z) (m : VenueHealthMonitor) : bool :=
  let current := snapshot venue now m in
  vh_synchronized current && (bool_decide (vh_status current = Healthy) || bool_decide (vh_status current = Delayed)).

(** ** What the health monitor shows *)

Inductive HealthCommand :=
| CMessage (venue : string) (timestamp : Z) (snapshot : bool)
| CIncident (incident : Incident) (venue : string)
| CSynchronized (venue : string) (b : bool).

Definition health_exec (c : HealthCommand) : ST VenueHealthMonitor unit :=
  match c with
  | CMessage venue timestamp snapshot => record_message venue timestamp snapshot
  | CIncident incident venue => record_incident incident venue
  | CSynchronized venue b => set_synchronized venue b
  end.

Definition health_run (m : VenueHealthMonitor) (cs : list HealthCommand) : VenueHealthMonitor :=
  foldl (fun m c => (health_exec c m).2) m cs.

(** ** The history of a venue *)

Definition message_of (v : string) (c : HealthCommand) : option (Z * bool) :=
  match c with
  | CMessage venue timestamp snapshot =>
      if bool_decide (venue = v) && negb (bool_decide (venue = "")) && negb (timestamp =? 0)
      then Some (timestamp, snapshot) else None
  | _ => None
  end.

Definition messages_of (v : string) (cs : list HealthCommand) : list (Z * bool) := omap (message_of v) cs.

Definition is_incident (v : string) (i : Incident) (c : HealthCommand) : bool :=
  match c with CIncident j venue => bool_decide (i = j) && bool_decide (venue = v) | _ => false end.

Definition incidents_of (v : string) (i : Incident) (cs : list HealthCommand) : nat :=
  length (filter (fun c => is_incident v i c = true) cs).

Definition last_synchronized (v : string) (cs : list HealthCommand) : bool :=
  default false (last (omap (fun c => match c with
    | CSynchronized venue b => if decide (venue = v) then Some b else None
    | _ => None end) cs)).

Definition newest (l : list (Z * bool)) : Z := foldl (fun m x => Z.max m x.1) 0 l.

Definition kind_count (b : bool) (l : list (Z * bool)) : nat := length (filter (fun x => x.2 = b) l).

Definition timestamps_ok (cs : list HealthCommand) : Prop :=
  Forall (fun c => match c with CMessage _ timestamp _ => in_u64 timestamp | _ => True end) cs.

(** ** The state of a venue *)

Record state_follows (v : string) (cs : list HealthCommand) (s : VenueState) : Prop := {
  sf_last : last_message s = newest (messages_of v cs);
  sf_messages : message_count s = u64 (Z.of_nat (length (messages_of v cs)));
  sf_snapshots : snapshot_count s = u64 (Z.of_nat (kind_count true (messages_of v cs)));
  sf_updates : update_count s = u64 (Z.of_nat (kind_count false (messages_of v cs)));
  sf_incidents i : incident_count i s = u64 (Z.of_nat (incidents_of v i cs));
  sf_synchronized : synchronized s = last_synchronized v cs
}.

Definition state_of (v : string) (m : VenueHealthMonitor) : VenueState := default VenueState0 (states_ m !! v).

Lemma state_of_with venue f v m :
  state_of v (with_state venue f m) = if decide (venue = v) then f (state_of v m) else state_of v m.
Proof.
  unfold state_of, with_state. cbn. case_decide as E; [by rewrite E, lookup_insert_eq|by rewrite lookup_insert_ne].
Qed.

Lemma u64_succ n : u64 (u64 (Z.of_nat n) + 1) = u64 (Z.of_nat (S n)).
Proof. rewrite u64_add_l. f_equal. lia. Qed.

Lemma newest_snoc l x : newest (l ++ [x]) = Z.max (newest l) x.1.
Proof. unfold newest. by rewrite foldl_app. Qed.

Lemma kind_count_snoc b l x : kind_count b (l ++ [x]) = if decide (x.2 = b) then S (kind_count b l) else kind_count b l.
Proof. unfold kind_count. rewrite filter_app, filter_cons, length_app. case_decide; cbn; lia. Qed.

Lemma state_same v cs c s : message_of v c = None ->
  (forall i, incidents_of v i (cs ++ [c]) = incidents_of v i cs) -> last_synchronized v (cs ++ [c]) = last_synchronized v cs ->
  state_follows v cs s -> state_follows v (cs ++ [c]) s.
Proof.
  intros Hm Hi Hs [H1 H2 H3 H4 H5 H6].
  assert (messages_of v (cs ++ [c]) = messages_of v cs) as E
    by (unfold messages_of; rewrite omap_app; cbn; rewrite Hm; apply app_nil_r).
  constructor; rewrite ?E, ?Hs; try done. intros i. by rewrite Hi.
Qed.

Lemma incidents_snoc v i cs c : incidents_of v i (cs ++ [c]) =
  (incidents_of v i cs + if is_incident v i c then 1 else 0)%nat.
Proof. unfold incidents_of. rewrite filter_app, length_app, filter_cons. f_equal. by destruct (is_incident v i c). Qed.

Lemma synchronized_snoc v cs c : last_synchronized v (cs ++ [c]) =
  match c with CSynchronized venue b => if decide (venue = v) then b else last_synchronized v cs | _ => last_synchronized v cs end.
Proof.
  unfold last_synchronized. rewrite omap_app. destruct c; cbn [omap list_omap]; rewrite ?app_nil_r; [done..|].
  case_decide; [by rewrite last_snoc|by rewrite app_nil_r].
Qed.

Lemma exec_follows v cs c m : state_follows v cs (state_of v m) ->
  state_follows v (cs ++ [c]) (state_of v (health_exec c m).2).
Proof.
  intros H. destruct c as [venue timestamp snap|i venue|venue b]; cbn [health_exec].
  - unfold record_message. destruct (bool_decide (venue = "") || (timestamp =? 0)) eqn:E; cbn [throw modify snd].
    + apply state_same; [|intros i; rewrite incidents_snoc; cbn; lia|apply synchronized_snoc|done].
      cbn [message_of]. apply orb_true_iff in E as [-> | ->]; cbn; by rewrite ?andb_false_r.
    + apply orb_false_iff in E as [E1 E2]. rewrite state_of_with. destruct (decide (venue = v)) as [EV|EV].
      * assert (messages_of v (cs ++ [CMessage venue timestamp snap]) = messages_of v cs ++ [(timestamp, snap)]) as EM.
        { unfold messages_of. rewrite omap_app. cbn [omap list_omap message_of].
          rewrite (bool_decide_true (venue = v)) by done. cbn [andb]. by rewrite E1, E2. }
        destruct H as [H1 H2 H3 H4 H5 H6]. constructor; rewrite ?EM, ?newest_snoc, ?length_app, ?kind_count_snoc, ?synchronized_snoc;
          cbn [length count_message last_message message_count snapshot_count update_count synchronized fst snd].
        -- by rewrite H1.
        -- rewrite H2, u64_succ. f_equal. lia.
        -- rewrite H3. destruct snap; [by rewrite decide_True, u64_succ|by rewrite decide_False].
        -- rewrite H4. destruct snap; [by rewrite decide_False|by rewrite decide_True, u64_succ].
        -- intros i. rewrite incidents_snoc; cbn [is_incident]; rewrite Nat.add_0_r, <- H5. by destruct i.
        -- done.
      * apply state_same; [|intros i; rewrite incidents_snoc; cbn; lia|apply synchronized_snoc|done].
        cbn [message_of]. by rewrite (bool_decide_false (venue = v)).
  - unfold record_incident. cbn [modify snd]. rewrite state_of_with. destruct (decide (venue = v)) as [EV|EV].
    + destruct H as [H1 H2 H3 H4 H5 H6].
      assert (messages_of v (cs ++ [CIncident i venue]) = messages_of v cs) as EM
        by (unfold messages_of; rewrite omap_app; cbn; apply app_nil_r).
      constructor; rewrite ?EM, ?synchronized_snoc; try done. intros j. rewrite incidents_snoc.
      specialize (H5 j). cbn [is_incident]. rewrite (bool_decide_true (venue = v)), andb_true_r by done. case_bool_decide as Ej.
      * rewrite Nat.add_1_r, <- u64_succ, <- H5, Ej. by destruct i.
      * rewrite Nat.add_0_r, <- H5. by destruct i, j.
    + apply state_same; [done| |apply synchronized_snoc|done]. intros j. rewrite incidents_snoc. cbn [is_incident]. rewrite (bool_decide_false (venue = v)), andb_false_r by done. lia.
  - unfold set_synchronized. cbn [modify snd]. rewrite state_of_with. destruct (decide (venue = v)) as [EV|EV].
    + destruct H as [H1 H2 H3 H4 H5 H6].
      assert (messages_of v (cs ++ [CSynchronized venue b]) = messages_of v cs) as EM
        by (unfold messages_of; rewrite omap_app; cbn; apply app_nil_r).
      constructor; rewrite ?EM, ?synchronized_snoc; try done.
      * intros i. rewrite incidents_snoc; cbn [is_incident]; rewrite Nat.add_0_r, <- H5. by destruct i.
      * by rewrite decide_True.
    + apply state_same; [done|intros i; rewrite incidents_snoc; cbn; lia| |done]. by rewrite synchronized_snoc, decide_False.
Qed.

Lemma state_follows_new v : state_follows v [] VenueState0.
Proof. constructor; try done. by intros []. Qed.

Lemma run_follows v cs m : states_ m = ∅ -> state_follows v cs (state_of v (health_run m cs)).
Proof.
  intros Hm. induction cs as [|c cs IH] using rev_ind.
  - unfold state_of. cbn. rewrite Hm. apply state_follows_new.
  - unfold health_run. rewrite foldl_app. cbn [foldl]. by apply exec_follows.
Qed.

Lemma health_run_config m cs : config_ (health_run m cs) = config_ m.
Proof.
  unfold health_run. revert m. induction cs as [|c cs IH]; intros m; [done|]. cbn [foldl]. rewrite IH.
  destruct c; cbn; [|done..]. unfold record_message. by destruct (_ || _)%bool.
Qed.

Lemma newest_bounds l : 0 <= newest l /\ Forall (fun x => x.1 <= newest l) l /\
  (newest l = 0 \/ exists x, x ∈ l /\ x.1 = newest l).
Proof.
  induction l as [|x l (H1 & H2 & H3)] using rev_ind; [by repeat split; [|constructor|left]|].
  rewrite newest_snoc. split; [lia|]. split.
  - apply Forall_app. split; [|by constructor; [lia|constructor]]. eapply Forall_impl; [apply H2|]. cbn. intros y Hy. lia.
  - destruct (Z.max_spec (newest l) x.1) as [[_ ->]|[_ ->]].
    + right. exists x. split; [|done]. apply elem_of_app. right. by constructor.
    + destruct H3 as [?|(y & Hy & E)]; [by left|right]. exists y. split; [|done]. apply elem_of_app. by left.
Qed.

(** A message has a positive timestamp. *)
Lemma newest_positive v cs : timestamps_ok cs -> messages_of v cs <> [] -> 0 < newest (messages_of v cs).
Proof.
  intros HT Hne. destruct (newest_bounds (messages_of v cs)) as (H1 & H2 & _).
  destruct (messages_of v cs) as [|x l] eqn:E; [done|]. apply Forall_cons in H2 as [H2 _].
  assert (x ∈ messages_of v cs) as Hx by (rewrite E; constructor).
  apply list_elem_of_omap in Hx as (c & Hc & Hm). unfold timestamps_ok in HT. rewrite Forall_forall in HT. specialize (HT c Hc).
  destruct c as [venue timestamp snap|i venue|venue b]; cbn in Hm; [|done..].
  destruct (_ && _)%bool eqn:EB in Hm; [|done]. injection Hm as <-. unfold in_u64 in HT. apply andb_true_iff in EB as [_ EB].
  apply negb_true_iff, Z.eqb_neq in EB. cbn [fst] in H2. lia.
Qed.

(** The status and the snapshot of a venue after any commands: its newest
    timestamp, its counters and its last synchronization are those of the
    commands; it is unknown before its first message, then disconnected while it
    is not synchronized, and otherwise as old as its newest message; it takes
    orders exactly when it is synchronized and its newest message is younger
    than the limit for stale quotes. *)
Theorem health_follows_commands c m cs v now :
  new_monitor c = Ok m -> 0 <= delayed_after_ns c -> timestamps_ok cs -> 0 <= now ->
  let x := snapshot v now (health_run m cs) in
  let ms := messages_of v cs in let synced := last_synchronized v cs in let age := now - newest ms in
  vh_last_message x = newest ms /\ vh_messages x = u64 (Z.of_nat (length ms)) /\
  vh_snapshots x = u64 (Z.of_nat (kind_count true ms)) /\ vh_updates x = u64 (Z.of_nat (kind_count false ms)) /\
  vh_reconnects x = u64 (Z.of_nat (incidents_of v Reconnect cs)) /\
  vh_rejected x = u64 (Z.of_nat (incidents_of v Rejection cs)) /\
  vh_gaps x = u64 (Z.of_nat (incidents_of v SequenceGap cs)) /\
  vh_checksum_errors x = u64 (Z.of_nat (incidents_of v ChecksumError cs)) /\ vh_synchronized x = synced /\
  vh_status x = (if decide (ms = []) then UnknownHealth
                 else if negb synced || (disconnected_after_ns c <=? age) then Disconnected
                 else if stale_after_ns c <=? age then Stale
                 else if delayed_after_ns c <=? age then Delayed else Healthy) /\
  (routable v now (health_run m cs) = true <-> ms <> [] /\ synced = true /\ age < stale_after_ns c).
Proof.
  unfold new_monitor. destruct (valid_config c) eqn:EV; [|done]. intros [= <-] HD HT Hnow. set (m := {| config_ := c |}).
  pose proof (run_follows v cs m eq_refl) as HF. pose proof (health_run_config m cs) as HC. set (m' := health_run m cs) in *.
  assert (snapshot v now m' = build_snapshot c v (state_of v m') now) as ES.
  { unfold snapshot, state_of. rewrite HC. by destruct (states_ m' !! v). }
  destruct HF as [F1 F2 F3 F4 F5 F6]. set (s := state_of v m') in *.
  unfold valid_config in EV. apply negb_true_iff, orb_false_iff in EV as [EV _]. repeat apply orb_false_iff in EV as [EV ?]. breflect.
  assert (status_at c s now = if decide (messages_of v cs = []) then UnknownHealth
    else if negb (last_synchronized v cs) || (disconnected_after_ns c <=? now - newest (messages_of v cs)) then Disconnected
    else if stale_after_ns c <=? now - newest (messages_of v cs) then Stale
    else if delayed_after_ns c <=? now - newest (messages_of v cs) then Delayed else Healthy) as EST.
  { unfold status_at, quote_age. rewrite F1, F6. case_decide as E; [by rewrite E|].
    pose proof (newest_positive v cs HT E). rewrite (proj2 (Z.eqb_neq _ 0)) by lia. cbn [orb].
    destruct (now <? newest (messages_of v cs)) eqn:EN; [|done]. breflect.
    rewrite !(proj2 (Z.leb_gt _ _)) by lia. done. }
  unfold routable. rewrite ES. cbn [build_snapshot vh_last_message vh_messages vh_snapshots vh_updates vh_reconnects
    vh_rejected vh_gaps vh_checksum_errors vh_synchronized vh_status]. rewrite EST.
  do 4 (split; [done|]). split; [apply (F5 Reconnect)|]. split; [apply (F5 Rejection)|].
  split; [apply (F5 SequenceGap)|]. split; [apply (F5 ChecksumError)|]. do 2 (split; [done|]).
  rewrite F6. case_decide as E; [split; [by rewrite andb_false_r|by intros []]|].
  destruct (last_synchronized v cs); cbn [negb orb andb]; [|split; [done|by intros (_ & ? & _)]].
  repeat case_if; breflect; cbn; (split; [try done; intros _; repeat split; done || lia|intros (_ & _ & ?); lia || done]).
Qed.

(** ** Examples *)

Definition demo_monitor : VenueHealthMonitor := {| config_ := default_config; states_ := ∅ |}.

Lemma health_follows_commands_witness :
  let m := health_run demo_monitor [CSynchronized "kraken" true; CMessage "kraken" 5000 true; CMessage "kraken" 9000 false;
    CIncident SequenceGap "kraken"; CMessage "" 1 true] in
  routable "kraken" 1000009000 m = true /\ vh_status (snapshot "kraken" 1000009000 m) = Delayed.
Proof.
  destruct (health_follows_commands default_config demo_monitor [CSynchronized "kraken" true; CMessage "kraken" 5000 true;
    CMessage "kraken" 9000 false; CIncident SequenceGap "kraken"; CMessage "" 1 true] "kraken" 1000009000)
    as (_ & _ & _ & _ & _ & _ & _ & _ & _ & HS & HR); [done|done|by repeat constructor|done|].
  split; [by apply HR|by rewrite HS].
Defined.

(** A message from the future keeps a venue healthy until its time has passed:
    no real message has come for a day. *)
Example future_message_stays_healthy :
  let day := 86400000000000 in
  let m := health_run demo_monitor [CSynchronized "kraken" true; CMessage "kraken" (2 * day) false; CMessage "kraken" 5000 false] in
  vh_status (snapshot "kraken" day m) = Healthy.
Proof. by vm_compute. Qed.
