(* ===== verification/LatencyStats.v ===== *)
(** * Latency statistics ([latency_stats.hpp], [latency_stats.cpp], [latency.hpp])

    The clock is a parameter of the scoped recorder.  The samples of a series are
    the newest latencies, in a ring; the percentiles are taken at the exact ranks
    although the index is computed with doubles. *)

From stdpp Require Import gmap.
From S2P Require Import Prelude.
From S2P Require Import Float.

Record LatencySnapshot := {
  ls_name : string; ls_count : Z; ls_minimum : Z; ls_maximum : Z; ls_average : double;
  ls_p50 : Z; ls_p95 : Z; ls_p99 : Z
}.

Record Series := {
  se_count : Z; se_total : Z; se_minimum : Z; se_maximum : Z; se_next_index : nat; se_samples : list Z
}.

Definition Series0 : Series := {|
  se_count := 0; se_total := 0; se_minimum := 0; se_maximum := 0; se_next_index := 0; se_samples := [] |}.

Record LatencyStats := { maximum_samples_ : nat; series_ : gmap string Series }.

Definition default_samples : nat := 4096.

Definition new_stats (maximum_samples : nat) : result LatencyStats :=
  _ ← guard_or (negb (maximum_samples =? 0)%nat) (invalid_argument "maximum latency samples must be positive");
  Ok {| maximum_samples_ := maximum_samples; series_ := ∅ |}.

(** ** Recording *)

Definition record_sample (limit : nat) (latency : Z) (s : Series) : Series :=
  let full := negb (length (se_samples s) <? limit)%nat in
  let count := u64 (se_count s + 1) in {|
  se_count := count;
  se_total := u64 (se_total s + latency);
  se_minimum := if (count =? 1) || (latency <? se_minimum s) then latency else se_minimum s;
  se_maximum := Z.max (se_maximum s) latency;
  se_next_index := if full then ((se_next_index s + 1) mod limit)%nat else se_next_index s;
  se_samples := if full then <[se_next_index s := latency]> (se_samples s) else se_samples s ++ [latency] |}.

Definition record (name : string) (latency : Z) : ST LatencyStats unit := fun t =>
  if bool_decide (name = "")
  then throw (invalid_argument "latency series name cannot be empty") t
  else modify (fun t => {|
    maximum_samples_ := maximum_samples_ t;
    series_ := <[name := record_sample (maximum_samples_ t) latency (default Series0 (series_ t !! name))]> (series_ t) |}) t.

(** ** Snapshots *)

Definition q50 : double := S754_finite false 4503599627370496 (-53).
Definition q95 : double := S754_finite false 8556839292003942 (-53).
Definition q99 : double := S754_finite false 8917127262193582 (-53).

(** The index of a quantile among [size] samples. *)
Definition percentile_index (size : Z) (quantile : double) : result Z :=
  to_u64 (dmul quantile (dbl (size - 1))).

Definition percentile (sorted : list Z) (quantile : double) : result Z :=
  match sorted with
  | [] => Ok 0
  | _ =>
      index ← percentile_index (Z.of_nat (length sorted)) quantile;
      match sorted !! Z.to_nat index with
      | Some x => Ok x
      | None => Throw (undefined "sorted[index] out of range")
      end
  end.

Definition sort_samples (l : list Z) : list Z := merge_sort Z.le l.

Definition build_snapshot (name : string) (s : Series) : result LatencySnapshot :=
  let sorted := sort_samples (se_samples s) in
  p50 ← percentile sorted q50;
  p95 ← percentile sorted q95;
  p99 ← percentile sorted q99;
  Ok {| ls_name := name; ls_count := se_count s; ls_minimum := se_minimum s; ls_maximum := se_maximum s;
        ls_average := if se_count s =? 0 then dzero else ddiv (dbl (se_total s)) (dbl (se_count s));
        ls_p50 := p50; ls_p95 := p95; ls_p99 := p99 |}.

Definition no_snapshot (name : string) : LatencySnapshot := {|
  ls_name := name; ls_count := 0; ls_minimum := 0; ls_maximum := 0; ls_average := dzero;
  ls_p50 := 0; ls_p95 := 0; ls_p99 := 0 |}.

Definition snapshot (name : string) (t : LatencyStats) : result LatencySnapshot :=
  match series_ t !! name with
  | None => Ok (no_snapshot name)
  | Some s => build_snapshot name s
  end.

Definition by_name (x y : LatencySnapshot) : Prop := String.leb (ls_name x) (ls_name y) = true.

#[export] Instance by_name_dec : RelDecision by_name.
Proof. intros x y. unfold by_name. apply _. Defined.

Fixpoint build_all (l : list (string * Series)) : result (list LatencySnapshot) :=
  match l with
  | [] => Ok []
  | (name, s) :: l => x ← build_snapshot name s; xs ← build_all l; Ok (x :: xs)
  end.

Definition snapshots (t : LatencyStats) : result (list LatencySnapshot) :=
  xs ← build_all (map_to_list (series_ t)); Ok (merge_sort by_name xs).

Definition reset (name : string) : ST LatencyStats unit :=
  modify (fun t => {| maximum_samples_ := maximum_samples_ t; series_ := delete name (series_ t) |}).

Definition reset_all : ST LatencyStats unit :=
  modify (fun t => {| maximum_samples_ := maximum_samples_ t; series_ := ∅ |}).

(** ** The scoped recorder: its constructor and its destructor *)

Record ScopedLatencyRecorder := { sr_name : string; sr_start : Z }.

Definition scoped_recorder (name : string) (now : Z) : ScopedLatencyRecorder := {| sr_name := name; sr_start := now |}.

Definition end_scope (r : ScopedLatencyRecorder) (now : Z) : ST LatencyStats unit :=
  record (sr_name r) (if sr_start r <=? now then now - sr_start r else 0).

(** ** The recorder of the demonstrations ([latency.hpp]) *)

Definition LatencyRecorder : Type := list Z.

Definition recorder_record (nanoseconds : Z) (r : LatencyRecorder) : LatencyRecorder := r ++ [nanoseconds].
Definition recorder_sort (r : LatencyRecorder) : LatencyRecorder := sort_samples r.

Definition recorder_percentile (p : double) (r : LatencyRecorder) : result Z :=
  if bool_decide (r = []) then Throw (runtime_error "no latency samples")
  else
    index ← percentile_index (Z.of_nat (length r)) p;
    match r !! Z.to_nat (Z.min index (Z.of_nat (length r) - 1)) with
    | Some x => Ok x
    | None => Throw (undefined "samples_[index] out of range")
    end.

Definition recorder_min : LatencyRecorder -> result Z := recorder_percentile dzero.
Definition recorder_max : LatencyRecorder -> result Z := recorder_percentile (dbl 1).

(** ** What the latency statistics show *)

(** ** Ranks *)

Definition rank_ok (size : Z) (quantile : double) (percent : Z) : bool :=
  match percentile_index (size + 1) quantile with
  | Ok i => i =? percent * size / 100
  | Throw _ => false
  end.

Definition ranks_ok (size : Z) : bool := rank_ok size q50 50 && rank_ok size q95 95 && rank_ok size q99 99.

Fixpoint check_ranks (n : nat) (size : Z) : bool :=
  match n with
  | O => true
  | S n => ranks_ok size && check_ranks n (size + 1)
  end.

Lemma check_ranks_ok n size i : check_ranks n size = true -> size <= i < size + Z.of_nat n -> ranks_ok i = true.
Proof.
  revert size. induction n as [|n IH]; intros size; cbn [check_ranks]; [lia|].
  intros [H1 H2]%andb_true_iff Hi. destruct (decide (i = size)) as [->|]; [done|]. apply (IH (size + 1)); [done|lia].
Qed.

Lemma ranks_checked : check_ranks 4096 0 = true.
Proof. by vm_compute. Qed.

Lemma percentile_exact sorted quantile percent :
  (quantile, percent) ∈ [(q50, 50); (q95, 95); (q99, 99)] -> sorted <> [] -> (length sorted <= 4096)%nat ->
  exists x, percentile sorted quantile = Ok x /\
    sorted !! Z.to_nat (percent * (Z.of_nat (length sorted) - 1) / 100) = Some x.
Proof.
  intros Hq Hne Hl. destruct sorted as [|y l]; [done|]. unfold percentile. set (n := Z.of_nat (length (y :: l)) - 1).
  assert (0 <= n < 4096) as Hn by (unfold n; cbn [length] in *; lia).
  pose proof (check_ranks_ok _ _ n ranks_checked ltac:(lia)) as HR.
  unfold ranks_ok in HR. apply andb_true_iff in HR as [[R50 R95]%andb_true_iff R99].
  assert (rank_ok n quantile percent = true /\ 0 <= percent < 100) as [R Hp].
  { repeat (apply elem_of_cons in Hq as [Hq|Hq]; [injection Hq as -> ->; by split|]). by apply elem_of_nil in Hq. }
  unfold rank_ok in R. replace (Z.of_nat (length (y :: l))) with (n + 1) by lia.
  destruct (percentile_index (n + 1) quantile) as [i|]; [|done]. cbn [mbind result_bind]. apply Z.eqb_eq in R. rewrite <- R.
  destruct ((y :: l) !! Z.to_nat i) as [x|] eqn:E; [by exists x|]. apply lookup_ge_None in E.
  assert (i <= n); [|unfold n in *; cbn [length] in *; lia]. rewrite R. apply Z.div_le_upper_bound; nia.
Qed.

(** The index of the demonstrations' recorder is clamped: a percentile of some
    samples is undefined only where the conversion of the index is. *)
Lemma recorder_percentile_defined p (r : list Z) : r <> [] -> is_Some (match percentile_index (Z.of_nat (length r)) p with
    Ok i => Some i | Throw _ => None end) ->
  exists x, recorder_percentile p r = Ok x /\ x ∈ r.
Proof.
  intros Hne [i Hi]. unfold recorder_percentile, LatencyRecorder in *. rewrite bool_decide_false by done.
  destruct (percentile_index (Z.of_nat (length r)) p) as [j|]; [|done]. cbn [mbind result_bind].
  destruct (lookup_lt_is_Some_2 r (Z.to_nat (Z.min j (Z.of_nat (length r) - 1)))) as [x Hx]; [destruct r; cbn in *; [done|lia]|].
  rewrite Hx. exists x. split; [done|]. by eapply list_elem_of_lookup_2.
Qed.

(** ** The ring of samples *)

(** The newest [limit] latencies. *)
Definition newest (limit : nat) (h : list Z) : list Z := drop (length h - limit) h.

Record series_ok (limit : nat) (h : list Z) (s : Series) : Prop := {
  so_count : se_count s = u64 (Z.of_nat (length h));
  so_total : se_total s = u64 (sumZ h);
  so_samples : newest limit h = drop (se_next_index s) (se_samples s) ++ take (se_next_index s) (se_samples s);
  so_next : (se_next_index s < limit)%nat;
  so_growing : (length h <= limit)%nat -> se_next_index s = 0%nat;
  so_maximum : se_maximum s = foldl Z.max 0 h;
  so_minimum : Z.of_nat (length h) < 2 ^ 64 -> forall x l, h = x :: l -> se_minimum s = foldl Z.min x l
}.

Lemma newest_length limit h : length (newest limit h) = (length h `min` limit)%nat.
Proof. unfold newest. rewrite length_drop. lia. Qed.

Lemma newest_snoc_short limit h x : (length h < limit)%nat -> newest limit (h ++ [x]) = h ++ [x].
Proof. intros H. unfold newest. rewrite length_app. cbn. by replace (length h + 1 - limit)%nat with 0%nat by lia. Qed.

Lemma newest_snoc_long limit h x y w : (limit <= length h)%nat -> newest limit h = y :: w ->
  newest limit (h ++ [x]) = w ++ [x].
Proof.
  unfold newest. intros Hl E. rewrite length_app. cbn [length].
  replace (length h + 1 - limit)%nat with (S (length h - limit)) by lia.
  assert (0 < limit)%nat by (apply (f_equal length) in E; rewrite length_drop in E; cbn in E; lia).
  rewrite drop_app_le by lia. f_equal. by rewrite <- (Nat.add_1_r (length h - limit)), <- drop_drop, E.
Qed.

Lemma series_ok_step limit h s x : series_ok limit h s -> 0 <= x -> series_ok limit (h ++ [x]) (record_sample limit x s).
Proof.
  intros [HC HT HS HN HG HX HM] Hx.
  assert (length (se_samples s) = length h `min` limit)%nat as HL.
  { rewrite <- newest_length, HS, length_app, length_drop, length_take. lia. }
  assert (u64 (se_count s + 1) = u64 (Z.of_nat (length (h ++ [x])))) as HC'.
  { rewrite HC, u64_add_l, length_app. cbn. f_equal. lia. }
  unfold record_sample. constructor; cbn [se_count se_total se_minimum se_maximum se_next_index se_samples].
  - done.
  - rewrite HT, u64_add_l, sumZ_app. cbn. by rewrite Z.add_0_r.
  - destruct (length (se_samples s) <? limit)%nat eqn:E; cbn [negb].
    + apply Nat.ltb_lt in E. rewrite HG in HS |- * by lia. rewrite drop_0, take_0, app_nil_r in *.
      rewrite newest_snoc_short by lia. f_equal. rewrite <- HS. unfold newest. by replace (length h - limit)%nat with 0%nat by lia.
    + apply Nat.ltb_ge in E. set (i := se_next_index s) in *. set (samples := se_samples s) in *.
      assert (i < length samples)%nat as Hi by lia. destruct (lookup_lt_is_Some_2 samples i Hi) as [y Hy].
      rewrite (drop_S _ _ _ Hy) in HS. rewrite (newest_snoc_long limit h x y (drop (S i) samples ++ take i samples)) by (done || lia).
      rewrite insert_take_drop by done. rewrite <- app_assoc. destruct (decide (S i = limit)) as [El|El].
      * rewrite Nat.add_1_r, El, Nat.Div0.mod_same, drop_0, take_0, app_nil_r.
        rewrite (drop_ge samples limit) by lia. done.
      * rewrite Nat.add_1_r, Nat.mod_small by lia.
        rewrite drop_app_ge, take_app_ge by (rewrite length_take; lia). rewrite length_take.
        replace (S i - i `min` length samples)%nat with 1%nat by lia. done.
  - destruct (length (se_samples s) <? limit)%nat; cbn [negb]; [done|]. apply Nat.mod_upper_bound. lia.
  - intros Hl. rewrite length_app in Hl. cbn in Hl. rewrite (proj2 (Nat.ltb_lt _ _)) by lia. apply HG. lia.
  - by rewrite foldl_app, HX.
  - intros Hb y l E. rewrite HC', u64_small by (unfold in_u64; lia). destruct h as [|z h].
    + injection E as <- <-. done.
    + injection E as <- <-. rewrite foldl_app. cbn [length app foldl] in *.
      rewrite <- (HM ltac:(rewrite length_app in Hb; cbn in Hb; lia) z h eq_refl).
      rewrite (proj2 (Z.eqb_neq _ _)) by (rewrite length_app; cbn; lia). cbn [orb].
      destruct (x <? se_minimum s) eqn:EX; breflect; lia.
Qed.

(** ** The statistics of a name *)

Inductive LatencyCommand :=
| LRecord (name : string) (latency : Z)
| LReset (name : string)
| LResetAll.

Definition latency_exec (c : LatencyCommand) : ST LatencyStats unit :=
  match c with
  | LRecord name latency => record name latency
  | LReset name => reset name
  | LResetAll => reset_all
  end.

Definition latency_run (t : LatencyStats) (cs : list LatencyCommand) : LatencyStats :=
  foldl (fun t c => (latency_exec c t).2) t cs.

(** The latencies of a name since its last reset. *)
Definition history (name : string) (cs : list LatencyCommand) : list Z :=
  foldl (fun h c => match c with
    | LRecord n latency => if decide (n = name /\ n <> "") then h ++ [latency] else h
    | LReset n => if decide (n = name) then [] else h
    | LResetAll => []
    end) [] cs.

Definition latencies_ok (cs : list LatencyCommand) : Prop :=
  Forall (fun c => match c with LRecord _ latency => 0 <= latency | _ => True end) cs.

Definition stats_ok (limit : nat) (name : string) (h : list Z) (t : LatencyStats) : Prop :=
  maximum_samples_ t = limit /\
  match series_ t !! name with None => h = [] | Some s => h <> [] /\ series_ok limit h s end.

Lemma series_ok_new limit : (0 < limit)%nat -> series_ok limit [] Series0.
Proof. intros H. constructor; done || lia. Qed.

Lemma latency_exec_ok limit name cs c t : (0 < limit)%nat -> latencies_ok [c] ->
  stats_ok limit name (history name cs) t -> stats_ok limit name (history name (cs ++ [c])) (latency_exec c t).2.
Proof.
  intros Hl Hc [Hm Hs]. unfold history. rewrite foldl_app. fold (history name cs). cbn [foldl].
  destruct c as [n latency|n|]; cbn [latency_exec].
  - unfold record. case_bool_decide as En; cbn [throw modify snd]; [rewrite decide_False by naive_solver; by split|].
    split; [done|]. cbn [series_]. apply Forall_cons in Hc as [Hc _]. destruct (decide (n = name)) as [->|Hn].
    + rewrite lookup_insert_eq, decide_True by done. split; [by destruct (history name cs)|]. rewrite Hm.
      destruct (series_ t !! name) as [s|]; cbn [default from_option].
      * apply series_ok_step; [apply Hs|done].
      * rewrite Hs. apply (series_ok_step limit []); [by apply series_ok_new|done].
    + rewrite lookup_insert_ne, decide_False by naive_solver. done.
  - split; [done|]. cbn [reset modify snd series_]. destruct (decide (n = name)) as [->|Hn].
    + by rewrite lookup_delete_eq.
    + by rewrite lookup_delete_ne.
  - split; [done|]. done.
Qed.

(** What a snapshot shows of a name, whatever was recorded and reset: how many
    latencies came since the last reset, their smallest, largest and average,
    and the percentiles of the newest ones: of a sorted window of [n] latencies
    those at the ranks 50, 95 and 99 per cent of [n - 1], rounded down.  The
    snapshot is always defined. *)
Theorem snapshot_describes_latencies limit t cs name :
  new_stats limit = Ok t -> (limit <= default_samples)%nat -> latencies_ok cs -> Z.of_nat (length cs) < 2 ^ 64 ->
  exists x, snapshot name (latency_run t cs) = Ok x /\
  let h := history name cs in let sorted := sort_samples (newest limit h) in
  let at_rank percent := Z.to_nat (percent * (Z.of_nat (length sorted) - 1) / 100) in
  match h with
  | [] => x = no_snapshot name
  | first :: rest =>
      ls_count x = Z.of_nat (length h) /\ ls_minimum x = foldl Z.min first rest /\ ls_maximum x = foldl Z.max 0 h /\
      ls_average x = ddiv (dbl (u64 (sumZ h))) (dbl (Z.of_nat (length h))) /\
      sorted !! at_rank 50 = Some (ls_p50 x) /\ sorted !! at_rank 95 = Some (ls_p95 x) /\
      sorted !! at_rank 99 = Some (ls_p99 x)
  end.
Proof.
  unfold new_stats. destruct (limit =? 0)%nat eqn:E0; [done|]. intros [= <-] Hl HL Hb. apply Nat.eqb_neq in E0.
  set (t := {| maximum_samples_ := limit; series_ := ∅ |}).
  assert (stats_ok limit name (history name cs) (latency_run t cs) /\ (length (history name cs) <= length cs)%nat) as [[Hm Hs] Hlen].
  { clear Hb. induction cs as [|c cs IH] using rev_ind; [by repeat split|].
    apply Forall_app in HL as [HL Hc]. destruct (IH HL) as [IH1 IH2]. split.
    - unfold latency_run. rewrite foldl_app. apply latency_exec_ok; [lia|done..].
    - unfold history. rewrite foldl_app, length_app. fold (history name cs). cbn.
      destruct c; repeat case_decide; rewrite ?length_app; cbn; lia. }
  unfold snapshot. destruct (series_ (latency_run t cs) !! name) as [s|]; [|by rewrite Hs; eexists].
  destruct Hs as [Hne [HC HT HS HN _ HX HM]]. unfold build_snapshot.
  set (h := history name cs) in *.
  assert (sort_samples (se_samples s) = sort_samples (newest limit h)) as ES.
  { unfold sort_samples. apply (Sorted_unique Z.le); [apply Sorted_merge_sort; apply _..|].
    rewrite !merge_sort_Permutation, HS, <- (take_drop (se_next_index s) (se_samples s)) at 1. apply Permutation_app_comm. }
  rewrite ES. set (sorted := sort_samples (newest limit h)) in *.
  assert (length sorted = length (newest limit h)) as EL by (unfold sorted, sort_samples; by rewrite merge_sort_Permutation).
  rewrite newest_length in EL. assert (0 < length h)%nat by (destruct h; cbn; [done|lia]).
  assert (sorted <> []) as Hsne by (intros E; rewrite E in EL; cbn in EL; lia).
  unfold default_samples in Hl.
  destruct (percentile_exact sorted q50 50) as (p50 & -> & H50); [by repeat constructor|done|lia|].
  destruct (percentile_exact sorted q95 95) as (p95 & -> & H95); [by repeat constructor|done|lia|].
  destruct (percentile_exact sorted q99 99) as (p99 & -> & H99); [by repeat constructor|done|lia|].
  cbn [mbind result_bind]. eexists. split; [done|]. cbv zeta. destruct h as [|x l] eqn:Eh; [done|]. rewrite <- Eh in *.
  cbn [ls_count ls_minimum ls_maximum ls_average ls_p50 ls_p95 ls_p99].
  rewrite HC, HT, u64_small by (unfold in_u64; lia). rewrite (proj2 (Z.eqb_neq _ _)) by lia.
  split; [done|]. split; [apply HM; [lia|done]|]. by repeat split.
Qed.

Lemma snapshot_describes_latencies_witness :
  let cs := LRecord "route" 9 :: LReset "route" :: (LRecord "route" <$> [5; 3; 8; 1; 7]) in
  exists x, snapshot "route" (latency_run {| maximum_samples_ := 3; series_ := ∅ |} cs) = Ok x /\
  ls_count x = 5 /\ ls_minimum x = 1 /\ ls_maximum x = 8 /\ Some (ls_p50 x) = Some 7.
Proof.
  set (cs := LRecord "route" 9 :: LReset "route" :: (LRecord "route" <$> [5; 3; 8; 1; 7])). cbv zeta.
  destruct (snapshot_describes_latencies 3 {| maximum_samples_ := 3; series_ := ∅ |} cs "route") as (x & E & H).
  - done.
  - unfold default_samples; lia.
  - repeat constructor; lia.
  - done.
  - exists x. split; [done|]. replace (history "route" cs) with [5; 3; 8; 1; 7] in H by by vm_compute.
    cbv zeta in H. destruct H as (H1 & H2 & H3 & _ & H50 & _). rewrite H1, H2, H3, <- H50. repeat split; vm_compute; reflexivity.
Defined.
