(* ===== verification/MidpointHistory.v ===== *)
(** * Midpoint history ([midpoint_history.hpp], [midpoint_history.cpp])

    The recent midpoints of each symbol, searched by time, and the theorem that
    the searches find the right observation while time goes forward. *)

From stdpp Require Import gmap.
From S2P Require Import Prelude.
From S2P Require Import Float.

Record MidpointObservation := { mo_timestamp : Z; mo_midpoint : double }.

Record MidpointHistory := { retention_ns_ : Z; observations_ : gmap string (list MidpointObservation) }.

Definition default_retention : Z := 300000000000.

Definition new_history (retention_ns : Z) : MidpointHistory := {| retention_ns_ := retention_ns; observations_ := ∅ |}.

(** The loop that drops observations from the front. *)
Fixpoint drop_before (cutoff : Z) (h : list MidpointObservation) : list MidpointObservation :=
  match h with
  | [] => []
  | o :: h' => if mo_timestamp o <? cutoff then drop_before cutoff h' else h
  end.

Definition remember (retention : Z) (o : MidpointObservation) (h : list MidpointObservation) : list MidpointObservation :=
  let cutoff := if retention <? mo_timestamp o then mo_timestamp o - retention else 0 in
  drop_before cutoff (h ++ [o]).

Definition record (symbol : string) (timestamp_ns : Z) (midpoint : double) (m : MidpointHistory) : MidpointHistory :=
  if (timestamp_ns =? 0) || negb (isfinite midpoint) || dle midpoint dzero then m
  else {|
    retention_ns_ := retention_ns_ m;
    observations_ := <[symbol := remember (retention_ns_ m) {| mo_timestamp := timestamp_ns; mo_midpoint := midpoint |}
                                   (default [] (observations_ m !! symbol))]> (observations_ m) |}.

(** [std::lower_bound] and [std::upper_bound]: the range is halved; [before] is
    true of the elements that the search passes. *)
Fixpoint bound_loop {A} (before : A -> bool) (l : list A) (fuel first count : nat) : nat :=
  match fuel with
  | O => first
  | S fuel =>
      if (count =? 0)%nat then first
      else
        let half := Nat.div2 count in
        match l !! (first + half)%nat with
        | Some x =>
            if before x then bound_loop before l fuel (first + half + 1) (count - half - 1)
            else bound_loop before l fuel first half
        | None => first
        end
  end.

Definition bound {A} (before : A -> bool) (l : list A) : nat := bound_loop before l (length l) 0 (length l).

Definition at_or_after (symbol : string) (timestamp_ns : Z) (m : MidpointHistory) : option MidpointObservation :=
  match observations_ m !! symbol with
  | None => None
  | Some h => h !! bound (fun o => mo_timestamp o <? timestamp_ns) h
  end.

Definition at_or_before (symbol : string) (timestamp_ns : Z) (m : MidpointHistory) : option MidpointObservation :=
  match observations_ m !! symbol with
  | None | Some [] => None
  | Some h =>
      match bound (fun o => negb (timestamp_ns <? mo_timestamp o)) h with
      | O => None
      | S i => h !! i
      end
  end.

Definition history_size (symbol : string) (m : MidpointHistory) : nat :=
  match observations_ m !! symbol with None => 0%nat | Some h => length h end.

Definition first (symbol : string) (m : MidpointHistory) : option MidpointObservation :=
  match observations_ m !! symbol with None => None | Some h => head h end.

Definition last_ (symbol : string) (m : MidpointHistory) : option MidpointObservation :=
  match observations_ m !! symbol with None => None | Some h => last h end.

(** ** The searches *)

Lemma bound_loop_ok {A} (before : A -> bool) (l1 l2 : list A) fuel : forall first count,
  Forall (fun x => before x = true) l1 -> Forall (fun x => before x = false) l2 ->
  (first <= length l1 <= first + count)%nat -> (first + count <= length (l1 ++ l2))%nat -> (count <= fuel)%nat ->
  bound_loop before (l1 ++ l2) fuel first count = length l1.
Proof.
  intros first0 count H1 H2. revert first0 count.
  induction fuel as [|fuel IH]; intros first0 count Hr Hl Hf; cbn [bound_loop]; [lia|].
  destruct (count =? 0)%nat eqn:E0; [apply Nat.eqb_eq in E0; lia|]. apply Nat.eqb_neq in E0.
  pose proof (Nat.lt_div2 count ltac:(lia)) as Hh. set (half := Nat.div2 count) in *.
  destruct (lookup_lt_is_Some_2 (l1 ++ l2) (first0 + half)) as [x Hx]; [lia|]. rewrite Hx.
  apply lookup_app_Some in Hx as [Hx|[Hge Hx]].
  - rewrite (proj1 (Forall_lookup _ _) H1 _ _ Hx). apply lookup_lt_Some in Hx. apply IH; lia.
  - rewrite (proj1 (Forall_lookup _ _) H2 _ _ Hx). apply IH; lia.
Qed.

Lemma bound_ok {A} (before : A -> bool) (l1 l2 : list A) :
  Forall (fun x => before x = true) l1 -> Forall (fun x => before x = false) l2 -> bound before (l1 ++ l2) = length l1.
Proof. intros H1 H2. apply bound_loop_ok; try done; rewrite ?length_app; lia. Qed.

(** ** Time goes forward *)

Definition in_order (h : list MidpointObservation) : Prop :=
  StronglySorted (fun o p => mo_timestamp o <= mo_timestamp p) h.

(** A list in order is what is before a time and what is not. *)
Lemma in_order_split h (before : MidpointObservation -> bool) : in_order h ->
  (forall o p, mo_timestamp o <= mo_timestamp p -> before p = true -> before o = true) ->
  h = filter (fun o => before o = true) h ++ filter (fun o => before o = false) h.
Proof.
  intros Hs Hm. induction Hs as [|o h Hs IH Ho]; [done|]. rewrite !filter_cons.
  destruct (before o) eqn:E; [by rewrite decide_True, decide_False by done; cbn; f_equal|].
  rewrite decide_False, decide_True by done. replace (filter (fun o => before o = true) h) with (@nil MidpointObservation) in *.
  - cbn in *. by f_equal.
  - symmetry. clear -Ho Hm E. induction Ho as [|p h Hp _ IH]; [done|]. rewrite filter_cons, decide_False; [done|].
    intros HB. rewrite (Hm o p) in E; done.
Qed.

Lemma bound_in_order h before : in_order h ->
  (forall o p, mo_timestamp o <= mo_timestamp p -> before p = true -> before o = true) ->
  bound before h = length (filter (fun o => before o = true) h).
Proof.
  intros Hs Hm. rewrite (in_order_split h before Hs Hm) at 1.
  apply bound_ok; apply Forall_forall; by intros x [Hx _]%list_elem_of_filter.
Qed.

Lemma drop_before_order cutoff h : in_order h ->
  drop_before cutoff h = filter (fun o => cutoff <= mo_timestamp o) h /\ in_order (drop_before cutoff h).
Proof.
  induction 1 as [|o h Hs [IH1 IH2] Ho]; [by split; [|constructor]|]. cbn [drop_before]. rewrite filter_cons.
  destruct (mo_timestamp o <? cutoff) eqn:E; breflect.
  - by rewrite decide_False by lia.
  - rewrite decide_True by lia. split; [|by constructor]. f_equal. clear -Ho E.
    induction Ho as [|p h Hp _ IH]; [done|]. rewrite filter_cons, decide_True by lia. by f_equal.
Qed.

(** The observations of a symbol that are recorded at all. *)
Definition observed (symbol : string) (cs : list (string * Z * double)) : list MidpointObservation :=
  omap (fun c => let '(s, timestamp, midpoint) := c in
    if decide (s = symbol) then
      if (timestamp =? 0) || negb (isfinite midpoint) || dle midpoint dzero then None
      else Some {| mo_timestamp := timestamp; mo_midpoint := midpoint |}
    else None) cs.

Definition history_run (m : MidpointHistory) (cs : list (string * Z * double)) : MidpointHistory :=
  foldl (fun m c => let '(s, timestamp, midpoint) := c in record s timestamp midpoint m) m cs.

(** The observations within the retention of the newest one. *)
Definition retained (retention : Z) (h : list MidpointObservation) : list MidpointObservation :=
  match last h with
  | None => []
  | Some newest => filter (fun o => 0 `max` (mo_timestamp newest - retention) <= mo_timestamp o) h
  end.

Lemma in_order_filter (P : MidpointObservation -> Prop) `{!forall o, Decision (P o)} h : in_order h -> in_order (filter P h).
Proof.
  induction 1 as [|o h Hs IH Ho]; [constructor|]. rewrite filter_cons. case_decide; [|done].
  constructor; [done|]. apply Forall_forall. intros p [_ Hp]%list_elem_of_filter. rewrite Forall_forall in Ho. by apply Ho.
Qed.

Lemma retained_in_order retention h : in_order h -> in_order (retained retention h).
Proof. intros H. unfold retained. destruct (last h); [by apply in_order_filter|constructor]. Qed.

Lemma remember_retained retention h o : in_order (h ++ [o]) ->
  remember retention o (retained retention h) = retained retention (h ++ [o]).
Proof.
  intros Hs. unfold remember. pose proof Hs as (Ho & Hh & _)%StronglySorted_app.
  assert (in_order (retained retention h ++ [o])) as Hi.
  { apply StronglySorted_app. split; [|split; [by apply retained_in_order|by repeat constructor]].
    intros x y Hx Hy. apply Ho; [|done]. unfold retained in Hx. destruct (last h); [|by apply elem_of_nil in Hx].
    by apply list_elem_of_filter in Hx as [_ Hx]. }
  rewrite (proj1 (drop_before_order _ _ Hi)). unfold retained at 2. rewrite last_snoc, !filter_app.
  assert ((if retention <? mo_timestamp o then mo_timestamp o - retention else 0) = 0 `max` (mo_timestamp o - retention)) as ->
    by (case_if; breflect; lia).
  f_equal. unfold retained. destruct (last h) as [p|] eqn:EL; [|by apply last_None in EL as ->].
  apply list_filter_filter_l. intros q Hq. apply last_Some_elem_of in EL.
  specialize (Ho p o EL ltac:(by constructor)). cbn in Ho. lia.
Qed.

Lemma observed_snoc symbol cs c : observed symbol (cs ++ [c]) = observed symbol cs ++ observed symbol [c].
Proof. apply omap_app. Qed.

Lemma history_run_retained symbol m cs : observations_ m = ∅ -> in_order (observed symbol cs) ->
  retention_ns_ (history_run m cs) = retention_ns_ m /\
  default [] (observations_ (history_run m cs) !! symbol) = retained (retention_ns_ m) (observed symbol cs).
Proof.
  intros Hm. induction cs as [|[[s timestamp] midpoint] cs IH] using rev_ind; [intros _; cbn; by rewrite Hm|].
  rewrite observed_snoc. intros Hs. pose proof Hs as (_ & Hs' & _)%StronglySorted_app. destruct (IH Hs') as [IH1 IH2].
  unfold history_run. rewrite foldl_app. cbn [foldl]. fold (history_run m cs). unfold record.
  cbn [observed omap list_omap] in *. destruct (_ || _)%bool; [case_decide; by rewrite app_nil_r|].
  cbn [retention_ns_ observations_]. split; [done|]. rewrite IH1. destruct (decide (s = symbol)) as [->|Hn].
  - rewrite lookup_insert_eq, IH2. by apply remember_retained.
  - by rewrite lookup_insert_ne, app_nil_r.
Qed.

Lemma lookup_after {A} (l a b : list A) : l = a ++ b -> l !! length a = head b.
Proof. intros ->. by rewrite lookup_app_r, Nat.sub_diag, head_lookup. Qed.

Lemma lookup_before {A} (l a b : list A) i : l = a ++ b -> (i < length a)%nat -> l !! i = a !! i.
Proof. intros -> H. by apply lookup_app_l. Qed.

(** While the timestamps of a symbol do not go back, its history is what was
    observed within the retention of its newest observation, and the two
    searches return the first observation at or after a time and the last one at
    or before it. *)
Theorem history_answers_by_time retention symbol cs timestamp :
  in_order (observed symbol cs) ->
  let m := history_run (new_history retention) cs in
  let h := retained retention (observed symbol cs) in
  history_size symbol m = length h /\ first symbol m = head h /\ last_ symbol m = last h /\
  at_or_after symbol timestamp m = head (filter (fun o => timestamp <= mo_timestamp o) h) /\
  at_or_before symbol timestamp m = last (filter (fun o => mo_timestamp o <= timestamp) h).
Proof.
  intros Hs m h. destruct (history_run_retained symbol (new_history retention) cs eq_refl Hs) as [_ E].
  fold m in E. change (retention_ns_ (new_history retention)) with retention in E. fold h in E.
  assert (in_order h) as Hh by by apply retained_in_order. clearbody h.
  unfold history_size, first, last_, at_or_after, at_or_before.
  destruct (observations_ m !! symbol) as [l|]; cbn in E; [|by subst h]. unfold id in E. subst l.
  do 3 (split; [done|]). split.
  - assert (forall o p, mo_timestamp o <= mo_timestamp p -> (mo_timestamp p <? timestamp) = true ->
      (mo_timestamp o <? timestamp) = true) as HM by (intros o p Ho Hp; breflect; apply Z.ltb_lt; lia).
    rewrite bound_in_order by done.
    rewrite (lookup_after _ _ _ (in_order_split h (fun o => mo_timestamp o <? timestamp) Hh HM)).
    f_equal. apply list_filter_iff. intros o. by rewrite Z.ltb_ge.
  - assert (forall o p, mo_timestamp o <= mo_timestamp p -> negb (timestamp <? mo_timestamp p) = true ->
      negb (timestamp <? mo_timestamp o) = true) as HM by (intros o p Ho Hp; breflect; apply negb_true_iff, Z.ltb_ge; lia).
    rewrite bound_in_order by done.
    pose proof (in_order_split h _ Hh HM) as ES.
    assert (filter (fun o => mo_timestamp o <= timestamp) h = filter (fun o => negb (timestamp <? mo_timestamp o) = true) h) as EF.
    { apply list_filter_iff. intros o. by rewrite negb_true_iff, Z.ltb_ge. }
    rewrite EF, last_lookup. destruct h as [|o h]; [done|].
    destruct (length (filter _ (o :: h))) as [|i] eqn:EL; [by apply length_zero_iff_nil in EL as ->|].
    cbn [pred]. apply (lookup_before _ _ _ _ ES). lia.
Qed.

(** ** Examples *)

Definition demo_observations : list (string * Z * double) :=
  [("BTC", 10, dbl 100); ("ETH", 11, dbl 7); ("BTC", 20, dbl 101); ("BTC", 25, dzero); ("BTC", 40, dbl 102)].

Lemma history_answers_by_time_witness :
  let m := history_run (new_history 25) demo_observations in
  history_size "BTC" m = 2%nat /\ at_or_after "BTC" 21 m = Some {| mo_timestamp := 40; mo_midpoint := dbl 102 |} /\
  at_or_before "BTC" 39 m = Some {| mo_timestamp := 20; mo_midpoint := dbl 101 |}.
Proof.
  assert (in_order (observed "BTC" demo_observations)) as Hs by (cbn; repeat constructor; cbn; lia).
  destruct (history_answers_by_time 25 "BTC" demo_observations 21 Hs) as (H1 & _ & _ & H2 & _).
  destruct (history_answers_by_time 25 "BTC" demo_observations 39 Hs) as (_ & _ & _ & _ & H3).
  cbv zeta in *. rewrite H1, H2, H3. repeat split; vm_compute; reflexivity.
Defined.

(** An observation with an older timestamp hides a newer one from the search. *)
Example older_observation_hides_newer :
  at_or_after "BTC" 6 (history_run (new_history 100) [("BTC", 10, dbl 100); ("BTC", 5, dbl 99)]) = None.
Proof. vm_compute. reflexivity. Qed.
