(* ===== verification/QueueModel.v ===== *)
(** * Queue position of a resting order ([queue_model.hpp], [queue_model.cpp])

    The two counters of the model behave as a queue of unit lots, those of the
    orders ahead in front of one's own. *)

From S2P Require Import Prelude.

Record QueueState := { qs_ahead : Z; qs_own_remaining : Z; qs_filled : Z; qs_events : Z }.

Definition queue_position (ahead own_quantity : Z) : QueueState :=
  {| qs_ahead := ahead; qs_own_remaining := own_quantity; qs_filled := 0; qs_events := 0 |}.

Definition on_trade (traded_at_level : Z) (s : QueueState) : QueueState :=
  let consume_ahead := Z.min (qs_ahead s) traded_at_level in
  let residual := u32 (traded_at_level - consume_ahead) in
  let own_fill := Z.min (qs_own_remaining s) residual in {|
  qs_ahead := u32 (qs_ahead s - consume_ahead); qs_own_remaining := u32 (qs_own_remaining s - own_fill);
  qs_filled := u32 (qs_filled s + own_fill); qs_events := u64 (qs_events s + 1) |}.

Definition on_cancel_ahead (cancelled_ahead : Z) (s : QueueState) : QueueState := {|
  qs_ahead := u32 (qs_ahead s - Z.min (qs_ahead s) cancelled_ahead); qs_own_remaining := qs_own_remaining s;
  qs_filled := qs_filled s; qs_events := u64 (qs_events s + 1) |}.

Definition complete (s : QueueState) : bool := qs_own_remaining s =? 0.

(** ** The queue *)

Inductive Lot := Other | Own.

#[export] Instance Lot_eq_dec : EqDecision Lot.
Proof. solve_decision. Defined.

Inductive QueueEvent := Trade (quantity : Z) | CancelAhead (quantity : Z).

Definition queue_step (s : QueueState) (e : QueueEvent) : QueueState :=
  match e with Trade q => on_trade q s | CancelAhead q => on_cancel_ahead q s end.

(** A trade takes lots from the front, a cancellation lots of others. *)
Definition lots_step (lots : list Lot) (e : QueueEvent) : list Lot :=
  match e with
  | Trade q => drop (Z.to_nat q) lots
  | CancelAhead q => drop (Z.to_nat q `min` length (filter (.= Other) lots)) lots
  end.

Definition own_lots (lots : list Lot) : Z := Z.of_nat (length (filter (.= Own) lots)).

Definition initial_lots (ahead own : Z) : list Lot := repeat Other (Z.to_nat ahead) ++ repeat Own (Z.to_nat own).

Definition queue_event_ok (e : QueueEvent) : Prop := match e with Trade q | CancelAhead q => in_u32 q end.

Lemma filter_repeat (x y : Lot) n : filter (.= x) (repeat y n) = if decide (y = x) then repeat y n else [].
Proof. induction n as [|n IH]; cbn -[filter]; [by case_decide|]. rewrite filter_cons, IH. by case_decide. Qed.

Lemma others_initial a o : length (filter (.= Other) (initial_lots a o)) = Z.to_nat a.
Proof. unfold initial_lots. by rewrite filter_app, !filter_repeat, decide_True, decide_False, app_nil_r, repeat_length. Qed.

Lemma own_initial a o : 0 <= o -> own_lots (initial_lots a o) = o.
Proof.
  intros H. unfold own_lots, initial_lots. rewrite filter_app, !filter_repeat, decide_False, decide_True by done.
  cbn. rewrite repeat_length. lia.
Qed.

Lemma drop_repeat {A} (x : A) k n : drop k (repeat x n) = repeat x (n - k).
Proof. revert n. induction k as [|k IH]; intros [|n]; cbn; [done..|]. apply IH. Qed.

Lemma drop_initial q a o : 0 <= q -> 0 <= a -> 0 <= o ->
  drop (Z.to_nat q) (initial_lots a o) = initial_lots (a - Z.min a q) (o - Z.min o (q - Z.min a q)).
Proof.
  intros Hq Ha Ho. unfold initial_lots. rewrite drop_app, !drop_repeat, repeat_length. f_equal; f_equal; lia.
Qed.

(** The lots of the model: those ahead, then its own. *)
Record follows (own : Z) (lots : list Lot) (s : QueueState) : Prop := {
  fo_lots : lots = initial_lots (qs_ahead s) (qs_own_remaining s);
  fo_ahead : in_u32 (qs_ahead s);
  fo_own : 0 <= qs_own_remaining s /\ 0 <= qs_filled s /\ qs_filled s + qs_own_remaining s = own
}.

Lemma queue_step_follows own lots s e : in_u32 own -> queue_event_ok e -> follows own lots s ->
  follows own (lots_step lots e) (queue_step s e).
Proof.
  unfold in_u32. intros HO He [HL HA (H1 & H2 & H3)]. unfold in_u32 in *. subst lots. destruct e as [q|q]; cbn in He; unfold in_u32 in He;
    constructor; unfold in_u32; cbn [queue_step lots_step on_trade on_cancel_ahead qs_ahead qs_own_remaining qs_filled];
    rewrite ?(u32_small (q - _)), ?(u32_small (qs_ahead s - _)), ?(u32_small (qs_own_remaining s - _)), ?(u32_small (qs_filled s + _))
      by (unfold in_u32; lia); try lia.
  - apply drop_initial; lia.
  - rewrite others_initial. replace (Z.to_nat q `min` Z.to_nat (qs_ahead s))%nat with (Z.to_nat (Z.min (qs_ahead s) q)) by lia.
    rewrite drop_initial by lia. f_equal; lia.
Qed.

(** The model is a queue: whatever trades and cancellations come, what is left
    of the own order are the own lots left when trades take lots from the front
    of the queue and cancellations remove lots ahead; what is filled is the
    rest, and nothing wraps. *)
Theorem position_is_queue ahead own es :
  in_u32 ahead -> in_u32 own -> Forall queue_event_ok es ->
  let s := foldl queue_step (queue_position ahead own) es in
  let lots := foldl lots_step (initial_lots ahead own) es in
  qs_own_remaining s = own_lots lots /\ qs_filled s = own - own_lots lots /\
  qs_ahead s = Z.of_nat (length lots) - own_lots lots /\ (complete s = true <-> Own ∉ lots).
Proof.
  intros HA HO HE s lots.
  assert (follows own lots s) as [HL Ha (H1 & H2 & H3)].
  { unfold s, lots. clear s lots. induction es as [|e es IH] using rev_ind.
    - constructor; cbn; [done|done|unfold in_u32 in *; lia].
    - apply Forall_app in HE as [HE [He _]%Forall_cons]. rewrite !foldl_app. cbn [foldl]. apply queue_step_follows; auto. }
  unfold in_u32 in *. assert (own_lots lots = qs_own_remaining s) as E by (rewrite HL; apply own_initial; lia).
  rewrite E. split; [done|]. split; [lia|]. split.
  - rewrite HL. unfold initial_lots. rewrite length_app, !repeat_length. lia.
  - unfold complete. rewrite Z.eqb_eq, HL. unfold initial_lots. rewrite elem_of_app. split.
    + intros E0 [Hin|Hin]; [by apply list_elem_of_In, repeat_spec in Hin|]. rewrite E0 in Hin. by apply elem_of_nil in Hin.
    + intros Hn. destruct (decide (qs_own_remaining s = 0)) as [|Hne]; [done|]. destruct Hn. right.
      replace (Z.to_nat (qs_own_remaining s)) with (S (Z.to_nat (qs_own_remaining s - 1))) by lia. by constructor.
Qed.

Lemma position_is_queue_witness :
  let s := foldl queue_step (queue_position 5 3) [Trade 2; CancelAhead 1; Trade 4] in
  qs_own_remaining s = 1 /\ qs_filled s = 2 /\ complete s = false.
Proof.
  destruct (position_is_queue 5 3 [Trade 2; CancelAhead 1; Trade 4]) as (H1 & H2 & _ & H3);
    [by split|by split|by repeat (apply Forall_cons; split; [by split|])|]. cbv zeta in *.
  rewrite H1, H2. split; [by vm_compute|]. split; [by vm_compute|]. by vm_compute.
Defined.
