(* ===== verification/Feeds.v ===== *)
(** * What the feeds share

    The JSON of the exchanges as a class of property trees; the loops of
    [kraken_feed.cpp] and [binance_feed.cpp] over payloads and connections with the
    handlers of [kraken_l2_client.cpp] and [binance_l2_client.cpp]; and lemmas on
    changes of levels: a batch leads from one map to another when it deletes what
    disappeared and inserts what is new, and the market of a client takes over
    snapshots and batches. *)

From stdpp Require Import gmap.
From S2P Require Import Prelude.
From S2P Require Import SortedMap.
From S2P Require Import Float.
From S2P Require Import Text.
From S2P Require Import MarketData.
From S2P Require Import MarketDataProps.

Class PropertyTree (T : Type) := {
  (** [read_json] *)
  read_json : str -> result T;
  (** [get<std::string>(path)] and [get<std::uint64_t>(path)], which throw
      where there is no such value *)
  get_text : string -> T -> result str;
  get_unsigned : string -> T -> result Z;
  (** [get_value<std::string>()] *)
  get_value : T -> result str;
  (** [get_child_optional(path)] *)
  get_child_optional : string -> T -> option T;
  (** the children in order, without their names *)
  children : T -> list T
}.

Section get.
Context {T : Type} `{PropertyTree T}.

(** [get(path, default)] *)
Definition text_or (default : str) (path : string) (t : T) : str :=
  match get_text path t with Ok s => s | Throw _ => default end.

Definition unsigned_or (default : Z) (path : string) (t : T) : Z :=
  match get_unsigned path t with Ok z => z | Throw _ => default end.

End get.

(** A result built step by step in a [try]: when a step throws, what was built so
    far stays, with the text of the exception. *)
Definition caught {S} (set_error : string -> S -> S) (m : ST S unit) (s : S) : S :=
  match m s with
  | (Ok _, s) => s
  | (Throw e, s) => set_error (what e) s
  end.

(** ** Documents

    A property tree for the examples: texts, numbers and named children, read from
    a table of payloads. *)
Inductive Doc := DText (s : str) | DNumber (z : Z) | DNode (fields : list (string * Doc)).

Definition doc_field (path : string) (d : Doc) : option Doc :=
  match d with DNode fields => (fun p => p.2.2) <$> list_find (fun f => f.1 = path) fields | _ => None end.

Definition no_such : exn := runtime_error "No such node".

Definition doc_text (d : option Doc) : result str := match d with Some (DText s) => Ok s | _ => Throw no_such end.

Definition doc_number (d : option Doc) : result Z := match d with Some (DNumber z) => Ok z | _ => Throw no_such end.

Definition doc_tree (payloads : list (str * Doc)) : PropertyTree Doc := {|
  read_json s := match list_find (fun p => p.1 = s) payloads with Some (_, p) => Ok p.2 | None => Throw no_such end;
  get_text path d := doc_text (doc_field path d);
  get_unsigned path d := doc_number (doc_field path d);
  get_value d := doc_text (Some d);
  get_child_optional := doc_field;
  children d := match d with DNode fields => snd <$> fields | _ => [] end |}.

(** ** Loops of the feeds *)

Section loops.
Context {N S W : Type}.

(** The normalizer, the statistics and the world. *)
Record Connection := { cn_normalizer : N; cn_stats : S; cn_world : W }.

Definition on_normalizer {A} (m : ST N A) : ST Connection A := fun c =>
  let (r, n) := m (cn_normalizer c) in
  (r, {| cn_normalizer := n; cn_stats := cn_stats c; cn_world := cn_world c |}).

Definition on_world {A} (m : ST W A) : ST Connection A := fun c =>
  let (r, w) := m (cn_world c) in
  (r, {| cn_normalizer := cn_normalizer c; cn_stats := cn_stats c; cn_world := w |}).

Definition on_stats (f : S -> S) : ST Connection unit := modify (fun c =>
  {| cn_normalizer := cn_normalizer c; cn_stats := f (cn_stats c); cn_world := cn_world c |}).

Context (running : W -> bool) (on_status : S -> W -> W).

Definition publish_status : ST Connection unit := modify (fun c =>
  {| cn_normalizer := cn_normalizer c; cn_stats := cn_stats c; cn_world := on_status (cn_stats c) (cn_world c) |}).

(** The loop over the payloads of a connection; when there are no more, reading
    throws. *)
Fixpoint message_loop (handle : str -> Z -> ST Connection unit) (payloads : list (str * Z)) : ST Connection unit := fun c =>
  if running (cn_world c)
  then match payloads with
       | [] => (Throw (runtime_error "end of stream"), c)
       | (payload, now) :: payloads =>
           match handle payload now c with
           | (Ok _, c) => message_loop handle payloads c
           | (Throw e, c) => (Throw e, c)
           end
       end
  else (Ok tt, c).

(** The payloads while none makes the connection end. *)
Fixpoint handle_all (handle : str -> Z -> ST Connection unit) (payloads : list (str * Z)) : ST Connection unit :=
  match payloads with
  | [] => mret tt
  | (payload, now) :: payloads => _ ← handle payload now; handle_all handle payloads
  end.

(** The loop over connections [X]; it is followed until there are no more.
    Errors while closing a connection are left out. *)
Fixpoint run_loop {X} (connection : X -> S -> W -> result unit * (S * W)) (dropped reconnected : S -> S)
    (connections : list X) (s : S) (w : W) : S * W :=
  match connections with
  | [] => (s, w)
  | x :: connections =>
      if running w
      then match connection x s w with
           | (Ok _, (s, w)) => run_loop connection dropped reconnected connections s w
           | (Throw _, (s, w)) =>
               let s := dropped s in
               let w := on_status s w in
               if negb (running w) then (s, w)
               else
                 let s := reconnected s in
                 run_loop connection dropped reconnected connections s (on_status s w)
           end
      else (s, w)
  end.

(** An invariant of the handled payloads. *)
Lemma handle_all_ind (I : Connection -> Prop) (Q : str * Z -> Prop) handle payloads c c' :
  (forall p c c', Q p -> I c -> handle p.1 p.2 c = (Ok tt, c') -> I c') ->
  Forall Q payloads -> I c -> handle_all handle payloads c = (Ok tt, c') -> I c'.
Proof.
  intros Hstep HQ. revert c. induction HQ as [|[payload now] payloads Hq _ IH]; intros c Hc; cbn [handle_all]; [by intros [= <-]|].
  unfold mbind, st_bind. destruct (handle payload now c) as [[[]|e] c1] eqn:E; [|done]. apply IH.
  by apply (Hstep (payload, now) c).
Qed.

(** A connection that ends without an exception was stopped after payloads that
    were all handled. *)
Lemma message_loop_stops handle payloads c c' : message_loop handle payloads c = (Ok tt, c') ->
  running (cn_world c') = false /\ exists handled, handled `prefix_of` payloads /\ handle_all handle handled c = (Ok tt, c').
Proof.
  revert c. induction payloads as [|[payload now] payloads IH]; intros c; cbn [message_loop];
    destruct (running (cn_world c)) eqn:ER; try done.
  - intros [= <-]. split; [done|]. by exists [].
  - destruct (handle payload now c) as [[[]|e] c1] eqn:E; [|done]. intros (H1 & handled & [k ->] & H2)%IH. split; [done|].
    exists ((payload, now) :: handled). split; [by exists k|]. cbn [handle_all]. unfold mbind, st_bind. by rewrite E.
  - intros [= <-]. split; [done|]. exists []. split; [apply prefix_nil|done].
Qed.

End loops.
Arguments Connection N S W : clear implicits.

(** ** The clients

    Their handlers apply what the feed delivers to a market and stop the feed after
    a number of updates; what they print is left out. *)

Section clients.
Context {S : Type} (exchange : string).

Record Client := { cl_market : ConsolidatedMarketData; cl_running : bool; cl_applied : Z; cl_latest : S }.

Definition new_client (s : S) : Client := {| cl_market := ∅; cl_running := true; cl_applied := 0; cl_latest := s |}.

Definition on_client_market (m : ST ConsolidatedMarketData MarketDataDecision) : ST Client MarketDataDecision := fun c =>
  let (r, market) := m (cl_market c) in
  (r, {| cl_market := market; cl_running := cl_running c; cl_applied := cl_applied c; cl_latest := cl_latest c |}).

Definition client_snapshot (s : MarketDataSnapshot) : ST Client unit :=
  d ← on_client_market (cmd_apply_snapshot s);
  if md_accepted d then mret tt else throw (runtime_error (exchange +:+ " snapshot rejected: " +:+ md_message d)).

Definition client_updates (maximum_updates : Z) (us : list MarketDataUpdate) : ST Client unit :=
  d ← on_client_market (cmd_apply_batch us);
  if negb (md_accepted d) then throw (runtime_error (exchange +:+ " updates rejected: " +:+ md_message d))
  else modify (fun c =>
    let applied := u64 (cl_applied c + 1) in {|
    cl_market := cl_market c; cl_running := cl_running c && negb ((0 <? maximum_updates) && (maximum_updates <=? applied));
    cl_applied := applied; cl_latest := cl_latest c |}).

Definition client_status (s : S) (c : Client) : Client :=
  {| cl_market := cl_market c; cl_running := cl_running c; cl_applied := cl_applied c; cl_latest := s |}.

End clients.
Arguments Client S : clear implicits.

(** ** What the feeds share: changes of levels *)

(** ** Sorted maps *)

Section maps.
Context {K V : Type} {P : K -> Prop} {lt : K -> K -> bool} `{!StrictOrderOn P lt}.

Lemma sm_sorted_cons k (v : V) m : sm_sorted lt ((k, v) :: m) <->
  sm_sorted lt m /\ Forall (fun j => lt k j = true) m.*1.
Proof. unfold sm_sorted. cbn. split; [apply StronglySorted_inv|intros []; by constructor]. Qed.

Lemma sm_below j k (m : smap K V) : P j -> P k -> sm_keys P m -> lt j k = true ->
  Forall (fun x => lt k x = true) m.*1 -> Forall (fun x => lt j x = true) m.*1.
Proof.
  unfold sm_keys. intros Hj Hk HP Hlt HB. rewrite Forall_forall in *. intros x Hx. apply (so_trans j k x); auto.
Qed.

Lemma sm_ext (m m' : smap K V) : sm_keys P m -> sm_keys P m' -> sm_sorted lt m -> sm_sorted lt m' ->
  (forall k, P k -> sm_lookup lt k m = sm_lookup lt k m') -> m = m'.
Proof.
  revert m'. induction m as [|[k v] m IH]; intros [|[k' v'] m'] HP HP' HS HS' HE; [done| | |].
  - apply Forall_cons in HP' as [Hk' _]. specialize (HE k' Hk'). cbn in HE. by rewrite (so_irrefl k' Hk') in HE.
  - apply Forall_cons in HP as [Hk _]. specialize (HE k Hk). cbn in HE. by rewrite (so_irrefl k Hk) in HE.
  - pose proof (proj1 (Forall_cons _ _ _) HP) as [Hk HPm]. pose proof (proj1 (Forall_cons _ _ _) HP') as [Hk' HPm'].
    apply sm_sorted_cons in HS as [HS Hb], HS' as [HS' Hb'].
    assert (k = k') as <-.
    { pose proof (HE k Hk) as E. pose proof (HE k' Hk') as E'. cbn in E, E'.
      rewrite (so_irrefl k Hk) in E. rewrite (so_irrefl k' Hk') in E'.
      destruct (lt k k') eqn:E1; [done|]. destruct (lt k' k) eqn:E2; [done|]. by apply so_total. }
    pose proof (HE k Hk) as E. cbn in E. rewrite (so_irrefl k Hk) in E. injection E as <-. f_equal.
    apply IH; try done. intros j Hj. specialize (HE j Hj). cbn in HE. destruct (lt j k) eqn:E1.
    + rewrite !sm_lookup_below; [done|by apply (sm_below j k)..].
    + destruct (lt k j) eqn:E2; [done|]. assert (j = k) as -> by (by apply so_total).
      by rewrite !sm_lookup_below.
Qed.

End maps.

(** ** Snapshots *)

Definition snapshot_levels (m : levels) : list MarketDataLevel := level_of <$> m.

Lemma validate_quantity_ok q : quantity_ok q -> validate_quantity q = Ok tt.
Proof.
  intros [Hf Hq]. unfold validate_quantity. rewrite Hf. cbn [negb orb].
  destruct (dlt q dzero) eqn:E; [|done]. exfalso. unfold dgt, level_epsilon, tiny in Hq. unfold dlt, dzero, SFltb in *.
  by destruct q as [[]|[]| |[] m e].
Qed.

(** A level-2 book with an empty recovery buffer takes over a snapshot. *)
Lemma snapshot_taken_over s b : recovery_buffer_ b = [] ->
  match apply_snapshot s b with
  | (Ok d, b') => snapshot_sides s = Ok (sides b') /\ synchronized_ b' = true /\ recovery_buffer_ b' = []
  | (Throw _, b') => b' = b
  end.
Proof.
  intros HR. unfold apply_snapshot. destruct (snapshot_sides s) as [[bids asks]|]; [|done].
  rewrite HR. cbn [fmap list_fmap replay mret st_ret]. by destruct (_ && _).
Qed.

(** The snapshot of a sorted book. *)
Lemma snapshot_sides_sorted venue symbol sequence timestamp bids asks l : side_ok Bid bids -> side_ok Ask asks ->
  snapshot_sides {| ms_venue := venue; ms_symbol := symbol; ms_sequence := sequence; ms_timestamp_ns := timestamp;
                    ms_bids := snapshot_levels bids; ms_asks := snapshot_levels asks |} = Ok l -> l = (bids, asks).
Proof.
  intros Hb Ha. unfold snapshot_sides. destruct (validate_identity _ _); [|done]. cbn [ms_bids ms_asks mbind result_bind].
  unfold snapshot_levels. rewrite (load_sorted Bid bids []), (load_sorted Ask asks []) by done. cbn [mbind result_bind app].
  destruct (crosses (bids, asks)); [done|]. by intros <-%(inj Ok).
Qed.

(** ** Batches *)

Lemma batch_loop_valid first us : forall latest l,
  mu_venue first <> "" -> mu_symbol first <> "" ->
  Forall (fun u => mu_venue u = mu_venue first /\ mu_symbol u = mu_symbol first /\ mu_sequence u = mu_sequence first /\
                   price_ok (mu_price u) /\ validate_quantity (mu_quantity u) = Ok tt) us ->
  exists t, batch_loop first us latest l = Ok (t, foldl (fun l u => change u l) l us).
Proof.
  intros latest l Hv Hs HF. revert latest l. induction HF as [|u us (E1 & E2 & E3 & Hp & Hq) _ IH]; intros latest l; [by eexists|].
  cbn [batch_loop foldl]. unfold validate_identity. rewrite E1, E2, E3, (bool_decide_false (mu_venue first = "")), (bool_decide_false (mu_symbol first = "")),
    !bool_decide_true, Z.eqb_refl by done.
  cbn [negb andb guard_or mbind result_bind]. rewrite validate_price_iff, Hq by done. cbn [mbind result_bind]. apply IH.
Qed.

(** The updates of one batch. *)
Definition batch_of (venue symbol : string) (sequence : Z) (us : list MarketDataUpdate) : Prop :=
  Forall (fun u => mu_venue u = venue /\ mu_symbol u = symbol /\ mu_sequence u = sequence /\
                   price_ok (mu_price u) /\ validate_quantity (mu_quantity u) = Ok tt) us.

Lemma batch_taken_over venue symbol sequence us b : venue <> "" -> symbol <> "" -> us <> [] ->
  batch_of venue symbol sequence us -> synchronized_ b = true ->
  exists d b', apply_batch us b = (Ok d, b') /\ recovery_buffer_ b' = recovery_buffer_ b /\
    (md_accepted d = true -> sequence = u64 (sequence_ b + 1) /\ sides b' = foldl (fun l u => change u l) (sides b) us /\
       synchronized_ b' = true /\ sequence_ b' = sequence) /\
    (sequence = u64 (sequence_ b + 1) -> crosses (foldl (fun l u => change u l) (sides b) us) = false ->
       md_accepted d = true).
Proof.
  intros Hv Hs Hne HF HS. destruct us as [|first us]; [done|]. unfold apply_batch.
  pose proof HF as [(E1 & E2 & E3 & _) _]%Forall_cons. unfold validate_identity.
  rewrite E1, E2, E3, !bool_decide_false by done. cbn [negb guard_or mbind result_bind]. rewrite HS. cbn [negb].
  destruct (sequence =? u64 (sequence_ b + 1)) eqn:EQ; cbn [negb]; breflect.
  - destruct (batch_loop_valid first (first :: us) (mu_timestamp_ns first) (sides b)) as [t Ht]; [by rewrite E1|by rewrite E2| |].
    { by rewrite E1, E2, E3. }
    rewrite Ht. set (l := foldl _ _ _). destruct (crosses l) eqn:EC; do 2 eexists; (split; [done|]); (split; [done|]).
    + split; [done|]. by intros _ ?.
    + split; [|done]. intros _. split; [done|]. split; [by destruct l|done].
  - do 2 eexists. split; [done|]. split; [done|]. by split.
Qed.

(** ** Changes of one side *)

(** What an update does to the levels of its side. *)
Definition side_step (side : MarketDataSide) (m : levels) (u : MarketDataUpdate) : levels :=
  if bool_decide (mu_type u = Delete) || dle (mu_quantity u) level_epsilon
  then sm_delete (before side) (mu_price u) m else sm_insert (before side) (mu_price u) (mu_quantity u) m.

Definition update_ok (u : MarketDataUpdate) : Prop :=
  price_ok (mu_price u) /\ (mu_type u = Delete \/ quantity_ok (mu_quantity u)).

Lemma quantity_above_epsilon q : quantity_ok q -> dle q level_epsilon = false.
Proof. intros [Hf Hq]. by apply dlt_not_dle. Qed.

Lemma side_step_ok side m u : update_ok u -> side_ok side m -> side_ok side (side_step side m u).
Proof.
  intros [Hp Hq] Hm. unfold side_step. destruct (_ || _) eqn:E; [by apply side_ok_delete|]. breflect.
  apply side_ok_insert; [done| |done]. by destruct Hq.
Qed.

Lemma side_steps_ok side us m : Forall update_ok us -> side_ok side m -> side_ok side (foldl (side_step side) m us).
Proof. intros HF. revert m. induction HF as [|u us Hu _ IH]; intros m Hm; [done|]. cbn. apply IH. by apply side_step_ok. Qed.

Lemma change_side u l : change u l = set_side (mu_side u) (side_step (mu_side u) (side_of (mu_side u) l) u) l.
Proof. done. Qed.

Lemma changes_of_side side us l : Forall (fun u => mu_side u = side) us ->
  foldl (fun l u => change u l) l us = set_side side (foldl (side_step side) (side_of side l) us) l.
Proof.
  intros HF. revert l. induction HF as [|u us Hu _ IH]; intros l; cbn [foldl].
  - by destruct side, l.
  - rewrite IH, change_side, Hu. by destruct side, l.
Qed.

Lemma lookup_untouched side us k m : Forall update_ok us -> price_ok k -> side_ok side m ->
  (forall u, u ∈ us -> mu_price u <> k) ->
  sm_lookup (before side) k (foldl (side_step side) m us) = sm_lookup (before side) k m.
Proof.
  intros HF Hk. revert m. induction HF as [|u us Hu HF IH]; intros m Hm HN; [done|]. cbn [foldl].
  rewrite IH; [|by apply side_step_ok|intros u' Hu'; apply HN; by constructor].
  pose proof (HN u ltac:(by constructor)). unfold side_step. case_if.
  - apply (sm_lookup_delete_ne (P := price_ok)); [apply Hu|done|apply Hm..|done].
  - apply (sm_lookup_insert_ne (P := price_ok)); [apply Hu|done|apply Hm..|done].
Qed.

Lemma lookup_last_change side us u m : Forall update_ok us -> NoDup (mu_price <$> us) -> u ∈ us -> side_ok side m ->
  sm_lookup (before side) (mu_price u) (foldl (side_step side) m us) =
  if bool_decide (mu_type u = Delete) || dle (mu_quantity u) level_epsilon then None else Some (mu_quantity u).
Proof.
  intros HF. revert m. induction HF as [|x us Hx HF IH]; intros m HN Hu Hm; [by apply elem_of_nil in Hu|].
  cbn [fmap list_fmap] in HN. apply NoDup_cons in HN as [Hn HN]. cbn [foldl]. apply elem_of_cons in Hu as [->|Hu].
  - rewrite lookup_untouched; [|done|apply Hx|by apply side_step_ok|].
    + unfold side_step. case_if.
      * apply (sm_lookup_delete_eq (P := price_ok)); [apply Hx|apply Hm..].
      * apply (sm_lookup_insert_eq (P := price_ok)); [apply Hx|apply Hm].
    + intros y Hy E. apply Hn. rewrite <- E. by apply list_elem_of_fmap_2.
  - apply IH; [done..|]. by apply side_step_ok.
Qed.

Lemma deq_price x y : price_ok x -> price_ok y -> deq x y = true -> x = y.
Proof.
  intros Hx Hy H. apply dlt_total_pos; try done; unfold deq, dlt, SFeqb, SFltb in *.
  - by destruct (SFcompare x y) as [[]|].
  - rewrite SFcompare_swap in H. by destruct (SFcompare y x) as [[]|].
Qed.

Lemma quantity_price q : quantity_ok q -> price_ok q.
Proof.
  intros [Hf Hq]. unfold price_ok, dpositive. rewrite Hf. cbn. unfold dgt, level_epsilon, tiny, dle, dlt, dzero, SFltb, SFleb in *.
  by destruct q as [[]|[]| |[] m e].
Qed.

(** ** The market of a client *)

Definition venue_key (venue symbol : string) : string := venue +:+ newline +:+ symbol.

Lemma key_of venue symbol : venue <> "" -> symbol <> "" -> key venue symbol = Ok (venue_key venue symbol).
Proof. intros Hv Hs. unfold key, validate_identity. by rewrite !bool_decide_false. Qed.

(** The book at a key has an empty recovery buffer. *)
Definition unbuffered (k : string) (m : ConsolidatedMarketData) : Prop :=
  recovery_buffer_ (default Level2Book0 (m !! k)) = [].

(** A synchronized book with these sides. *)
Definition holds (k : string) (l : levels * levels) (m : ConsolidatedMarketData) : Prop :=
  exists b, m !! k = Some b /\ sides b = l /\ synchronized_ b = true.

Lemma holds_insert k b m : synchronized_ b = true -> recovery_buffer_ b = [] ->
  holds k (sides b) (<[k := b]> m) /\ unbuffered k (<[k := b]> m).
Proof.
  intros Hy HR. unfold holds, unbuffered, ConsolidatedMarketData in *. rewrite lookup_insert_eq.
  split; [by exists b|done].
Qed.

(** A snapshot and a batch at the market of a feed. *)
Lemma market_snapshot s m d m' : unbuffered (venue_key (ms_venue s) (ms_symbol s)) m ->
  cmd_apply_snapshot s m = (Ok d, m') ->
  exists l, snapshot_sides s = Ok l /\ holds (venue_key (ms_venue s) (ms_symbol s)) l m' /\
            unbuffered (venue_key (ms_venue s) (ms_symbol s)) m'.
Proof.
  intros HR. unfold cmd_apply_snapshot, with_level2_book. destruct (key _ _) as [k|] eqn:EK; [|done].
  assert (k = venue_key (ms_venue s) (ms_symbol s)) as ->.
  { unfold key in EK. destruct (validate_identity _ _); [|done]. by apply (inj Ok) in EK as <-. }
  pose proof (snapshot_taken_over s _ HR) as HS. destruct (apply_snapshot s _) as [[d'|e] b]; [|done].
  destruct HS as (E & Hy & HR'). intros [= _ <-]. exists (sides b). split; [done|]. by apply holds_insert.
Qed.

Lemma market_batch venue symbol sequence us l m d m' : venue <> "" -> symbol <> "" -> us <> [] ->
  batch_of venue symbol sequence us -> holds (venue_key venue symbol) l m -> unbuffered (venue_key venue symbol) m ->
  cmd_apply_batch us m = (Ok d, m') -> md_accepted d = true ->
  holds (venue_key venue symbol) (foldl (fun l u => change u l) l us) m' /\ unbuffered (venue_key venue symbol) m'.
Proof.
  intros Hv Hs Hne HB (b & Eb & <- & Hy) HR. unfold cmd_apply_batch. destruct us as [|first us]; [done|].
  pose proof HB as [(E1 & E2 & _) _]%Forall_cons. rewrite E1, E2. unfold with_level2_book. rewrite key_of by done.
  unfold unbuffered in HR. rewrite Eb in *. cbn [default from_option id] in *.
  destruct (batch_taken_over venue symbol sequence (first :: us) b Hv Hs ltac:(done) HB Hy) as (d' & b' & E & ER & Hacc & _).
  rewrite E. intros [= <- <-] Hd. destruct (Hacc Hd) as (_ & <- & Hy' & _). apply holds_insert; [done|by rewrite ER].
Qed.

(** The handlers of the clients. *)
Section clients.
Context {S : Type} (exchange : string) (maximum_updates : Z).

Lemma snapshot_arrives s (c c' : Client S) : unbuffered (venue_key (ms_venue s) (ms_symbol s)) (cl_market c) ->
  client_snapshot exchange s c = (Ok tt, c') ->
  exists l, snapshot_sides s = Ok l /\ holds (venue_key (ms_venue s) (ms_symbol s)) l (cl_market c') /\
            unbuffered (venue_key (ms_venue s) (ms_symbol s)) (cl_market c').
Proof.
  intros HR. unfold client_snapshot, mbind, st_bind, on_client_market.
  destruct (cmd_apply_snapshot s (cl_market c)) as [[d|e] m'] eqn:E; [|done].
  destruct (md_accepted d); [|done]. intros [= <-]. by eapply market_snapshot.
Qed.

Lemma updates_arrive venue symbol sequence us l (c c' : Client S) : venue <> "" -> symbol <> "" -> us <> [] ->
  batch_of venue symbol sequence us -> holds (venue_key venue symbol) l (cl_market c) ->
  unbuffered (venue_key venue symbol) (cl_market c) ->
  client_updates exchange maximum_updates us c = (Ok tt, c') ->
  holds (venue_key venue symbol) (foldl (fun l u => change u l) l us) (cl_market c') /\
  unbuffered (venue_key venue symbol) (cl_market c').
Proof.
  intros Hv Hs Hne HB HH HR. unfold client_updates, mbind, st_bind, on_client_market.
  destruct (cmd_apply_batch us (cl_market c)) as [[d|e] m'] eqn:E; [|done].
  destruct (md_accepted d) eqn:Ed; [|done]. intros [= <-]. by eapply market_batch.
Qed.

End clients.
