(* ===== verification/Kraken.v ===== *)
(** * Kraken ([kraken_l2.hpp], [kraken_l2.cpp], [kraken_feed.hpp], [kraken_feed.cpp])

    Parsing of book messages, the normalizer, which keeps the levels with their
    texts, checks the checksum of the exchange and publishes the changes of its top
    levels, and the feed: what happens to the payloads of a connection, and the
    reconnection after an exception.  CRC-32 is that of zlib, a parameter; the
    handlers and the flag that keeps the feed running act on a world [W]. *)

From S2P Require Import Prelude.
From S2P Require Import SortedMap.
From S2P Require Import Float.
From S2P Require Import Text.
From S2P Require Import MarketData.
From S2P Require Import Decimal.
From S2P Require Import Feeds.

Record KrakenChecksumLevel := { kl_price : double; kl_quantity : double; kl_price_text : str; kl_quantity_text : str }.

Record KrakenBookMessage := {
  km_valid : bool; km_ignored : bool; km_snapshot : bool; km_symbol : str; km_exchange_timestamp : str;
  km_received_timestamp : Z; km_checksum : Z; km_bids : list MarketDataLevel; km_asks : list MarketDataLevel;
  km_checksum_bids : list KrakenChecksumLevel; km_checksum_asks : list KrakenChecksumLevel; km_error : string
}.

(** ** Parsing *)

Definition empty_message (received : Z) : KrakenBookMessage := {|
  km_valid := false; km_ignored := false; km_snapshot := false; km_symbol := []; km_exchange_timestamp := [];
  km_received_timestamp := received; km_checksum := 0; km_bids := []; km_asks := []; km_checksum_bids := [];
  km_checksum_asks := []; km_error := "" |}.

Definition message_error (error : string) (m : KrakenBookMessage) : KrakenBookMessage := {|
  km_valid := km_valid m; km_ignored := km_ignored m; km_snapshot := km_snapshot m; km_symbol := km_symbol m;
  km_exchange_timestamp := km_exchange_timestamp m; km_received_timestamp := km_received_timestamp m;
  km_checksum := km_checksum m; km_bids := km_bids m; km_asks := km_asks m; km_checksum_bids := km_checksum_bids m;
  km_checksum_asks := km_checksum_asks m; km_error := error |}.

Definition message_valid (ignored : bool) (m : KrakenBookMessage) : KrakenBookMessage := {|
  km_valid := true; km_ignored := ignored; km_snapshot := km_snapshot m; km_symbol := km_symbol m;
  km_exchange_timestamp := km_exchange_timestamp m; km_received_timestamp := km_received_timestamp m;
  km_checksum := km_checksum m; km_bids := km_bids m; km_asks := km_asks m; km_checksum_bids := km_checksum_bids m;
  km_checksum_asks := km_checksum_asks m; km_error := km_error m |}.

Definition message_header (symbol timestamp : str) (snapshot : bool) (checksum : Z) (m : KrakenBookMessage) :
    KrakenBookMessage := {|
  km_valid := km_valid m; km_ignored := km_ignored m; km_snapshot := snapshot; km_symbol := symbol;
  km_exchange_timestamp := timestamp; km_received_timestamp := km_received_timestamp m; km_checksum := checksum;
  km_bids := km_bids m; km_asks := km_asks m; km_checksum_bids := km_checksum_bids m;
  km_checksum_asks := km_checksum_asks m; km_error := km_error m |}.

Definition message_checksum_levels (bids asks : list KrakenChecksumLevel) (m : KrakenBookMessage) : KrakenBookMessage := {|
  km_valid := km_valid m; km_ignored := km_ignored m; km_snapshot := km_snapshot m; km_symbol := km_symbol m;
  km_exchange_timestamp := km_exchange_timestamp m; km_received_timestamp := km_received_timestamp m;
  km_checksum := km_checksum m; km_bids := km_bids m; km_asks := km_asks m; km_checksum_bids := bids;
  km_checksum_asks := asks; km_error := km_error m |}.

Definition message_levels (bids asks : list MarketDataLevel) (m : KrakenBookMessage) : KrakenBookMessage := {|
  km_valid := km_valid m; km_ignored := km_ignored m; km_snapshot := km_snapshot m; km_symbol := km_symbol m;
  km_exchange_timestamp := km_exchange_timestamp m; km_received_timestamp := km_received_timestamp m;
  km_checksum := km_checksum m; km_bids := bids; km_asks := asks; km_checksum_bids := km_checksum_bids m;
  km_checksum_asks := km_checksum_asks m; km_error := km_error m |}.

Definition to_market_levels (levels : list KrakenChecksumLevel) : list MarketDataLevel :=
  (fun l => {| ml_price := kl_price l; ml_quantity := kl_quantity l |}) <$> levels.

Section parse.
Context {T : Type} `{PropertyTree T}.

Definition parse_checksum_level (level : T) : result KrakenChecksumLevel :=
  price_text ← get_text "price" level;
  quantity_text ← get_text "qty" level;
  price ← stod price_text;
  quantity ← stod quantity_text;
  _ ← guard_or (negb (negb (isfinite price.1) || negb (isfinite quantity.1) || dle price.1 dzero ||
                      dlt quantity.1 dzero))
        (invalid_argument "invalid Kraken book level");
  Ok {| kl_price := price.1; kl_quantity := quantity.1; kl_price_text := price_text; kl_quantity_text := quantity_text |}.

Fixpoint parse_levels_loop (entries : list T) : result (list KrakenChecksumLevel) :=
  match entries with
  | [] => Ok []
  | level :: entries => l ← parse_checksum_level level; ls ← parse_levels_loop entries; Ok (l :: ls)
  end.

Definition parse_checksum_levels (data : T) (field : string) : result (list KrakenChecksumLevel) :=
  match get_child_optional field data with
  | None => Ok []
  | Some child => parse_levels_loop (children child)
  end.

(** From the entry of the data on. *)
Definition parse_data (data : T) (snapshot : bool) (expected_symbol : str) : ST KrakenBookMessage unit :=
  symbol ← lift (get_text "symbol" data);
  _ ← modify (fun m => message_header symbol (km_exchange_timestamp m) (km_snapshot m) (km_checksum m) m);
  if negb (bool_decide (expected_symbol = [])) && negb (bool_decide (symbol = expected_symbol))
  then modify (message_error "Kraken symbol mismatch")
  else
    _ ← modify (message_header symbol (text_or [] "timestamp" data) snapshot (unsigned_or 0 "checksum" data));
    bids ← lift (parse_checksum_levels data "bids");
    _ ← modify (message_checksum_levels bids []);
    asks ← lift (parse_checksum_levels data "asks");
    _ ← modify (message_checksum_levels bids asks);
    _ ← modify (message_levels (to_market_levels bids) (to_market_levels asks));
    modify (message_valid false).

Definition parse_root (json expected_symbol : str) : ST KrakenBookMessage unit :=
  root ← lift (read_json json);
  let channel := text_or [] "channel" root in
  let type := text_or [] "type" root in
  if negb (bool_decide (channel = lit "book")) then modify (message_valid true)
  else if negb (bool_decide (type = lit "snapshot")) && negb (bool_decide (type = lit "update"))
  then modify (message_valid true)
  else match children <$> get_child_optional "data" root with
       | None | Some [] => modify (message_error "Kraken book message has no data")
       | Some (data :: _) => parse_data data (bool_decide (type = lit "snapshot")) expected_symbol
       end.

Definition parse_kraken_book_message (json expected_symbol : str) (received_timestamp : Z) : KrakenBookMessage :=
  caught message_error (parse_root json expected_symbol) (empty_message received_timestamp).

End parse.

Definition supported_depth (depth : Z) : bool :=
  (depth =? 10) || (depth =? 25) || (depth =? 100) || (depth =? 500) || (depth =? 1000).

(** The quotation mark of the JSON texts. *)
Definition quote : str := [ascii_of_nat 34].
Definition quoted (s : str) : str := quote ++ s ++ quote.

Definition build_kraken_subscription (symbol : str) (depth : Z) : result str :=
  _ ← guard_or (negb (bool_decide (symbol = []))) (invalid_argument "Kraken symbol cannot be empty");
  _ ← guard_or (supported_depth depth) (invalid_argument "unsupported Kraken book depth");
  Ok (lit "{" ++ quoted (lit "method") ++ lit ":" ++ quoted (lit "subscribe") ++ lit "," ++ quoted (lit "params") ++
      lit ":{" ++ quoted (lit "channel") ++ lit ":" ++ quoted (lit "book") ++ lit "," ++ quoted (lit "symbol") ++
      lit ":[" ++ quoted symbol ++ lit "]," ++ quoted (lit "depth") ++ lit ":" ++ print_integer depth ++ lit "," ++
      quoted (lit "snapshot") ++ lit ":true}}").

(** ** The normalizer *)

Record StoredLevel := { sl_quantity : double; sl_price_text : str; sl_quantity_text : str }.

Definition stored_levels : Type := smap double StoredLevel.

Record KrakenBookNormalizer := {
  kn_symbol : string; kn_depth : nat; kn_sequence : Z; kn_synchronized : bool;
  kn_bids : stored_levels; kn_asks : stored_levels
}.

Definition new_normalizer (symbol : string) (depth : nat) : result KrakenBookNormalizer :=
  _ ← guard_or (negb (bool_decide (symbol = ""))) (invalid_argument "Kraken normalized symbol cannot be empty");
  _ ← guard_or (negb (depth =? 0)%nat) (invalid_argument "Kraken depth must be positive");
  Ok {| kn_symbol := symbol; kn_depth := depth; kn_sequence := 0; kn_synchronized := false; kn_bids := []; kn_asks := [] |}.

Definition set_book (bids asks : stored_levels) (n : KrakenBookNormalizer) : KrakenBookNormalizer := {|
  kn_symbol := kn_symbol n; kn_depth := kn_depth n; kn_sequence := kn_sequence n; kn_synchronized := kn_synchronized n;
  kn_bids := bids; kn_asks := asks |}.

Definition set_sync (sequence : Z) (synchronized : bool) (n : KrakenBookNormalizer) : KrakenBookNormalizer := {|
  kn_symbol := kn_symbol n; kn_depth := kn_depth n; kn_sequence := sequence; kn_synchronized := synchronized;
  kn_bids := kn_bids n; kn_asks := kn_asks n |}.

Definition reset (n : KrakenBookNormalizer) : KrakenBookNormalizer := set_book [] [] (set_sync 0 false n).

Definition stored (l : KrakenChecksumLevel) : StoredLevel :=
  {| sl_quantity := kl_quantity l; sl_price_text := kl_price_text l; sl_quantity_text := kl_quantity_text l |}.

Definition apply_level (side : MarketDataSide) (m : stored_levels) (l : KrakenChecksumLevel) : stored_levels :=
  if deq (kl_quantity l) dzero then sm_delete (before side) (kl_price l) m
  else sm_insert (before side) (kl_price l) (stored l) m.

Definition apply_levels (side : MarketDataSide) (ls : list KrakenChecksumLevel) (m : stored_levels) : stored_levels :=
  foldl (apply_level side) m ls.

(** Each turn removes the last level. *)
Fixpoint trim_loop (fuel depth : nat) (m : stored_levels) : stored_levels :=
  match fuel with
  | O => m
  | S fuel => if (depth <? length m)%nat then trim_loop fuel depth (removelast m) else m
  end.

Definition trim_to_depth (depth : nat) (m : stored_levels) : stored_levels := trim_loop (length m) depth m.

(** The levels of a message on the levels of a book. *)
Definition next_book (message : KrakenBookMessage) (bids asks : stored_levels) (depth : nat) :
    stored_levels * stored_levels :=
  (trim_to_depth depth (apply_levels Bid (km_checksum_bids message) bids),
   trim_to_depth depth (apply_levels Ask (km_checksum_asks message) asks)).

(** The digits of a decimal text, without the point and leading zeros. *)
Fixpoint skip_zeros (s : str) : str :=
  match s with
  | c :: s' => if bool_decide (c = "0"%char) then skip_zeros s' else s
  | [] => []
  end.

Definition append_decimal (value : str) : str :=
  match skip_zeros (filter (fun c => c <> "."%char) value) with
  | [] => lit "0"
  | digits => digits
  end.

Definition checksum_text (e : double * StoredLevel) : str :=
  append_decimal (sl_price_text e.2) ++ append_decimal (sl_quantity_text e.2).

Definition checksum_input (n : KrakenBookNormalizer) : str :=
  concat (checksum_text <$> take 10 (kn_asks n)) ++ concat (checksum_text <$> take 10 (kn_bids n)).

Section normalizer.
Context (crc32 : str -> Z).

Definition calculate_checksum (n : KrakenBookNormalizer) : Z := crc32 (checksum_input n).

Definition checksum_valid (expected : Z) (n : KrakenBookNormalizer) : bool :=
  (expected =? 0) || (calculate_checksum n =? expected).

Definition text (s : str) : string := String.string_of_list_ascii s.

Definition mismatch (what : string) (expected actual : Z) : exn :=
  runtime_error (what +:+ " checksum mismatch expected=" +:+ text (print_integer expected) +:+ " actual=" +:+
                 text (print_integer actual)).

Definition published_levels (m : stored_levels) : list MarketDataLevel :=
  (fun e => {| ml_price := e.1; ml_quantity := sl_quantity e.2 |}) <$> m.

Definition normalize_snapshot (message : KrakenBookMessage) : ST KrakenBookNormalizer MarketDataSnapshot := fun n =>
  if negb (km_valid message) || km_ignored message || negb (km_snapshot message)
  then (Throw (invalid_argument "valid Kraken snapshot required"), n)
  else
    let (bids, asks) := next_book message [] [] (kn_depth n) in
    let n := set_book bids asks (set_sync 0 (kn_synchronized n) n) in
    let actual := calculate_checksum n in
    let synchronized := (km_checksum message =? 0) || (actual =? km_checksum message) in
    let n := set_sync 0 synchronized n in
    if negb synchronized then (Throw (mismatch "Kraken snapshot" (km_checksum message) actual), n)
    else (Ok {| ms_venue := "KRAKEN"; ms_symbol := kn_symbol n; ms_sequence := 0;
                ms_timestamp_ns := km_received_timestamp message;
                ms_bids := published_levels bids; ms_asks := published_levels asks |}, n).

(** ** The changes between two books *)

Definition update_of (n : KrakenBookNormalizer) (timestamp : Z) (side : MarketDataSide) (type : MarketDataUpdateType)
    (price quantity : double) : MarketDataUpdate := {|
  mu_venue := "KRAKEN"; mu_symbol := kn_symbol n; mu_sequence := kn_sequence n; mu_timestamp_ns := timestamp;
  mu_side := side; mu_type := type; mu_price := price; mu_quantity := quantity |}.

(** The levels that disappeared. *)
Definition deletions (n : KrakenBookNormalizer) (timestamp : Z) (side : MarketDataSide) (previous current : stored_levels) :
    list MarketDataUpdate :=
  omap (fun e => match sm_lookup (before side) e.1 current with
    | Some _ => None
    | None => Some (update_of n timestamp side Delete e.1 dzero)
    end) previous.

(** The levels that are new or have another quantity. *)
Definition upserts (n : KrakenBookNormalizer) (timestamp : Z) (side : MarketDataSide) (previous current : stored_levels) :
    list MarketDataUpdate :=
  omap (fun e => match sm_lookup (before side) e.1 previous with
    | Some p => if deq (sl_quantity p) (sl_quantity e.2) then None
                else Some (update_of n timestamp side Upsert e.1 (sl_quantity e.2))
    | None => Some (update_of n timestamp side Upsert e.1 (sl_quantity e.2))
    end) current.

Definition normalize_update (message : KrakenBookMessage) : ST KrakenBookNormalizer (list MarketDataUpdate) := fun n =>
  if negb (km_valid message) || km_ignored message || km_snapshot message
  then (Throw (invalid_argument "valid Kraken update required"), n)
  else if negb (kn_synchronized n) then (Throw (runtime_error "Kraken snapshot required before updates"), n)
  else
    let previous_bids := kn_bids n in
    let previous_asks := kn_asks n in
    let (bids, asks) := next_book message previous_bids previous_asks (kn_depth n) in
    let n := set_book bids asks n in
    let actual := calculate_checksum n in
    if negb (km_checksum message =? 0) && negb (actual =? km_checksum message)
    then (Throw (mismatch "Kraken order-book" (km_checksum message) actual), set_sync (kn_sequence n) false n)
    else
      let n := set_sync (u64 (kn_sequence n + 1)) (kn_synchronized n) n in
      let timestamp := km_received_timestamp message in
      (Ok (deletions n timestamp Bid previous_bids bids ++ deletions n timestamp Ask previous_asks asks ++
           upserts n timestamp Bid previous_bids bids ++ upserts n timestamp Ask previous_asks asks), n).

End normalizer.

(** ** The feed of Kraken ([kraken_feed.hpp], [kraken_feed.cpp]) *)

Record KrakenFeedConfig := {
  kc_exchange_symbol : str; kc_normalized_symbol : string; kc_depth : Z; kc_host : str; kc_port : str; kc_target : str
}.

Definition default_config : KrakenFeedConfig := {|
  kc_exchange_symbol := lit "BTC/USD"; kc_normalized_symbol := "BTC-USD"; kc_depth := 10;
  kc_host := lit "ws.kraken.com"; kc_port := lit "443"; kc_target := lit "/v2" |}.

(** The constructor's checks. *)
Definition new_feed (c : KrakenFeedConfig) : result KrakenFeedConfig :=
  _ ← guard_or (negb (bool_decide (kc_exchange_symbol c = []))) (invalid_argument "Kraken exchange symbol cannot be empty");
  _ ← guard_or (negb (bool_decide (kc_normalized_symbol c = "")))
        (invalid_argument "Kraken normalized symbol cannot be empty");
  _ ← guard_or (supported_depth (kc_depth c)) (invalid_argument "unsupported Kraken book depth");
  _ ← guard_or (negb (bool_decide (kc_host c = []) || bool_decide (kc_port c = []) || bool_decide (kc_target c = [])))
        (invalid_argument "Kraken WebSocket configuration is incomplete");
  Ok c.

Record KrakenFeedStats := {
  kf_connections : Z; kf_snapshots : Z; kf_received : Z; kf_accepted : Z; kf_ignored : Z; kf_rejected : Z;
  kf_reconnects : Z; kf_synchronized : bool; kf_local_sequence : Z; kf_latest_checksum : Z
}.

Definition KrakenFeedStats0 : KrakenFeedStats := {|
  kf_connections := 0; kf_snapshots := 0; kf_received := 0; kf_accepted := 0; kf_ignored := 0; kf_rejected := 0;
  kf_reconnects := 0; kf_synchronized := false; kf_local_sequence := 0; kf_latest_checksum := 0 |}.

(** The counters, by what they count. *)
Inductive Counter := Connections | Snapshots | Received | Accepted | Ignored | RejectedMessages | Reconnects.

#[export] Instance Counter_eq_dec : EqDecision Counter.
Proof. solve_decision. Defined.

Definition count (c : Counter) (s : KrakenFeedStats) : KrakenFeedStats :=
  let add d n := if decide (c = d) then u64 (n + 1) else n in {|
  kf_connections := add Connections (kf_connections s); kf_snapshots := add Snapshots (kf_snapshots s);
  kf_received := add Received (kf_received s); kf_accepted := add Accepted (kf_accepted s);
  kf_ignored := add Ignored (kf_ignored s); kf_rejected := add RejectedMessages (kf_rejected s);
  kf_reconnects := add Reconnects (kf_reconnects s); kf_synchronized := kf_synchronized s;
  kf_local_sequence := kf_local_sequence s; kf_latest_checksum := kf_latest_checksum s |}.

Definition stats_sync (synchronized : bool) (sequence : Z) (s : KrakenFeedStats) : KrakenFeedStats := {|
  kf_connections := kf_connections s; kf_snapshots := kf_snapshots s; kf_received := kf_received s;
  kf_accepted := kf_accepted s; kf_ignored := kf_ignored s; kf_rejected := kf_rejected s; kf_reconnects := kf_reconnects s;
  kf_synchronized := synchronized; kf_local_sequence := sequence; kf_latest_checksum := kf_latest_checksum s |}.

Definition unsynchronized (s : KrakenFeedStats) : KrakenFeedStats := stats_sync false (kf_local_sequence s) s.

Definition stats_checksum (checksum : Z) (s : KrakenFeedStats) : KrakenFeedStats := {|
  kf_connections := kf_connections s; kf_snapshots := kf_snapshots s; kf_received := kf_received s;
  kf_accepted := kf_accepted s; kf_ignored := kf_ignored s; kf_rejected := kf_rejected s; kf_reconnects := kf_reconnects s;
  kf_synchronized := kf_synchronized s; kf_local_sequence := kf_local_sequence s; kf_latest_checksum := checksum |}.

Section Feed.
Context {T : Type} `{PropertyTree T} (crc32 : str -> Z).
Context {W : Type} (running : W -> bool).
Context (on_snapshot : MarketDataSnapshot -> ST W unit) (on_updates : list MarketDataUpdate -> ST W unit)
        (on_status : KrakenFeedStats -> W -> W).
Context (config : KrakenFeedConfig).

Notation Connection := (Connection KrakenBookNormalizer KrakenFeedStats W).
Notation publish_status := (publish_status on_status).

Definition show_book : ST Connection unit := fun c =>
  on_stats (stats_sync (kn_synchronized (cn_normalizer c)) (kn_sequence (cn_normalizer c))) c.

(** A message after its parsing. *)
Definition handle_parsed (parsed : KrakenBookMessage) : ST Connection unit :=
  if negb (km_valid parsed) then
    _ ← on_stats (fun s => unsynchronized (count RejectedMessages s));
    _ ← publish_status;
    throw (runtime_error ("Kraken message parse failed: " +:+ km_error parsed))
  else if km_ignored parsed then
    _ ← on_stats (count Ignored);
    publish_status
  else
    _ ← on_stats (stats_checksum (km_checksum parsed));
    if km_snapshot parsed then
      snapshot ← on_normalizer (normalize_snapshot crc32 parsed);
      _ ← on_world (on_snapshot snapshot);
      _ ← on_stats (count Snapshots);
      _ ← show_book;
      publish_status
    else
      updates ← on_normalizer (normalize_update crc32 parsed);
      if bool_decide (updates = []) then
        _ ← on_stats (count Ignored);
        publish_status
      else
        _ ← on_world (on_updates updates);
        _ ← on_stats (count Accepted);
        _ ← show_book;
        publish_status.

Definition handle_payload (payload : str) (now : Z) : ST Connection unit :=
  _ ← on_stats (count Received);
  handle_parsed (parse_kraken_book_message payload (kc_exchange_symbol config) now).

(** A connection: none when it fails before the payloads; the subscription is sent
    first.  Errors while closing are left out. *)
Definition connection (payloads : option (list (str * Z))) (s : KrakenFeedStats) (w : W) : result unit * (KrakenFeedStats * W) :=
  match payloads with
  | None => (Throw (runtime_error "connection failed"), (s, w))
  | Some payloads =>
      let s := unsynchronized (count Connections s) in
      let w := on_status s w in
      match (_ ← build_kraken_subscription (kc_exchange_symbol config) (kc_depth config);
             new_normalizer (kc_normalized_symbol config) (Z.to_nat (kc_depth config))) with
      | Throw e => (Throw e, (s, w))
      | Ok n =>
          let (r, c) := message_loop running handle_payload payloads {| cn_normalizer := n; cn_stats := s; cn_world := w |} in
          (r, (cn_stats c, cn_world c))
      end
  end.

Definition run (connections : list (option (list (str * Z)))) (w : W) : KrakenFeedStats * W :=
  run_loop running on_status connection unsynchronized (count Reconnects) connections KrakenFeedStats0 w.

End Feed.
