(* ===== verification/KrakenProps.v ===== *)
(** * The book of Kraken arrives

    The published updates lead the market of a client from one book of the
    normalizer to the next. *)

From stdpp Require Import gmap.
From S2P Require Import Prelude.
From S2P Require Import Text.
From S2P Require Import Float.
From S2P Require Import Decimal.
From S2P Require Import SortedMap.
From S2P Require Import MarketData.
From S2P Require Import MarketDataProps.
From S2P Require Import Feeds.
From S2P Require Import Kraken.

(** ** Parsed levels *)

Definition parsed_level (l : KrakenChecksumLevel) : Prop :=
  price_ok (kl_price l) /\ isfinite (kl_quantity l) = true /\ dlt (kl_quantity l) dzero = false.

Section parse.
Context {T : Type} `{PropertyTree T}.

Lemma parse_checksum_level_ok (t : T) l : parse_checksum_level t = Ok l -> parsed_level l.
Proof.
  unfold parse_checksum_level. destruct (get_text "price" t) as [p|]; [|done]. cbn [mbind result_bind].
  destruct (get_text "qty" t) as [q|]; [|done]. cbn [mbind result_bind].
  destruct (stod p) as [[price i]|]; [|done]. cbn [mbind result_bind].
  destruct (stod q) as [[quantity j]|]; [|done]. cbn [mbind result_bind fst].
  unfold guard_or. destruct (negb _) eqn:E; [|done]. cbn [mbind result_bind]. intros <-%(inj Ok).
  apply negb_true_iff in E. repeat apply orb_false_iff in E as [E ?]. apply negb_false_iff in E.
  unfold parsed_level, price_ok, dpositive. cbn [kl_price kl_quantity].
  match goal with H : negb (isfinite quantity) = false |- _ => apply negb_false_iff in H end.
  by rewrite E, (proj2 (negb_true_iff _)).
Qed.

Lemma parse_levels_loop_ok (ts : list T) ls : parse_levels_loop ts = Ok ls -> Forall parsed_level ls.
Proof.
  revert ls. induction ts as [|t ts IH]; intros ls; cbn [parse_levels_loop]; [intros <-%(inj Ok); constructor|].
  destruct (parse_checksum_level t) as [l|] eqn:E; [|done]. cbn [mbind result_bind].
  destruct (parse_levels_loop ts) as [ls'|]; [|done]. cbn [mbind result_bind]. intros <-%(inj Ok).
  constructor; [by apply parse_checksum_level_ok in E|by apply IH].
Qed.

Lemma parse_checksum_levels_ok (t : T) f ls : parse_checksum_levels t f = Ok ls -> Forall parsed_level ls.
Proof.
  unfold parse_checksum_levels. destruct (get_child_optional f t); [apply parse_levels_loop_ok|intros <-%(inj Ok); constructor].
Qed.

Definition message_ok (m : KrakenBookMessage) : Prop :=
  Forall parsed_level (km_checksum_bids m) /\ Forall parsed_level (km_checksum_asks m).

Lemma parse_data_ok (t : T) b s m : message_ok m -> message_ok (parse_data t b s m).2.
Proof.
  intros Hm. unfold parse_data. unfold mbind, st_bind, lift, modify.
  destruct (get_text "symbol" t); [|done]. destruct (_ && _); [done|].
  destruct (parse_checksum_levels t "bids") as [bids|] eqn:EB; [|done].
  destruct (parse_checksum_levels t "asks") as [asks|] eqn:EA.
  - split; cbn; by eapply parse_checksum_levels_ok.
  - split; cbn; [by eapply parse_checksum_levels_ok|constructor].
Qed.

(** Whatever the text, the levels of a message have positive prices and
    quantities that are not negative. *)
Lemma parsed_message_ok json symbol now : message_ok (parse_kraken_book_message (T := T) json symbol now).
Proof.
  unfold parse_kraken_book_message, caught. set (m := empty_message now).
  assert (message_ok m) as Hm by (split; constructor).
  assert (message_ok (parse_root (T := T) json symbol m).2) as HP.
  { unfold parse_root, mbind, st_bind, lift. destruct (read_json json) as [root|e]; [|done].
    destruct (negb _); [done|]. destruct (_ && _); [done|].
    destruct (children <$> get_child_optional "data" root) as [[|data l]|]; [done| |done]. by apply parse_data_ok. }
  by destruct (parse_root json symbol m) as [[[]|e] m'].
Qed.

End parse.

(** ** Books of the normalizer *)

Definition published (m : stored_levels) : levels := (fun e => (e.1, sl_quantity e.2)) <$> m.

Definition stored_ok (side : MarketDataSide) (m : stored_levels) : Prop := side_ok side (published m).

(** Quantities of a message are zero or above the tolerance of the books. *)
Definition level_ok (l : KrakenChecksumLevel) : Prop :=
  price_ok (kl_price l) /\ (deq (kl_quantity l) dzero = true \/ quantity_ok (kl_quantity l)).

Lemma published_keys m : (published m).*1 = m.*1.
Proof. unfold published. rewrite <- list_fmap_compose. done. Qed.

Lemma published_cons k v m : published ((k, v) :: m) = (k, sl_quantity v) :: published m.
Proof. done. Qed.

Lemma published_delete side p m : published (sm_delete (before side) p m) = sm_delete (before side) p (published m).
Proof.
  induction m as [|[k v] m IH]; [done|]. rewrite published_cons. cbn [sm_delete].
  repeat case_if; rewrite ?published_cons, ?IH; done.
Qed.

Lemma published_insert side p v m : published (sm_insert (before side) p v m) = sm_insert (before side) p (sl_quantity v) (published m).
Proof.
  induction m as [|[k w] m IH]; [done|]. rewrite published_cons. cbn [sm_insert].
  repeat case_if; rewrite ?published_cons, ?IH; done.
Qed.

Lemma published_lookup side p m : sm_lookup (before side) p (published m) = sl_quantity <$> sm_lookup (before side) p m.
Proof. induction m as [|[k w] m IH]; [done|]. rewrite published_cons. cbn [sm_lookup]. by repeat case_if. Qed.

Lemma apply_levels_ok side ls m : Forall level_ok ls -> stored_ok side m -> stored_ok side (apply_levels side ls m).
Proof.
  intros HF. unfold apply_levels. revert m. induction HF as [|l ls [Hp Hq] _ IH]; intros m Hm; [done|]. cbn [foldl]. apply IH.
  unfold stored_ok, apply_level. destruct (deq (kl_quantity l) dzero) eqn:E.
  - rewrite published_delete. by apply side_ok_delete.
  - rewrite published_insert. apply side_ok_insert; [done|by destruct Hq|done].
Qed.

Lemma trim_take depth m : trim_to_depth depth m = take depth m.
Proof.
  unfold trim_to_depth. assert (forall fuel, (length m <= fuel + depth)%nat -> trim_loop fuel depth m = take depth m) as H; [|apply H; lia].
  intros fuel. revert m. induction fuel as [|fuel IH]; intros m Hm; cbn [trim_loop]; [by rewrite take_ge by lia|].
  destruct (depth <? length m)%nat eqn:E; [apply Nat.ltb_lt in E|apply Nat.ltb_ge in E; by rewrite take_ge].
  destruct m as [|x m _] using rev_ind; [cbn in E; lia|]. rewrite length_app in *. cbn in *. rewrite removelast_last.
  rewrite IH by lia. by rewrite take_app_le by lia.
Qed.

Lemma trim_ok side depth m : stored_ok side m -> stored_ok side (trim_to_depth depth m).
Proof.
  rewrite trim_take. unfold stored_ok, published. rewrite fmap_take. intros [H1 H2 H3]. split.
  - unfold sm_keys in *. rewrite fmap_take. by apply Forall_take.
  - unfold sm_sorted in *. rewrite fmap_take. set (l := _.*1) in *. rewrite <- (take_drop depth l) in H2.
    by apply StronglySorted_app_1_l in H2.
  - by apply Forall_take.
Qed.

(** ** The published changes *)

Lemma stored_nodup side m : stored_ok side m -> NoDup m.*1.
Proof.
  intros [HP HS _]. unfold sm_keys, sm_sorted in *. rewrite published_keys in *. induction HS as [|k l HS IH Hk]; [constructor|].
  apply Forall_cons in HP as [Hp HP]. constructor; [|by apply IH]. intros Hin. rewrite Forall_forall in Hk. specialize (Hk k Hin).
  by rewrite (so_irrefl (P := price_ok)) in Hk.
Qed.

Lemma stored_lookup side m k v : stored_ok side m -> (k, v) ∈ m -> sm_lookup (before side) k m = Some v /\ price_ok k.
Proof.
  intros [HP HS _] Hin. unfold sm_keys, sm_sorted in HP, HS. rewrite published_keys in *.
  assert (price_ok k) as Hk by (rewrite Forall_forall in HP; apply HP; by apply (list_elem_of_fmap_2 fst _ _ Hin)).
  split; [|done]. by apply (sm_elem_lookup (P := price_ok)).
Qed.

Lemma stored_elem side m k v : stored_ok side m -> price_ok k -> sm_lookup (before side) k m = Some v ->
  (k, v) ∈ m /\ quantity_ok (sl_quantity v).
Proof.
  intros [HP _ HQ] Hk Hl. unfold sm_keys in HP. rewrite published_keys in HP.
  apply (sm_lookup_elem (P := price_ok)) in Hl; [|done..]. split; [done|].
  rewrite Forall_forall in HQ. apply (HQ (k, sl_quantity v)).
  by apply (list_elem_of_fmap_2 (fun e => (e.1, sl_quantity e.2)) m (k, v)).
Qed.

Section changes.
Context (n : KrakenBookNormalizer) (timestamp : Z) (side : MarketDataSide) (previous current : stored_levels).
Context (Hp : stored_ok side previous) (Hc : stored_ok side current).

Lemma deletion_elem u : u ∈ deletions n timestamp side previous current <->
  exists k v, (k, v) ∈ previous /\ sm_lookup (before side) k current = None /\ u = update_of n timestamp side Delete k dzero.
Proof.
  unfold deletions. rewrite list_elem_of_omap. split.
  - intros ([k v] & Hin & E). cbn in E. destruct (sm_lookup _ k current) eqn:EL; [done|]. injection E as <-. by exists k, v.
  - intros (k & v & Hin & EL & ->). exists (k, v). split; [done|]. cbn. by rewrite EL.
Qed.

Definition changed (k : double) (v : StoredLevel) : bool :=
  match sm_lookup (before side) k previous with Some p => negb (deq (sl_quantity p) (sl_quantity v)) | None => true end.

Lemma upsert_elem u : u ∈ upserts n timestamp side previous current <->
  exists k v, (k, v) ∈ current /\ changed k v = true /\ u = update_of n timestamp side Upsert k (sl_quantity v).
Proof.
  unfold upserts, changed. rewrite list_elem_of_omap. split.
  - intros ([k v] & Hin & E). cbn in E. exists k, v. split; [done|].
    destruct (sm_lookup _ k previous) as [p|]; [|by injection E as <-].
    destruct (deq _ _); [done|]. by injection E as <-.
  - intros (k & v & Hin & EC & ->). exists (k, v). split; [done|]. cbn.
    destruct (sm_lookup _ k previous) as [p|]; [|done]. by destruct (deq _ _).
Qed.

Lemma omap_prices (f : double * StoredLevel -> option MarketDataUpdate) (m : stored_levels) :
  (forall e u, f e = Some u -> mu_price u = e.1) -> mu_price <$> omap f m `sublist_of` m.*1.
Proof.
  intros Hf. induction m as [|e m IH]; [constructor|]. cbn. destruct (f e) as [u|] eqn:E; cbn.
  - rewrite (Hf e u E). by constructor.
  - by constructor.
Qed.

Lemma changes_ok : Forall update_ok (deletions n timestamp side previous current) /\
  Forall update_ok (upserts n timestamp side previous current).
Proof.
  split; apply Forall_forall; intros u Hu.
  - apply deletion_elem in Hu as (k & v & Hin & _ & ->). split; [|by left]. by destruct (stored_lookup side previous k v Hp Hin).
  - apply upsert_elem in Hu as (k & v & Hin & _ & ->). destruct (stored_lookup side current k v Hc Hin) as [HL Hk].
    split; [done|right]. by apply (stored_elem side current k v).
Qed.

(** Deleting what disappeared and inserting what changed leads from the levels of
    one book to those of the other. *)
Lemma changes_publish : foldl (side_step side) (foldl (side_step side) (published previous)
  (deletions n timestamp side previous current)) (upserts n timestamp side previous current) = published current.
Proof.
  destruct changes_ok as [HD HU]. pose proof (side_steps_ok side _ _ HD Hp) as Hm.
  pose proof (side_steps_ok side _ _ HU Hm) as Hm'. set (m := foldl _ (published previous) _) in *.
  apply (sm_ext (P := price_ok) (lt := before side)); [apply Hm'|apply Hc|apply Hm'|apply Hc|].
  intros k Hk. rewrite published_lookup. destruct (sm_lookup (before side) k current) as [v|] eqn:EC; cbn [fmap option_fmap option_map].
  - destruct (stored_elem side current k v Hc Hk EC) as [Hin Hq]. destruct (changed k v) eqn:ECh.
    + pose proof (lookup_last_change side _ (update_of n timestamp side Upsert k (sl_quantity v)) m HU) as HL.
      cbn [update_of mu_price mu_type mu_quantity] in HL. rewrite HL; [|..|done].
      * by rewrite bool_decide_false, quantity_above_epsilon.
      * eapply sublist_NoDup; [exact (stored_nodup side current Hc)|]. apply omap_prices. intros e u.
        destruct (sm_lookup (before side) e.1 previous) as [p|]; [destruct (deq _ _); [done|]|]; by intros [= <-].
      * apply upsert_elem. by exists k, v.
    + unfold changed in ECh. destruct (sm_lookup (before side) k previous) as [p|] eqn:EP; [|done]. apply negb_false_iff in ECh.
      destruct (stored_elem side previous k p Hp Hk EP) as [_ Hqp].
      rewrite lookup_untouched; [|done..|]. unfold m. rewrite lookup_untouched; [|done..|].
      * rewrite published_lookup, EP. cbn. f_equal. apply deq_price; [by apply quantity_price..|done].
      * intros u (k' & v' & _ & EN & ->)%deletion_elem E. cbn in E. congruence.
      * intros u (k' & v' & Hin' & Hch & ->)%upsert_elem E. cbn in E. subst k'.
        destruct (stored_lookup side current k v' Hc Hin') as [E _]. unfold changed in Hch. rewrite EP in Hch.
        assert (v' = v) as -> by congruence. by rewrite ECh in Hch.
  - rewrite lookup_untouched; [|done..|].
    + unfold m. destruct (sm_lookup (before side) k previous) as [p|] eqn:EP.
      * pose proof (lookup_last_change side _ (update_of n timestamp side Delete k dzero) (published previous) HD) as HL.
        cbn [update_of mu_price mu_type mu_quantity] in HL. rewrite HL; [by rewrite bool_decide_true| | |done].
        -- eapply sublist_NoDup; [exact (stored_nodup side previous Hp)|]. apply omap_prices. intros e u.
           destruct (sm_lookup (before side) e.1 current); [done|]. by intros [= <-].
        -- apply deletion_elem. exists k, p. split; [by destruct (stored_elem side previous k p Hp Hk EP)|by split].
      * rewrite lookup_untouched; [|done..|]; [by rewrite published_lookup, EP|].
        intros u (k' & v' & Hin & _ & ->)%deletion_elem E. cbn in E. subst k'.
        destruct (stored_lookup side previous k v' Hp Hin). congruence.
    + intros u (k' & v' & Hin & _ & ->)%upsert_elem E. cbn in E. subst k'.
      destruct (stored_lookup side current k v' Hc Hin). congruence.
Qed.

End changes.

(** ** The normalizer *)

(** A quantity of a message removes its level or is above the tolerance of the
    books. *)
Definition visible (l : KrakenChecksumLevel) : Prop :=
  deq (kl_quantity l) dzero = true \/ dgt (kl_quantity l) level_epsilon = true.

Definition visible_message (m : KrakenBookMessage) : Prop :=
  Forall visible (km_checksum_bids m) /\ Forall visible (km_checksum_asks m).

#[export] Instance visible_dec l : Decision (visible l).
Proof. unfold visible. apply _. Defined.

#[export] Instance visible_message_dec m : Decision (visible_message m).
Proof. unfold visible_message. apply _. Defined.

Lemma visible_ok ls : Forall parsed_level ls -> Forall visible ls -> Forall level_ok ls.
Proof.
  intros HP HV. induction HP as [|l ls (Hp & Hf & _) _ IH]; [constructor|]. apply Forall_cons in HV as [Hv HV].
  constructor; [|by apply IH]. split; [done|]. destruct Hv; [by left|right]. by split.
Qed.

(** The sides of the normalizer's book. *)
Record book_ok (n : KrakenBookNormalizer) : Prop := {
  bo_symbol : kn_symbol n <> "";
  bo_bids : stored_ok Bid (kn_bids n);
  bo_asks : stored_ok Ask (kn_asks n);
  bo_depth : (length (kn_bids n) <= kn_depth n)%nat /\ (length (kn_asks n) <= kn_depth n)%nat
}.

Lemma trim_length depth m : (length (trim_to_depth depth m) <= depth)%nat.
Proof. rewrite trim_take, length_take. lia. Qed.

Lemma next_book_ok message n bids asks : message_ok message -> visible_message message ->
  stored_ok Bid bids -> stored_ok Ask asks -> kn_symbol n <> "" ->
  book_ok (set_book (next_book message bids asks (kn_depth n)).1 (next_book message bids asks (kn_depth n)).2 n).
Proof.
  intros [HB HA] [VB VA] Hb Ha Hs. split; [done|..]; cbn [set_book next_book kn_bids kn_asks kn_depth fst snd].
  - by apply trim_ok, apply_levels_ok; [apply visible_ok|].
  - by apply trim_ok, apply_levels_ok; [apply visible_ok|].
  - split; apply trim_length.
Qed.

Definition published_book (n : KrakenBookNormalizer) : levels * levels := (published (kn_bids n), published (kn_asks n)).

Lemma published_levels_snapshot m : published_levels m = snapshot_levels (published m).
Proof. unfold published_levels, snapshot_levels, published. rewrite <- list_fmap_compose. done. Qed.

Section changes_of_book.
Context (n : KrakenBookNormalizer) (timestamp : Z) (previous : KrakenBookNormalizer).
Context (Hp : book_ok previous) (Hn : book_ok n).

Definition book_changes : list MarketDataUpdate :=
  deletions n timestamp Bid (kn_bids previous) (kn_bids n) ++ deletions n timestamp Ask (kn_asks previous) (kn_asks n) ++
  upserts n timestamp Bid (kn_bids previous) (kn_bids n) ++ upserts n timestamp Ask (kn_asks previous) (kn_asks n).

Definition update_in (side : MarketDataSide) (u : MarketDataUpdate) : Prop :=
  mu_venue u = "KRAKEN" /\ mu_symbol u = kn_symbol n /\ mu_sequence u = kn_sequence n /\ mu_side u = side /\
  (mu_type u = Delete -> mu_quantity u = dzero).

Lemma changes_in side m m' : Forall (update_in side) (deletions n timestamp side m m') /\
  Forall (update_in side) (upserts n timestamp side m m').
Proof.
  split; apply Forall_forall; intros u Hu.
  - by apply deletion_elem in Hu as (k & v & _ & _ & ->).
  - by apply upsert_elem in Hu as (k & v & _ & _ & ->).
Qed.

Lemma valid_update side u : update_ok u -> update_in side u ->
  mu_venue u = "KRAKEN" /\ mu_symbol u = kn_symbol n /\ mu_sequence u = kn_sequence n /\
  price_ok (mu_price u) /\ validate_quantity (mu_quantity u) = Ok tt.
Proof.
  intros [Hk Hq] (-> & -> & -> & _ & HD). repeat split; try done. destruct Hq as [E|Hq]; [|by apply validate_quantity_ok].
  by rewrite (HD E).
Qed.

Lemma book_changes_batch : batch_of "KRAKEN" (kn_symbol n) (kn_sequence n) book_changes.
Proof.
  destruct Hp, Hn. pose proof (changes_ok n timestamp Bid (kn_bids previous) (kn_bids n) ltac:(done) ltac:(done)) as [DB UB].
  pose proof (changes_ok n timestamp Ask (kn_asks previous) (kn_asks n) ltac:(done) ltac:(done)) as [DA UA].
  assert (forall side us, Forall update_ok us -> Forall (update_in side) us -> batch_of "KRAKEN" (kn_symbol n) (kn_sequence n) us) as HV.
  { intros side us H1 H2. unfold batch_of. rewrite Forall_forall in *. intros u Hu. apply (valid_update side); auto. }
  unfold batch_of, book_changes. rewrite !Forall_app. split_and!.
  - by apply (HV Bid), changes_in.
  - by apply (HV Ask), changes_in.
  - by apply (HV Bid), changes_in.
  - by apply (HV Ask), changes_in.
Qed.

Lemma in_side side us : Forall (update_in side) us -> Forall (fun u => mu_side u = side) us.
Proof. intros H. eapply Forall_impl; [exact H|]. by intros u (_ & _ & _ & ? & _). Qed.

Lemma book_changes_lead : foldl (fun l u => change u l) (published_book previous) book_changes = published_book n.
Proof.
  destruct Hp, Hn. unfold book_changes. rewrite !foldl_app.
  rewrite (changes_of_side Bid (deletions _ _ Bid _ _)), (changes_of_side Ask (deletions _ _ Ask _ _)),
    (changes_of_side Bid (upserts _ _ Bid _ _)), (changes_of_side Ask (upserts _ _ Ask _ _))
    by apply in_side, changes_in.
  unfold published_book. cbn [set_side side_of fst snd]. by rewrite !changes_publish.
Qed.

End changes_of_book.

(** ** The connection of a client *)

Definition kraken_key (n : KrakenBookNormalizer) : string := venue_key "KRAKEN" (kn_symbol n).

(** The client's market holds the book of the normalizer. *)
Definition arrived (n : KrakenBookNormalizer) (m : ConsolidatedMarketData) : Prop := holds (kraken_key n) (published_book n) m.

Notation Client := (Client KrakenFeedStats).
Notation Connection := (Connection KrakenBookNormalizer KrakenFeedStats Client).

Section connection.
Context {T : Type} `{PropertyTree T} (crc32 : str -> Z) (maximum_updates : Z) (config : KrakenFeedConfig).

Record connection_ok (c : Connection) : Prop := {
  co_symbol : kn_symbol (cn_normalizer c) = kc_normalized_symbol config;
  co_depth : kn_depth (cn_normalizer c) = Z.to_nat (kc_depth config);
  co_book : book_ok (cn_normalizer c);
  co_buffer : unbuffered (kraken_key (cn_normalizer c)) (cl_market (cn_world c));
  co_arrived : kn_synchronized (cn_normalizer c) = true -> arrived (cn_normalizer c) (cl_market (cn_world c));
  co_checksum : kn_synchronized (cn_normalizer c) = true ->
    checksum_valid crc32 (kf_latest_checksum (cn_stats c)) (cn_normalizer c) = true
}.

(** Changes of the counters and of what the client shows. *)
Definition same_book (c c' : Connection) : Prop :=
  cn_normalizer c' = cn_normalizer c /\ cl_market (cn_world c') = cl_market (cn_world c) /\
  kf_latest_checksum (cn_stats c') = kf_latest_checksum (cn_stats c).

Lemma same_book_ok c c' : same_book c c' -> connection_ok c -> connection_ok c'.
Proof. intros (E1 & E2 & E3) []. by split; rewrite ?E1, ?E2, ?E3. Qed.

Notation handle_parsed :=
  (handle_parsed crc32 (client_snapshot "Kraken") (client_updates "Kraken" maximum_updates) client_status).
Notation handle_payload := (handle_payload (T := T) crc32 (client_snapshot "Kraken")
  (client_updates "Kraken" maximum_updates) client_status config).

Lemma normalize_snapshot_ok message n s n' : book_ok n -> message_ok message -> visible_message message ->
  normalize_snapshot crc32 message n = (Ok s, n') ->
  book_ok n' /\ kn_symbol n' = kn_symbol n /\ kn_depth n' = kn_depth n /\ kn_synchronized n' = true /\
  checksum_valid crc32 (km_checksum message) n' = true /\
  s = {| ms_venue := "KRAKEN"; ms_symbol := kn_symbol n'; ms_sequence := 0; ms_timestamp_ns := km_received_timestamp message;
         ms_bids := published_levels (kn_bids n'); ms_asks := published_levels (kn_asks n') |}.
Proof.
  intros Hn Hm Hv. unfold normalize_snapshot. destruct (_ || _); [done|].
  pose proof (next_book_ok message n [] [] Hm Hv ltac:(by split; constructor) ltac:(by split; constructor) (bo_symbol n Hn)) as HN.
  destruct (next_book message [] [] (kn_depth n)) as [bids asks] eqn:E. cbn [fst snd] in HN.
  set (n1 := set_book bids asks (set_sync 0 (kn_synchronized n) n)).
  destruct ((km_checksum message =? 0) || (calculate_checksum crc32 n1 =? km_checksum message)) eqn:EC; cbn [negb]; [|done].
  intros [= <- <-]. split; [by destruct HN|]. do 3 (split; [done|]). split; [|done].
  unfold checksum_valid. by destruct (km_checksum message =? 0).
Qed.

Lemma normalize_update_ok message n us n' : book_ok n -> message_ok message -> visible_message message ->
  normalize_update crc32 message n = (Ok us, n') ->
  kn_synchronized n = true /\ book_ok n' /\ kn_symbol n' = kn_symbol n /\ kn_depth n' = kn_depth n /\ kn_synchronized n' = true /\
  checksum_valid crc32 (km_checksum message) n' = true /\ us = book_changes n' (km_received_timestamp message) n.
Proof.
  intros Hn Hm Hv. unfold normalize_update. destruct (_ || _); [done|]. destruct (kn_synchronized n) eqn:ES; cbn [negb]; [|done].
  pose proof (next_book_ok message n _ _ Hm Hv (bo_bids n Hn) (bo_asks n Hn) (bo_symbol n Hn)) as HN.
  destruct (next_book message (kn_bids n) (kn_asks n) (kn_depth n)) as [bids asks] eqn:E. cbn [fst snd] in HN.
  set (n1 := set_book bids asks n).
  destruct (negb (km_checksum message =? 0) && negb (calculate_checksum crc32 n1 =? km_checksum message)) eqn:EC; [done|].
  intros [= <- <-]. split; [done|]. split; [by destruct HN|]. do 3 (split; [done|]). split; [|done].
  unfold checksum_valid. apply andb_false_iff in EC as [EC|EC]; apply negb_false_iff in EC; [by rewrite EC|].
  apply orb_true_iff. by right.
Qed.

Lemma kraken_key_symbol n n' : kn_symbol n' = kn_symbol n -> kraken_key n' = kraken_key n.
Proof. intros E. unfold kraken_key. by rewrite E. Qed.

Lemma handle_parsed_ok message c c' : connection_ok c -> message_ok message -> visible_message message ->
  handle_parsed message c = (Ok tt, c') -> connection_ok c'.
Proof.
  intros Hc Hm Hv. unfold Kraken.handle_parsed. destruct (km_valid message); cbn [negb]; [|done].
  destruct (km_ignored message); [intros [= <-]; by apply (same_book_ok c)|].
  pose proof Hc as [HS HD Hn HR HA HC]. destruct (km_snapshot message).
  - unfold mbind, st_bind, on_normalizer, on_stats, on_world, modify at 1. cbn [cn_normalizer].
    destruct (normalize_snapshot _ _ _) as [[s|e] n'] eqn:EN; [|done]. cbn [cn_world].
    apply normalize_snapshot_ok in EN as (Hn' & Hs & Hd & Hy & HC' & ->); [|done..].
    destruct (client_snapshot _ _ _) as [[[]|e] w'] eqn:EW; [|done]. rewrite <- (kraken_key_symbol _ n') in HR by done.
    apply snapshot_arrives in EW as (l & El & HA' & HR'); [|done]. rewrite !published_levels_snapshot in El.
    apply snapshot_sides_sorted in El as ->; [|apply Hn'..]. intros [= <-]. split; cbn [cn_normalizer]; (done || congruence).
  - unfold mbind, st_bind, on_normalizer, on_stats, on_world, modify at 1. cbn [cn_normalizer].
    destruct (normalize_update _ _ _) as [[us|e] n'] eqn:EN; [|done]. cbn [cn_world].
    apply normalize_update_ok in EN as (Hsy & Hn' & Hs & Hd & Hy & HC' & Eus); [|done..]. rewrite <- (kraken_key_symbol _ n') in HR by done.
    case_bool_decide as EU.
    + intros [= <-]. split; cbn [cn_normalizer]; try (done || congruence). cbn [cn_world cl_market]. intros _.
      pose proof (book_changes_lead n' (km_received_timestamp message) _ Hn Hn') as HL. rewrite <- Eus, EU in HL. cbn [foldl] in HL.
      unfold arrived. rewrite (kraken_key_symbol (cn_normalizer c)), <- HL by done. by apply HA.
    + destruct (client_updates _ _ _ _) as [[[]|e] w'] eqn:EW; [|done].
      pose proof (HA Hsy) as HA'. unfold arrived in HA'. rewrite <- (kraken_key_symbol _ n') in HA' by done.
      rewrite Eus in EU, EW.
      apply (updates_arrive _ _ "KRAKEN" (kn_symbol n') (kn_sequence n') _ (published_book (cn_normalizer c))) in EW as [HH HR'];
        [|done|apply Hn'|done|by apply book_changes_batch|done..].
      rewrite book_changes_lead in HH by done. intros [= <-]. split; cbn [cn_normalizer]; (done || congruence).
Qed.

Definition visible_payload (p : str * Z) : Prop :=
  visible_message (parse_kraken_book_message (T := T) p.1 (kc_exchange_symbol config) p.2).

#[export] Instance visible_payload_dec p : Decision (visible_payload p).
Proof. unfold visible_payload. apply _. Defined.

Lemma handle_all_ok payloads c c' : Forall visible_payload payloads -> connection_ok c ->
  handle_all handle_payload payloads c = (Ok tt, c') -> connection_ok c'.
Proof.
  intros HV Hc. apply (handle_all_ind connection_ok visible_payload); [|done..]. clear. intros [payload now] c c' Hv Hc E.
  unfold Kraken.handle_payload, mbind, st_bind, on_stats, modify in E. cbn [fst snd] in *.
  eapply handle_parsed_ok; [|apply parsed_message_ok|exact Hv|exact E]. by apply (same_book_ok c).
Qed.

End connection.

(** C33: Whatever payloads arrive on a connection of the Kraken client, as long
    as none makes it end: once the normalizer is synchronized, the client's
    market holds, under the configured symbol, a synchronized book whose sides
    are exactly the levels of the normalizer, sorted best first with positive
    prices and quantities, at most as many as the subscribed depth, and their
    checksum is the one the exchange sent last when it sent one.  The quantities
    of the messages are zero or above the tolerance of the books. *)
Theorem kraken_book_arrives {T} `{PropertyTree T} crc32 maximum_updates config payloads n s w c :
  new_normalizer (kc_normalized_symbol config) (Z.to_nat (kc_depth config)) = Ok n ->
  unbuffered (kraken_key n) (cl_market w) ->
  Forall (visible_payload (T := T) config) payloads ->
  handle_all (handle_payload (T := T) crc32 (client_snapshot "Kraken") (client_updates "Kraken" maximum_updates)
                client_status config) payloads
    {| cn_normalizer := n; cn_stats := s; cn_world := w |} = (Ok tt, c) ->
  kn_synchronized (cn_normalizer c) = true ->
  exists b, find_book "KRAKEN" (kc_normalized_symbol config) (cl_market (cn_world c)) = Ok (Some b) /\
    synchronized_ b = true /\ sides b = published_book (cn_normalizer c) /\ sides_ok (sides b) /\
    (length (sides b).1 <= Z.to_nat (kc_depth config))%nat /\ (length (sides b).2 <= Z.to_nat (kc_depth config))%nat /\
    (kf_latest_checksum (cn_stats c) = 0 \/
     calculate_checksum crc32 (cn_normalizer c) = kf_latest_checksum (cn_stats c)).
Proof.
  intros Hn HR HV HA Hsy. unfold new_normalizer, guard_or in Hn.
  destruct (negb (bool_decide (_ = ""))) eqn:ES; [|done]. destruct (negb (_ =? 0)%nat); [|done]. breflect.
  injection Hn as <-. apply handle_all_ok in HA; [|done|].
  2: { split; cbn [cn_normalizer kn_symbol kn_depth kn_synchronized]; try done. split; cbn; [done|by split; constructor..|lia]. }
  pose proof HA as [HS HD Hb _ Har HC]. destruct (Har Hsy) as (b & Eb & Esd & Esy).
  exists b. unfold find_book. rewrite <- HS, key_of by (done || apply Hb). cbn [mbind result_bind].
  split; [exact (f_equal Ok Eb)|]. do 2 (split; [done|]).
  destruct Hb as [_ Hbid Hask [L1 L2]]. rewrite Esd. unfold published_book, published. cbn [fst snd]. rewrite !length_fmap, <- HD.
  split; [by split|]. split; [done|]. split; [done|].
  specialize (HC Hsy). unfold checksum_valid in HC. apply orb_true_iff in HC as [HC|HC]; breflect; [by left|by right].
Qed.

(** ** Examples *)

Definition level_doc (price quantity : string) : string * Doc :=
  ("", DNode [("price", DText (lit price)); ("qty", DText (lit quantity))]).

Definition message_doc (type : string) (checksum : Z) (bids asks : list (string * Doc)) : Doc :=
  DNode [("channel", DText (lit "book")); ("type", DText (lit type));
         ("data", DNode [("", DNode [("symbol", DText (lit "BTC/USD")); ("checksum", DNumber checksum);
                                     ("bids", DNode bids); ("asks", DNode asks)])])].

Definition example_tree : PropertyTree Doc := doc_tree [
  (lit "snapshot", message_doc "snapshot" 0 [level_doc "100.5" "2"; level_doc "100.0" "1"] [level_doc "101.0" "3"]);
  (lit "update", message_doc "update" 14 [level_doc "100.5" "0"; level_doc "99.5" "4"] [level_doc "101.0" "2"]);
  (lit "same", message_doc "update" 0 [level_doc "100.5" "2.0"] [])].

(** A checksum: the length of the text. *)
Definition length_crc32 (s : str) : Z := Z.of_nat (length s).

Definition example_start : Connection := {|
  cn_normalizer := {| kn_symbol := "BTC-USD"; kn_depth := 10; kn_sequence := 0; kn_synchronized := false;
                      kn_bids := []; kn_asks := [] |};
  cn_stats := KrakenFeedStats0; cn_world := new_client KrakenFeedStats0 |}.

Definition after (payloads : list string) : result unit * Connection :=
  handle_all (handle_payload (H := example_tree) length_crc32 (client_snapshot "Kraken") (client_updates "Kraken" 0)
    client_status default_config) ((fun p => (lit p, 1)) <$> payloads) example_start.

Lemma kraken_book_arrives_witness : exists b,
  find_book "KRAKEN" "BTC-USD" (cl_market (cn_world (after ["snapshot"; "update"]).2)) = Ok (Some b) /\
  length (sides b).1 = 2%nat.
Proof.
  destruct (kraken_book_arrives (H := example_tree) length_crc32 0 default_config [(lit "snapshot", 1); (lit "update", 1)]
    (cn_normalizer example_start) KrakenFeedStats0 (new_client KrakenFeedStats0) (after ["snapshot"; "update"]).2) as (b & Hb & _ & Hs & _).
  - vm_compute. reflexivity.
  - reflexivity.
  - apply Forall_cons. split; [|apply Forall_singleton]; refine (bool_decide_unpack _ _); vm_compute; exact I.
  - vm_compute. reflexivity.
  - vm_compute. reflexivity.
  - exists b. split; [exact Hb|]. rewrite Hs. vm_compute. reflexivity.
Defined.

(** An update that changes no visible level counts as one in the normalizer but
    is not delivered: the next one is a gap for the market, and the connection
    ends. *)
Example invisible_update_ends_connection :
  (after ["snapshot"; "update"]).1 = Ok tt /\ (after ["snapshot"; "same"]).1 = Ok tt /\
  (after ["snapshot"; "same"; "update"]).1 = Throw (runtime_error "Kraken updates rejected: market-data sequence gap detected").
Proof. repeat split; vm_compute; reflexivity. Qed.
