(* ===== verification/Binance.v ===== *)
(** * Binance ([binance_l2.hpp], [binance_l2.cpp], [binance_feed.hpp], [binance_feed.cpp])

    Parsing of snapshots and of depth updates, the synchronizer, which accepts the
    updates that connect to a snapshot and numbers them anew, and the feed: a
    connection fetches a snapshot and then handles the depth updates of its stream;
    an exception leads to a new connection. *)

From S2P Require Import Prelude.
From S2P Require Import Float.
From S2P Require Import Text.
From S2P Require Import MarketData.
From S2P Require Import Decimal.
From S2P Require Import Feeds.

Record BinanceDepthSnapshot := {
  bs_valid : bool; bs_symbol : str; bs_last_update_id : Z; bs_received_timestamp : Z;
  bs_bids : list MarketDataLevel; bs_asks : list MarketDataLevel; bs_error : string
}.

Record BinanceDepthUpdate := {
  bu_valid : bool; bu_ignored : bool; bu_symbol : str; bu_event_timestamp : Z; bu_first_update_id : Z;
  bu_final_update_id : Z; bu_received_timestamp : Z; bu_bids : list MarketDataLevel; bu_asks : list MarketDataLevel;
  bu_error : string
}.

(** ** Parsing *)

(** [std::toupper] in the classic locale. *)
Definition toupper (c : ascii) : ascii :=
  let n := nat_of_ascii c in if (97 <=? n)%nat && (n <=? 122)%nat then ascii_of_nat (n - 32) else c.

Definition uppercase (value : str) : str := toupper <$> value.

Definition parse_number (value : str) (allow_zero : bool) : result double :=
  parsed ← stod value;
  _ ← guard_or (negb (negb (parsed.2 =? length value)%nat || negb (isfinite parsed.1) || dlt parsed.1 dzero ||
                      (negb allow_zero && dle parsed.1 dzero)))
        (invalid_argument "invalid Binance numeric value");
  Ok parsed.1.

Section parse.
Context {T : Type} `{PropertyTree T}.

Fixpoint level_values (entries : list T) : result (list str) :=
  match entries with
  | [] => Ok []
  | entry :: entries => v ← get_value entry; vs ← level_values entries; Ok (v :: vs)
  end.

Definition parse_level (level : T) : result MarketDataLevel :=
  values ← level_values (children level);
  match values with
  | price :: quantity :: _ =>
      price ← parse_number price false;
      quantity ← parse_number quantity true;
      Ok {| ml_price := price; ml_quantity := quantity |}
  | _ => Throw (invalid_argument "Binance depth level is incomplete")
  end.

Fixpoint parse_levels (levels : list T) : result (list MarketDataLevel) :=
  match levels with
  | [] => Ok []
  | level :: levels => l ← parse_level level; ls ← parse_levels levels; Ok (l :: ls)
  end.

Definition empty_snapshot (symbol : str) (received : Z) : BinanceDepthSnapshot := {|
  bs_valid := false; bs_symbol := uppercase symbol; bs_last_update_id := 0; bs_received_timestamp := received;
  bs_bids := []; bs_asks := []; bs_error := "" |}.

Definition snapshot_error (error : string) (s : BinanceDepthSnapshot) : BinanceDepthSnapshot := {|
  bs_valid := bs_valid s; bs_symbol := bs_symbol s; bs_last_update_id := bs_last_update_id s;
  bs_received_timestamp := bs_received_timestamp s; bs_bids := bs_bids s; bs_asks := bs_asks s; bs_error := error |}.

Definition snapshot_content (valid : bool) (last : Z) (bids asks : list MarketDataLevel) (s : BinanceDepthSnapshot) :
    BinanceDepthSnapshot := {|
  bs_valid := valid; bs_symbol := bs_symbol s; bs_last_update_id := last;
  bs_received_timestamp := bs_received_timestamp s; bs_bids := bids; bs_asks := asks; bs_error := bs_error s |}.

Definition parse_snapshot_root (json : str) : ST BinanceDepthSnapshot unit :=
  root ← lift (read_json json);
  last ← lift (get_unsigned "lastUpdateId" root);
  _ ← modify (snapshot_content false last [] []);
  match get_child_optional "bids" root, get_child_optional "asks" root with
  | Some bids, Some asks =>
      bids ← lift (parse_levels (children bids));
      _ ← modify (snapshot_content false last bids []);
      asks ← lift (parse_levels (children asks));
      modify (snapshot_content true last bids asks)
  | _, _ => modify (snapshot_error "Binance snapshot is missing depth")
  end.

Definition parse_binance_depth_snapshot (json symbol : str) (received_timestamp : Z) : BinanceDepthSnapshot :=
  caught snapshot_error (parse_snapshot_root json) (empty_snapshot symbol received_timestamp).

Definition empty_update (symbol : str) (received : Z) : BinanceDepthUpdate := {|
  bu_valid := false; bu_ignored := false; bu_symbol := uppercase symbol; bu_event_timestamp := 0;
  bu_first_update_id := 0; bu_final_update_id := 0; bu_received_timestamp := received; bu_bids := []; bu_asks := [];
  bu_error := "" |}.

Definition update_error (error : string) (u : BinanceDepthUpdate) : BinanceDepthUpdate := {|
  bu_valid := bu_valid u; bu_ignored := bu_ignored u; bu_symbol := bu_symbol u; bu_event_timestamp := bu_event_timestamp u;
  bu_first_update_id := bu_first_update_id u; bu_final_update_id := bu_final_update_id u;
  bu_received_timestamp := bu_received_timestamp u; bu_bids := bu_bids u; bu_asks := bu_asks u; bu_error := error |}.

Definition update_valid (ignored : bool) (u : BinanceDepthUpdate) : BinanceDepthUpdate := {|
  bu_valid := true; bu_ignored := ignored; bu_symbol := bu_symbol u; bu_event_timestamp := bu_event_timestamp u;
  bu_first_update_id := bu_first_update_id u; bu_final_update_id := bu_final_update_id u;
  bu_received_timestamp := bu_received_timestamp u; bu_bids := bu_bids u; bu_asks := bu_asks u; bu_error := bu_error u |}.

Definition update_ids (event first final : Z) (u : BinanceDepthUpdate) : BinanceDepthUpdate := {|
  bu_valid := bu_valid u; bu_ignored := bu_ignored u; bu_symbol := bu_symbol u; bu_event_timestamp := event;
  bu_first_update_id := first; bu_final_update_id := final;
  bu_received_timestamp := bu_received_timestamp u; bu_bids := bu_bids u; bu_asks := bu_asks u; bu_error := bu_error u |}.

Definition update_levels (bids asks : list MarketDataLevel) (u : BinanceDepthUpdate) : BinanceDepthUpdate := {|
  bu_valid := bu_valid u; bu_ignored := bu_ignored u; bu_symbol := bu_symbol u; bu_event_timestamp := bu_event_timestamp u;
  bu_first_update_id := bu_first_update_id u; bu_final_update_id := bu_final_update_id u;
  bu_received_timestamp := bu_received_timestamp u; bu_bids := bids; bu_asks := asks; bu_error := bu_error u |}.

(** A depth event, from its time on. *)
Definition parse_event (root : T) : ST BinanceDepthUpdate unit :=
  event ← lift (get_unsigned "E" root);
  _ ← modify (update_ids event 0 0);
  first ← lift (get_unsigned "U" root);
  _ ← modify (update_ids event first 0);
  final ← lift (get_unsigned "u" root);
  _ ← modify (update_ids event first final);
  match get_child_optional "b" root, get_child_optional "a" root with
  | Some bids, Some asks =>
      bids ← lift (parse_levels (children bids));
      _ ← modify (update_levels bids []);
      asks ← lift (parse_levels (children asks));
      _ ← modify (update_levels bids asks);
      modify (update_valid false)
  | _, _ => modify (update_error "Binance update is missing depth arrays")
  end.

Definition parse_update_root (json : str) : ST BinanceDepthUpdate unit := fun u =>
  (root ← lift (read_json json);
   if negb (bool_decide (text_or [] "e" root = lit "depthUpdate")) then modify (update_valid true)
   else
     symbol ← lift (get_text "s" root);
     if negb (bool_decide (uppercase symbol = bu_symbol u)) then modify (update_error "Binance message symbol mismatch")
     else parse_event root) u.

Definition parse_binance_depth_update (json symbol : str) (received_timestamp : Z) : BinanceDepthUpdate :=
  caught update_error (parse_update_root json) (empty_update symbol received_timestamp).

End parse.

(** ** The synchronizer *)

Inductive BinanceSyncStatus := WaitingForSnapshot | Synchronizing | Synchronized | Stale.

#[export] Instance BinanceSyncStatus_eq_dec : EqDecision BinanceSyncStatus.
Proof. solve_decision. Defined.

Record BinanceSyncResult := {
  br_accepted : bool; br_ignored : bool; br_snapshot_required : bool; br_status : BinanceSyncStatus;
  br_updates : list MarketDataUpdate; br_message : string
}.

Record BinanceBookSynchronizer := {
  by_symbol : string; by_status : BinanceSyncStatus; by_last_update_id : Z; by_normalized_sequence : Z
}.

Definition new_synchronizer (symbol : string) : result BinanceBookSynchronizer :=
  _ ← guard_or (negb (bool_decide (symbol = ""))) (invalid_argument "Binance normalized symbol cannot be empty");
  Ok {| by_symbol := symbol; by_status := WaitingForSnapshot; by_last_update_id := 0; by_normalized_sequence := 0 |}.

Definition set_status (status : BinanceSyncStatus) (y : BinanceBookSynchronizer) : BinanceBookSynchronizer := {|
  by_symbol := by_symbol y; by_status := status; by_last_update_id := by_last_update_id y;
  by_normalized_sequence := by_normalized_sequence y |}.

Definition reset (y : BinanceBookSynchronizer) : BinanceBookSynchronizer := {|
  by_symbol := by_symbol y; by_status := WaitingForSnapshot; by_last_update_id := 0; by_normalized_sequence := 0 |}.

Definition sync_result (accepted ignored required : bool) (updates : list MarketDataUpdate) (message : string)
    (y : BinanceBookSynchronizer) : BinanceSyncResult * BinanceBookSynchronizer :=
  ({| br_accepted := accepted; br_ignored := ignored; br_snapshot_required := required; br_status := by_status y;
      br_updates := updates; br_message := message |}, y).

Definition apply_snapshot (snapshot : BinanceDepthSnapshot) (y : BinanceBookSynchronizer) :
    BinanceSyncResult * BinanceBookSynchronizer :=
  if negb (bs_valid snapshot) then sync_result false false true [] "invalid Binance snapshot" y
  else sync_result true false false [] "Binance snapshot accepted"
         {| by_symbol := by_symbol y; by_status := Synchronizing; by_last_update_id := bs_last_update_id snapshot;
            by_normalized_sequence := 0 |}.

Definition level_update (symbol : string) (sequence timestamp : Z) (side : MarketDataSide) (l : MarketDataLevel) :
    MarketDataUpdate := {|
  mu_venue := "BINANCE"; mu_symbol := symbol; mu_sequence := sequence; mu_timestamp_ns := timestamp; mu_side := side;
  mu_type := if dle (ml_quantity l) dzero then Delete else Upsert; mu_price := ml_price l; mu_quantity := ml_quantity l |}.

Definition append_updates (symbol : string) (sequence timestamp : Z) (side : MarketDataSide) (ls : list MarketDataLevel) :
    list MarketDataUpdate := level_update symbol sequence timestamp side <$> ls.

(** An update that connects. *)
Definition accept_update (u : BinanceDepthUpdate) (status : BinanceSyncStatus) (y : BinanceBookSynchronizer) :
    BinanceSyncResult * BinanceBookSynchronizer :=
  let sequence := u64 (by_normalized_sequence y + 1) in
  sync_result true false false
    (append_updates (by_symbol y) sequence (bu_received_timestamp u) Bid (bu_bids u) ++
     append_updates (by_symbol y) sequence (bu_received_timestamp u) Ask (bu_asks u))
    "Binance depth update accepted"
    {| by_symbol := by_symbol y; by_status := status; by_last_update_id := bu_final_update_id u;
       by_normalized_sequence := sequence |}.

Definition apply_update (u : BinanceDepthUpdate) (y : BinanceBookSynchronizer) :
    BinanceSyncResult * BinanceBookSynchronizer :=
  if negb (bu_valid u) then sync_result false false true [] "invalid Binance depth update" (set_status Stale y)
  else if bu_ignored u then sync_result true true false [] "ignored non-depth Binance message" y
  else if bool_decide (by_status y = WaitingForSnapshot)
  then sync_result false false true [] "Binance snapshot required" y
  else if bu_final_update_id u <=? by_last_update_id y
  then sync_result true true false [] "ignored stale Binance update" y
  else
    let expected := u64 (by_last_update_id y + 1) in
    if bool_decide (by_status y = Synchronizing) then
      if (expected <? bu_first_update_id u) || (bu_final_update_id u <? expected)
      then sync_result false false true [] "Binance update does not bridge snapshot" (set_status Stale y)
      else accept_update u Synchronized y
    else if expected <? bu_first_update_id u
    then sync_result false false true [] "Binance sequence gap detected" (set_status Stale y)
    else accept_update u (by_status y) y.

Definition synchronized (y : BinanceBookSynchronizer) : bool := bool_decide (by_status y = Synchronized).

(** ** The feed of Binance ([binance_feed.hpp], [binance_feed.cpp]) *)

Record BinanceFeedConfig := {
  bc_exchange_symbol : str; bc_normalized_symbol : string; bc_snapshot_depth : Z; bc_websocket_host : str;
  bc_websocket_port : str; bc_rest_host : str; bc_rest_port : str
}.

Definition default_config : BinanceFeedConfig := {|
  bc_exchange_symbol := lit "BTCUSDT"; bc_normalized_symbol := "BTC-USD"; bc_snapshot_depth := 5000;
  bc_websocket_host := lit "data-stream.binance.vision"; bc_websocket_port := lit "443";
  bc_rest_host := lit "data-api.binance.vision"; bc_rest_port := lit "443" |}.

(** The constructor. *)
Definition new_feed (c : BinanceFeedConfig) : result BinanceFeedConfig :=
  let c := {| bc_exchange_symbol := uppercase (bc_exchange_symbol c); bc_normalized_symbol := bc_normalized_symbol c;
              bc_snapshot_depth := bc_snapshot_depth c; bc_websocket_host := bc_websocket_host c;
              bc_websocket_port := bc_websocket_port c; bc_rest_host := bc_rest_host c; bc_rest_port := bc_rest_port c |} in
  _ ← guard_or (negb (bool_decide (bc_exchange_symbol c = []))) (invalid_argument "Binance exchange symbol cannot be empty");
  _ ← guard_or (negb (bool_decide (bc_normalized_symbol c = "")))
        (invalid_argument "Binance normalized symbol cannot be empty");
  _ ← guard_or ((bc_snapshot_depth c =? 100) || (bc_snapshot_depth c =? 500) || (bc_snapshot_depth c =? 1000) ||
                (bc_snapshot_depth c =? 5000)) (invalid_argument "unsupported Binance snapshot depth");
  Ok c.

Record BinanceFeedStats := {
  bf_connections : Z; bf_snapshots : Z; bf_received : Z; bf_accepted : Z; bf_ignored : Z; bf_rejected : Z;
  bf_reconnects : Z; bf_synchronized : bool; bf_last_update_id : Z
}.

Definition BinanceFeedStats0 : BinanceFeedStats := {|
  bf_connections := 0; bf_snapshots := 0; bf_received := 0; bf_accepted := 0; bf_ignored := 0; bf_rejected := 0;
  bf_reconnects := 0; bf_synchronized := false; bf_last_update_id := 0 |}.

(** The counters, by what they count. *)
Inductive Counter := Connections | Snapshots | Received | Accepted | Ignored | RejectedUpdates | Reconnects.

#[export] Instance Counter_eq_dec : EqDecision Counter.
Proof. solve_decision. Defined.

Definition count (c : Counter) (s : BinanceFeedStats) : BinanceFeedStats :=
  let add d n := if decide (c = d) then u64 (n + 1) else n in {|
  bf_connections := add Connections (bf_connections s); bf_snapshots := add Snapshots (bf_snapshots s);
  bf_received := add Received (bf_received s); bf_accepted := add Accepted (bf_accepted s);
  bf_ignored := add Ignored (bf_ignored s); bf_rejected := add RejectedUpdates (bf_rejected s);
  bf_reconnects := add Reconnects (bf_reconnects s); bf_synchronized := bf_synchronized s;
  bf_last_update_id := bf_last_update_id s |}.

Definition stats_sync (synchronized : bool) (last : Z) (s : BinanceFeedStats) : BinanceFeedStats := {|
  bf_connections := bf_connections s; bf_snapshots := bf_snapshots s; bf_received := bf_received s;
  bf_accepted := bf_accepted s; bf_ignored := bf_ignored s; bf_rejected := bf_rejected s; bf_reconnects := bf_reconnects s;
  bf_synchronized := synchronized; bf_last_update_id := last |}.

Definition normalize_snapshot (s : BinanceDepthSnapshot) (normalized_symbol : string) : MarketDataSnapshot := {|
  ms_venue := "BINANCE"; ms_symbol := normalized_symbol; ms_sequence := 0; ms_timestamp_ns := bs_received_timestamp s;
  ms_bids := bs_bids s; ms_asks := bs_asks s |}.

(** What arrives on a connection: the JSON of the snapshot with its time, none when
    fetching fails, and the payloads of the stream. *)
Record Arrival := { ar_snapshot : option (str * Z); ar_payloads : list (str * Z) }.

Section Feed.
Context {T : Type} `{PropertyTree T}.
Context {W : Type} (running : W -> bool).
Context (on_snapshot : MarketDataSnapshot -> ST W unit) (on_updates : list MarketDataUpdate -> ST W unit)
        (on_status : BinanceFeedStats -> W -> W).
Context (config : BinanceFeedConfig).

Notation Connection := (Connection BinanceBookSynchronizer BinanceFeedStats W).
Notation publish_status := (publish_status on_status).

Definition show_synchronizer : ST Connection unit := fun c =>
  on_stats (stats_sync (synchronized (cn_normalizer c)) (by_last_update_id (cn_normalizer c))) c.

(** [apply_update] and what the statistics show of the synchronizer. *)
Definition synchronize (u : BinanceDepthUpdate) : ST Connection BinanceSyncResult :=
  result ← on_normalizer (fun y => let (r, y) := apply_update u y in (Ok r, y));
  _ ← show_synchronizer;
  mret result.

Definition handle_parsed (parsed : BinanceDepthUpdate) : ST Connection unit :=
  if negb (bu_valid parsed) then
    _ ← on_stats (count RejectedUpdates);
    _ ← publish_status;
    throw (runtime_error ("Binance update parse failed: " +:+ bu_error parsed))
  else
    result ← synchronize parsed;
    if br_ignored result then
      _ ← on_stats (count Ignored);
      publish_status
    else if negb (br_accepted result) then
      _ ← on_stats (count RejectedUpdates);
      _ ← publish_status;
      if br_snapshot_required result then throw (runtime_error (br_message result)) else mret tt
    else if bool_decide (br_updates result = []) then
      _ ← on_stats (count Ignored);
      publish_status
    else
      _ ← on_world (on_updates (br_updates result));
      _ ← on_stats (count Accepted);
      publish_status.

Definition handle_payload (payload : str) (now : Z) : ST Connection unit :=
  _ ← on_stats (count Received);
  handle_parsed (parse_binance_depth_update payload (bc_exchange_symbol config) now).

(** The snapshot of a connection and the synchronizer that takes it. *)
Definition start (json : str) (now : Z) (s : BinanceFeedStats) (w : W) : result BinanceBookSynchronizer * (BinanceFeedStats * W) :=
  let snapshot := parse_binance_depth_snapshot json (bc_exchange_symbol config) now in
  if negb (bs_valid snapshot)
  then (Throw (runtime_error ("Binance snapshot parse failed: " +:+ bs_error snapshot)), (s, w))
  else match new_synchronizer (bc_normalized_symbol config) with
  | Throw e => (Throw e, (s, w))
  | Ok y =>
      let (r, y) := apply_snapshot snapshot y in
      if negb (br_accepted r) then (Throw (runtime_error (br_message r)), (s, w))
      else match on_snapshot (normalize_snapshot snapshot (bc_normalized_symbol config)) w with
      | (Throw e, w) => (Throw e, (s, w))
      | (Ok _, w) =>
          let s := stats_sync false (bs_last_update_id snapshot) (count Snapshots s) in
          (Ok y, (s, on_status s w))
      end
  end.

(** A connection: none when it fails before the snapshot. *)
Definition connection (arrival : option Arrival) (s : BinanceFeedStats) (w : W) : result unit * (BinanceFeedStats * W) :=
  match arrival with
  | None => (Throw (runtime_error "connection failed"), (s, w))
  | Some a =>
      let s := count Connections s in
      let w := on_status s w in
      match ar_snapshot a with
      | None => (Throw (runtime_error "Binance REST snapshot failed"), (s, w))
      | Some (json, now) =>
          match start json now s w with
          | (Throw e, sw) => (Throw e, sw)
          | (Ok y, (s, w)) =>
              let (r, c) := message_loop running handle_payload (ar_payloads a)
                              {| cn_normalizer := y; cn_stats := s; cn_world := w |} in
              (r, (cn_stats c, cn_world c))
          end
      end
  end.

Definition dropped (s : BinanceFeedStats) : BinanceFeedStats := stats_sync false (bf_last_update_id s) s.

Definition run (connections : list (option Arrival)) (w : W) : BinanceFeedStats * W :=
  run_loop running on_status connection dropped (count Reconnects) connections BinanceFeedStats0 w.

End Feed.
