(* ===== verification/BinanceProps.v ===== *)
(** * The book of Binance arrives

    When the depth updates describe how the book of the exchange changes between
    two update ids, the market of a client holds the exchange's book at the last
    update id, whatever updates are repeated, overlap or come too early. *)

From stdpp Require Import gmap.
From S2P Require Import Prelude.
From S2P Require Import Text.
From S2P Require Import Float.
From S2P Require Import Decimal.
From S2P Require Import SortedMap.
From S2P Require Import MarketData.
From S2P Require Import MarketDataProps.
From S2P Require Import Feeds.
From S2P Require Import Binance.

(** ** Parsed levels *)

Definition parsed_level (l : MarketDataLevel) : Prop :=
  price_ok (ml_price l) /\ validate_quantity (ml_quantity l) = Ok tt.

Lemma parse_number_ok s z x : parse_number s z = Ok x ->
  isfinite x = true /\ dlt x dzero = false /\ (z = false -> dle x dzero = false).
Proof.
  unfold parse_number. destruct (stod s) as [[x' n]|]; [|done]. cbn [mbind result_bind fst snd]. unfold guard_or.
  destruct (negb _) eqn:E; [|done]. cbn [mbind result_bind]. intros <-%(inj Ok). apply negb_true_iff in E.
  repeat apply orb_false_iff in E as [E ?]. split; [by destruct (isfinite x')|]. split; [done|]. by intros ->.
Qed.

Section parse.
Context {T : Type} `{PropertyTree T}.

Lemma parse_level_ok (t : T) l : parse_level t = Ok l -> parsed_level l.
Proof.
  unfold parse_level. destruct (level_values _) as [[|p [|q vs]]|]; try done. cbn [mbind result_bind].
  destruct (parse_number p false) as [price|] eqn:EP; [|done]. cbn [mbind result_bind].
  destruct (parse_number q true) as [quantity|] eqn:EQ; [|done]. cbn [mbind result_bind]. intros <-%(inj Ok).
  apply parse_number_ok in EP as (F1 & _ & P1), EQ as (F2 & N2 & _). specialize (P1 eq_refl). split; cbn [ml_price ml_quantity].
  - unfold price_ok, dpositive. by rewrite F1, P1.
  - unfold validate_quantity. by rewrite F2, N2.
Qed.

Lemma parse_levels_ok (ts : list T) ls : parse_levels ts = Ok ls -> Forall parsed_level ls.
Proof.
  revert ls. induction ts as [|t ts IH]; intros ls; cbn [parse_levels]; [intros <-%(inj Ok); constructor|].
  destruct (parse_level t) as [l|] eqn:E; [|done]. cbn [mbind result_bind].
  destruct (parse_levels ts) as [ls'|]; [|done]. cbn [mbind result_bind]. intros <-%(inj Ok).
  constructor; [by apply parse_level_ok in E|by apply IH].
Qed.

Definition update_message_ok (u : BinanceDepthUpdate) : Prop :=
  Forall parsed_level (bu_bids u) /\ Forall parsed_level (bu_asks u).

Lemma parse_event_ok (t : T) u : update_message_ok u -> update_message_ok (parse_event t u).2.
Proof.
  intros Hu. unfold parse_event, mbind, st_bind, lift, modify.
  destruct (get_unsigned "E" t); [|done]. destruct (get_unsigned "U" t); [|done]. destruct (get_unsigned "u" t); [|done].
  destruct (get_child_optional "b" t) as [tb|]; [|done]. destruct (get_child_optional "a" t) as [ta|]; [|done].
  destruct (parse_levels (children tb)) as [bids|] eqn:EB; [|done].
  destruct (parse_levels (children ta)) as [asks|] eqn:EA.
  - split; cbn; by eapply parse_levels_ok.
  - split; cbn; [by eapply parse_levels_ok|constructor].
Qed.

(** Whatever the text, the levels of an update have positive prices and
    quantities that are not negative. *)
Lemma parsed_update_ok json symbol now : update_message_ok (parse_binance_depth_update (T := T) json symbol now).
Proof.
  unfold parse_binance_depth_update, caught. set (u := empty_update symbol now).
  assert (update_message_ok u) as Hu by (split; constructor).
  assert (update_message_ok (parse_update_root (T := T) json u).2) as HP.
  { unfold parse_update_root, mbind, st_bind, lift. destruct (read_json json) as [root|e]; [|done].
    destruct (negb _); [done|]. destruct (get_text "s" root); [|done]. destruct (negb _); [done|]. by apply parse_event_ok. }
  by destruct (parse_update_root json u) as [[[]|e] u'].
Qed.

End parse.

(** ** What an update says of the exchange's book *)

(** A level of an update replaces the level at its price; zero removes it. *)
Definition set_level (side : MarketDataSide) (m : levels) (l : MarketDataLevel) : levels :=
  if dle (ml_quantity l) dzero then sm_delete (before side) (ml_price l) m
  else sm_insert (before side) (ml_price l) (ml_quantity l) m.

Definition apply_depth (u : BinanceDepthUpdate) (b : levels * levels) : levels * levels :=
  (foldl (set_level Bid) b.1 (bu_bids u), foldl (set_level Ask) b.2 (bu_asks u)).

(** [E n] is the exchange's book after the update [n].  An event that covers the
    updates from [U] to [u] leads from each book in between to the book at [u]. *)
Definition describes (E : Z -> levels * levels) (u : BinanceDepthUpdate) : Prop :=
  bu_valid u = true -> bu_ignored u = false ->
  forall n, bu_first_update_id u - 1 <= n < bu_final_update_id u -> apply_depth u (E n) = E (bu_final_update_id u).

(** A quantity removes its level or is above the tolerance of the books. *)
Definition visible (l : MarketDataLevel) : Prop :=
  dle (ml_quantity l) dzero = true \/ dle (ml_quantity l) level_epsilon = false.

Definition visible_update (u : BinanceDepthUpdate) : Prop := Forall visible (bu_bids u) /\ Forall visible (bu_asks u).

#[export] Instance visible_dec l : Decision (visible l).
Proof. unfold visible. apply _. Defined.

#[export] Instance visible_update_dec u : Decision (visible_update u).
Proof. unfold visible_update. apply _. Defined.

Section updates.
Context (symbol : string) (sequence timestamp : Z).

Lemma level_step side m l : visible l -> side_step side m (level_update symbol sequence timestamp side l) = set_level side m l.
Proof.
  unfold side_step, set_level. cbn [level_update mu_type mu_price mu_quantity].
  destruct (dle (ml_quantity l) dzero) eqn:E; [done|]. intros [?|Hq]; [congruence|].
  rewrite bool_decide_false by done. by rewrite Hq.
Qed.

Lemma level_steps side ls m : Forall visible ls ->
  foldl (side_step side) m (append_updates symbol sequence timestamp side ls) = foldl (set_level side) m ls.
Proof.
  intros HV. revert m. induction HV as [|l ls Hl _ IH]; intros m; [done|]. cbn. rewrite level_step by done. apply IH.
Qed.

Lemma level_updates_lead u b : visible_update u ->
  foldl (fun l u => change u l) b (append_updates symbol sequence timestamp Bid (bu_bids u) ++
                                   append_updates symbol sequence timestamp Ask (bu_asks u)) = apply_depth u b.
Proof.
  intros [Hb Ha]. rewrite foldl_app, (changes_of_side Bid (append_updates _ _ _ Bid _)), (changes_of_side Ask (append_updates _ _ _ Ask _)).
  - cbn [set_side side_of fst snd]. rewrite !level_steps by done. by destruct b.
  - apply Forall_fmap. by apply Forall_true.
  - apply Forall_fmap. by apply Forall_true.
Qed.

Lemma level_updates_batch u : update_message_ok u ->
  batch_of "BINANCE" symbol sequence (append_updates symbol sequence timestamp Bid (bu_bids u) ++
                                      append_updates symbol sequence timestamp Ask (bu_asks u)).
Proof.
  intros [Hb Ha]. unfold batch_of. rewrite Forall_app. split; apply Forall_fmap; (eapply Forall_impl; [eassumption|]);
    intros l [Hp Hq]; by split_and!.
Qed.

End updates.

(** ** The synchronizer *)

Definition started (y : BinanceBookSynchronizer) : Prop :=
  (by_status y = Synchronizing \/ by_status y = Synchronized) /\ 0 <= by_last_update_id y.

(** A started synchronizer ignores an update, asks for a snapshot, or takes an
    update that leads from the exchange's book at its last id to the next. *)
Inductive sync_step (E : Z -> levels * levels) (u : BinanceDepthUpdate) (y : BinanceBookSynchronizer) :
    BinanceSyncResult -> BinanceBookSynchronizer -> Prop :=
  | sync_ignored r : br_ignored r = true -> sync_step E u y r y
  | sync_refused r y' : br_ignored r = false -> br_accepted r = false -> br_snapshot_required r = true -> sync_step E u y r y'
  | sync_taken r y' : br_ignored r = false -> br_accepted r = true -> started y' -> by_symbol y' = by_symbol y ->
      apply_depth u (E (by_last_update_id y)) = E (by_last_update_id y') ->
      br_updates r = append_updates (by_symbol y) (by_normalized_sequence y') (bu_received_timestamp u) Bid (bu_bids u) ++
                     append_updates (by_symbol y) (by_normalized_sequence y') (bu_received_timestamp u) Ask (bu_asks u) ->
      sync_step E u y r y'.

Lemma u64_le z : 0 <= z -> u64 z <= z.
Proof. intros Hz. unfold u64. apply Z.mod_le; lia. Qed.

Lemma accept_taken E u y status : bu_valid u = true -> bu_ignored u = false -> describes E u -> started y ->
  status = Synchronizing \/ status = Synchronized ->
  by_last_update_id y < bu_final_update_id u -> bu_first_update_id u <= u64 (by_last_update_id y + 1) ->
  sync_step E u y (accept_update u status y).1 (accept_update u status y).2.
Proof.
  intros Hv Hi HE [_ H0] Hst Hfin Hfirst. apply sync_taken; try done.
  - split; [done|]. cbn. lia.
  - cbn [accept_update sync_result snd by_last_update_id]. apply HE; [done..|]. pose proof (u64_le (by_last_update_id y + 1)). lia.
Qed.

Lemma apply_update_step E u y : describes E u -> started y -> sync_step E u y (apply_update u y).1 (apply_update u y).2.
Proof.
  intros HE Hy. unfold apply_update. destruct (bu_valid u) eqn:Hv; cbn [negb]; [|by apply sync_refused].
  destruct (bu_ignored u) eqn:Hi; [by apply sync_ignored|]. case_bool_decide as Hw; [by destruct Hy as [[] _]; congruence|].
  destruct (bu_final_update_id u <=? by_last_update_id y) eqn:EF; [by apply sync_ignored|]. breflect.
  case_bool_decide as Hs.
  - destruct (_ || _) eqn:EG; [by apply sync_refused|]. apply orb_false_iff in EG as [E1 E2]. breflect.
    apply accept_taken; try done. by right.
  - destruct (u64 (by_last_update_id y + 1) <? bu_first_update_id u) eqn:EG; [by apply sync_refused|]. breflect.
    apply accept_taken; try done. apply Hy.
Qed.

(** ** The connection of a client *)

Definition binance_key (symbol : string) : string := venue_key "BINANCE" symbol.

Section connection.
Context {T : Type} `{PropertyTree T} (maximum_updates : Z) (config : BinanceFeedConfig) (E : Z -> levels * levels).

Notation Client := (Client BinanceFeedStats).
Notation Connection := (Connection BinanceBookSynchronizer BinanceFeedStats Client).
Notation on_snapshot := (client_snapshot "Binance").
Notation on_updates := (client_updates "Binance" maximum_updates).
Notation handle_parsed := (handle_parsed on_updates client_status).
Notation handle_payload := (handle_payload (T := T) on_updates client_status config).
Notation start := (start (T := T) on_snapshot client_status config).

Record binance_connection_ok (c : Connection) : Prop := {
  co_symbol : by_symbol (cn_normalizer c) = bc_normalized_symbol config;
  co_named : bc_normalized_symbol config <> "";
  co_started : started (cn_normalizer c);
  co_buffer : unbuffered (binance_key (bc_normalized_symbol config)) (cl_market (cn_world c));
  co_holds : holds (binance_key (bc_normalized_symbol config)) (E (by_last_update_id (cn_normalizer c))) (cl_market (cn_world c));
  co_shown : bf_last_update_id (cn_stats c) = by_last_update_id (cn_normalizer c)
}.

(** Changes of the counters and of what the client shows. *)
Definition same_book (c c' : Connection) : Prop :=
  cn_normalizer c' = cn_normalizer c /\ cl_market (cn_world c') = cl_market (cn_world c) /\
  bf_last_update_id (cn_stats c') = bf_last_update_id (cn_stats c).

Lemma binance_same_book_ok c c' : same_book c c' -> binance_connection_ok c -> binance_connection_ok c'.
Proof. intros (E1 & E2 & E3) []. by split; rewrite ?E1, ?E2, ?E3. Qed.

Lemma binance_handle_parsed_ok u c c' : binance_connection_ok c -> update_message_ok u -> visible_update u -> describes E u ->
  handle_parsed u c = (Ok tt, c') -> binance_connection_ok c'.
Proof.
  intros Hc Hm Hv Hd. unfold Binance.handle_parsed. destruct (bu_valid u); cbn [negb]; [|done].
  unfold synchronize, mbind, st_bind, on_normalizer, show_synchronizer, on_stats, modify at 1. cbn [cn_normalizer].
  pose proof Hc as [HS HN HT HR HH HI]. pose proof (apply_update_step E u (cn_normalizer c) Hd HT) as HU.
  destruct (apply_update u (cn_normalizer c)) as [r y']. cbn [fst snd] in HU. cbn [mret st_ret].
  destruct HU as [r Hi|r y' Hi Ha Hq|r y' Hi Ha Hst Hsy HE Hus]; rewrite Hi.
  - intros [= <-]. apply (binance_same_book_ok c); [|done]. by split_and!.
  - rewrite Ha. cbn [negb]. by rewrite Hq.
  - rewrite Ha. cbn [negb]. pose proof (level_updates_batch (by_symbol (cn_normalizer c)) (by_normalized_sequence y') (bu_received_timestamp u) u Hm) as HB.
    pose proof (level_updates_lead (by_symbol (cn_normalizer c)) (by_normalized_sequence y') (bu_received_timestamp u) u (E (by_last_update_id (cn_normalizer c))) Hv) as HL.
    rewrite <- Hus, HS in HB. rewrite <- Hus, HE in HL. case_bool_decide as EU.
    + intros [= <-]. rewrite EU in HL. cbn in HL. split; cbn; try done; [congruence|by rewrite <- HL].
    + unfold on_world. cbn [cn_world]. destruct (on_updates (br_updates r) (cn_world c)) as [[[]|e] w'] eqn:EW; [|done].
      apply (updates_arrive _ _ "BINANCE" (bc_normalized_symbol config) (by_normalized_sequence y') _ (E (by_last_update_id (cn_normalizer c)))) in EW as [HH' HR'];
        [|done..]. rewrite HL in HH'. intros [= <-]. split; cbn; try done. congruence.
Qed.

(** A payload: its quantities are visible and it describes the exchange's book. *)
Definition payload_ok (p : str * Z) : Prop :=
  let u := parse_binance_depth_update (T := T) p.1 (bc_exchange_symbol config) p.2 in visible_update u /\ describes E u.

Lemma binance_handle_all_ok payloads c c' : Forall payload_ok payloads -> binance_connection_ok c ->
  handle_all handle_payload payloads c = (Ok tt, c') -> binance_connection_ok c'.
Proof.
  intros HV Hc. apply (handle_all_ind binance_connection_ok payload_ok); [|done..]. clear. intros [payload now] c c' [Hv Hd] Hc E'.
  unfold Binance.handle_payload, mbind, st_bind, on_stats, modify in E'. cbn [fst snd] in *.
  eapply binance_handle_parsed_ok; [|apply parsed_update_ok|exact Hv|exact Hd|exact E']. by apply (binance_same_book_ok c).
Qed.

Lemma binance_start_ok json now s w y s' w' : unbuffered (binance_key (bc_normalized_symbol config)) (cl_market w) ->
  (let snapshot := parse_binance_depth_snapshot (T := T) json (bc_exchange_symbol config) now in
   0 <= bs_last_update_id snapshot /\
   snapshot_sides (normalize_snapshot snapshot (bc_normalized_symbol config)) = Ok (E (bs_last_update_id snapshot))) ->
  start json now s w = (Ok y, (s', w')) ->
  binance_connection_ok {| cn_normalizer := y; cn_stats := s'; cn_world := w' |}.
Proof.
  intros HR. unfold Binance.start. set (snapshot := parse_binance_depth_snapshot _ _ _). cbv zeta. intros [H0 HE].
  destruct (bs_valid snapshot) eqn:EV; cbn [negb]; [|done]. unfold new_synchronizer, guard_or.
  destruct (negb (bool_decide (bc_normalized_symbol config = ""))) eqn:EN; [|done]. cbn [mbind result_bind].
  unfold apply_snapshot. rewrite EV. cbn [negb sync_result br_accepted]. breflect.
  destruct (on_snapshot _ w) as [[[]|e] w1] eqn:EW; [|done]. apply snapshot_arrives in EW as (l & El & HH & HR'); [|done].
  assert (l = E (bs_last_update_id snapshot)) as -> by (rewrite HE in El; by apply (inj Ok) in El).
  intros [= <- <- <-]. split; cbn; try done. split; [by left|done].
Qed.

End connection.

(** C34: Let [E n] be the book of Binance after update [n], so that every depth
    event leads from each book between its first and its last update to the book
    at its last.  After a snapshot of the book at its update id, whatever events
    arrive on the connection (early, repeated, overlapping), as long as none makes
    it end, the client's market holds a synchronized book equal to the exchange's
    book at the update id that the statistics show.  In particular a gap never
    goes unnoticed. *)
Theorem binance_book_arrives {T} `{PropertyTree T} maximum_updates config E json now s w y s' w' payloads c :
  unbuffered (binance_key (bc_normalized_symbol config)) (cl_market w) ->
  (let snapshot := parse_binance_depth_snapshot (T := T) json (bc_exchange_symbol config) now in
   0 <= bs_last_update_id snapshot /\
   snapshot_sides (normalize_snapshot snapshot (bc_normalized_symbol config)) = Ok (E (bs_last_update_id snapshot))) ->
  start (T := T) (client_snapshot "Binance") client_status config json now s w = (Ok y, (s', w')) ->
  Forall (payload_ok (T := T) config E) payloads ->
  handle_all (handle_payload (T := T) (client_updates "Binance" maximum_updates) client_status config) payloads
    {| cn_normalizer := y; cn_stats := s'; cn_world := w' |} = (Ok tt, c) ->
  exists b, find_book "BINANCE" (bc_normalized_symbol config) (cl_market (cn_world c)) = Ok (Some b) /\
    synchronized_ b = true /\ sides b = E (bf_last_update_id (cn_stats c)).
Proof.
  intros HR HE Hstart HP HA. eapply binance_handle_all_ok in HA; [|exact HP|by eapply binance_start_ok].
  destruct HA as [HS HN _ _ (b & Eb & Esd & Hy) ->]. exists b. unfold find_book. rewrite key_of by done. cbn [mbind result_bind].
  split; [exact (f_equal Ok Eb)|by split].
Qed.

(** ** Examples *)

Definition level_doc (price quantity : string) : string * Doc :=
  ("", DNode [("", DText (lit price)); ("", DText (lit quantity))]).

Definition event_doc (first final : Z) (bids asks : list (string * Doc)) : Doc :=
  DNode [("e", DText (lit "depthUpdate")); ("s", DText (lit "BTCUSDT")); ("E", DNumber 0); ("U", DNumber first);
         ("u", DNumber final); ("b", DNode bids); ("a", DNode asks)].

Definition example_tree : PropertyTree Doc := doc_tree [
  (lit "snapshot", DNode [("lastUpdateId", DNumber 10); ("bids", DNode [level_doc "100.5" "2"; level_doc "100.0" "1"]);
                          ("asks", DNode [level_doc "101.0" "3"])]);
  (lit "early", event_doc 7 9 [level_doc "99.0" "1"] []);
  (lit "first", event_doc 8 12 [level_doc "100.5" "0"] [level_doc "102.0" "4"]);
  (lit "second", event_doc 13 13 [level_doc "100.5" "7"] []);
  (lit "empty", event_doc 13 14 [] []);
  (lit "third", event_doc 15 15 [level_doc "100.5" "0"] []);
  (lit "late", event_doc 20 21 [] [level_doc "101.0" "0"])].

(** The levels of the texts. *)
Definition number_of (s : string) : double := match parse_number (lit s) true with Ok x => x | Throw _ => dzero end.

(** The exchange's book: the first event makes the changes of the updates 11 and
    12, the second that of the update 13. *)
Definition example_books (n : Z) : levels * levels :=
  let bids := [(number_of "100.0", number_of "1")] in
  let asks := [(number_of "101.0", number_of "3"); (number_of "102.0", number_of "4")] in
  if n <=? 10 then ((number_of "100.5", number_of "2") :: bids, take 1 asks)
  else if n =? 11 then (bids, take 1 asks)
  else if n =? 12 then (bids, asks)
  else ((number_of "100.5", number_of "7") :: bids, asks).

Definition example_start : result BinanceBookSynchronizer * (BinanceFeedStats * Client BinanceFeedStats) :=
  start (H := example_tree) (client_snapshot "Binance") client_status default_config (lit "snapshot") 1
    BinanceFeedStats0 (new_client BinanceFeedStats0).

Definition after (payloads : list string) : result unit * Connection BinanceBookSynchronizer BinanceFeedStats (Client BinanceFeedStats) :=
  match example_start with
  | (Ok y, (s, w)) =>
      handle_all (handle_payload (H := example_tree) (client_updates "Binance" 0) client_status default_config)
        ((fun p => (lit p, 1)) <$> payloads) {| cn_normalizer := y; cn_stats := s; cn_world := w |}
  | (Throw e, (s, w)) =>
      (Throw e, {| cn_normalizer := {| by_symbol := ""; by_status := Stale; by_last_update_id := 0; by_normalized_sequence := 0 |};
                   cn_stats := s; cn_world := w |})
  end.

Definition example_update (p : string) : BinanceDepthUpdate :=
  parse_binance_depth_update (H := example_tree) (lit p) (lit "BTCUSDT") 1.

Lemma example_ids :
  (bu_first_update_id (example_update "first") = 8 /\ bu_final_update_id (example_update "first") = 12) /\
  (bu_first_update_id (example_update "second") = 13 /\ bu_final_update_id (example_update "second") = 13).
Proof. repeat split; vm_compute; reflexivity. Qed.

Lemma first_described : describes example_books (example_update "first").
Proof.
  destruct example_ids as [[E1 E2] _]. intros _ _ n. rewrite E1, E2. intros Hn. assert (n <= 10 \/ n = 11) as [Hle| ->] by lia.
  - unfold example_books at 1. rewrite (proj2 (Z.leb_le n 10)) by done. vm_compute. reflexivity.
  - vm_compute. reflexivity.
Qed.

Lemma second_described : describes example_books (example_update "second").
Proof.
  destruct example_ids as [_ [E1 E2]]. intros _ _ n. rewrite E1, E2. intros Hn.
  assert (n = 12) as -> by lia. vm_compute. reflexivity.
Qed.

Lemma binance_book_arrives_witness : exists b,
  find_book "BINANCE" "BTC-USD" (cl_market (cn_world (after ["first"; "second"; "first"]).2)) = Ok (Some b) /\
  sides b = example_books 13.
Proof.
  destruct (binance_book_arrives (H := example_tree) 0 default_config example_books (lit "snapshot") 1 BinanceFeedStats0
    (new_client BinanceFeedStats0)
    (match example_start.1 with Ok y => y | Throw _ => {| by_symbol := ""; by_status := Stale; by_last_update_id := 0; by_normalized_sequence := 0 |} end)
    example_start.2.1 example_start.2.2 [(lit "first", 1); (lit "second", 1); (lit "first", 1)]
    (after ["first"; "second"; "first"]).2) as (b & Hb & _ & Hs).
  - reflexivity.
  - split; [vm_compute; discriminate|vm_compute; reflexivity].
  - vm_compute. reflexivity.
  - assert (forall p, p = "first" \/ p = "second" -> payload_ok (H := example_tree) default_config example_books (lit p, 1)) as HP.
    { intros p [-> | ->]; (split; [refine (bool_decide_unpack _ _); vm_compute; exact I|]).
      - exact first_described.
      - exact second_described. }
    do 2 (apply Forall_cons; split; [apply HP; (by left) || by right|]). apply Forall_singleton, HP. by left.
  - vm_compute. reflexivity.
  - exists b. split; [exact Hb|]. rewrite Hs. vm_compute. reflexivity.
Defined.

(** A gap ends the connection; so does the event after an event without levels,
    which the synchronizer numbers but the feed does not deliver. *)
Example gaps_end_connection :
  (after ["early"; "first"; "late"]).1 = Throw (runtime_error "Binance sequence gap detected") /\
  (after ["first"; "empty"]).1 = Ok tt /\
  (after ["first"; "empty"; "third"]).1 = Throw (runtime_error "Binance updates rejected: market-data sequence gap detected").
Proof. repeat split; vm_compute; reflexivity. Qed.
