(* ===== verification/LiveMarket.v ===== *)
(** * The live market gateway ([apps/live_market_data_ws.cpp], [coinbase_l2.hpp], [coinbase_l2.cpp])

    The level-2 messages of Coinbase, parsed into a snapshot or a batch of updates,
    and [LiveMarketState], which joins the three feeds with the market, the
    recorder, the health of the venues and the latency statistics.  Its members hold
    a mutex: they run one after another.  Clocks are arguments; the JSON of the
    dashboard and the sockets are left out. *)

From S2P Require Import Prelude.
From S2P Require Import Float.
From S2P Require Import Text.
From S2P Require Import MarketData.
From S2P Require Import Decimal.
From S2P Require Import Recording.
From S2P Require Import VenueHealth.
From S2P Require Import LatencyStats.
From S2P Require Import Feeds.

Record CoinbaseLevel2Message := {
  cm_valid : bool; cm_snapshot : bool; cm_heartbeat : bool; cm_ignored : bool; cm_channel : str; cm_product_id : str;
  cm_sequence : Z; cm_received_timestamp : Z; cm_book_snapshot : MarketDataSnapshot; cm_updates : list MarketDataUpdate;
  cm_error : string
}.

Definition no_book : MarketDataSnapshot := {|
  ms_venue := ""; ms_symbol := ""; ms_sequence := 0; ms_timestamp_ns := 0; ms_bids := []; ms_asks := [] |}.

Definition empty_message (received : Z) : CoinbaseLevel2Message := {|
  cm_valid := false; cm_snapshot := false; cm_heartbeat := false; cm_ignored := false; cm_channel := [];
  cm_product_id := []; cm_sequence := 0; cm_received_timestamp := received; cm_book_snapshot := no_book;
  cm_updates := []; cm_error := "" |}.

Definition message_error (error : string) (m : CoinbaseLevel2Message) : CoinbaseLevel2Message := {|
  cm_valid := cm_valid m; cm_snapshot := cm_snapshot m; cm_heartbeat := cm_heartbeat m; cm_ignored := cm_ignored m;
  cm_channel := cm_channel m; cm_product_id := cm_product_id m; cm_sequence := cm_sequence m;
  cm_received_timestamp := cm_received_timestamp m; cm_book_snapshot := cm_book_snapshot m; cm_updates := cm_updates m;
  cm_error := error |}.

Definition message_header (channel : str) (sequence : Z) (m : CoinbaseLevel2Message) : CoinbaseLevel2Message := {|
  cm_valid := cm_valid m; cm_snapshot := cm_snapshot m; cm_heartbeat := cm_heartbeat m; cm_ignored := cm_ignored m;
  cm_channel := channel; cm_product_id := cm_product_id m; cm_sequence := sequence;
  cm_received_timestamp := cm_received_timestamp m; cm_book_snapshot := cm_book_snapshot m; cm_updates := cm_updates m;
  cm_error := cm_error m |}.

Definition message_valid (heartbeat ignored : bool) (m : CoinbaseLevel2Message) : CoinbaseLevel2Message := {|
  cm_valid := true; cm_snapshot := cm_snapshot m; cm_heartbeat := heartbeat; cm_ignored := ignored;
  cm_channel := cm_channel m; cm_product_id := cm_product_id m; cm_sequence := cm_sequence m;
  cm_received_timestamp := cm_received_timestamp m; cm_book_snapshot := cm_book_snapshot m; cm_updates := cm_updates m;
  cm_error := cm_error m |}.

(** The texts are kept as strings in what goes to the market. *)
Definition text (s : str) : string := String.string_of_list_ascii s.

(** The first supported event decides what the message is. *)
Definition message_product (snapshot : bool) (product : str) (m : CoinbaseLevel2Message) : CoinbaseLevel2Message := {|
  cm_valid := cm_valid m; cm_snapshot := snapshot; cm_heartbeat := cm_heartbeat m; cm_ignored := cm_ignored m;
  cm_channel := cm_channel m; cm_product_id := product; cm_sequence := cm_sequence m;
  cm_received_timestamp := cm_received_timestamp m;
  cm_book_snapshot := {| ms_venue := "COINBASE"; ms_symbol := text product; ms_sequence := cm_sequence m;
                         ms_timestamp_ns := cm_received_timestamp m; ms_bids := []; ms_asks := [] |};
  cm_updates := cm_updates m; cm_error := cm_error m |}.

Definition push_level (side : MarketDataSide) (l : MarketDataLevel) (s : MarketDataSnapshot) : MarketDataSnapshot := {|
  ms_venue := ms_venue s; ms_symbol := ms_symbol s; ms_sequence := ms_sequence s; ms_timestamp_ns := ms_timestamp_ns s;
  ms_bids := match side with Bid => ms_bids s ++ [l] | Ask => ms_bids s end;
  ms_asks := match side with Bid => ms_asks s | Ask => ms_asks s ++ [l] end |}.

Definition message_content (book : MarketDataSnapshot) (updates : list MarketDataUpdate) (m : CoinbaseLevel2Message) :
    CoinbaseLevel2Message := {|
  cm_valid := cm_valid m; cm_snapshot := cm_snapshot m; cm_heartbeat := cm_heartbeat m; cm_ignored := cm_ignored m;
  cm_channel := cm_channel m; cm_product_id := cm_product_id m; cm_sequence := cm_sequence m;
  cm_received_timestamp := cm_received_timestamp m; cm_book_snapshot := book; cm_updates := updates; cm_error := cm_error m |}.

Definition parse_positive_double (value : str) (field_name : string) (allow_zero : bool) : result double :=
  parsed ← stod value;
  _ ← guard_or (negb (negb (parsed.2 =? length value)%nat || negb (isfinite parsed.1) || dlt parsed.1 dzero ||
                      (negb allow_zero && dle parsed.1 dzero)))
        (invalid_argument ("invalid Coinbase " +:+ field_name));
  Ok parsed.1.

Definition parse_side (side : str) : result MarketDataSide :=
  if bool_decide (side = lit "bid") then Ok Bid
  else if bool_decide (side = lit "offer") || bool_decide (side = lit "ask") then Ok Ask
  else Throw (invalid_argument "unsupported Coinbase Level-2 side").

Section parse.
Context {T : Type} `{PropertyTree T}.

(** An entry of [updates] in a snapshot or in an update. *)
Definition parse_entry (snapshot : bool) (product : str) (entry : T) : ST CoinbaseLevel2Message unit :=
  side ← lift (side ← get_text "side" entry; parse_side side);
  price ← lift (price ← get_text "price_level" entry; parse_positive_double price "price_level" false);
  quantity ← lift (quantity ← get_text "new_quantity" entry; parse_positive_double quantity "new_quantity" true);
  if (snapshot : bool) then
    if dle quantity dzero then mret tt
    else modify (fun m => message_content (push_level side {| ml_price := price; ml_quantity := quantity |} (cm_book_snapshot m))
                                          (cm_updates m) m)
  else modify (fun m => message_content (cm_book_snapshot m) (cm_updates m ++ [{|
         mu_venue := "COINBASE"; mu_symbol := text product; mu_sequence := cm_sequence m;
         mu_timestamp_ns := cm_received_timestamp m; mu_side := side;
         mu_type := if dle quantity dzero then Delete else Upsert; mu_price := price; mu_quantity := quantity |}]) m).

Fixpoint parse_entries (snapshot : bool) (product : str) (entries : list T) : ST CoinbaseLevel2Message unit :=
  match entries with
  | [] => mret tt
  | entry :: entries => _ ← parse_entry snapshot product entry; parse_entries snapshot product entries
  end.

(** An event; [initialized] says whether one was supported so far. *)
Definition parse_event (initialized : bool) (event : T) : ST CoinbaseLevel2Message bool := fun m =>
  let type := text_or [] "type" event in
  let product := text_or [] "product_id" event in
  let snapshot := bool_decide (type = lit "snapshot") in
  (if negb snapshot && negb (bool_decide (type = lit "update")) then mret initialized
   else
     _ ← lift (guard_or (negb (bool_decide (product = []))) (invalid_argument "Coinbase event is missing product_id"));
     let m := if (initialized : bool) then m else message_product snapshot product m in
     _ ← modify (fun _ => m);
     _ ← lift (guard_or (bool_decide (product = cm_product_id m))
                 (invalid_argument "multiple products in one normalized message"));
     match get_child_optional "updates" event with
     | None => mret true
     | Some updates => _ ← parse_entries snapshot product (children updates); mret true
     end) m.

Fixpoint parse_events (initialized : bool) (events : list T) : ST CoinbaseLevel2Message bool :=
  match events with
  | [] => mret initialized
  | event :: events => initialized ← parse_event initialized event; parse_events initialized events
  end.

Definition parse_root (json : str) : ST CoinbaseLevel2Message unit :=
  root ← lift (read_json json);
  let channel := text_or [] "channel" root in
  _ ← modify (message_header channel (unsigned_or 0 "sequence_num" root));
  if bool_decide (channel = lit "heartbeats") then modify (message_valid true false)
  else if negb (bool_decide (channel = lit "l2_data")) then modify (message_valid false true)
  else match children <$> get_child_optional "events" root with
       | None | Some [] => modify (message_error "Coinbase message has no events")
       | Some events =>
           initialized ← parse_events false events;
           if negb initialized then modify (message_error "Coinbase message has no supported events")
           else modify (message_valid false false)
       end.

Definition parse_coinbase_level2_message (json : str) (received_timestamp : Z) : CoinbaseLevel2Message :=
  caught message_error (parse_root json) (empty_message received_timestamp).

End parse.

(** ** Subscriptions *)

Definition quote : str := [ascii_of_nat 34].
Definition backslash : str := [ascii_of_nat 92].

Definition escape_character (c : ascii) : str :=
  let n := nat_of_ascii c in
  if (n =? 34)%nat then backslash ++ quote
  else if (n =? 92)%nat then backslash ++ backslash
  else if (n =? 10)%nat then backslash ++ lit "n"
  else if (n =? 13)%nat then backslash ++ lit "r"
  else if (n =? 9)%nat then backslash ++ lit "t"
  else [c].

Definition escape_json (value : str) : str := concat (escape_character <$> value).

Definition quoted (s : str) : str := quote ++ s ++ quote.

Definition coinbase_level2_subscription (product_id : str) : result str :=
  _ ← guard_or (negb (bool_decide (product_id = []))) (invalid_argument "Coinbase product id cannot be empty");
  Ok (lit "{" ++ quoted (lit "type") ++ lit ":" ++ quoted (lit "subscribe") ++ lit "," ++ quoted (lit "product_ids") ++
      lit ":[" ++ quoted (escape_json product_id) ++ lit "]," ++ quoted (lit "channel") ++ lit ":" ++ quoted (lit "level2") ++
      lit "}").

Definition coinbase_heartbeat_subscription : str :=
  lit "{" ++ quoted (lit "type") ++ lit ":" ++ quoted (lit "subscribe") ++ lit "," ++ quoted (lit "channel") ++ lit ":" ++
  quoted (lit "heartbeats") ++ lit "}".

(** ** The live market gateway ([apps/live_market_data_ws.cpp]) *)

Inductive LiveVenue := Coinbase | Binance | Kraken.

#[export] Instance LiveVenue_eq_dec : EqDecision LiveVenue.
Proof. solve_decision. Defined.

(** The names in messages and latencies, and those of the health monitor. *)
Definition display_name (v : LiveVenue) : string :=
  match v with Coinbase => "Coinbase" | Binance => "Binance" | Kraken => "Kraken" end.
Definition timer_name (v : LiveVenue) : string :=
  match v with Coinbase => "coinbase" | Binance => "binance" | Kraken => "kraken" end.
Definition venue_name (v : LiveVenue) : string :=
  match v with Coinbase => "COINBASE" | Binance => "BINANCE" | Kraken => "KRAKEN" end.

(** [x_ready_], [x_snapshot_count_] and [x_update_count_] of a venue. *)
Record VenueCounters := { vc_ready : bool; vc_snapshots : Z; vc_updates : Z }.

Record LiveMarketState := {
  lm_product_id : string; lm_market : ConsolidatedMarketData; lm_health : VenueHealthMonitor; lm_latency : LatencyStats;
  lm_recorder : option MarketRecorder; lm_coinbase_sequence : Z;
  lm_coinbase : VenueCounters; lm_binance : VenueCounters; lm_kraken : VenueCounters
}.

Definition no_counters : VenueCounters := {| vc_ready := false; vc_snapshots := 0; vc_updates := 0 |}.

(** The constructor. *)
Definition new_state (product_id : string) (recorder : option MarketRecorder) : LiveMarketState := {|
  lm_product_id := product_id; lm_market := ∅;
  lm_health := {| config_ := VenueHealth.default_config; states_ := ∅ |};
  lm_latency := {| maximum_samples_ := default_samples; series_ := ∅ |};
  lm_recorder := recorder; lm_coinbase_sequence := 0;
  lm_coinbase := no_counters; lm_binance := no_counters; lm_kraken := no_counters |}.

Definition counters (v : LiveVenue) (l : LiveMarketState) : VenueCounters :=
  match v with Coinbase => lm_coinbase l | Binance => lm_binance l | Kraken => lm_kraken l end.

Definition set_counters (v : LiveVenue) (f : VenueCounters -> VenueCounters) (l : LiveMarketState) : LiveMarketState := {|
  lm_product_id := lm_product_id l; lm_market := lm_market l; lm_health := lm_health l; lm_latency := lm_latency l;
  lm_recorder := lm_recorder l; lm_coinbase_sequence := lm_coinbase_sequence l;
  lm_coinbase := if decide (v = Coinbase) then f (lm_coinbase l) else lm_coinbase l;
  lm_binance := if decide (v = Binance) then f (lm_binance l) else lm_binance l;
  lm_kraken := if decide (v = Kraken) then f (lm_kraken l) else lm_kraken l |}.

Definition set_ready (b : bool) (c : VenueCounters) : VenueCounters :=
  {| vc_ready := b; vc_snapshots := vc_snapshots c; vc_updates := vc_updates c |}.
Definition count_snapshot (c : VenueCounters) : VenueCounters :=
  {| vc_ready := true; vc_snapshots := u64 (vc_snapshots c + 1); vc_updates := vc_updates c |}.
Definition count_update (c : VenueCounters) : VenueCounters :=
  {| vc_ready := vc_ready c; vc_snapshots := vc_snapshots c; vc_updates := u64 (vc_updates c + 1) |}.

Definition set_sequence (sequence : Z) (l : LiveMarketState) : LiveMarketState := {|
  lm_product_id := lm_product_id l; lm_market := lm_market l; lm_health := lm_health l; lm_latency := lm_latency l;
  lm_recorder := lm_recorder l; lm_coinbase_sequence := sequence;
  lm_coinbase := lm_coinbase l; lm_binance := lm_binance l; lm_kraken := lm_kraken l |}.

Definition on_market {A} (m : ST ConsolidatedMarketData A) : ST LiveMarketState A := fun l =>
  let (r, market) := m (lm_market l) in
  (r, {| lm_product_id := lm_product_id l; lm_market := market; lm_health := lm_health l; lm_latency := lm_latency l;
         lm_recorder := lm_recorder l; lm_coinbase_sequence := lm_coinbase_sequence l;
         lm_coinbase := lm_coinbase l; lm_binance := lm_binance l; lm_kraken := lm_kraken l |}).

Definition on_health {A} (m : ST VenueHealthMonitor A) : ST LiveMarketState A := fun l =>
  let (r, health) := m (lm_health l) in
  (r, {| lm_product_id := lm_product_id l; lm_market := lm_market l; lm_health := health; lm_latency := lm_latency l;
         lm_recorder := lm_recorder l; lm_coinbase_sequence := lm_coinbase_sequence l;
         lm_coinbase := lm_coinbase l; lm_binance := lm_binance l; lm_kraken := lm_kraken l |}).

(** [if (recorder_)] *)
Definition on_recorder (m : ST MarketRecorder unit) : ST LiveMarketState unit := fun l =>
  match lm_recorder l with
  | None => (Ok tt, l)
  | Some w =>
      let (r, w) := m w in
      (r, {| lm_product_id := lm_product_id l; lm_market := lm_market l; lm_health := lm_health l; lm_latency := lm_latency l;
             lm_recorder := Some w; lm_coinbase_sequence := lm_coinbase_sequence l;
             lm_coinbase := lm_coinbase l; lm_binance := lm_binance l; lm_kraken := lm_kraken l |})
  end.

(** What the clocks show in a call: the steady clock at its start and end, and the
    wall clock for the recorder, within the recorder, and for the health. *)
Record Times := { tm_start : Z; tm_end : Z; tm_record : Z; tm_recorder : Z; tm_health : Z }.

(** The timer records when its scope ends, also after an exception. *)
Definition timed (name : string) (t : Times) (m : ST LiveMarketState unit) : ST LiveMarketState unit := fun l =>
  let (r, l) := m l in
  (r, {| lm_product_id := lm_product_id l; lm_market := lm_market l; lm_health := lm_health l;
         lm_latency := (end_scope (scoped_recorder name (tm_start t)) (tm_end t) (lm_latency l)).2;
         lm_recorder := lm_recorder l; lm_coinbase_sequence := lm_coinbase_sequence l;
         lm_coinbase := lm_coinbase l; lm_binance := lm_binance l; lm_kraken := lm_kraken l |}).

(** The number of a snapshot. *)
Definition number_snapshot (sequence : Z) (s : MarketDataSnapshot) : MarketDataSnapshot := {|
  ms_venue := ms_venue s; ms_symbol := ms_symbol s; ms_sequence := sequence; ms_timestamp_ns := ms_timestamp_ns s;
  ms_bids := ms_bids s; ms_asks := ms_asks s |}.

Definition number_update (sequence : Z) (u : MarketDataUpdate) : MarketDataUpdate := {|
  mu_venue := mu_venue u; mu_symbol := mu_symbol u; mu_sequence := sequence; mu_timestamp_ns := mu_timestamp_ns u;
  mu_side := mu_side u; mu_type := mu_type u; mu_price := mu_price u; mu_quantity := mu_quantity u |}.

(** A snapshot with its number: what the three members share. *)
Definition take_snapshot (v : LiveVenue) (s : MarketDataSnapshot) (t : Times) : ST LiveMarketState unit :=
  d ← on_market (cmd_apply_snapshot s);
  if negb (md_accepted d) then throw (runtime_error (display_name v +:+ " snapshot rejected: " +:+ md_message d))
  else
    _ ← on_recorder (write_snapshot s (tm_record t) (tm_recorder t));
    _ ← modify (set_counters v count_snapshot);
    _ ← on_health (record_snapshot (venue_name v) (tm_health t));
    on_health (set_synchronized (venue_name v) true).

(** [apply_coinbase_snapshot] numbers the snapshot 0; the others keep the number. *)
Definition apply_venue_snapshot (v : LiveVenue) (s : MarketDataSnapshot) (t : Times) : ST LiveMarketState unit :=
  timed (timer_name v +:+ "_snapshot_apply_total") t
    match v with
    | Coinbase => _ ← modify (set_sequence 0); take_snapshot v (number_snapshot 0 s) t
    | _ => take_snapshot v s t
    end.

Definition flush_sometimes (v : LiveVenue) : ST LiveMarketState unit := fun l =>
  if vc_updates (counters v l) mod 100 =? 0 then on_recorder flush l else (Ok tt, l).

(** A batch with its number. *)
Definition take_updates (v : LiveVenue) (us : list MarketDataUpdate) (t : Times) : ST LiveMarketState unit :=
  d ← on_market (cmd_apply_batch us);
  if negb (md_accepted d) then
    _ ← modify (set_counters v (set_ready false));
    throw (runtime_error (display_name v +:+ " update rejected: " +:+ md_message d))
  else
    _ ← on_recorder (write_update_batch us (tm_record t) (tm_recorder t));
    _ ← modify (set_counters v count_update);
    _ ← on_health (record_update (venue_name v) (tm_health t));
    _ ← on_health (set_synchronized (venue_name v) true);
    flush_sometimes v.

(** [apply_coinbase_updates] numbers the batches itself. *)
Definition apply_venue_updates (v : LiveVenue) (us : list MarketDataUpdate) (t : Times) : ST LiveMarketState unit :=
  timed (timer_name v +:+ "_update_apply_total") t (fun l =>
    if negb (vc_ready (counters v l)) || bool_decide (us = []) then (Ok tt, l)
    else match v with
    | Coinbase =>
        let sequence := u64 (lm_coinbase_sequence l + 1) in
        take_updates v (number_update sequence <$> us) t (set_sequence sequence l)
    | _ => take_updates v us t l
    end).

Definition recorded_records (l : LiveMarketState) : Z :=
  match lm_recorder l with Some w => records_written_ w | None => 0 end.

Definition recorded_bytes (l : LiveMarketState) : Z :=
  match lm_recorder l with Some w => bytes_written_ w | None => 0 end.

Definition coinbase_midpoint (l : LiveMarketState) : result (option double) :=
  if negb (vc_ready (lm_coinbase l)) then Ok None
  else
    book ← find_book "COINBASE" (lm_product_id l) (lm_market l);
    Ok match book with
    | None => None
    | Some b =>
        if negb (synchronized_ b) then None
        else match best_bid b, best_ask b with
        | Some bid, Some ask =>
            if dle (ml_price ask) (ml_price bid) then None
            else Some (ddiv (dadd (ml_price bid) (ml_price ask)) (dbl 2))
        | _, _ => None
        end
    end.

(** ** The feed of Coinbase: [run_coinbase_feed] *)

Section coinbase.
Context {T : Type} `{PropertyTree T}.

(** A payload; one that cannot be parsed is passed over. *)
Definition handle_coinbase (payload : str) (now : Z) (t : Times) : ST LiveMarketState unit :=
  let parsed := parse_coinbase_level2_message payload now in
  if negb (cm_valid parsed) then mret tt
  else if cm_heartbeat parsed || cm_ignored parsed then mret tt
  else if cm_snapshot parsed then apply_venue_snapshot Coinbase (cm_book_snapshot parsed) t
  else apply_venue_updates Coinbase (cm_updates parsed) t.

(** The payloads of a connection, until reading throws. *)
Fixpoint coinbase_loop (payloads : list (str * Z * Times)) : ST LiveMarketState unit :=
  match payloads with
  | [] => throw (runtime_error "end of stream")
  | (payload, now, t) :: payloads => _ ← handle_coinbase payload now t; coinbase_loop payloads
  end.

(** The connections: an exception ends one and the next is made. *)
Fixpoint run_coinbase_feed (connections : list (list (str * Z * Times))) (l : LiveMarketState) : LiveMarketState :=
  match connections with
  | [] => l
  | payloads :: connections => run_coinbase_feed connections (coinbase_loop payloads l).2
  end.

End coinbase.

(** ** What the three feeds call, in the order of the mutex *)

Inductive LiveCommand :=
  | LiveSnapshot (v : LiveVenue) (s : MarketDataSnapshot)
  | LiveUpdates (v : LiveVenue) (us : list MarketDataUpdate).

Definition live_step (c : LiveCommand) (t : Times) : ST LiveMarketState unit :=
  match c with
  | LiveSnapshot v s => apply_venue_snapshot v s t
  | LiveUpdates v us => apply_venue_updates v us t
  end.

(** The feeds catch the exceptions. *)
Definition live_run (cs : list (LiveCommand * Times)) (l : LiveMarketState) : LiveMarketState :=
  foldl (fun l c => (live_step c.1 c.2 l).2) l cs.
