(* ===== verification/LiveMarketProps.v ===== *)
(** * What the live gateway records

    Replaying the recording of a session of the live gateway gives the gateway's
    market. *)

From stdpp Require Import gmap.
From S2P Require Import Prelude.
From S2P Require Import Text.
From S2P Require Import Float.
From S2P Require Import Rounding.
From S2P Require Import MarketData.
From S2P Require Import VenueHealth.
From S2P Require Import LatencyStats.
From S2P Require Import Recording.
From S2P Require Import RecordingProps.
From S2P Require Import RecordingReplay.
From S2P Require Import Feeds.
From S2P Require Import LiveMarket.

(** ** Books that agree *)

Definition book_at (k : string) (m : ConsolidatedMarketData) : Level2Book := default Level2Book0 (m !! k).

(** The counters of gaps and recoveries aside. *)
Record same_book (b b' : Level2Book) : Prop := {
  sb_synchronized : synchronized_ b' = true;
  sb_sides : sides b' = sides b;
  sb_sequence : sequence_ b' = sequence_ b;
  sb_timestamp : timestamp_ns_ b' = timestamp_ns_ b
}.

(** Wherever the first market is synchronized, the second has the same book. *)
Definition agree (m m' : ConsolidatedMarketData) : Prop := forall k,
  recovery_buffer_ (book_at k m) = [] /\ recovery_buffer_ (book_at k m') = [] /\
  (synchronized_ (book_at k m) = true -> same_book (book_at k m) (book_at k m')).

Lemma agree_empty : agree ∅ ∅.
Proof. intros k. by split_and!. Qed.

Lemma book_at_insert k j b m : book_at j (<[k := b]> m) = if decide (k = j) then b else book_at j m.
Proof.
  unfold book_at, ConsolidatedMarketData in *. destruct (decide (k = j)) as [->|Hk].
  - by rewrite lookup_insert_eq.
  - by rewrite lookup_insert_ne.
Qed.

Lemma agree_insert k b b' m m' : agree m m' -> recovery_buffer_ b = [] -> recovery_buffer_ b' = [] ->
  (synchronized_ b = true -> same_book b b') -> agree (<[k := b]> m) (<[k := b']> m').
Proof. intros HA H1 H2 H3 j. rewrite !book_at_insert. destruct (decide (k = j)); [by split_and!|apply HA]. Qed.

Lemma agree_left k b m m' : agree m m' -> recovery_buffer_ b = [] ->
  (synchronized_ b = true -> same_book b (book_at k m')) -> agree (<[k := b]> m) m'.
Proof.
  intros HA H1 H3 j. rewrite book_at_insert. destruct (decide (k = j)) as [->|]; [|apply HA].
  split; [done|]. split; [apply HA|done].
Qed.

(** ** Snapshots and batches at both markets *)

Lemma apply_snapshot_unbuffered s b : recovery_buffer_ b = [] ->
  match apply_snapshot s b with
  | (Ok d, b1) => md_accepted d = true /\ recovery_buffer_ b1 = [] /\ synchronized_ b1 = true /\
      forall b', recovery_buffer_ b' = [] -> exists d' b1', apply_snapshot s b' = (Ok d', b1') /\ md_accepted d' = true /\
        recovery_buffer_ b1' = [] /\ same_book b1 b1'
  | (Throw _, b1) => b1 = b
  end.
Proof.
  intros HR. unfold apply_snapshot. destruct (snapshot_sides s) as [[bids asks]|]; [|done].
  rewrite HR. cbn [fmap list_fmap replay mret st_ret].
  assert (forall x y : bool, recovery_buffer_ (if x && y then count_recovery (from_snapshot s (bids, asks) b) else from_snapshot s (bids, asks) b) = []) as H1
    by (by intros [] []).
  split; [done|]. split; [apply H1|]. split; [by destruct (_ && _)|].
  intros b' HR'. rewrite HR'. cbn [fmap list_fmap replay mret st_ret]. do 2 eexists. split; [done|]. split; [done|].
  split; [by destruct (_ && _)|]. split; by repeat destruct (_ && _).
Qed.

Lemma snapshot_agrees s m m' : agree m m' ->
  match cmd_apply_snapshot s m with
  | (Ok d, m1) => md_accepted d = true /\
      exists d' m1', cmd_apply_snapshot s m' = (Ok d', m1') /\ md_accepted d' = true /\ agree m1 m1'
  | (Throw _, m1) => agree m1 m'
  end.
Proof.
  intros HA. unfold cmd_apply_snapshot, with_level2_book. destruct (key _ _) as [k|]; [|done].
  pose proof (HA k) as (HR & HR' & HS). pose proof (apply_snapshot_unbuffered s _ HR) as H. fold (book_at k m). fold (book_at k m').
  destruct (apply_snapshot s (book_at k m)) as [[d|e] b1].
  - destruct H as (Hd & HR1 & Hy & Hb). split; [done|]. destruct (Hb _ HR') as (d' & b1' & -> & Hd' & HR1' & Hsame).
    do 2 eexists. split; [done|]. split; [done|]. by apply agree_insert.
  - subst b1. by apply agree_left.
Qed.

Lemma apply_batch_buffer us b : recovery_buffer_ (apply_batch us b).2 = recovery_buffer_ b.
Proof.
  unfold apply_batch. destruct us as [|u us]; [done|]. destruct (validate_identity _ _); [|done].
  destruct (negb _); [done|]. destruct (negb _); [done|]. destruct (batch_loop _ _ _ _) as [[t [x y]]|]; [|done].
  by destruct (crosses _).
Qed.

(** A batch with updates is accepted only by a synchronized book, and then by
    every book that is the same. *)
Lemma apply_batch_same u us b : match apply_batch (u :: us) b with
  | (Ok d, b1) => if md_accepted d then synchronized_ b = true /\ forall b', same_book b b' ->
      exists d' b1', apply_batch (u :: us) b' = (Ok d', b1') /\ md_accepted d' = true /\ same_book b1 b1'
    else synchronized_ b1 = false
  | (Throw _, b1) => b1 = b
  end.
Proof.
  unfold apply_batch. destruct (validate_identity _ _); [|done].
  destruct (synchronized_ b) eqn:Hy; cbn [negb]; [|done].
  destruct (mu_sequence u =? u64 (sequence_ b + 1)) eqn:EQ; cbn [negb]; [|done].
  destruct (batch_loop _ _ _ _) as [[t [x y]]|] eqn:EB; [|done]. destruct (crosses (x, y)) eqn:EC; [done|].
  cbn [md_accepted decision]. split; [done|]. intros b' [H1 H2 H3 H4]. rewrite H1, H2, H3, EQ, EB. cbn [negb]. rewrite EC.
  do 2 eexists. split; [done|]. split; [done|]. by split.
Qed.

Lemma batch_agrees us m m' : agree m m' -> us <> [] ->
  match cmd_apply_batch us m with
  | (Ok d, m1) => if md_accepted d
      then exists d' m1', cmd_apply_batch us m' = (Ok d', m1') /\ md_accepted d' = true /\ agree m1 m1'
      else agree m1 m'
  | (Throw _, m1) => agree m1 m'
  end.
Proof.
  intros HA Hne. destruct us as [|u us]; [done|]. unfold cmd_apply_batch, with_level2_book. destruct (key _ _) as [k|]; [|done].
  pose proof (HA k) as (HR & HR' & HS). fold (book_at k m). fold (book_at k m').
  pose proof (apply_batch_same u us (book_at k m)) as H. pose proof (apply_batch_buffer (u :: us) (book_at k m)) as HB.
  destruct (apply_batch (u :: us) (book_at k m)) as [[d|e] b1]; cbn [snd] in HB.
  - destruct (md_accepted d).
    + destruct H as [Hy H]. destruct (H _ (HS Hy)) as (d' & b1' & E & Hd' & Hsame).
      pose proof (apply_batch_buffer (u :: us) (book_at k m')) as HB'. rewrite E in *. cbn [snd] in HB'.
      do 2 eexists. split; [done|]. split; [done|]. apply agree_insert; congruence || done.
    + apply agree_left; [done|congruence|]. by rewrite H.
  - subst b1. by apply agree_left.
Qed.

(** ** Entries, one by one *)

Lemma write_entry_writable e w : writable e -> rec_good w = true ->
  exists w', write_entry e w = (Ok tt, w') /\ rec_good w' = true.
Proof.
  intros (p & Hp & Hlen) Hg.
  assert (forall type t, exists w', write_record type t p w = (Ok tt, w') /\ rec_good w' = true) as HW.
  { intros type t. unfold write_record. rewrite (proj2 (Z.ltb_ge _ _)) by lia. rewrite Hg. by eexists. }
  unfold write_entry, entry_payload in *. destruct (en_event e) as [s|[|u us]]; [| done |].
  - unfold write_snapshot, mbind, st_bind, lift. rewrite Hp. apply HW.
  - unfold write_update_batch, mbind, st_bind, lift. rewrite Hp. apply HW.
Qed.

Lemma write_entries_snoc es e w w1 w2 : write_entries es w = (Ok tt, w1) -> write_entry e w1 = (Ok tt, w2) ->
  write_entries (es ++ [e]) w = (Ok tt, w2).
Proof.
  revert w. induction es as [|x es IH]; intros w; cbn [write_entries app].
  - intros [= <-] H. unfold mbind, st_bind. by rewrite H.
  - unfold mbind, st_bind. destruct (write_entry x w) as [[[]|] w']; [|done]. apply IH.
Qed.

Definition all_accepted (es : list Entry) : list (Entry * bool) := (fun e => (e, true)) <$> es.

Lemma feed_snoc n es e m m1 d m2 : feed 0 n es m = (Ok (all_accepted es), m1) ->
  apply_event (en_event e) m1 = (Ok d, m2) -> md_accepted d = true ->
  feed 0 n (es ++ [e]) m = (Ok (all_accepted (es ++ [e])), m2).
Proof.
  revert n m. induction es as [|x es IH]; intros n m; cbn [feed app Z.ltb Z.compare andb].
  - intros [= <-] H Hd. unfold mbind, st_bind. rewrite H. cbn [feed mret st_ret]. by rewrite Hd.
  - unfold mbind at 1, st_bind at 1. destruct (apply_event (en_event x) m) as [[dx|] mx] eqn:Ex; [|done].
    unfold mbind at 1, st_bind at 1. destruct (feed 0 _ es mx) as [[ds|] mm] eqn:E; [|done].
    intros [= Hx Hds ->] He Hd. unfold mbind at 1, st_bind at 1. rewrite Ex. unfold mbind, st_bind.
    rewrite Hds in E. rewrite (IH _ _ E He Hd). cbn. by rewrite Hx.
Qed.

(** ** The state of the gateway and its recording *)

Section recording.
Context (w0 : MarketRecorder).

Record recorded_state (l : LiveMarketState) (es : list Entry) : Prop := {
  rs_written : exists w, lm_recorder l = Some w /\ rec_good w = true /\ write_entries es w0 = (Ok tt, w);
  rs_fed : exists m, feed 0 0 es ∅ = (Ok (all_accepted es), m) /\ agree (lm_market l) m;
  rs_ok : Forall entry_ok es;
  rs_sequence : in_u64 (lm_coinbase_sequence l)
}.

(** Parts of the state that the recording does not depend on. *)
Definition same_recording (l l' : LiveMarketState) : Prop :=
  lm_recorder l' = lm_recorder l /\ lm_market l' = lm_market l /\ lm_coinbase_sequence l' = lm_coinbase_sequence l.

Lemma same_recording_state l l' es : same_recording l l' -> recorded_state l es -> recorded_state l' es.
Proof. intros (E1 & E2 & E3) []. by split; rewrite ?E1, ?E2, ?E3. Qed.

(** An entry as the gateway records it. *)
Definition live_entry (v : Event) (t : Times) : Entry :=
  {| en_event := v; en_timestamp := tm_record t; en_now := tm_recorder t |}.

(** The tail of both members: recording what was accepted. *)
Lemma record_state e l l1 es : recorded_state l es -> entry_ok e -> writable e ->
  lm_recorder l1 = lm_recorder l -> in_u64 (lm_coinbase_sequence l1) ->
  (forall m, agree (lm_market l) m -> exists d m', apply_event (en_event e) m = (Ok d, m') /\ md_accepted d = true /\
     agree (lm_market l1) m') ->
  exists l2, on_recorder (write_entry e) l1 = (Ok tt, l2) /\ recorded_state l2 (es ++ [e]).
Proof.
  intros [(w & Ew & Hg & Hw) (m & Hf & HA) Hok _] Ho Hwr Er Hs Hm. unfold on_recorder. rewrite Er, Ew.
  destruct (write_entry_writable e w Hwr Hg) as (w' & E & Hg'). rewrite E. eexists. split; [done|].
  destruct (Hm m HA) as (d & m' & Ed & Hd & HA'). split; cbn [lm_recorder lm_market lm_coinbase_sequence].
  - exists w'. split; [done|]. split; [done|]. by eapply write_entries_snoc.
  - exists m'. split; [by eapply feed_snoc|done].
  - by apply Forall_app_2; [|apply Forall_singleton].
  - done.
Qed.

(** Calls that leave the recording as it is. *)
Definition preserves {A} (m : ST LiveMarketState A) : Prop := forall l es, recorded_state l es -> recorded_state (m l).2 es.

Lemma preserves_bind {A B} (m : ST LiveMarketState A) (k : A -> ST LiveMarketState B) :
  preserves m -> (forall a, preserves (k a)) -> preserves (m ≫= k).
Proof.
  intros Hm Hk l es Hl. specialize (Hm l es Hl). unfold mbind, st_bind. destruct (m l) as [[a|e] l1]; [|done]. by apply Hk.
Qed.

Lemma preserves_throw {A} e : preserves (throw (A := A) e).
Proof. by intros l es. Qed.

Lemma preserves_counters v f : preserves (modify (set_counters v f)).
Proof. intros l es. by apply same_recording_state. Qed.

Lemma preserves_health {A} (m : ST VenueHealthMonitor A) : preserves (on_health m).
Proof. intros l es. apply same_recording_state. unfold on_health. by destruct (m (lm_health l)). Qed.

Lemma preserves_flush v : preserves (flush_sometimes v).
Proof.
  intros l es H. unfold flush_sometimes. case_if; [|done]. unfold on_recorder, flush.
  destruct H as [(w & Ew & Hg & Hw) HF Ho Hs]. rewrite Ew. split; [|done..]. by exists w.
Qed.

#[local] Hint Resolve preserves_bind preserves_throw preserves_counters preserves_health preserves_flush : live.

Lemma timed_state name t m l es : recorded_state (m l).2 es -> recorded_state (timed name t m l).2 es.
Proof. unfold timed. destruct (m l) as [r l1]. by apply same_recording_state. Qed.

(** After the market took an event: the part of a call that records it. *)
Lemma record_then e l l1 es (k : ST LiveMarketState unit) : recorded_state l es -> entry_ok e -> writable e ->
  lm_recorder l1 = lm_recorder l -> in_u64 (lm_coinbase_sequence l1) ->
  (forall m, agree (lm_market l) m -> exists d m', apply_event (en_event e) m = (Ok d, m') /\ md_accepted d = true /\
     agree (lm_market l1) m') ->
  preserves k -> recorded_state ((_ ← on_recorder (write_entry e); k) l1).2 (es ++ [e]).
Proof.
  intros Hl Ho Hw Er Hs Hm Hk. destruct (record_state e l l1 es) as (l2 & E & H); [done..|].
  unfold mbind, st_bind. rewrite E. by apply Hk.
Qed.

Lemma take_snapshot_state v s t l es : recorded_state l es ->
  entry_ok (live_entry (EventSnapshot s) t) -> writable (live_entry (EventSnapshot s) t) ->
  exists es', recorded_state (take_snapshot v s t l).2 es' /\ (length es' <= S (length es))%nat.
Proof.
  intros Hl Ho Hw. unfold take_snapshot, mbind at 1, st_bind at 1, on_market.
  pose proof Hl as [_ (m & _ & HA) _ Hs]. pose proof (snapshot_agrees s _ _ HA) as H.
  destruct (cmd_apply_snapshot s (lm_market l)) as [[d|e] m1] eqn:E.
  - destruct H as [Hd _]. rewrite Hd. cbn [negb]. exists (es ++ [live_entry (EventSnapshot s) t]). split; [|rewrite length_app; cbn; lia].
    apply (record_then (live_entry (EventSnapshot s) t) l); [done..| |auto with live].
    intros m' HA'. pose proof (snapshot_agrees s _ _ HA') as H. rewrite E in H. apply H.
  - exists es. split; [|lia]. destruct Hl as [HW (m' & Hf & HA') Hok _]. split; [done| |done..]. exists m'. split; [done|].
    pose proof (snapshot_agrees s _ _ HA') as H'. by rewrite E in H'.
Qed.

Lemma take_updates_state v us t l es : recorded_state l es -> us <> [] ->
  entry_ok (live_entry (EventBatch us) t) -> writable (live_entry (EventBatch us) t) ->
  exists es', recorded_state (take_updates v us t l).2 es' /\ (length es' <= S (length es))%nat.
Proof.
  intros Hl Hne Ho Hw. unfold take_updates, mbind at 1, st_bind at 1, on_market.
  assert (forall m1 r, cmd_apply_batch us (lm_market l) = (r, m1) ->
    match r with Ok d => md_accepted d = false | Throw _ => True end ->
    recorded_state {| lm_product_id := lm_product_id l; lm_market := m1; lm_health := lm_health l; lm_latency := lm_latency l;
      lm_recorder := lm_recorder l; lm_coinbase_sequence := lm_coinbase_sequence l; lm_coinbase := lm_coinbase l;
      lm_binance := lm_binance l; lm_kraken := lm_kraken l |} es) as Hrej.
  { intros m1 r E Hr. destruct Hl as [HW (m' & Hf & HA') Hok Hs]. split; [done| |done..]. exists m'. split; [done|].
    pose proof (batch_agrees us _ _ HA' Hne) as H. rewrite E in H. destruct r as [d|]; [by rewrite Hr in H|done]. }
  destruct (cmd_apply_batch us (lm_market l)) as [[d|e] m1] eqn:E; [|exists es; split; [by apply (Hrej _ _ eq_refl)|lia]].
  destruct (md_accepted d) eqn:Hd; cbn [negb].
  - exists (es ++ [live_entry (EventBatch us) t]). split; [|rewrite length_app; cbn; lia].
    apply (record_then (live_entry (EventBatch us) t) l); [done..|apply Hl| |auto 10 with live].
    intros m' HA'. pose proof (batch_agrees us _ _ HA' Hne) as H. rewrite E, Hd in H. apply H.
  - exists es. split; [|lia]. apply (preserves_bind (modify _) (fun _ => throw _)); [auto with live..|]. by apply (Hrej _ _ eq_refl).
Qed.

(** What a call may record is within the types and the limits of the recorder,
    whatever number a batch of Coinbase gets. *)
Definition command_ok (c : LiveCommand) (t : Times) : Prop :=
  match c with
  | LiveSnapshot v s =>
      let e := live_entry (EventSnapshot (match v with Coinbase => number_snapshot 0 s | _ => s end)) t in
      entry_ok e /\ writable e
  | LiveUpdates v us => us <> [] -> forall n, in_u64 n ->
      let e := live_entry (EventBatch (match v with Coinbase => number_update n <$> us | _ => us end)) t in
      entry_ok e /\ writable e
  end.

Lemma sequence_state n l es : in_u64 n -> recorded_state l es -> recorded_state (set_sequence n l) es.
Proof. intros Hn []. by split. Qed.

Lemma live_step_state c t l es : recorded_state l es -> command_ok c t ->
  exists es', recorded_state (live_step c t l).2 es' /\ (length es' <= S (length es))%nat.
Proof.
  intros Hl Hc. destruct c as [v s|v us]; cbn [live_step].
  - unfold apply_venue_snapshot. match goal with |- context [timed _ _ ?x] => set (m := x) end.
    assert (exists es', recorded_state (m l).2 es' /\ (length es' <= S (length es))%nat) as (es' & H & HL);
      [|exists es'; split; [by apply timed_state|done]].
    destruct Hc as [Ho Hw]. destruct v; cbn [m].
    + apply (take_snapshot_state Coinbase _ t (set_sequence 0 l)); [by apply sequence_state|done..].
    + by apply take_snapshot_state.
    + by apply take_snapshot_state.
  - unfold apply_venue_updates. match goal with |- context [timed _ _ ?x] => set (m := x) end.
    assert (exists es', recorded_state (m l).2 es' /\ (length es' <= S (length es))%nat) as (es' & H & HL);
      [|exists es'; split; [by apply timed_state|done]].
    unfold m. destruct (negb _ || _) eqn:E; [exists es; split; [done|lia]|]. apply orb_false_iff in E as [_ Hne]. breflect.
    assert (in_u64 (u64 (lm_coinbase_sequence l + 1))) as Hn by apply u64_range. destruct v.
    + destruct (Hc Hne _ Hn) as [Ho Hw]. apply take_updates_state; [by apply sequence_state| |done..]. by destruct us.
    + destruct (Hc Hne 0 ltac:(by vm_compute)) as [Ho Hw]. by apply take_updates_state.
    + destruct (Hc Hne 0 ltac:(by vm_compute)) as [Ho Hw]. by apply take_updates_state.
Qed.

Lemma live_run_state cs l es : recorded_state l es -> Forall (fun c => command_ok c.1 c.2) cs ->
  exists es', recorded_state (live_run cs l) es' /\ (length es' <= length es + length cs)%nat.
Proof.
  intros Hl HF. revert l es Hl. induction HF as [|[c t] cs Hc _ IH]; intros l es Hl; [exists es; split; [done|cbn; lia]|].
  destruct (live_step_state c t l es Hl Hc) as (es1 & H1 & L1). destruct (IH _ _ H1) as (es2 & H2 & L2).
  exists es2. split; [done|]. cbn. lia.
Qed.

End recording.

Lemma window_default es : window default_options es = es.
Proof. induction es as [|e es IH]; [done|]. cbn. by rewrite IH. Qed.

Lemma new_recorder_good path app content w : new_recorder path app content = Ok w -> rec_good w = true.
Proof.
  unfold new_recorder. destruct (guard_or _ _); [|done]. cbn [mbind result_bind]. destruct content as [bytes|]; [|done].
  set (kept := if app then bytes else []). destruct kept; cbn; by intros <-%(inj Ok).
Qed.

Lemma find_book_at venue symbol m b : find_book venue symbol m = Ok (Some b) ->
  exists k, key venue symbol = Ok k /\ book_at k m = b.
Proof.
  unfold find_book. destruct (key venue symbol) as [k|]; [|done]. cbn [mbind result_bind]. intros H%(inj Ok).
  exists k. split; [done|]. unfold book_at. by rewrite H.
Qed.

Lemma book_at_find venue symbol k m : key venue symbol = Ok k -> synchronized_ (book_at k m) = true ->
  find_book venue symbol m = Ok (Some (book_at k m)).
Proof.
  intros Hk. unfold find_book, book_at. rewrite Hk. cbn [mbind result_bind]. by destruct (m !! k).
Qed.

Lemma all_accepted_rejects es : filter (fun x : Entry * bool => x.2 = false) (all_accepted es) = [].
Proof. induction es as [|e es IH]; [done|]. by cbn. Qed.

(** C35: The recording of a live session replays to the session's market.
    Whatever snapshots and updates the three feeds deliver, in whatever order and
    whether they are accepted, rejected or throw: the file of the recorder can be
    read, replaying it from an empty market rejects nothing, and every book that is
    synchronized in the gateway is in the replayed market with the same levels,
    number and time.  What is recorded stays within the recorder's limits. *)
Theorem live_recording_replays path content w0 product cs elapsed :
  new_recorder path false (Some content) = Ok w0 ->
  Forall (fun c => command_ok c.1 c.2) cs -> Z.of_nat (length cs) < 2 ^ 64 - 1 ->
  let l := live_run cs (new_state product (Some w0)) in
  exists w r rr p, lm_recorder l = Some w /\ new_reader path (Some (rec_file w)) = Ok r /\
    replay_market_records default_options elapsed r ∅ = (Ok rr, p) /\ rr_rejected rr = 0 /\
    forall venue symbol b, find_book venue symbol (lm_market l) = Ok (Some b) -> synchronized_ b = true ->
      exists b', find_book venue symbol (rp_market p) = Ok (Some b') /\ same_book b b'.
Proof.
  intros Hw HC HL l. assert (recorded_state w0 (new_state product (Some w0)) []) as H0.
  { split; [exists w0; split_and!; try done; by eapply new_recorder_good| |done|done]. exists ∅. split; [done|apply agree_empty]. }
  destruct (live_run_state w0 cs _ _ H0 HC) as (es & [(w & Ew & _ & Hwr) (m & Hf & HA) Hok _] & Hlen). fold l in Ew, HA. cbn in Hlen.
  assert (recorded path es (rec_file w)) as Hrec.
  { apply (recorded_first path content). unfold session. rewrite Hw. cbn [mbind result_bind]. by rewrite Hwr. }
  pose proof (recorded_path _ _ _ Hrec) as Hp. pose proof (RecordingProps.recorded_bytes _ _ _ Hrec) as [_ Hb].
  destruct (new_reader path (Some (rec_file w))) as [r|] eqn:Hr; [|by rewrite Hb, new_reader_header in Hr].
  pose proof (replay_repeats_session path es (rec_file w) r default_options elapsed ∅ (recording_whole _ _ _ Hrec) Hok Hr eq_refl) as HR.
  specialize (HR ltac:(lia)). rewrite window_default in HR. cbn [op_maximum default_options] in HR. rewrite Hf in HR.
  destruct (replay_market_records default_options elapsed r ∅) as [res p] eqn:ER. destruct HR as (Hm & _ & (rr & -> & [_ Hrej _ _ _] & _) & _).
  exists w, r, rr, p. do 3 (split; [done|]). split.
  - by rewrite Hrej, all_accepted_rejects.
  - intros venue symbol b (k & Hk & <-)%find_book_at Hy. destruct (HA k) as (_ & _ & HS). specialize (HS Hy).
    exists (book_at k (rp_market p)). rewrite Hm in *. split; [by apply book_at_find, HS|done].
Qed.

(** ** Examples *)

Definition live_snapshot (venue : string) (bid ask : Z) : MarketDataSnapshot := {|
  ms_venue := venue; ms_symbol := "BTC-USD"; ms_sequence := 7; ms_timestamp_ns := 100;
  ms_bids := [{| ml_price := dbl bid; ml_quantity := dbl 2 |}];
  ms_asks := [{| ml_price := dbl ask; ml_quantity := dbl 3 |}] |}.

Definition live_update (venue : string) (side : MarketDataSide) (price : Z) : MarketDataUpdate := {|
  mu_venue := venue; mu_symbol := "BTC-USD"; mu_sequence := 8; mu_timestamp_ns := 110; mu_side := side;
  mu_type := Upsert; mu_price := dbl price; mu_quantity := dbl 5 |}.

Definition times (n : Z) : Times := {| tm_start := n; tm_end := n + 1; tm_record := n; tm_recorder := n; tm_health := n |}.

(** Snapshots of two venues, one crossed; an update; a batch that crosses the book
    and is rejected, so that the next is dropped. *)
Definition live_commands : list (LiveCommand * Times) := [
  (LiveSnapshot Coinbase (live_snapshot "COINBASE" 99 101), times 200);
  (LiveSnapshot Kraken (live_snapshot "KRAKEN" 98 102), times 210);
  (LiveSnapshot Binance (live_snapshot "BINANCE" 103 102), times 220);
  (LiveUpdates Coinbase [live_update "COINBASE" Bid 100], times 230);
  (LiveUpdates Kraken [live_update "KRAKEN" Bid 105], times 240);
  (LiveUpdates Kraken [live_update "KRAKEN" Ask 101], times 250)].

Definition live_recorder : MarketRecorder :=
  match new_recorder "live.bin" false (Some []) with Ok w => w | Throw _ => {| rec_file := []; rec_good := false; records_written_ := 0; bytes_written_ := 0 |} end.

Lemma dbl_canonical z : canonical (dbl z).
Proof. unfold dbl, binary_normalize. destruct z; [done|apply binary_round_canonical..]. Qed.

Lemma live_snapshot_ok v venue bid ask t : in_u64 t ->
  (exists p, encode_snapshot (match v with Coinbase => number_snapshot 0 (live_snapshot venue bid ask) | _ => live_snapshot venue bid ask end) = Ok p
             /\ Z.of_nat (length p) < 2 ^ 32) ->
  command_ok (LiveSnapshot v (live_snapshot venue bid ask)) (times t).
Proof.
  intros Ht Hp. split; [|exact Hp]. split; [done|]. split; [done|].
  destruct v; split_and!; try done; apply Forall_singleton; split; apply dbl_canonical.
Qed.

Lemma live_updates_ok v venue side price t : in_u64 t ->
  (forall n, exists p, encode_update_batch (match v with Coinbase => number_update n <$> [live_update venue side price] | _ => [live_update venue side price] end) = Ok p
             /\ Z.of_nat (length p) < 2 ^ 32) ->
  command_ok (LiveUpdates v [live_update venue side price]) (times t).
Proof.
  intros Ht Hp _ n Hn. split; [|exact (Hp n)]. split; [done|]. split; [done|].
  destruct v; apply Forall_singleton; split_and!; (done || apply dbl_canonical).
Qed.

Lemma live_commands_ok : Forall (fun c => command_ok c.1 c.2) live_commands.
Proof.
  repeat (apply Forall_cons; split); [..|constructor]; cbn [fst snd].
  1,2,3: apply live_snapshot_ok; [by vm_compute|eexists; split; [reflexivity|vm_compute; reflexivity]].
  1,2,3: apply live_updates_ok; [by vm_compute|intros n; eexists; split; [reflexivity|vm_compute; reflexivity]].
Qed.

Definition live_state : LiveMarketState := live_run live_commands (new_state "BTC-USD" (Some live_recorder)).

Lemma live_recording_replays_witness : exists w r rr p b, lm_recorder live_state = Some w /\ records_written_ w = 3 /\
  new_reader "live.bin" (Some (rec_file w)) = Ok r /\ replay_market_records default_options 5 r ∅ = (Ok rr, p) /\
  find_book "COINBASE" "BTC-USD" (rp_market p) = Ok (Some b) /\ best_bid b = Some {| ml_price := dbl 100; ml_quantity := dbl 5 |}.
Proof.
  unfold live_state. destruct (live_recording_replays "live.bin" [] live_recorder "BTC-USD" live_commands 5) as (w & r & rr & p & Hw & Hr & HR & _ & HB).
  - reflexivity.
  - exact live_commands_ok.
  - vm_compute. reflexivity.
  - assert (exists b, find_book "COINBASE" "BTC-USD" (lm_market (live_run live_commands (new_state "BTC-USD" (Some live_recorder)))) = Ok (Some b) /\
      synchronized_ b = true /\ best_bid b = Some {| ml_price := dbl 100; ml_quantity := dbl 5 |}) as (b & Hb & Hy & Hbid)
      by (eexists; repeat split; vm_compute; reflexivity).
    destruct (HB _ _ _ Hb Hy) as (b' & Hb' & [_ Hs _ _]). exists w, r, rr, p, b'. split; [exact Hw|].
    split; [|split_and!; [exact Hr|exact HR|exact Hb'|]].
    + assert (records_written_ <$> lm_recorder (live_run live_commands (new_state "BTC-USD" (Some live_recorder))) = Some 3) as E
        by (vm_compute; reflexivity). rewrite Hw in E. by injection E.
    + unfold sides in Hs. injection Hs as Hs _. unfold best_bid in *. by rewrite Hs.
Defined.

(** What a book is said to be, and its best bid. *)
Definition shown_book (venue : string) (l : LiveMarketState) : option (bool * option double) :=
  match find_book venue "BTC-USD" (lm_market l) with
  | Ok (Some b) => Some (synchronized_ b, ml_price <$> best_bid b)
  | _ => None
  end.

(** A rejected batch leaves the venue unsynchronized in the market and healthy in
    the monitor: the health is only ever set to synchronized. *)
Example rejected_venue_stays_healthy :
  shown_book "KRAKEN" live_state = Some (false, Some (dbl 98)) /\
  vh_synchronized (VenueHealth.snapshot "KRAKEN" 260 (lm_health live_state)) = true /\
  vh_gaps (VenueHealth.snapshot "KRAKEN" 260 (lm_health live_state)) = 0 /\
  routable "KRAKEN" 260 (lm_health live_state) = true.
Proof. repeat split; vm_compute; reflexivity. Qed.

(** *** A message of Coinbase that is lost *)

Definition coinbase_doc (type : string) (sequence : Z) (entries : list (string * string * string)) : Doc :=
  DNode [("channel", DText (lit "l2_data")); ("sequence_num", DNumber sequence);
    ("events", DNode [("", DNode [("type", DText (lit type)); ("product_id", DText (lit "BTC-USD"));
      ("updates", DNode ((fun e => ("", DNode [("side", DText (lit e.1.1)); ("price_level", DText (lit e.1.2));
                                               ("new_quantity", DText (lit e.2))])) <$> entries))])])].

Definition coinbase_tree : PropertyTree Doc := doc_tree [
  (lit "snapshot", coinbase_doc "snapshot" 1 [("bid", "99", "2"); ("offer", "101", "3")]);
  (lit "second", coinbase_doc "update" 2 [("bid", "99", "0"); ("bid", "98", "1e400")]);
  (lit "fourth", coinbase_doc "update" 4 [("bid", "97", "1")])].

Definition coinbase_state (payloads : list string) : LiveMarketState :=
  run_coinbase_feed (H := coinbase_tree) [(fun p => (lit p, 300, times 300)) <$> payloads] (new_state "BTC-USD" None).

(** The second message cannot be parsed and the third never came: the fourth is
    taken, and the book stays synchronized with a bid that is gone. *)
Example coinbase_gap_unnoticed :
  shown_book "COINBASE" (coinbase_state ["snapshot"; "second"; "fourth"]) = Some (true, Some (dbl 99)) /\
  coinbase_midpoint (coinbase_state ["snapshot"; "second"; "fourth"]) = Ok (Some (dbl 100)).
Proof. split; vm_compute; reflexivity. Qed.
