(* ===== verification/ApiServer.v ===== *)
(** * The API server ([apps/api.cpp])

    [ApiState] joins the exchange, the risk checks, the order management system,
    the positions with the portfolio limits, the drop copy and the midpoints.
    Here are its callbacks, the round of its market sampler and the requests that
    change it; of a response there is the status.  The clock, the quotes and what
    the stores on SQLite answer are arguments. *)

From stdpp Require Import gmap strings.
From S2P Require Import Prelude.
From S2P Require Import Types.
From S2P Require Import OrderBook.
From S2P Require Import Text.
From S2P Require Import Float.
From S2P Require Import Decimal.
From S2P Require Import LatencyStats.
From S2P Require Import MidpointHistory.
From S2P Require Import DropCopy.
From S2P Require Import Oms.
From S2P Require Import OmsProps.
From S2P Require Import OmsRecovery.
From S2P Require Import Router.
From S2P Require Import Position.
From S2P Require Import Risk.
From S2P Require Import Exchange.

(** ** Bodies of requests *)

Definition is_json_mark (c : ascii) : bool :=
  bool_decide (c = "{"%char) || bool_decide (c = "}"%char) || (nat_of_ascii c =? 34)%nat || bool_decide (c = " "%char).

(** [std::getline] with a separator: no token after a last separator. *)
Fixpoint tokens (fuel : nat) (c : ascii) (s : str) : list str :=
  match fuel, s with
  | O, _ | _, [] => []
  | S fuel, _ => match split_at c s with Some (t, s) => t :: tokens fuel c s | None => [s] end
  end.

Definition trim (s : str) : str := reverse (skip_space (reverse (skip_space s))).

Definition Fields : Type := gmap str str.

Definition add_field (fields : Fields) (token : str) : Fields :=
  match split_at ":"%char token with
  | None => fields
  | Some (k, v) => <[trim k := trim v]> fields
  end.

Definition parse_json_like_body (body : str) : Fields :=
  let s := (fun c => if is_json_mark c then " "%char else c) <$> body in
  foldl add_field ∅ (tokens (length s) ","%char s).

(** [fields.at(name)] *)
Definition at_field (name : string) (fields : Fields) : result str :=
  match fields !! lit name with Some v => Ok v | None => Throw (out_of_range "unordered_map::at") end.

Definition parse_side (value : str) : option Side :=
  let value := lower <$> value in
  if bool_decide (value = lit "buy") then Some Buy
  else if bool_decide (value = lit "sell") then Some Sell
  else None.

Definition parse_type (value : str) : option OrderType :=
  let value := lower <$> value in
  if bool_decide (value = lit "limit") then Some Limit
  else if bool_decide (value = lit "market") then Some Market
  else if bool_decide (value = lit "ioc") then Some IOC
  else if bool_decide (value = lit "fok") then Some FOK
  else if bool_decide (value = lit "post") || bool_decide (value = lit "postonly") || bool_decide (value = lit "post-only")
  then Some PostOnly
  else None.

(** [std::stoul] where [unsigned long] has 64 bits. *)
Definition stoul (s : str) : result Z :=
  match stoull s with Ok z => Ok z.1 | Throw (out_of_range _) => Throw (out_of_range "stoul") | Throw _ => Throw (invalid_argument "stoul") end.

Definition stoll (s : str) : result Z :=
  let (negative, s1) := read_sign (skip_space s) in
  match span_digits digit_value s1 with
  | ([], _) => Throw (invalid_argument "stoll")
  | (ds, _) =>
      let n := if negative then - number 10 ds else number 10 ds in
      if (n <? - 2 ^ 63) || (2 ^ 63 <=? n) then Throw (out_of_range "stoll") else Ok n
  end.

Definition order_request (fields : Fields) (side : Side) (type : OrderType) : result OrderRequest :=
  order_id ← at_field "orderId" fields ≫= stoull;
  client_id ← at_field "clientId" fields ≫= stoul;
  price ← at_field "price" fields ≫= stoll;
  quantity ← at_field "quantity" fields ≫= stoul;
  symbol ← at_field "symbol" fields ≫= stoul;
  Ok {| req_order_id := order_id.1; req_client_id := u32 client_id; req_side := side; req_type := type;
        req_price := price; req_quantity := u32 quantity; req_symbol := u32 symbol |}.

Definition cancel_request (fields : Fields) : result CancelRequest :=
  order_id ← at_field "orderId" fields ≫= stoull;
  client_id ← at_field "clientId" fields ≫= stoul;
  symbol ← at_field "symbol" fields ≫= stoul;
  Ok {| can_order_id := order_id.1; can_client_id := u32 client_id; can_symbol := u32 symbol |}.

Definition replace_request (fields : Fields) : result ReplaceRequest :=
  order_id ← at_field "orderId" fields ≫= stoull;
  client_id ← at_field "clientId" fields ≫= stoul;
  price ← at_field "price" fields ≫= stoll;
  quantity ← at_field "quantity" fields ≫= stoul;
  symbol ← at_field "symbol" fields ≫= stoul;
  Ok {| rep_order_id := order_id.1; rep_client_id := u32 client_id; rep_new_price := price;
        rep_new_quantity := u32 quantity; rep_symbol := u32 symbol |}.

(** ** The state *)

Inductive Verb := VerbGet | VerbPost | VerbDelete | VerbOptions | VerbOther.

#[export] Instance Verb_eq_dec : EqDecision Verb.
Proof. solve_decision. Defined.

(** [VolatilityCircuitBreakerConfig] *)
Record BreakerConfig := { bk_enabled : bool; bk_threshold_percent : double; bk_window_ns : Z }.

Definition BreakerConfig0 : BreakerConfig := {|
  bk_enabled := false; bk_threshold_percent := dbl 5; bk_window_ns := 30000000000 |}.

(** What a call does: it returns; an exception leaves it; it waits for ever for a
    mutex that its own thread holds; or an exception of a handler leaves the
    matching or the bookkeeping half way, from where on nothing is described. *)
Inductive Outcome (A : Type) := Returned (a : A) | Threw (e : exn) | Hung | Interrupted (e : exn).
Arguments Returned {A}.
Arguments Threw {A}.
Arguments Hung {A}.
Arguments Interrupted {A}.

(** Parts of [ApiState] that change together: the orders with what their store
    holds, what the sampler uses with its static variable, the counters, and what
    is kept of trades, reports and orders. *)
Record OrderState := { or_oms : Oms; or_store : Store; or_positions : PositionManager; or_limits : PortfolioRiskLimits }.

Record SamplerState := { sa_midpoints : MidpointHistory; sa_breaker : BreakerConfig; sa_last_prune : Z }.

Record Counters := { ac_submitted : Z; ac_accepted : Z; ac_rejected : Z; ac_trades : Z; ac_reports : Z }.

Record RecentActivity := {
  ra_trade_feed : list Trade; ra_report_feed : list ExecutionReport; ra_metadata : gmap Z OrderRequest }.

Section api.
Context {DB : Type} `{EventTable DB}.

(** [as_locked] says whether the mutex is held. *)
Record ApiState := {
  as_exchange : Exchange; as_risk : RiskEngine; as_latency : LatencyStats; as_orders : OrderState;
  as_drop_copy : DropCopyStore DB; as_sampler : SamplerState; as_counters : Counters; as_recent : RecentActivity;
  as_locked : bool
}.

Definition API (A : Type) : Type := ApiState -> Outcome A * ApiState.

#[export] Instance api_ret : MRet API := fun A a s => (Returned a, s).
#[export] Instance api_bind : MBind API := fun A B k m s =>
  match m s with
  | (Returned a, s) => k a s
  | (Threw e, s) => (Threw e, s)
  | (Hung, s) => (Hung, s)
  | (Interrupted e, s) => (Interrupted e, s)
  end.

Definition change (f : ApiState -> ApiState) : API unit := fun s => (Returned tt, f s).
Definition may_throw {A} (r : result A) : API A := fun s =>
  (match r with Ok a => Returned a | Throw e => Threw e end, s).

Definition reading {A} (f : ApiState -> A) : API A := fun s => (Returned (f s), s).

Definition set_exchange (x : Exchange) (s : ApiState) : ApiState := {|
  as_exchange := x; as_risk := as_risk s; as_latency := as_latency s; as_orders := as_orders s;
  as_drop_copy := as_drop_copy s; as_sampler := as_sampler s; as_counters := as_counters s; as_recent := as_recent s;
  as_locked := as_locked s |}.

Definition set_risk (x : RiskEngine) (s : ApiState) : ApiState := {|
  as_exchange := as_exchange s; as_risk := x; as_latency := as_latency s; as_orders := as_orders s;
  as_drop_copy := as_drop_copy s; as_sampler := as_sampler s; as_counters := as_counters s; as_recent := as_recent s;
  as_locked := as_locked s |}.

Definition set_latency (x : LatencyStats) (s : ApiState) : ApiState := {|
  as_exchange := as_exchange s; as_risk := as_risk s; as_latency := x; as_orders := as_orders s;
  as_drop_copy := as_drop_copy s; as_sampler := as_sampler s; as_counters := as_counters s; as_recent := as_recent s;
  as_locked := as_locked s |}.

Definition set_orders (x : OrderState) (s : ApiState) : ApiState := {|
  as_exchange := as_exchange s; as_risk := as_risk s; as_latency := as_latency s; as_orders := x;
  as_drop_copy := as_drop_copy s; as_sampler := as_sampler s; as_counters := as_counters s; as_recent := as_recent s;
  as_locked := as_locked s |}.

Definition set_drop_copy (x : DropCopyStore DB) (s : ApiState) : ApiState := {|
  as_exchange := as_exchange s; as_risk := as_risk s; as_latency := as_latency s; as_orders := as_orders s;
  as_drop_copy := x; as_sampler := as_sampler s; as_counters := as_counters s; as_recent := as_recent s;
  as_locked := as_locked s |}.

Definition set_sampler (x : SamplerState) (s : ApiState) : ApiState := {|
  as_exchange := as_exchange s; as_risk := as_risk s; as_latency := as_latency s; as_orders := as_orders s;
  as_drop_copy := as_drop_copy s; as_sampler := x; as_counters := as_counters s; as_recent := as_recent s;
  as_locked := as_locked s |}.

Definition set_activity (c : Counters) (r : RecentActivity) (s : ApiState) : ApiState := {|
  as_exchange := as_exchange s; as_risk := as_risk s; as_latency := as_latency s; as_orders := as_orders s;
  as_drop_copy := as_drop_copy s; as_sampler := as_sampler s; as_counters := c; as_recent := r;
  as_locked := as_locked s |}.

Definition set_locked (b : bool) (s : ApiState) : ApiState := {|
  as_exchange := as_exchange s; as_risk := as_risk s; as_latency := as_latency s; as_orders := as_orders s;
  as_drop_copy := as_drop_copy s; as_sampler := as_sampler s; as_counters := as_counters s; as_recent := as_recent s;
  as_locked := b |}.

(** [std::lock_guard] on the mutex, which is not recursive. *)
Definition with_lock {A} (m : API A) : API A := fun s =>
  if as_locked s then (Hung, s)
  else
    match m (set_locked true s) with
    | (Hung, s) => (Hung, s)
    | (r, s) => (r, set_locked false s)
    end.

(** ** The handlers of the exchange *)

Definition count_trade (t : Trade) (s : ApiState) : ApiState :=
  let c := as_counters s in
  let r := as_recent s in
  set_activity
    {| ac_submitted := ac_submitted c; ac_accepted := ac_accepted c; ac_rejected := ac_rejected c;
       ac_trades := u64 (ac_trades c + 1); ac_reports := ac_reports c |}
    {| ra_trade_feed := take 100 (t :: ra_trade_feed r); ra_report_feed := ra_report_feed r; ra_metadata := ra_metadata r |} s.

Definition on_trade (t : Trade) : API unit := with_lock (change (count_trade t)).

Definition execution_status_string (x : Status) : string :=
  match x with
  | Types.Accepted => "ACCEPTED" | Types.PartiallyFilled => "PARTIALLY_FILLED" | Types.Filled => "FILLED"
  | Types.Cancelled => "CANCELLED" | Types.Replaced => "REPLACED" | Types.Rejected => "REJECTED" | Expired => "EXPIRED"
  end.

Definition report_event (now : Z) (r : ExecutionReport) : DropCopyEvent := {|
  dc_id := 0; dc_timestamp := now; dc_order_id := er_order_id r; dc_symbol := er_symbol r;
  dc_type := "EXECUTION_REPORT"; dc_status := execution_status_string (er_status r); dc_remaining := er_remaining r;
  dc_reason := reason_code (er_reject_reason r) |}.

Definition count_report (x : ExecutionReport) (s : ApiState) : ApiState :=
  let c := as_counters s in
  let r := as_recent s in
  set_activity
    {| ac_submitted := ac_submitted c;
       ac_accepted := if bool_decide (er_status x = Types.Accepted) then u64 (ac_accepted c + 1) else ac_accepted c;
       ac_rejected := if bool_decide (er_status x = Types.Rejected) then u64 (ac_rejected c + 1) else ac_rejected c;
       ac_trades := ac_trades c; ac_reports := u64 (ac_reports c + 1) |}
    {| ra_trade_feed := ra_trade_feed r; ra_report_feed := take 100 (x :: ra_report_feed r); ra_metadata := ra_metadata r |} s.

Definition publish_event (e : DropCopyEvent) : API unit := fun s =>
  match publish e (as_drop_copy s) with
  | (Ok _, d) => (Returned tt, set_drop_copy d s)
  | (Throw x, d) => (Threw x, set_drop_copy d s)
  end.

Definition on_report (now : Z) (r : ExecutionReport) : API unit :=
  _ ← publish_event (report_event now r); change (count_report r).

Fixpoint call_handlers (now : Z) (events : list Event) : API unit := fun s =>
  match events with
  | [] => (Returned tt, s)
  | e :: events =>
      match (match e with ETrade t => on_trade t | EReport r => on_report now r end) s with
      | (Returned _, s) => call_handlers now events s
      | (Threw x, s) | (Interrupted x, s) => (Interrupted x, s)
      | (Hung, s) => (Hung, s)
      end
  end.

(** A call of the exchange.  Its handlers do not look at the exchange: they are
    called after it, with the events it made, and the clock stands still.  When a
    handler waits for ever the code is still inside the first trade; here the
    exchange has the whole command behind it, which no later step sees. *)
Definition on_exchange (now : Z) (m : ST Exchange bool) : API bool := fun s =>
  let (r, x) := m (as_exchange s) in
  match call_handlers now (drop (length (ex_log (as_exchange s))) (ex_log x)) (set_exchange x s) with
  | (Returned _, s) => may_throw r s
  | (Threw e, s) | (Interrupted e, s) => (Interrupted e, s)
  | (Hung, s) => (Hung, s)
  end.

(** ** The callback of the order management system *)

Definition fill_event (r : OmsExecutionReport) : DropCopyEvent := {|
  dc_id := 0; dc_timestamp := xr_timestamp r; dc_order_id := xr_child_id r; dc_symbol := DEFAULT_SYMBOL;
  dc_type := "OMS_FILL"; dc_status := "FILLED"; dc_remaining := 0; dc_reason := reason_code RejectNone |}.

Definition with_oms (x : Oms) (o : OrderState) : OrderState := {|
  or_oms := x; or_store := or_store o; or_positions := or_positions o; or_limits := or_limits o |}.

Definition with_store (x : Store) (o : OrderState) : OrderState := {|
  or_oms := or_oms o; or_store := x; or_positions := or_positions o; or_limits := or_limits o |}.

Definition with_positions (x : PositionManager) (o : OrderState) : OrderState := {|
  or_oms := or_oms o; or_store := or_store o; or_positions := x; or_limits := or_limits o |}.

Definition with_limits (x : PortfolioRiskLimits) (o : OrderState) : OrderState := {|
  or_oms := or_oms o; or_store := or_store o; or_positions := or_positions o; or_limits := x |}.

Definition on_orders (f : OrderState -> OrderState) (s : ApiState) : ApiState := set_orders (f (as_orders s)) s.

(** [portfolio_risk.evaluate(positions.positions())] *)
Definition portfolio_status (s : ApiState) : PortfolioRiskStatus :=
  evaluate (or_limits (as_orders s)) (positions (or_positions (as_orders s))).

Definition halt_if_breached (s : ApiState) : ApiState :=
  if pr_breached (portfolio_status s) then set_exchange (halt_all (as_exchange s)) s else s.

(** A row that the store is asked to save.  What SQLite answers is an argument: an
    exception, or [None] when the row is saved. *)
Inductive StoreRow := ParentRow (p : ParentOrder) | ChildRow (c : ChildOrder) | FillRow (r : OmsExecutionReport).

Definition StoreAnswers : Type := StoreRow -> Store -> option exn.

Definition put_row (row : StoreRow) (st : Store) : Store :=
  match row with
  | ParentRow p => save_parent p st
  | ChildRow c => save_child st c
  | FillRow r => save_fill r st
  end.

Definition save_row (answers : StoreAnswers) (row : StoreRow) : API unit := fun s =>
  match answers row (or_store (as_orders s)) with
  | Some e => (Threw e, s)
  | None => (Returned tt, on_orders (fun o => with_store (put_row row (or_store o)) o) s)
  end.

Fixpoint save_rows (answers : StoreAnswers) (rows : list StoreRow) : API unit :=
  match rows with
  | [] => mret tt
  | row :: rows => _ ← save_row answers row; save_rows answers rows
  end.

Definition on_mutation (answers : StoreAnswers) (e : MutationEvent) : API unit :=
  _ ← match ev_parent e with Some p => save_row answers (ParentRow p) | None => mret tt end;
  _ ← match ev_child e with Some c => save_row answers (ChildRow c) | None => mret tt end;
  _ ← match ev_fill e with
      | Some r =>
          _ ← save_row answers (FillRow r);
          _ ← publish_event (fill_event r);
          match ev_parent e with
          | Some p =>
              change (fun s => halt_if_breached
                (on_orders (fun o => with_positions (apply_fill p r (or_positions o)) o) s))
          | None => mret tt
          end
      | None => mret tt
      end;
  match ev_type e, ev_parent e with
  | ParentUpdated, Some p =>
      children ← reading (fun s => children_for_parent (po_id p) (or_oms (as_orders s)));
      save_rows answers (ChildRow <$> children)
  | _, _ => mret tt
  end.

Fixpoint call_mutations (answers : StoreAnswers) (events : list MutationEvent) : API unit :=
  match events with
  | [] => mret tt
  | e :: events => _ ← on_mutation answers e; call_mutations answers events
  end.

(** A call of the order management system.  It makes at most one event, as the last
    thing before it returns, so that an exception of the callback leaves the system
    with its change complete. *)
Definition on_oms {A} (answers : StoreAnswers) (m : ST Oms A) : API A := fun s =>
  let (r, x) := m (or_oms (as_orders s)) in
  (_ ← call_mutations answers (drop (length (notified (or_oms (as_orders s)))) (notified x)); may_throw r)
    (on_orders (with_oms x) s).

(** The constructor: what the store loads is restored, and the fills whose parents
    are known make the positions. *)
Definition restore_positions (s : Oms) (fills : list OmsExecutionReport) : PositionManager :=
  foldl (fun m r => match find_parent (xr_parent_id r) s with Some p => apply_fill p r m | None => m end) ∅ fills.

Definition recover_orders (store : Store) (ps : list ParentOrder) (cs : list ChildOrder) (fills : list OmsExecutionReport)
    (limits : PortfolioRiskLimits) : OrderState :=
  let s := restore ps cs fills new_oms in {|
  or_oms := s; or_store := store; or_positions := restore_positions s fills; or_limits := limits |}.

(** ** The market sampler *)

Definition better_quotes (b : double * double) (q : VenueQuote) : double * double :=
  match vq_bids q, vq_asks q with
  | bid :: _, ask :: _ =>
      (if deq b.1 dzero || dgt (vl_price bid) b.1 then vl_price bid else b.1,
       if deq b.2 dzero || dlt (vl_price ask) b.2 then vl_price ask else b.2)
  | _, _ => b
  end.

Definition sampled_symbol : string := "btcusd".

Definition moved_percent (midpoint previous : double) : double :=
  dmul (ddiv (dabs (dsub midpoint previous)) previous) (dbl 100).

Definition trip_breaker (now : Z) (midpoint : double) (s : ApiState) : ApiState :=
  let bk := sa_breaker (as_sampler s) in
  if bk_enabled bk && (bk_window_ns bk <? now) then
    match at_or_before sampled_symbol (now - bk_window_ns bk) (sa_midpoints (as_sampler s)) with
    | Some previous =>
        if dgt (mo_midpoint previous) dzero && dge (moved_percent midpoint (mo_midpoint previous)) (bk_threshold_percent bk)
        then set_exchange (halt_symbol 1 (as_exchange s)) s else s
    | None => s
    end
  else s.

Definition with_midpoints (x : MidpointHistory) (a : SamplerState) : SamplerState := {|
  sa_midpoints := x; sa_breaker := sa_breaker a; sa_last_prune := sa_last_prune a |}.

Definition with_prune (x : Z) (a : SamplerState) : SamplerState := {|
  sa_midpoints := sa_midpoints a; sa_breaker := sa_breaker a; sa_last_prune := x |}.

Definition on_sampler (f : SamplerState -> SamplerState) (s : ApiState) : ApiState := set_sampler (f (as_sampler s)) s.

(** One round; [saved] and [pruned] are what the midpoint store answers. *)
Definition sample (quotes : result (list VenueQuote)) (now : Z) (saved pruned : result unit) : API unit :=
  quotes ← may_throw quotes;
  let (best_bid, best_ask) := foldl better_quotes (dzero, dzero) quotes in
  if dgt best_bid dzero && dgt best_ask dzero then
    let midpoint := ddiv (dadd best_bid best_ask) (dbl 2) in
    _ ← change (on_sampler (fun a => with_midpoints (record sampled_symbol now midpoint (sa_midpoints a)) a));
    _ ← may_throw saved;
    last ← reading (fun s => sa_last_prune (as_sampler s));
    _ ← (if (last =? 0) || (60000000000 <=? u64 (now - last))
         then _ ← may_throw pruned; change (on_sampler (with_prune now))
         else mret tt);
    change (trip_breaker now midpoint)
  else mret tt.

(** [catch (...)]: the next round starts from what there is. *)
Definition sampler_round (quotes : result (list VenueQuote)) (now : Z) (saved pruned : result unit) (s : ApiState) : ApiState :=
  (sample quotes now saved pruned s).2.

(** ** Requests

    [try] around a handler turns an exception into a response. *)

Inductive HttpStatus := ok | bad_request | unprocessable_entity | not_found.

#[export] Instance HttpStatus_eq_dec : EqDecision HttpStatus.
Proof. solve_decision. Defined.

Definition catching (m : API HttpStatus) : API HttpStatus := fun s =>
  match m s with
  | (Threw _, s) => (Returned bad_request, s)
  | r => r
  end.

Definition outcome_status (b : bool) : HttpStatus := if b then ok else unprocessable_entity.

(** The text of a response names the active orders and the hash. *)
Definition print_state : API unit := fun s => may_throw (_ ← state_hash (as_exchange s); Ok tt) s.

Definition count_submitted (s : ApiState) : ApiState :=
  let c := as_counters s in
  set_activity
    {| ac_submitted := u64 (ac_submitted c + 1); ac_accepted := ac_accepted c; ac_rejected := ac_rejected c;
       ac_trades := ac_trades c; ac_reports := ac_reports c |} (as_recent s) s.

Definition count_rejected (s : ApiState) : ApiState :=
  let c := as_counters s in
  set_activity
    {| ac_submitted := ac_submitted c; ac_accepted := ac_accepted c; ac_rejected := u64 (ac_rejected c + 1);
       ac_trades := ac_trades c; ac_reports := ac_reports c |} (as_recent s) s.

Definition remember_order (r : OrderRequest) (s : ApiState) : ApiState :=
  match req_type r with
  | Limit | PostOnly =>
      let a := as_recent s in
      set_activity (as_counters s)
        {| ra_trade_feed := ra_trade_feed a; ra_report_feed := ra_report_feed a;
           ra_metadata := <[req_order_id r := r]> (ra_metadata a) |} s
  | _ => s
  end.

Definition record_latency (name : string) (elapsed : Z) : API unit := fun s =>
  let (r, x) := LatencyStats.record name elapsed (as_latency s) in may_throw r (set_latency x s).

(** The clock [now] is the system's; the steady clock is read at [start] and at [finish]. *)
Definition submit_order (now start finish : Z) (order : OrderRequest) : API HttpStatus :=
  with_lock
    (_ ← change count_submitted;
     allowed ← reading (fun s => allow order (as_risk s));
     if negb allowed then _ ← change count_rejected; mret unprocessable_entity
     else
       accepted ← on_exchange now (Exchange.submit order);
       _ ← record_latency "order_submit" (u64 (finish - start));
       _ ← (if (accepted : bool)
            then change (fun s => remember_order order (set_risk (on_order_accepted order (as_risk s)) s))
            else mret tt);
       _ ← print_state;
       mret (outcome_status accepted)).

(** [POST /api/orders] *)
Definition post_order (now start finish : Z) (body : str) : API HttpStatus :=
  catching
    (let fields := parse_json_like_body body in
     side ← may_throw (at_field "side" fields);
     type ← may_throw (at_field "type" fields);
     match parse_side side, parse_type type with
     | Some side, Some type =>
         order ← may_throw (order_request fields side type);
         submit_order now start finish order
     | _, _ => mret bad_request
     end).

(** [POST /api/cancel] *)
Definition post_cancel (now : Z) (body : str) : API HttpStatus :=
  catching
    (request ← may_throw (cancel_request (parse_json_like_body body));
     with_lock (done ← on_exchange now (Exchange.cancel request); _ ← print_state; mret (outcome_status done))).

(** [POST /api/replace] *)
Definition post_replace (now : Z) (body : str) : API HttpStatus :=
  catching
    (request ← may_throw (replace_request (parse_json_like_body body));
     with_lock (done ← on_exchange now (Exchange.replace request); _ ← print_state; mret (outcome_status done))).

(** The controls change the exchange without the mutex. *)
Definition change_exchange (f : Exchange -> Exchange) : API unit := change (fun s => set_exchange (f (as_exchange s)) s).

(** [POST /api/system/halt] and [POST /api/system/resume] *)
Definition post_halt : API HttpStatus := _ ← change_exchange halt_all; mret ok.
Definition post_resume : API HttpStatus := _ ← change_exchange resume_all; mret ok.

(** The symbol and the action of [/api/symbols/{symbol}/{action}]. *)
Definition symbol_route (target : str) : result (option (SymbolId * str)) :=
  match split_at "/"%char (drop (length (lit "/api/symbols/")) target) with
  | None => Ok None
  | Some (symbol, action) => symbol ← stoul symbol; Ok (Some (u32 symbol, action))
  end.

(** For [GET] and a target that starts with [/api/symbols/] and ends with [/status]. *)
Definition symbol_status (target : str) : API HttpStatus :=
  match symbol_route target with
  | Ok (Some _) => mret ok
  | _ => mret bad_request
  end.

(** For [POST] and a target that starts with [/api/symbols/] and ends with [/halt]
    or [/resume]; [None] when later routes are tried. *)
Definition post_symbol_control (target : str) : API (option HttpStatus) := fun s =>
  match symbol_route target with
  | Throw _ | Ok None => (Returned (Some bad_request), s)
  | Ok (Some (symbol, action)) =>
      if bool_decide (action = lit "halt") then (_ ← change_exchange (halt_symbol symbol); mret (Some ok)) s
      else if bool_decide (action = lit "resume") then (_ ← change_exchange (resume_symbol symbol); mret (Some ok)) s
      else (Returned None, s)
  end.


Definition store_band (symbol : SymbolId) (reference : Price) (percent : double) : API unit := fun s =>
  let (r, x) := set_price_band symbol reference percent (as_exchange s) in may_throw r (set_exchange x s).

(** For a target that starts with [/api/symbols/] and contains [/price-band]. *)
Definition price_band (verb : Verb) (target body : str) : API (option HttpStatus) := fun s =>
  match symbol_route target with
  | Throw _ | Ok None => (Returned (Some bad_request), s)
  | Ok (Some (symbol, action)) =>
      if bool_decide (action <> lit "price-band") then (Returned (Some bad_request), s)
      else
        match verb with
        | VerbPost =>
            let fields := parse_json_like_body body in
            (status ← catching
               (reference ← may_throw (at_field "referencePrice" fields ≫= stoll);
                percent ← may_throw (at_field "bandPercent" fields ≫= stod);
                _ ← store_band symbol reference percent.1;
                mret ok);
             mret (Some status)) s
        | VerbDelete => (_ ← change_exchange (clear_price_band symbol); mret (Some ok)) s
        | _ => (Returned None, s)
        end
  end.

Definition toupper (c : ascii) : ascii :=
  if (97 <=? code c) && (code c <=? 122) then ascii_of_nat (nat_of_ascii c - 32) else c.

Definition parse_policy (policy : str) : option SelfTradePreventionPolicy :=
  let policy := toupper <$> policy in
  if bool_decide (policy = lit "CANCEL_NEWEST") then Some CancelNewest
  else if bool_decide (policy = lit "CANCEL_OLDEST") then Some CancelOldest
  else if bool_decide (policy = lit "CANCEL_BOTH") then Some CancelBoth
  else if bool_decide (policy = lit "NONE") then Some StpNone
  else None.

(** [POST /api/system/stp] *)
Definition post_stp (body : str) : API HttpStatus :=
  catching
    (policy ← may_throw (at_field "policy" (parse_json_like_body body));
     match parse_policy policy with
     | Some value => _ ← change_exchange (Exchange.set_stp_policy value); mret ok
     | None => mret bad_request
     end).

Definition change_breaker (f : BreakerConfig -> BreakerConfig) : API unit :=
  change (on_sampler (fun a => {| sa_midpoints := sa_midpoints a; sa_breaker := f (sa_breaker a); sa_last_prune := sa_last_prune a |})).

Definition set_enabled (b : bool) (c : BreakerConfig) : BreakerConfig := {|
  bk_enabled := b; bk_threshold_percent := bk_threshold_percent c; bk_window_ns := bk_window_ns c |}.

Definition set_threshold (x : double) (c : BreakerConfig) : BreakerConfig := {|
  bk_enabled := bk_enabled c; bk_threshold_percent := x; bk_window_ns := bk_window_ns c |}.

Definition set_window (x : Z) (c : BreakerConfig) : BreakerConfig := {|
  bk_enabled := bk_enabled c; bk_threshold_percent := bk_threshold_percent c; bk_window_ns := x |}.

(** [POST /api/system/circuit-breakers/config].  A field is stored before the next
    one is read; [saved] is what the settings store answers. *)
Definition post_breaker (body : str) (saved : result unit) : API HttpStatus :=
  let fields := parse_json_like_body body in
  catching
    (_ ← match fields !! lit "enabled" with
         | Some value =>
             change_breaker (set_enabled (bool_decide (value = lit "true") || bool_decide (value = lit "1") ||
                                          bool_decide (value = lit "TRUE")))
         | None => mret tt
         end;
     good ← match fields !! lit "thresholdPercent" with
         | Some value =>
             threshold ← may_throw (stod value);
             if dle threshold.1 dzero then mret false else _ ← change_breaker (set_threshold threshold.1); mret true
         | None => mret true
         end;
     if negb good then mret bad_request
     else
       good ← match fields !! lit "windowSeconds" with
           | Some value =>
               seconds ← may_throw (stoull value);
               if seconds.1 =? 0 then mret false else _ ← change_breaker (set_window (u64 (seconds.1 * 1000000000))); mret true
           | None => mret true
           end;
       if negb good then mret bad_request else _ ← may_throw saved; mret ok).

(** A limit that the request may name. *)
Definition read_limit (name : string) (fields : Fields) (limit : double) : result double :=
  match fields !! lit name with Some value => x ← stod value; Ok x.1 | None => Ok limit end.

(** [POST /api/portfolio/risk/limits] *)
Definition post_limits (body : str) (saved : result unit) : API HttpStatus :=
  let fields := parse_json_like_body body in
  catching
    (limits ← reading (fun s => or_limits (as_orders s));
     gross ← may_throw (read_limit "maxGrossExposure" fields (max_gross_exposure limits));
     net ← may_throw (read_limit "maxNetExposure" fields (max_net_exposure limits));
     concentration ← may_throw (read_limit "maxConcentrationPercent" fields (max_concentration_percent limits));
     loss ← may_throw (read_limit "maxDailyLoss" fields (Position.max_daily_loss limits));
     limits ← may_throw (set_limits {| max_gross_exposure := gross; max_net_exposure := net;
                                       max_concentration_percent := concentration; Position.max_daily_loss := loss |});
     _ ← change (on_orders (with_limits limits));
     _ ← may_throw saved;
     _ ← change halt_if_breached;
     mret ok).

(** [POST /api/oms/children/cancel] *)
Definition post_child_cancel (answers : StoreAnswers) (now : Z) (body : str) : API HttpStatus :=
  catching
    (child_id ← may_throw (at_field "childId" (parse_json_like_body body) ≫= stoull);
     with_lock (done ← on_oms answers (cancel_child child_id.1 now); mret (outcome_status done))).

(** ** Routing

    What a request brings: the readings of the clocks while it is handled, and the
    answers of the settings store and of the order store. *)

Record Request := {
  rq_verb : Verb; rq_target : str; rq_body : str; rq_now : Z; rq_start : Z; rq_finish : Z; rq_saved : result unit;
  rq_store : StoreAnswers
}.

Definition ends_with (p s : str) : bool := starts_with (reverse p) (reverse s).

Fixpoint contains (p s : str) : bool :=
  starts_with p s || match s with [] => false | _ :: s => contains p s end.

Definition is_symbol_control (r : Request) : bool :=
  bool_decide (rq_verb r = VerbPost) && starts_with (lit "/api/symbols/") (rq_target r) &&
  (ends_with (lit "/halt") (rq_target r) || ends_with (lit "/resume") (rq_target r)).

Definition is_symbol_status (r : Request) : bool :=
  bool_decide (rq_verb r = VerbGet) && starts_with (lit "/api/symbols/") (rq_target r) &&
  ends_with (lit "/status") (rq_target r).

Definition is_price_band (r : Request) : bool :=
  starts_with (lit "/api/symbols/") (rq_target r) && contains (lit "/price-band") (rq_target r).

Definition is_post (name : string) (r : Request) : bool :=
  bool_decide (rq_verb r = VerbPost) && bool_decide (rq_target r = lit name).

(** [Some] of a handler that always answers. *)
Definition answered (m : API HttpStatus) : API (option HttpStatus) := a ← m; mret (Some a).

(** [handle_request], with [None] for the routes that are not described here. *)
Definition handle_request (r : Request) : API (option HttpStatus) :=
  if bool_decide (rq_verb r = VerbOptions) then mret (Some ok)
  else if is_post "/api/system/stp" r then answered (post_stp (rq_body r))
  else if is_post "/api/system/circuit-breakers/config" r then answered (post_breaker (rq_body r) (rq_saved r))
  else if is_symbol_status r then answered (symbol_status (rq_target r))
  else if is_post "/api/system/halt" r then answered post_halt
  else if is_post "/api/system/resume" r then answered post_resume
  else
    early ← (if is_symbol_control r then post_symbol_control (rq_target r) else mret None);
    match early with
    | Some status => mret (Some status)
    | None =>
        early ← (if is_price_band r then price_band (rq_verb r) (rq_target r) (rq_body r) else mret None);
        match early with
        | Some status => mret (Some status)
        | None =>
            if is_post "/api/cancel" r then answered (post_cancel (rq_now r) (rq_body r))
            else if is_post "/api/replace" r then answered (post_replace (rq_now r) (rq_body r))
            else if is_post "/api/oms/children/cancel" r then answered (post_child_cancel (rq_store r) (rq_now r) (rq_body r))
            else if is_post "/api/portfolio/risk/limits" r then answered (post_limits (rq_body r) (rq_saved r))
            else if is_post "/api/orders" r then answered (post_order (rq_now r) (rq_start r) (rq_finish r) (rq_body r))
            else mret None
        end
    end.

(** The loop of [main], one connection after the other: the answers it sends, as
    far as they are described. *)
Fixpoint serve (rs : list Request) (s : ApiState) : list (option HttpStatus) * ApiState :=
  match rs with
  | [] => ([], s)
  | r :: rs =>
      match handle_request r s with
      | (Returned a, s) => let (answers, s) := serve rs s in (a :: answers, s)
      | (_, s) => ([], s)
      end
  end.

End api.

(** [ApiState] before any request; the code gives the exchange a capacity of 100000. *)
Definition ApiState0 {DB} (capacity : nat) (d : DropCopyStore DB) (latency : LatencyStats) : ApiState := {|
  as_exchange := new_exchange capacity; as_risk := new_risk_engine Risk.default_limits; as_latency := latency;
  as_orders := {| or_oms := new_oms; or_store := {| st_parents := ∅; st_children := ∅; st_fills := ∅ |};
                  or_positions := ∅; or_limits := Position.default_limits |};
  as_drop_copy := d;
  as_sampler := {| sa_midpoints := new_history default_retention; sa_breaker := BreakerConfig0; sa_last_prune := 0 |};
  as_counters := {| ac_submitted := 0; ac_accepted := 0; ac_rejected := 0; ac_trades := 0; ac_reports := 0 |};
  as_recent := {| ra_trade_feed := []; ra_report_feed := []; ra_metadata := ∅ |}; as_locked := false |}.
