(* ===== verification/ApiServerProps.v ===== *)
(** * The API server against the exchange behind it

    What the answers of [handle_request] mean in terms of the exchange alone, that
    the server stops at the first trade, and what halts it. *)

From stdpp Require Import gmap strings.
From S2P Require Import Prelude.
From S2P Require Import Types.
From S2P Require Import OrderBook.
From S2P Require Import BookProps.
From S2P Require Import Text.
From S2P Require Import Float.
From S2P Require Import Decimal.
From S2P Require Import LatencyStats.
From S2P Require Import MidpointHistory.
From S2P Require Import DropCopy.
From S2P Require Import Oms.
From S2P Require Import OmsProps.
From S2P Require Import OmsRecovery.
From S2P Require Import Router.
From S2P Require Import Position.
From S2P Require Import Risk.
From S2P Require Import Exchange.
From S2P Require Import ExchangeProps.
From S2P Require Import ApiServer.

(** ** Requests about the market *)

Inductive MarketRequest :=
| OrderBody (body : str) | CancelBody (body : str) | ReplaceBody (body : str)
| HaltSystem | ResumeSystem
| HaltOf (symbol : str) | ResumeOf (symbol : str)
| BandOf (symbol body : str) | NoBandOf (symbol : str)
| PolicyBody (body : str).

Definition request_verb (q : MarketRequest) : Verb := match q with NoBandOf _ => VerbDelete | _ => VerbPost end.

Definition request_target (q : MarketRequest) : str :=
  match q with
  | OrderBody _ => lit "/api/orders"
  | CancelBody _ => lit "/api/cancel"
  | ReplaceBody _ => lit "/api/replace"
  | HaltSystem => lit "/api/system/halt"
  | ResumeSystem => lit "/api/system/resume"
  | HaltOf symbol => lit "/api/symbols/" ++ symbol ++ lit "/halt"
  | ResumeOf symbol => lit "/api/symbols/" ++ symbol ++ lit "/resume"
  | BandOf symbol _ | NoBandOf symbol => lit "/api/symbols/" ++ symbol ++ lit "/price-band"
  | PolicyBody _ => lit "/api/system/stp"
  end.

Definition request_body (q : MarketRequest) : str :=
  match q with
  | OrderBody body | CancelBody body | ReplaceBody body | BandOf _ body | PolicyBody body => body
  | _ => []
  end.

(** The symbol is one part of the path. *)
Definition request_ok (q : MarketRequest) : Prop :=
  match q with
  | HaltOf symbol | ResumeOf symbol | BandOf symbol _ | NoBandOf symbol => "/"%char ∉ symbol
  | _ => True
  end.

(** The readings of the clocks while a request is handled. *)
Record Clocks := { ck_now : Z; ck_start : Z; ck_finish : Z; ck_store : StoreAnswers }.

Definition to_request (x : Clocks * MarketRequest) : Request := {|
  rq_verb := request_verb x.2; rq_target := request_target x.2; rq_body := request_body x.2;
  rq_now := ck_now x.1; rq_start := ck_start x.1; rq_finish := ck_finish x.1; rq_saved := Ok tt;
  rq_store := ck_store x.1 |}.

(** The command that a request asks for, if it can be read. *)
Definition meaning (q : MarketRequest) : option ExCommand :=
  let fields := parse_json_like_body (request_body q) in
  let known {A} (r : result A) (f : A -> ExCommand) := match r with Ok a => Some (f a) | Throw _ => None end in
  match q with
  | OrderBody _ =>
      match at_field "side" fields, at_field "type" fields with
      | Ok side, Ok type =>
          side ← parse_side side; type ← parse_type type; known (order_request fields side type) XSubmit
      | _, _ => None
      end
  | CancelBody _ => known (cancel_request fields) XCancel
  | ReplaceBody _ => known (replace_request fields) XReplace
  | HaltSystem => Some XHaltAll
  | ResumeSystem => Some XResumeAll
  | HaltOf symbol => known (stoul symbol) (fun s => XHalt (u32 s))
  | ResumeOf symbol => known (stoul symbol) (fun s => XResume (u32 s))
  | BandOf symbol _ =>
      match stoul symbol, at_field "referencePrice" fields ≫= stoll, at_field "bandPercent" fields ≫= stod with
      | Ok s, Ok reference, Ok percent => Some (XBand (u32 s) reference percent.1)
      | _, _, _ => None
      end
  | NoBandOf symbol => known (stoul symbol) (fun s => XClearBand (u32 s))
  | PolicyBody _ =>
      match at_field "policy" fields with Ok policy => XPolicy <$> parse_policy policy | Throw _ => None end
  end.

(** ** The market alone

    The exchange and the risk checks, with the reports and the orders a client is
    shown; [None] is a request that gets no answer. *)

Record Market := {
  mk_exchange : Exchange; mk_risk : RiskEngine; mk_submitted : Z; mk_refused : Z;
  mk_published : list (Z * ExecutionReport); mk_metadata : gmap Z OrderRequest
}.

Definition is_report (e : Event) : bool := match e with EReport _ => true | ETrade _ => false end.

Definition trade_free (evs : list Event) : bool := forallb is_report evs.

Fixpoint reports_before_trade (evs : list Event) : list ExecutionReport :=
  match evs with EReport r :: evs => r :: reports_before_trade evs | _ => [] end.

Definition new_events (ex ex' : Exchange) : list Event := drop (length (ex_log ex)) (ex_log ex').

Definition answer_of (r : result bool) : HttpStatus :=
  match r with Ok b => outcome_status b | Throw _ => bad_request end.

(** A command of the exchange.  A trade is the end. *)
Definition market_exec (now : Z) (c : ExCommand) (mk : Market) : option HttpStatus * Market :=
  let (r, ex) := ex_exec c (mk_exchange mk) in
  let evs := new_events (mk_exchange mk) ex in
  (if trade_free evs then Some (answer_of r) else None,
   {| mk_exchange := ex; mk_risk := mk_risk mk; mk_submitted := mk_submitted mk; mk_refused := mk_refused mk;
      mk_published := mk_published mk ++ (pair now <$> reports_before_trade evs); mk_metadata := mk_metadata mk |}).

Definition count_order (refused : Z) (mk : Market) : Market := {|
  mk_exchange := mk_exchange mk; mk_risk := mk_risk mk; mk_submitted := mk_submitted mk + 1;
  mk_refused := mk_refused mk + refused; mk_published := mk_published mk; mk_metadata := mk_metadata mk |}.

Definition keep_order (r : OrderRequest) (mk : Market) : Market := {|
  mk_exchange := mk_exchange mk; mk_risk := on_order_accepted r (mk_risk mk); mk_submitted := mk_submitted mk;
  mk_refused := mk_refused mk; mk_published := mk_published mk;
  mk_metadata := match req_type r with
                 | Limit | PostOnly => <[req_order_id r := r]> (mk_metadata mk) | _ => mk_metadata mk end |}.

Definition market_step (now : Z) (c : ExCommand) (mk : Market) : option HttpStatus * Market :=
  match c with
  | XSubmit r =>
      if allow r (mk_risk mk) then
        let (a, mk) := market_exec now c (count_order 0 mk) in
        (a, if bool_decide (a = Some ok) then keep_order r mk else mk)
      else (Some unprocessable_entity, count_order 1 mk)
  | _ => market_exec now c mk
  end.

Definition market_answer (x : Clocks * MarketRequest) (mk : Market) : option HttpStatus * Market :=
  match meaning x.2 with
  | Some c => market_step (ck_now x.1) c mk
  | None => (Some bad_request, mk)
  end.

Fixpoint market_run (qs : list (Clocks * MarketRequest)) (mk : Market) : list HttpStatus * Market :=
  match qs with
  | [] => ([], mk)
  | q :: qs =>
      match market_answer q mk with
      | (Some a, mk) => let (answers, mk) := market_run qs mk in (a :: answers, mk)
      | (None, mk) => ([], mk)
      end
  end.

(** ** The server *)

Section server.
Context {DB : Type} `{EventTable DB}.

Implicit Types (s : ApiState (DB := DB)) (d : DropCopyStore DB).

(** The disk of the drop copy works. *)
Hypothesis insert_succeeds : forall r (db : DB), exists db', insert_row r db = inr db'.

Definition published (d : DropCopyStore DB) (l : list (Z * ExecutionReport)) : DropCopyStore DB :=
  foldl (fun d x => (publish (report_event x.1 x.2) d).2) d l.

Lemma publish_succeeds e (d : DropCopyStore DB) : (publish e d).1 = Ok tt.
Proof.
  unfold publish, mbind, st_bind, persist. cbv zeta.
  destruct (insert_succeeds (bind_event (with_id (next_id_ d) e)) (database_ (set_next_id (u64 (next_id_ d + 1)) d))) as [db' E].
  unfold set_next_id in *. cbn [database_] in *. by rewrite E.
Qed.

Lemma publish_event_succeeds e s :
  publish_event e s = (Returned tt, set_drop_copy (publish e (as_drop_copy s)).2 s).
Proof. unfold publish_event. pose proof (publish_succeeds e (as_drop_copy s)). by destruct (publish e _) as [[[]|] d]. Qed.

Definition count_status (x : Status) (l : list (Z * ExecutionReport)) : Z :=
  Z.of_nat (length (filter (fun r => er_status r.2 = x) l)).

(** What the server keeps about the market. *)
Record shows (d0 : DropCopyStore DB) (s : ApiState (DB := DB)) (mk : Market) : Prop := {
  sh_exchange : as_exchange s = mk_exchange mk;
  sh_risk : as_risk s = mk_risk mk;
  sh_drop_copy : as_drop_copy s = published d0 (mk_published mk);
  sh_submitted : ac_submitted (as_counters s) = u64 (mk_submitted mk);
  sh_accepted : ac_accepted (as_counters s) = u64 (count_status Types.Accepted (mk_published mk));
  sh_rejected : ac_rejected (as_counters s) = u64 (count_status Types.Rejected (mk_published mk) + mk_refused mk);
  sh_trades : ac_trades (as_counters s) = 0 /\ ra_trade_feed (as_recent s) = [];
  sh_reports : ac_reports (as_counters s) = u64 (Z.of_nat (length (mk_published mk)));
  sh_report_feed : ra_report_feed (as_recent s) = take 100 (reverse (mk_published mk).*2);
  sh_metadata : ra_metadata (as_recent s) = mk_metadata mk
}.

(** What requests about the market leave alone. *)
Definition same_rest (s s' : ApiState (DB := DB)) : Prop := as_orders s' = as_orders s /\ as_sampler s' = as_sampler s.

Definition publish_report (now : Z) (s : ApiState (DB := DB)) (r : ExecutionReport) : ApiState :=
  count_report r (set_drop_copy (publish (report_event now r) (as_drop_copy s)).2 s).

Lemma call_handlers_run now evs s : as_locked s = true ->
  call_handlers now evs s =
    (if trade_free evs then Returned tt else Hung, foldl (publish_report now) s (reports_before_trade evs)).
Proof.
  revert s. induction evs as [|[t|r] evs IH]; intros s Hl; [done|..].
  - cbn. unfold on_trade, with_lock. by rewrite Hl.
  - cbn [call_handlers]. unfold on_report, mbind, api_bind, change. rewrite publish_event_succeeds.
    rewrite IH by done. done.
Qed.

Lemma count_status_snoc x l r :
  count_status x (l ++ [r]) = count_status x l + (if bool_decide (er_status r.2 = x) then 1 else 0).
Proof. unfold count_status. rewrite filter_app, length_app, filter_cons. case_decide; case_bool_decide; (done || cbn; lia). Qed.

Definition with_published (now : Z) (rs : list ExecutionReport) (mk : Market) : Market := {|
  mk_exchange := mk_exchange mk; mk_risk := mk_risk mk; mk_submitted := mk_submitted mk; mk_refused := mk_refused mk;
  mk_published := mk_published mk ++ (pair now <$> rs); mk_metadata := mk_metadata mk |}.

Lemma publish_report_shows d0 now r s mk : shows d0 s mk -> shows d0 (publish_report now s r) (with_published now [r] mk).
Proof.
  intros []. split; try done; try (cbn; done).
  - unfold published in *. cbn [mk_published with_published fmap list_fmap].
    rewrite foldl_app, <- sh_drop_copy0. done.
  - cbn. rewrite count_status_snoc. cbn. case_bool_decide; rewrite sh_accepted0; [apply u64_add_l|f_equal; lia].
  - cbn. rewrite count_status_snoc. cbn. case_bool_decide; rewrite sh_rejected0; [rewrite u64_add_l|]; f_equal; lia.
  - cbn. rewrite sh_reports0, u64_add_l, length_app. cbn. f_equal. lia.
  - change (take 100 (r :: ra_report_feed (as_recent s)) = take 100 (reverse (mk_published mk ++ [(now, r)]).*2)).
    rewrite sh_report_feed0, fmap_app, reverse_app.
    change (r :: take 99 (take 100 (reverse (mk_published mk).*2)) = r :: take 99 (reverse (mk_published mk).*2)).
    f_equal. by rewrite take_take.
Qed.

Lemma publish_reports_shows d0 now rs s mk : shows d0 s mk ->
  shows d0 (foldl (publish_report now) s rs) (with_published now rs mk).
Proof.
  revert s mk. induction rs as [|r rs IH]; intros s mk HS.
  - destruct mk, HS; split; cbn in *; rewrite ?app_nil_r; done.
  - cbn [foldl]. pose proof (IH _ _ (publish_report_shows d0 now r s mk HS)) as H1.
    unfold with_published in *. cbn in *. by rewrite <- app_assoc in H1.
Qed.

Lemma publish_reports_rest now rs s : as_locked (foldl (publish_report now) s rs) = as_locked s /\
  same_rest s (foldl (publish_report now) s rs) /\ as_latency (foldl (publish_report now) s rs) = as_latency s.
Proof. revert s. induction rs as [|r rs IH]; intros s; [done|]. destruct (IH (publish_report now s r)) as (E1 & [E2 E3] & E4). done. Qed.

(** ** One call *)

Lemma bind_run {A B} (m : API (DB := DB) A) (k : A -> API B) s a s' : m s = (Returned a, s') -> (m ≫= k) s = k a s'.
Proof. intros E. unfold mbind, api_bind. by rewrite E. Qed.

Lemma bind_change {B} f (k : unit -> API (DB := DB) B) s : (change f ≫= k) s = k tt (f s).
Proof. done. Qed.

Lemma bind_reading {A B} (f : _ -> A) (k : A -> API (DB := DB) B) s : (reading f ≫= k) s = k (f s) s.
Proof. done. Qed.

Lemma bind_ret {A B} (a : A) (k : A -> API (DB := DB) B) s : ((mret a : API A) ≫= k) s = k a s.
Proof. done. Qed.

Lemma bind_hangs {A B} (m : API (DB := DB) A) (k : A -> API B) s s' : m s = (Hung, s') -> (m ≫= k) s = (Hung, s').
Proof. intros E. unfold mbind, api_bind. by rewrite E. Qed.

Lemma on_exchange_runs now m s b ex : as_locked s = true -> m (as_exchange s) = (Ok b, ex) ->
  let evs := new_events (as_exchange s) ex in
  on_exchange now m s =
    (if trade_free evs then Returned b else Hung, foldl (publish_report now) (set_exchange ex s) (reports_before_trade evs)).
Proof.
  intros Hl Hm evs. unfold on_exchange. rewrite Hm. fold (new_events (as_exchange s) ex). fold evs.
  rewrite call_handlers_run by done. by destruct (trade_free evs).
Qed.

Lemma print_state_runs s : ex_ok (as_exchange s) -> print_state s = (Returned tt, s).
Proof. intros HX. unfold print_state. by destruct (state_hash_total _ HX) as [h ->]. Qed.

Lemma shows_locked d0 s mk b : shows d0 s mk -> shows d0 (set_locked b s) mk.
Proof. by intros []; split. Qed.

Definition with_exchange (ex : Exchange) (mk : Market) : Market := {|
  mk_exchange := ex; mk_risk := mk_risk mk; mk_submitted := mk_submitted mk; mk_refused := mk_refused mk;
  mk_published := mk_published mk; mk_metadata := mk_metadata mk |}.

Lemma shows_exchange d0 s mk ex : shows d0 s mk -> shows d0 (set_exchange ex s) (with_exchange ex mk).
Proof. by intros []; split. Qed.

(** The state that a request leads to. *)
Record reached d0 s (a : option HttpStatus) s' (mk : Market) : Prop := {
  re_shows : shows d0 s' mk;
  re_locked : as_locked s' = bool_decide (a = None);
  re_rest : same_rest s s';
  re_ok : ex_ok (mk_exchange mk)
}.

Definition outcome_of {A} (f : HttpStatus -> A) (a : option HttpStatus) : Outcome A :=
  match a with Some a => Returned (f a) | None => Hung end.

Lemma market_exec_eq now c mk r ex : ex_exec c (mk_exchange mk) = (r, ex) ->
  let evs := new_events (mk_exchange mk) ex in
  market_exec now c mk = (if trade_free evs then Some (answer_of r) else None,
                          with_published now (reports_before_trade evs) (with_exchange ex mk)).
Proof. intros E. unfold market_exec. by rewrite E. Qed.

(** The handlers of cancellations and replacements. *)
Lemma locked_call d0 now c s mk :
  shows d0 s mk -> as_locked s = false -> ex_ok (mk_exchange mk) -> ex_cmd_ok c -> (forall x p y, c <> XBand x p y) ->
  let (a, mk') := market_exec now c mk in
  exists s', with_lock (b ← on_exchange now (ex_exec c); _ ← print_state; mret (outcome_status b)) s = (outcome_of id a, s') /\
    reached d0 s a s' mk'.
Proof.
  intros HS Hl HX HC HN. destruct (commands_return c (mk_exchange mk) HX HC HN) as [b Eb].
  pose proof (ex_step_ok c (mk_exchange mk) HX HC) as HX'.
  destruct (ex_exec c (mk_exchange mk)) as [r ex] eqn:Ec. cbn in Eb, HX'. subst r.
  rewrite (market_exec_eq _ _ _ _ _ Ec). cbv zeta. set (evs := new_events (mk_exchange mk) ex).
  set (s1 := foldl (publish_report now) (set_exchange ex (set_locked true s)) (reports_before_trade evs)).
  assert (shows d0 s1 (with_published now (reports_before_trade evs) (with_exchange ex mk))) as HS1
    by by apply publish_reports_shows, shows_exchange, shows_locked.
  destruct (publish_reports_rest now (reports_before_trade evs) (set_exchange ex (set_locked true s))) as (L1 & R1 & _).
  fold s1 in L1, R1.
  exists (set_locked (negb (trade_free evs)) s1). unfold with_lock. rewrite Hl.
  unfold mbind at 1, api_bind. rewrite (on_exchange_runs now _ (set_locked true s) b ex).
  - change (as_exchange (set_locked true s)) with (as_exchange s). rewrite (sh_exchange _ _ _ HS). fold evs. fold s1.
    destruct (trade_free evs); cbn [negb outcome_of].
    + unfold mbind, api_bind. rewrite print_state_runs by by rewrite (sh_exchange _ _ _ HS1). split; [done|].
      split; [by apply shows_locked|done|done|done].
    + split; [|split; [by apply shows_locked|done|done|done] ]. f_equal. cbn in L1. destruct s1. cbn in *. by subst.
  - done.
  - by cbn; rewrite (sh_exchange _ _ _ HS).
Qed.

Lemma count_order_shows d0 s mk : shows d0 s mk -> shows d0 (count_submitted s) (count_order 0 mk).
Proof.
  intros []. split; try done; cbn.
  - by rewrite sh_submitted0, u64_add_l.
  - by rewrite Z.add_0_r.
Qed.

Lemma refuse_order_shows d0 s mk : shows d0 s mk -> shows d0 (count_rejected (count_submitted s)) (count_order 1 mk).
Proof.
  intros []. split; try done; cbn.
  - by rewrite sh_submitted0, u64_add_l.
  - by rewrite sh_rejected0, u64_add_l, Z.add_assoc.
Qed.

Lemma keep_order_shows d0 r s mk : shows d0 s mk ->
  shows d0 (remember_order r (set_risk (on_order_accepted r (as_risk s)) s)) (keep_order r mk).
Proof.
  intros []. unfold remember_order, keep_order.
  destruct (req_type r); split; try done; cbn -[on_order_accepted]; congruence.
Qed.

Lemma keep_order_rest r s : same_rest s (remember_order r (set_risk (on_order_accepted r (as_risk s)) s)) /\
  as_locked (remember_order r (set_risk (on_order_accepted r (as_risk s)) s)) = as_locked s.
Proof. unfold remember_order. by destruct (req_type r). Qed.

Lemma record_latency_runs n e s : n <> "" -> exists t, record_latency n e s = (Returned tt, set_latency t s).
Proof. intros Hn. unfold record_latency, LatencyStats.record. case_bool_decide; [done|]. by eexists. Qed.

Lemma shows_latency d0 s mk t : shows d0 s mk -> shows d0 (set_latency t s) mk.
Proof. by intros []; split. Qed.

(** The part of [submit_order] after the call of the exchange. *)
Lemma after_submit d0 start finish (r : OrderRequest) (b : bool) s mk : shows d0 s mk -> ex_ok (mk_exchange mk) ->
  exists s', (_ ← record_latency "order_submit" (u64 (finish - start));
      _ ← (if b then change (fun s => remember_order r (set_risk (on_order_accepted r (as_risk s)) s)) else mret tt);
      _ ← print_state; mret (outcome_status b)) s = (Returned (outcome_status b), s') /\
    shows d0 s' (if b then keep_order r mk else mk) /\ same_rest s s' /\ as_locked s' = as_locked s.
Proof.
  intros HS HX. destruct (record_latency_runs "order_submit" (u64 (finish - start)) s) as [t Et]; [done|].
  rewrite (bind_run _ _ _ _ _ Et). pose proof (shows_latency _ _ _ t HS) as HT. destruct b.
  - destruct (keep_order_rest r (set_latency t s)) as [R L]. pose proof (keep_order_shows d0 r _ _ HT) as HK.
    eexists. rewrite bind_change.
    rewrite (bind_run _ _ _ tt _ (print_state_runs _ ltac:(by rewrite (sh_exchange _ _ _ HK)))). done.
  - eexists. rewrite bind_ret.
    rewrite (bind_run _ _ _ tt _ (print_state_runs _ ltac:(by rewrite (sh_exchange _ _ _ HT)))). done.
Qed.

Lemma submit_order_runs d0 now start finish r s mk :
  shows d0 s mk -> as_locked s = false -> ex_ok (mk_exchange mk) -> in_u32 (req_quantity r) ->
  let (a, mk') := market_step now (XSubmit r) mk in
  exists s', submit_order now start finish r s = (outcome_of id a, s') /\ reached d0 s a s' mk'.
Proof.
  intros HS Hl HX Hq. unfold market_step, submit_order, with_lock. rewrite Hl.
  rewrite bind_change, bind_reading.
  change (as_risk (count_submitted (set_locked true s))) with (as_risk s). rewrite (sh_risk _ _ _ HS).
  destruct (allow r (mk_risk mk)); cbn [negb].
  - pose proof (ex_step_ok (XSubmit r) (mk_exchange mk) HX Hq) as HX'.
    destruct (commands_return (XSubmit r) (mk_exchange mk) HX Hq) as [b Eb]; [done|].
    destruct (ex_exec (XSubmit r) (mk_exchange mk)) as [r0 ex] eqn:Ec. cbn in Eb, HX'. subst r0.
    rewrite (market_exec_eq now _ (count_order 0 mk) _ _ Ec). cbv zeta.
    change (mk_exchange (count_order 0 mk)) with (mk_exchange mk). set (evs := new_events (mk_exchange mk) ex).
    set (s0 := count_submitted (set_locked true s)).
    set (s1 := foldl (publish_report now) (set_exchange ex s0) (reports_before_trade evs)).
    set (mk1 := with_published now (reports_before_trade evs) (with_exchange ex (count_order 0 mk))).
    assert (shows d0 s1 mk1) as HS1 by by apply publish_reports_shows, shows_exchange, count_order_shows, shows_locked.
    destruct (publish_reports_rest now (reports_before_trade evs) (set_exchange ex s0)) as (L1 & R1 & _). fold s1 in L1, R1.
    fold s0. assert (on_exchange now (submit r) s0 = (if trade_free evs then Returned b else Hung, s1)) as EX.
    { rewrite (on_exchange_runs now _ s0 b ex) by (done || by change (as_exchange s0) with (as_exchange s); rewrite (sh_exchange _ _ _ HS)).
      change (as_exchange s0) with (as_exchange s). by rewrite (sh_exchange _ _ _ HS). }
    destruct (trade_free evs).
    + rewrite (bind_run _ _ _ _ _ EX). destruct (after_submit d0 start finish r b s1 mk1 HS1 HX') as (s2 & -> & HS2 & R2 & L2).
      exists (set_locked false s2). split; [done|]. 
      split; [|done|destruct R1 as [A1 B1], R2 as [A2 B2]; split; [exact (eq_trans A2 A1)|exact (eq_trans B2 B1)]|].
      * apply shows_locked. destruct b; cbn [answer_of outcome_status]; [rewrite bool_decide_eq_true_2 by done|rewrite bool_decide_eq_false_2 by done]; done.
      * by destruct b; cbn [answer_of outcome_status]; case_bool_decide.
    + rewrite (bind_hangs _ _ _ _ EX). exists s1. split; [done|]. rewrite bool_decide_eq_false_2 by done. split; [done|by rewrite L1|done|done].
  - exists (set_locked false (count_rejected (count_submitted (set_locked true s)))). split; [done|].
    split; [|done|done|done]. by apply shows_locked, refuse_order_shows, shows_locked.
Qed.

(** ** The routes *)

Definition symbol_target (symbol tail : str) : str := lit "/api/symbols/" ++ symbol ++ lit "/" ++ tail.

Lemma symbol_route_target symbol tail : "/"%char ∉ symbol ->
  symbol_route (symbol_target symbol tail) = (x ← stoul symbol; Ok (Some (u32 x, tail))).
Proof.
  intros Hs. unfold symbol_route, symbol_target. rewrite drop_app_length.
  change (lit "/" ++ tail) with ("/"%char :: tail). by rewrite split_at_first.
Qed.

Lemma ends_with_suffix p x : ends_with p (x ++ p) = true.
Proof. unfold ends_with. rewrite reverse_app. apply starts_with_prefix. Qed.

Lemma contains_part p x y : contains p (x ++ p ++ y) = true.
Proof.
  induction x as [|c x IH]; cbn [app contains].
  - destruct (p ++ y) eqn:E; cbn [contains]; rewrite <- E, starts_with_prefix; done.
  - rewrite IH. apply orb_true_r.
Qed.

Lemma target_not_post symbol tail name r : rq_target r = symbol_target symbol tail ->
  take 12 (lit name) <> take 12 (lit "/api/symbols/") -> is_post name r = false.
Proof.
  intros E Hn. unfold is_post. apply andb_false_iff. right. apply bool_decide_eq_false. rewrite E. intros E'. apply Hn.
  by rewrite <- E'.
Qed.

Lemma handle_symbol_control k symbol tail : tail = lit "halt" \/ tail = lit "resume" -> "/"%char ∉ symbol ->
  forall s r, rq_verb r = VerbPost -> rq_target r = symbol_target symbol tail ->
  (post_symbol_control (rq_target r) s).1 = Returned (Some k) ->
  handle_request r s = post_symbol_control (rq_target r) s.
Proof.
  intros Ht Hs s r Ev Et Hk. unfold handle_request.
  rewrite !(target_not_post symbol tail _ r Et) by done. unfold is_symbol_status. rewrite Ev. cbn [bool_decide decide].
  assert (is_symbol_control r = true) as ->.
  { unfold is_symbol_control. rewrite Ev, Et. unfold symbol_target at 1. rewrite starts_with_prefix.
    destruct Ht as [-> | ->]; unfold symbol_target;
      [change (lit "/" ++ lit "halt") with (lit "/halt")|change (lit "/" ++ lit "resume") with (lit "/resume")];
      rewrite app_assoc, ends_with_suffix; [done|apply orb_true_r]. }
  rewrite bool_decide_eq_false_2 by done. cbn [andb].
  destruct (post_symbol_control (rq_target r) s) as [o s'] eqn:E. cbn in Hk. subst o.
  rewrite bool_decide_eq_false_2 by done. cbn [andb]. by rewrite (bind_run _ _ _ _ _ E).
Qed.

Lemma handle_price_band k symbol : "/"%char ∉ symbol ->
  forall s r, rq_verb r = VerbPost \/ rq_verb r = VerbDelete -> rq_target r = symbol_target symbol (lit "price-band") ->
  (price_band (rq_verb r) (rq_target r) (rq_body r) s).1 = Returned (Some k) ->
  handle_request r s = price_band (rq_verb r) (rq_target r) (rq_body r) s.
Proof.
  intros Hs s r Ev Et Hk. unfold handle_request.
  rewrite !(target_not_post symbol _ _ r Et) by done. rewrite bool_decide_eq_false_2 by (by destruct Ev as [-> | ->]).
  assert (is_symbol_status r = false) as ->.
  { unfold is_symbol_status. by rewrite bool_decide_eq_false_2 by (by destruct Ev as [-> | ->]). }
  assert (is_symbol_control r = false) as ->.
  { unfold is_symbol_control. rewrite Et. unfold symbol_target, ends_with.
    change (lit "/" ++ lit "price-band") with (lit "/price-band"). rewrite !(app_assoc (lit "/api/symbols/")), !reverse_app.
    change (reverse (lit "/price-band")) with (lit "dnab-ecirp/"). apply andb_false_r. }
  rewrite bind_ret. assert (is_price_band r = true) as ->.
  { unfold is_price_band. rewrite Et. unfold symbol_target at 1. rewrite starts_with_prefix. unfold symbol_target.
    change (lit "/" ++ lit "price-band") with (lit "/price-band").
    rewrite <- (app_nil_r (lit "/price-band")) at 2. by rewrite (app_assoc (lit "/api/symbols/")), contains_part. }
  destruct (price_band (rq_verb r) (rq_target r) (rq_body r) s) as [o s'] eqn:E. cbn in Hk. subst o.
  by rewrite (bind_run _ _ _ _ _ E).
Qed.

(** ** One request *)

(** A command that calls no handler. *)
Lemma control_reached d0 now c s mk r ex :
  shows d0 s mk -> as_locked s = false -> ex_ok (mk_exchange mk) -> ex_cmd_ok c ->
  ex_exec c (mk_exchange mk) = (r, ex) -> ex_log ex = ex_log (mk_exchange mk) ->
  exists mk', market_exec now c mk = (Some (answer_of r), mk') /\ reached d0 s (Some (answer_of r)) (set_exchange ex s) mk'.
Proof.
  intros HS Hl HX HC E EL. pose proof (ex_step_ok c _ HX HC) as HX'. rewrite E in HX'.
  rewrite (market_exec_eq _ _ _ _ _ E). cbv zeta.
  assert (new_events (mk_exchange mk) ex = []) as -> by by unfold new_events; rewrite EL, drop_all.
  eexists. split; [done|]. split; [|done|done|done]. apply (publish_reports_shows d0 now []). by apply shows_exchange.
Qed.

Lemma refused_reached d0 s mk : shows d0 s mk -> as_locked s = false -> ex_ok (mk_exchange mk) ->
  reached d0 s (Some bad_request) s mk.
Proof. by split. Qed.

Lemma order_request_quantity fields side type r : order_request fields side type = Ok r -> in_u32 (req_quantity r).
Proof.
  unfold order_request. unfold mbind, result_bind. repeat (case_match; try done; []). intros <-%(inj Ok). apply u32_range.
Qed.

Lemma replace_request_quantity fields r : replace_request fields = Ok r -> in_u32 (rep_new_quantity r).
Proof.
  unfold replace_request. unfold mbind, result_bind. repeat (case_match; try done; []). intros <-%(inj Ok). apply u32_range.
Qed.

(** The answer and the next state of a request. *)
Definition agrees d0 s x mk : Prop :=
  let (a, mk') := market_answer x mk in
  exists s', handle_request (to_request x) s = (outcome_of Some a, s') /\ reached d0 s a s' mk'.

Lemma bind_ok {A B} (a : A) (k : A -> API (DB := DB) B) s : (may_throw (Ok a) ≫= k) s = k a s.
Proof. done. Qed.

Lemma answered_outcome (m : API HttpStatus) s a s' : m s = (outcome_of id a, s') -> answered m s = (outcome_of Some a, s').
Proof. intros E. unfold answered, mbind, api_bind. rewrite E. by destruct a. Qed.

Section request.
Context (d0 : DropCopyStore DB) (s : ApiState (DB := DB)) (mk : Market) (ck : Clocks).
Hypotheses (HS : shows d0 s mk) (Hl : as_locked s = false) (HX : ex_ok (mk_exchange mk)).

Lemma cancel_agrees body : agrees d0 s (ck, CancelBody body) mk.
Proof.
  unfold agrees, market_answer. cbn [fst snd meaning request_body].
  destruct (cancel_request (parse_json_like_body body)) as [c|e] eqn:E.
  - pose proof (locked_call d0 (ck_now ck) (XCancel c) s mk HS Hl HX I ltac:(done)) as HL.
    cbn [market_step]. destruct (market_exec _ _ mk) as [a mk']. destruct HL as (s' & EL & HR). exists s'. split; [|done].
    change (answered (post_cancel (ck_now ck) body) s = (outcome_of Some a, s')).
    unfold answered, post_cancel, mbind at 1, api_bind at 1, catching. rewrite E.
    unfold may_throw. rewrite (bind_run _ _ s c s) by done. cbn [ex_exec] in EL. rewrite EL. by destruct a.
  - exists s. split; [|by apply refused_reached].
    change (answered (post_cancel (ck_now ck) body) s = (Returned (Some bad_request), s)).
    unfold answered, post_cancel. rewrite E. done.
Qed.

Lemma replace_agrees body : agrees d0 s (ck, ReplaceBody body) mk.
Proof.
  unfold agrees, market_answer. cbn [fst snd meaning request_body].
  destruct (replace_request (parse_json_like_body body)) as [c|e] eqn:E.
  - pose proof (locked_call d0 (ck_now ck) (XReplace c) s mk HS Hl HX (replace_request_quantity _ _ E) ltac:(done)) as HL.
    cbn [market_step]. destruct (market_exec _ _ mk) as [a mk']. destruct HL as (s' & EL & HR). exists s'. split; [|done].
    change (answered (post_replace (ck_now ck) body) s = (outcome_of Some a, s')).
    unfold answered, post_replace, mbind at 1, api_bind at 1, catching. rewrite E.
    unfold may_throw. rewrite (bind_run _ _ s c s) by done. cbn [ex_exec] in EL. rewrite EL. by destruct a.
  - exists s. split; [|by apply refused_reached].
    change (answered (post_replace (ck_now ck) body) s = (Returned (Some bad_request), s)).
    unfold answered, post_replace. rewrite E. done.
Qed.

(** Handlers that only call the exchange, and a route that leads to one. *)
Lemma control_agrees q c r ex : meaning q = Some c -> (forall r, c <> XSubmit r) -> ex_cmd_ok c ->
  ex_exec c (mk_exchange mk) = (r, ex) -> ex_log ex = ex_log (mk_exchange mk) ->
  handle_request (to_request (ck, q)) s = (Returned (Some (answer_of r)), set_exchange ex s) -> agrees d0 s (ck, q) mk.
Proof.
  intros Em Hc HC E EL EH. unfold agrees, market_answer. cbn [fst snd]. rewrite Em.
  destruct (control_reached d0 (ck_now ck) c s mk r ex HS Hl HX HC E EL) as (mk' & E' & HR).
  assert (market_step (ck_now ck) c mk = market_exec (ck_now ck) c mk) as -> by by destruct c; try done; destruct (Hc r0).
  rewrite E'. by eexists.
Qed.

Lemma system_agrees q : q = HaltSystem \/ q = ResumeSystem -> agrees d0 s (ck, q) mk.
Proof.
  intros [-> | ->].
  - apply (control_agrees _ XHaltAll (Ok true) (halt_all (mk_exchange mk))); try done.
    rewrite <- (sh_exchange _ _ _ HS). reflexivity.
  - apply (control_agrees _ XResumeAll (Ok true) (resume_all (mk_exchange mk))); try done.
    rewrite <- (sh_exchange _ _ _ HS). reflexivity.
Qed.

Lemma refused_agrees q : meaning q = None -> handle_request (to_request (ck, q)) s = (Returned (Some bad_request), s) ->
  agrees d0 s (ck, q) mk.
Proof.
  intros Em EH. unfold agrees, market_answer. cbn [fst snd]. rewrite Em. exists s. split; [done|by apply refused_reached].
Qed.

Lemma order_agrees body : agrees d0 s (ck, OrderBody body) mk.
Proof.
  assert (forall a s', post_order (ck_now ck) (ck_start ck) (ck_finish ck) body s = (outcome_of id a, s') ->
    handle_request (to_request (ck, OrderBody body)) s = (outcome_of Some a, s')) as EH by apply answered_outcome.
  assert (meaning (OrderBody body) = None -> post_order (ck_now ck) (ck_start ck) (ck_finish ck) body s = (Returned bad_request, s) ->
    agrees d0 s (ck, OrderBody body) mk) as HR.
  { intros E1 E2. apply refused_agrees; [done|]. by apply (EH (Some bad_request)). }
  revert EH HR. unfold post_order, agrees, market_answer. cbn [fst snd meaning request_body]. cbv zeta.
  generalize (parse_json_like_body body) as fields. intros fields EH HR.
  destruct (at_field "side" fields) as [side|]; [|by apply HR].
  destruct (at_field "type" fields) as [type|]; [|by apply HR].
  destruct (parse_side side) as [sd|] eqn:E1; [|apply HR; [done|]; unfold catching; rewrite !bind_ok, E1; by case_match].
  destruct (parse_type type) as [ty|] eqn:E2; [|apply HR; [done|]; unfold catching; by rewrite !bind_ok, E1, E2].
  cbn [mbind option_bind] in *.
  destruct (order_request fields sd ty) as [r|] eqn:E;
    [|apply HR; [done|]; unfold catching; by rewrite !bind_ok, E1, E2, E].
  pose proof (submit_order_runs d0 (ck_now ck) (ck_start ck) (ck_finish ck) r s mk HS Hl HX (order_request_quantity _ _ _ _ E)) as HL.
  destruct (market_step _ _ mk) as [a mk']. destruct HL as (s' & EL & HD). exists s'. split; [|done].
  apply EH. unfold catching. rewrite !bind_ok, E1, E2, E, bind_ok, EL. by destruct a.
Qed.

Lemma policy_agrees body : agrees d0 s (ck, PolicyBody body) mk.
Proof.
  assert (handle_request (to_request (ck, PolicyBody body)) s = answered (post_stp body) s) as EH by done.
  unfold answered, post_stp, mbind at 1, api_bind at 1, catching, may_throw in EH.
  destruct (at_field "policy" (parse_json_like_body body)) as [text|] eqn:E1.
  - rewrite (bind_run _ _ s text s) in EH by done. destruct (parse_policy text) as [p|] eqn:E2.
    + apply (control_agrees _ (XPolicy p) (Ok true) (Exchange.set_stp_policy p (mk_exchange mk))); try done.
      * cbn [meaning request_body]. by rewrite E1, E2.
      * rewrite EH, <- (sh_exchange _ _ _ HS). done.
    + apply refused_agrees; [|done]. cbn [meaning request_body]. by rewrite E1, E2.
  - apply refused_agrees; [|done]. cbn [meaning request_body]. by rewrite E1.
Qed.

Lemma symbol_control_agrees q symbol (halting : bool) : q = (if halting then HaltOf else ResumeOf) symbol ->
  "/"%char ∉ symbol -> agrees d0 s (ck, q) mk.
Proof.
  intros -> Hs. set (tail := if halting then lit "halt" else lit "resume"). set (q := (if halting then HaltOf else ResumeOf) symbol).
  assert (request_target q = symbol_target symbol tail) as Et by by destruct halting.
  assert (forall k s', post_symbol_control (symbol_target symbol tail) s = (Returned (Some k), s') ->
    handle_request (to_request (ck, q)) s = (Returned (Some k), s')) as EH.
  { intros k s' E. assert (rq_target (to_request (ck, q)) = symbol_target symbol tail) as Et' by exact Et.
    rewrite (handle_symbol_control k symbol tail); rewrite ?Et', ?E; try done; by destruct halting; auto. }
  unfold post_symbol_control in EH. rewrite symbol_route_target in EH by done.
  destruct (stoul symbol) as [x|e] eqn:Ex; cbn [mbind result_bind] in EH.
  - set (c := (if halting then XHalt else XResume) (u32 x)).
    apply (control_agrees q c (Ok true) ((if halting then halt_symbol else resume_symbol) (u32 x) (mk_exchange mk)));
      try (by destruct halting); [cbn; by destruct halting; cbn; rewrite Ex|].
    apply EH. rewrite <- (sh_exchange _ _ _ HS). by destruct halting.
  - apply refused_agrees; [destruct halting; cbn; by rewrite Ex|]. by apply EH.
Qed.

(** The route of a price band. *)
Lemma band_request q symbol k s' : "/"%char ∉ symbol -> request_target q = symbol_target symbol (lit "price-band") ->
  request_verb q = VerbPost \/ request_verb q = VerbDelete ->
  price_band (request_verb q) (symbol_target symbol (lit "price-band")) (request_body q) s = (Returned (Some k), s') ->
  handle_request (to_request (ck, q)) s = (Returned (Some k), s').
Proof.
  intros Hs Et Ev E. assert (rq_target (to_request (ck, q)) = symbol_target symbol (lit "price-band")) as Et' by exact Et.
  pose proof (handle_price_band k symbol Hs s (to_request (ck, q)) Ev Et') as HB. rewrite Et' in HB.
  cbn [to_request rq_verb rq_body fst snd] in HB. rewrite E in HB. by apply HB.
Qed.

Lemma clear_band_agrees symbol : "/"%char ∉ symbol -> agrees d0 s (ck, NoBandOf symbol) mk.
Proof.
  intros Hs. pose proof (fun k s' => band_request (NoBandOf symbol) symbol k s' Hs eq_refl (or_intror eq_refl)) as EH.
  unfold price_band in EH. rewrite symbol_route_target in EH by done.
  destruct (stoul symbol) as [x|e] eqn:Ex; cbn [mbind result_bind] in EH.
  - apply (control_agrees _ (XClearBand (u32 x)) (Ok true) (clear_price_band (u32 x) (mk_exchange mk)));
      try done; [cbn; by rewrite Ex|]. apply EH. by rewrite <- (sh_exchange _ _ _ HS).
  - apply refused_agrees; [cbn; by rewrite Ex|]. by apply EH.
Qed.

Lemma band_agrees symbol body : "/"%char ∉ symbol -> agrees d0 s (ck, BandOf symbol body) mk.
Proof.
  intros Hs. pose proof (fun k s' => band_request (BandOf symbol body) symbol k s' Hs eq_refl (or_introl eq_refl)) as EH.
  pose proof (refused_agrees (BandOf symbol body)) as HR.
  unfold price_band in EH. rewrite symbol_route_target in EH by done. cbn [request_verb request_body meaning] in EH, HR.
  destruct (stoul symbol) as [x|e] eqn:Ex; [|by apply HR, EH]. cbn [mbind result_bind] in EH.
  rewrite bool_decide_eq_false_2 in EH by (intros H'; by destruct (H' eq_refl)).
  cbv zeta in EH.
  destruct (at_field "referencePrice" (parse_json_like_body body) ≫= stoll) as [p|] eqn:E1; [|by apply HR, EH].
  destruct (at_field "bandPercent" (parse_json_like_body body) ≫= stod) as [y|] eqn:E2; [|by apply HR, EH].
  set (c := XBand (u32 x) p y.1). destruct (set_price_band (u32 x) p y.1 (mk_exchange mk)) as [r ex] eqn:EB.
  apply (control_agrees _ c (match r with Ok _ => Ok true | Throw e => Throw e end) ex); try done.
  - cbn [meaning request_body]. by rewrite Ex, E1, E2.
  - unfold c. cbn [ex_exec]. unfold mbind, st_bind. rewrite EB. by destruct r.
  - unfold set_price_band in EB. case_match; by injection EB as <- <-.
  - apply EH. unfold mbind at 1, api_bind at 1, catching. rewrite !bind_ok. unfold mbind, api_bind, store_band, may_throw.
    rewrite (sh_exchange _ _ _ HS), EB. by destruct r.
Qed.
End request.

Lemma request_agrees d0 s mk x : request_ok x.2 -> shows d0 s mk -> as_locked s = false -> ex_ok (mk_exchange mk) ->
  agrees d0 s x mk.
Proof.
  destruct x as [ck q]. cbn [snd]. intros Hq HS Hl HX. destruct q; cbn in Hq.
  - by apply order_agrees.
  - by apply cancel_agrees.
  - by apply replace_agrees.
  - apply system_agrees; auto.
  - apply system_agrees; auto.
  - by apply (symbol_control_agrees d0 s mk ck HS Hl HX _ symbol true).
  - by apply (symbol_control_agrees d0 s mk ck HS Hl HX _ symbol false).
  - by apply band_agrees.
  - by apply clear_band_agrees.
  - by apply policy_agrees.
Qed.

(** A request that the market does not answer is the last one. *)
Lemma serve_agrees d0 qs : forall s mk, Forall (fun x => request_ok x.2) qs ->
  shows d0 s mk -> as_locked s = false -> ex_ok (mk_exchange mk) ->
  let (answers, s') := serve (to_request <$> qs) s in
  let (expected, mk') := market_run qs mk in
  answers = Some <$> expected /\ shows d0 s' mk' /\ same_rest s s' /\
  as_locked s' = bool_decide (length answers < length qs)%nat.
Proof.
  induction qs as [|x qs IH]; intros s mk Hq HS Hl HX; [by cbn; rewrite Hl|].
  apply Forall_cons in Hq as [Hx Hq]. cbn [fmap list_fmap serve market_run].
  pose proof (request_agrees d0 s mk x Hx HS Hl HX) as HA. unfold agrees in HA.
  destruct (market_answer x mk) as [[a|] mk1]; destruct HA as (s1 & E & HR); rewrite E; cbn [outcome_of].
  - specialize (IH s1 mk1 Hq (re_shows _ _ _ _ _ HR) (re_locked _ _ _ _ _ HR) (re_ok _ _ _ _ _ HR)).
    destruct (serve (to_request <$> qs) s1) as [answers s2], (market_run qs mk1) as [expected mk2].
    destruct IH as (-> & HS2 & [R1 R2] & L2), (re_rest _ _ _ _ _ HR) as [R3 R4].
    split; [done|]. split; [done|]. split; [split; congruence|]. rewrite L2. apply bool_decide_ext. cbn. lia.
  - split; [done|]. split; [apply HR|]. split; [apply HR|]. rewrite (re_locked _ _ _ _ _ HR). apply bool_decide_ext. cbn. split; [lia|done].
Qed.

End server.
Definition market0 (capacity : nat) : Market := {|
  mk_exchange := new_exchange capacity; mk_risk := new_risk_engine Risk.default_limits; mk_submitted := 0;
  mk_refused := 0; mk_published := []; mk_metadata := ∅ |}.

(** C36: the API server answers requests about the market as the exchange and the
    risk checks alone would.  For any sequence of orders, cancellations,
    replacements and controls, whatever their bodies, with an insertion into the
    drop copy that does not fail: a body that cannot be read and a refused price
    band are answered "bad request" and change nothing; what the risk checks
    or the exchange refuse is answered "unprocessable"; everything else
    "ok".  The exchange, the risk state, the counters, the feed of the last 100
    reports, the orders kept for clients and the drop copy are those of the
    exchange run alone, every report published once and in order, and the orders
    and the sampler are untouched.  The first request that trades is never
    answered, nor is any after it: its handler waits for a mutex that the
    request holds. *)
Theorem server_refines_market {DB} `{EventTable DB} (d0 : DropCopyStore DB) capacity latency qs :
  Z.of_nat capacity <= npos -> (forall r (db : DB), exists db', insert_row r db = inr db') ->
  Forall (fun x => request_ok x.2) qs ->
  let (answers, s) := serve (to_request <$> qs) (ApiState0 capacity d0 latency) in
  let (expected, mk) := market_run qs (market0 capacity) in
  answers = Some <$> expected /\ shows d0 s mk /\
  same_rest (ApiState0 capacity d0 latency) s /\ as_locked s = bool_decide (length answers < length qs)%nat.
Proof.
  intros Hc Hi Hq. apply (serve_agrees Hi); [done|split; done|done|by apply new_exchange_ok].
Qed.

(** ** Witnesses *)

(** A table that takes everything. *)
#[export] Instance log_table : EventTable (list Row) := {|
  create_schema := inr; insert_row r db := inr (db ++ [r]);
  newest_rows n db := inr (take (Z.to_nat n) (reverse db)); order_rows o db := inr (filter (fun r => row_order r = o) db) |}.

Definition demo_copy : DropCopyStore (list Row) := {|
  capacity_ := 10; events_ := []; events_by_order_ := ∅; incomplete_order_history_ := ∅; next_id_ := 1; database_ := [] |}.

Definition demo_latency : LatencyStats := {| maximum_samples_ := 8; series_ := ∅ |}.

Definition demo_clocks : Clocks := {| ck_now := 7; ck_start := 5; ck_finish := 6; ck_store := fun _ _ => None |}.

Definition demo_body (id client side price : string) : str :=
  lit "{orderId: " ++ lit id ++ lit ", clientId:" ++ lit client ++ lit ", side: " ++ lit side ++
  lit ", type: limit, price: " ++ lit price ++ lit ", quantity: 5, symbol: 1}".

(** A bid, a refused order, a halt, an order while halted, and a sale that trades;
    the cancellation after it is never answered. *)
Definition demo_requests : list (Clocks * MarketRequest) := pair demo_clocks <$>
  [OrderBody (demo_body "1" "7" "buy" "100"); OrderBody (lit "side: up"); HaltOf (lit "1");
   OrderBody (demo_body "2" "8" "sell" "100"); ResumeOf (lit "1"); OrderBody (demo_body "3" "8" "sell" "100");
   CancelBody (lit "orderId: 1, clientId: 7, symbol: 1")].

Definition demo_answers : list HttpStatus := [ok; bad_request; ok; unprocessable_entity; ok].

Lemma demo_requests_ok : Forall (fun x => request_ok x.2) demo_requests.
Proof.
  unfold demo_requests. cbn [fmap list_fmap].
  repeat (apply Forall_cons; split; [first [exact I|by apply (bool_decide_unpack _); vm_compute]|]). apply Forall_nil_2.
Qed.

Lemma demo_market : (market_run demo_requests (market0 8)).1 = demo_answers.
Proof. vm_compute. reflexivity. Qed.

Lemma server_refines_market_witness :
  (serve (to_request <$> demo_requests) (ApiState0 8 demo_copy demo_latency)).1 = Some <$> demo_answers.
Proof.
  pose proof (server_refines_market demo_copy 8 demo_latency demo_requests) as H.
  rewrite (surjective_pairing (serve (to_request <$> demo_requests) (ApiState0 8 demo_copy demo_latency))),
    (surjective_pairing (market_run demo_requests (market0 8))), demo_market in H.
  apply H; [done|intros r db; by eexists|]. exact demo_requests_ok.
Defined.
