(* ===== verification/ApiOrders.v ===== *)
(** * Orders, positions and halts of the API server

    What a fill does to the state of the server, what stops trading, what a restart
    brings back, and when the volatility breaker trips. *)

From stdpp Require Import gmap strings.
From S2P Require Import Prelude.
From S2P Require Import Types.
From S2P Require Import OrderBook.
From S2P Require Import BookProps.
From S2P Require Import Text.
From S2P Require Import Float.
From S2P Require Import Decimal.
From S2P Require Import LatencyStats.
From S2P Require Import MidpointHistory.
From S2P Require Import DropCopy.
From S2P Require Import Oms.
From S2P Require Import OmsProps.
From S2P Require Import OmsRecovery.
From S2P Require Import MarketDataProps.
From S2P Require Import Router.
From S2P Require Import Position.
From S2P Require Import Risk.
From S2P Require Import Exchange.
From S2P Require Import ExchangeProps.
From S2P Require Import ApiServer.
From S2P Require Import ApiServerProps.

(** ** Events of the order management system *)

(** A command makes at most one event, only when it returns.  The event carries a
    parent, and never both a fill and an update of the parent. *)
Definition one_event {A} (s : Oms) (x : result A * Oms) : Prop :=
  notified x.2 = notified s \/
  (exists a, x.1 = Ok a) /\
  exists e p, notified x.2 = notified s ++ [e] /\ ev_parent e = Some p /\ (ev_fill e <> None -> ev_type e <> ParentUpdated).

Lemma notify_one ty i c f {A} (x : A) s s1 : notified s1 = notified s -> ty <> ParentUpdated ->
  one_event s ((notify_mutation ty i c f;; mret x) s1).
Proof.
  intros E Hty. unfold mbind, st_bind, notify_mutation. destruct (parents_ s1 !! i) as [p|]; [right|by left].
  split; [by eexists|]. exists {| ev_type := ty; ev_parent := Some p; ev_child := c; ev_fill := f |}, p. rewrite <- E. done.
Qed.

Lemma set_child_status_one f j t s : one_event s (set_child_status f j t s).
Proof.
  unfold set_child_status. destruct (children_ s !! j) as [c|]; [|by left]. destruct (terminal_status _); [by left|].
  apply notify_one; [|done]. by rewrite (proj1 (refresh_notified _ _ _)).
Qed.

Lemma bind_true_one {A} (m : ST Oms A) s : one_event s (m s) -> one_event s ((m;; mret true) s).
Proof.
  unfold mbind, st_bind, one_event. destruct (m s) as [[a|e] s']; cbn; [|by intros [?|[[? ?] _]]; [left|]].
  intros [?|[_ HE]]; [by left|right; split; [by eexists|done] ].
Qed.

Lemma oms_exec_one c s : one_event s (oms_exec c s).
Proof.
  destruct c; cbn [oms_exec]; try apply set_child_status_one.
  - apply bind_true_one. unfold create_parent. case_bool_decide; [by left|].
    destruct (validate_positive _ _); [|by left]. by apply notify_one.
  - apply bind_true_one. unfold create_child. destruct (parents_ s !! _) as [p|]; [|by left].
    destruct (check_child request p); [|by left]. cbv zeta. case_match; [|by left]. by apply notify_one.
  - apply bind_true_one. unfold record_fill. destruct (children_ s !! _) as [c|]; [|by left].
    destruct (check_fill _ _ _ _); [|by left]. apply notify_one; [|done]. by rewrite (proj1 (refresh_notified _ _ _)).
  - unfold cancel_parent. destruct (parents_ s !! _) as [p|]; [|by left]. destruct (terminal_status _); [by left|].
    right. split; [by eexists|]. by do 2 eexists.
Qed.

Section server.
Context {DB : Type} `{EventTable DB}.
Implicit Types (s : ApiState (DB := DB)) (d : DropCopyStore DB) (answers : StoreAnswers).

(** ** Saving *)

Definition accepts answers : Prop := forall row st, answers row st = None.

Definition table_accepts : Prop := forall r (db : DB), exists db', insert_row r db = inr db'.

Definition put_rows (rows : list StoreRow) (st : Store) : Store := foldl (fun st row => put_row row st) st rows.

(** A run of the callback: all rows saved, or an exception that only touched the store. *)
Definition saved_rows answers rows s (x : Outcome unit * ApiState (DB := DB)) : Prop :=
  x = (Returned tt, on_orders (fun o => with_store (put_rows rows (or_store o)) o) s) \/
  ~ accepts answers /\ exists e st, x = (Threw e, on_orders (with_store st) s).

(** A run that saves, and what comes after it. *)
Lemma saves_then {B} answers rows (m : API unit) (k : unit -> API B) s (Q : Outcome B * ApiState (DB := DB) -> Prop) :
  saved_rows answers rows s (m s) ->
  (forall e st, ~ accepts answers -> Q (Threw e, on_orders (with_store st) s)) ->
  Q (k tt (on_orders (fun o => with_store (put_rows rows (or_store o)) o) s)) -> Q ((m ≫= k) s).
Proof.
  intros [E|(HA & e & st & E)] H1 H2; unfold mbind, api_bind; rewrite E; [done|]. by apply H1.
Qed.

Lemma save_row_saves answers row s : saved_rows answers [row] s (save_row answers row s).
Proof.
  unfold save_row. destruct (answers row _) as [e|] eqn:E; [right|by left].
  split; [intros HA; by rewrite HA in E|]. exists e, (or_store (as_orders s)). by destruct s as [? ? ? [] ].
Qed.

Lemma nothing_saved answers s : saved_rows answers [] s ((mret tt : API unit) s).
Proof. left. by destruct s as [? ? ? [] ]. Qed.

Lemma save_rows_saves answers rows s : saved_rows answers rows s (save_rows answers rows s).
Proof.
  revert s. induction rows as [|row rows IH]; intros s; [apply nothing_saved|]. cbn [save_rows].
  apply (saves_then answers [row]); [apply save_row_saves|intros e st HA; right; split; [done|by exists e, st]|].
  destruct (IH (on_orders (fun o => with_store (put_rows [row] (or_store o)) o) s)) as [->|(HA & e & st & ->)]; [by left|].
  right. split; [done|]. by exists e, st.
Qed.

Lemma put_children cs st : put_rows (ChildRow <$> cs) st = foldl save_child st cs.
Proof. revert st. induction cs as [|c cs IH]; intros st; [done|]. apply IH. Qed.

(** ** The callback *)

Definition fill_of (e : MutationEvent) : option (ParentOrder * OmsExecutionReport) :=
  match ev_parent e, ev_fill e with Some p, Some r => Some (p, r) | _, _ => None end.

Definition positions_of (fills : list (ParentOrder * OmsExecutionReport)) : PositionManager :=
  foldl (fun m x => apply_fill x.1 x.2 m) ∅ fills.

Definition breached_by (limits : PortfolioRiskLimits) (m : PositionManager) : bool :=
  pr_breached (evaluate limits (positions m)).

(** The state that a callback which returns leaves. *)
Definition mutated (e : MutationEvent) (s : ApiState (DB := DB)) : ApiState :=
  let o := as_orders s in
  let m := match fill_of e with Some (p, r) => apply_fill p r (or_positions o) | None => or_positions o end in
  let s := set_orders {| or_oms := or_oms o; or_store := save_event (or_oms o) (or_store o) e; or_positions := m;
                         or_limits := or_limits o |} s in
  match fill_of e with
  | Some (p, r) =>
      let s := set_drop_copy (publish (fill_event r) (as_drop_copy s)).2 s in
      if breached_by (or_limits o) m then set_exchange (halt_all (as_exchange s)) s else s
  | None => s
  end.

(** What a callback that throws leaves: all but the store and the drop copy as it was. *)
Definition dropped s s' : Prop :=
  exists st d, s' = set_drop_copy d (on_orders (with_store st) s).

(** Publishing throws only when the table refuses the row. *)
Lemma publish_event_cases e s :
  publish_event e s = (Returned tt, set_drop_copy (publish e (as_drop_copy s)).2 s) \/
  ~ table_accepts /\ exists x d, publish_event e s = (Threw x, set_drop_copy d s).
Proof.
  unfold publish_event. destruct (publish e (as_drop_copy s)) as [[[]|x] d] eqn:E; [by left|right].
  split; [|by exists x, d]. intros HI. pose proof (publish_succeeds HI e (as_drop_copy s)) as HP. by rewrite E in HP.
Qed.

Definition callback_cases answers (e : MutationEvent) s (x : Outcome unit * ApiState (DB := DB)) : Prop :=
  x = (Returned tt, mutated e s) \/
  ~ (accepts answers /\ table_accepts) /\ exists err s', x = (Threw err, s') /\ dropped s s'.

Lemma refused_callback answers e s err st : ~ accepts answers ->
  callback_cases answers e s (Threw err, on_orders (with_store st) s).
Proof. intros HA. right. split; [tauto|]. do 2 eexists. split; [done|]. by exists st, (as_drop_copy s). Qed.

Lemma child_saves answers (c : option ChildOrder) s :
  saved_rows answers (match c with Some c => [ChildRow c] | None => [] end) s
    (match c with Some c => save_row answers (ChildRow c) | None => (mret tt : API unit) end s).
Proof. destruct c; [apply save_row_saves|apply nothing_saved]. Qed.

(** The events of the system carry the parent. *)
Lemma on_mutation_cases answers e s p : ev_parent e = Some p -> (ev_fill e <> None -> ev_type e <> ParentUpdated) ->
  callback_cases answers e s (on_mutation answers e s).
Proof.
  intros Ep Hf. unfold on_mutation. rewrite Ep.
  apply (saves_then answers [ParentRow p]); [apply save_row_saves|intros err st; exact (refused_callback answers e s err st)|].
  eapply saves_then; [apply child_saves|intros err st; exact (refused_callback answers e s err st)|].
  destruct (ev_fill e) as [r|] eqn:Er.
  - specialize (Hf ltac:(done)). unfold mbind at 1, api_bind at 1.
    match goal with |- callback_cases _ _ _ (match ?x ?s1 with _ => _ end) => assert (callback_cases answers e s (x s1)) as HC end.
    { apply (saves_then answers [FillRow r]); [apply save_row_saves|intros err st; exact (refused_callback answers e s err st)|].
      match goal with |- context [publish_event ?x] => set (ev := x) end. unfold mbind, api_bind.
      match goal with |- context [publish_event ev ?x] => destruct (publish_event_cases ev x) as [->|(HT & err & d & ->)] end.
      - left. unfold mutated, save_event, fill_of. rewrite Ep, Er. unfold change, halt_if_breached, breached_by.
        match goal with |- context [pr_breached (portfolio_status ?x)] => change (portfolio_status x) with
          (evaluate (or_limits (as_orders s)) (positions (apply_fill p r (or_positions (as_orders s))))) end.
        by destruct (ev_child e), (pr_breached _), (ev_type e).
      - right. split; [tauto|]. do 2 eexists. split; [done|]. by do 2 eexists. }
    destruct HC as [->|(HN & err & s' & -> & HD)].
    + left. by destruct (ev_type e).
    + right. split; [done|]. by exists err, s'.
  - rewrite bind_ret. destruct (ev_type e) eqn:Et;
      try (left; unfold mutated, save_event, fill_of; rewrite Ep, Er, Et; by destruct (ev_child e)).
    rewrite bind_reading.
    match goal with |- callback_cases _ _ _ (save_rows answers ?rows ?s1) =>
      destruct (save_rows_saves answers rows s1) as [->|(HA & err & st & ->)] end; [|by apply (refused_callback answers e s err st)].
    left. unfold mutated, save_event, fill_of. rewrite Ep, Er, Et. unfold on_orders, with_store. cbn [as_orders set_orders or_store or_oms].
    rewrite put_children. by destruct (ev_child e).
Qed.

(** ** Commands *)

(** Whether the positions break a limit after some fill. *)
Fixpoint breach_from (limits : PortfolioRiskLimits) (m : PositionManager) (fills : list (ParentOrder * OmsExecutionReport)) : bool :=
  match fills with
  | [] => false
  | (p, r) :: fills => breached_by limits (apply_fill p r m) || breach_from limits (apply_fill p r m) fills
  end.

Lemma breach_from_snoc limits m fills p r : breach_from limits m (fills ++ [(p, r)]) =
  breach_from limits m fills || breached_by limits (apply_fill p r (foldl (fun m x => apply_fill x.1 x.2 m) m fills)).
Proof. revert m. induction fills as [|[p' r'] fills IH]; intros m; cbn; [apply orb_false_r|]. by rewrite IH, orb_assoc. Qed.

Definition fills_after (cs : list OmsCommand) : list (ParentOrder * OmsExecutionReport) := omap fill_of (notified (run cs)).

(** The fills of the events that a command makes. *)
Definition fills_of (c : OmsCommand) (x : Oms) : list (ParentOrder * OmsExecutionReport) :=
  omap fill_of (drop (length (notified x)) (notified (oms_exec c x).2)).

Definition fills_published d (fills : list (ParentOrder * OmsExecutionReport)) : DropCopyStore DB :=
  foldl (fun d x => (publish (fill_event x.2) d).2) d fills.

(** A command of the order management system, with what the store answers to its
    callback; of the fills, those of the commands that return are kept. *)
Definition order_step (x : list (ParentOrder * OmsExecutionReport) * ApiState (DB := DB)) (c : OmsCommand * StoreAnswers) :
    list (ParentOrder * OmsExecutionReport) * ApiState :=
  let (r, s) := on_oms c.2 (oms_exec c.1) x.2 in
  (x.1 ++ match r with Returned _ => fills_of c.1 (or_oms (as_orders x.2)) | _ => [] end, s).

Definition run_orders (cs : list (OmsCommand * StoreAnswers)) s : list (ParentOrder * OmsExecutionReport) * ApiState :=
  foldl order_step ([], s) cs.

(** A command either makes no event, or one whose callback runs. *)
Lemma order_step_cases fills s c answers : let x := or_oms (as_orders s) in
  let x' := (oms_exec c x).2 in let s1 := on_orders (with_oms x') s in
  notified x' = notified x /\ order_step (fills, s) (c, answers) = (fills, s1) \/
  exists e, notified x' = notified x ++ [e] /\ 
    (order_step (fills, s) (c, answers) = (fills ++ match fill_of e with Some f => [f] | None => [] end, mutated e s1) \/
     ~ (accepts answers /\ table_accepts) /\ exists s', order_step (fills, s) (c, answers) = (fills, s') /\ dropped s1 s').
Proof.
  cbv zeta. unfold order_step, on_oms, fills_of. cbn [fst snd].
  pose proof (oms_exec_one c (or_oms (as_orders s))) as HE. unfold one_event in HE.
  destruct (oms_exec c (or_oms (as_orders s))) as [r x]. cbn [fst snd] in *.
  destruct HE as [-> | [[a ->] (e & p & -> & Ep & Hf)]].
  - left. split; [done|]. rewrite drop_all. cbn [call_mutations omap list_omap]. rewrite bind_ret. by destruct r; cbn; rewrite app_nil_r.
  - right. exists e. split; [done|]. rewrite drop_app_length. cbn [call_mutations omap list_omap].
    set (s1 := on_orders (with_oms x) s). unfold mbind, api_bind.
    destruct (on_mutation_cases answers e s1 p Ep Hf) as [->|(HN & err & s' & -> & HD)]; [left; by destruct (fill_of e)|right].
    split; [done|]. exists s'. cbn. by rewrite app_nil_r.
Qed.

(** Where commands lead from [s0]. *)
Record followed (limits : PortfolioRiskLimits) (s0 : ApiState (DB := DB)) (cs : list (OmsCommand * StoreAnswers))
    (fills : list (ParentOrder * OmsExecutionReport)) (s : ApiState (DB := DB)) : Prop := {
  fo_oms : or_oms (as_orders s) = run cs.*1;
  fo_limits : or_limits (as_orders s) = limits;
  fo_positions : or_positions (as_orders s) = positions_of fills;
  fo_fills : fills `sublist_of` fills_after cs.*1;
  fo_exchange : as_exchange s = if breach_from limits ∅ fills then halt_all (as_exchange s0) else as_exchange s0;
  fo_rest : as_risk s = as_risk s0 /\ as_sampler s = as_sampler s0 /\ as_counters s = as_counters s0 /\
            as_recent s = as_recent s0 /\ as_locked s = as_locked s0;
  fo_saved : table_accepts -> Forall (fun c => accepts c.2) cs ->
    fills = fills_after cs.*1 /\ or_store (as_orders s) = (run_saving cs.*1).2 /\
    as_drop_copy s = fills_published (as_drop_copy s0) fills
}.

Lemma halt_all_twice ex : halt_all (halt_all ex) = halt_all ex.
Proof. done. Qed.

Lemma mutated_rest e s : as_risk (mutated e s) = as_risk s /\ as_sampler (mutated e s) = as_sampler s /\
  as_counters (mutated e s) = as_counters s /\ as_recent (mutated e s) = as_recent s /\ as_locked (mutated e s) = as_locked s.
Proof. unfold mutated. cbv zeta. destruct (fill_of e) as [[p r]|]; [|done]. by destruct (breached_by _ _). Qed.

Lemma mutated_parts e s : let o := as_orders s in
  as_orders (mutated e s) = {| or_oms := or_oms o; or_store := save_event (or_oms o) (or_store o) e;
    or_positions := match fill_of e with Some (p, r) => apply_fill p r (or_positions o) | None => or_positions o end;
    or_limits := or_limits o |} /\
  as_drop_copy (mutated e s) = match fill_of e with Some (p, r) => (publish (fill_event r) (as_drop_copy s)).2 | None => as_drop_copy s end /\
  as_exchange (mutated e s) = match fill_of e with
    | Some (p, r) => if breached_by (or_limits o) (apply_fill p r (or_positions o)) then halt_all (as_exchange s) else as_exchange s
    | None => as_exchange s end.
Proof. unfold mutated. cbv zeta. destruct (fill_of e) as [[p r]|]; [|done]. by destruct (breached_by _ _). Qed.

Lemma run_snoc cs c : run (cs ++ [c]) = (oms_exec c (run cs)).2.
Proof. unfold run. by rewrite foldl_app. Qed.

Lemma run_saving_snoc cs c : (run_saving (cs ++ [c])).2 = foldl (save_event (run (cs ++ [c]))) (run_saving cs).2
  (drop (length (notified (run cs))) (notified (run (cs ++ [c])))).
Proof.
  unfold run_saving. rewrite foldl_app. cbn [foldl]. unfold saving_exec at 1. cbn [snd]. fold (run_saving cs).
  by rewrite run_saving_state, run_snoc.
Qed.

Lemma fills_after_snoc cs c e : notified (run (cs ++ [c])) = notified (run cs) ++ [e] ->
  fills_after (cs ++ [c]) = fills_after cs ++ match fill_of e with Some f => [f] | None => [] end.
Proof. intros EN. unfold fills_after. rewrite EN, omap_app. cbn. by destruct (fill_of e). Qed.

Lemma followed_silent limits s0 cs c fills s : followed limits s0 cs fills s ->
  notified (run (cs.*1 ++ [c.1])) = notified (run cs.*1) ->
  followed limits s0 (cs ++ [c]) fills (on_orders (with_oms (run (cs.*1 ++ [c.1]))) s).
Proof.
  intros [] EN. assert (fills_after (cs.*1 ++ [c.1]) = fills_after cs.*1) as EF by (unfold fills_after; by rewrite EN).
  split; rewrite ?fmap_app; cbn [fmap list_fmap]; rewrite ?EF; try done.
  intros HT [HA _]%Forall_app. rewrite run_saving_snoc, EN, drop_all. by apply fo_saved0.
Qed.

Lemma followed_mutated limits s0 cs c fills s e : followed limits s0 cs fills s ->
  notified (run (cs.*1 ++ [c.1])) = notified (run cs.*1) ++ [e] ->
  followed limits s0 (cs ++ [c]) (fills ++ match fill_of e with Some f => [f] | None => [] end)
    (mutated e (on_orders (with_oms (run (cs.*1 ++ [c.1]))) s)).
Proof.
  intros HF EN. set (s1 := on_orders _ s). destruct (mutated_parts e s1) as (P1 & P2 & P3), (mutated_rest e s1) as (R1 & R2 & R3 & R4 & R5).
  pose proof (fills_after_snoc _ _ _ EN) as EF. destruct HF. change (or_positions (as_orders s1)) with (or_positions (as_orders s)) in *.
  change (or_limits (as_orders s1)) with (or_limits (as_orders s)) in *. rewrite fo_positions0, fo_limits0 in *.
  split; rewrite ?fmap_app; cbn [fmap list_fmap]; rewrite ?P1, ?P2, ?P3, ?EF; cbn [or_oms or_store or_positions or_limits]; try done.
  - destruct (fill_of e) as [[p r]|]; [|by rewrite app_nil_r]. unfold positions_of. by rewrite foldl_app.
  - by apply sublist_app.
  - change (as_exchange s1) with (as_exchange s). rewrite fo_exchange0. destruct (fill_of e) as [[p r]|]; [|by rewrite app_nil_r].
    rewrite breach_from_snoc. fold (positions_of fills). by destruct (breach_from _ _ _), (breached_by _ _).
  - by rewrite R1, R2, R3, R4, R5.
  - intros HT [HA _]%Forall_app. destruct (fo_saved0 HT HA) as (F1 & F2 & F3). split; [by rewrite F1|].
    rewrite run_saving_snoc, EN, drop_app_length. split; [cbn [foldl]; by rewrite <- F2|].
    change (as_drop_copy s1) with (as_drop_copy s). rewrite F3. unfold fills_published. rewrite foldl_app.
    by destruct (fill_of e) as [[p r]|].
Qed.

Lemma followed_dropped limits s0 cs c fills s s' e : followed limits s0 cs fills s ->
  notified (run (cs.*1 ++ [c.1])) = notified (run cs.*1) ++ [e] -> ~ (accepts c.2 /\ table_accepts) ->
  dropped (on_orders (with_oms (run (cs.*1 ++ [c.1]))) s) s' -> followed limits s0 (cs ++ [c]) fills s'.
Proof.
  intros [] EN HN (st & d & ->). pose proof (fills_after_snoc _ _ _ EN) as EF.
  split; rewrite ?fmap_app; cbn [fmap list_fmap]; rewrite ?EF; try done.
  - by apply sublist_inserts_r.
  - intros HT [_ HA]%Forall_app. rewrite Forall_singleton in HA. destruct HN. split; [exact HA|exact HT].
Qed.

Lemma followed_run limits s0 cs : as_orders s0 = {| or_oms := new_oms; or_store := (run_saving []).2; or_positions := ∅; or_limits := limits |} ->
  let x := run_orders cs s0 in followed limits s0 cs x.1 x.2.
Proof.
  intros E. cbv zeta. induction cs as [|[c answers] cs IH] using rev_ind.
  { by split; cbn; rewrite ?E. }
  unfold run_orders in *. rewrite foldl_app. cbn [foldl]. destruct (foldl order_step ([], s0) cs) as [fills s]. cbn [fst snd] in *.
  pose proof (order_step_cases fills s c answers) as HC. cbv zeta in HC. rewrite (fo_oms _ _ _ _ _ IH), <- run_snoc in HC.
  destruct HC as [[EN ->] | (e & EN & [-> | (HN & s' & -> & HD)])].
  - by apply (followed_silent _ _ _ (c, answers)).
  - by apply (followed_mutated _ _ _ (c, answers)).
  - by eapply (followed_dropped _ _ _ (c, answers)).
Qed.

End server.

(** ** Halted *)

Lemma ex_exec_halted c ex : c <> XResumeAll -> globally_halted_ ex = true -> globally_halted_ (ex_exec c ex).2 = true.
Proof.
  intros Hc Hh. destruct c; cbn [ex_exec]; try done.
  - unfold submit. repeat (case_match; [done|]). unfold with_book. by destruct (OrderBook.submit r _).
  - unfold cancel, with_book. by destruct (OrderBook.cancel r _).
  - unfold replace, with_book. by destruct (OrderBook.replace r _).
  - unfold mbind, st_bind, set_price_band. by destruct (_ || _).
Qed.

Lemma market_exec_exchange now c mk : mk_exchange (market_exec now c mk).2 = (ex_exec c (mk_exchange mk)).2.
Proof. unfold market_exec. by destruct (ex_exec c _). Qed.

Lemma market_step_halted now c mk : c <> XResumeAll -> globally_halted_ (mk_exchange mk) = true ->
  globally_halted_ (mk_exchange (market_step now c mk).2) = true.
Proof.
  intros Hc Hh. destruct c; cbn [market_step]; try (rewrite market_exec_exchange; by apply ex_exec_halted).
  destruct (allow _ _); [|done]. pose proof (market_exec_exchange now (XSubmit r) (count_order 0 mk)) as E.
  destruct (market_exec _ _ _) as [a mk']. cbn [snd] in *.
  assert (globally_halted_ (mk_exchange mk') = true) by (rewrite E; by apply ex_exec_halted). by case_bool_decide.
Qed.

Lemma order_refused now r mk : globally_halted_ (mk_exchange mk) = true -> (market_step now (XSubmit r) mk).1 <> Some ok.
Proof.
  intros Hh. cbn [market_step]. destruct (allow _ _); [|done]. unfold market_exec. cbn [ex_exec]. unfold submit, halted.
  change (mk_exchange (count_order 0 mk)) with (mk_exchange mk). rewrite Hh. cbn [orb]. by case_match.
Qed.

Lemma meaning_resume q : meaning q = Some XResumeAll -> q = ResumeSystem.
Proof.
  destruct q; cbn [meaning]; try done; try (by case_match); try (by repeat case_match).
  - repeat case_match; try done. cbn. destruct (parse_side _); [|done]. cbn. destruct (parse_type _); [|done]. cbn. by case_match.
  - case_match; [|done]. by destruct (parse_policy _).
Qed.

Lemma halted_run qs : forall mk, Forall (fun x => x.2 <> ResumeSystem) qs -> globally_halted_ (mk_exchange mk) = true ->
  let (answers, mk') := market_run qs mk in
  globally_halted_ (mk_exchange mk') = true /\
  forall i ck body, qs !! i = Some (ck, OrderBody body) -> answers !! i <> Some ok.
Proof.
  induction qs as [|[ck q] qs IH]; intros mk Hq Hh; [done|]. apply Forall_cons in Hq as [Hn Hq]. cbn [snd] in Hn.
  cbn [market_run]. pose proof (fun c E => market_step_halted (ck_now ck) c mk E Hh) as HS.
  assert (forall c, meaning q = Some c -> c <> XResumeAll) as HM by (intros c E ->; by apply Hn, meaning_resume).
  assert (globally_halted_ (mk_exchange (market_answer (ck, q) mk).2) = true) as HA.
  { unfold market_answer. cbn [fst snd]. destruct (meaning q) as [c|]; [by apply HS, HM|done]. }
  assert (forall body, q = OrderBody body -> (market_answer (ck, q) mk).1 <> Some ok) as HO.
  { intros body ->. unfold market_answer. cbn [fst snd]. destruct (meaning _) as [c|] eqn:E; [|done].
    cbn [meaning] in E. repeat case_match; try done. cbn in E. destruct (parse_side _); [|done]. cbn in E.
    destruct (parse_type _); [|done]. cbn in E. case_match; [|done]. injection E as <-. by apply order_refused. }
  destruct (market_answer (ck, q) mk) as [[a|] mk']; cbn [fst snd] in *; [|done].
  specialize (IH mk' Hq HA). destruct (market_run qs mk') as [answers mk'']. destruct IH as [IH1 IH2]. split; [done|].
  intros [|i] ck' body E; cbn in E; [|by apply (IH2 i ck' body)]. injection E as -> ->. cbn. intros [= ->]. by apply (HO body).
Qed.

(** The exchange of the server before any request, with the limits a client set. *)
Definition limited {DB} `{EventTable DB} (capacity : nat) (limits : PortfolioRiskLimits) (d : DropCopyStore DB) latency : ApiState (DB := DB) :=
  on_orders (with_limits limits) (ApiState0 capacity d latency).

(** C37: a fill reaches the positions and the portfolio limits, and a breach stops
    trading.  After any commands of the order management system, whatever the store
    answers to each row that the callbacks save and whatever the table behind the
    drop copy does: the system is that of the commands alone; the positions are
    those of the fills whose command returned to its caller, a part of the recorded
    fills in their order; the exchange is halted exactly if after some of these fills
    the positions broke a limit, and otherwise as before; the limits are unchanged.  If
    nothing is refused, these are all recorded fills, the store holds what the
    commands save, and each fill was published once.  If the table takes every row and
    the exchange is halted so, then for any requests about the market other than the
    one that resumes it, no order is accepted and it stays halted. *)
Theorem breach_stops_orders {DB} `{EventTable DB} (d0 : DropCopyStore DB) capacity latency limits cs qs :
  Z.of_nat capacity <= npos -> Forall (fun x => request_ok x.2 /\ x.2 <> ResumeSystem) qs ->
  let (fills, s) := run_orders cs (limited capacity limits d0 latency) in
  let breach := breach_from limits ∅ fills in
  or_oms (as_orders s) = run cs.*1 /\ or_positions (as_orders s) = positions_of fills /\
  fills `sublist_of` fills_after cs.*1 /\ or_limits (as_orders s) = limits /\
  as_exchange s = (if breach then halt_all else id) (new_exchange capacity) /\
  (table_accepts (DB := DB) -> Forall (fun c => accepts c.2) cs ->
   fills = fills_after cs.*1 /\ or_store (as_orders s) = (run_saving cs.*1).2 /\ as_drop_copy s = fills_published d0 fills) /\
  (table_accepts (DB := DB) -> breach = true ->
   let (answers, s') := serve (to_request <$> qs) s in
   globally_halted_ (as_exchange s') = true /\
   forall i ck body, qs !! i = Some (ck, OrderBody body) -> answers !! i <> Some (Some ok)).
Proof.
  intros Hc Hq. pose proof (followed_run limits (limited capacity limits d0 latency) cs eq_refl) as HF. cbv zeta in HF.
  destruct (run_orders _ _) as [fills s]. cbn [fst snd] in HF. intros breach.
  split; [apply HF|]. split; [apply HF|]. split; [apply HF|]. split; [apply HF|].
  split; [rewrite (fo_exchange _ _ _ _ _ HF); unfold breach; by destruct (breach_from _ _ _)|]. split; [apply HF|].
  intros Hi Hb. pose (mk := with_exchange (halt_all (new_exchange capacity)) (market0 capacity)).
  destruct (fo_rest _ _ _ _ _ HF) as (F1 & F2 & F3 & F4 & F5).
  assert (shows (as_drop_copy s) s mk) as HS.
  { split; rewrite ?F1, ?F3, ?F4; try done. rewrite (fo_exchange _ _ _ _ _ HF). fold breach. by rewrite Hb. }
  assert (ex_ok (mk_exchange mk)) as HX.
  { by apply (ex_ok_same (new_exchange capacity) _ (new_exchange_ok _ Hc)). }
  pose proof (serve_agrees Hi (as_drop_copy s) qs s mk (Forall_impl _ _ _ Hq (fun x Hx => proj1 Hx)) HS F5 HX) as HR.
  pose proof (halted_run qs mk (Forall_impl _ _ _ Hq (fun x Hx => proj2 Hx)) eq_refl) as HH.
  destruct (serve (to_request <$> qs) s) as [answers s'], (market_run qs mk) as [expected mk'].
  destruct HR as (-> & HS' & _), HH as [H1 H2]. split; [by rewrite (sh_exchange _ _ _ HS')|].
  intros i ck body E Ha. apply (H2 i ck body E). rewrite list_lookup_fmap in Ha.
  destruct (expected !! i) as [a|]; [by injection Ha as -> |done].
Qed.

(** ** A restart *)

(** A parent keeps its symbol and its side. *)
Definition same_kind (p q : ParentOrder) : Prop := po_symbol q = po_symbol p /\ po_side q = po_side p.

Definition parents_kept (s s' : Oms) : Prop :=
  forall k p, parents_ s !! k = Some p -> exists q, parents_ s' !! k = Some q /\ same_kind p q.

Lemma parents_kept_same s s' : parents_ s' = parents_ s -> parents_kept s s'.
Proof. intros E k p Ep. exists p. by rewrite E. Qed.

Lemma parents_kept_insert i p q s s' : parents_ s !! i = Some p -> same_kind p q ->
  parents_ s' = <[i := q]> (parents_ s) -> parents_kept s s'.
Proof.
  intros Ei Hq E k p' Ek. rewrite E, lookup_insert. case_decide as D; [|by exists p'].
  subst k. rewrite Ei in Ek. injection Ek as <-. by exists q.
Qed.

Lemma refreshed_kind children t p : same_kind p (refreshed children t p).
Proof. unfold refreshed. by case_bool_decide. Qed.

Lemma refresh_kept i t s s1 : parents_ s1 = parents_ s -> parents_kept s (refresh_parent i t s1).
Proof.
  intros E. unfold refresh_parent. rewrite E. destruct (parents_ s !! i) as [p|] eqn:Ep; [|by apply parents_kept_same].
  eapply (parents_kept_insert i p); [done|apply refreshed_kind|]. done.
Qed.

(** What a command does to the reports is what its event says. *)
Definition reports_follow (s s' : Oms) : Prop :=
  (notified s' = notified s /\ execution_reports_ s' = execution_reports_ s) \/
  exists e, notified s' = notified s ++ [e] /\
    (ev_fill e = None /\ execution_reports_ s' = execution_reports_ s \/
     exists p r, ev_parent e = Some p /\ ev_fill e = Some r /\ execution_reports_ s' = execution_reports_ s ++ [r] /\
       parents_ s' !! xr_parent_id r = Some p).

Definition oms_follows (s s' : Oms) : Prop := parents_kept s s' /\ reports_follow s s'.

Lemma oms_follows_refl s : oms_follows s s.
Proof. split; [by apply parents_kept_same|by left]. Qed.

Lemma notify_follows ty i c {A} (x : A) s s1 : parents_kept s s1 -> notified s1 = notified s ->
  execution_reports_ s1 = execution_reports_ s -> is_Some (parents_ s1 !! i) ->
  oms_follows s ((notify_mutation ty i c None;; mret x) s1).2.
Proof.
  intros HK E1 E2 [p Ep]. unfold mbind, st_bind, notify_mutation. rewrite Ep. cbn [snd mret st_ret].
  split; [done|]. right. exists {| ev_type := ty; ev_parent := Some p; ev_child := c; ev_fill := None |}.
  split; [unfold notify; cbn; by rewrite E1|by left].
Qed.

Lemma bind_true_follows {A} (m : ST Oms A) s : oms_follows s (m s).2 -> oms_follows s ((m;; mret true) s).2.
Proof. unfold mbind, st_bind. by destruct (m s) as [[] ]. Qed.

Lemma set_child_status_follows n f j t s : oms_inv n s -> oms_follows s (set_child_status f j t s).2.
Proof.
  intros I. unfold set_child_status. destruct (children_ s !! j) as [c|] eqn:EC; [|apply oms_follows_refl].
  destruct (terminal_status _); [apply oms_follows_refl|].
  destruct (ck_parent _ _ _ _ (oi_children _ _ I _ _ EC)) as (p & Ep & _).
  match goal with |- context [refresh_parent ?i ?t ?s1] => pose proof (refresh_kept i t s s1 eq_refl) as HK;
    destruct (refresh_notified i t s1) as (E1 & _ & E3) end.
  apply notify_follows; [done|by rewrite E1|by rewrite E3|]. destruct (HK _ _ Ep) as (q & Eq & _). by exists q.
Qed.

Lemma create_parent_follows n r t s : oms_inv n s -> oms_follows s (create_parent r t s).2.
Proof.
  intros I. unfold create_parent. case_bool_decide; [apply oms_follows_refl|].
  destruct (validate_positive _ _); [|apply oms_follows_refl]. rewrite emplace_fresh by exact (fresh_parent n s I).
  apply notify_follows; try done.
  - intros k p Ep. exists p. split; [|done]. cbn. rewrite lookup_insert_ne; [done|]. intros <-.
    by rewrite (fresh_parent n s I) in Ep.
  - cbn. rewrite lookup_insert_eq. by eexists.
Qed.

Lemma create_child_follows n r s : oms_inv n s -> oms_follows s (create_child r s).2.
Proof.
  intros I. unfold create_child. destruct (parents_ s !! _) as [p|] eqn:Ep; [|apply oms_follows_refl].
  destruct (check_child r p); [|apply oms_follows_refl]. rewrite emplace_fresh by exact (fresh_child n s I).
  cbn [set_parents set_children set_next children_ next_parent_id_]. rewrite lookup_insert_eq.
  apply notify_follows; try done.
  - eapply parents_kept_insert; [exact Ep| |reflexivity]. done.
  - cbn. rewrite lookup_insert_eq. by eexists.
Qed.

Lemma record_fill_follows n j price quantity fee t s : oms_inv n s ->
  oms_follows s (record_fill j price quantity fee t s).2.
Proof.
  intros I. unfold record_fill. destruct (children_ s !! j) as [c|] eqn:EC; [|apply oms_follows_refl].
  destruct (check_fill _ _ _ _); [|apply oms_follows_refl].
  destruct (ck_parent _ _ _ _ (oi_children _ _ I _ _ EC)) as (p & Ep & _). cbv zeta.
  match goal with |- context [refresh_parent ?i ?t ?s1] => pose proof (refresh_kept i t s s1 eq_refl) as HK;
    destruct (refresh_notified i t s1) as (E1 & _ & E3); set (s2 := refresh_parent i t s1) in * end.
  destruct (HK _ _ Ep) as (q & Eq & _). unfold mbind, st_bind, notify_mutation. cbn [child_with co_parent_id]. rewrite Eq.
  cbn [snd mret st_ret]. split; [done|]. right. eexists. split; [unfold notify; cbn; by rewrite E1|]. right. do 2 eexists.
  split; [done|]. split; [done|]. split; [unfold notify; cbn; by rewrite E3|exact Eq].
Qed.

Lemma cancel_parent_follows i t s : oms_follows s (cancel_parent i t s).2.
Proof.
  unfold cancel_parent. destruct (parents_ s !! i) as [p|] eqn:Ep; [|apply oms_follows_refl].
  destruct (terminal_status _); [apply oms_follows_refl|]. split; [eapply parents_kept_insert; [exact Ep| |reflexivity]; done|].
  right. eexists. split; [done|by left].
Qed.

Lemma oms_exec_follows n c s : oms_inv n s -> oms_follows s (oms_exec c s).2.
Proof.
  intros I. destruct c; cbn [oms_exec]; try by eapply set_child_status_follows.
  - apply bind_true_follows. by eapply create_parent_follows.
  - apply bind_true_follows. by eapply create_child_follows.
  - apply bind_true_follows. by eapply record_fill_follows.
  - apply cancel_parent_follows.
Qed.

(** The fills of the events are the reports, with parents of the right kind. *)
Lemma fills_are_reports cs : Z.of_nat (length cs) < 2 ^ 64 - 1 ->
  execution_reports_ (run cs) = (fills_after cs).*2 /\
  Forall (fun x => exists q, parents_ (run cs) !! xr_parent_id x.2 = Some q /\ same_kind x.1 q) (fills_after cs).
Proof.
  induction cs as [|c cs IH] using rev_ind; intros HL; [done|]. rewrite length_app in HL. cbn in HL.
  destruct IH as [IH1 IH2]; [lia|]. pose proof (run_inv cs ltac:(lia)) as I.
  assert (run (cs ++ [c]) = (oms_exec c (run cs)).2) as ER by (unfold run; by rewrite foldl_app).
  destruct (oms_exec_follows _ c _ I) as [HK HF]. rewrite <- ER in HK, HF.
  assert (Forall (fun x => exists q, parents_ (run (cs ++ [c])) !! xr_parent_id x.2 = Some q /\ same_kind x.1 q) (fills_after cs)) as IH2'.
  { eapply Forall_impl; [exact IH2|]. intros [p r] (q & Eq & S1 & S2). destruct (HK _ _ Eq) as (q' & Eq' & S3 & S4).
    exists q'. split; [done|]. cbn in *. split; congruence. }
  unfold fills_after in *. destruct HF as [[-> ->] | (e & -> & [[Ef ->] | (p & r & Ep & Ef & -> & EP)])]; [done|..];
    rewrite omap_app; cbn [omap list_omap]; unfold fill_of at 2 4; rewrite Ef.
  - by destruct (ev_parent e); rewrite app_nil_r.
  - rewrite Ep, fmap_app, IH1. split; [done|]. apply Forall_app. split; [done|]. apply Forall_singleton.
    by exists p.
Qed.

Lemma apply_fill_kind p q r m : same_kind p q -> apply_fill q r m = apply_fill p r m.
Proof. intros [E1 E2]. unfold apply_fill. by rewrite E1, E2. Qed.

Lemma restore_positions_of s fills :
  Forall (fun x => exists q, parents_ s !! xr_parent_id x.2 = Some q /\ same_kind x.1 q) fills ->
  restore_positions s fills.*2 = positions_of fills.
Proof.
  unfold restore_positions, positions_of. generalize (∅ : PositionManager) as m. intros m HF. revert m.
  induction HF as [|[p r] fills (q & Eq & HK) _ IH]; intros m; [done|]. cbn [fmap list_fmap foldl fst snd] in *.
  unfold find_parent. rewrite Eq, (apply_fill_kind p q r m HK). apply IH.
Qed.

(** C38: a restart of the server loses nothing of the orders and the positions.
    After any commands, the constructor makes from what the store has saved (the
    parents and children in any order, the fills by their ids) the same parents,
    children, reports and next identifiers, and exactly the positions that the fills
    had made one by one, although it applies each fill with the parent as it is at
    the end and not as it was. *)
Theorem restart_restores_orders cs ps chs rs limits :
  Z.of_nat (length cs) < 2 ^ 64 - 2 ->
  let st := (run_saving cs).2 in
  ps ≡ₚ (map_to_list (st_parents st)).*2 -> chs ≡ₚ (map_to_list (st_children st)).*2 ->
  rs ≡ₚ (map_to_list (st_fills st)).*2 -> StronglySorted (fun r r' => xr_id r < xr_id r') rs ->
  let o := recover_orders st ps chs rs limits in
  let s := run cs in
  parents_ (or_oms o) = parents_ s /\ children_ (or_oms o) = children_ s /\
  execution_reports_ (or_oms o) = execution_reports_ s /\ next_parent_id_ (or_oms o) = next_parent_id_ s /\
  next_child_id_ (or_oms o) = next_child_id_ s /\ next_execution_report_id_ (or_oms o) = next_execution_report_id_ s /\
  or_positions o = positions_of (fills_after cs).
Proof.
  intros HL st HP HC HR HS o s.
  destruct (oms_recovers cs ps chs rs new_oms HL HP HC HR HS) as (E1 & E2 & E3 & E4 & E5 & E6).
  repeat (split; [done|]). destruct (fills_are_reports cs) as [F1 F2]; [lia|].
  unfold o, recover_orders. cbn [or_positions]. assert (rs = (fills_after cs).*2) as ER by (rewrite <- F1; exact E3).
  rewrite ER at 2. apply restore_positions_of. cbv zeta in E1. by rewrite E1.
Qed.

(** ** Positions without a mark

    A fill sets no mark price, and the exposures are taken at the mark. *)

Definition unmarked (m : PositionManager) : Prop := forall k p, m !! k = Some p -> mark_price p = dzero.

Lemma slot_unmarked k m : unmarked m -> mark_price (slot k m) = dzero.
Proof. intros Hm. unfold slot. destruct (m !! k) as [q|] eqn:E; [exact (Hm _ _ E)|done]. Qed.

Lemma apply_fill_unmarked p r m : unmarked m -> unmarked (apply_fill p r m).
Proof.
  intros Hm k q. unfold apply_fill, PositionManager in *. rewrite lookup_insert. case_decide; [|apply Hm]. intros [= <-].
  unfold fill_position. case_match. cbn [mark_price]. by apply slot_unmarked.
Qed.

Definition no_value (x : double) : Prop := match x with S754_zero _ | S754_nan => True | _ => False end.

Lemma no_value_mul x : no_value (dmul x dzero).
Proof. by destruct x. Qed.

Lemma no_value_add x y : no_value x -> no_value y -> no_value (dadd x y).
Proof. destruct x as [[]| | |], y as [[]| | |]; done. Qed.

Lemma no_value_abs x : no_value x -> no_value (dabs x).
Proof. by destruct x. Qed.

Lemma no_value_over x limit : no_value x -> dgt limit dzero && dgt x limit = false.
Proof. destruct x as [[]| | |], limit as [[]|[]| |[] ? ?]; done. Qed.

Lemma no_value_tiny x : no_value x -> dgt x tiny = false.
Proof. by destruct x as [[]| | |]. Qed.

Lemma unmarked_summary ps s : Forall (fun p => mark_price p = dzero) ps ->
  no_value (pf_gross_exposure s) /\ no_value (pf_net_exposure s) /\ pf_concentration s = dzero ->
  let s' := foldl add_position s ps in
  no_value (pf_gross_exposure s') /\ no_value (pf_net_exposure s') /\ pf_concentration s' = dzero.
Proof.
  intros HP. revert s. induction HP as [|p ps Hp _ IH]; intros s (H1 & H2 & H3); [done|]. apply IH.
  unfold add_position. cbv zeta. cbn [pf_gross_exposure pf_net_exposure pf_concentration]. rewrite Hp.
  split; [|split; [|done] ]; apply no_value_add; auto using no_value_abs, no_value_mul.
Qed.

(** Without marks only the loss limit can be broken, however large the positions. *)
Theorem only_losses_breach limits fills :
  let status := evaluate limits (positions (positions_of fills)) in
  pr_breached status = pr_daily_loss_breached status.
Proof.
  cbv zeta. assert (unmarked (positions_of fills)) as HU.
  { unfold positions_of. induction fills as [|[p r] fills IH] using rev_ind.
    - done.
    - rewrite foldl_app. by apply apply_fill_unmarked. }
  assert (Forall (fun p => mark_price p = dzero) (positions (positions_of fills))) as HP.
  { apply Forall_forall. intros p. unfold positions. rewrite merge_sort_Permutation, list_elem_of_fmap.
    intros ([k q] & -> & Hq%elem_of_map_to_list). by apply (HU k). }
  unfold evaluate, summarize. set (ps := positions _) in *.
  destruct (unmarked_summary ps (summary0 (Z.of_nat (length ps))) HP) as (H1 & H2 & H3); [done|].
  cbv zeta. cbn [pr_breached pr_daily_loss_breached]. unfold finish_summary.
  cbn [pf_gross_exposure pf_net_exposure pf_concentration].
  rewrite (no_value_tiny _ H1), H3, !no_value_over by (done || by apply no_value_abs). done.
Qed.

(** ** The volatility breaker *)

(** A round of the sampler whose stores answer. *)
Record Round := { rd_quotes : result (list VenueQuote); rd_now : Z }.

Definition play_round {DB} (s : ApiState (DB := DB)) (r : Round) : ApiState :=
  sampler_round (rd_quotes r) (rd_now r) (Ok tt) (Ok tt) s.

(** The midpoint of the best quotes, if both sides have one. *)
Definition midpoint_of (r : Round) : option double :=
  match rd_quotes r with
  | Throw _ => None
  | Ok quotes =>
      let best := foldl better_quotes (dzero, dzero) quotes in
      if dgt best.1 dzero && dgt best.2 dzero then Some (ddiv (dadd best.1 best.2) (dbl 2)) else None
  end.

(** The first prices of a quote with two sides. *)
Definition two_sided (q : VenueQuote) : option (double * double) :=
  match vq_bids q, vq_asks q with bid :: _, ask :: _ => Some (vl_price bid, vl_price ask) | _, _ => None end.

(** The highest bid and the lowest ask of some quotes. *)
Record best_of (l : list (double * double)) (bid ask : double) : Prop := {
  bo_bid : bid ∈ l.*1; bo_ask : ask ∈ l.*2;
  bo_best : forall x, x ∈ l -> dlt bid x.1 = false /\ dlt x.2 ask = false
}.

Definition priced (x : double * double) : Prop := price_ok x.1 /\ price_ok x.2.

(** One of two values that is not below the other. *)
Lemma best_step (lt : double -> double -> bool) (l : list double) b x :
  (forall i j k, i ∈ x :: l -> j ∈ x :: l -> k ∈ x :: l -> lt i j = true -> lt j k = true -> lt i k = true) ->
  (forall i, i ∈ x :: l -> lt i i = false) ->
  b ∈ l -> (forall y, y ∈ l -> lt b y = false) ->
  let n := if lt b x then x else b in n ∈ l ++ [x] /\ forall y, y ∈ l ++ [x] -> lt n y = false.
Proof.
  intros HT HI Hb Hl. cbv zeta. destruct (lt b x) eqn:E.
  - split; [apply elem_of_app; right; by constructor|]. intros y [Hy| ->%list_elem_of_singleton]%elem_of_app.
    + destruct (lt x y) eqn:E'; [|done]. rewrite <- (Hl y Hy). symmetry. apply (HT b x y); try done; by constructor || (constructor; done).
    + apply HI. by constructor.
  - split; [apply elem_of_app; by left|]. intros y [Hy| ->%list_elem_of_singleton]%elem_of_app; [by apply Hl|done].
Qed.

Lemma price_not_zero x : price_ok x -> deq x dzero = false.
Proof. by intros (m & e & ->)%dpositive_inv. Qed.

Lemma better_quotes_best l q bid ask x : two_sided q = Some x -> best_of l bid ask -> Forall priced (x :: l) ->
  let b := better_quotes (bid, ask) q in best_of (l ++ [x]) b.1 b.2.
Proof.
  intros Hq [B1 B2 B3] Hp. unfold better_quotes, two_sided in *.
  destruct (vq_bids q) as [|bl bs], (vq_asks q) as [|al asks]; try done. injection Hq as <-.
  set (x := (vl_price bl, vl_price al)) in *. rewrite Forall_forall in Hp.
  assert (forall y, y ∈ (x :: l).*1 -> price_ok y) as P1 by (intros y (z & -> & Hz)%list_elem_of_fmap; by apply Hp).
  assert (forall y, y ∈ (x :: l).*2 -> price_ok y) as P2 by (intros y (z & -> & Hz)%list_elem_of_fmap; by apply Hp).
  cbn [fst snd]. rewrite !price_not_zero by (try (apply P1; by right); apply P2; by right). cbn [orb].
  destruct (best_step dlt l.*1 bid (vl_price bl)) as [H1 H2]; [|by intros; apply dlt_irrefl|done| |].
  { intros i j k Hi Hj Hk. apply dlt_trans_pos; by apply P1. }
  { intros y (z & -> & Hz)%list_elem_of_fmap. by apply B3. }
  destruct (best_step (fun a b => dlt b a) l.*2 ask (vl_price al)) as [H3 H4]; [|by intros; apply dlt_irrefl|done| |].
  { intros i j k Hi Hj Hk H H'. apply (dlt_trans_pos k j i); try done; by apply P2. }
  { intros y (z & -> & Hz)%list_elem_of_fmap. by apply B3. }
  split; rewrite ?fmap_app; [exact H1|exact H3|]. intros y Hy. split.
  - apply H2. assert (l.*1 ++ [vl_price bl] = (l ++ [x]).*1) as -> by by rewrite fmap_app. by apply list_elem_of_fmap_2.
  - apply H4. assert (l.*2 ++ [vl_price al] = (l ++ [x]).*2) as -> by by rewrite fmap_app. by apply list_elem_of_fmap_2.
Qed.

Lemma first_quote q x : two_sided q = Some x -> priced x -> let b := better_quotes (dzero, dzero) q in best_of [x] b.1 b.2.
Proof.
  intros Hq Hp. unfold better_quotes, two_sided in *. destruct (vq_bids q), (vq_asks q); try done. injection Hq as <-. cbn.
  split; cbn; [by constructor|by constructor|]. intros y ->%list_elem_of_singleton. split; apply dlt_irrefl.
Qed.

Lemma one_sided_quote b q : two_sided q = None -> better_quotes b q = b.
Proof. unfold two_sided, better_quotes. by destruct (vq_bids q), (vq_asks q). Qed.

Lemma best_quotes qs : Forall priced (omap two_sided qs) -> let b := foldl better_quotes (dzero, dzero) qs in
  match omap two_sided qs with [] => b = (dzero, dzero) | _ => best_of (omap two_sided qs) b.1 b.2 end.
Proof.
  induction qs as [|q qs IH] using rev_ind; intros Hp; [done|]. rewrite omap_app in *. apply Forall_app in Hp as [H1 H2].
  specialize (IH H1). cbv zeta in *. rewrite foldl_app. cbn [foldl]. cbn [omap list_omap] in *.
  destruct (two_sided q) as [x|] eqn:Eq.
  - apply Forall_cons in H2 as [H2 _]. destruct (omap two_sided qs) as [|y l] eqn:El.
    + rewrite IH. exact (first_quote q x Eq H2).
    + destruct (foldl better_quotes (dzero, dzero) qs) as [bid ask]. cbn [app].
      apply (better_quotes_best (y :: l)); [done|done|by constructor].
  - rewrite app_nil_r, (one_sided_quote _ q Eq). exact IH.
Qed.

Definition observation (r : Round) : list (string * Z * double) :=
  match midpoint_of r with Some m => [(sampled_symbol, rd_now r, m)] | None => [] end.

(** The newest of the retained observations that is at least a window old. *)
Definition reference (bk : BreakerConfig) (seen : list (string * Z * double)) (now : Z) : option MidpointObservation :=
  last (filter (fun o => mo_timestamp o <= now - bk_window_ns bk) (retained default_retention (observed sampled_symbol seen))).

Definition trips (bk : BreakerConfig) (seen : list (string * Z * double)) (r : Round) : bool :=
  match midpoint_of r, reference bk seen (rd_now r) with
  | Some m, Some o =>
      bk_enabled bk && (bk_window_ns bk <? rd_now r) && dgt (mo_midpoint o) dzero &&
      dge (moved_percent m (mo_midpoint o)) (bk_threshold_percent bk)
  | _, _ => false
  end.

Fixpoint any_trips (bk : BreakerConfig) (seen : list (string * Z * double)) (rs : list Round) : bool :=
  match rs with
  | [] => false
  | r :: rs => let seen := seen ++ observation r in trips bk seen r || any_trips bk seen rs
  end.

Lemma halt_symbol_twice x ex : halt_symbol x (halt_symbol x ex) = halt_symbol x ex.
Proof. unfold halt_symbol. cbn. f_equal. set_solver. Qed.

(** The state of the sampler after the observations [seen]. *)
Record watched {DB} (bk : BreakerConfig) (seen : list (string * Z * double)) (s : ApiState (DB := DB)) : Prop := {
  wa_midpoints : sa_midpoints (as_sampler s) = history_run (new_history default_retention) seen;
  wa_breaker : sa_breaker (as_sampler s) = bk
}.

Lemma play_round_step {DB} bk seen (s : ApiState (DB := DB)) r :
  watched bk seen s -> in_order (observed sampled_symbol (seen ++ observation r)) ->
  watched bk (seen ++ observation r) (play_round s r) /\
  as_exchange (play_round s r) = (if trips bk (seen ++ observation r) r then halt_symbol 1 else id) (as_exchange s).
Proof.
  intros [W1 W2] Hs. unfold play_round, sampler_round, sample, trips, observation in *. unfold midpoint_of in *.
  destruct (rd_quotes r) as [quotes|e]; [|by rewrite app_nil_r].
  rewrite bind_ok. destruct (foldl better_quotes _ quotes) as [bid ask]. cbn [fst snd] in *.
  destruct (dgt bid dzero && dgt ask dzero); [|by rewrite app_nil_r].
  cbv zeta in *. set (m := ddiv (dadd bid ask) (dbl 2)) in *. set (seen' := seen ++ _) in *.
  rewrite bind_change, bind_ok, bind_reading. set (s1 := on_sampler _ s).
  assert (watched bk seen' s1) as HW1.
  { split; [|done]. unfold s1. cbn. rewrite W1. unfold seen', history_run. by rewrite foldl_app. }
  set (early := (_ || _)). assert (exists s2, (if early then _ ← may_throw (Ok tt); change (on_sampler (with_prune (rd_now r))) else mret tt) s1
    = (Returned tt, s2) /\ watched bk seen' s2 /\ as_exchange s2 = as_exchange s) as (s2 & E2 & [W3 W4] & EX2).
  { destruct early; eexists; (split; [done|]); (split; [by destruct HW1|done]). }
  rewrite (bind_run _ _ _ _ _ E2). unfold change. cbn [snd]. unfold trip_breaker. rewrite W4.
  pose proof (history_answers_by_time default_retention sampled_symbol seen' (rd_now r - bk_window_ns bk) Hs) as (_ & _ & _ & _ & EA).
  rewrite W3, EA. fold (reference bk seen' (rd_now r)).
  destruct (bk_enabled bk && (bk_window_ns bk <? rd_now r)) eqn:EB; cbn [andb].
  - destruct (reference bk seen' (rd_now r)) as [o|]; [|by rewrite <- EX2].
    destruct (dgt (mo_midpoint o) dzero && dge _ _) eqn:EC.
    + cbn. by rewrite EX2.
    + by rewrite <- EX2.
  - by destruct (reference bk seen' (rd_now r)); rewrite <- EX2.
Qed.

Lemma rounds_follow {DB} bk rs : forall seen (s : ApiState (DB := DB)), watched bk seen s ->
  in_order (observed sampled_symbol (seen ++ mjoin (observation <$> rs))) ->
  let s' := foldl play_round s rs in
  watched bk (seen ++ mjoin (observation <$> rs)) s' /\
  as_exchange s' = (if any_trips bk seen rs then halt_symbol 1 else id) (as_exchange s).
Proof.
  induction rs as [|r rs IH]; intros seen s HW Hs; cbn [fmap list_fmap mjoin list_join foldl any_trips] in *; [by rewrite app_nil_r|].
  rewrite app_assoc in Hs. assert (in_order (observed sampled_symbol (seen ++ observation r))) as Hs1.
  { unfold observed in *. rewrite omap_app in Hs. by apply StronglySorted_app in Hs as (_ & Hs & _). }
  destruct (play_round_step bk seen s r HW Hs1) as [HW1 E1]. destruct (IH _ _ HW1 Hs) as [HW2 E2].
  rewrite app_assoc. split; [done|]. rewrite E2, E1.
  destruct (trips _ _ r), (any_trips _ _ rs); cbn [orb id]; rewrite ?halt_symbol_twice; done.
Qed.

(** C39: the volatility breaker halts the sampled instrument exactly when it should.
    Over any rounds of the market sampler, whatever the quotes (or a failure to read
    them), as long as the clock does not go back and the stores answer: the history
    of midpoints is that of the rounds that saw quotes on both sides, and the symbol
    is halted exactly if in some round the breaker is enabled and the midpoint has
    moved by at least the threshold from the newest retained observation that is at
    least a window old.  Nothing else of the exchange changes.  A midpoint is half
    way between the highest bid and the lowest ask of the venues with both. *)
Theorem breaker_follows_history {DB} bk rs (s : ApiState (DB := DB)) :
  sa_midpoints (as_sampler s) = new_history default_retention -> sa_breaker (as_sampler s) = bk ->
  in_order (observed sampled_symbol (mjoin (observation <$> rs))) ->
  let s' := foldl play_round s rs in
  sa_midpoints (as_sampler s') = history_run (new_history default_retention) (mjoin (observation <$> rs)) /\
  as_exchange s' = (if any_trips bk [] rs then halt_symbol 1 else id) (as_exchange s) /\
  (forall r quotes m, rd_quotes r = Ok quotes -> Forall priced (omap two_sided quotes) -> midpoint_of r = Some m ->
     exists bid ask, best_of (omap two_sided quotes) bid ask /\ m = ddiv (dadd bid ask) (dbl 2)).
Proof.
  intros H1 H2 Hs s'. destruct (rounds_follow bk rs [] s) as [[HW _] HX]; [by split|done|]. split; [done|]. split; [done|].
  intros r quotes m Er HP Em. unfold midpoint_of in Em. rewrite Er in Em. pose proof (best_quotes quotes HP) as HB. cbv zeta in *.
  destruct (foldl better_quotes (dzero, dzero) quotes) as [bid ask]. cbn [fst snd] in *.
  destruct (omap two_sided quotes); [by injection HB as -> ->|]. exists bid, ask. split; [done|]. by case_match; [injection Em as <-|].
Qed.

(** A window longer than the retention is never full: the breaker does not trip
    whatever the market does. *)
Theorem long_window_never_trips bk seen r m :
  default_retention < bk_window_ns bk -> midpoint_of r = Some m ->
  isfinite m = true -> dle m dzero = false -> rd_now r <> 0 -> in_order (observed sampled_symbol (seen ++ observation r)) ->
  trips bk (seen ++ observation r) r = false.
Proof.
  intros HR Em Hf Hp Hn Hs. unfold trips. rewrite Em.
  assert (reference bk (seen ++ observation r) (rd_now r) = None) as ->; [|done].
  unfold reference, observation. rewrite Em, observed_snoc. cbn [observed omap list_omap].
  rewrite decide_True by done. rewrite Hf, Hp. cbn [negb]. rewrite !orb_false_r.
  destruct (rd_now r =? 0) eqn:E0; [by apply Z.eqb_eq in E0|]. unfold retained. rewrite last_snoc. cbn [mo_timestamp].
  apply last_None. match goal with |- ?l = [] => destruct l as [|o l'] eqn:E end; [done|].
  assert (o ∈ o :: l') as Ho by constructor. rewrite <- E in Ho.
  apply list_elem_of_filter in Ho as [H1 [H2 _]%list_elem_of_filter]. lia.
Qed.

(** ** Witnesses *)


(** A purchase whose fee exceeds the daily loss that is allowed. *)
Definition demo_commands : list OmsCommand :=
  [OCreateParent {| prq_symbol := "BTC"; prq_side := RouteBuy; prq_quantity := dbl 10; prq_algorithm := AlgoMarket |} 1;
   OCreateChild {| crq_parent_id := 1; crq_venue := "A"; crq_price := dbl 5; crq_quantity := dbl 10; crq_created := 2 |};
   OFill 1 (dbl 5) (dbl 10) (dbl 3) 4].

Definition demo_limits : PortfolioRiskLimits := {|
  max_gross_exposure := dzero; max_net_exposure := dzero; max_concentration_percent := dzero;
  Position.max_daily_loss := dbl 1 |}.

Definition one_order : list (Clocks * MarketRequest) := [(demo_clocks, OrderBody (demo_body "1" "7" "buy" "100"))].

(** A store that takes everything. *)
Definition willing : StoreAnswers := fun _ _ => None.

Definition breached_server : ApiState :=
  (run_orders ((fun c => (c, willing)) <$> demo_commands) (limited 8 demo_limits demo_copy demo_latency)).2.

Lemma demo_breach : breach_from demo_limits ∅ (fills_after demo_commands) = true.
Proof. vm_compute. reflexivity. Qed.

Lemma breach_stops_orders_witness :
  globally_halted_ (as_exchange (serve (to_request <$> one_order) breached_server).2) = true /\
  (serve (to_request <$> one_order) breached_server).1 !! 0%nat <> Some (Some ok).
Proof.
  pose proof (breach_stops_orders demo_copy 8 demo_latency demo_limits ((fun c => (c, willing)) <$> demo_commands) one_order) as H.
  rewrite (surjective_pairing (run_orders _ _)) in H. fold breached_server in H.
  destruct H as (_ & _ & _ & _ & _ & HA & HB); [done|by repeat constructor|].
  destruct HA as (EF & _ & _); [intros r db; by eexists|by repeat constructor|].
  rewrite EF, <- list_fmap_compose in HB. change (fst ∘ _) with (@id OmsCommand) in HB. rewrite list_fmap_id in HB.
  specialize (HB ltac:(intros r db; by eexists) demo_breach).
  rewrite (surjective_pairing (serve (to_request <$> one_order) breached_server)) in HB. destruct HB as [H1 H2].
  split; [exact H1|]. exact (H2 0%nat demo_clocks (demo_body "1" "7" "buy" "100") eq_refl).
Defined.

(** A store that fails on fills: the fill is recorded, but the positions, the limits
    and the caller do not hear of it. *)
Definition failing : StoreAnswers := fun row _ => match row with FillRow _ => Some (runtime_error "disk full") | _ => None end.

Definition unsaved_server : ApiState :=
  (run_orders ((fun c => (c, failing)) <$> demo_commands) (limited 8 demo_limits demo_copy demo_latency)).2.

Example unsaved_fill_is_not_held :
  let o := as_orders unsaved_server in
  length (execution_reports_ (or_oms o)) = 1%nat /\ st_fills (or_store o) = ∅ /\ or_positions o = ∅ /\
  globally_halted_ (as_exchange unsaved_server) = false.
Proof. by vm_compute. Qed.

Definition demo_quote (bid ask : Z) : VenueQuote := {|
  vq_venue := "kraken"; vq_bids := [{| vl_price := dbl bid; vl_quantity := dbl 1 |}];
  vq_asks := [{| vl_price := dbl ask; vl_quantity := dbl 1 |}]; vq_taker_fee_bps := dzero; vq_latency_ms := dzero;
  vq_latency_cost_bps_per_ms := dzero; vq_healthy := true |}.

(** 100, no quotes, then 110 two windows later. *)
Definition demo_rounds : list Round :=
  [{| rd_quotes := Ok [demo_quote 99 101]; rd_now := 30000000000 |};
   {| rd_quotes := Throw (runtime_error "no file"); rd_now := 40000000000 |};
   {| rd_quotes := Ok [demo_quote 109 111]; rd_now := 90000000000 |}].

Definition demo_breaker : BreakerConfig := {|
  bk_enabled := true; bk_threshold_percent := dbl 5; bk_window_ns := 30000000000 |}.

Definition demo_sampler : ApiState (DB := list Row) :=
  on_sampler (fun a => {| sa_midpoints := sa_midpoints a; sa_breaker := demo_breaker; sa_last_prune := sa_last_prune a |})
    (ApiState0 8 demo_copy demo_latency).

Lemma breaker_follows_history_witness :
  symbol_halted 1 (as_exchange (foldl play_round demo_sampler demo_rounds)) = true /\
  any_trips demo_breaker [] (take 2 demo_rounds) = false.
Proof.
  pose proof (breaker_follows_history demo_breaker demo_rounds demo_sampler eq_refl eq_refl) as H.
  destruct H as (_ & H & _); [cbn; repeat constructor; cbn; lia|]. rewrite H.
  split; vm_compute; reflexivity.
Defined.

Lemma long_window_never_trips_witness :
  trips {| bk_enabled := true; bk_threshold_percent := dbl 5; bk_window_ns := 400000000000 |}
    ([(sampled_symbol, 1, dbl 10)] ++ observation {| rd_quotes := Ok [demo_quote 99 101]; rd_now := 500000000000 |})
    {| rd_quotes := Ok [demo_quote 99 101]; rd_now := 500000000000 |} = false.
Proof.
  apply (long_window_never_trips _ _ _ (dbl 100)); try (vm_compute; reflexivity); [done|].
  assert (observed sampled_symbol ([(sampled_symbol, 1, dbl 10)] ++ observation {| rd_quotes := Ok [demo_quote 99 101]; rd_now := 500000000000 |})
    = [{| mo_timestamp := 1; mo_midpoint := dbl 10 |}; {| mo_timestamp := 500000000000; mo_midpoint := dbl 100 |}]) as -> by by vm_compute.
  repeat constructor; cbn; lia.
Defined.

Lemma restart_restores_orders_witness :
  let o := recover_orders saved (map_to_list (st_parents saved)).*2 (map_to_list (st_children saved)).*2
             (execution_reports_ (run overfill_commands)) demo_limits in
  next_child_id_ (or_oms o) = 3 /\ net_quantity (Position.position "BTC" (or_positions o)) = dbl 20.
Proof.
  destruct (restart_restores_orders overfill_commands (map_to_list (st_parents saved)).*2
    (map_to_list (st_children saved)).*2 (execution_reports_ (run overfill_commands)) demo_limits)
    as (_ & _ & _ & _ & H1 & _ & H2).
  - by vm_compute.
  - done.
  - done.
  - vm_compute. apply perm_swap.
  - apply (reports_sorted 5), (run_inv overfill_commands). by vm_compute.
  - split.
    + transitivity (next_child_id_ (run overfill_commands)); [exact H1|by vm_compute].
    + transitivity (net_quantity (Position.position "BTC" (positions_of (fills_after overfill_commands)))); [|by vm_compute].
      exact (f_equal (fun m => net_quantity (Position.position "BTC" m)) H2).
Defined.
