(* ===== verification/LiveQuotes.v ===== *)
(** * Quotes of the live venues ([live_router_quotes.cpp])

    The books that the adapters of [live_feed/live_market.py] publish as JSON files,
    read with string searches, and the theorem that they are read as published.  The
    environment and the files are arguments. *)

From S2P Require Import Prelude.
From S2P Require Import Text.
From S2P Require Import Float.
From S2P Require Import Decimal.
From S2P Require Import Router.

(** ** Reading *)

(** [load_file], where a file may be missing. *)
Definition load_file (files : string -> option str) (path : string) : str := default [] (files path).

Definition is_number_char (c : ascii) : bool :=
  match digit_value c with
  | Some _ => true
  | None => bool_decide (c = "."%char) || bool_decide (c = "-"%char) || bool_decide (c = "+"%char) ||
            bool_decide (c = "e"%char) || bool_decide (c = "E"%char)
  end.

Fixpoint number_prefix (s : str) : str :=
  match s with
  | c :: s => if is_number_char c then c :: number_prefix s else []
  | [] => []
  end.

Definition field_marker (field : string) : str := quote_char :: lit field ++ [quote_char; ":"%char].

Definition json_number_field (body : str) (field : string) : option double :=
  match find_text (field_marker field) body with
  | None => None
  | Some begin =>
      match number_prefix (skip_space (drop (begin + length (field_marker field)) body)) with
      | [] => None
      | text => match stod text with Ok x => Some x.1 | Throw _ => None end
      end
  end.

Definition read_level (object : str) : option VenueLevel :=
  match json_number_field object "price", json_number_field object "quantity" with
  | Some price, Some quantity =>
      if dgt price dzero && dgt quantity dzero then Some {| vl_price := price; vl_quantity := quantity |} else None
  | _, _ => None
  end.

(** The loop, on the text from [position]; [room] is how many levels are missing. *)
Fixpoint scan_levels (fuel room : nat) (s : str) : list VenueLevel :=
  match fuel, room with
  | O, _ | _, O => []
  | S fuel, S room' =>
      match find_text (lit "{") s, find_text (lit "]") s with
      | Some object_begin, Some array_end =>
          if (array_end <? object_begin)%nat then []
          else
            match find_text (lit "}") (drop object_begin s) with
            | None => []
            | Some size =>
                let object_end := (object_begin + size)%nat in
                if (array_end <? object_end)%nat then []
                else
                  let object := take (S size) (drop object_begin s) in
                  match read_level object with
                  | Some l => l :: scan_levels fuel room' (drop (S object_end) s)
                  | None => scan_levels fuel room (drop (S object_end) s)
                  end
            end
      | _, _ => []
      end
  end.

Definition array_marker (side : string) : str := quote_char :: lit side ++ [quote_char; ":"%char; "["%char].

Definition json_book_levels (body : str) (side : string) (maximum_levels : nat) : list VenueLevel :=
  match find_text (array_marker side) body with
  | None => []
  | Some array_begin => scan_levels (length body) maximum_levels (drop (array_begin + length (array_marker side)) body)
  end.

(** [getenv] with an empty value as with none. *)
Definition environment_double (env : string -> option str) (name : string) (fallback : double) : double :=
  match env name with
  | None | Some [] => fallback
  | Some raw => match stod raw with Ok x => if isfinite x.1 then x.1 else fallback | Throw _ => fallback end
  end.

Definition venue_fee_bps (env : string -> option str) (venue : string) : double :=
  if bool_decide (venue = "coinbase") then environment_double env "ROUTER_COINBASE_TAKER_FEE_BPS" (dbl 60)
  else if bool_decide (venue = "kraken") then environment_double env "ROUTER_KRAKEN_TAKER_FEE_BPS" (dbl 40)
  else if bool_decide (venue = "binance") then environment_double env "ROUTER_BINANCE_TAKER_FEE_BPS" (dbl 10)
  else dzero.

Definition venue_latency_ms (env : string -> option str) (venue : string) : double :=
  if bool_decide (venue = "coinbase") then environment_double env "ROUTER_COINBASE_LATENCY_MS" dzero
  else if bool_decide (venue = "kraken") then environment_double env "ROUTER_KRAKEN_LATENCY_MS" dzero
  else if bool_decide (venue = "binance") then environment_double env "ROUTER_BINANCE_LATENCY_MS" dzero
  else dzero.

Definition live_path (venue symbol : string) : string := "data/live/" +:+ venue +:+ "_" +:+ symbol +:+ ".json".

Definition live_quote (env files : string -> option str) (symbol : string) (latency_cost : double) (venue : string) : VenueQuote :=
  let body := load_file files (live_path venue symbol) in
  let bids := json_book_levels body "bids" 20 in
  let asks := json_book_levels body "asks" 20 in {|
  vq_venue := venue; vq_bids := bids; vq_asks := asks; vq_taker_fee_bps := venue_fee_bps env venue;
  vq_latency_ms := venue_latency_ms env venue; vq_latency_cost_bps_per_ms := latency_cost;
  vq_healthy := bool_decide (bids <> []) && bool_decide (asks <> []) |}.

Definition read_live_router_quotes (env files : string -> option str) (symbol : string) : list VenueQuote :=
  let latency_cost := dmax dzero (environment_double env "ROUTER_LATENCY_COST_BPS_PER_MS" dzero) in
  live_quote env files symbol latency_cost <$> ["coinbase"; "kraken"; "binance"].

(** ** What the adapters write

    [json.dumps] with compact separators of the levels: the texts of a price and of
    a quantity. *)

Definition quoted_name (name : string) : str := quote_char :: lit name ++ [quote_char].

Definition level_text (l : str * str) : str :=
  lit "{" ++ field_marker "price" ++ l.1 ++ lit "," ++ field_marker "quantity" ++ l.2 ++ lit "," ++ quoted_name "orders" ++ lit ":1}".

Fixpoint levels_text (ls : list (str * str)) : str :=
  match ls with
  | [] => []
  | [l] => level_text l
  | l :: ls => level_text l ++ lit "," ++ levels_text ls
  end.

Definition number_text (s : str) : Prop := s <> [] /\ Forall (fun c => is_number_char c = true) s.

(** The level that two texts stand for, when it counts. *)
Definition level_of (l : str * str) : option VenueLevel :=
  match stod l.1, stod l.2 with
  | Ok price, Ok quantity =>
      if dgt price.1 dzero && dgt quantity.1 dzero then Some {| vl_price := price.1; vl_quantity := quantity.1 |} else None
  | _, _ => None
  end.

(** ** Searches in it *)

Lemma number_not (c : ascii) s : is_number_char c = false -> number_text s -> c ∉ s.
Proof. intros Hc [_ Hs] Hin. rewrite Forall_forall in Hs. specialize (Hs _ Hin). congruence. Qed.

Lemma number_prefix_app s c r : Forall (fun c => is_number_char c = true) s -> is_number_char c = false ->
  number_prefix (s ++ c :: r) = s.
Proof. intros Hs Hc. induction Hs as [|d s Hd _ IH]; cbn [app number_prefix]; [by rewrite Hc|by rewrite Hd, IH]. Qed.

Lemma number_not_space c : is_number_char c = true -> is_space c = false.
Proof. destruct c as [[] [] [] [] [] [] [] []]; vm_compute; done. Qed.

Lemma skip_space_number s r : number_text s -> skip_space (s ++ r) = s ++ r.
Proof.
  intros [Hn Hs]. destruct Hs as [|c s Hc _]; [done|]. cbn [app skip_space]. by rewrite (number_not_space c Hc).
Qed.

(** A number after its marker. *)
Lemma field_value field pre s c r : find_text (field_marker field) (pre ++ field_marker field) = Some (length pre) ->
  number_text s -> is_number_char c = false ->
  json_number_field (pre ++ field_marker field ++ s ++ c :: r) field =
    match stod s with Ok x => Some x.1 | Throw _ => None end.
Proof.
  intros Hf Hs Hc. unfold json_number_field. rewrite app_assoc, (find_text_app _ _ (s ++ c :: r) _ Hf).
  rewrite drop_app_length', skip_space_number, number_prefix_app by (done || apply Hs || by rewrite length_app).
  destruct s; [by destruct Hs|done].
Qed.

(** The search passes a mark that is followed by another character. *)
Lemma find_miss a b p y : b <> a ->
  find_text (quote_char :: a :: p) (quote_char :: b :: y) = S <$> find_text (quote_char :: a :: p) (b :: y).
Proof.
  intros Hb. cbn [find_text].
  assert (starts_with (quote_char :: a :: p) (quote_char :: b :: y) = false) as ->; [|done].
  unfold starts_with. apply bool_decide_eq_false_2. cbn [length take]. congruence.
Qed.

Definition before_quantity (price : str) : str := lit "{" ++ field_marker "price" ++ price ++ lit ",".

Lemma find_quantity price : number_text price ->
  find_text (field_marker "quantity") (before_quantity price ++ field_marker "quantity") = Some (length (before_quantity price)).
Proof.
  intros Hp. unfold before_quantity, field_marker. cbn [lit String.list_ascii_of_string app].
  set (w := ":"%char :: price ++ [","%char]).
  assert (quote_char ∉ w) as Hw.
  { unfold w. rewrite not_elem_of_cons, not_elem_of_app, list_elem_of_singleton. split; [done|].
    split; [by apply number_not|done]. }
  set (m := quote_char :: _ : str) at 1.
  assert (forall y, find_text m ("{"%char :: quote_char :: lit "price" ++ quote_char :: w ++ y) =
    (fun i => 8 + (length w + i))%nat <$> find_text m y) as HF.
  { intros y. change ("{"%char :: quote_char :: lit "price" ++ quote_char :: w ++ y) with
      (["{"%char] ++ quote_char :: lit "price" ++ quote_char :: w ++ y). unfold m at 1. rewrite find_text_skip by (vm_compute; set_solver).
    fold m. change (quote_char :: lit "price" ++ quote_char :: w ++ y) with (quote_char :: "p"%char :: lit "rice" ++ quote_char :: w ++ y).
    unfold m at 1. rewrite find_miss by done. fold m.
    change ("p"%char :: lit "rice" ++ quote_char :: w ++ y) with (lit "price" ++ quote_char :: w ++ y).
    unfold m at 1. rewrite find_text_skip by (vm_compute; set_solver). fold m.
    unfold w at 1. cbn [app]. unfold m at 1. rewrite find_miss by done. fold m.
    change (":"%char :: (price ++ [","%char]) ++ y) with (w ++ y). unfold m at 1. rewrite find_text_skip by done. fold m.
    destruct (find_text m y); cbn; [f_equal; lia|done]. }
  replace (_ :: _ : str) with ("{"%char :: quote_char :: lit "price" ++ quote_char :: w ++ m).
  - rewrite HF, find_text_here by apply starts_with_self. cbn. f_equal. rewrite !length_app. cbn. lia.
  - unfold w, m. cbn. rewrite <- !app_assoc. done.
Qed.

Lemma read_level_text l r : number_text l.1 -> number_text l.2 -> read_level (level_text l ++ r) = level_of l.
Proof.
  intros H1 H2. unfold read_level, level_of.
  assert (json_number_field (level_text l ++ r) "price" = match stod l.1 with Ok x => Some x.1 | Throw _ => None end) as ->.
  { unfold level_text. rewrite <- !app_assoc. apply (field_value "price" (lit "{") l.1 ","%char); done. }
  assert (json_number_field (level_text l ++ r) "quantity" = match stod l.2 with Ok x => Some x.1 | Throw _ => None end) as ->.
  { assert (level_text l ++ r = before_quantity l.1 ++ field_marker "quantity" ++ l.2 ++ ","%char ::
      quoted_name "orders" ++ lit ":1}" ++ r) as -> by (unfold level_text, before_quantity; by rewrite <- !app_assoc).
    apply field_value; [by apply find_quantity|done|done]. }
  destruct (stod l.1), (stod l.2); done.
Qed.

(** ** The loop *)

Definition texts_ok (ls : list (str * str)) : Prop := Forall (fun l => number_text l.1 /\ number_text l.2) ls.

(** All of the text of a level but its closing brace. *)
Definition open_text (l : str * str) : str :=
  lit "{" ++ field_marker "price" ++ l.1 ++ lit "," ++ field_marker "quantity" ++ l.2 ++ lit "," ++ quoted_name "orders" ++ lit ":1".

Lemma level_text_open l : level_text l = open_text l ++ lit "}".
Proof. unfold level_text, open_text. by rewrite <- !app_assoc. Qed.

Lemma not_in_open c l : number_text l.1 -> number_text l.2 -> is_number_char c = false ->
  c ∉ lit "{" ++ field_marker "price" -> c ∉ lit "," ++ field_marker "quantity" -> c ∉ lit "," ++ quoted_name "orders" ++ lit ":1" ->
  c ∉ open_text l.
Proof.
  intros H1 H2 Hc Ha Hb Hd. unfold open_text. rewrite !not_elem_of_app in *. pose proof (number_not c l.1 Hc H1).
  pose proof (number_not c l.2 Hc H2). tauto.
Qed.

Lemma find_one c a b : c ∉ a -> find_text [c] (a ++ c :: b) = Some (length a).
Proof.
  intros Ha. rewrite find_text_skip by done. rewrite find_text_here by apply (starts_with_prefix [c] b). cbn. f_equal. lia.
Qed.

Lemma no_bracket l : number_text l.1 -> number_text l.2 -> "]"%char ∉ level_text l.
Proof.
  intros H1 H2. rewrite level_text_open, not_elem_of_app. split; [|vm_compute; set_solver].
  apply (not_in_open _ _ H1 H2); apply (bool_decide_unpack _); vm_compute; exact I.
Qed.

Lemma scan_one fuel room pre l rest k : number_text l.1 -> number_text l.2 -> "{"%char ∉ pre -> "]"%char ∉ pre ->
  find_text (lit "]") rest = Some k ->
  scan_levels (S fuel) (S room) (pre ++ level_text l ++ rest) =
    match level_of l with Some v => v :: scan_levels fuel room rest | None => scan_levels fuel (S room) rest end.
Proof.
  intros H1 H2 Hp Hq Hk. cbn [scan_levels].
  assert (find_text (lit "{") (pre ++ level_text l ++ rest) = Some (length pre)) as -> by by apply find_one.
  assert (find_text (lit "]") (pre ++ level_text l ++ rest) = Some (length pre + (length (level_text l) + k))%nat) as ->.
  { change (lit "]") with ["]"%char] in *. rewrite !find_text_skip by (done || by apply no_bracket). by rewrite Hk. }
  rewrite drop_app_length.
  assert (find_text (lit "}") (level_text l ++ rest) = Some (length (open_text l))) as ->.
  { rewrite level_text_open, <- app_assoc. apply find_one. apply (not_in_open _ _ H1 H2); apply (bool_decide_unpack _); vm_compute; exact I. }
  assert (length (level_text l) = S (length (open_text l))) as EL by (rewrite level_text_open, length_app; cbn; lia).
  rewrite (proj2 (Nat.ltb_ge _ _)) by lia. rewrite (proj2 (Nat.ltb_ge _ _)) by lia.
  rewrite <- EL, take_app_length. replace (level_text l) with (level_text l ++ []) at 1 by apply app_nil_r.
  rewrite read_level_text by done.
  assert (drop (S (length pre + length (open_text l))) (pre ++ level_text l ++ rest) = rest) as ->; [|done].
  replace (S (length pre + length (open_text l))) with (length (pre ++ level_text l)) by (rewrite length_app; lia).
  by rewrite app_assoc, drop_app_length.
Qed.

Lemma bracket_after pre ls post : texts_ok ls -> "]"%char ∉ pre ->
  find_text (lit "]") (pre ++ levels_text ls ++ lit "]" ++ post) = Some (length (pre ++ levels_text ls)).
Proof.
  intros HL Hp. rewrite app_assoc. apply find_one. rewrite not_elem_of_app. split; [done|].
  induction HL as [|l ls [H1 H2] HL IH]; [apply not_elem_of_nil|]. pose proof (no_bracket l H1 H2). destruct ls; [done|].
  cbn [levels_text]. rewrite !not_elem_of_app. split; [done|]. split; [vm_compute; set_solver|done].
Qed.

Lemma scan_end fuel room post : scan_levels fuel room (lit "]" ++ post) = [].
Proof.
  destruct fuel, room; try done. cbn [scan_levels].
  assert (find_text (lit "{") (lit "]" ++ post) = S <$> find_text (lit "{") post) as -> by by apply (find_text_skip "{"%char [] ["]"%char]); vm_compute; set_solver.
  rewrite (find_text_here (lit "]")) by apply starts_with_prefix. by destruct (find_text (lit "{") post).
Qed.

Lemma scan_all ls : forall fuel room pre post, texts_ok ls -> (length ls < fuel)%nat -> "{"%char ∉ pre -> "]"%char ∉ pre ->
  ls <> [] -> scan_levels fuel room (pre ++ levels_text ls ++ lit "]" ++ post) = take room (omap level_of ls).
Proof.
  induction ls as [|l ls IH]; intros fuel room pre post HL Hf Hp Hq Hn; [done|].
  apply Forall_cons in HL as [[H1 H2] HL]. destruct fuel as [|fuel]; [cbn in Hf; lia|]. destruct room as [|room]; [done|].
  cbn [omap list_omap]. destruct (decide (ls = [])) as [->|Hne].
  - cbn [levels_text]. rewrite (scan_one fuel room pre l (lit "]" ++ post) 0) by (done || by rewrite find_text_here by apply starts_with_prefix).
    rewrite !scan_end. destruct (level_of l); cbn; by rewrite ?take_nil.
  - assert (levels_text (l :: ls) = level_text l ++ lit "," ++ levels_text ls) as -> by by destruct ls.
    rewrite <- !app_assoc. rewrite (scan_one fuel room pre l _ _ H1 H2 Hp Hq (bracket_after (lit ",") ls post HL ltac:(vm_compute; set_solver))).
    rewrite !IH by (done || cbn in *; lia || vm_compute; set_solver). by destruct (level_of l).
Qed.

(** ** The quotes *)

(** A marker does not occur before its place. *)
Definition first_marker (m pre : str) : Prop := find_text m (pre ++ m) = Some (length pre).

Lemma length_level_text l : (1 <= length (level_text l))%nat.
Proof. unfold level_text. rewrite length_app. cbn. lia. Qed.

Lemma length_levels_text ls : (length ls <= length (levels_text ls))%nat.
Proof.
  induction ls as [|l ls IH]; [done|]. pose proof (length_level_text l). destruct ls as [|l' ls]; [cbn in *; lia|].
  cbn [levels_text]. rewrite !length_app. cbn in *. lia.
Qed.

Lemma json_book_levels_read side pre ls post n : first_marker (array_marker side) pre -> texts_ok ls ->
  json_book_levels (pre ++ array_marker side ++ levels_text ls ++ lit "]" ++ post) side n = take n (omap level_of ls).
Proof.
  intros Hm HL. unfold json_book_levels. rewrite app_assoc, (find_text_app _ _ _ _ Hm).
  rewrite drop_app_length' by by rewrite length_app. destruct (decide (ls = [])) as [->|Hne].
  - etrans; [exact (scan_end _ n post)|]. cbn. by rewrite take_nil.
  - apply (scan_all ls _ n [] post); try done; try (by apply not_elem_of_nil).
    pose proof (length_levels_text ls). rewrite !length_app. cbn. lia.
Qed.

(** The file of a venue, as its adapter writes it. *)
Definition published_file (pre : str) (bids : list (str * str)) (mid : str) (asks : list (str * str)) (post : str) : str :=
  pre ++ array_marker "bids" ++ levels_text bids ++ lit "]" ++ mid ++ array_marker "asks" ++ levels_text asks ++ lit "]" ++ post.

(** The quote of a venue holds, on each side, the first twenty levels that its
    adapter published with a positive price and quantity, in the published order,
    whatever else the file holds; it is healthy if both sides have one. *)
Theorem published_books_are_quoted env files symbol venue pre bids mid asks post :
  venue ∈ ["coinbase"; "kraken"; "binance"] ->
  files (live_path venue symbol) = Some (published_file pre bids mid asks post) ->
  texts_ok bids -> texts_ok asks -> first_marker (array_marker "bids") pre ->
  first_marker (array_marker "asks") (pre ++ array_marker "bids" ++ levels_text bids ++ lit "]" ++ mid) ->
  exists q, q ∈ read_live_router_quotes env files symbol /\ vq_venue q = venue /\
    vq_bids q = take 20 (omap level_of bids) /\ vq_asks q = take 20 (omap level_of asks) /\
    vq_healthy q = bool_decide (vq_bids q <> []) && bool_decide (vq_asks q <> []).
Proof.
  intros Hv Hf Hb Ha Mb Ma. unfold read_live_router_quotes. cbv zeta. eexists. split; [by apply list_elem_of_fmap_2|].
  unfold live_quote, load_file. cbv zeta. rewrite Hf. cbn [default id vq_venue vq_bids vq_asks vq_healthy].
  split; [done|]. split; [by apply json_book_levels_read|]. split; [|done].
  pose proof (json_book_levels_read "asks" _ asks post 20 Ma Ha) as H. rewrite <- H. f_equal. unfold published_file.
  by rewrite <- !app_assoc.
Qed.

(** ** Examples *)

Definition demo_file : str :=
  published_file (quote_char :: lit "status" ++ lit ":1,") [(lit "99.5", lit "2"); (lit "99", lit "0"); (lit "98.25", lit "1e1")]
    (lit ",") [(lit "100.5", lit "3")] (lit "}").

Example demo_quotes_read :
  vq_bids <$> read_live_router_quotes (fun _ => None) (fun p => if bool_decide (p = "data/live/kraken_btcusd.json") then Some demo_file else None) "btcusd" =
  [[]; [{| vl_price := S754_finite false 7001690045677568 (-46); vl_quantity := dbl 2 |};
        {| vl_price := S754_finite false 6913729115455488 (-46); vl_quantity := dbl 10 |}]; []].
Proof. vm_compute. reflexivity. Qed.

(** A file that a JSON library prints with spaces has no levels for the reader. *)
Example spaces_hide_levels :
  json_book_levels (quote_char :: lit "bids" ++ quote_char :: lit ": [{" ++ field_marker "price" ++ lit "1," ++ field_marker "quantity" ++ lit "1}]") "bids" 20 = [].
Proof. vm_compute. reflexivity. Qed.
