(* ===== verification/Dashboard.v ===== *)
(** * The web dashboard ([apps/web.cpp])

    A demonstration exchange whose actions are logged, so that any earlier moment can
    be shown again: [DashboardState], the scenarios, the arena, the timeline, the
    texts, and the routes that use them.  The numbers that the arena draws are
    arguments, because the standard does not fix [std::uniform_int_distribution]. *)

From stdpp Require Import gmap strings.
From S2P Require Import Prelude.
From S2P Require Import Types.
From S2P Require Import OrderBook.
From S2P Require Import Exchange.
From S2P Require Import Text.
From S2P Require Import Decimal.
From S2P Require Import Risk.

(** ** Forms *)

Fixpoint url_decode (s : str) : str :=
  match s with
  | [] => []
  | c :: s' =>
      if bool_decide (c = "+"%char) then " "%char :: url_decode s'
      else if bool_decide (c = "%"%char) then
        match s' with
        | h :: (l :: s'') as s2 =>
            match hex_value h, hex_value l with
            | Some hi, Some lo => ascii_of_nat (Z.to_nat (16 * hi + lo)) :: url_decode s''
            | _, _ => c :: url_decode s'
            end
        | _ => c :: url_decode s'
        end
      else c :: url_decode s'
  end.

Definition Form : Type := gmap str str.

(** The pieces between the ampersands; there is one at least. *)
Fixpoint pieces (fuel : nat) (s : str) : list str :=
  match fuel, split_at "&"%char s with
  | S fuel, Some (p, s) => p :: pieces fuel s
  | _, _ => [s]
  end.

Definition add_pair (fields : Form) (pair : str) : Form :=
  match split_at "="%char pair with
  | None => <[url_decode pair := []]> fields
  | Some (k, v) => <[url_decode k := url_decode v]> fields
  end.

Definition parse_form (body : str) : Form := foldl add_pair ∅ (pieces (length body) body).

Definition parse_query (target : str) : Form :=
  match split_at "?"%char target with None => ∅ | Some (_, query) => parse_form query end.

Definition at_key (name : string) (fields : Form) : result str :=
  match fields !! lit name with Some v => Ok v | None => Throw (out_of_range "map::at") end.

Definition parse_side (value : str) : option Side :=
  let v := lower <$> value in
  if bool_decide (v = lit "buy") then Some Buy else if bool_decide (v = lit "sell") then Some Sell else None.

Definition parse_type (value : str) : option OrderType :=
  let v := lower <$> value in
  if bool_decide (v = lit "limit") then Some Limit
  else if bool_decide (v = lit "market") then Some Market
  else if bool_decide (v = lit "ioc") then Some IOC
  else if bool_decide (v = lit "fok") then Some FOK
  else if bool_decide (v = lit "post") || bool_decide (v = lit "postonly") then Some PostOnly
  else None.

(** [number_field<T>], with the cast to [T]. *)
Definition number_field (cast : Z -> Z) (fields : Form) (key : string) : result Z :=
  match fields !! lit key with
  | None => Throw (runtime_error ("missing field: " +:+ key))
  | Some text =>
      value ← stoull text;
      if bool_decide (value.2 <> length text) then Throw (runtime_error ("invalid field: " +:+ key)) else Ok (cast value.1)
  end.

(** ** The state *)

Inductive ActionBody := NewOrder (r : OrderRequest) | CancelOrder (r : CancelRequest) | ReplaceOrder (r : ReplaceRequest).

Record LoggedAction := { la_body : ActionBody; la_accepted : bool; la_actor : string }.

Record DashboardState := {
  ds_exchange : Exchange; ds_trades : list Trade; ds_reports : list ExecutionReport; ds_submitted : Z; ds_accepted : Z;
  ds_rejected : Z; ds_trade_count : Z; ds_traded_quantity : Z; ds_timeline : list LoggedAction
}.

(** A constructed or reset state.  The totals of routed executions are not part of
    the record: nothing here reads or changes them. *)
Definition fresh (capacity : nat) : DashboardState := {|
  ds_exchange := new_exchange capacity; ds_trades := []; ds_reports := []; ds_submitted := 0; ds_accepted := 0;
  ds_rejected := 0; ds_trade_count := 0; ds_traded_quantity := 0; ds_timeline := [] |}.

Definition set_exchange (x : Exchange) (s : DashboardState) : DashboardState := {|
  ds_exchange := x; ds_trades := ds_trades s; ds_reports := ds_reports s; ds_submitted := ds_submitted s;
  ds_accepted := ds_accepted s; ds_rejected := ds_rejected s; ds_trade_count := ds_trade_count s;
  ds_traded_quantity := ds_traded_quantity s; ds_timeline := ds_timeline s |}.

Definition count_submitted (s : DashboardState) : DashboardState := {|
  ds_exchange := ds_exchange s; ds_trades := ds_trades s; ds_reports := ds_reports s;
  ds_submitted := u64 (ds_submitted s + 1); ds_accepted := ds_accepted s; ds_rejected := ds_rejected s;
  ds_trade_count := ds_trade_count s; ds_traded_quantity := ds_traded_quantity s; ds_timeline := ds_timeline s |}.

Definition push_timeline (a : LoggedAction) (s : DashboardState) : DashboardState := {|
  ds_exchange := ds_exchange s; ds_trades := ds_trades s; ds_reports := ds_reports s; ds_submitted := ds_submitted s;
  ds_accepted := ds_accepted s; ds_rejected := ds_rejected s; ds_trade_count := ds_trade_count s;
  ds_traded_quantity := ds_traded_quantity s; ds_timeline := ds_timeline s ++ [a] |}.

(** The two handlers. *)
Definition note_event (s : DashboardState) (e : Event) : DashboardState :=
  match e with
  | ETrade t => {|
      ds_exchange := ds_exchange s; ds_trades := take 100 (t :: ds_trades s); ds_reports := ds_reports s;
      ds_submitted := ds_submitted s; ds_accepted := ds_accepted s; ds_rejected := ds_rejected s;
      ds_trade_count := u64 (ds_trade_count s + 1); ds_traded_quantity := u32 (ds_traded_quantity s + tr_quantity t);
      ds_timeline := ds_timeline s |}
  | EReport r => {|
      ds_exchange := ds_exchange s; ds_trades := ds_trades s; ds_reports := take 100 (r :: ds_reports s);
      ds_submitted := ds_submitted s;
      ds_accepted := if bool_decide (er_status r = Accepted) then u64 (ds_accepted s + 1) else ds_accepted s;
      ds_rejected := if bool_decide (er_status r = Rejected) then u64 (ds_rejected s + 1) else ds_rejected s;
      ds_trade_count := ds_trade_count s; ds_traded_quantity := ds_traded_quantity s; ds_timeline := ds_timeline s |}
  end.

(** A call of the exchange with the calls of the handlers that it makes. *)
Definition on_exchange (m : ST Exchange bool) : ST DashboardState bool := fun s =>
  let (r, x) := m (ds_exchange s) in
  (r, foldl note_event (set_exchange x s) (drop (length (ex_log (ds_exchange s))) (ex_log x))).

Definition perform (b : ActionBody) : ST DashboardState bool :=
  match b with
  | NewOrder r => modify count_submitted;; on_exchange (submit r)
  | CancelOrder r => on_exchange (cancel r)
  | ReplaceOrder r => on_exchange (replace r)
  end.

Definition apply_logged_action (a : LoggedAction) (record : bool) : ST DashboardState unit :=
  ok ← perform (la_body a);
  if (record : bool) then modify (push_timeline {| la_body := la_body a; la_accepted := ok; la_actor := la_actor a |})
  else mret tt.

(** An action and its entry, as the routes, the scenarios and the arena make them. *)
Definition act (b : ActionBody) (actor : string) : ST DashboardState bool :=
  ok ← perform b; modify (push_timeline {| la_body := b; la_accepted := ok; la_actor := actor |});; mret ok.

Fixpoint act_all (bs : list (ActionBody * string)) : ST DashboardState unit :=
  match bs with
  | [] => mret tt
  | (b, actor) :: bs => act b actor;; act_all bs
  end.

(** ** Scenarios *)

Definition scenario_order (id client symbol : Z) (side : Side) (type : OrderType) (price qty : Z) : ActionBody * string :=
  (NewOrder {| req_order_id := id; req_client_id := client; req_side := side; req_type := type; req_price := price;
               req_quantity := qty; req_symbol := symbol |}, "SCENARIO").

Definition scenario_orders (name : str) : list (ActionBody * string) :=
  if bool_decide (name = lit "fifo") then
    [scenario_order 1 10 1 Sell Limit 10000 50; scenario_order 2 11 1 Sell Limit 10000 25; scenario_order 3 12 1 Buy Limit 10000 60]
  else if bool_decide (name = lit "multisymbol") then
    [scenario_order 1 10 1 Buy Limit 9998 100; scenario_order 2 11 1 Sell Limit 10002 100;
     scenario_order 3 10 2 Buy Limit 19995 80; scenario_order 4 11 2 Sell Limit 20005 80; scenario_order 5 12 1 Buy Market 0 25]
  else if bool_decide (name = lit "advanced") then
    [scenario_order 1 10 1 Sell Limit 10000 40; scenario_order 2 11 1 Sell Limit 10001 60; scenario_order 3 12 1 Buy FOK 10001 100;
     scenario_order 4 13 1 Buy PostOnly 10002 10; scenario_order 5 14 1 Buy PostOnly 9999 75]
  else if bool_decide (name = lit "flashcrash") then
    ((fun i => scenario_order (100 + i) 20 1 Buy Limit (10000 - i) (150 - i * 5)) <$> seqZ 0 12) ++
    ((fun i => scenario_order (200 + i) 21 1 Sell Market 0 120) <$> seqZ 0 8)
  else if bool_decide (name = lit "liquidityvacuum") then
    [scenario_order 1 10 1 Buy Limit 9980 40; scenario_order 2 11 1 Sell Limit 10020 40; scenario_order 3 12 1 Buy Market 0 25;
     scenario_order 4 13 1 Sell Market 0 25]
  else
    [scenario_order 1 10 1 Buy Limit 9998 75; scenario_order 2 11 1 Buy Limit 9999 100; scenario_order 3 12 1 Sell Limit 10001 90;
     scenario_order 4 13 1 Sell Limit 10002 110].

Definition reset (capacity : nat) : ST DashboardState unit := modify (fun _ => fresh capacity).

Definition scenario (capacity : nat) (name : str) : ST DashboardState unit := reset capacity;; act_all (scenario_orders name).

(** ** The arena *)

(** What a step draws: the offset (before the quantity), the bit and the quantity. *)
Record Draw := { dr_offset : Z; dr_bit : bool; dr_quantity : Z }.

Definition agent_order (i : Z) (d : Draw) : string * Side * OrderType * Price :=
  let mid := 10000 + (i `div` 25) `mod` 7 - 3 in
  match i `mod` 5 with
  | 0 => let side := if i `mod` 2 =? 0 then Buy else Sell in
         ("MARKET_MAKER", side, Limit, mid + (if decide (side = Buy) then -2 else 2))
  | 1 => let side := if (i `div` 20) `mod` 2 =? 0 then Buy else Sell in
         ("MOMENTUM", side, (if i `mod` 11 =? 0 then Market else IOC), mid + (if decide (side = Buy) then 3 else -3))
  | 2 => let side := if 0 <? dr_offset d then Sell else Buy in
         ("MEAN_REVERSION", side, Limit, mid + (if decide (side = Buy) then -1 else 1))
  | 3 => ("INSTITUTIONAL_TWAP", Buy, IOC, mid + 2)
  | _ => ("NOISE", if dr_bit d then Buy else Sell, Limit, mid + dr_offset d)
  end.

Definition agent_request (i next_id : Z) (d : Draw) : string * OrderRequest :=
  let '(actor, side, type, price) := agent_order i d in
  (actor, {| req_order_id := next_id; req_client_id := 100 + i `mod` 5; req_side := side; req_type := type;
             req_price := if decide (type = Market) then 0 else price; req_quantity := u32 (dr_quantity d); req_symbol := 1 |}).

Definition every (n i : Z) : bool := negb (n =? 0) && ((i + 1) `mod` n =? 0).

(** The actions of the remaining steps from step [i]. *)
Fixpoint arena_actions (steps : nat) (i next_id drop_every duplicate_every : Z) (draws : Z -> Draw) : list (ActionBody * string) :=
  match steps with
  | O => []
  | S steps =>
      if every drop_every i then arena_actions steps (i + 1) next_id drop_every duplicate_every draws
      else
        let (actor, r) := agent_request i next_id (draws i) in
        (NewOrder r, actor) :: (if every duplicate_every i then [(NewOrder r, "FAULT_DUPLICATE")] else []) ++
        arena_actions steps (i + 1) (next_id + 1) drop_every duplicate_every draws
  end.

Definition run_arena (capacity : nat) (steps : nat) (drop_every duplicate_every : Z) (draws : Z -> Draw) : ST DashboardState unit :=
  reset capacity;; act_all (arena_actions steps 0 1 drop_every duplicate_every draws).

(** ** Texts *)

Definition key (name : string) : str := quote_char :: lit name ++ [quote_char; ":"%char].

Fixpoint commas (l : list str) : str :=
  match l with
  | [] => []
  | [s] => s
  | s :: l => s ++ ","%char :: commas l
  end.

Definition object (l : list (string * str)) : str := lit "{" ++ commas ((fun x => key x.1 ++ x.2) <$> l) ++ lit "}".

Definition array (l : list str) : str := lit "[" ++ commas l ++ lit "]".

Definition escape (c : ascii) : str :=
  if bool_decide (c = quote_char) || bool_decide (c = "\"%char) then ["\"%char; c]
  else if bool_decide (c = ascii_of_nat 10) then lit "\n"
  else if bool_decide (c = ascii_of_nat 13) then lit "\r"
  else if bool_decide (c = ascii_of_nat 9) then lit "\t"
  else [c].

Definition json_escape (s : str) : str := s ≫= escape.

Definition json_text (s : string) : str := quote_char :: lit s ++ [quote_char].

Definition report_status (x : Status) : string :=
  match x with
  | Accepted => "ACCEPTED" | PartiallyFilled => "PARTIAL" | Filled => "FILLED" | Cancelled => "CANCELLED"
  | Replaced => "REPLACED" | Rejected => "REJECTED" | Expired => "EXPIRED"
  end.

Definition depth_text (l : DepthLevel) : str :=
  object [("price", print_integer (dl_price l)); ("quantity", print_integer (dl_quantity l)); ("orders", print_integer (dl_order_count l))].

Definition emit_depth (symbol : SymbolId) (side : Side) (ex : Exchange) : str :=
  array match find_book symbol ex with Some book => depth_text <$> depth side 12 book | None => [] end.

(** The trades that are shown: the loop ends when 25 of the kept trades are not
    older than the one just written. *)
Fixpoint trades_feed (kept : list Trade) (symbol : SymbolId) (ts : list Trade) : list Trade :=
  match ts with
  | [] => []
  | t :: ts =>
      if bool_decide (tr_symbol t <> symbol) then trades_feed kept symbol ts
      else t :: (if (25 <=? length (filter (fun u => tr_symbol u = symbol /\ tr_sequence t <= tr_sequence u)%Z kept))%nat
                 then [] else trades_feed kept symbol ts)
  end.

Definition trade_text (t : Trade) : str :=
  object [("sequence", print_integer (tr_sequence t)); ("maker", print_integer (tr_maker_order_id t));
          ("taker", print_integer (tr_taker_order_id t)); ("price", print_integer (tr_price t));
          ("quantity", print_integer (tr_quantity t)); ("side", json_text (to_string (tr_taker_side t)))].

Definition report_text (r : ExecutionReport) : str :=
  object [("sequence", print_integer (er_sequence r)); ("orderId", print_integer (er_order_id r));
          ("status", json_text (report_status (er_status r))); ("remaining", print_integer (er_remaining r));
          ("reason", print_integer (reason_code (er_reject_reason r)))].

Definition state_json (s : DashboardState) (symbol : SymbolId) : result str :=
  hash ← state_hash (ds_exchange s);
  Ok (object [
    ("symbol", print_integer symbol);
    ("symbols", array (print_integer <$> symbols (ds_exchange s)));
    ("metrics", object [("submitted", print_integer (ds_submitted s)); ("accepted", print_integer (ds_accepted s));
       ("rejected", print_integer (ds_rejected s)); ("trades", print_integer (ds_trade_count s));
       ("tradedQuantity", print_integer (ds_traded_quantity s));
       ("activeOrders", print_integer (active_orders (ds_exchange s))); ("stateHash", print_integer hash)]);
    ("bids", emit_depth symbol Buy (ds_exchange s)); ("asks", emit_depth symbol Sell (ds_exchange s));
    ("tradesFeed", array (trade_text <$> trades_feed (ds_trades s) symbol (ds_trades s)));
    ("reports", array (report_text <$> take 25 (filter (fun r => er_symbol r = symbol) (ds_reports s))))]).

Definition action_json (a : LoggedAction) (index : Z) : str :=
  object ([("index", print_integer index); ("actor", quote_char :: json_escape (lit (la_actor a)) ++ [quote_char]);
           ("accepted", lit (if la_accepted a then "true" else "false"))] ++
    match la_body a with
    | NewOrder r => [("kind", json_text "NEW"); ("orderId", print_integer (req_order_id r)); ("symbol", print_integer (req_symbol r));
        ("side", json_text (to_string (req_side r))); ("price", print_integer (req_price r));
        ("quantity", print_integer (req_quantity r))]
    | CancelOrder r => [("kind", json_text "CANCEL"); ("orderId", print_integer (can_order_id r)); ("symbol", print_integer (can_symbol r))]
    | ReplaceOrder r => [("kind", json_text "REPLACE"); ("orderId", print_integer (rep_order_id r));
        ("symbol", print_integer (rep_symbol r)); ("price", print_integer (rep_new_price r));
        ("quantity", print_integer (rep_new_quantity r))]
    end).

Fixpoint replay_actions (l : list LoggedAction) : ST DashboardState unit :=
  match l with
  | [] => mret tt
  | a :: l => apply_logged_action a false;; replay_actions l
  end.

(** The last 30 actions before the frame with their numbers. *)
Definition shown_actions (l : list LoggedAction) (frame : nat) : list str :=
  let begin := (frame - 30)%nat in
  imap (fun i a => action_json a (Z.of_nat (begin + i) + 1)) (drop begin (take frame l)).

Definition timeline_json (capacity : nat) (source : DashboardState) (symbol : SymbolId) (frame : Z) : result str :=
  let total := length (ds_timeline source) in
  let frame := Z.to_nat (Z.min frame (Z.of_nat total)) in
  match replay_actions (take frame (ds_timeline source)) (fresh capacity) with
  | (Throw e, _) => Throw e
  | (Ok _, replay) =>
      body ← state_json replay symbol;
      Ok (removelast body ++ ","%char :: key "timeline" ++
          object [("frame", print_integer (Z.of_nat frame)); ("total", print_integer (Z.of_nat total));
                  ("actions", array (shown_actions (ds_timeline source) frame))] ++ lit "}")
  end.

Definition explain_trade_json (s : DashboardState) (sequence : Sequence) : str :=
  match list_find (fun t => tr_sequence t = sequence) (ds_trades s) with
  | None => object [("found", lit "false")]
  | Some (_, t) =>
      let n := print_integer in
      object [("found", lit "true"); ("sequence", n (tr_sequence t));
        ("title", quote_char :: lit "Trade " ++ n (tr_sequence t) ++ lit " explanation" ++ [quote_char]);
        ("explanation", quote_char :: lit "Taker order " ++ n (tr_taker_order_id t) ++ lit " (" ++ lit (to_string (tr_taker_side t)) ++
           lit ") crossed resting maker order " ++ n (tr_maker_order_id t) ++ lit " at maker price " ++ n (tr_price t) ++
           lit ". Price priority selected the best opposing price; FIFO selected the oldest order at that price. " ++
           n (tr_quantity t) ++ lit " units executed." ++ [quote_char])]
  end.

(** ** Requests *)

Inductive WebStatus := WebOk | WebUnprocessable | WebBadRequest.

(** The text of an error is left out. *)
Record Reply := { rp_status : WebStatus; rp_body : option str }.

Definition done_reply : Reply := {| rp_status := WebOk; rp_body := Some (object [("ok", lit "true")]) |}.

Definition outcome_reply (done : bool) : Reply := {|
  rp_status := if done then WebOk else WebUnprocessable; rp_body := Some (object [("ok", lit (if done then "true" else "false"))]) |}.

Definition text_reply (s : str) : Reply := {| rp_status := WebOk; rp_body := Some s |}.



(** [stoul] where [unsigned long] has 64 bits. *)
Definition stoul (s : str) : result Z := z ← stoull s; Ok z.1.

Definition post_order (fields : Form) : ST DashboardState Reply := fun s =>
  match (side ← at_key "side" fields; type ← at_key "type" fields;
         match parse_side side, parse_type type with
         | Some side, Some type =>
             id ← number_field u64 fields "orderId"; client ← number_field u32 fields "clientId";
             price ← number_field i64 fields "price"; quantity ← number_field u32 fields "quantity";
             symbol ← number_field u32 fields "symbol";
             Ok {| req_order_id := id; req_client_id := client; req_side := side; req_type := type; req_price := price;
                   req_quantity := quantity; req_symbol := symbol |}
         | _, _ => Throw (runtime_error "invalid side or type")
         end) with
  | Throw e => (Throw e, s)
  | Ok order => (ok ← act (NewOrder order) "MANUAL"; mret (outcome_reply ok)) s
  end.

Definition post_cancel (fields : Form) : ST DashboardState Reply := fun s =>
  match (id ← number_field u64 fields "orderId"; client ← number_field u32 fields "clientId";
         symbol ← number_field u32 fields "symbol";
         Ok {| can_order_id := id; can_client_id := client; can_symbol := symbol |}) with
  | Throw e => (Throw e, s)
  | Ok request => (ok ← act (CancelOrder request) "MANUAL"; mret (outcome_reply ok)) s
  end.

Definition post_replace (fields : Form) : ST DashboardState Reply := fun s =>
  match (id ← number_field u64 fields "orderId"; client ← number_field u32 fields "clientId";
         price ← number_field i64 fields "price"; quantity ← number_field u32 fields "quantity";
         symbol ← number_field u32 fields "symbol";
         Ok {| rep_order_id := id; rep_client_id := client; rep_new_price := price; rep_new_quantity := quantity;
               rep_symbol := symbol |}) with
  | Throw e => (Throw e, s)
  | Ok request => (ok ← act (ReplaceOrder request) "MANUAL"; mret (outcome_reply ok)) s
  end.

Definition post_scenario (capacity : nat) (fields : Form) : ST DashboardState Reply := fun s =>
  match at_key "name" fields with
  | Throw e => (Throw e, s)
  | Ok name => (scenario capacity name;; mret done_reply) s
  end.

(** A number of the form or the query with a default. *)
Definition number_or (default : Z) (name : string) (fields : Form) (read : str -> result Z) : result Z :=
  match fields !! lit name with Some text => read text | None => Ok default end.

Definition stoull_value (s : str) : result Z := z ← stoull s; Ok z.1.

Definition post_arena (capacity : nat) (draws : Z -> Draw) (fields : Form) : ST DashboardState Reply := fun s =>
  match (steps ← number_or 500 "steps" fields stoull_value;
         drop_every ← number_or 0 "dropEvery" fields stoul; duplicate_every ← number_or 0 "duplicateEvery" fields stoul;
         Ok (steps, u32 drop_every, u32 duplicate_every)) with
  | Throw e => (Throw e, s)
  | Ok (steps, drop_every, duplicate_every) =>
      match run_arena capacity (Z.to_nat (Z.min steps 5000)) drop_every duplicate_every draws s with
      | (Throw e, s) => (Throw e, s)
      | (Ok _, s) => (Ok (text_reply (object [("ok", lit "true"); ("frames", print_integer (Z.of_nat (length (ds_timeline s))))])), s)
      end
  end.

Definition get_timeline (capacity : nat) (query : Form) (s : DashboardState) : result Reply :=
  symbol ← number_or 1 "symbol" query stoul;
  frame ← number_or (Z.of_nat (length (ds_timeline s))) "frame" query stoull_value;
  text ← timeline_json capacity s (u32 symbol) frame; Ok (text_reply text).

Definition get_state (query : Form) (s : DashboardState) : result Reply :=
  symbol ← number_or 1 "symbol" query stoul; text ← state_json s (u32 symbol); Ok (text_reply text).

Definition get_explain (query : Form) (s : DashboardState) : result Reply :=
  sequence ← at_key "sequence" query ≫= stoull_value; Ok (text_reply (explain_trade_json s sequence)).

(** A request for one of these routes, and what an arena that it starts draws. *)
Inductive WebRequest :=
| WebOrder (body : str) | WebCancel (body : str) | WebReplace (body : str) | WebReset
| WebScenario (body : str) | WebArena (body : str) (draws : Z -> Draw)
| WebState (target : str) | WebTimeline (target : str) | WebExplain (target : str).

Definition reading (f : DashboardState -> result Reply) : ST DashboardState Reply := fun s => (f s, s).

Definition route (capacity : nat) (q : WebRequest) : ST DashboardState Reply :=
  match q with
  | WebOrder body => post_order (parse_form body)
  | WebCancel body => post_cancel (parse_form body)
  | WebReplace body => post_replace (parse_form body)
  | WebReset => reset capacity;; mret done_reply
  | WebScenario body => post_scenario capacity (parse_form body)
  | WebArena body draws => post_arena capacity draws (parse_form body)
  | WebState target => reading (get_state (parse_query target))
  | WebTimeline target => reading (get_timeline capacity (parse_query target))
  | WebExplain target => reading (get_explain (parse_query target))
  end.

(** [handle_request]: an exception becomes an answer. *)
Definition handle_request (capacity : nat) (q : WebRequest) (s : DashboardState) : Reply * DashboardState :=
  match route capacity q s with
  | (Ok r, s) => (r, s)
  | (Throw _, s) => ({| rp_status := WebBadRequest; rp_body := None |}, s)
  end.

(** [main]: the scenario [basic], then one request after the other. *)
Definition web_start (capacity : nat) : DashboardState := (scenario capacity (lit "basic") (fresh capacity)).2.

Definition web_run (capacity : nat) (qs : list WebRequest) : DashboardState :=
  foldl (fun s q => (handle_request capacity q s).2) (web_start capacity) qs.
