(* ===== verification/DashboardProps.v ===== *)
(** * The dashboard's timeline

    The timeline determines the state: running it again from a fresh state, with or
    without recording, gives the state and the answers back, so that a frame of the
    timeline shows the state of that moment. *)

From stdpp Require Import gmap strings.
From S2P Require Import Prelude.
From S2P Require Import Types.
From S2P Require Import OrderBook.
From S2P Require Import BookProps.
From S2P Require Import Exchange.
From S2P Require Import ExchangeProps.
From S2P Require Import Text.
From S2P Require Import Decimal.
From S2P Require Import Risk.
From S2P Require Import Dashboard.

(** ** The timeline and the rest of the state *)

Definition with_timeline (l : list LoggedAction) (s : DashboardState) : DashboardState := {|
  ds_exchange := ds_exchange s; ds_trades := ds_trades s; ds_reports := ds_reports s;
  ds_submitted := ds_submitted s; ds_accepted := ds_accepted s; ds_rejected := ds_rejected s;
  ds_trade_count := ds_trade_count s; ds_traded_quantity := ds_traded_quantity s; ds_timeline := l |}.

Lemma note_events_timeline l evs s :
  foldl note_event (with_timeline l s) evs = with_timeline l (foldl note_event s evs).
Proof.
  revert s. induction evs as [|e evs IH]; intros s; [done|]. cbn [foldl]. rewrite <- IH. f_equal. by destruct e.
Qed.

Lemma note_events_exchange evs s : ds_exchange (foldl note_event s evs) = ds_exchange s.
Proof. revert s. induction evs as [|[] evs IH]; intros s; [done|cbn [foldl]; rewrite IH; reflexivity..]. Qed.

Lemma on_exchange_timeline m l s :
  on_exchange m (with_timeline l s) = ((on_exchange m s).1, with_timeline l (on_exchange m s).2).
Proof.
  unfold on_exchange. cbn [with_timeline ds_exchange]. destruct (m (ds_exchange s)) as [r x]. cbn [fst snd].
  by rewrite <- note_events_timeline.
Qed.

Lemma bind_modify {S B} f (k : unit -> ST S B) s : (modify f ≫= k) s = k tt (f s).
Proof. done. Qed.

Lemma run_bind {S A B} (m : ST S A) (k : A -> ST S B) s a s' : m s = (Ok a, s') -> (m ≫= k) s = k a s'.
Proof. intros E. unfold mbind, st_bind. by rewrite E. Qed.

Lemma perform_timeline b l s :
  perform b (with_timeline l s) = ((perform b s).1, with_timeline l (perform b s).2).
Proof. destruct b; cbn [perform]; rewrite ?bind_modify; try apply on_exchange_timeline.
  exact (on_exchange_timeline (submit r) l (count_submitted s)).
Qed.

Lemma perform_keeps b s : ds_timeline (perform b s).2 = ds_timeline s.
Proof.
  pose proof (perform_timeline b (ds_timeline s) s) as E.
  replace (with_timeline (ds_timeline s) s) with s in E by by destruct s.
  rewrite E at 1. done.
Qed.

(** ** No call throws *)

Definition body_ok (b : ActionBody) : Prop :=
  match b with
  | NewOrder r => in_u32 (req_quantity r)
  | CancelOrder _ => True
  | ReplaceOrder r => in_u32 (rep_new_quantity r)
  end.

#[local] Instance body_ok_dec b : Decision (body_ok b).
Proof. destruct b; unfold body_ok, in_u32; apply _. Defined.

Lemma on_exchange_ok c s : ex_ok (ds_exchange s) -> ex_cmd_ok c -> (forall x p d, c <> XBand x p d) ->
  exists ok, (on_exchange (ex_exec c) s).1 = Ok ok /\ ex_ok (ds_exchange (on_exchange (ex_exec c) s).2).
Proof.
  intros HX HC HN. destruct (commands_return c _ HX HC HN) as [ok E]. pose proof (ex_step_ok c _ HX HC) as HX'.
  exists ok. unfold on_exchange. destruct (ex_exec c (ds_exchange s)) as [r x]. cbn [fst snd] in *.
  by rewrite note_events_exchange.
Qed.

Lemma perform_ok b s : ex_ok (ds_exchange s) -> body_ok b ->
  exists ok, (perform b s).1 = Ok ok /\ ex_ok (ds_exchange (perform b s).2).
Proof.
  intros HX HB. destruct b; cbn [perform]; rewrite ?bind_modify.
  - by apply (on_exchange_ok (XSubmit r) (count_submitted s)).
  - by apply (on_exchange_ok (XCancel r) s).
  - by apply (on_exchange_ok (XReplace r) s).
Qed.

(** ** Running a timeline again *)

(** As [replay_actions], with the entries recorded. *)
Fixpoint rerun (l : list LoggedAction) : ST DashboardState unit :=
  match l with
  | [] => mret tt
  | a :: l => apply_logged_action a true;; rerun l
  end.

Lemma rerun_app l1 l2 s s' : rerun l1 s = (Ok tt, s') -> rerun (l1 ++ l2) s = rerun l2 s'.
Proof.
  revert s. induction l1 as [|a l1 IH]; intros s E; [by injection E as ->|]. cbn [rerun app] in *.
  unfold mbind, st_bind in *. destruct (apply_logged_action a true s) as [[u|e] s1]; [by apply IH|done].
Qed.

Lemma apply_unrecorded a s s' : apply_logged_action a true s = (Ok tt, s') ->
  apply_logged_action a false (with_timeline [] s) = (Ok tt, with_timeline [] s').
Proof.
  unfold apply_logged_action, mbind, st_bind. rewrite perform_timeline.
  destruct (perform (la_body a) s) as [[ok|e] s1]; [|done]. cbn [fst snd]. by intros [= <-].
Qed.

Lemma rerun_replay l s s' : rerun l s = (Ok tt, s') ->
  replay_actions l (with_timeline [] s) = (Ok tt, with_timeline [] s').
Proof.
  revert s. induction l as [|a l IH]; intros s E; [by injection E as ->|]. cbn [rerun replay_actions] in *.
  destruct (apply_logged_action a true s) as [[[]|e] s1] eqn:Ea.
  - rewrite (run_bind _ _ _ _ _ Ea) in E. rewrite (run_bind _ _ _ _ _ (apply_unrecorded _ _ _ Ea)). by apply IH.
  - unfold mbind, st_bind in E. by rewrite Ea in E.
Qed.

(** The state is what its timeline leads to. *)
Record consistent (capacity : nat) (s : DashboardState) : Prop := {
  co_exchange : ex_ok (ds_exchange s);
  co_rerun : rerun (ds_timeline s) (fresh capacity) = (Ok tt, s)
}.

Lemma fresh_consistent capacity : Z.of_nat capacity <= npos -> consistent capacity (fresh capacity).
Proof. intros HC. split; [by apply new_exchange_ok|done]. Qed.

Lemma act_consistent capacity b actor s : consistent capacity s -> body_ok b ->
  exists ok s', act b actor s = (Ok ok, s') /\ consistent capacity s' /\
    ds_timeline s' = ds_timeline s ++ [{| la_body := b; la_accepted := ok; la_actor := actor |}].
Proof.
  intros [HX HR] HB. destruct (perform_ok b s HX HB) as (ok & E1 & HX').
  pose proof (perform_keeps b s) as EK.
  destruct (perform b s) as [r s1] eqn:EP. cbn [fst snd] in *. subst r.
  set (a := {| la_body := b; la_accepted := ok; la_actor := actor |}).
  exists ok, (push_timeline a s1). split_and!.
  - unfold act. by rewrite (run_bind _ _ _ _ _ EP).
  - split; [done|]. cbn [push_timeline ds_timeline]. rewrite EK, (rerun_app _ _ _ _ HR). cbn [rerun].
    assert (apply_logged_action a true s = (Ok tt, push_timeline a s1)) as EA
      by exact (run_bind (perform b) _ _ _ _ EP).
    by rewrite (run_bind _ _ _ _ _ EA).
  - cbn [push_timeline ds_timeline]. by rewrite EK.
Qed.

Lemma act_all_consistent capacity bs s : consistent capacity s -> Forall (fun x => body_ok x.1) bs ->
  exists s', act_all bs s = (Ok tt, s') /\ consistent capacity s'.
Proof.
  intros HS HB. revert s HS. induction HB as [|[b actor] bs Hb _ IH]; intros s HS; [by exists s|]. cbn [act_all].
  destruct (act_consistent capacity b actor s HS Hb) as (ok & s1 & E & HS1 & _).
  rewrite (run_bind _ _ _ _ _ E). by apply IH.
Qed.

(** ** What the requests do to the timeline *)

Lemma scenario_orders_ok name : Forall (fun x => body_ok x.1) (scenario_orders name).
Proof.
  unfold scenario_orders. repeat case_bool_decide; apply (bool_decide_unpack _); vm_compute; exact I.
Qed.

Lemma arena_actions_ok steps i id drop dup draws :
  Forall (fun x => body_ok x.1) (arena_actions steps i id drop dup draws).
Proof.
  revert i id. induction steps as [|steps IH]; intros i id; [constructor|]. cbn [arena_actions].
  case_match; [apply IH|]. unfold agent_request.
  destruct (agent_order i (draws i)) as [[[actor side] type] price].
  assert (forall id' price', body_ok (NewOrder {| req_order_id := id'; req_client_id := 100 + i `mod` 5; req_side := side;
    req_type := type; req_price := price'; req_quantity := u32 (dr_quantity (draws i)); req_symbol := 1 |})) as HB.
  { intros id' price'. apply u32_range. }
  constructor; [apply HB|]. apply Forall_app. split; [|apply IH]. case_match; repeat constructor; apply HB.
Qed.

(** The requests that only append to the timeline. *)
Definition appends (q : WebRequest) : bool :=
  match q with WebReset | WebScenario _ | WebArena _ _ => false | _ => true end.

(** The state after a request, and what it did to the timeline. *)
Definition continues (capacity : nat) (s s' : DashboardState) : Prop :=
  consistent capacity s' /\ ds_timeline s `prefix_of` ds_timeline s'.

Lemma route_act capacity b s : consistent capacity s -> body_ok b ->
  continues capacity s ((ok ← act b "MANUAL"; mret (outcome_reply ok)) s).2.
Proof.
  intros HS HB. destruct (act_consistent capacity b "MANUAL" s HS HB) as (ok & s' & E & HS' & ET).
  rewrite (run_bind _ _ _ _ _ E). split; [done|]. cbn [mret st_ret snd]. rewrite ET. by eexists.
Qed.

Lemma number_field_u32 fields name z : number_field u32 fields name = Ok z -> in_u32 z.
Proof.
  unfold number_field. destruct (fields !! lit name) as [v|]; [|done]. unfold mbind, result_bind.
  destruct (stoull v) as [x|]; [|done]. case_bool_decide; [done|]. intros [= <-]. apply u32_range.
Qed.

Lemma continues_refl capacity s : consistent capacity s -> continues capacity s s.
Proof. done. Qed.

Lemma post_order_continues capacity fields s : consistent capacity s -> continues capacity s (post_order fields s).2.
Proof.
  intros HS. unfold post_order. case_match eqn:E; [|by apply continues_refl]. apply route_act; [done|].
  unfold mbind, result_bind in E. destruct (at_key _ _); [|done]. destruct (at_key _ _); [|done].
  destruct (parse_side _); [|done]. destruct (parse_type _); [|done].
  do 3 (destruct (number_field _ _ _); [|done]). destruct (number_field u32 _ _) eqn:EQ; [|done].
  destruct (number_field u32 fields "symbol"); [|done]. injection E as <-. by eapply number_field_u32.
Qed.

Lemma post_cancel_continues capacity fields s : consistent capacity s -> continues capacity s (post_cancel fields s).2.
Proof. intros HS. unfold post_cancel. case_match eqn:E; [by apply route_act|by apply continues_refl]. Qed.

Lemma post_replace_continues capacity fields s : consistent capacity s -> continues capacity s (post_replace fields s).2.
Proof.
  intros HS. unfold post_replace. case_match eqn:E; [|by apply continues_refl]. apply route_act; [done|].
  unfold mbind, result_bind in E. do 3 (destruct (number_field _ _ _); [|done]).
  destruct (number_field u32 _ _) eqn:EQ; [|done].
  destruct (number_field u32 fields "symbol"); [|done]. injection E as <-. by eapply number_field_u32.
Qed.

Section Requests.

Context (capacity : nat) (HC : Z.of_nat capacity <= npos).

Lemma reset_act_all_consistent bs s : Forall (fun x => body_ok x.1) bs ->
  exists s', (reset capacity;; act_all bs) s = (Ok tt, s') /\ consistent capacity s'.
Proof. intros HB. unfold reset. rewrite bind_modify. apply act_all_consistent; [by apply fresh_consistent|done]. Qed.

Lemma post_scenario_consistent fields s : consistent capacity s -> consistent capacity (post_scenario capacity fields s).2.
Proof.
  intros HS. unfold post_scenario. case_match; [|done].
  destruct (reset_act_all_consistent (scenario_orders a) s (scenario_orders_ok a)) as (s' & E & HS').
  by rewrite (run_bind (scenario capacity a) _ _ _ _ E).
Qed.

Lemma post_arena_consistent draws fields s : consistent capacity s -> consistent capacity (post_arena capacity draws fields s).2.
Proof.
  intros HS. unfold post_arena. case_match; [|done]. destruct a as [[steps drop_every] duplicate_every].
  unfold run_arena. set (bs := arena_actions _ _ _ _ _ _).
  destruct (reset_act_all_consistent bs s (arena_actions_ok _ _ _ _ _ _)) as (s' & E & HS').
  by rewrite E.
Qed.

Lemma route_consistent q s : consistent capacity s ->
  consistent capacity (route capacity q s).2 /\
  (appends q = true -> ds_timeline s `prefix_of` ds_timeline (route capacity q s).2).
Proof.
  intros HS. destruct q; cbn [route appends].
  - by destruct (post_order_continues capacity (parse_form body) s HS).
  - by destruct (post_cancel_continues capacity (parse_form body) s HS).
  - by destruct (post_replace_continues capacity (parse_form body) s HS).
  - split; [|done]. by apply fresh_consistent.
  - split; [|done]. by apply post_scenario_consistent.
  - split; [|done]. by apply post_arena_consistent.
  - done.
  - done.
  - done.
Qed.

Lemma request_consistent q s : consistent capacity s ->
  consistent capacity (handle_request capacity q s).2 /\
  (appends q = true -> ds_timeline s `prefix_of` ds_timeline (handle_request capacity q s).2).
Proof.
  intros HS. pose proof (route_consistent q s HS) as H. unfold handle_request.
  by destruct (route capacity q s) as [[r|e] s'].
Qed.

Lemma web_run_consistent qs : consistent capacity (web_run capacity qs).
Proof.
  unfold web_run. assert (consistent capacity (web_start capacity)) as HS.
  { unfold web_start, scenario.
    destruct (reset_act_all_consistent _ (fresh capacity) (scenario_orders_ok (lit "basic"))) as (s' & E & HS').
    by rewrite E. }
  revert HS. generalize (web_start capacity) as s. induction qs as [|q qs IH]; intros s HS; [done|].
  apply IH. by apply request_consistent.
Qed.

Lemma web_run_prefix qs1 qs2 : forallb appends qs2 = true ->
  ds_timeline (web_run capacity qs1) `prefix_of` ds_timeline (web_run capacity (qs1 ++ qs2)).
Proof.
  intros HA. pose proof (web_run_consistent qs1) as HS. unfold web_run in *. rewrite foldl_app. revert HS.
  generalize (foldl (fun s q => (handle_request capacity q s).2) (web_start capacity) qs1) as s.
  induction qs2 as [|q qs2 IH]; intros s HS; [done|]. cbn [forallb] in HA. apply andb_prop in HA as [Hq HA].
  destruct (request_consistent q s HS) as [HS' HP]. etransitivity; [by apply HP|]. by apply IH.
Qed.

End Requests.

Lemma state_json_total s symbol : ex_ok (ds_exchange s) -> exists text, state_json s symbol = Ok text.
Proof. intros HX. unfold state_json. destruct (state_hash_total _ HX) as [h ->]. by eexists. Qed.

(** C40: The dashboard's timeline shows the past as it was.  Running the recorded
    actions again from an empty exchange gives the present state back, with the
    recorded answers.  And after any requests [qs1], followed by requests [qs2] that
    do not reset the exchange, the frame of the timeline at the length it had after
    [qs1] succeeds and shows the state and the actions that were current then:
    it begins with the text of that state for every symbol, and what [qs2] did is seen only
    in the total number of actions. *)
Theorem timeline_shows_the_past capacity qs1 qs2 :
  Z.of_nat capacity <= npos -> forallb appends qs2 = true ->
  let s1 := web_run capacity qs1 in
  let s2 := web_run capacity (qs1 ++ qs2) in
  let frame := length (ds_timeline s1) in
  rerun (ds_timeline s2) (fresh capacity) = (Ok tt, s2) /\
  (frame <= length (ds_timeline s2))%nat /\
  forall symbol, exists text, state_json s1 symbol = Ok text /\
    timeline_json capacity s2 symbol (Z.of_nat frame) =
      Ok (removelast text ++ ","%char :: key "timeline" ++
          object [("frame", print_integer (Z.of_nat frame));
                  ("total", print_integer (Z.of_nat (length (ds_timeline s2))));
                  ("actions", array (shown_actions (ds_timeline s1) frame))] ++ lit "}").
Proof.
  intros HC HA s1 s2 frame. pose proof (web_run_consistent capacity HC qs1) as [HX1 HR1].
  pose proof (web_run_consistent capacity HC (qs1 ++ qs2)) as [HX2 HR2].
  pose proof (web_run_prefix capacity HC qs1 qs2 HA) as [l EP].
  fold s1 in HX1, HR1, EP. fold s2 in HX2, HR2, EP. split; [done|].
  assert (take frame (ds_timeline s2) = ds_timeline s1) as ET by (rewrite EP; apply take_app_length).
  split; [rewrite EP, length_app; unfold frame; lia|]. intros symbol.
  destruct (state_json_total s1 symbol HX1) as [text E]. exists text. split; [done|]. unfold timeline_json.
  replace (Z.to_nat (Z.min _ _)) with frame by (rewrite EP, length_app; unfold frame; lia).
  rewrite ET. pose proof (rerun_replay _ _ _ HR1) as HP. change (with_timeline [] (fresh capacity)) with (fresh capacity) in HP.
  rewrite HP. change (state_json (with_timeline [] s1) symbol) with (state_json s1 symbol). rewrite E.
  unfold shown_actions. rewrite ET. unfold frame at 5. by rewrite (take_ge (ds_timeline s1)) by done.
Qed.

(** Two requests after the start: an order that trades and one that is refused. *)
Definition later_requests : list WebRequest := [
  WebOrder (lit "orderId=9&clientId=5&side=buy&type=ioc&price=10001&quantity=50&symbol=1");
  WebOrder (lit "orderId=1&clientId=5&side=SELL&type=limit&price=10001&quantity=50&symbol=1")].

Lemma timeline_shows_the_past_witness :
  (ds_accepted (web_run 8 []), ds_trade_count (web_run 8 [])) = (4, 0) /\
  (ds_rejected (web_run 8 later_requests), ds_trade_count (web_run 8 later_requests)) = (1, 1) /\
  (length (ds_timeline (web_run 8 [])) <= length (ds_timeline (web_run 8 ([] ++ later_requests))))%nat.
Proof.
  split; [vm_compute; reflexivity|split; [vm_compute; reflexivity|]].
  pose proof (timeline_shows_the_past 8 [] later_requests
    (ltac:(apply (bool_decide_unpack _); vm_compute; exact I)) (ltac:(vm_compute; reflexivity))) as H.
  exact (proj1 (proj2 H)).
Defined.
